(* ===== verification/_CoqProject ===== *)
-Q . S2P
Prelude.v
GoStrings.v
GoTrim.v
GoFloat.v
ModelAlias.v
Pricing.v
Channel.v
ChannelCache.v
Resolver.v
Billing.v
ImageBilling.v
UsageDB.v
UsageBilling.v
UsageBillingProps.v
GoUTF8.v
Redact.v
Proc.v
ProcGhost.v
Idempotency.v
IdempotencyProps.v
PaymentOrder.v
Fulfillment.v
FulfillmentProps.v
Refund.v
OrderLifecycle.v
RefundProps.v
InstanceSelection.v
OrderCreation.v
OrderCreationProps.v
RedisStore.v
BatchImage.v
BatchPipeline.v
BatchProps.v
BatchQueue.v
BatchQueueProps.v
ConcurrencySlots.v
ConcurrencySteps.v
ConcurrencyProps.v
StreamCircuit.v
Affiliate.v
AffiliateSteps.v
AffiliateProps.v
Subscriptions.v
SubscriptionSteps.v
SubscriptionProps.v
Failover.v
FailoverProps.v
AccountSelection.v
AccountSelectionProps.v
