(* ===== verification/Prelude.v ===== *)
(** * Sub2API: root of the development

    Sub2API (the Go program under [src/backend]) sells access to language models:
    a gateway forwards requests of customers to vendor accounts it owns, charges
    them by tokens, images or requests, and lets them top up a balance or buy
    subscriptions.  This library models the parts that decide about money, limits
    and ownership, and proves what they promise.  Paths below are under
    [src/backend/internal], where [svc] is [service] and [repo] is [repository].

    ** The parts and how they interact

    A request is priced by the channel of its group.  [ModelAlias.v] normalises
    the name of the model ([svc/openai_model_alias.go]); [Pricing.v] has the price
    table and its lookup ([svc/billing_service.go]); [Channel.v] and
    [ChannelCache.v] have the configuration of channels, its validation and the
    flattened cache ([svc/channel.go], [svc/channel_service.go]); [Resolver.v]
    puts both together ([svc/model_pricing_resolver.go]); [Billing.v] and
    [ImageBilling.v] compute the cost.

    The cost is booked by the transactions of [UsageBilling.v] on the tables of
    [UsageDB.v] ([repo/usage_billing_repo.go]), once for a request id.  Batches of
    images reserve an amount first: [BatchImage.v] has the job and item tables,
    [BatchPipeline.v] the life of a job from submission to settlement, and
    [BatchQueue.v] the queue in Redis and its worker ([svc/batch_image_*.go],
    [repo/batch_image_*.go]).

    Money comes in by payment orders: [InstanceSelection.v] chooses a provider
    instance, [OrderCreation.v] creates the order ([svc/payment_order.go],
    [payment/load_balancer.go]), [PaymentOrder.v] checks a notification,
    [Fulfillment.v] credits the order through a redeem code or a subscription
    ([svc/payment_fulfillment.go], [svc/redeem_service.go]), [Refund.v] refunds it
    ([svc/payment_refund.go]) and [OrderLifecycle.v] cancels, expires and verifies
    it ([svc/payment_order_lifecycle.go]).  A completed order earns its user's
    inviter a rebate: [Affiliate.v] has the rebate ledger
    ([repo/affiliate_repo.go], [svc/affiliate_service.go]); [Fulfillment.v] sees it
    through the class [Affiliate].  [Subscriptions.v] has the subscriptions a
    request is admitted on, with their usage windows, terms and revocation
    ([svc/user_subscription.go], [svc/subscription_service.go],
    [repo/user_subscription_repo.go], and the part of
    [server/middleware/api_key_auth.go] that admits).

    Around these, [Idempotency.v] with [Redact.v] replays the answers of requests
    that carry a key ([svc/idempotency.go]), [ConcurrencySlots.v] on [RedisStore.v]
    limits what runs at once ([svc/concurrency_service.go],
    [repo/concurrency_cache.go]), [StreamCircuit.v] quarantines proxies that
    break streams ([svc/openai_proxy_stream_circuit.go]).  [AccountSelection.v]
    chooses the account that serves a request ([svc/gateway_scheduling.go]), and
    [Failover.v] tries one account after another until one does, and submits its
    usage ([handler/failover_loop.go], the loops of [handler/gateway_handler.go]);
    it sees the selection as an oracle that excludes the accounts that failed.

    ** How code is modelled

    Pure functions are Rocq functions of the same name.  Strings are byte strings
    ([GoStrings.v], [GoTrim.v], [GoUTF8.v]), floats the IEEE binary64 of the
    standard library ([GoFloat.v]), [int64] a [Z] that wraps where the code
    computes, a [time] nanoseconds, a decimal column an integer number of its last
    place.  A fallible function returns [res].

    What touches shared state is a process ([Proc.v]): a tree of atomic actions,
    one for every statement, script, transaction that takes effect at its commit,
    and read of the clock.  A run is a schedule of any number of processes; each
    action gets an oracle value that says whether it succeeds, fails, or takes
    effect and loses its answer, what time it is, and what parties outside answer.
    A process that is no longer scheduled has crashed.  The transactions of
    [UsageDB.v] and [Affiliate.v] run statement by statement, and every statement
    and the commit may fail.  Properties of runs are rely-guarantee arguments:
    [safe] in [Proc.v], and [gsafe] in [ProcGhost.v] with a ghost state that
    remembers who owns what.

    ** What the theorems show

    - Prices: the price an administrator configures for a plainly spelled name is
      the one charged, the cache answers like a scan of the configuration, mapping
      does not depend on the order of hash maps, no cost of token counts that are
      not negative is negative ([ChannelCache.v], [Billing.v]); also
      the exact effect of interval validation, agreement of the two billing
      entries, and that an unpriced model is refused.
    - Charges ([UsageBillingProps.v]): at most once, all or nothing, a refinement
      of an abstract charge; holds conserve money, frozen money stays above zero,
      no release without reservation.
    - Batches ([BatchProps.v], [BatchQueueProps.v]): a job leaves the queue only
      when it is settled, as long as one worker at a time has it, settlement ends,
      every image is accounted for as its result line or as failed; no job is
      lost, every job is reserved in time, a lock excludes others.
    - Orders ([OrderCreationProps.v], [FulfillmentProps.v], [RefundProps.v]): the
      instance chosen respects its limits and its snapshot is read back; at most
      one order is created, and what is opened can be paid; an order is completed
      only when it was credited, codes are paid once, subscriptions and rebates
      granted once; a provider answers at most one refund of an order as done, and
      is asked only for one that is under way; every move of an order is an edge
      of its life cycle.  A payment can be confirmed with the metadata that
      [InstanceSelection.v] takes from the provider's notification.
    - Rebates ([AffiliateProps.v]): no rebate is lost or paid twice and balances
      grow by exactly what the ledger transferred, a transfer pays what may be
      withdrawn, inviters last and are counted, and a recharge earns what is due.
    - Subscriptions ([SubscriptionProps.v]): a usage window is kept until it is
      over and restarted once, resetting late changes nothing, a request is
      admitted exactly within the limits of the row or of its cached copy, a user has one live subscription of a
      group, revoking and restoring gives the subscription back.
    - Idempotency ([IdempotencyProps.v]): a keyed request runs once and later ones
      get its answer.
    - Concurrency ([ConcurrencyProps.v]): the sets of slots stay within their
      limits (one more where a live call has a lease), whatever is swept; what is
      relied upon is counted as long as no start-up sweep takes it for dead; and
      everything is given back.  [StreamCircuit.v]: a quarantine is earned, comes
      in time, and memory is bounded.
    - Accounts ([AccountSelectionProps.v]): the layered filters compute the best
      account of a specification, a selection ends with an account that passes the
      checks and the one slot it says it holds, and asks everybody before it queues.
    - Failover ([FailoverProps.v]): a request ends, after a bounded number of
      forwards; it is forwarded in a slot, never after the client got bytes of an
      answer, gives back what it took and is billed once.

    Modules named [...Demo] hold concrete runs: the witnesses of the theorems and
    examples of what the code does that it should not.

    ** Bounds and fuel

    Functions on strings take their length as fuel, which every step shortens.
    [digits36] has fuel 13: thirteen digits in base 36 exceed 2^64.  [Redact.v]
    stops at [maxRedactDepth], as the code does.  Loops that end when their context
    is cancelled, or that wait, take their number of rounds, polls, ticks or pages
    as an argument, and the theorems hold for every number: the worker, mover and
    recovery of the batch queue, heartbeats, the waiting for a slot, the
    controller of a live call, the renewal of a lock.  The loops of [Failover.v]
    have fuel, and [request_ends] says how much is enough.  Loops the code bounds have
    its bound: five trade numbers, twelve affiliate codes, four attempts of a live
    call, five settlement attempts.  That processes end is proved with [ends]:
    settlement within fifty actions of at most five calls, a selection of an account
    within a number linear in the accounts, [SelectInstance] within four actions,
    [CreateOrder] within forty, an accrual within ten.

    ** What is assumed

    The times a subscription is read with are in one fixed offset from UTC
    ([Location]), and kept to the nanosecond (PostgreSQL keeps microseconds).
    Parties outside the repository (payment providers, vendors, the queue seen from
    the batch services) are oracle values; libraries are classes whose laws are
    named where a theorem needs them: Unicode tables ([GoText]), JSON ([GoJSON]),
    hashes ([GoHash]), the float conversions of PostgreSQL ([PgFloat], with
    [PgFloatLaws] and [PgExact], proved for a concrete conversion), its calendar
    ([PgClock]), decimal arithmetic ([Decimals]).  Ids drawn at random are distinct
    where the slots need it ([request_ids_differ] justifies it within 2^64 ids).
    That a request which runs is also counted ([in_use_within_limits]) is proved
    for start-up sweeps that keep the ids of the requests that run ([calm] in
    [ConcurrencySteps.v]); the limits of the sets and the return of
    slots need no such assumption.  The calls of
    the circuit take effect in the order of the mutex, at instants read before.  An order whose creation
    fails is outside the runs of [orders_well_formed].  A forward that finds the
    prompt too long has not written to the client ([prompt_unwritten]: the error
    is built from the upstream's status, [svc/antigravity_gateway_claude.go]); the
    selection draws from some list of accounts ([honest]).  The checks of a
    selection are made at one time ([Checks]).

    ** Not modelled

    Generated data access ([ent]), HTTP handlers, middleware and streaming, the
    rewriting of requests between vendor protocols, authentication and vendor
    OAuth, moderation, dashboards, e-mail, backups and the parsing of settings are
    input and output around the parts above, or need models of third-party
    libraries.  Also left out: rate limits learnt from upstream errors, the selection of
    an account without loads, the handlers and the scheduler of the OpenAI gateway,
    and the limiter of invalid keys. *)

From Stdlib Require Import ZArith Lia Ascii String Bool.
From stdpp Require Import base numbers option list gmap strings.

#[global] Open Scope Z_scope.

(** ** Results of fallible Go functions *)

(** A Go function returning [(T, error)]. *)
Inductive res (E A : Type) : Type :=
| Ok (a : A)
| Err (e : E).
Arguments Ok {E A} a.
Arguments Err {E A} e.

Definition rbind {E A B} (m : res E A) (k : A → res E B) : res E B :=
  match m with
  | Ok a => k a
  | Err e => Err e
  end.

Lemma rbind_ok {E A B} (m : res E A) (k : A → res E B) b :
  rbind m k = Ok b ↔ ∃ a, m = Ok a ∧ k a = Ok b.
Proof. destruct m; simpl; naive_solver. Qed.

Definition is_ok {E A} (m : res E A) : bool :=
  match m with Ok _ => true | Err _ => false end.

Declare Scope go_scope.
Delimit Scope go_scope with go.
Notation "x <-? m ; k" := (rbind m (λ x, k))
  (at level 100, m at level 99, k at level 200, right associativity) : go_scope.
#[global] Open Scope go_scope.

(** ** Go's 64-bit signed integers

    [int], [int64] and [time.Duration] are 64 bits wide; an operation wraps
    around.  A value is a [Z]; [wrap64] is applied where the code computes. *)

Definition min_int64 : Z := - 2 ^ 63.
Definition max_int64 : Z := 2 ^ 63 - 1.
Definition wrap64 (z : Z) : Z := (z + 2 ^ 63) mod 2 ^ 64 - 2 ^ 63.
Definition in_int64 (z : Z) : Prop := min_int64 ≤ z ≤ max_int64.

Notation "a +ᵢ b" := (wrap64 (a + b)) (at level 50, left associativity) : go_scope.
Notation "a -ᵢ b" := (wrap64 (a - b)) (at level 50, left associativity) : go_scope.
Notation "a *ᵢ b" := (wrap64 (a * b)) (at level 40, left associativity) : go_scope.

Lemma wrap64_range z : in_int64 (wrap64 z).
Proof.
  unfold in_int64, wrap64, min_int64, max_int64.
  pose proof (Z.mod_pos_bound (z + 2 ^ 63) (2 ^ 64)). lia.
Qed.

Lemma wrap64_id z : in_int64 z → wrap64 z = z.
Proof.
  unfold in_int64, wrap64, min_int64, max_int64. intros H.
  rewrite Z.mod_small; lia.
Qed.

(** ** Go's [time.Time] and [time.Duration]

    A [time] is the number of nanoseconds since Go's zero time (January 1,
    year 1, 00:00 UTC), so the zero value is 0; a [duration] is an int64 number
    of nanoseconds.  [Time.Sub] saturates at the bounds of [Duration]. *)

Definition time := Z.
Definition duration := Z.

Definition time_IsZero (t : time) : bool := Z.eqb t 0.
Definition time_After (t u : time) : bool := Z.ltb u t.
Definition time_Before (t u : time) : bool := Z.ltb t u.
Definition time_Equal (t u : time) : bool := Z.eqb t u.
Definition time_Add (t : time) (d : duration) : time := t + d.
Definition time_Sub (t u : time) : duration :=
  Z.max min_int64 (Z.min max_int64 (t - u)).

Definition Nanosecond : duration := 1.
Definition Microsecond : duration := 1000.
Definition Millisecond : duration := 1000000.
Definition Second : duration := 1000000000.
Definition Minute : duration := 60 * Second.
Definition Hour : duration := 60 * Minute.
Definition Day : duration := 24 * Hour.

(** [t.AddDate(0, 0, days)] for a time in UTC *)
Definition AddDays (t : time) (days : Z) : time := t + days * Day.

Lemma time_Sub_exact t u : in_int64 (t - u) → time_Sub t u = t - u.
Proof. unfold in_int64, time_Sub. lia. Qed.

(** ** Tactics *)

(** Splits the boolean conjunctions of a hypothesis, and of the goal. *)
Ltac split_andb_in H :=
  lazymatch type of H with
  | (_ && _) = true =>
      let H1 := fresh H in
      let H2 := fresh H in
      apply andb_true_iff in H as [H1 H2]; split_andb_in H1; split_andb_in H2
  | _ => idtac
  end.
Ltac split_andb := repeat (apply andb_true_iff; split).

(** Case analysis on the conditionals of a hypothesis. *)
Ltac split_ifs_in H :=
  repeat match type of H with
         | context [if ?b then _ else _] => destruct b
         end.

Ltac split_ifs :=
  repeat match goal with
         | |- context [if ?b then _ else _] => destruct b
         end.

(** ** Pairwise properties of lists

    [pairwise R l]: [R] holds between an element and every later one.  For a
    symmetric [R] the order of the list does not matter. *)

Fixpoint pairwise {A} (R : A → A → Prop) (l : list A) : Prop :=
  match l with
  | [] => True
  | x :: l => Forall (R x) l ∧ pairwise R l
  end.

Lemma pairwise_perm {A} (R : A → A → Prop) (l l' : list A) :
  (∀ x y, R x y → R y x) → Permutation l l' → pairwise R l → pairwise R l'.
Proof.
  intros Hs Hp. induction Hp as [|x l l' Hp IH|x y l|l l' l'' ? IH1 ? IH2]; simpl.
  - done.
  - intros [Hx Hl]. split; [by rewrite <-Hp|auto].
  - rewrite !Forall_cons. intros ([Hyx Hy] & Hx & Hl). repeat split; auto.
  - auto.
Qed.

Lemma pairwise_impl_Forall {A} (R S : A → A → Prop) (P : A → Prop) (l : list A) :
  Forall P l → (∀ x y, P x → P y → R x y → S x y) → pairwise R l → pairwise S l.
Proof.
  intros HP HRS. induction HP as [|x l Hx HP IH]; simpl; [done|].
  intros [HR Hl]. split; [|auto].
  rewrite Forall_forall in HP, HR |- *. eauto.
Qed.

Lemma pairwise_impl {A} (R S : A → A → Prop) (l : list A) :
  (∀ x y, R x y → S x y) → pairwise R l → pairwise S l.
Proof.
  intros HRS. apply (pairwise_impl_Forall R S (λ _, True)); [|eauto].
  by apply Forall_true.
Qed.

(** When at most one element can pass a test, looking for the first one that
    does finds the same in every order. *)
Lemma find_perm {A} (f : A → bool) (l l' : list A) :
  Permutation l l' → pairwise (λ x y, f x = true → f y = true → False) l →
  List.find f l = List.find f l'.
Proof.
  intros Hp. induction Hp as [|x l l' Hp IH|x y l|l l' l'' Hp1 IH1 Hp2 IH2]; simpl.
  - done.
  - intros [_ Hl]. destruct (f x); auto.
  - rewrite !Forall_cons. intros [[Hxy _] _].
    destruct (f x), (f y); try done. exfalso; auto.
  - intros Hl. rewrite IH1 by done. apply IH2. revert Hl. apply pairwise_perm; [|done].
    naive_solver.
Qed.

Lemma find_None_iff {A} (f : A → bool) (l : list A) :
  List.find f l = None ↔ Forall (λ x, f x = false) l.
Proof.
  induction l as [|x l IH]; simpl; [by split|].
  rewrite Forall_cons. destruct (f x); [split; [done|by intros [? _]]|].
  rewrite IH. split; [by split|by intros [_ ?]].
Qed.
