(* ===== verification/GoStrings.v ===== *)
(** * The functions of Go's [strings] and [strconv] packages the code uses

    A Go string is a sequence of bytes, modelled as a Rocq [string] (one
    [ascii] per byte).  Byte-wise functions are modelled exactly.  [ToLower],
    [ToUpper] and [EqualFold] take Go's byte-wise path on strings of ASCII
    bytes; on other strings they use Unicode tables, which are the fields of
    the class [GoText], so every theorem holds whatever those tables are.
    [TrimSpace] and [Fields] use [unicode.IsSpace], whose 25 runes are listed
    in [space_runes] in their UTF-8 encoding. *)

From Stdlib Require Import ZArith Lia Ascii String Bool.
From stdpp Require Import base numbers option list strings.
From S2P Require Import Prelude.


(** The Unicode part of case mapping, used on non-ASCII input only. *)
Class GoText := {
  unicode_lower : string → string;
  unicode_upper : string → string;
  unicode_fold_eq : string → string → bool;
}.

(** A concrete instance, for closed computations: case mapping leaves
    non-ASCII strings alone and folds nothing. *)
Definition ascii_text : GoText :=
  {| unicode_lower := λ s, s; unicode_upper := λ s, s; unicode_fold_eq := String.eqb |}.

Fixpoint str_map (f : ascii → ascii) (s : string) : string :=
  match s with
  | "" => ""
  | String c s' => String (f c) (str_map f s')
  end.

Fixpoint str_forallb (f : ascii → bool) (s : string) : bool :=
  match s with
  | "" => true
  | String c s' => f c && str_forallb f s'
  end.

Definition byte_of (c : ascii) : Z := Z.of_N (N_of_ascii c).
Definition is_ascii_byte (c : ascii) : bool := byte_of c <? 128.
Definition is_ascii (s : string) : bool := str_forallb is_ascii_byte s.

Definition ascii_lower (c : ascii) : ascii :=
  if (65 <=? byte_of c) && (byte_of c <=? 90) then ascii_of_N (N_of_ascii c + 32) else c.
Definition ascii_upper (c : ascii) : ascii :=
  if (97 <=? byte_of c) && (byte_of c <=? 122) then ascii_of_N (N_of_ascii c - 32) else c.

(** [strings.ToLower], [strings.ToUpper], [strings.EqualFold] *)
Definition ToLower `{GoText} (s : string) : string :=
  if is_ascii s then str_map ascii_lower s else unicode_lower s.
Definition ToUpper `{GoText} (s : string) : string :=
  if is_ascii s then str_map ascii_upper s else unicode_upper s.
Definition EqualFold `{GoText} (s t : string) : bool :=
  if is_ascii s && is_ascii t then String.eqb (str_map ascii_lower s) (str_map ascii_lower t)
  else unicode_fold_eq s t.

Definition str_len (s : string) : Z := Z.of_nat (String.length s).

(** [s] without the prefix [p], when [p] is a prefix. *)
Fixpoint strip_prefix (p s : string) : option string :=
  match p, s with
  | "", _ => Some s
  | String a p', String b s' => if Ascii.eqb a b then strip_prefix p' s' else None
  | String _ _, "" => None
  end.

Fixpoint str_rev_app (s acc : string) : string :=
  match s with
  | "" => acc
  | String c s' => str_rev_app s' (String c acc)
  end.
Definition str_rev (s : string) : string := str_rev_app s "".

Definition HasPrefix (s p : string) : bool :=
  match strip_prefix p s with Some _ => true | None => false end.
Definition HasSuffix (s p : string) : bool := HasPrefix (str_rev s) (str_rev p).
Definition TrimPrefix (s p : string) : string :=
  match strip_prefix p s with Some r => r | None => s end.
Definition TrimSuffix (s p : string) : string :=
  match strip_prefix (str_rev p) (str_rev s) with Some r => str_rev r | None => s end.
(** [strings.CutPrefix], [None] for [(s, false)] *)
Definition CutPrefix (s p : string) : option string := strip_prefix p s.

Fixpoint Contains (s sub : string) : bool :=
  HasPrefix s sub ||
  match s with
  | "" => false
  | String _ s' => Contains s' sub
  end.

(** The runes of [unicode.IsSpace], in UTF-8. *)
Definition bytes (l : list N) : string :=
  fold_right (λ n s, String (ascii_of_N n) s) "" l.

Definition space_runes : list string :=
  map bytes
    [[9]; [10]; [11]; [12]; [13]; [32]; [194; 133]; [194; 160]; [225; 154; 128];
     [226; 128; 128]; [226; 128; 129]; [226; 128; 130]; [226; 128; 131]; [226; 128; 132];
     [226; 128; 133]; [226; 128; 134]; [226; 128; 135]; [226; 128; 136]; [226; 128; 137];
     [226; 128; 138]; [226; 128; 168]; [226; 128; 169]; [226; 128; 175]; [226; 129; 159];
     [227; 128; 128]]%N.

Fixpoint strip_any (ps : list string) (s : string) : option string :=
  match ps with
  | [] => None
  | p :: ps' => match strip_prefix p s with Some r => Some r | None => strip_any ps' s end
  end.

(** Removes leading runes of [ps] (none is empty, so [String.length s] steps
    are enough). *)
Fixpoint trim_left_fuel (n : nat) (ps : list string) (s : string) : string :=
  match n with
  | O => s
  | S n' => match strip_any ps s with Some r => trim_left_fuel n' ps r | None => s end
  end.
Definition trim_left (ps : list string) (s : string) : string :=
  trim_left_fuel (String.length s) ps s.

(** [strings.TrimSpace] *)
Definition TrimSpace (s : string) : string :=
  str_rev (trim_left (map str_rev space_runes) (str_rev (trim_left space_runes s))).

(** [strings.Split] for a separator of one byte. *)
Fixpoint split_go (sep : ascii) (cur s : string) : list string :=
  match s with
  | "" => [str_rev cur]
  | String c s' =>
      if Ascii.eqb c sep then str_rev cur :: split_go sep "" s'
      else split_go sep (String c cur) s'
  end.
Definition Split (s : string) (sep : ascii) : list string := split_go sep "" s.

(** [strings.Fields]: the maximal runs without white space. *)
Fixpoint fields_fuel (n : nat) (cur s : string) : list string :=
  match n with
  | O => []
  | S n' =>
      match s with
      | "" => if String.eqb cur "" then [] else [str_rev cur]
      | String c s' =>
          match strip_any space_runes s with
          | Some r =>
              if String.eqb cur "" then fields_fuel n' "" r
              else str_rev cur :: fields_fuel n' "" r
          | None => fields_fuel n' (String c cur) s'
          end
      end
  end.
Definition Fields (s : string) : list string := fields_fuel (S (String.length s)) "" s.

(** [strings.Join] *)
Fixpoint Join (l : list string) (sep : string) : string :=
  match l with
  | [] => ""
  | [x] => x
  | x :: l' => x +:+ sep +:+ Join l' sep
  end.

(** [strings.ReplaceAll] for a non-empty [from]: leftmost, non overlapping. *)
Fixpoint replace_fuel (n : nat) (from to s : string) : string :=
  match n with
  | O => s
  | S n' =>
      match strip_prefix from s with
      | Some r => to +:+ replace_fuel n' from to r
      | None => match s with
                | "" => ""
                | String c s' => String c (replace_fuel n' from to s')
                end
      end
  end.
Definition ReplaceAll (s from to : string) : string :=
  replace_fuel (S (String.length s)) from to s.

(** [strconv.Atoi] and [strconv.ParseInt(s, 10, 64)]: an optional sign, then
    decimal digits, in the range of int64. *)
Definition digit_val (c : ascii) : option Z :=
  if (48 <=? byte_of c) && (byte_of c <=? 57) then Some (byte_of c - 48) else None.

Fixpoint digits_val (acc : Z) (s : string) : option Z :=
  match s with
  | "" => Some acc
  | String c s' => d ← digit_val c; digits_val (10 * acc + d) s'
  end.

Definition parse_uint (s : string) : option Z :=
  if String.eqb s "" then None else digits_val 0 s.

Definition Atoi (s : string) : option Z :=
  let v := match s with
           | String "-"%char s' => Z.opp <$> parse_uint s'
           | String "+"%char s' => parse_uint s'
           | _ => parse_uint s
           end in
  match v with
  | Some z => if (min_int64 <=? z) && (z <=? max_int64) then Some z else None
  | None => None
  end.

(** ** Lemmas *)

Lemma strip_prefix_length p s r :
  strip_prefix p s = Some r → String.length s = (String.length p + String.length r)%nat.
Proof.
  revert s. induction p as [|a p IH]; simpl; [by intros s [= ->]|].
  intros [|b s]; [discriminate|].
  destruct (Ascii.eqb a b); [|discriminate]. intros H%IH. simpl. lia.
Qed.

Lemma strip_prefix_app p r : strip_prefix p (p +:+ r) = Some r.
Proof.
  induction p as [|a p IH]; [done|].
  change (String a p +:+ r) with (String a (p +:+ r)). simpl.
  by rewrite Ascii.eqb_refl.
Qed.

Lemma strip_prefix_Some p s r : strip_prefix p s = Some r ↔ s = p +:+ r.
Proof.
  split; [|intros ->; apply strip_prefix_app].
  revert s. induction p as [|a p IH]; simpl; [by intros s [= ->]|].
  intros [|b s]; [discriminate|].
  destruct (Ascii.eqb_spec a b) as [->|]; [|discriminate]. by intros ->%IH.
Qed.

Lemma HasPrefix_app p r : HasPrefix (p +:+ r) p = true.
Proof. unfold HasPrefix. by rewrite strip_prefix_app. Qed.

Lemma str_map_length f s : String.length (str_map f s) = String.length s.
Proof. induction s; simpl; congruence. Qed.

Lemma ascii_lower_idem c : ascii_lower (ascii_lower c) = ascii_lower c.
Proof. destruct c as [[] [] [] [] [] [] [] []]; reflexivity. Qed.

Lemma ascii_lower_ascii c : is_ascii_byte c = true → is_ascii_byte (ascii_lower c) = true.
Proof. destruct c as [[] [] [] [] [] [] [] []]; (reflexivity || discriminate). Qed.

Lemma is_ascii_lower s : is_ascii s = true → is_ascii (str_map ascii_lower s) = true.
Proof.
  unfold is_ascii. induction s as [|c s IH]; simpl; [done|].
  rewrite !andb_true_iff. intros [H1 H2]. auto using ascii_lower_ascii.
Qed.

(** On ASCII strings lower-casing twice is lower-casing once. *)
Lemma ToLower_idem `{GoText} s : is_ascii s = true → ToLower (ToLower s) = ToLower s.
Proof.
  intros Ha. unfold ToLower. rewrite Ha, is_ascii_lower by done.
  clear Ha. induction s as [|c s IH]; simpl; [done|]. by rewrite ascii_lower_idem, IH.
Qed.

Example TrimSpace_ex : TrimSpace (bytes [32; 194; 160; 97; 32; 98; 227; 128; 128; 10]%N) = "a b".
Proof. reflexivity. Qed.
Example Fields_ex : Fields "  gpt 5.4	mini " = ["gpt"; "5.4"; "mini"].
Proof. reflexivity. Qed.
Example Atoi_ex : (Atoi "1024", Atoi "-7", Atoi "1_0", Atoi "9223372036854775808")
                  = (Some 1024, Some (-7), None, None).
Proof. reflexivity. Qed.

(** ** Prefixes *)

Lemma HasPrefix_spec s p : HasPrefix s p = true ↔ ∃ r, s = p +:+ r.
Proof.
  unfold HasPrefix. split.
  - destruct (strip_prefix p s) as [r|] eqn:E; [|done]. intros _. exists r.
    by apply strip_prefix_Some.
  - intros [r ->]. by rewrite strip_prefix_app.
Qed.

Lemma HasPrefix_refl s : HasPrefix s s = true.
Proof.
  apply HasPrefix_spec. exists "". induction s as [|c s IH]; [done|].
  change (String c s = String c (s +:+ "")). by rewrite <-IH.
Qed.

Lemma HasPrefix_trans s p q : HasPrefix s p = true → HasPrefix p q = true → HasPrefix s q = true.
Proof.
  rewrite !HasPrefix_spec. intros [r ->] [r' ->]. exists (r' +:+ r).
  induction q as [|c q IH]; [done|].
  change (String c ((q +:+ r') +:+ r) = String c (q +:+ (r' +:+ r))). by rewrite IH.
Qed.

(** Two prefixes of one string are comparable. *)
Lemma HasPrefix_comparable s p q :
  HasPrefix s p = true → HasPrefix s q = true → HasPrefix p q || HasPrefix q p = true.
Proof.
  rewrite !HasPrefix_spec, orb_true_iff, !HasPrefix_spec.
  revert p q. induction s as [|c s IH]; intros p q [r Hp] [r' Hq].
  - destruct p; [|done]. destruct q; [|done]. left. by exists "".
  - destruct p as [|a p]; [right; by exists q|]. destruct q as [|b q]; [left; by exists (String a p)|].
    injection Hp as -> ->. injection Hq as -> Hq.
    destruct (IH p q) as [[t Ht]|[t Ht]].
    + by exists r.
    + by exists r'.
    + left. exists t. by rewrite Ht.
    + right. exists t. by rewrite Ht.
Qed.

(** ** The trailing star of a pattern, and lower-casing *)

Lemma str_rev_app_map f s acc :
  str_map f (str_rev_app s acc) = str_rev_app (str_map f s) (str_map f acc).
Proof. revert acc. induction s as [|c s IH]; intros acc; simpl; [done|apply IH]. Qed.

Lemma str_rev_map f s : str_map f (str_rev s) = str_rev (str_map f s).
Proof. unfold str_rev. by rewrite str_rev_app_map. Qed.

Lemma is_ascii_rev_app s acc :
  is_ascii (str_rev_app s acc) = is_ascii s && is_ascii acc.
Proof.
  unfold is_ascii. revert acc. induction s as [|c s IH]; intros acc; simpl; [done|].
  rewrite IH. simpl. by destruct (is_ascii_byte c), (str_forallb _ s), (str_forallb _ acc).
Qed.

Lemma is_ascii_rev s : is_ascii (str_rev s) = is_ascii s.
Proof. unfold str_rev. rewrite is_ascii_rev_app. apply andb_true_r. Qed.

Lemma ascii_lower_star c : Ascii.eqb "*" (ascii_lower c) = Ascii.eqb "*" c.
Proof. destruct c as [[] [] [] [] [] [] [] []]; reflexivity. Qed.

Lemma strip_star s :
  strip_prefix "*" s = match s with
                       | String c r => if Ascii.eqb "*" c then Some r else None
                       | "" => None
                       end.
Proof. by destruct s. Qed.

Lemma str_rev_star : str_rev "*" = "*".
Proof. reflexivity. Qed.

Lemma ToLower_ascii `{GoText} s : is_ascii s = true → ToLower s = str_map ascii_lower s.
Proof. unfold ToLower. by intros ->. Qed.

Lemma HasSuffix_star_lower `{GoText} s :
  is_ascii s = true → HasSuffix (ToLower s) "*" = HasSuffix s "*".
Proof.
  intros Ha. rewrite ToLower_ascii by done. unfold HasSuffix, HasPrefix.
  rewrite str_rev_star, <-str_rev_map, !strip_star.
  destruct (str_rev s) as [|c r]; cbn [str_map]; [done|].
  rewrite ascii_lower_star. by destruct (Ascii.eqb "*" c).
Qed.

Lemma TrimSuffix_star_lower `{GoText} s :
  is_ascii s = true → TrimSuffix (ToLower s) "*" = ToLower (TrimSuffix s "*").
Proof.
  intros Ha. unfold TrimSuffix. rewrite str_rev_star.
  destruct (strip_prefix "*" (str_rev s)) as [r|] eqn:E.
  - rewrite (ToLower_ascii s) by done. rewrite <-str_rev_map.
    pose proof (is_ascii_rev s) as Hr. rewrite Ha in Hr.
    rewrite strip_star in E |- *.
    destruct (str_rev s) as [|c r']; [done|]. cbn [str_map]. rewrite ascii_lower_star.
    destruct (Ascii.eqb "*" c); [|done]. injection E as ->.
    rewrite <-str_rev_map, ToLower_ascii; [done|].
    rewrite is_ascii_rev. unfold is_ascii in *. simpl in Hr. by apply andb_true_iff in Hr as [_ ?].
  - rewrite (ToLower_ascii s) by done. rewrite <-str_rev_map. rewrite strip_star in E |- *.
    destruct (str_rev s) as [|c r']; [done|]. cbn [str_map]. rewrite ascii_lower_star.
    by destruct (Ascii.eqb "*" c).
Qed.

(** The order of strings, byte by byte. *)
Definition string_le (a b : string) : Prop := Is_true (String.leb a b).
#[global] Instance string_le_dec : RelDecision string_le.
Proof. intros a b. unfold string_le. apply _. Defined.
