(* ===== verification/GoTrim.v ===== *)
(** * Trimming and decimal numerals

    [strings.TrimSpace] trims once and for all, and [strconv.ParseInt] reads what
    [fmt.Sprintf("%d", n)] writes. *)

From Stdlib Require Import ZArith Lia Ascii String Bool.
From stdpp Require Import base numbers option list strings pretty.
From S2P Require Import Prelude GoStrings.

#[local] Open Scope Z_scope.

(** ** Reversal *)

Lemma str_rev_app_spec s acc : str_rev_app s acc = str_rev s +:+ acc.
Proof.
  revert acc. induction s as [|c s IH]; intros acc; [done|].
  unfold str_rev. simpl. rewrite !IH. generalize (str_rev s). intros t.
  induction t as [|d t IHt]; [done|].
  change (String d (t +:+ String c acc) = String d ((t +:+ String c "") +:+ acc)). by rewrite IHt.
Qed.
Lemma str_app_nil s : s +:+ "" = s.
Proof. induction s as [|c s IH]; [done|]. change (String c (s +:+ "") = String c s). by rewrite IH. Qed.
Lemma str_app_assoc s t u : (s +:+ t) +:+ u = s +:+ (t +:+ u).
Proof.
  induction s as [|c s IH]; [done|]. change (String c ((s +:+ t) +:+ u) = String c (s +:+ (t +:+ u))). by rewrite IH.
Qed.
Lemma str_rev_cons c s : str_rev (String c s) = str_rev s +:+ String c "".
Proof. unfold str_rev at 1. simpl. apply str_rev_app_spec. Qed.
Lemma str_rev_app_distr s t : str_rev (s +:+ t) = str_rev t +:+ str_rev s.
Proof.
  induction s as [|c s IH]; [by rewrite str_app_nil|].
  change (String c s +:+ t) with (String c (s +:+ t)). by rewrite !str_rev_cons, IH, str_app_assoc.
Qed.
Lemma str_rev_involutive s : str_rev (str_rev s) = s.
Proof. induction s as [|c s IH]; [done|]. by rewrite str_rev_cons, str_rev_app_distr, IH. Qed.

(** ** Trimming *)

Definition none_empty (ps : list string) : Prop := Forall (λ p, p ≠ "") ps.

Lemma strip_any_None ps s : strip_any ps s = None ↔ Forall (λ p, strip_prefix p s = None) ps.
Proof.
  induction ps as [|p ps IH]; simpl; [by split|]. rewrite Forall_cons.
  destruct (strip_prefix p s); [split; [done|by intros [? _]]|]. rewrite IH. tauto.
Qed.
Lemma strip_any_Some ps s r : strip_any ps s = Some r → ∃ p, p ∈ ps ∧ s = p +:+ r.
Proof.
  induction ps as [|p ps IH]; simpl; [done|]. destruct (strip_prefix p s) as [r'|] eqn:E.
  - intros [= ->]. exists p. split; [by left|by apply strip_prefix_Some].
  - intros (q & Hq & ->)%IH. exists q. split; [by right|done].
Qed.

(** A string none of [ps] begins has no prefix that one of [ps] begins. *)
Lemma strip_any_prefix ps s t : strip_any ps (s +:+ t) = None → strip_any ps s = None.
Proof.
  rewrite !strip_any_None. intros Hall. eapply Forall_impl; [exact Hall|]. intros p Hp. simpl in *. destruct (strip_prefix p s) as [r|] eqn:E; [|done].
  apply strip_prefix_Some in E as ->. by rewrite str_app_assoc, strip_prefix_app in Hp.
Qed.

Lemma str_length_app s t : String.length (s +:+ t) = (String.length s + String.length t)%nat.
Proof. induction s as [|c s IH]; [done|]. change (String c s +:+ t) with (String c (s +:+ t)). simpl. by rewrite IH. Qed.

Lemma trim_fuel_spec n ps s :
  none_empty ps → (String.length s ≤ n)%nat →
  strip_any ps (trim_left_fuel n ps s) = None ∧ ∃ p, s = p +:+ trim_left_fuel n ps s.
Proof.
  intros Hps. revert s. induction n as [|n IH]; intros s Hn; simpl.
  { destruct s; [|simpl in Hn; lia]. split; [|by exists ""].
    apply strip_any_None. eapply Forall_impl; [exact Hps|]. by intros [|c p] ?. }
  destruct (strip_any ps s) as [r|] eqn:E; [|split; [done|by exists ""]].
  apply strip_any_Some in E as (p & Hp & ->).
  rewrite str_length_app in Hn. assert (p ≠ "") by (by eapply Forall_forall in Hps).
  destruct p as [|c p]; [done|]. destruct (IH r) as [H1 [q Hq]]; [simpl in Hn; lia|].
  split; [done|]. exists (String c p +:+ q). by rewrite str_app_assoc, <-Hq.
Qed.
Lemma trim_left_spec ps s :
  none_empty ps → strip_any ps (trim_left ps s) = None ∧ ∃ p, s = p +:+ trim_left ps s.
Proof. intros Hps. by apply trim_fuel_spec. Qed.
Lemma trim_left_id ps s : strip_any ps s = None → trim_left ps s = s.
Proof. intros E. unfold trim_left. destruct s; [done|]. cbn [String.length trim_left_fuel]. by rewrite E. Qed.

Lemma space_none_empty : none_empty space_runes ∧ none_empty (map str_rev space_runes).
Proof. split; repeat (constructor; [done|]); constructor. Qed.

(** A string with nothing to trim at either end. *)
Definition trimmed (s : string) : Prop :=
  strip_any space_runes s = None ∧ strip_any (map str_rev space_runes) (str_rev s) = None.

Lemma trimmed_id s : trimmed s → TrimSpace s = s.
Proof. intros [H1 H2]. unfold TrimSpace. rewrite (trim_left_id space_runes s H1), trim_left_id by done. apply str_rev_involutive. Qed.
Lemma TrimSpace_trimmed s : trimmed (TrimSpace s).
Proof.
  unfold TrimSpace. destruct space_none_empty as [Hl Hr].
  destruct (trim_left_spec space_runes s Hl) as [H1 _]. set (t := trim_left space_runes s) in *.
  destruct (trim_left_spec _ (str_rev t) Hr) as [H2 [p Hp]].
  set (u := trim_left (map str_rev space_runes) (str_rev t)) in *.
  split; [|by rewrite str_rev_involutive].
  apply (strip_any_prefix _ _ (str_rev p)). rewrite <-str_rev_app_distr, <-Hp. by rewrite str_rev_involutive.
Qed.
Lemma TrimSpace_idem s : TrimSpace (TrimSpace s) = TrimSpace s.
Proof. apply trimmed_id, TrimSpace_trimmed. Qed.

(** ** Decimal numerals *)

Definition is_digit (c : ascii) : bool := (48 <=? byte_of c) && (byte_of c <=? 57).
(** A byte of ASCII that is seen. *)
Definition is_graphic (c : ascii) : bool := (33 <=? byte_of c) && (byte_of c <=? 126).

Lemma graphic_not_space c s : is_graphic c = true → strip_any space_runes (String c s) = None.
Proof. destruct c as [[] [] [] [] [] [] [] []]; (discriminate || reflexivity). Qed.
Lemma graphic_not_space_rev c s : is_graphic c = true → strip_any (map str_rev space_runes) (String c s) = None.
Proof. destruct c as [[] [] [] [] [] [] [] []]; (discriminate || reflexivity). Qed.

Lemma forallb_app_str f s t : str_forallb f (s +:+ t) = str_forallb f s && str_forallb f t.
Proof.
  induction s as [|c s IH]; [done|]. change (String c s +:+ t) with (String c (s +:+ t)). simpl.
  by rewrite IH, andb_assoc.
Qed.
Lemma forallb_rev f s : str_forallb f (str_rev s) = str_forallb f s.
Proof.
  induction s as [|c s IH]; [done|]. rewrite str_rev_cons, forallb_app_str, IH. simpl.
  rewrite andb_true_r. apply andb_comm.
Qed.

Lemma graphic_trimmed s : str_forallb is_graphic s = true → trimmed s.
Proof.
  intros Hs. split.
  - destruct s as [|c s]; [done|]. apply andb_true_iff in Hs as [Hc _]. by apply graphic_not_space.
  - rewrite <-forallb_rev in Hs. destruct (str_rev s) as [|c t]; [done|].
    apply andb_true_iff in Hs as [Hc _]. by apply graphic_not_space_rev.
Qed.
Lemma forallb_weaken (f g : ascii → bool) s :
  (∀ c, f c = true → g c = true) → str_forallb f s = true → str_forallb g s = true.
Proof.
  intros Hfg. induction s as [|c s IH]; [done|]. simpl. intros [Hc Hs]%andb_true_iff.
  by rewrite (Hfg c Hc), IH.
Qed.
Lemma digits_trimmed s : str_forallb is_digit s = true → trimmed s.
Proof.
  intros Hs. apply graphic_trimmed. revert Hs. apply forallb_weaken.
  intros c. unfold is_digit, is_graphic. rewrite !andb_true_iff, !Z.leb_le. lia.
Qed.
Lemma graphic_ascii s : str_forallb is_graphic s = true → is_ascii s = true.
Proof.
  apply forallb_weaken. intros c. destruct c as [[] [] [] [] [] [] [] []]; (discriminate || reflexivity).
Qed.

Lemma pretty_char_digit x : is_digit (pretty_N_char x) = true.
Proof. unfold pretty_N_char. by repeat case_match. Qed.
Lemma pretty_char_val x : (x < 10)%N → digit_val (pretty_N_char x) = Some (Z.of_N x).
Proof.
  intros Hx. destruct x as [|p]; [done|].
  do 4 (destruct p as [p|p|]; try reflexivity; try (exfalso; lia)).
Qed.

Lemma pretty_go_digits x s :
  str_forallb is_digit s = true → str_forallb is_digit (pretty_N_go x s) = true.
Proof.
  revert s. induction (N.lt_wf_0 x) as [x _ IH]; intros s Hs.
  assert (x = 0 ∨ 0 < x)%N as [->|?] by lia; [by rewrite pretty_N_go_0|].
  rewrite pretty_N_go_step by done. apply IH; [by apply N.div_lt|]. simpl. by rewrite pretty_char_digit.
Qed.
Lemma pretty_go_val x s acc :
  digits_val acc (pretty_N_go x s) =
  match digits_val acc (pretty_N_go x "") with Some v => digits_val v s | None => None end.
Proof.
  revert s acc. induction (N.lt_wf_0 x) as [x _ IH]; intros s acc.
  assert (x = 0 ∨ 0 < x)%N as [->|?] by lia; [by rewrite !pretty_N_go_0|].
  rewrite (pretty_N_go_step x s), (pretty_N_go_step x "") by done.
  rewrite (IH (x `div` 10)%N (N.div_lt x 10 ltac:(done) ltac:(done)) (String _ s)).
  rewrite (IH (x `div` 10)%N (N.div_lt x 10 ltac:(done) ltac:(done)) (String _ "")).
  destruct (digits_val acc _) as [v|]; [|done]. simpl.
  by destruct (digit_val _).
Qed.
Lemma pretty_go_zero x : digits_val 0 (pretty_N_go x "") = Some (Z.of_N x).
Proof.
  induction (N.lt_wf_0 x) as [x _ IH].
  assert (x = 0 ∨ 0 < x)%N as [->|?] by lia; [done|].
  rewrite pretty_N_go_step by done. rewrite pretty_go_val.
  rewrite (IH (x `div` 10)%N (N.div_lt x 10 ltac:(done) ltac:(done))). simpl.
  rewrite pretty_char_val by (apply N.mod_lt; done). simpl. f_equal.
  pose proof (N.div_mod' x 10). lia.
Qed.

Lemma pretty_N_digits x : str_forallb is_digit (pretty (x : N)) = true ∧ pretty x ≠ "".
Proof.
  unfold pretty, pretty_N. case_decide as Hx; [done|]. split; [by apply pretty_go_digits|].
  intros E. pose proof (pretty_go_zero x) as Hv. rewrite E in Hv. simpl in Hv. injection Hv. lia.
Qed.
Lemma pretty_N_val x : parse_uint (pretty (x : N)) = Some (Z.of_N x).
Proof.
  destruct (pretty_N_digits x) as [_ Hne]. unfold parse_uint. apply String.eqb_neq in Hne. rewrite Hne.
  unfold pretty, pretty_N. case_decide as Hx; [by subst|apply pretty_go_zero].
Qed.

Lemma pretty_Z_nonneg z : 0 ≤ z → pretty z = pretty (Z.to_N z).
Proof. intros Hz. by destruct z. Qed.
Lemma Atoi_pretty z : 0 ≤ z ≤ max_int64 → Atoi (pretty z) = Some z.
Proof.
  intros [Hz Hm]. rewrite pretty_Z_nonneg by done.
  destruct (pretty_N_digits (Z.to_N z)) as [Hd Hne]. pose proof (pretty_N_val (Z.to_N z)) as Hv.
  rewrite Z2N.id in Hv by done. unfold Atoi.
  assert (∀ s, str_forallb is_digit s = true → s ≠ "" →
            match s with String "-"%char s' => Z.opp <$> parse_uint s' | String "+"%char s' => parse_uint s'
                       | _ => parse_uint s end = parse_uint s) as Hsign.
  { intros [|c s]; [done|]. intros [Hc _]%andb_true_iff _.
    destruct c as [[] [] [] [] [] [] [] []]; (discriminate || reflexivity). }
  rewrite Hsign, Hv by done.
  assert (min_int64 ≤ z) by (unfold min_int64; lia). rewrite !(proj2 (Z.leb_le _ _)) by done. done.
Qed.
Lemma pretty_trimmed z : 0 ≤ z → TrimSpace (pretty z) = pretty z ∧ pretty z ≠ "".
Proof.
  intros Hz. rewrite pretty_Z_nonneg by done. destruct (pretty_N_digits (Z.to_N z)) as [Hd Hne].
  split; [|done]. by apply trimmed_id, digits_trimmed.
Qed.
Lemma pretty_ascii z : 0 ≤ z → is_ascii (pretty z) = true.
Proof.
  intros Hz. rewrite pretty_Z_nonneg by done. destruct (pretty_N_digits (Z.to_N z)) as [Hd _].
  apply graphic_ascii. revert Hd. apply forallb_weaken.
  intros c. unfold is_digit, is_graphic. rewrite !andb_true_iff, !Z.leb_le. lia.
Qed.

Lemma EqualFold_ascii `{GoText} s : is_ascii s = true → EqualFold s s = true.
Proof. intros Hs. unfold EqualFold. rewrite Hs. apply String.eqb_refl. Qed.
