(* ===== verification/GoFloat.v ===== *)
(** * Go's [float64]

    Prices, costs and usage are [float64] values in the code.  They are
    modelled by the IEEE-754 binary64 specification of the standard library
    ([SpecFloat] with 53 bits of precision and exponents below 1024): every
    operation rounds to nearest even, overflows to an infinity and produces
    NaN as the hardware does.  (Go allows an implementation to fuse [x*y + z];
    the model is the unfused evaluation, as on amd64.) *)

From Stdlib Require Import ZArith Lia Bool String.
From Stdlib Require Import SpecFloat.
From stdpp Require Import base numbers option.
From S2P Require Import Prelude.

#[global] Open Scope Z_scope.

Definition f64 := spec_float.

Definition fprec : Z := 53.
Definition femax : Z := 1024.

Definition fadd : f64 → f64 → f64 := SFadd fprec femax.
Definition fsub : f64 → f64 → f64 := SFsub fprec femax.
Definition fmul : f64 → f64 → f64 := SFmul fprec femax.
Definition fdiv : f64 → f64 → f64 := SFdiv fprec femax.
Definition flt : f64 → f64 → bool := SFltb.
Definition fle : f64 → f64 → bool := SFleb.
Definition feq : f64 → f64 → bool := SFeqb.
Definition fabs : f64 → f64 := SFabs.

(** [float64(n)] *)
Definition f_of_int (n : Z) : f64 := binary_normalize fprec femax n 0 false.
(** The constant [m * 10^(-k)]: the division is of two exact values, so it is
    the correctly rounded constant (for m < 2^53 and k <= 22). *)
Definition f_dec (m : Z) (k : Z) : f64 := fdiv (f_of_int m) (f_of_int (10 ^ k)).

(** [int(x)] of a finite float whose integer part fits an int64. *)
Definition f_to_int (x : f64) : Z :=
  match x with
  | S754_finite s m e =>
      let a := if 0 <=? e then Z.pos m * 2 ^ e else Z.pos m / 2 ^ (- e) in
      if s then - a else a
  | _ => 0
  end.

Definition f0 : f64 := S754_zero false.
Definition f1 : f64 := f_of_int 1.

Definition f_is_nan (x : f64) : bool := match x with S754_nan => true | _ => false end.
Definition f_is_inf (x : f64) : bool := match x with S754_infinity _ => true | _ => false end.
Definition f_finite (x : f64) : bool :=
  match x with S754_zero _ | S754_finite _ _ _ => true | _ => false end.

(** [math.Min] *)
Definition fmin (x y : f64) : f64 :=
  match x, y with
  | S754_infinity true, _ | _, S754_infinity true => S754_infinity true
  | S754_nan, _ | _, S754_nan => S754_nan
  | S754_zero sx, S754_zero _ => if sx then x else y
  | _, _ => if flt x y then x else y
  end.

(** [math.Round]: to the nearest integer, halves away from zero *)
Definition f_round (x : f64) : f64 :=
  match x with
  | S754_finite s m e =>
      if 0 <=? e then x
      else
        let a := (2 * Z.pos m + 2 ^ (- e)) / (2 * 2 ^ (- e)) in
        if a =? 0 then S754_zero s else f_of_int (if s then - a else a)
  | _ => x
  end.

Notation "x +ᶠ y" := (fadd x y) (at level 50, left associativity) : go_scope.
Notation "x -ᶠ y" := (fsub x y) (at level 50, left associativity) : go_scope.
Notation "x *ᶠ y" := (fmul x y) (at level 40, left associativity) : go_scope.
Notation "x <ᶠ y" := (flt x y) (at level 70) : go_scope.
Notation "x ≤ᶠ y" := (fle x y) (at level 70) : go_scope.
Notation "x =ᶠ y" := (feq x y) (at level 70) : go_scope.

(** [strconv.ParseFloat(s, 64)]; [None] is an error *)
Class GoParse := { ParseFloat : string → option f64 }.

(** ** Values that are not negative

    [nonneg x] holds of NaN, of both zeros and of the positive values; it is
    exactly [x < 0 = false]. *)
Definition nonneg (x : f64) : bool :=
  match x with
  | S754_finite true _ _ | S754_infinity true => false
  | _ => true
  end.

Lemma nonneg_not_lt x : nonneg x = negb (x <ᶠ f0).
Proof. destruct x as [[]|[]| |[]]; reflexivity. Qed.

(** The sign of a rounded value is the sign given. *)
Lemma binary_round_aux_sign sx m e l :
  match binary_round_aux fprec femax sx m e l with
  | S754_zero s | S754_infinity s | S754_finite s _ _ => s = sx
  | S754_nan => True
  end.
Proof.
  unfold binary_round_aux. destruct (shr_fexp _ _ m e l) as [mrs e1].
  destruct (shr_fexp _ _ _ e1 _) as [mrs' e2].
  destruct (shr_m mrs'); [done| |done]. by destruct (_ <=? _).
Qed.

Lemma nonneg_round_aux m e l : nonneg (binary_round_aux fprec femax false m e l) = true.
Proof.
  pose proof (binary_round_aux_sign false m e l) as H.
  by destruct (binary_round_aux _ _ _ _ _ _) as [[]|[]| |[]]; simplify_eq/=.
Qed.

Lemma nonneg_round m e : nonneg (binary_round fprec femax false m e) = true.
Proof.
  unfold binary_round. destruct (shl_align _ _ _). apply nonneg_round_aux.
Qed.

Lemma nonneg_normalize m e : 0 ≤ m → nonneg (binary_normalize fprec femax m e false) = true.
Proof. destruct m; intros Hm; [done|apply nonneg_round|lia]. Qed.

Lemma nonneg_of_int n : 0 ≤ n → nonneg (f_of_int n) = true.
Proof. apply nonneg_normalize. Qed.

Lemma nonneg_add x y : nonneg x = true → nonneg y = true → nonneg (x +ᶠ y) = true.
Proof.
  destruct x as [[]|[]| |[] mx ex], y as [[]|[]| |[] my ey]; intros Hx Hy;
    try discriminate; try reflexivity.
  apply nonneg_normalize. simpl. lia.
Qed.

Lemma nonneg_mul x y : nonneg x = true → nonneg y = true → nonneg (x *ᶠ y) = true.
Proof.
  destruct x as [[]|[]| |[] mx ex], y as [[]|[]| |[] my ey]; intros Hx Hy;
    try discriminate; try reflexivity.
  apply nonneg_round_aux.
Qed.

Lemma nonneg_fmin x y : nonneg x = true → nonneg y = true → nonneg (fmin x y) = true.
Proof.
  intros Hx Hy.
  destruct x as [[]|[]| |[] mx ex], y as [[]|[]| |[] my ey]; try discriminate;
    try reflexivity; unfold fmin; by destruct (_ <ᶠ _).
Qed.

Create HintDb go_float.
#[export] Hint Resolve nonneg_of_int nonneg_add nonneg_mul nonneg_fmin : go_float.
#[export] Hint Extern 1 (0 <= _) => lia : go_float.

(** ** Multiplication by zero *)

Definition f_is_zero (x : f64) : bool := match x with S754_zero _ => true | _ => false end.

Lemma fmul_zero x z : f_finite x = true → f_is_zero z = true → f_is_zero (x *ᶠ z) = true.
Proof. destruct x, z; simpl; intros; try discriminate; done. Qed.

Lemma f_is_zero_feq x : f_is_zero x = (x =ᶠ f0).
Proof. destruct x as [[]|[]| |[]]; reflexivity. Qed.

Lemma flt_f0_pos x : (f0 <ᶠ x) = true → nonneg x = true.
Proof. destruct x as [[]|[]| |[]]; done. Qed.

Lemma flt_neg x : (x <ᶠ f0) = true → nonneg x = false.
Proof. rewrite nonneg_not_lt. by intros ->. Qed.

(** ** Order *)

Lemma fcompare_refl x : f_is_nan x = false → SFcompare x x = Some Eq.
Proof.
  destruct x as [[]|[]| |[] m e]; simpl; intros; try done;
    rewrite Z.compare_refl; change (Pos.compare_cont Eq m m) with (Pos.compare m m);
    by rewrite Pos.compare_refl.
Qed.

Lemma feq_refl x : f_is_nan x = false → (x =ᶠ x) = true.
Proof. intros H. unfold feq, SFeqb. by rewrite fcompare_refl. Qed.

Lemma flt_irrefl x : (x <ᶠ x) = false.
Proof.
  unfold flt, SFltb. destruct (f_is_nan x) eqn:E; [by destruct x|].
  by rewrite fcompare_refl.
Qed.

Lemma flt_not_nan x y : (x <ᶠ y) = true → f_is_nan x = false ∧ f_is_nan y = false.
Proof. destruct x as [[]|[]| |[]], y as [[]|[]| |[]]; done. Qed.

Example f_dec_ex : f_dec 1 1 +ᶠ f_dec 2 1 = f_dec 30000000000000004 17.
Proof. vm_compute. reflexivity. Qed.
Example f_round_ex :
  (f_round (f_dec 25 1), f_round (f_dec (-25) 1), f_round (f_dec 4 1), f_round (f_dec 249 2)) =
  (f_of_int 3, f_of_int (-3), f0, f_of_int 2).
Proof. vm_compute. reflexivity. Qed.
