(* ===== verification/ModelAlias.v ===== *)
(** * OpenAI model-name normalisation

    [src/backend/internal/service/openai_model_alias.go] and the alias table
    of [openai_codex_transform.go]: the spelling of a requested model is
    normalised, then looked up, to name the model it is billed as. *)

From Stdlib Require Import ZArith Lia Ascii String Bool.
From stdpp Require Import base numbers option list strings.
From S2P Require Import Prelude GoStrings.

#[local] Open Scope Z_scope.

(** [codexModelMap] *)
Definition codexModelMap : list (string * string) :=
  [("gpt-5.6-sol", "gpt-5.6-sol");
   ("gpt-5.6-terra", "gpt-5.6-terra");
   ("gpt-5.6-luna", "gpt-5.6-luna");
   ("gpt-5.5", "gpt-5.5");
   ("gpt-5.5-pro", "gpt-5.5-pro");
   ("codex-auto-review", "codex-auto-review");
   ("gpt-5.4", "gpt-5.4");
   ("gpt-5.4-mini", "gpt-5.4-mini");
   ("gpt-5.4-none", "gpt-5.4");
   ("gpt-5.4-low", "gpt-5.4");
   ("gpt-5.4-medium", "gpt-5.4");
   ("gpt-5.4-high", "gpt-5.4");
   ("gpt-5.4-xhigh", "gpt-5.4");
   ("gpt-5.4-chat-latest", "gpt-5.4");
   ("gpt-5.3", "gpt-5.3-codex");
   ("gpt-5.3-none", "gpt-5.3-codex");
   ("gpt-5.3-low", "gpt-5.3-codex");
   ("gpt-5.3-medium", "gpt-5.3-codex");
   ("gpt-5.3-high", "gpt-5.3-codex");
   ("gpt-5.3-xhigh", "gpt-5.3-codex");
   ("gpt-5.3-codex", "gpt-5.3-codex");
   ("gpt-5.3-codex-spark", "gpt-5.3-codex-spark");
   ("gpt-5.3-codex-low", "gpt-5.3-codex");
   ("gpt-5.3-codex-medium", "gpt-5.3-codex");
   ("gpt-5.3-codex-high", "gpt-5.3-codex");
   ("gpt-5.3-codex-xhigh", "gpt-5.3-codex");
   ("gpt-5.2", "gpt-5.2");
   ("gpt-5.2-none", "gpt-5.2");
   ("gpt-5.2-low", "gpt-5.2");
   ("gpt-5.2-medium", "gpt-5.2");
   ("gpt-5.2-high", "gpt-5.2");
   ("gpt-5.2-xhigh", "gpt-5.2");
   ("gpt-5", "gpt-5.4");
   ("gpt-5-mini", "gpt-5.4");
   ("gpt-5-nano", "gpt-5.4");
   ("gpt-5.1", "gpt-5.4");
   ("gpt-5.1-codex", "gpt-5.3-codex");
   ("gpt-5.1-codex-max", "gpt-5.3-codex");
   ("gpt-5.1-codex-mini", "gpt-5.3-codex");
   ("gpt-5.2-codex", "gpt-5.2");
   ("codex-mini-latest", "gpt-5.3-codex");
   ("gpt-5-codex", "gpt-5.3-codex")].

Fixpoint assoc (k : string) (l : list (string * string)) : option string :=
  match l with
  | [] => None
  | (k', v) :: l' => if String.eqb k k' then Some v else assoc k l'
  end.

(** [isCodexDateSuffix]: three parts of 4, 2 and 2 digits.  The digit loop runs
    over runes; a byte outside '0'..'9' belongs to a rune outside it. *)
Definition isCodexDateSuffix (suffix : string) : bool :=
  match Split suffix "-"%char with
  | [p0; p1; p2] =>
      (str_len p0 =? 4) && (str_len p1 =? 2) && (str_len p2 =? 2) &&
      forallb (str_forallb (λ c, match digit_val c with Some _ => true | None => false end))
        [p0; p1; p2]
  | _ => false
  end.

(** [isKnownCodexModelSuffix] *)
Definition isKnownCodexModelSuffix (suffix : string) : bool :=
  existsb (String.eqb suffix) ["none"; "minimal"; "low"; "medium"; "high"; "xhigh"]
  || isCodexDateSuffix suffix.

Section Text.
Context `{GoText}.

(** [codexModelLookupKey] *)
Definition codexModelLookupKey (modelID : string) : string :=
  let modelID := TrimSpace modelID in
  if String.eqb modelID "" then ""
  else
    let modelID :=
      if Contains modelID "/" then List.last (Split modelID "/"%char) "" else modelID in
    ToLower (Join (Fields modelID) "-").

(** [getNormalizedCodexModel]; the empty string stands for "not found". *)
Definition getNormalizedCodexModel (modelID : string) : string :=
  let key := codexModelLookupKey modelID in
  if String.eqb key "" then ""
  else match assoc key codexModelMap with Some mapped => mapped | None => "" end.

(** [lastOpenAIModelSegment] *)
Definition lastOpenAIModelSegment (model : string) : string :=
  let model := TrimSpace model in
  if String.eqb model "" then ""
  else
    let model :=
      if Contains model "/" then List.last (Split model "/"%char) "" else model in
    TrimSpace model.

(** [for strings.Contains(s, "--") { s = strings.ReplaceAll(s, "--", "-") }];
    each round shortens [s], so [String.length s] rounds are enough. *)
Fixpoint collapse_dashes (n : nat) (s : string) : string :=
  match n with
  | O => s
  | S n' => if Contains s "--" then collapse_dashes n' (ReplaceAll s "--" "-") else s
  end.

(** [canonicalizeOpenAIModelAliasSpelling] *)
Definition canonicalizeOpenAIModelAliasSpelling (model : string) : string :=
  let model := ToLower (lastOpenAIModelSegment model) in
  if String.eqb model "" then ""
  else
    let normalized := ReplaceAll model "_" "-" in
    let normalized := Join (Fields normalized) "-" in
    let normalized := collapse_dashes (String.length normalized) normalized in
    let normalized :=
      if HasPrefix normalized "gpt5" then "gpt-5" +:+ TrimPrefix normalized "gpt5"
      else normalized in
    if negb (HasPrefix normalized "gpt-") && negb (Contains normalized "codex") then ""
    else
      fold_left (λ s r, ReplaceAll s (fst r) (snd r))
        [("gpt-5.4mini", "gpt-5.4-mini");
         ("gpt-5.4nano", "gpt-5.4-nano");
         ("gpt-5.3-codexspark", "gpt-5.3-codex-spark");
         ("gpt-5.3codexspark", "gpt-5.3-codex-spark");
         ("gpt-5.3codex", "gpt-5.3-codex")] normalized.

(** The [switch] of [normalizeKnownOpenAICodexModel]. *)
Definition known_codex_switch (normalized : string) : string :=
  if Contains normalized "gpt-5.6-sol" then "gpt-5.6-sol"
  else if Contains normalized "gpt-5.6-terra" then "gpt-5.6-terra"
  else if Contains normalized "gpt-5.6-luna" then "gpt-5.6-luna"
  else if String.eqb normalized "gpt-5.6" then "gpt-5.6-sol"
  else if HasPrefix normalized "gpt-5.6-" then
    let suffix := TrimPrefix normalized "gpt-5.6-" in
    if String.eqb suffix "max" || isKnownCodexModelSuffix suffix then "gpt-5.6-sol" else ""
  else if Contains normalized "gpt-5.5-pro" then "gpt-5.5-pro"
  else if Contains normalized "gpt-5.5" then "gpt-5.5"
  else if Contains normalized "gpt-5.4-mini" then "gpt-5.4-mini"
  else if Contains normalized "gpt-5.4-nano" then "gpt-5.4-nano"
  else if Contains normalized "gpt-5.4" then "gpt-5.4"
  else if Contains normalized "gpt-5.2" then "gpt-5.2"
  else if Contains normalized "gpt-5.3-codex-spark" then "gpt-5.3-codex-spark"
  else if Contains normalized "gpt-5.3-codex" then "gpt-5.3-codex"
  else if Contains normalized "gpt-5.3" then "gpt-5.3-codex"
  else if Contains normalized "codex" then "gpt-5.3-codex"
  else if Contains normalized "gpt-5" then "gpt-5.4"
  else "".

(** [normalizeKnownOpenAICodexModel] *)
Definition normalizeKnownOpenAICodexModel (model : string) : string :=
  let normalized := canonicalizeOpenAIModelAliasSpelling model in
  if String.eqb normalized "" then ""
  else
    let mapped := getNormalizedCodexModel normalized in
    if negb (String.eqb mapped "") then mapped
    else
      let mapped2 :=
        if HasSuffix normalized "-openai-compact"
        then getNormalizedCodexModel (TrimSuffix normalized "-openai-compact") else "" in
      if negb (String.eqb mapped2 "") then mapped2
      else known_codex_switch normalized.

(** [isOpenAIGPT56Model] *)
Definition isOpenAIGPT56Model (model : string) : bool :=
  let normalized := canonicalizeOpenAIModelAliasSpelling model in
  if String.eqb normalized "gpt-5.6" then true
  else if match CutPrefix normalized "gpt-5.6-" with
          | Some suffix => String.eqb suffix "max" || isKnownCodexModelSuffix suffix
          | None => false
          end then true
  else existsb (λ prefix, String.eqb normalized prefix || HasPrefix normalized (prefix +:+ "-"))
         ["gpt-5.6-sol"; "gpt-5.6-terra"; "gpt-5.6-luna"].

(** [usesOpenAILegacyLongContextPricing] (billing_service.go) *)
Definition usesOpenAILegacyLongContextPricing (normalized : string) : bool :=
  String.eqb normalized "gpt-5.4" || String.eqb normalized "gpt-5.5"
  || String.eqb normalized "gpt-5.5-pro".

(** ** Properties *)

(** The models a request can be normalised to. *)
Definition codex_models : list string :=
  [""; "gpt-5.6-sol"; "gpt-5.6-terra"; "gpt-5.6-luna"; "gpt-5.5-pro"; "gpt-5.5";
   "gpt-5.4-mini"; "gpt-5.4-nano"; "gpt-5.4"; "gpt-5.2"; "gpt-5.3-codex-spark";
   "gpt-5.3-codex"; "codex-auto-review"].

Lemma assoc_In k l v : assoc k l = Some v → In v (map snd l).
Proof.
  induction l as [|[k' v'] l IH]; simpl; [done|].
  destruct (String.eqb k k'); [intros [= ->]|]; auto.
Qed.

Lemma getNormalizedCodexModel_known m : In (getNormalizedCodexModel m) codex_models.
Proof.
  unfold getNormalizedCodexModel. destruct (String.eqb _ _); [by left|].
  destruct (assoc _ _) as [v|] eqn:E; [|by left].
  apply assoc_In in E. simpl in E. unfold codex_models. simpl.
  repeat (destruct E as [<-|E]; [tauto|]). done.
Qed.

Lemma known_codex_switch_known s : In (known_codex_switch s) codex_models.
Proof.
  unfold known_codex_switch, codex_models; cbv zeta.
  repeat match goal with |- context [if ?b then _ else _] => destruct b end; simpl; tauto.
Qed.

Lemma normalizeKnown_known m : In (normalizeKnownOpenAICodexModel m) codex_models.
Proof.
  unfold normalizeKnownOpenAICodexModel; cbv zeta.
  destruct (String.eqb _ ""); [by left|].
  destruct (negb _); [apply getNormalizedCodexModel_known|].
  destruct (negb _); [|apply known_codex_switch_known].
  destruct (HasSuffix _ _); [apply getNormalizedCodexModel_known|by left].
Qed.

End Text.

Example normalize_ex1 :
  normalizeKnownOpenAICodexModel (H := ascii_text) " openai/GPT5.4mini " = "gpt-5.4-mini".
Proof. vm_compute. reflexivity. Qed.
Example normalize_ex2 :
  normalizeKnownOpenAICodexModel (H := ascii_text) "gpt-5.6-2026-01-31" = "gpt-5.6-sol".
Proof. vm_compute. reflexivity. Qed.
