(* ===== verification/Pricing.v ===== *)
(** * Model prices: the fallback table and its lookup

    [src/backend/internal/service/billing_service.go]: the per-token price
    record, the hard-coded fallback prices ([initFallbackPricing]), the
    keyword rules that pick one for a model name ([getFallbackPricing]), the
    per-model policy ([applyModelSpecificPricingPolicy]) and the lookup that
    puts them together ([GetModelPricing]).  The dynamic price list
    ([PricingService], loaded from a remote file) is the interface
    [LiteLLMSource]: a partial function from model names to entries. *)

From Stdlib Require Import ZArith Lia Ascii String Bool.
From stdpp Require Import base numbers option list gmap strings.
From S2P Require Import Prelude GoStrings GoFloat ModelAlias.

#[local] Open Scope Z_scope.

(** [ModelPricing] *)
Record ModelPricing := {
  InputPricePerToken : f64;
  InputPricePerTokenPriority : f64;
  ImageInputPricePerToken : f64;
  OutputPricePerToken : f64;
  OutputPricePerTokenPriority : f64;
  CacheCreationPricePerToken : f64;
  CacheCreationPricePerTokenPriority : f64;
  CacheCreationPriceExplicit : bool;
  CacheReadPricePerToken : f64;
  CacheReadPricePerTokenPriority : f64;
  CacheCreation5mPrice : f64;
  CacheCreation1hPrice : f64;
  SupportsCacheBreakdown : bool;
  LongContextInputThreshold : Z;
  LongContextInputMultiplier : f64;
  LongContextOutputMultiplier : f64;
  ImageOutputPricePerToken : f64;
  ImageOutputPriceExplicit : bool;
}.

(** [&ModelPricing{}] *)
Definition ModelPricing_zero : ModelPricing :=
  {| InputPricePerToken := f0; InputPricePerTokenPriority := f0;
     ImageInputPricePerToken := f0; OutputPricePerToken := f0;
     OutputPricePerTokenPriority := f0; CacheCreationPricePerToken := f0;
     CacheCreationPricePerTokenPriority := f0; CacheCreationPriceExplicit := false;
     CacheReadPricePerToken := f0; CacheReadPricePerTokenPriority := f0;
     CacheCreation5mPrice := f0; CacheCreation1hPrice := f0;
     SupportsCacheBreakdown := false; LongContextInputThreshold := 0;
     LongContextInputMultiplier := f0; LongContextOutputMultiplier := f0;
     ImageOutputPricePerToken := f0; ImageOutputPriceExplicit := false |}.

(** A literal with input, output, cache-write and cache-read prices; the other
    fields are Go's zero values. *)
Definition price (i o cw cr : f64) : ModelPricing :=
  {| InputPricePerToken := i; InputPricePerTokenPriority := f0;
     ImageInputPricePerToken := f0; OutputPricePerToken := o;
     OutputPricePerTokenPriority := f0; CacheCreationPricePerToken := cw;
     CacheCreationPricePerTokenPriority := f0; CacheCreationPriceExplicit := false;
     CacheReadPricePerToken := cr; CacheReadPricePerTokenPriority := f0;
     CacheCreation5mPrice := f0; CacheCreation1hPrice := f0;
     SupportsCacheBreakdown := false; LongContextInputThreshold := 0;
     LongContextInputMultiplier := f0; LongContextOutputMultiplier := f0;
     ImageOutputPricePerToken := f0; ImageOutputPriceExplicit := false |}.

(** The same with priority-tier prices and a long-context policy. *)
Definition price_tiered (i ip o op cw cwp cr crp : f64) (thr : Z) (lin lout : f64)
  : ModelPricing :=
  {| InputPricePerToken := i; InputPricePerTokenPriority := ip;
     ImageInputPricePerToken := f0; OutputPricePerToken := o;
     OutputPricePerTokenPriority := op; CacheCreationPricePerToken := cw;
     CacheCreationPricePerTokenPriority := cwp; CacheCreationPriceExplicit := false;
     CacheReadPricePerToken := cr; CacheReadPricePerTokenPriority := crp;
     CacheCreation5mPrice := f0; CacheCreation1hPrice := f0;
     SupportsCacheBreakdown := false; LongContextInputThreshold := thr;
     LongContextInputMultiplier := lin; LongContextOutputMultiplier := lout;
     ImageOutputPricePerToken := f0; ImageOutputPriceExplicit := false |}.

Definition with_image_input (p : ModelPricing) (x : f64) : ModelPricing :=
  {| InputPricePerToken := InputPricePerToken p;
     InputPricePerTokenPriority := InputPricePerTokenPriority p;
     ImageInputPricePerToken := x;
     OutputPricePerToken := OutputPricePerToken p;
     OutputPricePerTokenPriority := OutputPricePerTokenPriority p;
     CacheCreationPricePerToken := CacheCreationPricePerToken p;
     CacheCreationPricePerTokenPriority := CacheCreationPricePerTokenPriority p;
     CacheCreationPriceExplicit := CacheCreationPriceExplicit p;
     CacheReadPricePerToken := CacheReadPricePerToken p;
     CacheReadPricePerTokenPriority := CacheReadPricePerTokenPriority p;
     CacheCreation5mPrice := CacheCreation5mPrice p;
     CacheCreation1hPrice := CacheCreation1hPrice p;
     SupportsCacheBreakdown := SupportsCacheBreakdown p;
     LongContextInputThreshold := LongContextInputThreshold p;
     LongContextInputMultiplier := LongContextInputMultiplier p;
     LongContextOutputMultiplier := LongContextOutputMultiplier p;
     ImageOutputPricePerToken := ImageOutputPricePerToken p;
     ImageOutputPriceExplicit := ImageOutputPriceExplicit p |}.

Definition openAIGPT54LongContextInputThreshold : Z := 272000.
Definition openAIGPT54LongContextInputMultiplier : f64 := f_dec 2 0.
Definition openAIGPT54LongContextOutputMultiplier : f64 := f_dec 15 1.

Abbreviation price_table := (gmap string ModelPricing).

(** [s.fallbackPrices[k] = &ModelPricing{...}] and
    [s.fallbackPrices[k] = s.fallbackPrices[k']] *)
Definition set_price (k : string) (p : ModelPricing) (t : price_table) : price_table :=
  <[k := p]> t.
Definition alias_price (k k' : string) (t : price_table) : price_table :=
  match t !! k' with Some p => <[k := p]> t | None => delete k t end.

(** [initFallbackPricing], in the order of the source.  A key is set once, so
    each part only adds entries. *)
Definition fallback_claude_gemini (t : price_table) : price_table :=
  let t := set_price "claude-opus-4.5"
             (price (f_dec 5 6) (f_dec 25 6) (f_dec 625 8) (f_dec 5 7)) t in
  let t := set_price "claude-sonnet-4"
             (price (f_dec 3 6) (f_dec 15 6) (f_dec 375 8) (f_dec 3 7)) t in
  let t := set_price "claude-3-5-sonnet"
             (price (f_dec 3 6) (f_dec 15 6) (f_dec 375 8) (f_dec 3 7)) t in
  let t := set_price "claude-3-5-haiku"
             (price (f_dec 1 6) (f_dec 5 6) (f_dec 125 8) (f_dec 1 7)) t in
  let t := set_price "claude-3-opus"
             (price (f_dec 15 6) (f_dec 75 6) (f_dec 1875 8) (f_dec 15 7)) t in
  let t := set_price "claude-3-haiku"
             (price (f_dec 25 8) (f_dec 125 8) (f_dec 3 7) (f_dec 3 8)) t in
  let t := alias_price "claude-opus-4.6" "claude-opus-4.5" t in
  let t := alias_price "claude-opus-4.7" "claude-opus-4.6" t in
  let t := alias_price "claude-opus-4.8" "claude-opus-4.7" t in
  let t := alias_price "claude-opus-5" "claude-opus-4.8" t in
  let t := set_price "gemini-3.1-pro"
             (price (f_dec 2 6) (f_dec 12 6) (f_dec 2 6) (f_dec 2 7)) t in
  set_price "gemini-3.6-flash" (price (f_dec 15 7) (f_dec 75 7) f0 (f_dec 15 8)) t.

Definition fallback_openai (t : price_table) : price_table :=
  let thr := openAIGPT54LongContextInputThreshold in
  let lin := openAIGPT54LongContextInputMultiplier in
  let lout := openAIGPT54LongContextOutputMultiplier in
  let t := set_price "gpt-5.4"
             (price_tiered (f_dec 25 7) (f_dec 5 6) (f_dec 15 6) (f_dec 30 6)
                (f_dec 25 7) f0 (f_dec 25 8) (f_dec 5 7) thr lin lout) t in
  let t := alias_price "gpt-5.5" "gpt-5.4" t in
  let t := alias_price "gpt-5.5-pro" "gpt-5.4" t in
  let t := set_price "gpt-5.6-sol"
             (price_tiered (f_dec 5 6) (f_dec 10 6) (f_dec 30 6) (f_dec 60 6)
                (f_dec 625 8) (f_dec 125 7) (f_dec 5 7) (f_dec 1 6) thr lin lout) t in
  let t := set_price "gpt-5.6-terra"
             (price_tiered (f_dec 2 6) (f_dec 4 6) (f_dec 12 6) (f_dec 24 6)
                (f_dec 25 7) (f_dec 5 6) (f_dec 2 7) (f_dec 4 7) thr lin lout) t in
  let t := set_price "gpt-5.6-luna"
             (price_tiered (f_dec 2 7) (f_dec 4 7) (f_dec 12 7) (f_dec 24 7)
                (f_dec 25 8) (f_dec 5 7) (f_dec 2 8) (f_dec 4 8) thr lin lout) t in
  let t := set_price "gpt-5.4-mini" (price (f_dec 75 8) (f_dec 45 7) f0 (f_dec 75 9)) t in
  let t := set_price "gpt-5.4-nano" (price (f_dec 2 7) (f_dec 125 8) f0 (f_dec 2 8)) t in
  let t := set_price "gpt-5.2"
             (price_tiered (f_dec 175 8) (f_dec 35 7) (f_dec 14 6) (f_dec 28 6)
                (f_dec 175 8) f0 (f_dec 175 9) (f_dec 35 8) 0 f0 f0) t in
  set_price "gpt-5.3-codex"
    (price_tiered (f_dec 15 7) (f_dec 3 6) (f_dec 12 6) (f_dec 24 6)
       (f_dec 15 7) f0 (f_dec 15 8) (f_dec 3 7) 0 f0 f0) t.

Definition fallback_deepseek_glm (t : price_table) : price_table :=
  let t := set_price "deepseek-v4-pro"
             (price (f_dec 435 9) (f_dec 87 8) f0 (f_dec 3625 12)) t in
  let t := set_price "deepseek-v4-flash"
             (price (f_dec 14 8) (f_dec 28 8) f0 (f_dec 28 10)) t in
  let t := set_price "glm-5.2" (price (f_dec 14 7) (f_dec 44 7) f0 (f_dec 26 8)) t in
  let t := set_price "glm-5.1" (price (f_dec 14 7) (f_dec 44 7) f0 (f_dec 26 8)) t in
  let t := set_price "glm-5" (price (f_dec 1 6) (f_dec 32 7) f0 (f_dec 2 7)) t in
  let t := set_price "glm-5-turbo" (price (f_dec 12 7) (f_dec 4 6) f0 (f_dec 24 8)) t in
  let t := set_price "glm-4.7" (price (f_dec 6 7) (f_dec 22 7) f0 (f_dec 11 8)) t in
  let t := set_price "glm-4.7-flashx" (price (f_dec 7 8) (f_dec 4 7) f0 (f_dec 1 8)) t in
  let t := set_price "glm-4.6" (price (f_dec 6 7) (f_dec 22 7) f0 (f_dec 11 8)) t in
  let t := set_price "glm-4.5" (price (f_dec 6 7) (f_dec 22 7) f0 (f_dec 11 8)) t in
  let t := set_price "glm-4.5-x" (price (f_dec 22 7) (f_dec 89 7) f0 (f_dec 45 8)) t in
  let t := set_price "glm-4.5-air" (price (f_dec 2 7) (f_dec 11 7) f0 (f_dec 3 8)) t in
  let t := set_price "glm-4.5-airx" (price (f_dec 11 7) (f_dec 45 7) f0 (f_dec 22 8)) t in
  let t := set_price "glm-4-32b-0414-128k" (price (f_dec 1 7) (f_dec 1 7) f0 f0) t in
  let t := set_price "glm-4.5-flash" (price f0 f0 f0 f0) t in
  set_price "glm-4.7-flash" (price f0 f0 f0 f0) t.

Definition fallback_kimi_minimax (t : price_table) : price_table :=
  let t := set_price "kimi-k3" (price (f_dec 3 6) (f_dec 15 6) f0 (f_dec 3 7)) t in
  let t := set_price "kimi-k2.6" (price (f_dec 95 8) (f_dec 4 6) f0 (f_dec 15 8)) t in
  let t := set_price "kimi-for-coding" (price (f_dec 95 8) (f_dec 4 6) f0 (f_dec 15 8)) t in
  let t := set_price "kimi-k2.5" (price (f_dec 6 7) (f_dec 3 6) f0 (f_dec 98 9)) t in
  let t := set_price "kimi-k2-thinking" (price (f_dec 56 8) (f_dec 224 8) f0 (f_dec 14 8)) t in
  let t := set_price "kimi-k2" (price (f_dec 56 8) (f_dec 224 8) f0 (f_dec 14 8)) t in
  let t := set_price "minimax-m3" (price (f_dec 6 7) (f_dec 24 7) f0 (f_dec 12 8)) t in
  let t := set_price "minimax-m2.7" (price (f_dec 3 7) (f_dec 12 7) f0 (f_dec 6 8)) t in
  let t := set_price "minimax-m2.7-highspeed" (price (f_dec 6 7) (f_dec 24 7) f0 (f_dec 6 8)) t in
  let t := set_price "minimax-m2.5" (price (f_dec 3 7) (f_dec 12 7) f0 (f_dec 3 8)) t in
  let t := set_price "minimax-m2.1" (price (f_dec 3 7) (f_dec 12 7) f0 (f_dec 3 8)) t in
  set_price "minimax-m2" (price (f_dec 3 7) (f_dec 12 7) f0 (f_dec 3 8)) t.

Definition fallback_doubao_grok (t : price_table) : price_table :=
  let t := set_price "doubao-embedding-vision"
             (with_image_input (price (f_dec 98 9) f0 f0 f0) (f_dec 252 9)) t in
  let t := set_price "grok-4.5" (price (f_dec 2 6) (f_dec 6 6) f0 (f_dec 5 7)) t in
  let t := set_price "grok-4.3"
             (price_tiered (f_dec 125 8) f0 (f_dec 25 7) f0 f0 f0 (f_dec 2 7) f0
                1000000 f1 f0) t in
  set_price "grok-build-0.1" (price (f_dec 1 6) (f_dec 2 6) f0 (f_dec 2 7)) t.

Definition initFallbackPricing : price_table :=
  fallback_doubao_grok (fallback_kimi_minimax (fallback_deepseek_glm
    (fallback_openai (fallback_claude_gemini ∅)))).

(** ** Choosing a fallback entry *)

Section Fallback.
Context `{GoText}.

Definition has (m : string) (subs : list string) : bool := existsb (Contains m) subs.

(** The Claude, Gemini and DeepSeek branches of [getFallbackPricing]: [None]
    when none of them applies. *)
Definition fallback_key_claude (m : string) : option string :=
  if has m ["opus"] then
    Some (if has m ["opus-5"; "opus5"] then "claude-opus-5"
          else if has m ["4.8"; "4-8"] then "claude-opus-4.8"
          else if has m ["4.7"; "4-7"] then "claude-opus-4.7"
          else if has m ["4.6"; "4-6"] then "claude-opus-4.6"
          else if has m ["4.5"; "4-5"] then "claude-opus-4.5"
          else "claude-3-opus")
  else if has m ["sonnet"] then
    Some (if has m ["4"] && negb (has m ["3"]) then "claude-sonnet-4" else "claude-3-5-sonnet")
  else if has m ["haiku"] then
    Some (if has m ["3-5"; "3.5"] then "claude-3-5-haiku" else "claude-3-haiku")
  else if has m ["claude"] then Some "claude-sonnet-4"
  else if has m ["gemini-3.1-pro"; "gemini-3-1-pro"] then Some "gemini-3.1-pro"
  else if has m ["gemini-3.6-flash"; "gemini-3-6-flash"] then Some "gemini-3.6-flash"
  else if has m ["deepseek-v4-flash"] then Some "deepseek-v4-flash"
  else if has m ["deepseek-v4-pro"] then Some "deepseek-v4-pro"
  else if has m ["deepseek-chat"; "deepseek-reasoner"] then Some "deepseek-v4-flash"
  else None.

(** The GLM, Kimi, MiniMax and Doubao branches. *)
Definition fallback_key_domestic (m : string) : option string :=
  if has m ["glm-5.2"] then Some "glm-5.2"
  else if has m ["glm-5.1"] then Some "glm-5.1"
  else if has m ["glm-5-turbo"; "glm-5turbo"] then Some "glm-5-turbo"
  else if has m ["glm-5"] then Some "glm-5"
  else if has m ["glm-4.7-flashx"] then Some "glm-4.7-flashx"
  else if has m ["glm-4.7-flash"] then Some "glm-4.7-flash"
  else if has m ["glm-4.7"] then Some "glm-4.7"
  else if has m ["glm-4.6"] then Some "glm-4.6"
  else if has m ["glm-4.5-flash"] then Some "glm-4.5-flash"
  else if has m ["glm-4.5-x"; "glm-4.5x"] then Some "glm-4.5-x"
  else if has m ["glm-4.5-airx"; "glm-4.5airx"] then Some "glm-4.5-airx"
  else if has m ["glm-4.5-air"; "glm-4.5air"] then Some "glm-4.5-air"
  else if has m ["glm-4.5"] then Some "glm-4.5"
  else if has m ["glm-4-32b"] then Some "glm-4-32b-0414-128k"
  else if has m ["kimi-for-coding"] then Some "kimi-for-coding"
  else if String.eqb m "kimi-k3" || HasSuffix m "/kimi-k3" || String.eqb m "k3"
          || String.eqb m "k3-256k" || HasSuffix m "/k3" || HasSuffix m "/k3-256k"
  then Some "kimi-k3"
  else if has m ["kimi-k2.6"; "kimi-k2-6"] then Some "kimi-k2.6"
  else if has m ["kimi-k2.5"; "kimi-k2-5"] then Some "kimi-k2.5"
  else if has m ["kimi-k2-thinking"; "kimi-k2-thinking-"] then Some "kimi-k2-thinking"
  else if has m ["kimi-k2"; "kimi/k2"] then Some "kimi-k2"
  else if has m ["minimax-m3"] then Some "minimax-m3"
  else if has m ["minimax-m2.7-highspeed"; "minimax-m2-7-highspeed"]
  then Some "minimax-m2.7-highspeed"
  else if has m ["minimax-m2.7"; "minimax-m2-7"] then Some "minimax-m2.7"
  else if has m ["minimax-m2.5"; "minimax-m2-5"] then Some "minimax-m2.5"
  else if has m ["minimax-m2.1"; "minimax-m2-1"] then Some "minimax-m2.1"
  else if has m ["minimax-m2"; "minimax-m-2"] then Some "minimax-m2"
  else if has m ["doubao-embedding-vision"] then Some "doubao-embedding-vision"
  else None.

(** The OpenAI [switch] on the normalised name, then the Grok [switch]. *)
Definition openai_fallback_key (normalized : string) : option string :=
  let eqs := String.eqb normalized in
  if eqs "gpt-5.6-sol" then Some "gpt-5.6-sol"
  else if eqs "gpt-5.6-terra" then Some "gpt-5.6-terra"
  else if eqs "gpt-5.6-luna" then Some "gpt-5.6-luna"
  else if eqs "gpt-5.5-pro" then Some "gpt-5.5-pro"
  else if eqs "gpt-5.5" then Some "gpt-5.5"
  else if eqs "gpt-5.4-mini" then Some "gpt-5.4-mini"
  else if eqs "gpt-5.4-nano" then Some "gpt-5.4-nano"
  else if eqs "gpt-5.4" then Some "gpt-5.4"
  else if eqs "gpt-5.2" then Some "gpt-5.2"
  else if eqs "gpt-5.3-codex" || eqs "gpt-5.3-codex-spark" then Some "gpt-5.3-codex"
  else None.

Definition one_of (m : string) (l : list string) : bool := existsb (String.eqb m) l.

Definition grok_fallback_key (m : string) : option string :=
  if one_of m ["grok"; "grok-latest"; "grok-4.5"; "grok-4.5-latest"; "grok-build-latest"]
  then Some "grok-4.5"
  else if one_of m ["grok-4.3"; "grok-4.20-0309-reasoning"; "grok-4.20-0309-non-reasoning";
                    "grok-4.20-multi-agent-0309"; "grok-4.20-reasoning";
                    "grok-4.20-non-reasoning"]
  then Some "grok-4.3"
  else if one_of m ["grok-build"; "grok-build-0.1"; "grok-composer"; "grok-composer-2.5-fast";
                    "composer-2.5"]
  then Some "grok-build-0.1"
  else None.

(** The key [getFallbackPricing] looks up for a model, [None] for [return nil]. *)
Definition fallback_key (model : string) : option string :=
  let m := ToLower model in
  match fallback_key_claude m with
  | Some k => Some k
  | None =>
      match fallback_key_domestic m with
      | Some k => Some k
      | None =>
          match openai_fallback_key (normalizeKnownOpenAICodexModel m) with
          | Some k => Some k
          | None => grok_fallback_key m
          end
      end
  end.

(** [getFallbackPricing] *)
Definition getFallbackPricing (fallbackPrices : price_table) (model : string)
  : option ModelPricing :=
  k ← fallback_key model; fallbackPrices !! k.

(** ** Per-model policy *)

(** [applyModelSpecificPricingPolicy] on a non-nil price. *)
Definition applyModelSpecificPricingPolicy (model : string) (p : ModelPricing)
  : ModelPricing :=
  let normalized := normalizeKnownOpenAICodexModel model in
  let isGPT56 := isOpenAIGPT56Model normalized in
  let legacy := usesOpenAILegacyLongContextPricing normalized in
  if negb isGPT56 && negb legacy then p
  else
    let needsLongContextPolicy :=
      (isGPT56 || legacy) &&
      ((LongContextInputThreshold p <=? 0) || (LongContextInputMultiplier p ≤ᶠ f0)
       || (LongContextOutputMultiplier p ≤ᶠ f0)) in
    let needsCacheCreationPolicy :=
      isGPT56 && negb (CacheCreationPriceExplicit p) &&
      ((CacheCreationPricePerToken p ≤ᶠ f0)
       || ((f0 <ᶠ InputPricePerTokenPriority p)
           && (CacheCreationPricePerTokenPriority p ≤ᶠ f0))) in
    if negb needsLongContextPolicy && negb needsCacheCreationPolicy then p
    else
      let fillCache := isGPT56 && negb (CacheCreationPriceExplicit p) in
      {| InputPricePerToken := InputPricePerToken p;
         InputPricePerTokenPriority := InputPricePerTokenPriority p;
         ImageInputPricePerToken := ImageInputPricePerToken p;
         OutputPricePerToken := OutputPricePerToken p;
         OutputPricePerTokenPriority := OutputPricePerTokenPriority p;
         CacheCreationPricePerToken :=
           if fillCache && (CacheCreationPricePerToken p ≤ᶠ f0)
           then InputPricePerToken p *ᶠ f_dec 125 2 else CacheCreationPricePerToken p;
         CacheCreationPricePerTokenPriority :=
           if fillCache && (CacheCreationPricePerTokenPriority p ≤ᶠ f0)
           then InputPricePerTokenPriority p *ᶠ f_dec 125 2
           else CacheCreationPricePerTokenPriority p;
         CacheCreationPriceExplicit := CacheCreationPriceExplicit p;
         CacheReadPricePerToken := CacheReadPricePerToken p;
         CacheReadPricePerTokenPriority := CacheReadPricePerTokenPriority p;
         CacheCreation5mPrice := CacheCreation5mPrice p;
         CacheCreation1hPrice := CacheCreation1hPrice p;
         SupportsCacheBreakdown := SupportsCacheBreakdown p;
         LongContextInputThreshold :=
           if LongContextInputThreshold p <=? 0 then openAIGPT54LongContextInputThreshold
           else LongContextInputThreshold p;
         LongContextInputMultiplier :=
           if LongContextInputMultiplier p ≤ᶠ f0 then openAIGPT54LongContextInputMultiplier
           else LongContextInputMultiplier p;
         LongContextOutputMultiplier :=
           if LongContextOutputMultiplier p ≤ᶠ f0 then openAIGPT54LongContextOutputMultiplier
           else LongContextOutputMultiplier p;
         ImageOutputPricePerToken := ImageOutputPricePerToken p;
         ImageOutputPriceExplicit := ImageOutputPriceExplicit p |}.

End Fallback.

(** ** The dynamic price list *)

(** [LiteLLMModelPricing], the fields billing reads. *)
Record LiteLLMModelPricing := {
  InputCostPerToken : f64;
  InputCostPerTokenPriority : f64;
  OutputCostPerToken : f64;
  OutputCostPerTokenPriority : f64;
  CacheCreationInputTokenCost : f64;
  CacheCreationInputTokenCostPriority : f64;
  CacheCreationInputTokenCostAbove1hr : f64;
  CacheReadInputTokenCost : f64;
  CacheReadInputTokenCostPriority : f64;
  LongContextInputTokenThreshold : Z;
  LongContextInputCostMultiplier : f64;
  LongContextOutputCostMultiplier : f64;
  OutputCostPerImage : f64;
  OutputCostPerImageToken : f64;
  InputCostPerImageToken : f64;
  TokenPricingAbsent : bool;
}.

(** What billing asks of [PricingService]: its [GetModelPricing]. *)
Abbreviation LiteLLMSource := (string → option LiteLLMModelPricing).

(** [BillingService]: its configuration, its optional price service, its
    fallback table. *)
Record BillingService := {
  bs_DefaultRateMultiplier : f64;
  bs_pricingService : option LiteLLMSource;
  bs_fallbackPrices : price_table;
}.

(** [NewBillingService] *)
Definition NewBillingService (rate : f64) (src : option LiteLLMSource) : BillingService :=
  {| bs_DefaultRateMultiplier := rate; bs_pricingService := src;
     bs_fallbackPrices := initFallbackPricing |}.

(** The literal [&ModelPricing{...}] built from a LiteLLM entry. *)
Definition modelPricing_of_litellm (l : LiteLLMModelPricing) : ModelPricing :=
  let price5m := CacheCreationInputTokenCost l in
  let price1h := CacheCreationInputTokenCostAbove1hr l in
  {| InputPricePerToken := InputCostPerToken l;
     InputPricePerTokenPriority := InputCostPerTokenPriority l;
     ImageInputPricePerToken := InputCostPerImageToken l;
     OutputPricePerToken := OutputCostPerToken l;
     OutputPricePerTokenPriority := OutputCostPerTokenPriority l;
     CacheCreationPricePerToken := CacheCreationInputTokenCost l;
     CacheCreationPricePerTokenPriority := CacheCreationInputTokenCostPriority l;
     CacheCreationPriceExplicit := false;
     CacheReadPricePerToken := CacheReadInputTokenCost l;
     CacheReadPricePerTokenPriority := CacheReadInputTokenCostPriority l;
     CacheCreation5mPrice := price5m;
     CacheCreation1hPrice := price1h;
     SupportsCacheBreakdown := (f0 <ᶠ price1h) && (price5m <ᶠ price1h);
     LongContextInputThreshold := LongContextInputTokenThreshold l;
     LongContextInputMultiplier := LongContextInputCostMultiplier l;
     LongContextOutputMultiplier := LongContextOutputCostMultiplier l;
     ImageOutputPricePerToken := OutputCostPerImageToken l;
     ImageOutputPriceExplicit := false |}.

(** The errors of the billing code. *)
Inductive BillingError :=
| ErrModelPricingUnavailable (model : string)
| OutRangeCost (e : BillingError).

(** [GetModelPricing] *)
Definition GetModelPricing `{GoText} (s : BillingService) (model : string)
  : res BillingError ModelPricing :=
  let model := ToLower model in
  let litellm :=
    src ← bs_pricingService s;
    l ← src model;
    if TokenPricingAbsent l then None else Some l in
  match litellm with
  | Some l => Ok (applyModelSpecificPricingPolicy model (modelPricing_of_litellm l))
  | None =>
      match getFallbackPricing (bs_fallbackPrices s) model with
      | Some fallback => Ok (applyModelSpecificPricingPolicy model fallback)
      | None => Err (ErrModelPricingUnavailable model)
      end
  end.

(** ** Properties of the fallback table *)

Definition fallback_keys : list string := map fst (map_to_list initFallbackPricing).

(** No price, multiplier or threshold is negative. *)
Definition pricing_nonneg (p : ModelPricing) : bool :=
  forallb nonneg
    [InputPricePerToken p; InputPricePerTokenPriority p; ImageInputPricePerToken p;
     OutputPricePerToken p; OutputPricePerTokenPriority p; CacheCreationPricePerToken p;
     CacheCreationPricePerTokenPriority p; CacheReadPricePerToken p;
     CacheReadPricePerTokenPriority p; CacheCreation5mPrice p; CacheCreation1hPrice p;
     LongContextInputMultiplier p; LongContextOutputMultiplier p;
     ImageOutputPricePerToken p].

Lemma table_keys_In (t : price_table) k :
  is_Some (t !! k) ↔ In k (map fst (map_to_list t)).
Proof.
  rewrite in_map_iff. split.
  - intros [p Hp]. exists (k, p). split; [done|].
    by apply list_elem_of_In, elem_of_map_to_list.
  - intros ([k' p] & <- & Hin). exists p.
    by apply elem_of_map_to_list, list_elem_of_In.
Qed.

Lemma table_forall (t : price_table) (P : string → ModelPricing → bool) :
  forallb (λ kp, P (fst kp) (snd kp)) (map_to_list t) = true →
  ∀ k p, t !! k = Some p → P k p = true.
Proof.
  rewrite forallb_forall. intros H k p Hk.
  apply (H (k, p)). by apply list_elem_of_In, elem_of_map_to_list.
Qed.

#[global] Opaque initFallbackPricing.

Lemma fallback_keys_In k : is_Some (initFallbackPricing !! k) ↔ In k fallback_keys.
Proof. apply table_keys_In. Qed.

(** A property of all keys is checked by running over the table. *)
Lemma fallback_forall (P : string → ModelPricing → bool) :
  forallb (λ kp, P (fst kp) (snd kp)) (map_to_list initFallbackPricing) = true →
  ∀ k p, initFallbackPricing !! k = Some p → P k p = true.
Proof. apply table_forall. Qed.

Section FallbackProps.
Context `{GoText}.

(** The rules' answers are enumerated; the enumeration is checked against the
    table once. *)
Definition rule_keys : list string :=
  ["claude-opus-5"; "claude-opus-4.8"; "claude-opus-4.7"; "claude-opus-4.6";
   "claude-opus-4.5"; "claude-3-opus"; "claude-sonnet-4"; "claude-3-5-sonnet";
   "claude-3-5-haiku"; "claude-3-haiku"; "gemini-3.1-pro"; "gemini-3.6-flash";
   "deepseek-v4-flash"; "deepseek-v4-pro"; "glm-5.2"; "glm-5.1"; "glm-5-turbo"; "glm-5";
   "glm-4.7-flashx"; "glm-4.7-flash"; "glm-4.7"; "glm-4.6"; "glm-4.5-flash"; "glm-4.5-x";
   "glm-4.5-airx"; "glm-4.5-air"; "glm-4.5"; "glm-4-32b-0414-128k"; "kimi-for-coding";
   "kimi-k3"; "kimi-k2.6"; "kimi-k2.5"; "kimi-k2-thinking"; "kimi-k2"; "minimax-m3";
   "minimax-m2.7-highspeed"; "minimax-m2.7"; "minimax-m2.5"; "minimax-m2.1"; "minimax-m2";
   "doubao-embedding-vision"; "gpt-5.6-sol"; "gpt-5.6-terra"; "gpt-5.6-luna";
   "gpt-5.5-pro"; "gpt-5.5"; "gpt-5.4-mini"; "gpt-5.4-nano"; "gpt-5.4"; "gpt-5.2";
   "gpt-5.3-codex"; "grok-4.5"; "grok-4.3"; "grok-build-0.1"].

Lemma rule_keys_in_table k : one_of k rule_keys = true → In k fallback_keys.
Proof.
  assert (forallb (λ k, one_of k fallback_keys) rule_keys = true) as Hall
    by (vm_compute; reflexivity).
  rewrite forallb_forall in Hall. unfold one_of at 1.
  intros (k' & Hin & ->%String.eqb_eq)%existsb_exists.
  specialize (Hall k' Hin). apply existsb_exists in Hall as (k'' & Hin' & Hk).
  apply String.eqb_eq in Hk as ->. done.
Qed.

Ltac rule_key_tac Hk := split_ifs_in Hk; simplify_eq; reflexivity.

Lemma fallback_key_claude_in m k : fallback_key_claude m = Some k → one_of k rule_keys = true.
Proof. unfold fallback_key_claude. intros Hk. rule_key_tac Hk. Qed.

Lemma fallback_key_domestic_in m k :
  fallback_key_domestic m = Some k → one_of k rule_keys = true.
Proof. unfold fallback_key_domestic. intros Hk. rule_key_tac Hk. Qed.

Lemma openai_fallback_key_in m k : openai_fallback_key m = Some k → one_of k rule_keys = true.
Proof. unfold openai_fallback_key; cbv zeta. intros Hk. rule_key_tac Hk. Qed.

Lemma grok_fallback_key_in m k : grok_fallback_key m = Some k → one_of k rule_keys = true.
Proof. unfold grok_fallback_key. intros Hk. rule_key_tac Hk. Qed.

Lemma fallback_key_in model k : fallback_key model = Some k → In k fallback_keys.
Proof.
  unfold fallback_key; cbv zeta. intros Hk. apply rule_keys_in_table.
  destruct (fallback_key_claude _) eqn:E1; [simplify_eq; by eapply fallback_key_claude_in|].
  destruct (fallback_key_domestic _) eqn:E2; [simplify_eq; by eapply fallback_key_domestic_in|].
  destruct (openai_fallback_key _) eqn:E3; [simplify_eq; by eapply openai_fallback_key_in|].
  by eapply grok_fallback_key_in.
Qed.

(** The fallback rules and the fallback table agree: a model gets a
    fallback price exactly when one of the name rules fires (no rule points at
    a key the table does not have), and every model the table names is priced
    by its own row - no earlier, broader rule captures it. *)
Theorem fallback_rules_match_table :
  (∀ model, getFallbackPricing initFallbackPricing model = None ↔ fallback_key model = None) ∧
  (∀ k p, initFallbackPricing !! k = Some p →
          getFallbackPricing initFallbackPricing k = Some p).
Proof.
  split.
  - intros model. unfold getFallbackPricing. destruct (fallback_key model) as [k|] eqn:E; [|done].
    simpl. destruct (initFallbackPricing !! k) as [p|] eqn:Ek; [by split|].
    apply fallback_key_in, fallback_keys_In in E. rewrite Ek in E. destruct E as [? [=]].
  - intros k p Hk. unfold getFallbackPricing.
    assert (fallback_key k = Some k) as ->; [|done].
    pose proof (fallback_forall
      (λ k _, match fallback_key k with Some k' => String.eqb k' k | None => false end)) as HF.
    specialize (HF ltac:(vm_compute; reflexivity) k p Hk). simpl in HF.
    destruct (fallback_key k) as [k'|]; [|done]. by apply String.eqb_eq in HF as ->.
Qed.

(** an Opus model that names a version from 4.5 on (4.5 ... 4.8, or 5) is
    always billed by the 5 / 25 USD per million row, never by the three times
    dearer row of Claude 3 Opus. *)
Theorem opus_version_price model :
  Contains (ToLower model) "opus" = true →
  has (ToLower model) ["opus-5"; "opus5"; "4.8"; "4-8"; "4.7"; "4-7"; "4.6"; "4-6"; "4.5"; "4-5"]
    = true →
  getFallbackPricing initFallbackPricing model
    = Some (price (f_dec 5 6) (f_dec 25 6) (f_dec 625 8) (f_dec 5 7)).
Proof.
  intros Hopus Hver. unfold getFallbackPricing, fallback_key, fallback_key_claude.
  replace (has (ToLower model) ["opus"]) with true by (unfold has; simpl; by rewrite Hopus).
  unfold has in *. simpl in Hver. simpl. rewrite ?orb_false_r in Hver. rewrite ?orb_false_r.
  repeat match goal with
  | |- context [if ?b then _ else _] => destruct b eqn:?; simpl
  end; try (vm_compute; reflexivity).
  exfalso. repeat match goal with
  | H : (_ || _) = false |- _ => apply orb_false_iff in H as [? ?]
  | H : Contains _ _ = false |- _ => rewrite H in Hver; clear H
  end. done.
Qed.

(** The policy keeps prices non-negative. *)
Lemma pricing_nonneg_policy model p :
  pricing_nonneg p = true → pricing_nonneg (applyModelSpecificPricingPolicy model p) = true.
Proof.
  intros Hp. unfold applyModelSpecificPricingPolicy.
  destruct (negb _ && negb _); [done|]. destruct (negb _ && negb _); [done|].
  unfold pricing_nonneg in *. cbn [forallb] in Hp. split_andb_in Hp.
  cbn [forallb InputPricePerToken InputPricePerTokenPriority ImageInputPricePerToken
     OutputPricePerToken OutputPricePerTokenPriority CacheCreationPricePerToken
     CacheCreationPricePerTokenPriority CacheReadPricePerToken CacheReadPricePerTokenPriority
     CacheCreation5mPrice CacheCreation1hPrice LongContextInputMultiplier
     LongContextOutputMultiplier ImageOutputPricePerToken].
  split_andb; try assumption; try reflexivity;
    match goal with |- context [if ?b then _ else _] => destruct b end;
    try assumption; try reflexivity; by apply nonneg_mul.
Qed.

Lemma fallback_pricing_nonneg model p :
  getFallbackPricing initFallbackPricing model = Some p → pricing_nonneg p = true.
Proof.
  unfold getFallbackPricing. destruct (fallback_key model) as [k|]; [|done].
  simpl. apply (fallback_forall (λ _ p, pricing_nonneg p)). vm_compute. reflexivity.
Qed.

(** The price list of a source, when there is one, has no negative entry. *)
Definition source_nonneg (o : option LiteLLMSource) : Prop :=
  ∀ src m l, o = Some src → src m = Some l →
    pricing_nonneg (modelPricing_of_litellm l) = true.

Lemma GetModelPricing_nonneg rate o model p :
  source_nonneg o →
  GetModelPricing (NewBillingService rate o) model = Ok p → pricing_nonneg p = true.
Proof.
  unfold GetModelPricing. simpl. intros Ho HG.
  destruct (o ≫= _) as [l|] eqn:E.
  - destruct o as [src|]; [|done]. simpl in E.
    destruct (src (ToLower model)) as [l'|] eqn:El; [|done]. simpl in E.
    destruct (TokenPricingAbsent l'); simplify_eq.
    apply pricing_nonneg_policy. by eapply Ho.
  - destruct (getFallbackPricing _ _) as [q|] eqn:Eq; simplify_eq.
    by eapply pricing_nonneg_policy, fallback_pricing_nonneg.
Qed.

(** Token billing fails closed.  An entry of the dynamic list without token
    prices is never used to bill tokens; the model is then priced by its
    fallback row if it has one, and otherwise the lookup is an error - never a
    zero price invented for it. *)
Theorem GetModelPricing_fail_closed rate src model :
  (∀ l, src (ToLower model) = Some l → TokenPricingAbsent l = true) →
  GetModelPricing (NewBillingService rate (Some src)) model
  = match fallback_key (ToLower model) with
    | Some k =>
        match initFallbackPricing !! k with
        | Some p => Ok (applyModelSpecificPricingPolicy (ToLower model) p)
        | None => Err (ErrModelPricingUnavailable (ToLower model))
        end
    | None => Err (ErrModelPricingUnavailable (ToLower model))
    end.
Proof.
  intros Hsrc. unfold GetModelPricing, getFallbackPricing. simpl.
  assert ((src (ToLower model) ≫= λ l, if TokenPricingAbsent l then None else Some l) = None)
    as ->.
  { destruct (src (ToLower model)) as [l|]; [|done]. simpl. by rewrite Hsrc. }
  destruct (fallback_key _) as [k|]; [|done]. simpl. by destruct (_ !! k).
Qed.

End FallbackProps.

Lemma opus_version_price_witness :
  getFallbackPricing (H := ascii_text) initFallbackPricing "Claude-Opus-4-5-20251101"
  = Some (price (f_dec 5 6) (f_dec 25 6) (f_dec 625 8) (f_dec 5 7)).
Proof. apply (opus_version_price (H := ascii_text)); vm_compute; reflexivity. Defined.

(** A list that only has an image price for Imagen: billing its tokens is an
    error. *)
Definition imagen_entry : LiteLLMModelPricing :=
  {| InputCostPerToken := f0; InputCostPerTokenPriority := f0; OutputCostPerToken := f0;
     OutputCostPerTokenPriority := f0; CacheCreationInputTokenCost := f0;
     CacheCreationInputTokenCostPriority := f0; CacheCreationInputTokenCostAbove1hr := f0;
     CacheReadInputTokenCost := f0; CacheReadInputTokenCostPriority := f0;
     LongContextInputTokenThreshold := 0; LongContextInputCostMultiplier := f0;
     LongContextOutputCostMultiplier := f0; OutputCostPerImage := f_dec 4 2;
     OutputCostPerImageToken := f0; InputCostPerImageToken := f0;
     TokenPricingAbsent := true |}.

Lemma GetModelPricing_fail_closed_witness :
  GetModelPricing (H := ascii_text)
    (NewBillingService f1 (Some (λ _, Some imagen_entry))) "imagen-4.0"
  = Err (ErrModelPricingUnavailable "imagen-4.0").
Proof.
  rewrite (GetModelPricing_fail_closed (H := ascii_text) f1 (λ _, Some imagen_entry) "imagen-4.0").
  - vm_compute. reflexivity.
  - intros l [= <-]. reflexivity.
Defined.

(** Claude Haiku 4.5 has no rule of its own and is billed at the prices of
    Claude 3 Haiku when the dynamic list is unavailable. *)
Lemma haiku_4_5_falls_to_haiku_3 :
  getFallbackPricing (H := ascii_text) initFallbackPricing "claude-haiku-4-5-20251001"
  = initFallbackPricing !! "claude-3-haiku".
Proof. vm_compute. reflexivity. Qed.
