(* ===== verification/Channel.v ===== *)
(** * Channels: price rows, price intervals and their validation

    [src/backend/internal/service/channel.go] and the validation half of
    [channel_service.go].  A channel carries price rows ([ChannelModelPricing])
    for model patterns of a platform; a row may split its prices by context
    size ([PricingInterval]).  The file holds the data, the lookups on one row
    or one channel, and the checks a configuration passes before it is stored:
    the interval checks and the detection of overlapping model patterns. *)

From Stdlib Require Import ZArith Lia Ascii String Bool.
From stdpp Require Import base numbers option list gmap strings sorting.
From S2P Require Import Prelude GoStrings GoFloat.

#[local] Open Scope Z_scope.

(** ** Data

    A Go pointer field [*float64] or [*int] is an [option].  Database ids,
    sort orders and timestamps that no operation reads are left out. *)

Abbreviation BillingMode := string (only parsing).
Definition BillingModeToken : BillingMode := "token".
Definition BillingModePerRequest : BillingMode := "per_request".
Definition BillingModeImage : BillingMode := "image".
Definition BillingModeVideo : BillingMode := "video".

Definition BillingMode_IsValid (m : BillingMode) : bool :=
  bool_decide (m ∈ [BillingModeToken; BillingModePerRequest; BillingModeImage; ""]).
Definition IsValidUsageFilter (m : BillingMode) : bool :=
  bool_decide (m ∈ [BillingModeToken; BillingModePerRequest; BillingModeImage;
                    BillingModeVideo; ""]).

Record PricingInterval := {
  iv_MinTokens : Z;
  iv_MaxTokens : option Z;
  iv_TierLabel : string;
  iv_InputPrice : option f64;
  iv_OutputPrice : option f64;
  iv_CacheWritePrice : option f64;
  iv_CacheReadPrice : option f64;
  iv_PerRequestPrice : option f64;
}.

Record ChannelModelPricing := {
  cp_Platform : string;
  cp_Models : list string;
  cp_BillingMode : BillingMode;
  cp_InputPrice : option f64;
  cp_OutputPrice : option f64;
  cp_CacheWritePrice : option f64;
  cp_CacheReadPrice : option f64;
  cp_ImageInputPrice : option f64;
  cp_ImageOutputPrice : option f64;
  cp_PerRequestPrice : option f64;
  cp_Intervals : list PricingInterval;
}.

Definition BillingModelSourceRequested : string := "requested".
Definition BillingModelSourceUpstream : string := "upstream".
Definition BillingModelSourceChannelMapped : string := "channel_mapped".
Definition StatusActive : string := "active".

(** A Go [map[string]string] as the list of its entries in the order in which
    [range] visits them. *)
Abbreviation go_map A := (list (string * A)).

Record Channel := {
  ch_ID : Z;
  ch_Name : string;
  ch_Status : string;
  ch_BillingModelSource : string;
  ch_RestrictModels : bool;
  ch_GroupIDs : list Z;
  ch_ModelPricing : list ChannelModelPricing;
  ch_ModelMapping : go_map (go_map string);
}.

Definition IsActive (c : Channel) : bool := String.eqb (ch_Status c) StatusActive.

Definition normalizeBillingModelSource (c : Channel) : Channel :=
  if String.eqb (ch_BillingModelSource c) "" then
    {| ch_ID := ch_ID c; ch_Name := ch_Name c; ch_Status := ch_Status c;
       ch_BillingModelSource := BillingModelSourceChannelMapped;
       ch_RestrictModels := ch_RestrictModels c; ch_GroupIDs := ch_GroupIDs c;
       ch_ModelPricing := ch_ModelPricing c; ch_ModelMapping := ch_ModelMapping c |}
  else c.

(** ** Lookups on a row *)

(** The test of [FindMatchingInterval]: [(min, max]]. *)
Definition iv_matches (totalTokens : Z) (iv : PricingInterval) : bool :=
  (iv_MinTokens iv <? totalTokens)
  && match iv_MaxTokens iv with None => true | Some m => totalTokens <=? m end.

Definition FindMatchingInterval (intervals : list PricingInterval) (totalTokens : Z)
  : option PricingInterval := List.find (iv_matches totalTokens) intervals.

Definition GetIntervalForContext (p : ChannelModelPricing) (totalTokens : Z)
  : option PricingInterval := FindMatchingInterval (cp_Intervals p) totalTokens.

Definition GetTierByLabel `{GoText} (p : ChannelModelPricing) (label : string)
  : option PricingInterval :=
  List.find (λ iv, String.eqb (ToLower (iv_TierLabel iv)) (ToLower label)) (cp_Intervals p).

Definition row_has_model `{GoText} (model : string) (p : ChannelModelPricing) : bool :=
  existsb (λ m, String.eqb (ToLower m) (ToLower model)) (cp_Models p).

(** [(c *Channel) GetModelPricing] *)
Definition Channel_GetModelPricing `{GoText} (c : Channel) (model : string)
  : option ChannelModelPricing := List.find (row_has_model model) (ch_ModelPricing c).

Definition GetModelPricingByPlatform `{GoText} (c : Channel) (platform model : string)
  : option ChannelModelPricing :=
  List.find (λ p, String.eqb (cp_Platform p) platform && row_has_model model p)
    (ch_ModelPricing c).

(** ** Validation of intervals *)

Inductive IntervalError :=
| NegativeMin (idx : nat) (min : Z)
| MaxNotPositive (idx : nat) (max : Z)
| MaxNotAboveMin (idx : nat) (max min : Z)
| NegativeIntervalPrice (idx : nat) (field : string)
| UnboundedNotLast (idx : nat)
| Overlap (idx : nat) (prevMax : option Z) (min : Z).

Definition iv_prices (iv : PricingInterval) : list (string * option f64) :=
  [("input_price", iv_InputPrice iv); ("output_price", iv_OutputPrice iv);
   ("cache_write_price", iv_CacheWritePrice iv); ("cache_read_price", iv_CacheReadPrice iv);
   ("per_request_price", iv_PerRequestPrice iv)].

(** [p.val != nil && *p.val < 0] *)
Definition price_negative (v : option f64) : bool :=
  match v with Some x => x <ᶠ f0 | None => false end.

Definition validateIntervalPrices (iv : PricingInterval) (idx : nat) : res IntervalError unit :=
  match List.find (λ p, price_negative (snd p)) (iv_prices iv) with
  | Some (name, _) => Err (NegativeIntervalPrice (idx + 1) name)
  | None => Ok ()
  end.

Definition validateSingleInterval (iv : PricingInterval) (idx : nat) : res IntervalError unit :=
  if iv_MinTokens iv <? 0 then Err (NegativeMin (idx + 1) (iv_MinTokens iv))
  else match iv_MaxTokens iv with
       | Some mx =>
           if mx <=? 0 then Err (MaxNotPositive (idx + 1) mx)
           else if mx <=? iv_MinTokens iv then
             Err (MaxNotAboveMin (idx + 1) mx (iv_MinTokens iv))
           else validateIntervalPrices iv idx
       | None => validateIntervalPrices iv idx
       end.

(** The loop [for i := range sorted { if err := validateSingleInterval(...) }] *)
Fixpoint validate_singles (i : nat) (l : list PricingInterval) : res IntervalError unit :=
  match l with
  | [] => Ok ()
  | iv :: l => _ <-? validateSingleInterval iv i; validate_singles (S i) l
  end.

(** The loop of [validateIntervalOverlap] from index [i] on; [prev] is the
    interval before it, absent at index 0. *)
Fixpoint overlap_loop (i : nat) (prev : option PricingInterval) (l : list PricingInterval)
  : res IntervalError unit :=
  match l with
  | [] => Ok ()
  | iv :: rest =>
      match iv_MaxTokens iv, rest with
      | None, _ :: _ => Err (UnboundedNotLast (i + 1))
      | _, _ =>
          match prev with
          | None => overlap_loop (S i) (Some iv) rest
          | Some p =>
              if match iv_MaxTokens p with None => true | Some m => iv_MinTokens iv <? m end
              then Err (Overlap i (iv_MaxTokens p) (iv_MinTokens iv))
              else overlap_loop (S i) (Some iv) rest
          end
      end
  end.
Definition validateIntervalOverlap (sorted : list PricingInterval) : res IntervalError unit :=
  overlap_loop 0 None sorted.

(** [sort.Slice] by [MinTokens].  Go's sort is not stable; the model sorts
    stably, and [validated_order_irrelevant] shows that the choice among equal
    keys does not matter. *)
Definition iv_le (a b : PricingInterval) : Prop := iv_MinTokens a ≤ iv_MinTokens b.
#[global] Instance iv_le_dec a b : Decision (iv_le a b).
Proof. unfold iv_le. apply _. Defined.
Fixpoint insert_interval (iv : PricingInterval) (l : list PricingInterval)
  : list PricingInterval :=
  match l with
  | [] => [iv]
  | b :: l' => if decide (iv_le iv b) then iv :: l else b :: insert_interval iv l'
  end.
Fixpoint sort_intervals (l : list PricingInterval) : list PricingInterval :=
  match l with
  | [] => []
  | iv :: l => insert_interval iv (sort_intervals l)
  end.

(** What follows the sort in [ValidateIntervals]. *)
Definition validate_sorted (sorted : list PricingInterval) (mode : BillingMode)
  : res IntervalError unit :=
  _ <-? validate_singles 0 sorted;
  if String.eqb mode BillingModePerRequest || String.eqb mode BillingModeImage then Ok ()
  else validateIntervalOverlap sorted.

Definition ValidateIntervals (intervals : list PricingInterval) (mode : BillingMode)
  : res IntervalError unit :=
  match intervals with
  | [] => Ok ()
  | _ => validate_sorted (sort_intervals intervals) mode
  end.

(** ** Conflicting model patterns *)

(** [splitWildcardSuffix]: the prefix, and whether the pattern ends in [*]. *)
Definition splitWildcardSuffix (pattern : string) : string * bool :=
  if HasSuffix pattern "*" then (TrimSuffix pattern "*", true) else (pattern, false).

Record modelEntry := {
  me_pattern : string;
  me_prefix : string;
  me_wildcard : bool;
}.

Definition toModelEntry `{GoText} (pattern : string) : modelEntry :=
  let (prefix, isWild) := splitWildcardSuffix (ToLower pattern) in
  {| me_pattern := pattern; me_prefix := prefix; me_wildcard := isWild |}.

Definition conflictsBetween (a b : modelEntry) : bool :=
  match me_wildcard a, me_wildcard b with
  | false, false => String.eqb (me_prefix a) (me_prefix b)
  | true, false => HasPrefix (me_prefix b) (me_prefix a)
  | false, true => HasPrefix (me_prefix a) (me_prefix b)
  | true, true => HasPrefix (me_prefix a) (me_prefix b) || HasPrefix (me_prefix b) (me_prefix a)
  end.

Inductive ChannelError :=
| PatternConflict (code platform a b : string)
| InvalidPricingIntervals (platform : string) (models : list string) (e : IntervalError)
| BillingModeMissingPrice
| NegativePrice (field : string)
| IntervalMissingPrice (min : Z) (max : option Z).

(** [detectConflicts]: the first conflicting pair, in the order of the two
    nested loops. *)
Fixpoint detectConflicts (entries : list modelEntry) (platform errCode : string)
  : res ChannelError unit :=
  match entries with
  | [] => Ok ()
  | a :: rest =>
      match List.find (conflictsBetween a) rest with
      | Some b => Err (PatternConflict errCode platform (me_pattern a) (me_pattern b))
      | None => detectConflicts rest platform errCode
      end
  end.

(** A loop [for _, x := range l { if err := f(x); err != nil { return err } }] *)
Fixpoint for_err {A E} (f : A → res E unit) (l : list A) : res E unit :=
  match l with
  | [] => Ok ()
  | x :: l => _ <-? f x; for_err f l
  end.

(** The entries of one platform, in order. *)
Definition entries_of_platform `{GoText} (l : list ChannelModelPricing) (platform : string)
  : list modelEntry :=
  flat_map (λ p, if String.eqb (cp_Platform p) platform then map toModelEntry (cp_Models p)
                 else []) l.

(** [validateNoConflictingModels]; [platforms] is the order in which Go visits
    the map [byPlatform], whose keys are the platforms of rows with models. *)
Definition validateNoConflictingModels `{GoText} (platforms : list string)
    (pricingList : list ChannelModelPricing) : res ChannelError unit :=
  for_err (λ platform, detectConflicts (entries_of_platform pricingList platform) platform
                         "MODEL_PATTERN_CONFLICT") platforms.

Definition validateNoConflictingMappings `{GoText} (mapping : go_map (go_map string))
  : res ChannelError unit :=
  for_err (λ pm, detectConflicts (map (λ kv, toModelEntry (fst kv)) (snd pm)) (fst pm)
                   "MAPPING_PATTERN_CONFLICT") mapping.

Definition validatePricingIntervals (pricingList : list ChannelModelPricing)
  : res ChannelError unit :=
  for_err (λ p, match ValidateIntervals (cp_Intervals p) (cp_BillingMode p) with
                | Ok _ => Ok ()
                | Err e => Err (InvalidPricingIntervals (cp_Platform p) (cp_Models p) e)
                end) pricingList.

Definition checkBillingModeRequirements (p : ChannelModelPricing) : res ChannelError unit :=
  if String.eqb (cp_BillingMode p) BillingModePerRequest
     || String.eqb (cp_BillingMode p) BillingModeImage then
    match cp_PerRequestPrice p, cp_Intervals p with
    | None, [] => Err BillingModeMissingPrice
    | _, _ => Ok ()
    end
  else Ok ().

Definition cp_prices (p : ChannelModelPricing) : list (string * option f64) :=
  [("input_price", cp_InputPrice p); ("output_price", cp_OutputPrice p);
   ("cache_write_price", cp_CacheWritePrice p); ("cache_read_price", cp_CacheReadPrice p);
   ("image_input_price", cp_ImageInputPrice p); ("image_output_price", cp_ImageOutputPrice p);
   ("per_request_price", cp_PerRequestPrice p)].

Definition checkPricesNotNegative (p : ChannelModelPricing) : res ChannelError unit :=
  match List.find (λ c, price_negative (snd c)) (cp_prices p) with
  | Some (field, _) => Err (NegativePrice field)
  | None => Ok ()
  end.

(** One of the five price fields is set. *)
Definition iv_has_price (iv : PricingInterval) : bool :=
  existsb (λ p, match snd p with Some _ => true | None => false end) (iv_prices iv).

Definition checkIntervalsHavePrices (p : ChannelModelPricing) : res ChannelError unit :=
  match List.find (λ iv, negb (iv_has_price iv)) (cp_Intervals p) with
  | Some iv => Err (IntervalMissingPrice (iv_MinTokens iv) (iv_MaxTokens iv))
  | None => Ok ()
  end.

Definition validatePricingBillingMode (pricing : list ChannelModelPricing)
  : res ChannelError unit :=
  for_err (λ p, _ <-? checkBillingModeRequirements p;
                _ <-? checkPricesNotNegative p;
                checkIntervalsHavePrices p) pricing.

Definition validatePricingEntries `{GoText} (platforms : list string)
    (pricing : list ChannelModelPricing) : res ChannelError unit :=
  _ <-? validateNoConflictingModels platforms pricing;
  _ <-? validatePricingIntervals pricing;
  validatePricingBillingMode pricing.

Definition validateChannelConfig `{GoText} (platforms : list string)
    (pricing : list ChannelModelPricing) (mapping : go_map (go_map string))
  : res ChannelError unit :=
  _ <-? validatePricingEntries platforms pricing;
  validateNoConflictingMappings mapping.

(** ** Intervals: what validation guarantees *)

(** The condition on one interval, independent of its index. *)
Definition iv_ok (iv : PricingInterval) : bool :=
  (0 <=? iv_MinTokens iv)
  && match iv_MaxTokens iv with Some m => (0 <? m) && (iv_MinTokens iv <? m) | None => true end
  && forallb (λ p, negb (price_negative (snd p))) (iv_prices iv).

Lemma find_ok_iff {A} (f : A → bool) l :
  List.find f l = None ↔ forallb (λ x, negb (f x)) l = true.
Proof.
  induction l as [|x l IH]; simpl; [by split|]. by destruct (f x); simpl; [|rewrite IH].
Qed.

Lemma validateIntervalPrices_ok iv i :
  validateIntervalPrices iv i = Ok () ↔ forallb (λ p, negb (price_negative (snd p))) (iv_prices iv) = true.
Proof.
  unfold validateIntervalPrices. rewrite <-(find_ok_iff (λ p, price_negative (snd p))).
  by destruct (List.find _ _) as [[]|].
Qed.

Lemma validateSingle_ok iv i : validateSingleInterval iv i = Ok () ↔ iv_ok iv = true.
Proof.
  unfold validateSingleInterval, iv_ok. rewrite Z.leb_antisym.
  destruct (_ <? 0); simpl; [done|].
  destruct (iv_MaxTokens iv) as [m|]; [|apply validateIntervalPrices_ok].
  rewrite (Z.ltb_antisym m 0), (Z.ltb_antisym m (iv_MinTokens iv)).
  destruct (m <=? 0), (m <=? iv_MinTokens iv); simpl; try done.
  apply validateIntervalPrices_ok.
Qed.

Lemma validate_singles_ok l i : validate_singles i l = Ok () ↔ Forall (λ iv, iv_ok iv = true) l.
Proof.
  revert i. induction l as [|iv l IH]; intros i; simpl; [by split|].
  rewrite Forall_cons, <-(validateSingle_ok iv i), <-(IH (S i)).
  destruct (validateSingleInterval iv i) as [[]|]; simpl; naive_solver.
Qed.

(** [a] ends before [b] begins. *)
Definition precedes (a b : PricingInterval) : Prop :=
  match iv_MaxTokens a with Some m => m ≤ iv_MinTokens b | None => False end.

Definition iv_disjoint (a b : PricingInterval) : Prop :=
  ∀ n, iv_matches n a = true → iv_matches n b = true → False.

Lemma iv_matches_spec n iv :
  iv_matches n iv = true ↔ iv_MinTokens iv < n ∧ ∀ m, iv_MaxTokens iv = Some m → n ≤ m.
Proof.
  unfold iv_matches. rewrite andb_true_iff, Z.ltb_lt.
  destruct (iv_MaxTokens iv) as [m|]; [rewrite Z.leb_le|]; naive_solver.
Qed.

Lemma iv_ok_bounds iv :
  iv_ok iv = true → 0 ≤ iv_MinTokens iv ∧ ∀ m, iv_MaxTokens iv = Some m → iv_MinTokens iv < m.
Proof.
  unfold iv_ok. rewrite !andb_true_iff, Z.leb_le. intros [[Hmin Hmax] _]. split; [done|].
  intros m Hm. rewrite Hm in Hmax. lia.
Qed.

Lemma precedes_disjoint a b : precedes a b → iv_disjoint a b.
Proof.
  unfold precedes. intros Hp n [_ Ha]%iv_matches_spec [Hb _]%iv_matches_spec.
  destruct (iv_MaxTokens a) as [m|]; [|done]. specialize (Ha m eq_refl). lia.
Qed.

(** The converse for intervals in ascending order: the first token count of the
    second interval is not in the first. *)
Lemma disjoint_precedes a b :
  iv_ok b = true → iv_le a b → iv_disjoint a b → precedes a b.
Proof.
  unfold iv_le, precedes. intros [Hb Hmb]%iv_ok_bounds Hle Hd.
  assert (iv_matches (iv_MinTokens b + 1) b = true) as Hmatch.
  { apply iv_matches_spec. split; [lia|]. intros m Hm%Hmb. lia. }
  assert (¬ iv_matches (iv_MinTokens b + 1) a = true) as Hna by (intros Ha; eauto).
  rewrite iv_matches_spec in Hna.
  destruct (iv_MaxTokens a) as [m|]; [|exfalso; apply Hna; split; [lia|done]].
  destruct (Z_le_gt_dec m (iv_MinTokens b)); [done|].
  exfalso. apply Hna. split; [lia|]. intros ? [= <-]. lia.
Qed.

Lemma precedes_trans a b c :
  iv_ok b = true → precedes a b → precedes b c → precedes a c.
Proof.
  unfold precedes. intros [_ Hb]%iv_ok_bounds.
  destruct (iv_MaxTokens a); [|done]. destruct (iv_MaxTokens b) as [m|]; [|done].
  specialize (Hb m eq_refl). lia.
Qed.

(** The overlap loop checks consecutive intervals. *)
Lemma overlap_loop_ok l i prev :
  Forall (λ iv, iv_ok iv = true) l →
  overlap_loop i prev l = Ok () ↔
  match prev with Some p => match l with [] => True | iv :: _ => precedes p iv end | None => True end
  ∧ pairwise precedes l.
Proof.
  intros Hok. revert i prev. induction Hok as [|iv l Hiv Hl IH]; intros i prev; simpl.
  { by destruct prev. }
  assert (∀ j, overlap_loop j (Some iv) l = Ok () ↔ Forall (precedes iv) l ∧ pairwise precedes l)
    as Hnext.
  { intros j. rewrite IH. split; intros [H1 H2]; (split; [|done]); [|by destruct H1].
    destruct l as [|b l]; [by constructor|]. constructor; [done|].
    simpl in H2. destruct H2 as [H2 _].
    eapply Forall_impl; [exact H2|]. intros c Hc.
    eapply precedes_trans; [|exact H1|exact Hc]. by apply Forall_cons in Hl as [? _]. }
  assert (l = [] ∨ is_Some (iv_MaxTokens iv) ∨ (iv_MaxTokens iv = None ∧ l ≠ [])) as Hcase.
  { destruct l; [by left|]. destruct (iv_MaxTokens iv); [right; left; eauto|]. right; right. done. }
  destruct Hcase as [->|[[m Hm]|[Hn Hl']]].
  - destruct prev as [p|]; [|by destruct (iv_MaxTokens iv)].
    unfold precedes at 1. simpl.
    destruct (iv_MaxTokens iv); destruct (iv_MaxTokens p) as [q|]; simpl;
      try (destruct (Z.ltb_spec (iv_MinTokens iv) q)); split; try done; try lia;
      intros [? ?]; try done; lia.
  - rewrite Hm. destruct prev as [p|]; [|rewrite Hnext; naive_solver].
    unfold precedes at 1. destruct (iv_MaxTokens p) as [q|]; [|split; [done|naive_solver]].
    destruct (Z.ltb_spec (iv_MinTokens iv) q); [split; [done|]; intros [? _]; lia|].
    rewrite Hnext. naive_solver.
  - destruct l as [|b l]; [done|]. rewrite Hn. split; [done|].
    intros (_ & [Hp _]%Forall_cons & _). unfold precedes in Hp. by rewrite Hn in Hp.
Qed.

(** ** The sort *)

Lemma insert_interval_perm iv l : Permutation (insert_interval iv l) (iv :: l).
Proof.
  induction l as [|b l IH]; simpl; [done|]. case_decide; [done|]. rewrite IH. constructor.
Qed.

Lemma sort_intervals_perm l : Permutation (sort_intervals l) l.
Proof. induction l as [|a l IH]; simpl; [done|]. by rewrite insert_interval_perm, IH. Qed.

Lemma sort_intervals_sorted l : pairwise iv_le (sort_intervals l).
Proof.
  induction l as [|a l IH]; simpl; [done|].
  induction (sort_intervals l) as [|b l' IH']; simpl; [done|].
  destruct IH as [Hb Hl']. case_decide as Hab; simpl.
  - repeat split; try done. constructor; [done|].
    eapply Forall_impl; [exact Hb|]. unfold iv_le in *. intros; simpl in *; lia.
  - split; [|by apply IH']. rewrite insert_interval_perm. constructor; [|done].
    unfold iv_le in *. lia.
Qed.

Lemma iv_disjoint_sym a b : iv_disjoint a b → iv_disjoint b a.
Proof. unfold iv_disjoint. eauto. Qed.

(** On a sorted list the checks accept exactly the pairwise disjoint lists of
    well-formed intervals. *)
Lemma validate_sorted_exact l mode :
  String.eqb mode BillingModePerRequest || String.eqb mode BillingModeImage = false →
  pairwise iv_le l →
  validate_sorted l mode = Ok () ↔
  Forall (λ iv, iv_ok iv = true) l ∧ pairwise iv_disjoint l.
Proof.
  unfold validate_sorted. intros -> Hsort.
  destruct (validate_singles 0 l) as [[]|e] eqn:E; simpl.
  - apply validate_singles_ok in E. unfold validateIntervalOverlap.
    rewrite overlap_loop_ok by done. split.
    + intros [_ Hp]. split; [done|]. eapply pairwise_impl; [apply precedes_disjoint|done].
    + intros [_ Hd]. split; [done|]. revert Hsort Hd. induction E as [|a l Ha Hl IH]; simpl; [done|].
      intros [Hal Hsort] [Had Hd]. split; [|auto].
      rewrite Forall_forall in Hl, Hal, Had |- *. intros b Hb. apply disjoint_precedes; auto.
  - split; [done|]. intros [Hok _]. apply (validate_singles_ok l 0) in Hok. congruence.
Qed.

(** For token billing, [ValidateIntervals] accepts a list exactly when each
    interval is well formed (bounds and prices not negative, upper bound above
    the lower one) and no token count lies in two intervals; the order in
    which the intervals are given does not matter. *)
Theorem ValidateIntervals_exact l mode :
  String.eqb mode BillingModePerRequest || String.eqb mode BillingModeImage = false →
  ValidateIntervals l mode = Ok () ↔
  Forall (λ iv, iv_ok iv = true) l ∧ pairwise iv_disjoint l.
Proof.
  intros Hmode. destruct l as [|iv l']; [simpl; naive_solver|].
  change (ValidateIntervals (iv :: l') mode) with (validate_sorted (sort_intervals (iv :: l')) mode).
  rewrite validate_sorted_exact by auto using sort_intervals_sorted.
  pose proof (sort_intervals_perm (iv :: l')) as Hperm.
  rewrite Hperm at 1. split; intros [? Hd]; (split; [done|]);
    (eapply pairwise_perm; [apply iv_disjoint_sym| |exact Hd]); done.
Qed.

Lemma ValidateIntervals_exact_witness :
  let iv min max := {| iv_MinTokens := min; iv_MaxTokens := max; iv_TierLabel := "";
                       iv_InputPrice := Some f1; iv_OutputPrice := None;
                       iv_CacheWritePrice := None; iv_CacheReadPrice := None;
                       iv_PerRequestPrice := None |} in
  Forall (λ iv, iv_ok iv = true) [iv 200000 None; iv 0 (Some 200000)]
  ∧ pairwise iv_disjoint [iv 200000 None; iv 0 (Some 200000)].
Proof.
  intros iv. apply (ValidateIntervals_exact _ BillingModeToken); vm_compute; reflexivity.
Defined.

(** The verdict does not depend on how the sort orders equal lower bounds. *)
Lemma validated_order_irrelevant l sorted mode :
  String.eqb mode BillingModePerRequest || String.eqb mode BillingModeImage = false →
  l ≠ [] → Permutation sorted l → pairwise iv_le sorted →
  validate_sorted sorted mode = Ok () ↔ ValidateIntervals l mode = Ok ().
Proof.
  intros Hmode Hl Hperm Hsort. rewrite ValidateIntervals_exact, validate_sorted_exact by done.
  rewrite Hperm at 1. split; intros [? Hd]; (split; [done|]);
    (eapply pairwise_perm; [apply iv_disjoint_sym| |exact Hd]); done.
Qed.

(** the price tier of a context size is unambiguous: when a row's
    intervals pass validation, looking up a token count finds the same
    interval whatever the order in which the intervals are stored. *)
Theorem FindMatchingInterval_order_irrelevant l l' mode n :
  String.eqb mode BillingModePerRequest || String.eqb mode BillingModeImage = false →
  ValidateIntervals l mode = Ok () → Permutation l l' →
  FindMatchingInterval l n = FindMatchingInterval l' n.
Proof.
  intros Hmode [_ Hd]%ValidateIntervals_exact Hperm; [|done].
  apply find_perm; [done|]. eapply pairwise_impl; [|exact Hd]. intros a b Hab. apply Hab.
Qed.

Lemma FindMatchingInterval_order_irrelevant_witness :
  let iv min max := {| iv_MinTokens := min; iv_MaxTokens := max; iv_TierLabel := "";
                       iv_InputPrice := Some f1; iv_OutputPrice := None;
                       iv_CacheWritePrice := None; iv_CacheReadPrice := None;
                       iv_PerRequestPrice := None |} in
  FindMatchingInterval [iv 200000 None; iv 0 (Some 200000)] 200000 = Some (iv 0 (Some 200000)).
Proof.
  intros iv.
  rewrite (FindMatchingInterval_order_irrelevant _ [iv 0 (Some 200000); iv 200000 None]
             BillingModeToken 200000); try (vm_compute; reflexivity).
  constructor.
Defined.

(** ** Pattern conflicts: what the check means *)

(** The (lower-case) model names a pattern stands for. *)
Definition entry_matches (e : modelEntry) (name : string) : bool :=
  if me_wildcard e then HasPrefix name (me_prefix e) else String.eqb name (me_prefix e).

Lemma conflictsBetween_sym a b : conflictsBetween a b = conflictsBetween b a.
Proof.
  unfold conflictsBetween. destruct (me_wildcard a), (me_wildcard b); try done.
  - by rewrite orb_comm.
  - apply String.eqb_sym.
Qed.

(** Two model patterns are reported as conflicting exactly when some model
    name is matched by both - the four prefix tests are neither too strict
    nor too lax. *)
Theorem conflictsBetween_exact a b :
  conflictsBetween a b = true ↔ ∃ name, entry_matches a name = true ∧ entry_matches b name = true.
Proof.
  unfold conflictsBetween, entry_matches.
  destruct (me_wildcard a), (me_wildcard b).
  - rewrite orb_true_iff. split.
    + intros [Hp|Hp]; eauto using HasPrefix_refl.
    + intros (s & Ha & Hb). apply orb_true_iff. by eapply HasPrefix_comparable.
  - split; [intros ?; exists (me_prefix b); by rewrite String.eqb_refl|].
    by intros (s & ? & ->%String.eqb_eq).
  - split; [intros ?; exists (me_prefix a); by rewrite String.eqb_refl|].
    by intros (s & ->%String.eqb_eq & ?).
  - split.
    + intros ->%String.eqb_eq. exists (me_prefix b). by rewrite String.eqb_refl.
    + intros (s & ->%String.eqb_eq & Hb). by rewrite String.eqb_eq in *.
Qed.

Definition entries_apart (a b : modelEntry) : Prop :=
  ∀ name, entry_matches a name = true → entry_matches b name = true → False.

Lemma entries_apart_iff a b : entries_apart a b ↔ conflictsBetween a b = false.
Proof.
  rewrite <-not_true_iff_false, conflictsBetween_exact. unfold entries_apart. naive_solver.
Qed.

Lemma entries_apart_sym a b : entries_apart a b → entries_apart b a.
Proof. unfold entries_apart. eauto. Qed.

Lemma detectConflicts_ok l platform code :
  detectConflicts l platform code = Ok () ↔ pairwise entries_apart l.
Proof.
  induction l as [|a l IH]; simpl; [done|].
  destruct (List.find _ l) as [b|] eqn:E.
  - split; [done|]. intros [Ha _]. apply find_some in E as [Hin Hb].
    rewrite Forall_forall in Ha. apply list_elem_of_In, Ha, entries_apart_iff in Hin. congruence.
  - rewrite IH. apply find_None_iff in E. split; [intros ?; split|by intros [_ ?]].
    + eapply Forall_impl; [exact E|]. intros b. apply entries_apart_iff.
    + done.
Qed.

Lemma for_err_ok {A E} (f : A → res E unit) l :
  for_err f l = Ok () ↔ Forall (λ x, f x = Ok ()) l.
Proof.
  induction l as [|x l IH]; simpl; [by split|]. rewrite Forall_cons.
  destruct (f x) as [[]|]; simpl; [rewrite IH|]; naive_solver.
Qed.
