(* ===== verification/ChannelCache.v ===== *)
(** * The channel cache

    The run-time half of [src/backend/internal/service/channel_service.go]:
    the channels and the platforms of their groups are flattened into hash
    maps keyed by (group, platform, model), with the wildcard patterns in
    lists, and every request is priced, mapped and restricted through these
    maps.  The snapshot is rebuilt from the database when it is older than
    [channelCacheTTL], and an empty one is stored after a database error. *)

From Stdlib Require Import ZArith Lia Ascii String Bool.
From stdpp Require Import base numbers option list gmap strings.
From S2P Require Import Prelude GoStrings GoFloat Channel.

#[local] Open Scope Z_scope.

Definition PlatformAnthropic : string := "anthropic".
Definition PlatformOpenAI : string := "openai".
Definition PlatformGemini : string := "gemini".
Definition PlatformAntigravity : string := "antigravity".
Definition PlatformGrok : string := "grok".
Definition PlatformComposite : string := "composite".

Definition isConcreteRequestPlatform (platform : string) : bool :=
  existsb (String.eqb platform)
    [PlatformAnthropic; PlatformOpenAI; PlatformGemini; PlatformAntigravity; PlatformGrok].

Definition isPlatformPricingMatch (groupPlatform pricingPlatform : string) : bool :=
  if String.eqb groupPlatform PlatformComposite then isConcreteRequestPlatform pricingPlatform
  else String.eqb groupPlatform pricingPlatform.

Definition matchingPlatforms (groupPlatform : string) : list string :=
  if String.eqb groupPlatform PlatformComposite
  then [PlatformAnthropic; PlatformGemini; PlatformOpenAI; PlatformAntigravity; PlatformGrok]
  else [groupPlatform].

(** What the lookups read of a request's [context.Context]: the values under
    [ForcePlatform] and [ResolvedTargetPlatform], if they are strings. *)
Record ReqCtx := {
  ctx_ForcePlatform : option string;
  ctx_ResolvedTargetPlatform : option string;
}.

Definition ResolvedTargetPlatformFromContext (ctx : option ReqCtx) : option string :=
  match ctx with
  | None => None
  | Some c =>
      match ctx_ResolvedTargetPlatform c with
      | Some p => if String.eqb (TrimSpace p) "" then None else Some (TrimSpace p)
      | None => None
      end
  end.

Definition channelLookupPlatform (ctx : option ReqCtx) (groupPlatform : string) : string :=
  match ctx with
  | None => groupPlatform
  | Some c =>
      let resolved :=
        if String.eqb groupPlatform PlatformComposite then
          match ResolvedTargetPlatformFromContext ctx with
          | Some p => p
          | None => groupPlatform
          end
        else groupPlatform in
      match ctx_ForcePlatform c with
      | Some f => if negb (String.eqb (TrimSpace f) "") then TrimSpace f else resolved
      | None => resolved
      end
  end.

(** ** The snapshot *)

Abbreviation modelKey := (Z * string * string)%type.
Abbreviation gpKey := (Z * string)%type.

Record channelCache := {
  pricingByGroupModel : gmap modelKey ChannelModelPricing;
  wildcardByGroupPlatform : gmap gpKey (list (string * ChannelModelPricing));
  mappingByGroupModel : gmap modelKey string;
  wildcardMappingByGP : gmap gpKey (list (string * string));
  channelByGroupID : gmap Z Channel;
  groupPlatform : gmap Z string;
  byID : gmap Z Channel;
  loadedAt : time;
}.

Definition newEmptyChannelCache : channelCache :=
  {| pricingByGroupModel := ∅; wildcardByGroupPlatform := ∅; mappingByGroupModel := ∅;
     wildcardMappingByGP := ∅; channelByGroupID := ∅; groupPlatform := ∅; byID := ∅;
     loadedAt := 0 |}.

Section Cache.
Context `{GoText}.

Definition normalizeChannelPricingModelName (model : string) : string :=
  let model := ToLower (TrimSpace model) in
  if HasPrefix model "claude-" then ReplaceAll model "." "-" else model.

Definition add_exact_pricing (k : modelKey) (p : ChannelModelPricing) (c : channelCache)
  : channelCache :=
  {| pricingByGroupModel := <[k := p]> (pricingByGroupModel c);
     wildcardByGroupPlatform := wildcardByGroupPlatform c;
     mappingByGroupModel := mappingByGroupModel c;
     wildcardMappingByGP := wildcardMappingByGP c;
     channelByGroupID := channelByGroupID c; groupPlatform := groupPlatform c;
     byID := byID c; loadedAt := loadedAt c |}.

Definition add_wildcard_pricing (k : gpKey) (prefix : string) (p : ChannelModelPricing)
    (c : channelCache) : channelCache :=
  {| pricingByGroupModel := pricingByGroupModel c;
     wildcardByGroupPlatform :=
       <[k := default [] (wildcardByGroupPlatform c !! k) ++ [(prefix, p)]]>
         (wildcardByGroupPlatform c);
     mappingByGroupModel := mappingByGroupModel c;
     wildcardMappingByGP := wildcardMappingByGP c;
     channelByGroupID := channelByGroupID c; groupPlatform := groupPlatform c;
     byID := byID c; loadedAt := loadedAt c |}.

Definition add_exact_mapping (k : modelKey) (dst : string) (c : channelCache) : channelCache :=
  {| pricingByGroupModel := pricingByGroupModel c;
     wildcardByGroupPlatform := wildcardByGroupPlatform c;
     mappingByGroupModel := <[k := dst]> (mappingByGroupModel c);
     wildcardMappingByGP := wildcardMappingByGP c;
     channelByGroupID := channelByGroupID c; groupPlatform := groupPlatform c;
     byID := byID c; loadedAt := loadedAt c |}.

Definition add_wildcard_mapping (k : gpKey) (prefix dst : string) (c : channelCache)
  : channelCache :=
  {| pricingByGroupModel := pricingByGroupModel c;
     wildcardByGroupPlatform := wildcardByGroupPlatform c;
     mappingByGroupModel := mappingByGroupModel c;
     wildcardMappingByGP :=
       <[k := default [] (wildcardMappingByGP c !! k) ++ [(prefix, dst)]]>
         (wildcardMappingByGP c);
     channelByGroupID := channelByGroupID c; groupPlatform := groupPlatform c;
     byID := byID c; loadedAt := loadedAt c |}.

Definition set_channel_of_group (gid : Z) (ch : Channel) (c : channelCache) : channelCache :=
  {| pricingByGroupModel := pricingByGroupModel c;
     wildcardByGroupPlatform := wildcardByGroupPlatform c;
     mappingByGroupModel := mappingByGroupModel c;
     wildcardMappingByGP := wildcardMappingByGP c;
     channelByGroupID := <[gid := ch]> (channelByGroupID c); groupPlatform := groupPlatform c;
     byID := byID c; loadedAt := loadedAt c |}.

Definition set_channel_by_id (ch : Channel) (c : channelCache) : channelCache :=
  {| pricingByGroupModel := pricingByGroupModel c;
     wildcardByGroupPlatform := wildcardByGroupPlatform c;
     mappingByGroupModel := mappingByGroupModel c;
     wildcardMappingByGP := wildcardMappingByGP c;
     channelByGroupID := channelByGroupID c; groupPlatform := groupPlatform c;
     byID := <[ch_ID ch := ch]> (byID c); loadedAt := loadedAt c |}.

(** The inner loop of [expandPricingToCache]: one model of one row. *)
Definition expand_model (gid : Z) (pricing : ChannelModelPricing) (c : channelCache)
    (model : string) : channelCache :=
  if HasSuffix model "*" then
    add_wildcard_pricing (gid, cp_Platform pricing)
      (normalizeChannelPricingModelName (TrimSuffix model "*")) pricing c
  else
    add_exact_pricing (gid, cp_Platform pricing, normalizeChannelPricingModelName model) pricing c.

Definition expandPricingToCache (ch : Channel) (gid : Z) (platform : string)
    (cache : channelCache) : channelCache :=
  foldl (λ c pricing,
           if negb (isPlatformPricingMatch platform (cp_Platform pricing)) then c
           else foldl (expand_model gid pricing) c (cp_Models pricing))
        cache (ch_ModelPricing ch).

(** [m[k]] on the entries of a Go map. *)
Fixpoint map_get {A} (k : string) (m : go_map A) : option A :=
  match m with
  | [] => None
  | (k', v) :: m => if String.eqb k k' then Some v else map_get k m
  end.

Definition expand_mapping (gid : Z) (mappingPlatform : string) (c : channelCache)
    (kv : string * string) : channelCache :=
  let (src, dst) := kv in
  if HasSuffix src "*" then
    add_wildcard_mapping (gid, mappingPlatform) (ToLower (TrimSuffix src "*")) dst c
  else add_exact_mapping (gid, mappingPlatform, ToLower src) dst c.

Definition expandMappingToCache (ch : Channel) (gid : Z) (platform : string)
    (cache : channelCache) : channelCache :=
  foldl (λ c mappingPlatform,
           match map_get mappingPlatform (ch_ModelMapping ch) with
           | None => c
           | Some platformMapping => foldl (expand_mapping gid mappingPlatform) c platformMapping
           end)
        cache (matchingPlatforms platform).

(** The body of the inner loop of [populateChannelCache]: one group of one
    channel. *)
Definition populate_group (groupPlatforms : gmap Z string) (ch : Channel) (c : channelCache)
    (gid : Z) : channelCache :=
  let platform := default "" (groupPlatforms !! gid) in
  expandMappingToCache ch gid platform
    (expandPricingToCache ch gid platform (set_channel_of_group gid ch c)).

Definition populate_channel (groupPlatforms : gmap Z string) (c : channelCache) (ch : Channel)
  : channelCache :=
  let ch := normalizeBillingModelSource ch in
  foldl (populate_group groupPlatforms ch) (set_channel_by_id ch c) (ch_GroupIDs ch).

Definition populateChannelCache (now : time) (channels : list Channel)
    (groupPlatforms : gmap Z string) : channelCache :=
  let cache :=
    {| pricingByGroupModel := ∅; wildcardByGroupPlatform := ∅; mappingByGroupModel := ∅;
       wildcardMappingByGP := ∅; channelByGroupID := ∅; groupPlatform := groupPlatforms;
       byID := ∅; loadedAt := now |} in
  foldl (populate_channel groupPlatforms) cache channels.

(** ** Lookups *)

Definition matchWildcard (c : channelCache) (groupID : Z) (platform modelLower : string)
  : option ChannelModelPricing :=
  snd <$> List.find (λ wc, HasPrefix modelLower (fst wc))
            (default [] (wildcardByGroupPlatform c !! (groupID, platform))).

Definition matchWildcardMapping (c : channelCache) (groupID : Z) (platform modelLower : string)
  : string :=
  default "" (snd <$> List.find (λ wc, HasPrefix modelLower (fst wc))
                        (default [] (wildcardMappingByGP c !! (groupID, platform)))).

(** The first [Some] of [f] over a list: a loop that returns on a hit. *)
Fixpoint first_some {A B} (f : A → option B) (l : list A) : option B :=
  match l with
  | [] => None
  | x :: l => match f x with Some y => Some y | None => first_some f l end
  end.

Definition lookupPricingAcrossPlatforms (cache : channelCache) (groupID : Z)
    (platform modelLower : string) : option ChannelModelPricing :=
  let modelLower := normalizeChannelPricingModelName modelLower in
  match first_some (λ p, pricingByGroupModel cache !! (groupID, p, modelLower))
          (matchingPlatforms platform) with
  | Some pricing => Some pricing
  | None => first_some (λ p, matchWildcard cache groupID p modelLower)
              (matchingPlatforms platform)
  end.

Definition lookupMappingAcrossPlatforms (cache : channelCache) (groupID : Z)
    (platform modelLower : string) : string :=
  match first_some (λ p, mappingByGroupModel cache !! (groupID, p, modelLower))
          (matchingPlatforms platform) with
  | Some mapped => mapped
  | None =>
      default ""
        (first_some (λ p, let mapped := matchWildcardMapping cache groupID p modelLower in
                          if String.eqb mapped "" then None else Some mapped)
           (matchingPlatforms platform))
  end.

Record channelLookup := {
  lk_channel : Channel;
  lk_platform : string;
}.

(** [lookupGroupChannel] on a loaded cache. *)
Definition lookupGroupChannel (cache : channelCache) (ctx : option ReqCtx) (groupID : Z)
  : option channelLookup :=
  match channelByGroupID cache !! groupID with
  | Some ch =>
      if IsActive ch then
        Some {| lk_channel := ch;
                lk_platform :=
                  channelLookupPlatform ctx (default "" (groupPlatform cache !! groupID)) |}
      else None
  | None => None
  end.

Definition GetChannelModelPricing (cache : channelCache) (ctx : option ReqCtx) (groupID : Z)
    (model : string) : option ChannelModelPricing :=
  match lookupGroupChannel cache ctx groupID with
  | None => None
  | Some lk => lookupPricingAcrossPlatforms cache groupID (lk_platform lk) (ToLower model)
  end.

Record ChannelMappingResult := {
  mr_MappedModel : string;
  mr_ChannelID : Z;
  mr_Mapped : bool;
  mr_BillingModelSource : string;
}.

Definition unmapped (model : string) : ChannelMappingResult :=
  {| mr_MappedModel := model; mr_ChannelID := 0; mr_Mapped := false;
     mr_BillingModelSource := "" |}.

Definition resolveMapping (cache : channelCache) (lk : channelLookup) (groupID : Z)
    (model : string) : ChannelMappingResult :=
  let mapped := lookupMappingAcrossPlatforms cache groupID (lk_platform lk) (ToLower model) in
  {| mr_MappedModel := if String.eqb mapped "" then model else mapped;
     mr_ChannelID := ch_ID (lk_channel lk);
     mr_Mapped := negb (String.eqb mapped "");
     mr_BillingModelSource := ch_BillingModelSource (lk_channel lk) |}.

Definition ResolveChannelMapping (cache : channelCache) (ctx : option ReqCtx) (groupID : Z)
    (model : string) : ChannelMappingResult :=
  match lookupGroupChannel cache ctx groupID with
  | None => unmapped model
  | Some lk => resolveMapping cache lk groupID model
  end.

Definition checkRestricted (cache : channelCache) (lk : channelLookup) (groupID : Z)
    (model : string) : bool :=
  if negb (ch_RestrictModels (lk_channel lk)) then false
  else match lookupPricingAcrossPlatforms cache groupID (lk_platform lk) (ToLower model) with
       | Some _ => false
       | None => true
       end.

Definition IsModelRestricted (cache : channelCache) (ctx : option ReqCtx) (groupID : Z)
    (model : string) : bool :=
  match lookupGroupChannel cache ctx groupID with
  | None => false
  | Some lk => checkRestricted cache lk groupID model
  end.

(** [BuildModelMappingChain]: the arrow is the three bytes of U+2192. *)
Definition arrow : string := bytes [226; 134; 146]%N.

Definition BuildModelMappingChain (r : ChannelMappingResult) (reqModel upstreamModel : string)
  : string :=
  if negb (mr_Mapped r) then
    if negb (String.eqb upstreamModel "") && negb (String.eqb upstreamModel reqModel)
    then reqModel +:+ arrow +:+ upstreamModel else ""
  else if negb (String.eqb upstreamModel "") && negb (String.eqb upstreamModel (mr_MappedModel r))
  then reqModel +:+ arrow +:+ mr_MappedModel r +:+ arrow +:+ upstreamModel
  else reqModel +:+ arrow +:+ mr_MappedModel r.

(** ** Loading *)

Definition channelCacheTTL : duration := 10 * Minute.
Definition channelErrorTTL : duration := 5 * Second.

(** The two repository calls of [fetchChannelData]. *)
Record ChannelRepo (E : Type) := {
  repo_ListAll : res E (list Channel);
  repo_GetGroupPlatforms : list Z → res E (gmap Z string);
}.
Arguments repo_ListAll {E} _.
Arguments repo_GetGroupPlatforms {E} _ _.

(** [fetchChannelData] *)
Definition fetchChannelData {E} (repo : ChannelRepo E) : res E (list Channel * gmap Z string) :=
  channels <-? repo_ListAll repo;
  match flat_map ch_GroupIDs channels with
  | [] => Ok (channels, ∅)
  | allGroupIDs =>
      gps <-? repo_GetGroupPlatforms repo allGroupIDs;
      Ok (channels, gps)
  end.

(** [storeErrorCache]: an empty snapshot dated so that it expires in
    [channelErrorTTL]. *)
Definition errorCache (now : time) : channelCache :=
  {| pricingByGroupModel := ∅; wildcardByGroupPlatform := ∅; mappingByGroupModel := ∅;
     wildcardMappingByGP := ∅; channelByGroupID := ∅; groupPlatform := ∅; byID := ∅;
     loadedAt := time_Add now (- (channelCacheTTL - channelErrorTTL)) |}.

(** [buildCache]: the new content of [s.cache] and the result. *)
Definition buildCache {E} (now : time) (repo : ChannelRepo E)
  : channelCache * res E channelCache :=
  match fetchChannelData repo with
  | Err e => (errorCache now, Err e)
  | Ok (channels, gps) =>
      let cache := populateChannelCache now channels gps in (cache, Ok cache)
  end.

(** [loadCache]; the second test inside [cacheSF.Do] reads the same snapshot
    when no other goroutine stores one in between. *)
Definition cache_fresh (now : time) (c : channelCache) : bool :=
  time_Sub now (loadedAt c) <? channelCacheTTL.

Definition loadCache {E} (now : time) (repo : ChannelRepo E) (stored : option channelCache)
  : option channelCache * res E channelCache :=
  match stored with
  | Some cached =>
      if cache_fresh now cached then (stored, Ok cached)
      else let (c, r) := buildCache now repo in (Some c, r)
  | None => let (c, r) := buildCache now repo in (Some c, r)
  end.

(** [invalidateCache] *)
Definition invalidateCache {E} (now : time) (repo : ChannelRepo E) : option channelCache :=
  Some (fst (buildCache now repo)).

End Cache.

(** * What the cache answers

    The lookups restricted to one group only read the entries of that group;
    [same_for g] relates two snapshots that agree on them. *)

Section CacheFacts.
Context `{GoText}.

Record same_for (g : Z) (c c' : channelCache) : Prop := {
  sf_pricing : ∀ p k, pricingByGroupModel c !! (g, p, k) = pricingByGroupModel c' !! (g, p, k);
  sf_wild : ∀ p, wildcardByGroupPlatform c !! (g, p) = wildcardByGroupPlatform c' !! (g, p);
  sf_map : ∀ p k, mappingByGroupModel c !! (g, p, k) = mappingByGroupModel c' !! (g, p, k);
  sf_wmap : ∀ p, wildcardMappingByGP c !! (g, p) = wildcardMappingByGP c' !! (g, p);
  sf_channel : channelByGroupID c !! g = channelByGroupID c' !! g;
  sf_platform : groupPlatform c = groupPlatform c';
}.

#[global] Instance same_for_preorder g : PreOrder (same_for g).
Proof.
  split; [done|]. intros c1 c2 c3 [] []. constructor; intros; etrans; eauto.
Qed.

#[local] Hint Extern 0 (same_for _ _ _) => reflexivity : core.

Lemma foldl_same_for {A} g (f : channelCache → A → channelCache) l c :
  (∀ c x, x ∈ l → same_for g (f c x) c) → same_for g (foldl f c l) c.
Proof.
  revert c. induction l as [|x l IH]; intros c Hf; simpl; [done|].
  etrans; [apply IH; intros; apply Hf; by right|]. apply Hf. by left.
Qed.

Ltac solve_same_for :=
  constructor; simpl; intros; try done; by rewrite lookup_insert_ne by congruence.

Lemma expand_model_other g gid p c m : gid ≠ g → same_for g (expand_model gid p c m) c.
Proof. intros Hne. unfold expand_model. destruct (HasSuffix _ _); solve_same_for. Qed.

Lemma expand_mapping_other g gid p c kv : gid ≠ g → same_for g (expand_mapping gid p c kv) c.
Proof. intros Hne. destruct kv. simpl. destruct (HasSuffix _ _); solve_same_for. Qed.

Lemma populate_group_other gps ch g c gid :
  gid ≠ g → same_for g (populate_group gps ch c gid) c.
Proof.
  intros Hne. unfold populate_group.
  transitivity (set_channel_of_group gid ch c); [|solve_same_for].
  transitivity (expandPricingToCache ch gid (default "" (gps !! gid)) (set_channel_of_group gid ch c)).
  - apply foldl_same_for. intros c' p _. destruct (map_get _ _); [|done].
    apply foldl_same_for. intros. by apply expand_mapping_other.
  - apply foldl_same_for. intros c' p _. destruct (negb _); [done|].
    apply foldl_same_for. intros. by apply expand_model_other.
Qed.

Lemma populate_channel_other gps g c ch :
  g ∉ ch_GroupIDs ch → same_for g (populate_channel gps c ch) c.
Proof.
  intros Hg. unfold populate_channel.
  assert (ch_GroupIDs (normalizeBillingModelSource ch) = ch_GroupIDs ch) as Hids
    by (unfold normalizeBillingModelSource; by destruct (String.eqb _ _)).
  etrans; [apply foldl_same_for|solve_same_for].
  intros c' gid Hin. apply populate_group_other. intros ->. rewrite Hids in Hin. done.
Qed.

(** The snapshot before anything is added. *)
Definition start_cache (now : time) (gps : gmap Z string) : channelCache :=
  {| pricingByGroupModel := ∅; wildcardByGroupPlatform := ∅; mappingByGroupModel := ∅;
     wildcardMappingByGP := ∅; channelByGroupID := ∅; groupPlatform := gps; byID := ∅;
     loadedAt := now |}.

Lemma populate_no_channel now channels gps g :
  g ∉ flat_map ch_GroupIDs channels →
  same_for g (populateChannelCache now channels gps) (start_cache now gps).
Proof.
  intros Hg. apply foldl_same_for. intros c ch Hch. apply populate_channel_other.
  intros Hin. apply Hg. apply list_elem_of_In, in_flat_map. exists ch.
  split; by apply list_elem_of_In.
Qed.

Lemma populate_group_same gps ch g c c' :
  same_for g c c' → same_for g (populate_group gps ch c g) (populate_group gps ch c' g).
Proof.
  intros Hc. unfold populate_group, expandMappingToCache, expandPricingToCache.
  assert (same_for g (set_channel_of_group g ch c) (set_channel_of_group g ch c')) as H1.
  { destruct Hc. constructor; simpl; intros; try done. by rewrite !lookup_insert_eq. }
  clear Hc. revert H1.
  generalize (set_channel_of_group g ch c), (set_channel_of_group g ch c').
  assert (∀ A (f : channelCache → A → channelCache) l,
            (∀ x c c', same_for g c c' → same_for g (f c x) (f c' x)) →
            ∀ c c', same_for g c c' → same_for g (foldl f c l) (foldl f c' l)) as Hfold.
  { intros A f l Hf. induction l; simpl; auto. }
  clear c c'. intros c c' Hc. apply Hfold.
  - intros p c1 c2 Hc12. destruct (map_get _ _); [|done]. revert c1 c2 Hc12. apply Hfold.
    intros [src dst] c1 c2 []. simpl. destruct (HasSuffix _ _); constructor; simpl; intros;
      try done; rewrite ?lookup_insert; try case_decide; simplify_eq; congruence.
  - revert c c' Hc. apply Hfold. intros p c1 c2 Hc12. destruct (negb _); [done|].
    revert c1 c2 Hc12. apply Hfold. intros m c1 c2 []. unfold expand_model.
    destruct (HasSuffix _ _); constructor; simpl; intros;
      try done; rewrite ?lookup_insert; try case_decide; simplify_eq; congruence.
Qed.

(** A group that belongs to one channel sees that channel, expanded into an
    empty snapshot. *)
Lemma populate_one_channel now channels gps g ch :
  NoDup (flat_map ch_GroupIDs channels) → ch ∈ channels → g ∈ ch_GroupIDs ch →
  same_for g (populateChannelCache now channels gps)
    (populate_group gps (normalizeBillingModelSource ch) (start_cache now gps) g).
Proof.
  intros Hnd Hch Hg. apply list_elem_of_split in Hch as (pre & post & ->).
  unfold populateChannelCache. rewrite foldl_app. simpl.
  rewrite flat_map_app in Hnd. simpl in Hnd.
  apply NoDup_app in Hnd as (_ & Hpre & Hnd). apply NoDup_app in Hnd as (Hndch & Hpost & _).
  assert (∀ cs, (∀ x, x ∈ flat_map ch_GroupIDs cs → x ≠ g) → ∀ ch', ch' ∈ cs → g ∉ ch_GroupIDs ch')
    as Hnot.
  { intros cs Hcs ch' Hin Hg'. eapply Hcs; [|done]. apply list_elem_of_In, in_flat_map.
    exists ch'. split; by apply list_elem_of_In. }
  etrans.
  { apply foldl_same_for. intros c ch' Hin. apply populate_channel_other.
    eapply Hnot; [|done]. intros x Hx ->. by eapply Hpost. }
  match goal with |- same_for _ (populate_channel _ ?c0 _) _ => set (c1 := c0) end.
  assert (same_for g c1 (start_cache now gps)) as Hc1.
  { apply foldl_same_for. intros c ch' Hin. apply populate_channel_other.
    eapply Hnot; [|done]. intros x Hx ->. eapply Hpre; [done|]. apply elem_of_app. by left. }
  clearbody c1. unfold populate_channel.
  assert (ch_GroupIDs (normalizeBillingModelSource ch) = ch_GroupIDs ch) as ->
    by (unfold normalizeBillingModelSource; by destruct (String.eqb _ _)).
  apply list_elem_of_split in Hg as (a & b & Hab). rewrite Hab in Hndch |- *.
  apply NoDup_app in Hndch as (_ & Ha & [Hb _]%NoDup_cons).
  rewrite foldl_app. simpl. etrans.
  { apply foldl_same_for. intros c gid Hin. apply populate_group_other. congruence. }
  apply populate_group_same. etrans.
  { apply foldl_same_for. intros c gid Hin. apply populate_group_other. intros ->.
    eapply Ha; [done|]. by left. }
  etrans; [|exact Hc1]. solve_same_for.
Qed.

(** ** The answers as scans of the configuration *)

Definition model_is (k m : string) : bool :=
  negb (HasSuffix m "*") && String.eqb (normalizeChannelPricingModelName m) k.
Definition model_covers (k m : string) : bool :=
  HasSuffix m "*" && HasPrefix k (normalizeChannelPricingModelName (TrimSuffix m "*")).

(** The row a group of platform [gp] uses for platform [p] and the normalised
    name [k]: the last one that names it, or the first whose pattern covers
    it. *)
Definition row_usable (gp p : string) (r : ChannelModelPricing) : bool :=
  isPlatformPricingMatch gp (cp_Platform r) && String.eqb (cp_Platform r) p.
Definition scan_exact (gp p k : string) (rows : list ChannelModelPricing) :=
  List.find (λ r, row_usable gp p r && existsb (model_is k) (cp_Models r)) (rev rows).
Definition scan_wildcard (gp p k : string) (rows : list ChannelModelPricing) :=
  List.find (λ r, row_usable gp p r && existsb (model_covers k) (cp_Models r)) rows.

(** The price row for a request, read off the configuration. *)
Definition scan_pricing (gp platform k : string) (rows : list ChannelModelPricing)
  : option ChannelModelPricing :=
  match first_some (λ p, scan_exact gp p k rows) (matchingPlatforms platform) with
  | Some r => Some r
  | None => first_some (λ p, scan_wildcard gp p k rows) (matchingPlatforms platform)
  end.

(** The target of a mapping of one platform, read off its entries. *)
Definition scan_map_exact (k : string) (m : go_map string) : option string :=
  snd <$> List.find (λ kv, negb (HasSuffix (fst kv) "*") && String.eqb (ToLower (fst kv)) k) (rev m).
Definition scan_map_wildcard (k : string) (m : go_map string) : option string :=
  snd <$> List.find (λ kv, HasSuffix (fst kv) "*"
                           && HasPrefix k (ToLower (TrimSuffix (fst kv) "*"))) m.
Definition mapping_of (gp p : string) (ch : Channel) : go_map string :=
  if bool_decide (p ∈ matchingPlatforms gp) then default [] (map_get p (ch_ModelMapping ch)) else [].
Definition scan_mapping (gp platform k : string) (ch : Channel) : string :=
  match first_some (λ p, scan_map_exact k (mapping_of gp p ch)) (matchingPlatforms platform) with
  | Some t => t
  | None =>
      default "" (first_some (λ p, let t := default "" (scan_map_wildcard k (mapping_of gp p ch)) in
                                   if String.eqb t "" then None else Some t)
                    (matchingPlatforms platform))
  end.

Lemma find_app {A} (f : A → bool) l l' :
  List.find f (l ++ l') = match List.find f l with Some x => Some x | None => List.find f l' end.
Proof. induction l as [|x l IH]; simpl; [done|]. by destruct (f x). Qed.

Lemma first_some_ext {A B} (f f' : A → option B) l :
  (∀ x, x ∈ l → f x = f' x) → first_some f l = first_some f' l.
Proof.
  induction l as [|x l IH]; intros Hf; simpl; [done|].
  rewrite Hf by (by left). rewrite IH; [done|]. intros; apply Hf; by right.
Qed.

(** One row. *)
Lemma expand_models_pricing g r ms c p k :
  pricingByGroupModel (foldl (expand_model g r) c ms) !! (g, p, k) =
  if String.eqb (cp_Platform r) p && existsb (model_is k) ms then Some r
  else pricingByGroupModel c !! (g, p, k).
Proof.
  revert c. induction ms as [|m ms IH]; intros c; simpl; [by rewrite andb_false_r|].
  rewrite IH. unfold expand_model, model_is at 2.
  destruct (HasSuffix m "*"); simpl; [done|].
  rewrite lookup_insert.
  destruct (String.eqb_spec (cp_Platform r) p) as [<-|Hp]; simpl.
  - destruct (String.eqb_spec (normalizeChannelPricingModelName m) k) as [<-|Hk]; simpl.
    + rewrite decide_True by done. by destruct (existsb _ _).
    + rewrite decide_False by congruence. done.
  - by rewrite decide_False by congruence.
Qed.

Definition row_wildcards (p : string) (r : ChannelModelPricing) (ms : list string)
  : list (string * ChannelModelPricing) :=
  if String.eqb (cp_Platform r) p
  then map (λ m, (normalizeChannelPricingModelName (TrimSuffix m "*"), r))
         (List.filter (λ m, HasSuffix m "*") ms)
  else [].

Lemma expand_models_wildcard g r ms c p :
  default [] (wildcardByGroupPlatform (foldl (expand_model g r) c ms) !! (g, p)) =
  default [] (wildcardByGroupPlatform c !! (g, p)) ++ row_wildcards p r ms.
Proof.
  revert c. unfold row_wildcards. induction ms as [|m ms IH]; intros c; simpl.
  - destruct (String.eqb _ _); by rewrite app_nil_r.
  - rewrite IH. unfold expand_model. destruct (HasSuffix m "*"); simpl; [|done].
    rewrite lookup_insert.
    destruct (String.eqb_spec (cp_Platform r) p) as [Hp|Hp]; simpl.
    + rewrite decide_True by congruence. simpl. by rewrite Hp, <-app_assoc.
    + by rewrite decide_False by congruence.
Qed.

(** All rows of a channel. *)
Definition rows_wildcards (gp p : string) (rows : list ChannelModelPricing) :=
  flat_map (λ r, if isPlatformPricingMatch gp (cp_Platform r)
                 then row_wildcards p r (cp_Models r) else []) rows.

Definition expand_rows (g : Z) (gp : string) (c : channelCache) (rows : list ChannelModelPricing) :=
  foldl (λ c r, if negb (isPlatformPricingMatch gp (cp_Platform r)) then c
                else foldl (expand_model g r) c (cp_Models r)) c rows.

Lemma expand_rows_pricing g gp rows c p k :
  pricingByGroupModel (expand_rows g gp c rows) !! (g, p, k) =
  match scan_exact gp p k rows with
  | Some r => Some r
  | None => pricingByGroupModel c !! (g, p, k)
  end.
Proof.
  revert c. unfold scan_exact. induction rows as [|r rows IH]; intros c; [done|].
  cbn [rev]. rewrite find_app.
  match goal with |- context [expand_rows g gp c (r :: rows)] =>
    change (expand_rows g gp c (r :: rows)) with
      (expand_rows g gp (expand_rows g gp c [r]) rows) end.
  rewrite IH.
  destruct (List.find _ (rev rows)) as [r'|]; [done|]. unfold expand_rows, row_usable. simpl.
  destruct (isPlatformPricingMatch _ _); simpl; [|done].
  rewrite expand_models_pricing. by destruct (_ && _).
Qed.

Lemma expand_rows_wildcard g gp rows c p :
  default [] (wildcardByGroupPlatform (expand_rows g gp c rows) !! (g, p)) =
  default [] (wildcardByGroupPlatform c !! (g, p)) ++ rows_wildcards gp p rows.
Proof.
  revert c. unfold expand_rows. induction rows as [|r rows IH]; intros c; simpl.
  { by rewrite app_nil_r. }
  rewrite IH. destruct (isPlatformPricingMatch _ _); simpl; [|done].
  by rewrite expand_models_wildcard, <-app_assoc.
Qed.

Lemma find_rows_wildcards gp p k rows :
  snd <$> List.find (λ wc, HasPrefix k (fst wc)) (rows_wildcards gp p rows) =
  scan_wildcard gp p k rows.
Proof.
  unfold rows_wildcards, scan_wildcard. induction rows as [|r rows IH]; simpl; [done|].
  rewrite find_app, <-IH. unfold row_usable. destruct (isPlatformPricingMatch _ _); simpl; [|done].
  unfold row_wildcards. destruct (String.eqb _ _); simpl; [|done].
  induction (cp_Models r) as [|m ms IHm]; simpl; [done|].
  unfold model_covers at 1. destruct (HasSuffix m "*"); simpl; [|exact IHm].
  destruct (HasPrefix k _); simpl; [done|exact IHm].
Qed.

(** Expanding a mapping leaves the prices alone, and conversely. *)
Lemma expand_mappings_prices g p m c :
  pricingByGroupModel (foldl (expand_mapping g p) c m) = pricingByGroupModel c ∧
  wildcardByGroupPlatform (foldl (expand_mapping g p) c m) = wildcardByGroupPlatform c ∧
  channelByGroupID (foldl (expand_mapping g p) c m) = channelByGroupID c ∧
  groupPlatform (foldl (expand_mapping g p) c m) = groupPlatform c.
Proof.
  revert c. induction m as [|[src dst] m IH]; intros c; [done|].
  cbn [foldl]. destruct (IH (expand_mapping g p c (src, dst))) as (-> & -> & -> & ->).
  simpl. by destruct (HasSuffix _ _).
Qed.

Lemma expandMapping_prices ch g gp c :
  pricingByGroupModel (expandMappingToCache ch g gp c) = pricingByGroupModel c ∧
  wildcardByGroupPlatform (expandMappingToCache ch g gp c) = wildcardByGroupPlatform c ∧
  channelByGroupID (expandMappingToCache ch g gp c) = channelByGroupID c ∧
  groupPlatform (expandMappingToCache ch g gp c) = groupPlatform c.
Proof.
  unfold expandMappingToCache. revert c.
  induction (matchingPlatforms gp) as [|p ps IH]; intros c; [done|]. cbn [foldl].
  match goal with |- context [foldl _ ?c' ps] => destruct (IH c') as (-> & -> & -> & ->) end.
  destruct (map_get _ _); [|done]. apply expand_mappings_prices.
Qed.

Lemma expand_rows_other g gp rows c :
  mappingByGroupModel (expand_rows g gp c rows) = mappingByGroupModel c ∧
  wildcardMappingByGP (expand_rows g gp c rows) = wildcardMappingByGP c ∧
  channelByGroupID (expand_rows g gp c rows) = channelByGroupID c ∧
  groupPlatform (expand_rows g gp c rows) = groupPlatform c.
Proof.
  unfold expand_rows. revert c. induction rows as [|r rows IH]; intros c; [done|]. cbn [foldl].
  match goal with |- context [foldl _ ?c' rows] => destruct (IH c') as (-> & -> & -> & ->) end.
  destruct (negb _); [done|]. clear IH. revert c.
  induction (cp_Models r) as [|m ms IH]; intros c; [done|]. cbn [foldl].
  destruct (IH (expand_model g r c m)) as (-> & -> & -> & ->). unfold expand_model.
  by destruct (HasSuffix _ _).
Qed.

Lemma normalized_channel ch :
  IsActive (normalizeBillingModelSource ch) = IsActive ch ∧
  ch_ModelPricing (normalizeBillingModelSource ch) = ch_ModelPricing ch ∧
  ch_ModelMapping (normalizeBillingModelSource ch) = ch_ModelMapping ch ∧
  ch_ID (normalizeBillingModelSource ch) = ch_ID ch ∧
  ch_RestrictModels (normalizeBillingModelSource ch) = ch_RestrictModels ch.
Proof. unfold normalizeBillingModelSource. by destruct (String.eqb _ _). Qed.

(** The group part of a snapshot, after one group of one channel. *)
Lemma populate_group_view gps ch now g :
  let gp := default "" (gps !! g) in
  let c := populate_group gps ch (start_cache now gps) g in
  channelByGroupID c !! g = Some ch ∧
  groupPlatform c = gps ∧
  (∀ p k, pricingByGroupModel c !! (g, p, k) = scan_exact gp p k (ch_ModelPricing ch)) ∧
  (∀ p k, matchWildcard c g p k = scan_wildcard gp p k (ch_ModelPricing ch)).
Proof.
  intros gp c. subst c. unfold populate_group. fold gp.
  change (expandPricingToCache ch g gp ?c0) with (expand_rows g gp c0 (ch_ModelPricing ch)).
  match goal with |- context [expandMappingToCache ch g gp ?c] =>
    destruct (expandMapping_prices ch g gp c) as (Hp & Hw & -> & ->) end.
  match goal with |- context [expand_rows g gp ?c ?rs] =>
    destruct (expand_rows_other g gp rs c) as (_ & _ & -> & ->) end.
  repeat split.
  - simpl. by rewrite lookup_insert_eq.
  - intros p k. rewrite Hp, expand_rows_pricing. simpl. by destruct (scan_exact _ _ _ _).
  - intros p k. unfold matchWildcard. rewrite Hw, expand_rows_wildcard. simpl.
    apply find_rows_wildcards.
Qed.

(** A group that no channel lists. *)
Lemma not_in_any_channel (channels : list Channel) g :
  List.find (λ ch, bool_decide (g ∈ ch_GroupIDs ch)) channels = None →
  g ∉ flat_map ch_GroupIDs channels.
Proof.
  intros Hfind (ch & Hch & Hg)%list_elem_of_In%in_flat_map.
  eapply find_none in Hfind; [|exact Hch]. apply bool_decide_eq_false_1 in Hfind.
  apply Hfind. by apply list_elem_of_In.
Qed.

Lemma lookup_pricing_scan now channels gps g ch p m :
  NoDup (flat_map ch_GroupIDs channels) → ch ∈ channels → g ∈ ch_GroupIDs ch →
  lookupPricingAcrossPlatforms (populateChannelCache now channels gps) g p m =
  scan_pricing (default "" (gps !! g)) p (normalizeChannelPricingModelName m) (ch_ModelPricing ch).
Proof.
  intros Hnd Hch Hg.
  destruct (populate_one_channel now channels gps g ch Hnd Hch Hg) as [Hp Hw _ _ _ _].
  destruct (populate_group_view gps (normalizeBillingModelSource ch) now g)
    as (_ & _ & Hexact & Hwild).
  destruct (normalized_channel ch) as (_ & Hr & _). rewrite Hr in *.
  unfold lookupPricingAcrossPlatforms, scan_pricing.
  rewrite (first_some_ext _ (λ p, scan_exact (default "" (gps !! g)) p
             (normalizeChannelPricingModelName m) (ch_ModelPricing ch)))
    by (intros; by rewrite Hp, Hexact).
  destruct (first_some _ _); [done|]. apply first_some_ext. intros q _.
  rewrite <-Hwild. unfold matchWildcard. by rewrite Hw.
Qed.

Lemma lookup_channel now channels gps ctx g :
  NoDup (flat_map ch_GroupIDs channels) →
  lookupGroupChannel (populateChannelCache now channels gps) ctx g =
  match List.find (λ ch, bool_decide (g ∈ ch_GroupIDs ch)) channels with
  | Some ch =>
      if IsActive ch
      then Some {| lk_channel := normalizeBillingModelSource ch;
                   lk_platform := channelLookupPlatform ctx (default "" (gps !! g)) |}
      else None
  | None => None
  end.
Proof.
  intros Hnd. unfold lookupGroupChannel.
  destruct (List.find _ channels) as [ch|] eqn:Hfind.
  - apply find_some in Hfind as [Hch%list_elem_of_In Hg%bool_decide_eq_true_1].
    destruct (populate_one_channel now channels gps g ch Hnd Hch Hg) as [_ _ _ _ -> ->].
    destruct (populate_group_view gps (normalizeBillingModelSource ch) now g) as (-> & -> & _).
    by destruct (normalized_channel ch) as (-> & _).
  - apply not_in_any_channel in Hfind.
    by destruct (populate_no_channel now channels gps g Hfind) as [_ _ _ _ -> _].
Qed.

(** C38: the flattened cache is faithful to the configuration: for a group that
    belongs to a channel, the hash-map lookup used on every request returns
    exactly the row found by scanning the channel's own price rows (an exact
    name before a wildcard, the last exact row, the first covering pattern),
    and nothing when the channel is disabled or the group has none - whatever
    the other channels in the snapshot. *)
Theorem GetChannelModelPricing_scan now channels gps ctx g model :
  NoDup (flat_map ch_GroupIDs channels) →
  GetChannelModelPricing (populateChannelCache now channels gps) ctx g model =
  match List.find (λ ch, bool_decide (g ∈ ch_GroupIDs ch)) channels with
  | Some ch =>
      let gp := default "" (gps !! g) in
      if IsActive ch
      then scan_pricing gp (channelLookupPlatform ctx gp)
             (normalizeChannelPricingModelName (ToLower model)) (ch_ModelPricing ch)
      else None
  | None => None
  end.
Proof.
  intros Hnd. unfold GetChannelModelPricing. rewrite lookup_channel by done.
  destruct (List.find _ channels) as [ch|] eqn:Hfind; [|done].
  apply find_some in Hfind as [Hch%list_elem_of_In Hg%bool_decide_eq_true_1].
  simpl. destruct (IsActive ch); [|done]. simpl. by apply lookup_pricing_scan.
Qed.

(** *** Mappings *)

Lemma expand_mappings_exact g p m c q k :
  mappingByGroupModel (foldl (expand_mapping g p) c m) !! (g, q, k) =
  match (if String.eqb p q then scan_map_exact k m else None) with
  | Some t => Some t
  | None => mappingByGroupModel c !! (g, q, k)
  end.
Proof.
  revert c. unfold scan_map_exact. induction m as [|[src dst] m IH]; intros c; cbn [foldl].
  { by destruct (String.eqb p q). }
  rewrite IH. cbn [rev]. rewrite find_app. simpl.
  destruct (String.eqb_spec p q) as [Hpq|Hpq].
  - destruct (List.find _ (rev m)) as [kv|]; simpl; [done|].
    destruct (HasSuffix src "*"); simpl; [done|]. rewrite lookup_insert.
    destruct (String.eqb_spec (ToLower src) k) as [Hk|Hk]; simpl;
      [rewrite decide_True by congruence|rewrite decide_False by congruence]; done.
  - destruct (HasSuffix src "*"); simpl; [done|].
    by rewrite lookup_insert_ne by congruence.
Qed.

Definition map_wildcards (m : go_map string) : list (string * string) :=
  map (λ kv, (ToLower (TrimSuffix (fst kv) "*"), snd kv))
    (List.filter (λ kv, HasSuffix (fst kv) "*") m).

Lemma expand_mappings_wildcard g p m c q :
  default [] (wildcardMappingByGP (foldl (expand_mapping g p) c m) !! (g, q)) =
  default [] (wildcardMappingByGP c !! (g, q))
  ++ (if String.eqb p q then map_wildcards m else []).
Proof.
  revert c. unfold map_wildcards. induction m as [|[src dst] m IH]; intros c; cbn [foldl].
  { destruct (String.eqb p q); by rewrite app_nil_r. }
  rewrite IH. simpl. destruct (HasSuffix src "*"); simpl; [|done]. rewrite lookup_insert.
  destruct (String.eqb_spec p q) as [Hpq|Hpq]; simpl.
  - rewrite decide_True by congruence. simpl. by rewrite Hpq, <-app_assoc.
  - by rewrite decide_False by congruence.
Qed.

Lemma find_map_wildcards k m :
  snd <$> List.find (λ wc, HasPrefix k (fst wc)) (map_wildcards m) = scan_map_wildcard k m.
Proof.
  unfold map_wildcards, scan_map_wildcard. induction m as [|[src dst] m IH]; simpl; [done|].
  destruct (HasSuffix src "*"); simpl; [|done]. by destruct (HasPrefix k _).
Qed.

Lemma matchingPlatforms_NoDup gp : NoDup (matchingPlatforms gp).
Proof.
  unfold matchingPlatforms. destruct (String.eqb gp _); [|apply NoDup_singleton].
  apply (bool_decide_unpack (NoDup [PlatformAnthropic; PlatformGemini; PlatformOpenAI;
                                    PlatformAntigravity; PlatformGrok])).
  vm_compute. exact I.
Qed.

(** The mapping part of a snapshot, after a list of platforms. *)
Lemma expandMapping_view ch g ps c q :
  NoDup ps →
  let c' := foldl (λ c p, match map_get p (ch_ModelMapping ch) with
                          | None => c
                          | Some m => foldl (expand_mapping g p) c m
                          end) c ps in
  let m := if bool_decide (q ∈ ps) then default [] (map_get q (ch_ModelMapping ch)) else [] in
  (∀ k, mappingByGroupModel c' !! (g, q, k) =
        match scan_map_exact k m with
        | Some t => Some t
        | None => mappingByGroupModel c !! (g, q, k)
        end) ∧
  default [] (wildcardMappingByGP c' !! (g, q)) =
  default [] (wildcardMappingByGP c !! (g, q)) ++ map_wildcards m.
Proof.
  intros Hnd. revert c. induction Hnd as [|p ps Hp Hnd IH]; intros c; cbn [foldl].
  { rewrite bool_decide_eq_false_2 by apply not_elem_of_nil. simpl. split; [done|].
    by rewrite app_nil_r. }
  match goal with |- context [foldl _ ?c1 ps] => specialize (IH c1) end.
  simpl in IH |- *. destruct IH as [IHe IHw]. setoid_rewrite IHe. rewrite IHw.
  destruct (decide (p = q)) as [->|Hpq].
  - rewrite (bool_decide_eq_false_2 (q ∈ ps)) by done.
    rewrite (bool_decide_eq_true_2 (q ∈ q :: ps)) by (by left).
    destruct (map_get q _) as [m|]; simpl; [|by rewrite app_nil_r].
    split; [intros k; rewrite expand_mappings_exact, String.eqb_refl; done|].
    by rewrite expand_mappings_wildcard, String.eqb_refl, app_nil_r.
  - rewrite (bool_decide_ext (q ∈ p :: ps) (q ∈ ps)) by (rewrite elem_of_cons; naive_solver).
    destruct (map_get p _) as [m|]; simpl; [|done].
    apply String.eqb_neq in Hpq.
    split; [intros k; rewrite expand_mappings_exact, Hpq; done|].
    by rewrite expand_mappings_wildcard, Hpq, app_nil_r.
Qed.

Lemma mapping_of_channel now channels gps g ch p m :
  NoDup (flat_map ch_GroupIDs channels) → ch ∈ channels → g ∈ ch_GroupIDs ch →
  lookupMappingAcrossPlatforms (populateChannelCache now channels gps) g p m =
  scan_mapping (default "" (gps !! g)) p m ch.
Proof.
  intros Hnd Hch Hg. set (gp := default "" (gps !! g)).
  destruct (populate_one_channel now channels gps g ch Hnd Hch Hg) as [_ _ Hm Hwm _ _].
  assert (∀ q, (∀ k, mappingByGroupModel (populateChannelCache now channels gps) !! (g, q, k)
                     = scan_map_exact k (mapping_of gp q ch)) ∧
               default [] (wildcardMappingByGP (populateChannelCache now channels gps) !! (g, q))
               = map_wildcards (mapping_of gp q ch)) as Hview.
  { intros q. setoid_rewrite Hm. rewrite Hwm. unfold populate_group. fold gp.
    change (expandPricingToCache ?ch g gp ?c0) with (expand_rows g gp c0 (ch_ModelPricing ch)).
    match goal with |- context [expandMappingToCache ?ch g gp ?c0] =>
      destruct (expandMapping_view ch g (matchingPlatforms gp) c0 q (matchingPlatforms_NoDup gp))
        as [He Hw] end.
    destruct (normalized_channel ch) as (_ & _ & Hmap & _). rewrite Hmap in *.
    unfold expandMappingToCache. rewrite Hmap. setoid_rewrite He. rewrite Hw.
    match goal with |- context [expand_rows g gp ?c0 ?rs] =>
      destruct (expand_rows_other g gp rs c0) as (-> & -> & _) end.
    simpl. unfold mapping_of. split; [|done].
    intros k. by destruct (scan_map_exact _ _). }
  unfold lookupMappingAcrossPlatforms, scan_mapping.
  rewrite (first_some_ext _ (λ p, scan_map_exact m (mapping_of gp p ch)))
    by (intros; apply Hview).
  destruct (first_some _ (matchingPlatforms p)); [done|]. f_equal. apply first_some_ext. intros q _.
  unfold matchWildcardMapping. destruct (Hview q) as [_ ->]. by rewrite find_map_wildcards.
Qed.

(** *** Validated configurations *)

(** A model name that the lookup key leaves as [strings.ToLower] does: no
    surrounding white space and, for Anthropic names, no dot. *)
Definition plain_name (m : string) : bool :=
  is_ascii m && String.eqb (normalizeChannelPricingModelName m) (ToLower m).
Definition plain_pattern (m : string) : bool :=
  plain_name (if HasSuffix m "*" then TrimSuffix m "*" else m) && is_ascii m.

Lemma toModelEntry_exact m :
  is_ascii m = true → HasSuffix m "*" = false →
  toModelEntry m = {| me_pattern := m; me_prefix := ToLower m; me_wildcard := false |}.
Proof.
  intros Ha Hs. unfold toModelEntry, splitWildcardSuffix. by rewrite HasSuffix_star_lower, Hs.
Qed.

Lemma toModelEntry_wildcard m :
  is_ascii m = true → HasSuffix m "*" = true →
  toModelEntry m = {| me_pattern := m; me_prefix := ToLower (TrimSuffix m "*");
                      me_wildcard := true |}.
Proof.
  intros Ha Hs. unfold toModelEntry, splitWildcardSuffix.
  by rewrite HasSuffix_star_lower, Hs, TrimSuffix_star_lower.
Qed.

(** For plain patterns the keys of the cache and the conflict check agree on
    what a pattern matches. *)
Lemma pattern_matches k m :
  plain_pattern m = true →
  entry_matches (toModelEntry m) k = model_is k m || model_covers k m.
Proof.
  unfold plain_pattern, plain_name, model_is, model_covers.
  destruct (HasSuffix m "*") eqn:Hs; intros [[Ha' Hn%String.eqb_eq]%andb_true_iff Ha]%andb_true_iff;
    simpl; rewrite ?Hn.
  - by rewrite toModelEntry_wildcard by done.
  - rewrite toModelEntry_exact by done. unfold entry_matches. simpl.
    by rewrite orb_false_r, String.eqb_sym.
Qed.

(** Among validated rows, the row that matches a name is unique. *)
Lemma entries_unique platform rows r r' m m' name :
  pairwise entries_apart (entries_of_platform rows platform) →
  r ∈ rows → r' ∈ rows → cp_Platform r = platform → cp_Platform r' = platform →
  m ∈ cp_Models r → m' ∈ cp_Models r' →
  entry_matches (toModelEntry m) name = true → entry_matches (toModelEntry m') name = true →
  r = r'.
Proof.
  unfold entries_of_platform. induction rows as [|r0 rows IH]; simpl; [by intros _ ?%not_elem_of_nil|].
  intros Hpw Hr Hr' Hp Hp' Hm Hm' Hmatch Hmatch'.
  assert (∀ l1 l2, pairwise entries_apart (l1 ++ l2) →
            pairwise entries_apart l2 ∧ ∀ a b, a ∈ l1 → b ∈ l2 → entries_apart a b) as Happ.
  { intros l1 l2. induction l1 as [|a l1 IH1]; simpl.
    - intros ?. split; [done|]. by intros ? ? ?%not_elem_of_nil.
    - intros [Ha Hl]. destruct (IH1 Hl) as [H1 H2]. split; [done|].
      rewrite Forall_forall in Ha. intros x y Hx Hy.
      apply elem_of_cons in Hx as [->|Hx]; [apply Ha, elem_of_app; by right|auto]. }
  apply Happ in Hpw as [Hrest Hcross].
  assert (∀ q mq, q ∈ rows → cp_Platform q = platform → mq ∈ cp_Models q →
            toModelEntry mq ∈ flat_map (λ p, if String.eqb (cp_Platform p) platform
                                             then map toModelEntry (cp_Models p) else []) rows)
    as Hin.
  { intros q mq Hq Hpq Hmq. apply list_elem_of_In, in_flat_map. exists q.
    split; [by apply list_elem_of_In|]. rewrite Hpq, String.eqb_refl.
    apply in_map. by apply list_elem_of_In. }
  apply elem_of_cons in Hr as [->|Hr], Hr' as [->|Hr']; try done.
  - exfalso. eapply (Hcross (toModelEntry m) (toModelEntry m')); [| |exact Hmatch|exact Hmatch'].
    + rewrite Hp, String.eqb_refl. apply list_elem_of_In, in_map. by apply list_elem_of_In.
    + eauto.
  - exfalso. eapply (Hcross (toModelEntry m') (toModelEntry m)); [| |exact Hmatch'|exact Hmatch].
    + rewrite Hp', String.eqb_refl. apply list_elem_of_In, in_map. by apply list_elem_of_In.
    + eauto.
  - by apply IH.
Qed.

Lemma scan_exact_sound gp p k rows r :
  scan_exact gp p k rows = Some r →
  r ∈ rows ∧ cp_Platform r = p ∧ ∃ m, m ∈ cp_Models r ∧ model_is k m = true.
Proof.
  intros [Hin%in_rev%list_elem_of_In [Hu Hm]%andb_true_iff]%find_some.
  apply andb_true_iff in Hu as [_ Hp%String.eqb_eq].
  apply existsb_exists in Hm as (m & Hm & ?). apply list_elem_of_In in Hm. eauto.
Qed.

Lemma scan_wildcard_sound gp p k rows r :
  scan_wildcard gp p k rows = Some r →
  r ∈ rows ∧ cp_Platform r = p ∧ ∃ m, m ∈ cp_Models r ∧ model_covers k m = true.
Proof.
  intros [Hin%list_elem_of_In [Hu Hm]%andb_true_iff]%find_some.
  apply andb_true_iff in Hu as [_ Hp%String.eqb_eq].
  apply existsb_exists in Hm as (m & Hm & ?). apply list_elem_of_In in Hm. eauto.
Qed.

Lemma find_is_Some {A} (f : A → bool) l x : x ∈ l → f x = true → is_Some (List.find f l).
Proof.
  intros Hx Hf. destruct (List.find f l) eqn:E; [eauto|].
  apply find_None_iff in E. rewrite Forall_forall in E. rewrite E in Hf by done. done.
Qed.

Lemma scan_pricing_unique gp platform k rows r m :
  pairwise entries_apart (entries_of_platform rows platform) →
  Forall (λ r, forallb plain_pattern (cp_Models r) = true) rows →
  String.eqb platform PlatformComposite = false →
  r ∈ rows → row_usable gp platform r = true → m ∈ cp_Models r →
  entry_matches (toModelEntry m) k = true →
  scan_pricing gp platform k rows = Some r.
Proof.
  intros Hpw Hplain Hcomp Hr Hu Hm Hk.
  assert (cp_Platform r = platform) as Hp by (by apply andb_true_iff in Hu as [_ ?%String.eqb_eq]).
  rewrite Forall_forall in Hplain.
  assert (∀ r' m', r' ∈ rows → m' ∈ cp_Models r' → plain_pattern m' = true) as Hpl.
  { intros r' m' Hr' Hm'. specialize (Hplain r' Hr'). rewrite forallb_forall in Hplain.
    by apply Hplain, list_elem_of_In. }
  assert (∀ r', (r' ∈ rows ∧ cp_Platform r' = platform ∧
                 ∃ m', m' ∈ cp_Models r' ∧ model_is k m' || model_covers k m' = true) → r' = r)
    as Huniq.
  { intros r' (Hr' & Hp' & m' & Hm' & Hk'). rewrite <-pattern_matches in Hk' by eauto.
    by eapply entries_unique. }
  unfold scan_pricing, matchingPlatforms. rewrite Hcomp. simpl.
  destruct (scan_exact gp platform k rows) as [r'|] eqn:E1.
  { f_equal. apply Huniq. apply scan_exact_sound in E1 as (? & ? & m' & ? & Hm').
    repeat split; try done. exists m'. by rewrite Hm'. }
  destruct (scan_wildcard gp platform k rows) as [r'|] eqn:E2.
  { f_equal. apply Huniq. apply scan_wildcard_sound in E2 as (? & ? & m' & ? & Hm').
    repeat split; try done. exists m'. by rewrite Hm', orb_true_r. }
  exfalso. rewrite pattern_matches in Hk by eauto. apply orb_true_iff in Hk as [Hk|Hk].
  - destruct (find_is_Some (λ r, row_usable gp platform r && existsb (model_is k) (cp_Models r))
                (rev rows) r) as [? Hf]; [by apply list_elem_of_In, in_rev; rewrite rev_involutive; apply list_elem_of_In| |].
    + rewrite Hu. apply existsb_exists. exists m. split; [by apply list_elem_of_In|done].
    + unfold scan_exact in E1. congruence.
  - destruct (find_is_Some (λ r, row_usable gp platform r && existsb (model_covers k) (cp_Models r))
                rows r) as [? Hf]; [done| |].
    + rewrite Hu. apply existsb_exists. exists m. split; [by apply list_elem_of_In|done].
    + unfold scan_wildcard in E2. congruence.
Qed.

(** Go visits the platforms that have a model, in some order. *)
Definition visits (platforms : list string) (rows : list ChannelModelPricing) : Prop :=
  ∀ r, r ∈ rows → cp_Models r ≠ [] → cp_Platform r ∈ platforms.

Lemma validated_rows_apart platforms rows mapping platform :
  validateChannelConfig platforms rows mapping = Ok () → platform ∈ platforms →
  pairwise entries_apart (entries_of_platform rows platform).
Proof.
  unfold validateChannelConfig, validatePricingEntries.
  intros ([] & ([] & Hm & _)%rbind_ok & _)%rbind_ok Hin.
  unfold validateNoConflictingModels in Hm. rewrite for_err_ok, Forall_forall in Hm.
  by eapply detectConflicts_ok, Hm.
Qed.

Lemma validated_mapping_apart platforms rows mapping p m :
  validateChannelConfig platforms rows mapping = Ok () → map_get p mapping = Some m →
  pairwise entries_apart (map (λ kv, toModelEntry (fst kv)) m).
Proof.
  unfold validateChannelConfig. intros ([] & _ & Hm)%rbind_ok Hget.
  unfold validateNoConflictingMappings in Hm. rewrite for_err_ok in Hm.
  induction Hm as [|[q m'] mapping Hx Hm IH]; [done|]. simpl in Hget.
  destruct (String.eqb p q); [|auto]. simplify_eq. by eapply detectConflicts_ok.
Qed.

(** A group belongs to one channel. *)
Lemma find_channel channels g ch :
  NoDup (flat_map ch_GroupIDs channels) → ch ∈ channels → g ∈ ch_GroupIDs ch →
  List.find (λ ch, bool_decide (g ∈ ch_GroupIDs ch)) channels = Some ch.
Proof.
  intros Hnd Hch Hg. induction channels as [|c cs IH]; [by apply not_elem_of_nil in Hch|].
  simpl in *. apply NoDup_app in Hnd as (_ & Hdisj & Hnd).
  apply elem_of_cons in Hch as [->|Hch]; [by rewrite bool_decide_eq_true_2|].
  rewrite bool_decide_eq_false_2; [auto|]. intros Hg'. eapply Hdisj; [done|].
  apply list_elem_of_In, in_flat_map. exists ch. split; by apply list_elem_of_In.
Qed.

(** C31: for model names that the cache key spells as the conflict check does,
    the price an administrator configures is the price that is charged.  When an
    active channel passed validation, every pattern of its rows is plain (ASCII,
    without surrounding white space and, for Claude's names, without a dot: the
    cache key is its lower-case form), the requested name is plain too, the
    request's platform is not composite, no group is in two channels, and the
    validation visited the platforms that have rows, then a request whose name
    matches a pattern of some row of its platform is priced by that very row: no
    other row, exact or wildcard, takes its place.  Without plain patterns it does
    not hold, [dot_spelling_escapes_conflict_check] is a validated configuration
    in which another row takes the place. *)
Theorem configured_price_is_charged now channels gps ctx g ch platforms r m model :
  let gp := default "" (gps !! g) in
  let platform := channelLookupPlatform ctx gp in
  NoDup (flat_map ch_GroupIDs channels) →
  ch ∈ channels → g ∈ ch_GroupIDs ch → IsActive ch = true →
  visits platforms (ch_ModelPricing ch) →
  validateChannelConfig platforms (ch_ModelPricing ch) (ch_ModelMapping ch) = Ok () →
  Forall (λ r, forallb plain_pattern (cp_Models r) = true) (ch_ModelPricing ch) →
  String.eqb platform PlatformComposite = false →
  is_ascii model = true → plain_name (ToLower model) = true →
  r ∈ ch_ModelPricing ch → row_usable gp platform r = true → m ∈ cp_Models r →
  entry_matches (toModelEntry m) (ToLower model) = true →
  GetChannelModelPricing (populateChannelCache now channels gps) ctx g model = Some r.
Proof.
  intros gp platform Hnd Hch Hg Hact Hvis Hval Hplain Hcomp Hmodel Hname Hr Hu Hm Hmatch.
  rewrite GetChannelModelPricing_scan by done.
  rewrite (find_channel channels g ch) by done. cbv zeta. rewrite Hact. fold gp. fold platform.
  unfold plain_name in Hname. apply andb_true_iff in Hname as [_ Hname%String.eqb_eq].
  rewrite Hname, ToLower_idem by done.
  eapply scan_pricing_unique; try done.
  eapply validated_rows_apart; [done|].
  apply andb_true_iff in Hu as [_ <-%String.eqb_eq]. apply Hvis; [done|].
  intros Hnil. rewrite Hnil in Hm. by apply not_elem_of_nil in Hm.
Qed.

(** *** The iteration order of Go maps *)

(** The same channel, its mappings listed in another order. *)
Definition same_channel (ch ch' : Channel) : Prop :=
  ch_ID ch = ch_ID ch' ∧ ch_Status ch = ch_Status ch' ∧
  ch_BillingModelSource ch = ch_BillingModelSource ch' ∧ ch_GroupIDs ch = ch_GroupIDs ch' ∧
  ∀ p, match map_get p (ch_ModelMapping ch), map_get p (ch_ModelMapping ch') with
       | Some m, Some m' => Permutation m m'
       | None, None => True
       | _, _ => False
       end.

Definition ascii_sources (ch : Channel) : Prop :=
  ∀ p m, map_get p (ch_ModelMapping ch) = Some m → forallb (λ kv, is_ascii (fst kv)) m = true.

Lemma pairwise_map {A B} (f : A → B) (R : B → B → Prop) l :
  pairwise R (map f l) ↔ pairwise (λ x y, R (f x) (f y)) l.
Proof. induction l as [|x l IH]; simpl; [done|]. by rewrite IH, Forall_map. Qed.

(** What the two lookups of a mapping test implies that the pattern matches. *)
Lemma map_exact_matches k (kv : string * string) :
  is_ascii (fst kv) = true →
  negb (HasSuffix (fst kv) "*") && String.eqb (ToLower (fst kv)) k = true →
  entry_matches (toModelEntry (fst kv)) k = true.
Proof.
  intros Ha [Hs%negb_true_iff <-%String.eqb_eq]%andb_true_iff.
  rewrite toModelEntry_exact by done. apply String.eqb_refl.
Qed.
Lemma map_wildcard_matches k (kv : string * string) :
  is_ascii (fst kv) = true →
  HasSuffix (fst kv) "*" && HasPrefix k (ToLower (TrimSuffix (fst kv) "*")) = true →
  entry_matches (toModelEntry (fst kv)) k = true.
Proof. intros Ha [Hs Hp]%andb_true_iff. by rewrite toModelEntry_wildcard. Qed.

Lemma scan_map_perm k m m' :
  pairwise entries_apart (map (λ kv, toModelEntry (fst kv)) m) →
  forallb (λ kv, is_ascii (fst kv)) m = true → Permutation m m' →
  scan_map_exact k m = scan_map_exact k m' ∧ scan_map_wildcard k m = scan_map_wildcard k m'.
Proof.
  rewrite pairwise_map. intros Hpw Ha Hperm.
  assert (Forall (λ kv, is_ascii (fst kv) = true) m) as Hasc.
  { apply Forall_forall. intros kv Hkv. rewrite forallb_forall in Ha.
    by apply Ha, list_elem_of_In. }
  unfold scan_map_exact, scan_map_wildcard. split; f_equal; apply find_perm.
  - by rewrite <-!Permutation_rev.
  - eapply (pairwise_perm _ m); [naive_solver|apply Permutation_rev|].
    eapply pairwise_impl_Forall; [exact Hasc| |exact Hpw].
    intros x y Hx Hy Hap H1 H2. eapply Hap; eapply map_exact_matches; eauto.
  - done.
  - eapply pairwise_impl_Forall; [exact Hasc| |exact Hpw].
    intros x y Hx Hy Hap H1 H2. eapply Hap; eapply map_wildcard_matches; eauto.
Qed.

Lemma scan_mapping_same platforms rows gp platform k ch ch' :
  validateChannelConfig platforms rows (ch_ModelMapping ch) = Ok () →
  ascii_sources ch → same_channel ch ch' →
  scan_mapping gp platform k ch = scan_mapping gp platform k ch'.
Proof.
  intros Hval Hasc (_ & _ & _ & _ & Hmaps). unfold scan_mapping.
  assert (∀ p, scan_map_exact k (mapping_of gp p ch) = scan_map_exact k (mapping_of gp p ch') ∧
               scan_map_wildcard k (mapping_of gp p ch) = scan_map_wildcard k (mapping_of gp p ch'))
    as Heq.
  { intros p. unfold mapping_of. destruct (bool_decide _); [|done]. specialize (Hmaps p).
    destruct (map_get p (ch_ModelMapping ch)) as [m|] eqn:E1,
      (map_get p (ch_ModelMapping ch')) as [m'|]; try done.
    simpl. apply scan_map_perm; [by eapply validated_mapping_apart|by eapply Hasc|done]. }
  rewrite (first_some_ext _ (λ p, scan_map_exact k (mapping_of gp p ch')))
    by (intros; apply Heq).
  destruct (first_some _ _); [done|]. f_equal. apply first_some_ext. intros p _.
  by destruct (Heq p) as [_ ->].
Qed.

Lemma ResolveChannelMapping_scan now channels gps ctx g model :
  NoDup (flat_map ch_GroupIDs channels) →
  ResolveChannelMapping (populateChannelCache now channels gps) ctx g model =
  match List.find (λ ch, bool_decide (g ∈ ch_GroupIDs ch)) channels with
  | Some ch =>
      if IsActive ch then
        let gp := default "" (gps !! g) in
        let t := scan_mapping gp (channelLookupPlatform ctx gp) (ToLower model) ch in
        {| mr_MappedModel := if String.eqb t "" then model else t;
           mr_ChannelID := ch_ID ch;
           mr_Mapped := negb (String.eqb t "");
           mr_BillingModelSource :=
             ch_BillingModelSource (normalizeBillingModelSource ch) |}
      else unmapped model
  | None => unmapped model
  end.
Proof.
  intros Hnd. unfold ResolveChannelMapping. rewrite lookup_channel by done.
  destruct (List.find _ channels) as [ch|] eqn:Hfind; [|done].
  apply find_some in Hfind as [Hch%list_elem_of_In Hg%bool_decide_eq_true_1].
  destruct (IsActive ch); [|done]. unfold resolveMapping. simpl.
  rewrite (mapping_of_channel _ _ _ _ ch) by done.
  by destruct (normalized_channel ch) as (_ & _ & _ & -> & _).
Qed.

(** Model mapping is deterministic.  The wildcard mappings are stored in the
    order in which Go happens to iterate over the configured map, and the first
    that matches wins; but for validated channels the mapped model, the channel
    and the billing source do not depend on that order. *)
Theorem mapping_order_irrelevant now channels channels' gps ctx g model :
  Forall2 same_channel channels channels' →
  NoDup (flat_map ch_GroupIDs channels) →
  Forall (λ ch, ascii_sources ch ∧
            ∃ platforms, validateChannelConfig platforms (ch_ModelPricing ch)
                           (ch_ModelMapping ch) = Ok ()) channels →
  ResolveChannelMapping (populateChannelCache now channels gps) ctx g model =
  ResolveChannelMapping (populateChannelCache now channels' gps) ctx g model.
Proof.
  intros Hsame Hnd Hval.
  assert (flat_map ch_GroupIDs channels = flat_map ch_GroupIDs channels') as Hids.
  { clear -Hsame. induction Hsame as [|ch ch' l l' (_ & _ & _ & H & _) _ IH]; simpl; congruence. }
  rewrite !ResolveChannelMapping_scan by congruence. clear Hids Hnd.
  induction Hsame as [|ch ch' l l' Hch _ IH]; simpl; [done|].
  apply Forall_cons in Hval as [[Hasc [platforms Hv]] Hval].
  pose proof Hch as (Hid & Hst & Hsrc & Hg & _). rewrite <-Hg.
  destruct (bool_decide _); [|by apply IH].
  unfold IsActive. rewrite <-Hst. destruct (String.eqb (ch_Status ch) _); [|done].
  cbv zeta. rewrite (scan_mapping_same _ _ _ _ _ ch ch' Hv Hasc Hch), <-Hid.
  unfold normalizeBillingModelSource. rewrite <-Hsrc.
  destruct (String.eqb (ch_BillingModelSource ch) ""); simpl; by rewrite ?Hsrc.
Qed.

(** *** The error window *)

Lemma errorCache_empty now ctx g model :
  GetChannelModelPricing (errorCache now) ctx g model = None ∧
  ResolveChannelMapping (errorCache now) ctx g model = unmapped model ∧
  IsModelRestricted (errorCache now) ctx g model = false.
Proof. done. Qed.

(** after a database error the service answers from an empty snapshot for
    exactly [channelErrorTTL] (5 s): until then no request is priced, mapped
    or restricted by a channel and the database is not asked again; from then
    on the next request reloads. *)
Theorem db_error_window {E} now now' (repo repo' : ChannelRepo E) e stored ctx g model :
  fetchChannelData repo = Err e →
  match stored with Some c => cache_fresh now c = false | None => True end →
  now ≤ now' → now' - now < Hour →
  let stored' := fst (loadCache now repo stored) in
  snd (loadCache now repo stored) = Err e ∧
  if now' <? now + channelErrorTTL then
    loadCache now' repo' stored' = (stored', Ok (errorCache now)) ∧
    GetChannelModelPricing (errorCache now) ctx g model = None ∧
    ResolveChannelMapping (errorCache now) ctx g model = unmapped model ∧
    IsModelRestricted (errorCache now) ctx g model = false
  else
    loadCache now' repo' stored' = (Some (fst (buildCache now' repo')), snd (buildCache now' repo')).
Proof.
  intros Hfetch Hstale Hle Hlt.
  assert (loadCache now repo stored = (Some (errorCache now), Err e)) as ->.
  { unfold loadCache, buildCache. rewrite Hfetch. destruct stored as [c|]; [|done].
    by rewrite Hstale. }
  simpl. split; [done|].
  assert (cache_fresh now' (errorCache now) = (now' <? now + channelErrorTTL)) as ->.
  { unfold cache_fresh. simpl. unfold time_Add, channelErrorTTL, channelCacheTTL, Hour, Minute, Second in *.
    rewrite time_Sub_exact by (unfold in_int64, min_int64, max_int64; lia).
    apply eq_true_iff_eq. rewrite !Z.ltb_lt. lia. }
  destruct (now' <? _); [done|]. by destruct (buildCache now' repo').
Qed.

End CacheFacts.

(** ** A concrete configuration *)

#[local] Existing Instance ascii_text.

(** A row with one input price. *)
Definition sample_row (platform : string) (models : list string) (input : f64)
  : ChannelModelPricing :=
  {| cp_Platform := platform; cp_Models := models; cp_BillingMode := BillingModeToken;
     cp_InputPrice := Some input; cp_OutputPrice := None; cp_CacheWritePrice := None;
     cp_CacheReadPrice := None; cp_ImageInputPrice := None; cp_ImageOutputPrice := None;
     cp_PerRequestPrice := None; cp_Intervals := [] |}.

Definition sample_channel (rows : list ChannelModelPricing) (mapping : go_map string) : Channel :=
  {| ch_ID := 7; ch_Name := "main"; ch_Status := StatusActive; ch_BillingModelSource := "";
     ch_RestrictModels := true; ch_GroupIDs := [1; 2]; ch_ModelPricing := rows;
     ch_ModelMapping := [(PlatformOpenAI, mapping)] |}.

Definition sample_rows : list ChannelModelPricing :=
  [sample_row PlatformOpenAI ["gpt-5*"] f1; sample_row PlatformOpenAI ["o3"; "O4-mini"] (f_of_int 2)].

Lemma GetChannelModelPricing_scan_witness :
  GetChannelModelPricing
    (populateChannelCache 0 [sample_channel sample_rows []] {[1 := PlatformOpenAI]}) None 1 "O3"
  = Some (sample_row PlatformOpenAI ["o3"; "O4-mini"] (f_of_int 2)).
Proof.
  rewrite (GetChannelModelPricing_scan 0 [sample_channel sample_rows []]
             {[1 := PlatformOpenAI]} None 1 "O3"); [reflexivity|].
  apply (bool_decide_unpack (NoDup [1; 2])). vm_compute. exact I.
Defined.

Lemma configured_price_is_charged_witness :
  GetChannelModelPricing
    (populateChannelCache 0 [sample_channel sample_rows []] {[1 := PlatformOpenAI]}) None 1
    "GPT-5.4"
  = Some (sample_row PlatformOpenAI ["gpt-5*"] f1).
Proof.
  apply (configured_price_is_charged 0 [sample_channel sample_rows []] {[1 := PlatformOpenAI]}
           None 1 (sample_channel sample_rows []) [PlatformOpenAI]
           (sample_row PlatformOpenAI ["gpt-5*"] f1) "gpt-5*" "GPT-5.4").
  - apply (bool_decide_unpack (NoDup [1; 2])). vm_compute. exact I.
  - left.
  - left.
  - reflexivity.
  - intros r Hr _. apply elem_of_cons in Hr as [->|Hr]; [left|].
    apply list_elem_of_singleton in Hr as ->. left.
  - vm_compute. reflexivity.
  - repeat constructor.
  - reflexivity.
  - reflexivity.
  - reflexivity.
  - left.
  - reflexivity.
  - left.
  - reflexivity.
Defined.

Lemma mapping_order_irrelevant_witness :
  let m := [("gpt-4*", "gpt-5.4"); ("o3", "gpt-5.5"); ("claude-*", "gpt-5.2")] in
  ResolveChannelMapping
    (populateChannelCache 0 [sample_channel [] m] {[1 := PlatformOpenAI]}) None 1 "gpt-4o"
  = ResolveChannelMapping
      (populateChannelCache 0 [sample_channel [] (reverse m)] {[1 := PlatformOpenAI]})
      None 1 "gpt-4o".
Proof.
  intros m. apply mapping_order_irrelevant.
  - constructor; [|constructor]. repeat split. intros p.
    simpl. destruct (String.eqb p PlatformOpenAI); [|done]. by rewrite reverse_Permutation.
  - apply (bool_decide_unpack (NoDup [1; 2])). vm_compute. exact I.
  - constructor; [|constructor]. split.
    + intros p m' Hm. simpl in Hm. destruct (String.eqb p PlatformOpenAI); [|done].
      injection Hm as <-. reflexivity.
    + exists []. vm_compute. reflexivity.
Defined.

Lemma db_error_window_witness :
  let repo := {| repo_ListAll := Err "down"; repo_GetGroupPlatforms := λ _, Err "down" |} in
  loadCache (5 * Hour + 2 * Second) repo (Some (errorCache (5 * Hour))) =
  (Some (errorCache (5 * Hour)), Ok (errorCache (5 * Hour))).
Proof.
  intros repo.
  destruct (db_error_window (5 * Hour) (5 * Hour + 2 * Second) repo repo "down" None None 1 "m")
    as (_ & Hload & _).
  - reflexivity.
  - exact I.
  - vm_compute. discriminate.
  - vm_compute. reflexivity.
  - exact Hload.
Defined.

(** The conflict check compares lower-case names, the cache key also turns the
    dots of Anthropic names into hyphens: two rows for the two spellings of one
    model pass validation, and the second silently replaces the first. *)
Definition colliding_rows : list ChannelModelPricing :=
  [sample_row PlatformAnthropic ["claude-opus-4.5"] f1;
   sample_row PlatformAnthropic ["claude-opus-4-5"] (f_of_int 2)].

Lemma dot_spelling_escapes_conflict_check :
  validateChannelConfig [PlatformAnthropic] colliding_rows [] = Ok () ∧
  GetChannelModelPricing
    (populateChannelCache 0 [sample_channel colliding_rows []] {[1 := PlatformAnthropic]})
    None 1 "claude-opus-4.5"
  = Some (sample_row PlatformAnthropic ["claude-opus-4-5"] (f_of_int 2)).
Proof. split; vm_compute; reflexivity. Qed.
