(* ===== verification/Resolver.v ===== *)
(** * Resolving the price of a request

    [src/backend/internal/service/model_pricing_resolver.go] and
    [GetModelPricingWithChannel] of [billing_service.go]: the base price of a
    model (dynamic list or fallback table) is overridden by the price row of
    the request's channel, flat or by context-size intervals. *)

From Stdlib Require Import ZArith Lia Ascii String Bool.
From stdpp Require Import base numbers option list gmap strings.
From S2P Require Import Prelude GoStrings GoFloat ModelAlias Pricing Channel.

#[local] Open Scope Z_scope.

Definition PricingSourceChannel : string := "channel".
Definition PricingSourceLiteLLM : string := "litellm".
Definition PricingSourceFallback : string := "fallback".

(** ** The assignments to a [ModelPricing] *)

Section Setters.
Variable p : ModelPricing.

Definition set_input (x : f64) : ModelPricing :=
  {| InputPricePerToken := x; InputPricePerTokenPriority := x;
     ImageInputPricePerToken := ImageInputPricePerToken p;
     OutputPricePerToken := OutputPricePerToken p;
     OutputPricePerTokenPriority := OutputPricePerTokenPriority p;
     CacheCreationPricePerToken := CacheCreationPricePerToken p;
     CacheCreationPricePerTokenPriority := CacheCreationPricePerTokenPriority p;
     CacheCreationPriceExplicit := CacheCreationPriceExplicit p;
     CacheReadPricePerToken := CacheReadPricePerToken p;
     CacheReadPricePerTokenPriority := CacheReadPricePerTokenPriority p;
     CacheCreation5mPrice := CacheCreation5mPrice p;
     CacheCreation1hPrice := CacheCreation1hPrice p;
     SupportsCacheBreakdown := SupportsCacheBreakdown p;
     LongContextInputThreshold := LongContextInputThreshold p;
     LongContextInputMultiplier := LongContextInputMultiplier p;
     LongContextOutputMultiplier := LongContextOutputMultiplier p;
     ImageOutputPricePerToken := ImageOutputPricePerToken p;
     ImageOutputPriceExplicit := ImageOutputPriceExplicit p |}.

Definition set_output (x : f64) : ModelPricing :=
  {| InputPricePerToken := InputPricePerToken p;
     InputPricePerTokenPriority := InputPricePerTokenPriority p;
     ImageInputPricePerToken := ImageInputPricePerToken p;
     OutputPricePerToken := x; OutputPricePerTokenPriority := x;
     CacheCreationPricePerToken := CacheCreationPricePerToken p;
     CacheCreationPricePerTokenPriority := CacheCreationPricePerTokenPriority p;
     CacheCreationPriceExplicit := CacheCreationPriceExplicit p;
     CacheReadPricePerToken := CacheReadPricePerToken p;
     CacheReadPricePerTokenPriority := CacheReadPricePerTokenPriority p;
     CacheCreation5mPrice := CacheCreation5mPrice p;
     CacheCreation1hPrice := CacheCreation1hPrice p;
     SupportsCacheBreakdown := SupportsCacheBreakdown p;
     LongContextInputThreshold := LongContextInputThreshold p;
     LongContextInputMultiplier := LongContextInputMultiplier p;
     LongContextOutputMultiplier := LongContextOutputMultiplier p;
     ImageOutputPricePerToken := ImageOutputPricePerToken p;
     ImageOutputPriceExplicit := ImageOutputPriceExplicit p |}.

Definition set_cache_write (x : f64) : ModelPricing :=
  {| InputPricePerToken := InputPricePerToken p;
     InputPricePerTokenPriority := InputPricePerTokenPriority p;
     ImageInputPricePerToken := ImageInputPricePerToken p;
     OutputPricePerToken := OutputPricePerToken p;
     OutputPricePerTokenPriority := OutputPricePerTokenPriority p;
     CacheCreationPricePerToken := x; CacheCreationPricePerTokenPriority := x;
     CacheCreationPriceExplicit := true;
     CacheReadPricePerToken := CacheReadPricePerToken p;
     CacheReadPricePerTokenPriority := CacheReadPricePerTokenPriority p;
     CacheCreation5mPrice := x; CacheCreation1hPrice := x;
     SupportsCacheBreakdown := SupportsCacheBreakdown p;
     LongContextInputThreshold := LongContextInputThreshold p;
     LongContextInputMultiplier := LongContextInputMultiplier p;
     LongContextOutputMultiplier := LongContextOutputMultiplier p;
     ImageOutputPricePerToken := ImageOutputPricePerToken p;
     ImageOutputPriceExplicit := ImageOutputPriceExplicit p |}.

Definition set_cache_read (x : f64) : ModelPricing :=
  {| InputPricePerToken := InputPricePerToken p;
     InputPricePerTokenPriority := InputPricePerTokenPriority p;
     ImageInputPricePerToken := ImageInputPricePerToken p;
     OutputPricePerToken := OutputPricePerToken p;
     OutputPricePerTokenPriority := OutputPricePerTokenPriority p;
     CacheCreationPricePerToken := CacheCreationPricePerToken p;
     CacheCreationPricePerTokenPriority := CacheCreationPricePerTokenPriority p;
     CacheCreationPriceExplicit := CacheCreationPriceExplicit p;
     CacheReadPricePerToken := x; CacheReadPricePerTokenPriority := x;
     CacheCreation5mPrice := CacheCreation5mPrice p;
     CacheCreation1hPrice := CacheCreation1hPrice p;
     SupportsCacheBreakdown := SupportsCacheBreakdown p;
     LongContextInputThreshold := LongContextInputThreshold p;
     LongContextInputMultiplier := LongContextInputMultiplier p;
     LongContextOutputMultiplier := LongContextOutputMultiplier p;
     ImageOutputPricePerToken := ImageOutputPricePerToken p;
     ImageOutputPriceExplicit := ImageOutputPriceExplicit p |}.

Definition set_image_output (x : f64) (explicit : bool) : ModelPricing :=
  {| InputPricePerToken := InputPricePerToken p;
     InputPricePerTokenPriority := InputPricePerTokenPriority p;
     ImageInputPricePerToken := ImageInputPricePerToken p;
     OutputPricePerToken := OutputPricePerToken p;
     OutputPricePerTokenPriority := OutputPricePerTokenPriority p;
     CacheCreationPricePerToken := CacheCreationPricePerToken p;
     CacheCreationPricePerTokenPriority := CacheCreationPricePerTokenPriority p;
     CacheCreationPriceExplicit := CacheCreationPriceExplicit p;
     CacheReadPricePerToken := CacheReadPricePerToken p;
     CacheReadPricePerTokenPriority := CacheReadPricePerTokenPriority p;
     CacheCreation5mPrice := CacheCreation5mPrice p;
     CacheCreation1hPrice := CacheCreation1hPrice p;
     SupportsCacheBreakdown := SupportsCacheBreakdown p;
     LongContextInputThreshold := LongContextInputThreshold p;
     LongContextInputMultiplier := LongContextInputMultiplier p;
     LongContextOutputMultiplier := LongContextOutputMultiplier p;
     ImageOutputPricePerToken := x; ImageOutputPriceExplicit := explicit |}.

Definition set_breakdown (b : bool) : ModelPricing :=
  {| InputPricePerToken := InputPricePerToken p;
     InputPricePerTokenPriority := InputPricePerTokenPriority p;
     ImageInputPricePerToken := ImageInputPricePerToken p;
     OutputPricePerToken := OutputPricePerToken p;
     OutputPricePerTokenPriority := OutputPricePerTokenPriority p;
     CacheCreationPricePerToken := CacheCreationPricePerToken p;
     CacheCreationPricePerTokenPriority := CacheCreationPricePerTokenPriority p;
     CacheCreationPriceExplicit := CacheCreationPriceExplicit p;
     CacheReadPricePerToken := CacheReadPricePerToken p;
     CacheReadPricePerTokenPriority := CacheReadPricePerTokenPriority p;
     CacheCreation5mPrice := CacheCreation5mPrice p;
     CacheCreation1hPrice := CacheCreation1hPrice p;
     SupportsCacheBreakdown := b;
     LongContextInputThreshold := LongContextInputThreshold p;
     LongContextInputMultiplier := LongContextInputMultiplier p;
     LongContextOutputMultiplier := LongContextOutputMultiplier p;
     ImageOutputPricePerToken := ImageOutputPricePerToken p;
     ImageOutputPriceExplicit := ImageOutputPriceExplicit p |}.
End Setters.

(** [if x != nil { ... = *x }] *)
Definition if_set (x : option f64) (f : f64 → ModelPricing) (p : ModelPricing) : ModelPricing :=
  match x with Some v => f v | None => p end.

(** ** Overrides *)

Definition applyChannelImageInputPrice (ch : option ChannelModelPricing) (p : ModelPricing)
  : ModelPricing :=
  with_image_input p
    (match ch with Some c => default f0 (cp_ImageInputPrice c) | None => f0 end).

(** The flat branch of [applyTokenOverrides]. *)
Definition flat_overrides (ch : ChannelModelPricing) (p : ModelPricing) : ModelPricing :=
  let p := if_set (cp_InputPrice ch) (set_input p) p in
  let p := if_set (cp_OutputPrice ch) (set_output p) p in
  let p := if_set (cp_CacheWritePrice ch) (set_cache_write p) p in
  let p := if_set (cp_CacheReadPrice ch) (set_cache_read p) p in
  let p := set_image_output p (default f0 (cp_ImageOutputPrice ch)) true in
  applyChannelImageInputPrice (Some ch) p.

Definition filterValidIntervals (intervals : list PricingInterval) : list PricingInterval :=
  List.filter iv_has_price intervals.

Record ResolvedPricing := {
  rp_Mode : BillingMode;
  rp_BasePricing : option ModelPricing;
  rp_Intervals : list PricingInterval;
  rp_RequestTiers : list PricingInterval;
  rp_DefaultPerRequestPrice : f64;
  rp_Source : string;
  rp_SupportsCacheBreakdown : bool;
  rp_channelPricing : option ChannelModelPricing;
}.

(** [applyTokenOverrides]; the base price is copied before it is changed, so
    the shared fallback entry stays as it is. *)
Definition applyTokenOverrides (ch : ChannelModelPricing) (r : ResolvedPricing)
  : ResolvedPricing :=
  let base := default ModelPricing_zero (rp_BasePricing r) in
  let validIntervals := filterValidIntervals (cp_Intervals ch) in
  match validIntervals with
  | _ :: _ =>
      let base := set_image_output base (default f0 (cp_ImageOutputPrice ch)) true in
      {| rp_Mode := rp_Mode r;
         rp_BasePricing := Some (applyChannelImageInputPrice (Some ch) base);
         rp_Intervals := validIntervals; rp_RequestTiers := rp_RequestTiers r;
         rp_DefaultPerRequestPrice := rp_DefaultPerRequestPrice r; rp_Source := rp_Source r;
         rp_SupportsCacheBreakdown := rp_SupportsCacheBreakdown r;
         rp_channelPricing := rp_channelPricing r |}
  | [] =>
      {| rp_Mode := rp_Mode r; rp_BasePricing := Some (flat_overrides ch base);
         rp_Intervals := rp_Intervals r; rp_RequestTiers := rp_RequestTiers r;
         rp_DefaultPerRequestPrice := rp_DefaultPerRequestPrice r; rp_Source := rp_Source r;
         rp_SupportsCacheBreakdown := rp_SupportsCacheBreakdown r;
         rp_channelPricing := rp_channelPricing r |}
  end.

Definition applyRequestTierOverrides (ch : ChannelModelPricing) (r : ResolvedPricing)
  : ResolvedPricing :=
  {| rp_Mode := rp_Mode r; rp_BasePricing := rp_BasePricing r; rp_Intervals := rp_Intervals r;
     rp_RequestTiers := filterValidIntervals (cp_Intervals ch);
     rp_DefaultPerRequestPrice :=
       match cp_PerRequestPrice ch with Some x => x | None => rp_DefaultPerRequestPrice r end;
     rp_Source := rp_Source r; rp_SupportsCacheBreakdown := rp_SupportsCacheBreakdown r;
     rp_channelPricing := rp_channelPricing r |}.

(** [chPricing.BillingMode], empty meaning token mode. *)
Definition mode_or_token (m : BillingMode) : BillingMode :=
  if String.eqb m "" then BillingModeToken else m.

Definition set_channel_mode (ch : ChannelModelPricing) (mode : BillingMode) (r : ResolvedPricing)
  : ResolvedPricing :=
  {| rp_Mode := mode; rp_BasePricing := rp_BasePricing r; rp_Intervals := rp_Intervals r;
     rp_RequestTiers := rp_RequestTiers r;
     rp_DefaultPerRequestPrice := rp_DefaultPerRequestPrice r;
     rp_Source := PricingSourceChannel;
     rp_SupportsCacheBreakdown := rp_SupportsCacheBreakdown r;
     rp_channelPricing := Some ch |}.

Definition is_request_mode (mode : BillingMode) : bool :=
  String.eqb mode BillingModePerRequest || String.eqb mode BillingModeImage.

(** [applyChannelOverrides], given the answer of the channel lookup it makes. *)
Definition applyChannelOverrides (ch : option ChannelModelPricing) (r : ResolvedPricing)
  : ResolvedPricing :=
  match ch with
  | None => r
  | Some ch =>
      let mode := mode_or_token (cp_BillingMode ch) in
      let r := set_channel_mode ch mode r in
      if String.eqb mode BillingModeToken then applyTokenOverrides ch r
      else if is_request_mode mode then applyRequestTierOverrides ch r
      else r
  end.

(** A [*ChannelService], as the resolver uses it: the answer to its [n]-th
    [GetChannelModelPricing] call for a group and a model.  Two calls may
    differ, because the cache can be rebuilt in between. *)
Abbreviation ChannelLookup := (nat → Z → string → option ChannelModelPricing).

Section Resolver.
Context `{GoText}.

Record ModelPricingResolver := {
  channelService : option ChannelLookup;
  billingService : BillingService;
}.

Definition resolveBasePricing (r : ModelPricingResolver) (model : string)
  : option ModelPricing * string :=
  match GetModelPricing (billingService r) model with
  | Ok p => (Some p, PricingSourceLiteLLM)
  | Err _ => (None, PricingSourceFallback)
  end.

(** [&ResolvedPricing{Mode: mode, Source: channel, channelPricing: ch}] with
    the request tiers. *)
Definition resolved_per_request (ch : ChannelModelPricing) (mode : BillingMode)
  : ResolvedPricing :=
  applyRequestTierOverrides ch
    {| rp_Mode := mode; rp_BasePricing := None; rp_Intervals := []; rp_RequestTiers := [];
       rp_DefaultPerRequestPrice := f0; rp_Source := PricingSourceChannel;
       rp_SupportsCacheBreakdown := false; rp_channelPricing := Some ch |}.

Definition resolved_base (r : ModelPricingResolver) (model : string) : ResolvedPricing :=
  let (base, source) := resolveBasePricing r model in
  {| rp_Mode := BillingModeToken; rp_BasePricing := base; rp_Intervals := [];
     rp_RequestTiers := []; rp_DefaultPerRequestPrice := f0; rp_Source := source;
     rp_SupportsCacheBreakdown := match base with Some p => SupportsCacheBreakdown p | None => false end;
     rp_channelPricing := None |}.

(** [Resolve]; [None] is a nil-pointer panic, which a resolver without channel
    service runs into when the request has a group. *)
Definition Resolve (r : ModelPricingResolver) (model : string) (groupID : option Z)
  : option ResolvedPricing :=
  match groupID with
  | None => Some (resolved_base r model)
  | Some g =>
      match channelService r with
      | None => None
      | Some lookup =>
          match lookup 0%nat g model with
          | Some ch =>
              let mode := mode_or_token (cp_BillingMode ch) in
              if is_request_mode mode then Some (resolved_per_request ch mode)
              else
                Some (applyTokenOverrides ch (set_channel_mode ch BillingModeToken
                                                (resolved_base r model)))
          | None => Some (applyChannelOverrides (lookup 1%nat g model) (resolved_base r model))
          end
      end
  end.

(** [intervalToModelPricing] *)
Definition intervalToModelPricing (iv : PricingInterval) (supportsCacheBreakdown : bool)
    (ch : option ChannelModelPricing) : ModelPricing :=
  let p := set_breakdown ModelPricing_zero supportsCacheBreakdown in
  let p := if_set (iv_InputPrice iv) (set_input p) p in
  let p := if_set (iv_OutputPrice iv) (set_output p) p in
  let p := if_set (iv_CacheWritePrice iv) (set_cache_write p) p in
  let p := if_set (iv_CacheReadPrice iv) (set_cache_read p) p in
  match ch with
  | None => p
  | Some c =>
      let p := set_image_output p
                 (default (ImageOutputPricePerToken p) (cp_ImageOutputPrice c)) true in
      applyChannelImageInputPrice (Some c) p
  end.

Definition GetIntervalPricing (r : ResolvedPricing) (totalContextTokens : Z)
  : option ModelPricing :=
  match rp_Intervals r with
  | [] => rp_BasePricing r
  | _ =>
      match FindMatchingInterval (rp_Intervals r) totalContextTokens with
      | None => rp_BasePricing r
      | Some iv =>
          Some (intervalToModelPricing iv (rp_SupportsCacheBreakdown r) (rp_channelPricing r))
      end
  end.

Definition GetRequestTierPrice (r : ResolvedPricing) (tierLabel : string) : f64 :=
  match List.find (λ t, String.eqb (iv_TierLabel t) tierLabel
                        && match iv_PerRequestPrice t with Some _ => true | None => false end)
          (rp_RequestTiers r) with
  | Some t => default f0 (iv_PerRequestPrice t)
  | None => f0
  end.

Definition GetRequestTierPriceByContext (r : ResolvedPricing) (totalContextTokens : Z) : f64 :=
  match FindMatchingInterval (rp_RequestTiers r) totalContextTokens with
  | Some iv => default f0 (iv_PerRequestPrice iv)
  | None => f0
  end.

(** [GetModelPricingWithChannel] of the billing service. *)
Definition GetModelPricingWithChannel (s : BillingService) (model : string)
    (channelPricing : option ChannelModelPricing) : res BillingError ModelPricing :=
  pricing <-? GetModelPricing s model;
  match channelPricing with
  | None => Ok pricing
  | Some ch =>
      let p := match cp_InputPrice ch with Some x => set_input pricing x | None => pricing end in
      let p := match cp_OutputPrice ch with Some x => set_output p x | None => p end in
      let p := match cp_CacheWritePrice ch with Some x => set_cache_write p x | None => p end in
      let p := match cp_CacheReadPrice ch with Some x => set_cache_read p x | None => p end in
      let p := match cp_ImageOutputPrice ch with
               | Some x => set_image_output p x true
               | None => set_image_output p f0 true
               end in
      Ok (applyChannelImageInputPrice (Some ch) p)
  end.

(** ** Properties *)

(** The resolver with channel service and group: what [Resolve] returns. *)
Inductive resolved_by_channel (r : ModelPricingResolver) (g : Z) (model : string)
    (ch : ChannelModelPricing) (rp : ResolvedPricing) : Prop :=
| by_channel (Hres : Resolve r model (Some g) = Some rp)
             (Hch : rp_channelPricing rp = Some ch).

Lemma applyTokenOverrides_base ch r :
  ∃ p, rp_BasePricing (applyTokenOverrides ch r) = Some p ∧
       ImageOutputPricePerToken p = default f0 (cp_ImageOutputPrice ch) ∧
       ImageOutputPriceExplicit p = true ∧
       ImageInputPricePerToken p = default f0 (cp_ImageInputPrice ch).
Proof. unfold applyTokenOverrides. destruct (filterValidIntervals _); eexists; by repeat split. Qed.

Lemma applyTokenOverrides_channel ch r :
  rp_channelPricing (applyTokenOverrides ch r) = rp_channelPricing r.
Proof. unfold applyTokenOverrides. by destruct (filterValidIntervals _). Qed.

Lemma intervalToModelPricing_image iv b ch :
  let p := intervalToModelPricing iv b (Some ch) in
  ImageOutputPricePerToken p = default f0 (cp_ImageOutputPrice ch) ∧
  ImageOutputPriceExplicit p = true ∧
  ImageInputPricePerToken p = default f0 (cp_ImageInputPrice ch).
Proof.
  unfold intervalToModelPricing, if_set.
  destruct (iv_InputPrice iv), (iv_OutputPrice iv), (iv_CacheWritePrice iv), (iv_CacheReadPrice iv);
    repeat split; simpl; by destruct (cp_ImageOutputPrice ch).
Qed.

(** The modes a resolution can have, and what its base price is then. *)
Lemma Resolve_token_mode r g model ch rp :
  resolved_by_channel r g model ch rp → rp_Mode rp = BillingModeToken →
  ∃ rp0, rp_channelPricing rp0 = Some ch ∧ rp = applyTokenOverrides ch rp0.
Proof.
  intros [Hres Hch] Hmode. unfold Resolve in Hres.
  destruct (channelService r) as [lookup|]; [|done].
  destruct (lookup 0%nat g model) as [c|] eqn:E0.
  - destruct (is_request_mode (mode_or_token (cp_BillingMode c))) eqn:Em; simplify_eq.
    + simpl in Hmode. rewrite Hmode in Em. done.
    + rewrite applyTokenOverrides_channel in Hch. simpl in Hch. simplify_eq.
      eexists; split; [|reflexivity]; reflexivity.
  - simplify_eq. unfold applyChannelOverrides in *.
    assert (rp_channelPricing (resolved_base r model) = None) as Hnone
      by (unfold resolved_base; by destruct (resolveBasePricing r model)).
    destruct (lookup 1%nat g model) as [c|]; [|congruence].
    destruct (String.eqb (mode_or_token (cp_BillingMode c)) BillingModeToken) eqn:Em.
    + rewrite applyTokenOverrides_channel in Hch. simpl in Hch. simplify_eq.
      eexists; split; [|reflexivity]; reflexivity.
    + exfalso. destruct (is_request_mode _); simpl in Hmode; rewrite Hmode in Em; done.
Qed.

(** a channel's price row replaces the provider's image prices: whatever
    the context size, a token-billed request that a channel prices is charged
    the row's image prices, and zero (output) or the text price (input) where
    the row has none - never the price of the dynamic list. *)
Theorem channel_image_price_no_leak r g model ch rp total p :
  resolved_by_channel r g model ch rp →
  rp_Mode rp = BillingModeToken →
  GetIntervalPricing rp total = Some p →
  ImageOutputPricePerToken p = default f0 (cp_ImageOutputPrice ch) ∧
  ImageOutputPriceExplicit p = true ∧
  ImageInputPricePerToken p = default f0 (cp_ImageInputPrice ch).
Proof.
  intros Hres Hmode Hp.
  destruct (Resolve_token_mode _ _ _ _ _ Hres Hmode) as (rp0 & Hch0 & ->).
  destruct (applyTokenOverrides_base ch rp0) as (b & Hb & Himg).
  unfold GetIntervalPricing in Hp. rewrite applyTokenOverrides_channel, Hch0, Hb in Hp.
  destruct (rp_Intervals _); [by simplify_eq|].
  destruct (FindMatchingInterval _ _) as [iv|]; simplify_eq; [|done].
  apply intervalToModelPricing_image.
Qed.

(** The two implementations of flat channel prices agree: for a row
    without priced intervals that is not billed per request, the resolver and
    [GetModelPricingWithChannel] arrive at the same prices, and the context
    size is irrelevant. *)
Theorem flat_prices_agree (s : BillingService) lookup g model ch p total :
  lookup 0%nat g model = Some ch →
  is_request_mode (mode_or_token (cp_BillingMode ch)) = false →
  filterValidIntervals (cp_Intervals ch) = [] →
  GetModelPricingWithChannel s model (Some ch) = Ok p →
  (rp ← Resolve {| channelService := Some lookup; billingService := s |} model (Some g);
   GetIntervalPricing rp total) = Some p.
Proof.
  intros Hch Hmode Hiv Hp. unfold Resolve. simpl. rewrite Hch, Hmode. simpl.
  unfold applyTokenOverrides. rewrite Hiv. unfold GetIntervalPricing, resolved_base,
    resolveBasePricing. simpl. unfold GetModelPricingWithChannel in Hp.
  destruct (GetModelPricing s model) as [base|e]; simpl in *; [|done].
  f_equal. injection Hp as <-. unfold flat_overrides, if_set.
  by destruct (cp_ImageOutputPrice ch).
Qed.

(** A resolver with a channel service always answers. *)
Lemma Resolve_total r model groupID :
  Resolve r model groupID = None ↔ is_Some groupID ∧ channelService r = None.
Proof.
  unfold Resolve. destruct groupID as [g|]; [|split; [done|by intros [[? ?] _]]].
  destruct (channelService r) as [lookup|]; [|by split; eauto].
  destruct (lookup 0%nat g model); [destruct (is_request_mode _)|]; naive_solver.
Qed.

(** ** Prices stay non-negative *)

Definition opt_nonneg (x : option f64) : bool :=
  match x with Some v => nonneg v | None => true end.

Lemma price_negative_nonneg x : price_negative x = false ↔ opt_nonneg x = true.
Proof. destruct x as [x|]; [|done]. simpl. rewrite nonneg_not_lt. by destruct (x <ᶠ f0). Qed.

(** The prices of an interval and of a row. *)
Definition iv_nonneg (iv : PricingInterval) : bool :=
  forallb (λ p, opt_nonneg (snd p)) (iv_prices iv).
Definition cp_nonneg (ch : ChannelModelPricing) : bool :=
  forallb (λ p, opt_nonneg (snd p)) (cp_prices ch) && forallb iv_nonneg (cp_Intervals ch).


Lemma opt_default_nonneg x : opt_nonneg x = true → nonneg (default f0 x) = true.
Proof. by destruct x. Qed.

(** Setting one non-negative price keeps a price record non-negative. *)
Ltac solve_pricing_nonneg :=
  match goal with H : pricing_nonneg ?p = true |- _ =>
    unfold pricing_nonneg in *;
    cbn [forallb InputPricePerToken InputPricePerTokenPriority ImageInputPricePerToken
      OutputPricePerToken OutputPricePerTokenPriority CacheCreationPricePerToken
      CacheCreationPricePerTokenPriority CacheReadPricePerToken CacheReadPricePerTokenPriority
      CacheCreation5mPrice CacheCreation1hPrice LongContextInputMultiplier
      LongContextOutputMultiplier ImageOutputPricePerToken set_input set_output
      set_cache_write set_cache_read set_image_output set_breakdown with_image_input] in H |- *;
    split_andb_in H; split_andb; (assumption || reflexivity)
  end.

Lemma set_input_nonneg p x :
  pricing_nonneg p = true → nonneg x = true → pricing_nonneg (set_input p x) = true.
Proof. intros Hp Hx. solve_pricing_nonneg. Qed.
Lemma set_output_nonneg p x :
  pricing_nonneg p = true → nonneg x = true → pricing_nonneg (set_output p x) = true.
Proof. intros Hp Hx. solve_pricing_nonneg. Qed.
Lemma set_cache_write_nonneg p x :
  pricing_nonneg p = true → nonneg x = true → pricing_nonneg (set_cache_write p x) = true.
Proof. intros Hp Hx. solve_pricing_nonneg. Qed.
Lemma set_cache_read_nonneg p x :
  pricing_nonneg p = true → nonneg x = true → pricing_nonneg (set_cache_read p x) = true.
Proof. intros Hp Hx. solve_pricing_nonneg. Qed.
Lemma with_image_input_nonneg p x :
  pricing_nonneg p = true → nonneg x = true → pricing_nonneg (with_image_input p x) = true.
Proof. intros Hp Hx. solve_pricing_nonneg. Qed.
Lemma set_image_output_nonneg p x b :
  pricing_nonneg p = true → nonneg x = true → pricing_nonneg (set_image_output p x b) = true.
Proof. intros Hp Hx. solve_pricing_nonneg. Qed.

Lemma if_set_nonneg (f : ModelPricing → f64 → ModelPricing) x p :
  (∀ p v, pricing_nonneg p = true → nonneg v = true → pricing_nonneg (f p v) = true) →
  opt_nonneg x = true → pricing_nonneg p = true → pricing_nonneg (if_set x (f p) p) = true.
Proof. destruct x; simpl; auto. Qed.

(** The four token prices, set in the order of the code. *)
Lemma token_prices_nonneg i o cw cr p :
  opt_nonneg i = true → opt_nonneg o = true → opt_nonneg cw = true → opt_nonneg cr = true →
  pricing_nonneg p = true →
  let p := if_set i (set_input p) p in
  let p := if_set o (set_output p) p in
  let p := if_set cw (set_cache_write p) p in
  pricing_nonneg (if_set cr (set_cache_read p) p) = true.
Proof.
  intros Hi Ho Hcw Hcr Hp. cbv zeta.
  apply (if_set_nonneg set_cache_read); [apply set_cache_read_nonneg|done|].
  apply (if_set_nonneg set_cache_write); [apply set_cache_write_nonneg|done|].
  apply (if_set_nonneg set_output); [apply set_output_nonneg|done|].
  by apply (if_set_nonneg set_input); [apply set_input_nonneg|..].
Qed.

Lemma cp_nonneg_fields ch :
  cp_nonneg ch = true →
  opt_nonneg (cp_InputPrice ch) = true ∧ opt_nonneg (cp_OutputPrice ch) = true ∧
  opt_nonneg (cp_CacheWritePrice ch) = true ∧ opt_nonneg (cp_CacheReadPrice ch) = true ∧
  opt_nonneg (cp_ImageInputPrice ch) = true ∧ opt_nonneg (cp_ImageOutputPrice ch) = true ∧
  opt_nonneg (cp_PerRequestPrice ch) = true ∧ forallb iv_nonneg (cp_Intervals ch) = true.
Proof.
  unfold cp_nonneg, cp_prices. cbn [forallb snd]. intros Hch. split_andb_in Hch. by repeat split.
Qed.

Lemma iv_nonneg_fields iv :
  iv_nonneg iv = true →
  opt_nonneg (iv_InputPrice iv) = true ∧ opt_nonneg (iv_OutputPrice iv) = true ∧
  opt_nonneg (iv_CacheWritePrice iv) = true ∧ opt_nonneg (iv_CacheReadPrice iv) = true ∧
  opt_nonneg (iv_PerRequestPrice iv) = true.
Proof.
  unfold iv_nonneg, iv_prices. cbn [forallb snd]. intros Hiv. split_andb_in Hiv. by repeat split.
Qed.

Lemma image_overrides_nonneg ch p x b :
  cp_nonneg ch = true → nonneg x = true → pricing_nonneg p = true →
  pricing_nonneg (applyChannelImageInputPrice (Some ch) (set_image_output p x b)) = true.
Proof.
  intros (_ & _ & _ & _ & Hi & _)%cp_nonneg_fields Hx Hp.
  apply with_image_input_nonneg; [by apply set_image_output_nonneg|by apply opt_default_nonneg].
Qed.

Lemma flat_overrides_nonneg ch p :
  cp_nonneg ch = true → pricing_nonneg p = true → pricing_nonneg (flat_overrides ch p) = true.
Proof.
  intros Hch Hp. pose proof (cp_nonneg_fields ch Hch) as (H1 & H2 & H3 & H4 & H5 & H6 & _).
  unfold flat_overrides. apply image_overrides_nonneg; [done|by apply opt_default_nonneg|].
  by apply token_prices_nonneg.
Qed.

Lemma intervalToModelPricing_nonneg iv b ch :
  iv_nonneg iv = true → (∀ c, ch = Some c → cp_nonneg c = true) →
  pricing_nonneg (intervalToModelPricing iv b ch) = true.
Proof.
  intros (H1 & H2 & H3 & H4 & _)%iv_nonneg_fields Hch. unfold intervalToModelPricing.
  set (p := set_breakdown _ _).
  assert (pricing_nonneg p = true) as Hp by (by destruct b).
  clearbody p.
  match goal with |- pricing_nonneg (match ch with Some _ => _ | None => ?q end) = true =>
    assert (pricing_nonneg q = true) as Hq end.
  { by apply token_prices_nonneg. }
  destruct ch as [c|]; [|done]. specialize (Hch c eq_refl).
  apply image_overrides_nonneg; [done| |done].
  pose proof (cp_nonneg_fields c Hch) as (_ & _ & _ & _ & _ & Hi & _).
  destruct (cp_ImageOutputPrice c); [done|]. simpl.
  unfold pricing_nonneg in Hq. cbn [forallb] in Hq. split_andb_in Hq. assumption.
Qed.

(** A resolution all of whose prices are non-negative. *)
Record resolved_nonneg (rp : ResolvedPricing) : Prop := {
  rn_base : ∀ p, rp_BasePricing rp = Some p → pricing_nonneg p = true;
  rn_intervals : forallb iv_nonneg (rp_Intervals rp) = true;
  rn_tiers : forallb iv_nonneg (rp_RequestTiers rp) = true;
  rn_default : nonneg (rp_DefaultPerRequestPrice rp) = true;
  rn_channel : ∀ ch, rp_channelPricing rp = Some ch → cp_nonneg ch = true;
}.

Lemma filterValidIntervals_nonneg l :
  forallb iv_nonneg l = true → forallb iv_nonneg (filterValidIntervals l) = true.
Proof.
  unfold filterValidIntervals. induction l as [|iv l IH]; simpl; [done|].
  intros [Hiv Hl]%andb_true_iff. destruct (iv_has_price iv); simpl; [|auto].
  by rewrite Hiv, IH.
Qed.

Lemma applyTokenOverrides_nonneg ch rp :
  cp_nonneg ch = true → resolved_nonneg rp → resolved_nonneg (applyTokenOverrides ch rp).
Proof.
  intros Hch [Hb Hi Ht Hd Hc].
  pose proof (cp_nonneg_fields ch Hch) as (_ & _ & _ & _ & _ & Hio & _ & Hiv).
  apply filterValidIntervals_nonneg in Hiv.
  assert (pricing_nonneg (default ModelPricing_zero (rp_BasePricing rp)) = true) as Hbase
    by (destruct (rp_BasePricing rp); simpl; auto).
  unfold applyTokenOverrides. destruct (filterValidIntervals _); constructor; simpl in *; try done;
    intros q [= <-].
  - by apply flat_overrides_nonneg.
  - apply image_overrides_nonneg; auto using opt_default_nonneg.
Qed.

Lemma applyRequestTierOverrides_nonneg ch rp :
  cp_nonneg ch = true → resolved_nonneg rp → resolved_nonneg (applyRequestTierOverrides ch rp).
Proof.
  intros Hch [Hb Hi Ht Hd Hc].
  pose proof (cp_nonneg_fields ch Hch) as (_ & _ & _ & _ & _ & _ & Hp & Hiv).
  constructor; simpl; try done; [by apply filterValidIntervals_nonneg|].
  by destruct (cp_PerRequestPrice ch).
Qed.

Lemma set_channel_mode_nonneg ch mode rp :
  cp_nonneg ch = true → resolved_nonneg rp → resolved_nonneg (set_channel_mode ch mode rp).
Proof. intros Hch []. constructor; simpl; try done. by intros ? [= <-]. Qed.

(** All prices of a resolution come from non-negative sources. *)
Lemma Resolve_nonneg rate src lookup model groupID rp :
  source_nonneg src →
  (∀ look n g m ch, lookup = Some look → look n g m = Some ch → cp_nonneg ch = true) →
  Resolve {| channelService := lookup; billingService := NewBillingService rate src |}
    model groupID = Some rp →
  resolved_nonneg rp.
Proof.
  intros Hsrc Hlook Hres.
  assert (resolved_nonneg
    (resolved_base {| channelService := lookup; billingService := NewBillingService rate src |} model))
    as Hbase.
  { unfold resolved_base, resolveBasePricing.
    change (billingService _) with (NewBillingService rate src).
    destruct (GetModelPricing _ model) as [p|e] eqn:Hp; constructor; try done; intros q [= <-].
    by eapply GetModelPricing_nonneg. }
  unfold Resolve in Hres. destruct groupID as [g|]; [|by simplify_eq].
  change (channelService _) with lookup in Hres. destruct lookup as [look|]; [|done].
  destruct (look 0%nat g model) as [ch|] eqn:E0.
  - assert (cp_nonneg ch = true) as Hch by (by eapply Hlook).
    destruct (is_request_mode _); simplify_eq.
    + apply applyRequestTierOverrides_nonneg; [done|]. constructor; try done. by intros ? [= <-].
    + by apply applyTokenOverrides_nonneg, set_channel_mode_nonneg.
  - simplify_eq. unfold applyChannelOverrides.
    destruct (look 1%nat g model) as [ch|] eqn:E1; [|done].
    assert (cp_nonneg ch = true) as Hch by (by eapply Hlook).
    destruct (String.eqb _ _); [by apply applyTokenOverrides_nonneg, set_channel_mode_nonneg|].
    destruct (is_request_mode _);
      [by apply applyRequestTierOverrides_nonneg, set_channel_mode_nonneg|].
    by apply set_channel_mode_nonneg.
Qed.

Lemma FindMatchingInterval_nonneg l n iv :
  forallb iv_nonneg l = true → FindMatchingInterval l n = Some iv → iv_nonneg iv = true.
Proof. rewrite forallb_forall. intros Hl [Hin _]%find_some. auto. Qed.

Lemma GetIntervalPricing_nonneg rp total p :
  resolved_nonneg rp → GetIntervalPricing rp total = Some p → pricing_nonneg p = true.
Proof.
  intros [Hb Hi Ht Hd Hc] Hp. unfold GetIntervalPricing in Hp.
  destruct (rp_Intervals rp) as [|iv0 ivs]; [by apply Hb|].
  destruct (FindMatchingInterval _ _) as [iv|] eqn:E; [|by apply Hb]. simplify_eq.
  apply intervalToModelPricing_nonneg; [|done]. eapply FindMatchingInterval_nonneg; [|exact E]. exact Hi.
Qed.

Lemma request_prices_nonneg rp total label :
  resolved_nonneg rp →
  nonneg (GetRequestTierPrice rp label) = true ∧
  nonneg (GetRequestTierPriceByContext rp total) = true.
Proof.
  intros [_ _ Ht _ _]. split.
  - unfold GetRequestTierPrice. destruct (List.find _ _) as [t|] eqn:E; [|done].
    apply find_some in E as [Hin _]. rewrite forallb_forall in Ht.
    apply Ht, iv_nonneg_fields in Hin as (_ & _ & _ & _ & Hp). by apply opt_default_nonneg.
  - unfold GetRequestTierPriceByContext. destruct (FindMatchingInterval _ _) as [iv|] eqn:E; [|done].
    apply FindMatchingInterval_nonneg in E; [|done].
    apply iv_nonneg_fields in E as (_ & _ & _ & _ & Hp). by apply opt_default_nonneg.
Qed.

(** Validation gives non-negative rows. *)
Lemma validated_row_nonneg platforms rows ch :
  validatePricingEntries platforms rows = Ok () → ch ∈ rows → cp_nonneg ch = true.
Proof.
  intros Hv Hin. unfold validatePricingEntries in Hv.
  destruct (validateNoConflictingModels _ _) as [[]|]; [|done]. simpl in Hv.
  destruct (validatePricingIntervals _) as [[]|] eqn:Hi; [|done]. simpl in Hv.
  unfold validatePricingIntervals, validatePricingBillingMode in *.
  rewrite for_err_ok, Forall_forall in Hi, Hv. specialize (Hi ch Hin). specialize (Hv ch Hin).
  simpl in Hi, Hv. destruct (checkBillingModeRequirements ch) as [[]|]; [|done]. simpl in Hv.
  destruct (checkPricesNotNegative ch) as [[]|] eqn:Hp; [|done].
  unfold cp_nonneg. apply andb_true_iff. split.
  - unfold checkPricesNotNegative in Hp.
    destruct (List.find _ (cp_prices ch)) as [[]|] eqn:E; [done|].
    apply find_None_iff in E. rewrite forallb_forall. intros x Hx%list_elem_of_In.
    rewrite Forall_forall in E. by apply price_negative_nonneg, E.
  - destruct (ValidateIntervals _ _) as [[]|] eqn:E; [|done].
    rewrite forallb_forall. intros iv Hiv%list_elem_of_In.
    assert (validate_singles 0 (sort_intervals (cp_Intervals ch)) = Ok ()) as Hs.
    { unfold ValidateIntervals in E. destruct (cp_Intervals ch); [done|].
      unfold validate_sorted in E. by destruct (validate_singles _ _) as [[]|]. }
    rewrite validate_singles_ok, sort_intervals_perm, Forall_forall in Hs.
    specialize (Hs iv Hiv). simpl in Hs. unfold iv_ok in Hs.
    apply andb_true_iff in Hs as [_ Hs]. unfold iv_nonneg.
    rewrite forallb_forall in Hs |- *. intros x Hx. apply price_negative_nonneg.
    specialize (Hs x Hx). by apply negb_true_iff in Hs.
Qed.

End Resolver.
