(* ===== verification/Billing.v ===== *)
(** * The cost of a request

    [src/backend/internal/service/billing_service.go]: token costs with
    service tiers, long-context surcharges, cache and image prices
    ([computeTokenBreakdown]), per-request and per-image costs, the unified
    entry ([CalculateCostUnified]) and the split of a long context into two
    price ranges ([CalculateCostWithLongContext]). *)

From Stdlib Require Import ZArith Lia Ascii String Bool.
From stdpp Require Import base numbers option list gmap strings.
From S2P Require Import Prelude GoStrings GoFloat ModelAlias Pricing Channel Resolver.

#[local] Open Scope Z_scope.

Record UsageTokens := {
  InputTokens : Z;
  ImageInputTokens : Z;
  OutputTokens : Z;
  CacheCreationTokens : Z;
  CacheReadTokens : Z;
  CacheCreation5mTokens : Z;
  CacheCreation1hTokens : Z;
  ImageOutputTokens : Z;
}.

Record CostBreakdown := {
  InputCost : f64;
  ImageInputCost : f64;
  OutputCost : f64;
  ImageOutputCost : f64;
  CacheCreationCost : f64;
  CacheReadCost : f64;
  TotalCost : f64;
  ActualCost : f64;
  cb_BillingMode : string;
  LongContextBillingApplied : bool;
}.

(** [&CostBreakdown{TotalCost: t, ActualCost: a, BillingMode: m}] *)
Definition unit_cost (t a : f64) (m : string) : CostBreakdown :=
  {| InputCost := f0; ImageInputCost := f0; OutputCost := f0; ImageOutputCost := f0;
     CacheCreationCost := f0; CacheReadCost := f0; TotalCost := t; ActualCost := a;
     cb_BillingMode := m; LongContextBillingApplied := false |}.

(** [if rateMultiplier < 0 { rateMultiplier = 0 }] *)
Definition clamp_rate (r : f64) : f64 := if r <ᶠ f0 then f0 else r.

Section Billing.
Context `{GoText}.

Definition normalizeBillingServiceTier (serviceTier : string) : string :=
  ToLower (TrimSpace serviceTier).

Definition usePriorityServiceTierPricing (serviceTier : string) (p : ModelPricing) : bool :=
  if negb (String.eqb (normalizeBillingServiceTier serviceTier) "priority") then false
  else (f0 <ᶠ InputPricePerTokenPriority p) || (f0 <ᶠ OutputPricePerTokenPriority p)
       || (f0 <ᶠ CacheCreationPricePerTokenPriority p)
       || (f0 <ᶠ CacheReadPricePerTokenPriority p).

Definition serviceTierCostMultiplier (serviceTier : string) : f64 :=
  let t := normalizeBillingServiceTier serviceTier in
  if String.eqb t "priority" then f_of_int 2
  else if String.eqb t "flex" then f_dec 5 1
  else f1.

Definition shouldApplySessionLongContextPricing (tokens : UsageTokens) (p : ModelPricing) : bool :=
  if LongContextInputThreshold p <=? 0 then false
  else if (LongContextInputMultiplier p ≤ᶠ f1) && (LongContextOutputMultiplier p ≤ᶠ f1) then false
  else LongContextInputThreshold p
       <? InputTokens tokens +ᵢ CacheCreationTokens tokens +ᵢ CacheReadTokens tokens.

Definition computeCacheCreationCost (p : ModelPricing) (tokens : UsageTokens)
    (price multiplier : f64) : f64 :=
  if SupportsCacheBreakdown p
     && ((f0 <ᶠ CacheCreation5mPrice p) || (f0 <ᶠ CacheCreation1hPrice p)) then
    if (CacheCreation5mTokens tokens =? 0) && (CacheCreation1hTokens tokens =? 0)
       && (0 <? CacheCreationTokens tokens)
    then f_of_int (CacheCreationTokens tokens) *ᶠ CacheCreation5mPrice p *ᶠ multiplier
    else f_of_int (CacheCreation5mTokens tokens) *ᶠ CacheCreation5mPrice p *ᶠ multiplier
         +ᶠ f_of_int (CacheCreation1hTokens tokens) *ᶠ CacheCreation1hPrice p *ᶠ multiplier
  else f_of_int (CacheCreationTokens tokens) *ᶠ price *ᶠ multiplier.

(** The unit prices and multipliers [computeTokenBreakdown] works with. *)
Record UnitPrices := {
  up_input : f64;
  up_output : f64;
  up_cacheRead : f64;
  up_cacheCreation : f64;
  up_cacheCreationMultiplier : f64;
  up_tierMultiplier : f64;
}.

(** The choice by service tier. *)
Definition tier_prices (p : ModelPricing) (serviceTier : string) : UnitPrices :=
  if usePriorityServiceTierPricing serviceTier p then
    {| up_input := if f0 <ᶠ InputPricePerTokenPriority p then InputPricePerTokenPriority p
                   else InputPricePerToken p;
       up_output := if f0 <ᶠ OutputPricePerTokenPriority p then OutputPricePerTokenPriority p
                    else OutputPricePerToken p;
       up_cacheRead := if f0 <ᶠ CacheReadPricePerTokenPriority p
                       then CacheReadPricePerTokenPriority p else CacheReadPricePerToken p;
       up_cacheCreation := if f0 <ᶠ CacheCreationPricePerTokenPriority p
                           then CacheCreationPricePerTokenPriority p
                           else CacheCreationPricePerToken p;
       up_cacheCreationMultiplier := f1; up_tierMultiplier := f1 |}
  else
    {| up_input := InputPricePerToken p; up_output := OutputPricePerToken p;
       up_cacheRead := CacheReadPricePerToken p;
       up_cacheCreation := CacheCreationPricePerToken p;
       up_cacheCreationMultiplier := f1;
       up_tierMultiplier := serviceTierCostMultiplier serviceTier |}.

(** The long-context surcharge on them. *)
Definition long_context_prices (p : ModelPricing) (u : UnitPrices) : UnitPrices :=
  {| up_input := up_input u *ᶠ LongContextInputMultiplier p;
     up_output := up_output u *ᶠ LongContextOutputMultiplier p;
     up_cacheRead := up_cacheRead u *ᶠ LongContextInputMultiplier p;
     up_cacheCreation := up_cacheCreation u;
     up_cacheCreationMultiplier := LongContextInputMultiplier p;
     up_tierMultiplier := up_tierMultiplier u |}.

(** Text and image input tokens. *)
Definition split_input (tokens : UsageTokens) : Z * Z :=
  let textInputTokens := InputTokens tokens -ᵢ ImageInputTokens tokens in
  if textInputTokens <? 0 then (0, InputTokens tokens)
  else (textInputTokens, ImageInputTokens tokens).

Definition input_costs (p : ModelPricing) (tokens : UsageTokens) (u : UnitPrices) : f64 * f64 :=
  if 0 <? ImageInputTokens tokens then
    let (text, image) := split_input tokens in
    let imageInputPrice :=
      if ImageInputPricePerToken p =ᶠ f0 then up_input u else ImageInputPricePerToken p in
    (f_of_int text *ᶠ up_input u, f_of_int image *ᶠ imageInputPrice)
  else (f_of_int (InputTokens tokens) *ᶠ up_input u, f0).

Definition text_output_tokens (tokens : UsageTokens) : Z :=
  let t := OutputTokens tokens -ᵢ ImageOutputTokens tokens in
  if t <? 0 then 0 else t.

Definition image_output_cost (p : ModelPricing) (tokens : UsageTokens) (u : UnitPrices) : f64 :=
  if 0 <? ImageOutputTokens tokens then
    let imgPrice :=
      if (ImageOutputPricePerToken p =ᶠ f0) && negb (ImageOutputPriceExplicit p)
      then up_output u else ImageOutputPricePerToken p in
    f_of_int (ImageOutputTokens tokens) *ᶠ imgPrice
  else f0.

(** From the unit prices to the breakdown; [baseline] is the breakdown without
    surcharge, when there is a surcharge. *)
Definition breakdown_of (p : ModelPricing) (tokens : UsageTokens) (rate : f64) (u : UnitPrices)
    (baseline : option CostBreakdown) : CostBreakdown :=
  let (ic, iic) := input_costs p tokens u in
  let oc := f_of_int (text_output_tokens tokens) *ᶠ up_output u in
  let ioc := image_output_cost p tokens u in
  let ccc := computeCacheCreationCost p tokens (up_cacheCreation u)
               (up_cacheCreationMultiplier u) in
  let crc := f_of_int (CacheReadTokens tokens) *ᶠ up_cacheRead u in
  let scale x := if negb (up_tierMultiplier u =ᶠ f1) then x *ᶠ up_tierMultiplier u else x in
  let total := scale ic +ᶠ scale iic +ᶠ scale oc +ᶠ scale ioc +ᶠ scale ccc +ᶠ scale crc in
  let actual := total *ᶠ rate in
  {| InputCost := scale ic; ImageInputCost := scale iic; OutputCost := scale oc;
     ImageOutputCost := scale ioc; CacheCreationCost := scale ccc; CacheReadCost := scale crc;
     TotalCost := total; ActualCost := actual; cb_BillingMode := "";
     LongContextBillingApplied :=
       match baseline with Some b => ActualCost b <ᶠ actual | None => false end |}.

(** [computeTokenBreakdown]: it calls itself once, with [applyLongCtx] off, for
    the baseline. *)
Definition computeTokenBreakdown (p : ModelPricing) (tokens : UsageTokens)
    (rateMultiplier : f64) (serviceTier : string) (applyLongCtx : bool) : CostBreakdown :=
  let rate := clamp_rate rateMultiplier in
  let u := tier_prices p serviceTier in
  if applyLongCtx && shouldApplySessionLongContextPricing tokens p then
    let baseline := breakdown_of p tokens (clamp_rate rate) u None in
    breakdown_of p tokens rate (long_context_prices p u) (Some baseline)
  else breakdown_of p tokens rate u None.

(** ** The unified entry *)

Record CostInput := {
  in_Model : string;
  in_GroupID : option Z;
  in_Tokens : UsageTokens;
  in_RequestCount : Z;
  in_SizeTier : string;
  in_RateMultiplier : f64;
  in_ServiceTier : string;
  in_Resolver : option ModelPricingResolver;
  in_Resolved : option ResolvedPricing;
  in_LongContextBillingEnabled : option bool;
}.

Definition total_context (tokens : UsageTokens) : Z :=
  InputTokens tokens +ᵢ CacheCreationTokens tokens +ᵢ CacheReadTokens tokens.

Definition calculateTokenCost (resolved : ResolvedPricing) (input : CostInput) (rate : f64)
  : res BillingError CostBreakdown :=
  match GetIntervalPricing resolved (total_context (in_Tokens input)) with
  | None => Err (ErrModelPricingUnavailable (in_Model input))
  | Some p =>
      let p := applyModelSpecificPricingPolicy (in_Model input) p in
      let applyLongCtx :=
        match rp_Intervals resolved with [] => true | _ => false end
        && default true (in_LongContextBillingEnabled input) in
      Ok (computeTokenBreakdown p (in_Tokens input) rate (in_ServiceTier input) applyLongCtx)
  end.

(** The unit price of [calculatePerRequestCost]. *)
Definition request_unit_price (resolved : ResolvedPricing) (input : CostInput) : f64 :=
  let unitPrice :=
    if negb (String.eqb (in_SizeTier input) "")
    then GetRequestTierPrice resolved (in_SizeTier input) else f0 in
  let unitPrice :=
    if unitPrice =ᶠ f0
    then GetRequestTierPriceByContext resolved (total_context (in_Tokens input))
    else unitPrice in
  if unitPrice =ᶠ f0 then rp_DefaultPerRequestPrice resolved else unitPrice.

Definition calculatePerRequestCost (resolved : ResolvedPricing) (input : CostInput) (rate : f64)
  : CostBreakdown :=
  let count := if in_RequestCount input <=? 0 then 1 else in_RequestCount input in
  let totalCost := request_unit_price resolved input *ᶠ f_of_int count in
  unit_cost totalCost (totalCost *ᶠ rate) "".

Definition set_billing_mode (m : string) (b : CostBreakdown) : CostBreakdown :=
  {| InputCost := InputCost b; ImageInputCost := ImageInputCost b; OutputCost := OutputCost b;
     ImageOutputCost := ImageOutputCost b; CacheCreationCost := CacheCreationCost b;
     CacheReadCost := CacheReadCost b; TotalCost := TotalCost b; ActualCost := ActualCost b;
     cb_BillingMode := m; LongContextBillingApplied := LongContextBillingApplied b |}.

(** [calculateCostInternalWithPolicy] *)
Definition calculateCostInternalWithPolicy (s : BillingService) (model : string)
    (tokens : UsageTokens) (rateMultiplier : f64) (serviceTier : string)
    (channelPricing : option ChannelModelPricing) (longContextBillingEnabled : bool)
  : res BillingError CostBreakdown :=
  p <-? match channelPricing with
        | Some _ => GetModelPricingWithChannel s model channelPricing
        | None => GetModelPricing s model
        end;
  Ok (computeTokenBreakdown p tokens rateMultiplier serviceTier longContextBillingEnabled).

Definition CalculateCostWithServiceTier (s : BillingService) (model : string)
    (tokens : UsageTokens) (rateMultiplier : f64) (serviceTier : string) :=
  calculateCostInternalWithPolicy s model tokens rateMultiplier serviceTier None true.

Definition CalculateCost (s : BillingService) (model : string) (tokens : UsageTokens)
    (rateMultiplier : f64) :=
  CalculateCostWithServiceTier s model tokens rateMultiplier "".

(** [CalculateCostUnified]; the outer [None] is the panic of [Resolve]. *)
Definition CalculateCostUnified (s : BillingService) (input : CostInput)
  : option (res BillingError CostBreakdown) :=
  match in_Resolver input with
  | None =>
      Some (calculateCostInternalWithPolicy s (in_Model input) (in_Tokens input)
              (in_RateMultiplier input) (in_ServiceTier input) None
              (default true (in_LongContextBillingEnabled input)))
  | Some r =>
      resolved ← match in_Resolved input with
                 | Some rp => Some rp
                 | None => Resolve r (in_Model input) (in_GroupID input)
                 end;
      let rate := clamp_rate (in_RateMultiplier input) in
      let breakdown :=
        if is_request_mode (rp_Mode resolved)
        then Ok (calculatePerRequestCost resolved input rate)
        else calculateTokenCost resolved input rate in
      let mode := mode_or_token (rp_Mode resolved) in
      Some (b <-? breakdown; Ok (set_billing_mode mode b))
  end.

(** [CalculateCostWithConfig] and [GetEstimatedCost] *)
Definition CalculateCostWithConfig (s : BillingService) (model : string) (tokens : UsageTokens) :=
  let multiplier := bs_DefaultRateMultiplier s in
  CalculateCost s model tokens (if multiplier ≤ᶠ f0 then f1 else multiplier).

Definition GetEstimatedCost (s : BillingService) (model : string)
    (estimatedInputTokens estimatedOutputTokens : Z) : res BillingError f64 :=
  b <-? CalculateCostWithConfig s model
          {| InputTokens := estimatedInputTokens; ImageInputTokens := 0;
             OutputTokens := estimatedOutputTokens; CacheCreationTokens := 0;
             CacheReadTokens := 0; CacheCreation5mTokens := 0; CacheCreation1hTokens := 0;
             ImageOutputTokens := 0 |};
  Ok (ActualCost b).

Definition IsModelSupported (model : string) : bool :=
  has (ToLower model) ["claude"; "opus"; "sonnet"; "haiku"].

(** What the upstream of a Gemini account reports, as the gateway counts it:
    [prompt - cached] tokens of input, without a clamp. *)
Definition extractGeminiUsage (prompt cand cached thoughts imageTokens : Z) : UsageTokens :=
  {| InputTokens := prompt -ᵢ cached; ImageInputTokens := 0; OutputTokens := cand +ᵢ thoughts;
     CacheCreationTokens := 0; CacheReadTokens := cached; CacheCreation5mTokens := 0;
     CacheCreation1hTokens := 0; ImageOutputTokens := imageTokens |}.

(** ** The split of a long context *)

(** Tokens within and beyond the threshold: (cache, input) for each range. *)
Definition split_long_context (tokens : UsageTokens) (threshold : Z) : (Z * Z) * (Z * Z) :=
  if threshold <=? CacheReadTokens tokens then
    ((threshold, 0), (CacheReadTokens tokens -ᵢ threshold, InputTokens tokens))
  else
    let inRangeInputTokens := threshold -ᵢ CacheReadTokens tokens in
    ((CacheReadTokens tokens, inRangeInputTokens),
     (0, InputTokens tokens -ᵢ inRangeInputTokens)).

Definition in_range_tokens (tokens : UsageTokens) (cache input : Z) : UsageTokens :=
  {| InputTokens := input; ImageInputTokens := 0; OutputTokens := OutputTokens tokens;
     CacheCreationTokens := CacheCreationTokens tokens; CacheReadTokens := cache;
     CacheCreation5mTokens := CacheCreation5mTokens tokens;
     CacheCreation1hTokens := CacheCreation1hTokens tokens;
     ImageOutputTokens := ImageOutputTokens tokens |}.
Definition out_range_tokens (cache input : Z) : UsageTokens :=
  {| InputTokens := input; ImageInputTokens := 0; OutputTokens := 0; CacheCreationTokens := 0;
     CacheReadTokens := cache; CacheCreation5mTokens := 0; CacheCreation1hTokens := 0;
     ImageOutputTokens := 0 |}.

(** [CalculateCostWithLongContext]; on an error of the second part the code
    returns the first breakdown together with the error, which its callers
    discard. *)
Definition CalculateCostWithLongContext (s : BillingService) (model : string)
    (tokens : UsageTokens) (rateMultiplier : f64) (threshold : Z) (extraMultiplier : f64)
  : res BillingError CostBreakdown :=
  if (threshold <=? 0) || (extraMultiplier ≤ᶠ f1) then CalculateCost s model tokens rateMultiplier
  else if CacheReadTokens tokens +ᵢ InputTokens tokens <=? threshold
  then CalculateCost s model tokens rateMultiplier
  else
    let '((inCache, inInput), (outCache, outInput)) := split_long_context tokens threshold in
    inRange <-? CalculateCost s model (in_range_tokens tokens inCache inInput) rateMultiplier;
    match CalculateCost s model (out_range_tokens outCache outInput)
            (rateMultiplier *ᶠ extraMultiplier) with
    | Err e => Err (OutRangeCost e)
    | Ok outRange =>
        Ok {| InputCost := InputCost inRange +ᶠ InputCost outRange;
              ImageInputCost := ImageInputCost inRange +ᶠ ImageInputCost outRange;
              OutputCost := OutputCost inRange; ImageOutputCost := ImageOutputCost inRange;
              CacheCreationCost := CacheCreationCost inRange;
              CacheReadCost := CacheReadCost inRange +ᶠ CacheReadCost outRange;
              TotalCost := TotalCost inRange +ᶠ TotalCost outRange;
              ActualCost := ActualCost inRange +ᶠ ActualCost outRange;
              cb_BillingMode := "";
              LongContextBillingApplied := f0 <ᶠ ActualCost outRange |}
    end.


(** ** Costs are never negative *)

Lemma clamp_rate_nonneg r : nonneg (clamp_rate r) = true.
Proof. unfold clamp_rate. rewrite nonneg_not_lt. by destruct (r <ᶠ f0) eqn:E; [|rewrite E]. Qed.

Lemma clamp_rate_idem r : clamp_rate (clamp_rate r) = clamp_rate r.
Proof. unfold clamp_rate. by destruct (r <ᶠ f0) eqn:E; [|rewrite E]. Qed.

Definition tokens_nonneg (t : UsageTokens) : Prop :=
  0 ≤ InputTokens t ∧ 0 ≤ ImageInputTokens t ∧ 0 ≤ OutputTokens t ∧
  0 ≤ CacheCreationTokens t ∧ 0 ≤ CacheReadTokens t ∧ 0 ≤ CacheCreation5mTokens t ∧
  0 ≤ CacheCreation1hTokens t ∧ 0 ≤ ImageOutputTokens t.

Definition units_nonneg (u : UnitPrices) : Prop :=
  nonneg (up_input u) = true ∧ nonneg (up_output u) = true ∧ nonneg (up_cacheRead u) = true ∧
  nonneg (up_cacheCreation u) = true ∧ nonneg (up_cacheCreationMultiplier u) = true ∧
  nonneg (up_tierMultiplier u) = true.

Definition cost_nonneg (b : CostBreakdown) : Prop :=
  forallb nonneg [InputCost b; ImageInputCost b; OutputCost b; ImageOutputCost b;
                  CacheCreationCost b; CacheReadCost b; TotalCost b; ActualCost b] = true.

Record prices_ok (p : ModelPricing) : Prop := {
  po_in : nonneg (InputPricePerToken p) = true;
  po_inp : nonneg (InputPricePerTokenPriority p) = true;
  po_img : nonneg (ImageInputPricePerToken p) = true;
  po_out : nonneg (OutputPricePerToken p) = true;
  po_outp : nonneg (OutputPricePerTokenPriority p) = true;
  po_cw : nonneg (CacheCreationPricePerToken p) = true;
  po_cwp : nonneg (CacheCreationPricePerTokenPriority p) = true;
  po_cr : nonneg (CacheReadPricePerToken p) = true;
  po_crp : nonneg (CacheReadPricePerTokenPriority p) = true;
  po_5m : nonneg (CacheCreation5mPrice p) = true;
  po_1h : nonneg (CacheCreation1hPrice p) = true;
  po_lin : nonneg (LongContextInputMultiplier p) = true;
  po_lout : nonneg (LongContextOutputMultiplier p) = true;
  po_imgo : nonneg (ImageOutputPricePerToken p) = true;
}.
#[local] Hint Resolve po_in po_inp po_img po_out po_outp po_cw po_cwp po_cr po_crp po_5m po_1h
  po_lin po_lout po_imgo : go_float.

Lemma pricing_nonneg_ok p : pricing_nonneg p = true → prices_ok p.
Proof.
  unfold pricing_nonneg. cbn [forallb]. intros Hp. split_andb_in Hp. by constructor.
Qed.

Lemma serviceTierCostMultiplier_nonneg t : nonneg (serviceTierCostMultiplier t) = true.
Proof.
  unfold serviceTierCostMultiplier. destruct (String.eqb _ _); [reflexivity|].
  by destruct (String.eqb _ _).
Qed.

Lemma tier_prices_nonneg p t : prices_ok p → units_nonneg (tier_prices p t).
Proof.
  intros Hp. unfold tier_prices. destruct (usePriorityServiceTierPricing t p); unfold units_nonneg;
    cbn [up_input up_output up_cacheRead up_cacheCreation up_cacheCreationMultiplier
         up_tierMultiplier];
    repeat (split; [split_ifs; auto with go_float|]);
    auto using serviceTierCostMultiplier_nonneg.
Qed.

Lemma long_context_nonneg p u :
  prices_ok p → units_nonneg u → units_nonneg (long_context_prices p u).
Proof.
  intros Hp (H1 & H2 & H3 & H4 & H5 & H6). unfold units_nonneg, long_context_prices.
  cbn [up_input up_output up_cacheRead up_cacheCreation up_cacheCreationMultiplier
       up_tierMultiplier].
  repeat (split; [auto with go_float|]). done.
Qed.

Lemma computeCacheCreationCost_nonneg p t price m :
  prices_ok p → tokens_nonneg t → nonneg price = true → nonneg m = true →
  nonneg (computeCacheCreationCost p t price m) = true.
Proof.
  intros Hp (? & ? & ? & ? & ? & ? & ? & ?) Hprice Hm. unfold computeCacheCreationCost.
  destruct (_ && (_ || _)); [destruct (_ && _)|]; auto 8 with go_float.
Qed.

Lemma input_costs_nonneg p t u :
  prices_ok p → tokens_nonneg t → units_nonneg u →
  nonneg (fst (input_costs p t u)) = true ∧ nonneg (snd (input_costs p t u)) = true.
Proof.
  intros Hp (? & ? & ? & ? & ? & ? & ? & ?) (Hu & _). unfold input_costs, split_input.
  destruct (0 <? ImageInputTokens t); cbn [fst snd]; [|auto with go_float].
  destruct (Z.ltb_spec (InputTokens t -ᵢ ImageInputTokens t) 0); cbn [fst snd];
    (split; [auto with go_float|]);
    split_ifs; auto with go_float.
Qed.

Lemma output_tokens_nonneg t : 0 ≤ text_output_tokens t.
Proof. unfold text_output_tokens. destruct (Z.ltb_spec (OutputTokens t -ᵢ ImageOutputTokens t) 0); lia. Qed.

Lemma image_output_cost_nonneg p t u :
  prices_ok p → tokens_nonneg t → units_nonneg u → nonneg (image_output_cost p t u) = true.
Proof.
  intros Hp (? & ? & ? & ? & ? & ? & ? & ?) (_ & Hu & _). unfold image_output_cost.
  destruct (0 <? _); [|done]. destruct (_ && _); auto with go_float.
Qed.

Lemma breakdown_nonneg p t rate u base :
  prices_ok p → tokens_nonneg t → units_nonneg u → nonneg rate = true →
  cost_nonneg (breakdown_of p t rate u base).
Proof.
  intros Hp Ht Hu Hr. unfold breakdown_of.
  destruct (input_costs_nonneg p t u Hp Ht Hu) as [Hic Hiic].
  destruct (input_costs p t u) as [ic iic]. simpl in Hic, Hiic.
  pose proof (image_output_cost_nonneg p t u Hp Ht Hu) as Hioc.
  pose proof Hu as (_ & Huo & Hucr & Hucc & Hum & Hut).
  pose proof (computeCacheCreationCost_nonneg p t _ _ Hp Ht Hucc Hum) as Hccc.
  assert (nonneg (f_of_int (text_output_tokens t) *ᶠ up_output u) = true) as Hoc
    by auto using output_tokens_nonneg with go_float.
  assert (nonneg (f_of_int (CacheReadTokens t) *ᶠ up_cacheRead u) = true) as Hcrc.
  { destruct Ht as (_ & _ & _ & _ & ? & _). auto with go_float. }
  set (oc := _ *ᶠ up_output u) in *. set (crc := _ *ᶠ up_cacheRead u) in *.
  set (ioc := image_output_cost p t u) in *. set (ccc := computeCacheCreationCost _ _ _ _) in *.
  set (scale := λ x, if negb (up_tierMultiplier u =ᶠ f1) then x *ᶠ up_tierMultiplier u else x).
  assert (∀ x, nonneg x = true → nonneg (scale x) = true) as Hscale
    by (intros x Hx; unfold scale; destruct (negb _); auto with go_float).
  unfold cost_nonneg.
  cbn [InputCost ImageInputCost OutputCost ImageOutputCost CacheCreationCost CacheReadCost
       TotalCost ActualCost forallb].
  fold (scale ic) (scale iic) (scale oc) (scale ioc) (scale ccc) (scale crc).
  split_andb; auto 10 with go_float.
Qed.

Lemma computeTokenBreakdown_nonneg p t rate tier b :
  pricing_nonneg p = true → tokens_nonneg t → cost_nonneg (computeTokenBreakdown p t rate tier b).
Proof.
  intros Hp%pricing_nonneg_ok Ht. unfold computeTokenBreakdown.
  pose proof (tier_prices_nonneg p tier Hp).
  destruct (b && _); apply breakdown_nonneg; auto using clamp_rate_nonneg, long_context_nonneg.
Qed.

Lemma calculatePerRequestCost_nonneg rp input rate :
  resolved_nonneg rp → nonneg rate = true → cost_nonneg (calculatePerRequestCost rp input rate).
Proof.
  intros Hrn Hr. unfold calculatePerRequestCost, cost_nonneg.
  assert (nonneg (request_unit_price rp input) = true) as Hup.
  { unfold request_unit_price. pose proof Hrn as [_ _ _ Hd _].
    destruct (request_prices_nonneg rp (total_context (in_Tokens input)) (in_SizeTier input) Hrn).
    cbv zeta. split_ifs; auto. }
  assert (0 ≤ (if in_RequestCount input <=? 0 then 1 else in_RequestCount input)) as Hc
    by (destruct (Z.leb_spec (in_RequestCount input) 0); lia).
  cbn [unit_cost InputCost ImageInputCost OutputCost ImageOutputCost
       CacheCreationCost CacheReadCost TotalCost ActualCost forallb].
  split_andb; auto with go_float.
Qed.

Lemma calculateTokenCost_nonneg rp input rate b :
  resolved_nonneg rp → tokens_nonneg (in_Tokens input) →
  calculateTokenCost rp input rate = Ok b → cost_nonneg b.
Proof.
  intros Hrn Ht. unfold calculateTokenCost.
  destruct (GetIntervalPricing _ _) as [p|] eqn:Hp; [|done]. intros [= <-].
  apply computeTokenBreakdown_nonneg; [|done].
  eapply pricing_nonneg_policy, GetIntervalPricing_nonneg; eauto.
Qed.

(** C29: a request whose token counts are not negative is never charged a
    negative amount.  When the dynamic price list has no negative entry and every
    channel row passed validation, every component of the cost, the total and the
    charged amount are not negative: in every billing mode, with the resolver's
    own prices or prices it resolved before, or without a resolver, for every
    service tier and whatever (possibly corrupt) rate multiplier is stored.  The
    token counts are what the upstream reported; [overcached_charge] is one that
    is negative. *)
Theorem unified_cost_nonneg rate src lookup input b :
  let resolver := {| channelService := lookup; billingService := NewBillingService rate src |} in
  source_nonneg src →
  (∀ look n g m ch, lookup = Some look → look n g m = Some ch →
     ∃ platforms rows, validatePricingEntries platforms rows = Ok () ∧ ch ∈ rows) →
  (∀ r, in_Resolver input = Some r → r = resolver) →
  (∀ rp, in_Resolved input = Some rp → ∃ model groupID, Resolve resolver model groupID = Some rp) →
  tokens_nonneg (in_Tokens input) →
  CalculateCostUnified (NewBillingService rate src) input = Some (Ok b) →
  cost_nonneg b.
Proof.
  intros resolver Hsrc Hrows Hr Hpre Ht Hb. unfold CalculateCostUnified in Hb.
  destruct (in_Resolver input) as [r|]; [rewrite (Hr r eq_refl) in Hb|].
  2: { unfold calculateCostInternalWithPolicy in Hb.
       destruct (GetModelPricing _ _) as [p|] eqn:Ep; [|done]. injection Hb as <-.
       apply computeTokenBreakdown_nonneg; [|done]. by eapply GetModelPricing_nonneg. }
  assert (∀ model groupID rp, Resolve resolver model groupID = Some rp → resolved_nonneg rp) as Hnn.
  { intros model groupID rp Hrp. eapply Resolve_nonneg; [exact Hsrc| |exact Hrp]. intros look n g m ch Hl Hch.
    destruct (Hrows look n g m ch Hl Hch) as (platforms & rows & Hv & Hin).
    by eapply validated_row_nonneg. }
  match type of Hb with (?pre ≫= _) = _ => destruct pre as [rp|] eqn:Hrp end; [|done].
  change (Some rp ≫= ?f) with (f rp) in Hb. cbv beta in Hb.
  assert (resolved_nonneg rp) as Hrn.
  { destruct (in_Resolved input) as [rp'|]; [|by eapply Hnn].
    injection Hrp as ->. destruct (Hpre rp eq_refl) as (m & g & E). by eapply Hnn. }
  injection Hb as Hb. pose proof (clamp_rate_nonneg (in_RateMultiplier input)) as Hrate.
  destruct (is_request_mode _).
  - injection Hb as <-. by apply (calculatePerRequestCost_nonneg rp input).
  - destruct (calculateTokenCost _ _ _) as [b'|] eqn:Hb'; [|done]. injection Hb as <-.
    by apply (calculateTokenCost_nonneg rp input _ b') in Hb'.
Qed.

(** ** The long-context surcharge *)

Lemma breakdown_actual p t rate u base :
  ActualCost (breakdown_of p t rate u base) = ActualCost (breakdown_of p t rate u None).
Proof. unfold breakdown_of. by destruct (input_costs p t u). Qed.

(** The long-context flag on a usage record tells the truth: it is set
    exactly when the surcharge was allowed, the input (with cache writes and
    reads) was above the model's threshold, and the request therefore cost
    more than the same request without the surcharge. *)
Theorem long_context_flag_exact p t rate tier allowed :
  let with_surcharge := computeTokenBreakdown p t rate tier allowed in
  let without := computeTokenBreakdown p t rate tier false in
  LongContextBillingApplied with_surcharge =
  allowed && shouldApplySessionLongContextPricing t p
  && (ActualCost without <ᶠ ActualCost with_surcharge).
Proof.
  intros with_surcharge without. subst with_surcharge without.
  unfold computeTokenBreakdown. rewrite clamp_rate_idem. simpl.
  destruct (allowed && shouldApplySessionLongContextPricing t p); simpl.
  - rewrite (breakdown_actual p t _ (long_context_prices _ _)).
    unfold breakdown_of at 1. destruct (input_costs p t (long_context_prices _ _)) eqn:E.
    simpl. unfold breakdown_of at 3. by rewrite E.
  - unfold breakdown_of. by destruct (input_costs _ _ _).
Qed.

(** a rate multiplier of zero or below (a value the admin UI rejects but a
    cache or a migration can leave behind) charges nothing, instead of charging
    the full price or crediting the user. *)
Theorem nonpositive_rate_is_free p t rate tier b :
  (rate ≤ᶠ f0) = true →
  f_finite (TotalCost (computeTokenBreakdown p t rate tier b)) = true →
  (ActualCost (computeTokenBreakdown p t rate tier b) =ᶠ f0) = true.
Proof.
  intros Hrate Hfin. rewrite <-f_is_zero_feq.
  assert (f_is_zero (clamp_rate rate) = true) as Hz.
  { unfold clamp_rate. destruct rate as [[]|[]| |[] m e]; try done. }
  assert (∀ u base, TotalCost (breakdown_of p t (clamp_rate rate) u base) *ᶠ clamp_rate rate
                    = ActualCost (breakdown_of p t (clamp_rate rate) u base)) as Hact
    by (intros u base; unfold breakdown_of; by destruct (input_costs p t u)).
  unfold computeTokenBreakdown in *. destruct (b && _); rewrite <-Hact; by apply fmul_zero.
Qed.

(** ** The long-context split *)

(** [CalculateCostWithLongContext] splits without losing or counting a
    token twice: the range within the threshold holds exactly [threshold]
    input tokens (cache reads first), the two ranges add up to the request,
    and no part is negative. *)
Theorem split_long_context_partition t threshold inCache inInput outCache outInput :
  0 < threshold → 0 ≤ InputTokens t → 0 ≤ CacheReadTokens t →
  CacheReadTokens t + InputTokens t ≤ max_int64 →
  threshold < CacheReadTokens t +ᵢ InputTokens t →
  split_long_context t threshold = ((inCache, inInput), (outCache, outInput)) →
  inCache + outCache = CacheReadTokens t ∧ inInput + outInput = InputTokens t ∧
  inCache + inInput = threshold ∧
  0 ≤ inCache ∧ 0 ≤ inInput ∧ 0 ≤ outCache ∧ 0 ≤ outInput ∧ 0 < outCache + outInput.
Proof.
  intros Hthr Hi Hc Hmax Htot. rewrite wrap64_id in Htot by (unfold in_int64, min_int64; lia).
  unfold split_long_context, max_int64 in *.
  destruct (Z.leb_spec threshold (CacheReadTokens t)); intros [= <- <- <- <-];
    rewrite !wrap64_id by
      (rewrite ?wrap64_id; unfold in_int64, min_int64, max_int64; lia); lia.
Qed.

(** ** The two entries *)

Lemma fill_idem {A} (f : bool) (bad : A → bool) (x v : A) :
  (if f && bad (if f && bad x then v else x) then v else if f && bad x then v else x) =
  (if f && bad x then v else x).
Proof. destruct f; simpl; [|done]. destruct (bad x) eqn:E; by rewrite ?E; destruct (bad v). Qed.

Lemma policy_idem model p :
  applyModelSpecificPricingPolicy model (applyModelSpecificPricingPolicy model p) =
  applyModelSpecificPricingPolicy model p.
Proof.
  unfold applyModelSpecificPricingPolicy at 2 3. cbv zeta.
  destruct (negb (isOpenAIGPT56Model _) && _) eqn:E1.
  { unfold applyModelSpecificPricingPolicy. cbv zeta. by rewrite E1. }
  destruct (negb _ && negb (_ && _ && _)) eqn:E2.
  { unfold applyModelSpecificPricingPolicy. cbv zeta. by rewrite E1, E2. }
  set (q := Build_ModelPricing _ _ _ _ _ _ _ _ _ _ _ _ _ _ _ _ _ _).
  unfold applyModelSpecificPricingPolicy. cbv zeta. rewrite E1. clear E1 E2.
  match goal with |- context [if ?c then q else _] => destruct c end; [done|].
  subst q.
  cbn [InputPricePerToken InputPricePerTokenPriority ImageInputPricePerToken
      OutputPricePerToken OutputPricePerTokenPriority CacheCreationPricePerToken
      CacheCreationPricePerTokenPriority CacheReadPricePerToken CacheReadPricePerTokenPriority
      CacheCreation5mPrice CacheCreation1hPrice LongContextInputMultiplier
      LongContextOutputMultiplier ImageOutputPricePerToken CacheCreationPriceExplicit
      SupportsCacheBreakdown LongContextInputThreshold ImageOutputPriceExplicit].
  f_equal.
  - apply (fill_idem _ (λ x, x ≤ᶠ f0)).
  - apply (fill_idem _ (λ x, x ≤ᶠ f0)).
  - apply (fill_idem true (λ x, x <=? 0)).
  - apply (fill_idem true (λ x, x ≤ᶠ f0)).
  - apply (fill_idem true (λ x, x ≤ᶠ f0)).
Qed.

Lemma computeTokenBreakdown_clamp p t rate tier b :
  computeTokenBreakdown p t (clamp_rate rate) tier b = computeTokenBreakdown p t rate tier b.
Proof. unfold computeTokenBreakdown. by rewrite !clamp_rate_idem. Qed.

(** The two billing entries agree: a request without channel is charged
    the same through the resolver as through the older path that has none (the
    per-model policy applied twice is the policy applied once); only the mode
    label is added. *)
Theorem unified_agrees_with_legacy s input r :
  in_Resolver input = Some r → billingService r = s →
  in_Resolved input = None → in_GroupID input = None →
  ToLower (in_Model input) = in_Model input →
  CalculateCostUnified s input =
  Some (b <-? calculateCostInternalWithPolicy s (in_Model input) (in_Tokens input)
                (in_RateMultiplier input) (in_ServiceTier input) None
                (default true (in_LongContextBillingEnabled input));
        Ok (set_billing_mode BillingModeToken b)).
Proof.
  intros Hr Hs Hres Hg Hlow. unfold CalculateCostUnified. rewrite Hr, Hres, Hg.
  change (Some ?x ≫= ?f) with (f x). cbv beta.
  unfold calculateCostInternalWithPolicy, calculateTokenCost, Resolve, resolved_base,
    resolveBasePricing, GetIntervalPricing. rewrite Hs.
  assert (∀ p, GetModelPricing s (in_Model input) = Ok p →
               applyModelSpecificPricingPolicy (in_Model input) p = p) as Hidem.
  { intros p. unfold GetModelPricing. rewrite Hlow. cbv zeta.
    destruct (bs_pricingService s ≫= _); [intros [= <-]; apply policy_idem|].
    destruct (getFallbackPricing _ _); [intros [= <-]; apply policy_idem|done]. }
  assert (∀ e, GetModelPricing s (in_Model input) = Err e →
               e = ErrModelPricingUnavailable (in_Model input)) as Herr.
  { intros e. unfold GetModelPricing. rewrite Hlow. cbv zeta.
    destruct (bs_pricingService s ≫= _); [done|].
    destruct (getFallbackPricing _ _); [done|]. by intros [= <-]. }
  destruct (GetModelPricing s (in_Model input)) as [p|e].
  - cbn -[computeTokenBreakdown applyModelSpecificPricingPolicy clamp_rate default].
    by rewrite computeTokenBreakdown_clamp, Hidem.
  - by rewrite (Herr e eq_refl).
Qed.

End Billing.

(** ** Witnesses *)

#[local] Existing Instance ascii_text.

Definition sample_tokens (input cached output : Z) : UsageTokens :=
  {| InputTokens := input; ImageInputTokens := 0; OutputTokens := output;
     CacheCreationTokens := 0; CacheReadTokens := cached; CacheCreation5mTokens := 0;
     CacheCreation1hTokens := 0; ImageOutputTokens := 0 |}.

Definition sample_flat_row : ChannelModelPricing :=
  {| cp_Platform := "openai"; cp_Models := ["gpt-5.4"]; cp_BillingMode := "";
     cp_InputPrice := Some (f_dec 1 6); cp_OutputPrice := None; cp_CacheWritePrice := None;
     cp_CacheReadPrice := None; cp_ImageInputPrice := None; cp_ImageOutputPrice := None;
     cp_PerRequestPrice := None; cp_Intervals := [] |}.

Definition sample_lookup : ChannelLookup := λ _ _ _, Some sample_flat_row.
Definition sample_service : BillingService := NewBillingService f1 None.

Definition sample_input (groupID : option Z) (rate : f64) : CostInput :=
  {| in_Model := "gpt-5.4"; in_GroupID := groupID; in_Tokens := sample_tokens 300000 0 100;
     in_RequestCount := 1; in_SizeTier := ""; in_RateMultiplier := rate;
     in_ServiceTier := ""; 
     in_Resolver := Some {| channelService := Some sample_lookup;
                            billingService := sample_service |};
     in_Resolved := None; in_LongContextBillingEnabled := None |}.

(** A stored multiplier of -1 charges a channel request nothing negative, with
    prices resolved for it before. *)
Definition resolved_input : CostInput :=
  {| in_Model := "gpt-5.4"; in_GroupID := Some 1; in_Tokens := sample_tokens 300000 0 100;
     in_RequestCount := 1; in_SizeTier := ""; in_RateMultiplier := f_of_int (-1); in_ServiceTier := "";
     in_Resolver := Some {| channelService := Some sample_lookup; billingService := sample_service |};
     in_Resolved := Resolve {| channelService := Some sample_lookup; billingService := sample_service |}
                      "gpt-5.4" (Some 1);
     in_LongContextBillingEnabled := None |}.
Lemma unified_cost_nonneg_witness :
  match CalculateCostUnified sample_service resolved_input with
  | Some (Ok b) => cost_nonneg b
  | _ => False
  end.
Proof.
  destruct (CalculateCostUnified sample_service resolved_input) as [[b|e]|] eqn:E.
  - apply (unified_cost_nonneg f1 None (Some sample_lookup) resolved_input b).
    + intros src m l Hsrc. discriminate.
    + intros look n g m ch [= <-] [= <-]. exists ["openai"], [sample_flat_row].
      split; [vm_compute; reflexivity|left].
    + intros r Hr. injection Hr as <-. reflexivity.
    + intros rp Hrp. exists "gpt-5.4", (Some 1). exact Hrp.
    + vm_compute. repeat split; discriminate.
    + exact E.
  - vm_compute in E. discriminate.
  - vm_compute in E. discriminate.
Defined.

(** An upstream that reports more cached tokens than tokens of the prompt: the
    charge is negative. *)
Example overcached_charge :
  match CalculateCost sample_service "gemini-3.1-pro" (extractGeminiUsage 100 10 4000 0 0) f1 with
  | Ok b => ActualCost b <ᶠ f0
  | Err _ => false
  end = true.
Proof. vm_compute. reflexivity. Qed.

Lemma nonpositive_rate_is_free_witness :
  (ActualCost (computeTokenBreakdown ModelPricing_zero (sample_tokens 10 0 10) (f_of_int (-2)) "" true)
   =ᶠ f0) = true.
Proof. apply nonpositive_rate_is_free; vm_compute; reflexivity. Defined.

Lemma split_long_context_partition_witness :
  200000 + 10000 = 210000 ∧ 0 + 10000 = 10000 ∧ 200000 + 0 = 200000 ∧
  0 ≤ 200000 ∧ 0 ≤ 0 ∧ 0 ≤ 10000 ∧ 0 ≤ 10000 ∧ 0 < 10000 + 10000.
Proof.
  apply (split_long_context_partition (sample_tokens 10000 210000 5) 200000 200000 0 10000 10000);
    vm_compute; (reflexivity || discriminate).
Defined.

Lemma unified_agrees_with_legacy_witness :
  CalculateCostUnified sample_service (sample_input None f1) =
  Some (b <-? calculateCostInternalWithPolicy sample_service "gpt-5.4" (sample_tokens 300000 0 100)
                f1 "" None true;
        Ok (set_billing_mode BillingModeToken b)).
Proof.
  apply (unified_agrees_with_legacy sample_service (sample_input None f1)
           {| channelService := Some sample_lookup; billingService := sample_service |});
    reflexivity.
Defined.

Lemma channel_image_price_no_leak_witness :
  match Resolve {| channelService := Some sample_lookup; billingService := sample_service |}
          "gpt-5.4" (Some 1) with
  | Some rp => match GetIntervalPricing rp 5 with
               | Some p => ImageOutputPricePerToken p = f0
               | None => False
               end
  | None => False
  end.
Proof.
  destruct (Resolve {| channelService := Some sample_lookup; billingService := sample_service |}
              "gpt-5.4" (Some 1)) as [rp|] eqn:E; [|vm_compute in E; discriminate E].
  destruct (GetIntervalPricing rp 5) as [p|] eqn:Ep.
  - apply (channel_image_price_no_leak
             {| channelService := Some sample_lookup; billingService := sample_service |}
             1 "gpt-5.4" sample_flat_row rp 5 p).
    + split; [exact E|]. vm_compute in E. injection E as <-. reflexivity.
    + vm_compute in E. injection E as <-. reflexivity.
    + exact Ep.
  - vm_compute in E. injection E as <-. discriminate Ep.
Defined.

Lemma flat_prices_agree_witness :
  (rp ← Resolve {| channelService := Some sample_lookup; billingService := sample_service |}
          "gpt-5.4" (Some 1);
   GetIntervalPricing rp 300000) =
  match GetModelPricingWithChannel sample_service "gpt-5.4" (Some sample_flat_row) with
  | Ok p => Some p
  | Err _ => None
  end.
Proof.
  destruct (GetModelPricingWithChannel sample_service "gpt-5.4" (Some sample_flat_row))
    as [p|e] eqn:E.
  - apply (flat_prices_agree sample_service sample_lookup 1 "gpt-5.4" sample_flat_row p 300000);
      [reflexivity..|exact E].
  - vm_compute in E. discriminate.
Defined.
