(* ===== verification/UsageDB.v ===== *)
(** * The billing tables

    What the billing transactions of
    [src/backend/internal/repository/usage_billing_repo.go] read and write: the
    columns of [users], [user_subscriptions], [groups], [api_keys] and
    [accounts] they touch, the deduplication tables and the scheduler outbox;
    PostgreSQL's [decimal] columns; and transactions in which any statement can
    fail.

    A [decimal(20,8)] value is an integer number of 1e-8; a statement computes
    with exact numerics (rationals) and the result is rounded half away from
    zero when it is stored, which fails when it has more than 20 digits. *)

From Stdlib Require Import ZArith Lia QArith Bool.
From stdpp Require Import base numbers option list gmap strings.
From S2P Require Import Prelude GoStrings GoFloat.

#[local] Open Scope Z_scope.

(** ** Numerics *)

(** Rounding of a rational to an integer, halves away from zero. *)
Definition round_half_away (q : Q) : Z :=
  Z.sgn (Qnum q) * ((2 * Z.abs (Qnum q) + QDen q) / (2 * QDen q)).

(** The value of a stored decimal with scale [10^k]. *)
Definition dec (k : positive) (z : Z) : Q := z # k.
Definition scale8 : positive := 100000000.
Definition scale10 : positive := 10000000000.
Definition store (k : positive) (q : Q) : option Z :=
  let r := round_half_away (q * (Z.pos k # 1))%Q in
  if Z.abs r <? 10 ^ 20 then Some r else None.

Definition Qltb (x y : Q) : bool := negb (Qle_bool y x).

(** How a Go [float64] argument reaches PostgreSQL and a numeric comes back:
    the driver sends the shortest decimal that denotes the float and parses the
    answer to the nearest float.  The code relies on positive amounts staying positive. *)
Class PgFloat := {
  num : f64 → Q;
  scan : Q → f64;
}.
Class PgFloatLaws `{PgFloat} := {
  num_pos : ∀ x, f_finite x = true → (f0 <ᶠ x) = true → Qltb 0 (num x) = true;
}.

(** ** Rows *)

Record UserRow := {
  u_balance : Z;            (* decimal(20,8) *)
  u_frozen : option Z;      (* decimal(20,8), read through COALESCE(_, 0) *)
  u_deleted : bool;
}.

Record SubscriptionRow := {
  s_group : Z;
  s_daily : Z;              (* decimal(20,10) *)
  s_weekly : Z;
  s_monthly : Z;
  s_deleted : bool;
}.

Record APIKeyRow := {
  k_quota : Z;              (* decimal(20,8), 0 = unlimited *)
  k_quota_used : Z;
  k_status : string;
  k_usage_5h : Z;
  k_usage_1d : Z;
  k_usage_7d : Z;
  k_window_5h : option time;
  k_window_1d : option time;
  k_window_7d : option time;
  k_deleted : bool;
}.

(** One quota period of [accounts.extra]: JSON numbers are exact. *)
Record QuotaPeriod := {
  q_limit : option Q;
  q_used : option Q;
  q_fixed : bool;           (* reset mode is 'fixed' *)
  q_start : option time;
  q_reset_at : option time;
}.

Record AccountRow := {
  a_quota_used : option Q;
  a_quota_limit : option Q;
  a_daily : QuotaPeriod;
  a_weekly : QuotaPeriod;
  a_deleted : bool;
}.

Abbreviation dedup_key := (string * Z)%type.

Record DB := {
  users : gmap Z UserRow;
  groups : gmap Z bool;     (* deleted? *)
  subscriptions : gmap Z SubscriptionRow;
  api_keys : gmap Z APIKeyRow;
  accounts : gmap Z AccountRow;
  dedup : gmap dedup_key string;
  archive : gmap dedup_key string;
  outbox : list Z;          (* account-changed events *)
}.

Definition set_users (f : gmap Z UserRow → gmap Z UserRow) (d : DB) : DB :=
  {| users := f (users d); groups := groups d; subscriptions := subscriptions d;
     api_keys := api_keys d; accounts := accounts d; dedup := dedup d; archive := archive d;
     outbox := outbox d |}.
Definition set_subscriptions (f : gmap Z SubscriptionRow → gmap Z SubscriptionRow) (d : DB) : DB :=
  {| users := users d; groups := groups d; subscriptions := f (subscriptions d);
     api_keys := api_keys d; accounts := accounts d; dedup := dedup d; archive := archive d;
     outbox := outbox d |}.
Definition set_api_keys (f : gmap Z APIKeyRow → gmap Z APIKeyRow) (d : DB) : DB :=
  {| users := users d; groups := groups d; subscriptions := subscriptions d;
     api_keys := f (api_keys d); accounts := accounts d; dedup := dedup d; archive := archive d;
     outbox := outbox d |}.
Definition set_accounts (f : gmap Z AccountRow → gmap Z AccountRow) (d : DB) : DB :=
  {| users := users d; groups := groups d; subscriptions := subscriptions d;
     api_keys := api_keys d; accounts := f (accounts d); dedup := dedup d; archive := archive d;
     outbox := outbox d |}.
Definition set_dedup (f : gmap dedup_key string → gmap dedup_key string) (d : DB) : DB :=
  {| users := users d; groups := groups d; subscriptions := subscriptions d;
     api_keys := api_keys d; accounts := accounts d; dedup := f (dedup d); archive := archive d;
     outbox := outbox d |}.
Definition set_archive (f : gmap dedup_key string → gmap dedup_key string) (d : DB) : DB :=
  {| users := users d; groups := groups d; subscriptions := subscriptions d;
     api_keys := api_keys d; accounts := accounts d; dedup := dedup d; archive := f (archive d);
     outbox := outbox d |}.
Definition add_outbox (a : Z) (d : DB) : DB :=
  {| users := users d; groups := groups d; subscriptions := subscriptions d;
     api_keys := api_keys d; accounts := accounts d; dedup := dedup d; archive := archive d;
     outbox := outbox d ++ [a] |}.

(** ** Transactions *)

Inductive UBError :=
| ErrUsageBillingRequestIDRequired
| ErrUsageBillingRequestConflict
| ErrSubscriptionNotFound
| ErrUserNotFound
| ErrAPIKeyNotFound
| ErrAccountNotFound
| ErrBatchImageInsufficientBalance
| ErrBatchImageSettlementCostExceedsHold
| ErrFrozenBalanceInsufficient
| ErrSQL.

(** A statement fails when its bit in the list of faults is set (or for a
    reason of its own); statements beyond the list succeed. *)
Definition tx (A : Type) : Type := DB * list bool → res UBError (A * (DB * list bool)).

Definition tx_ret {A} (a : A) : tx A := λ s, Ok (a, s).
Definition tx_bind {A B} (m : tx A) (k : A → tx B) : tx B :=
  λ s, match m s with Ok (a, s') => k a s' | Err e => Err e end.
Definition tx_fail {A} (e : UBError) : tx A := λ _, Err e.

Notation "x <-tx m ; k" := (tx_bind m (λ x, k))
  (at level 100, m at level 99, k at level 200, right associativity) : go_scope.

(** One SQL statement. *)
Definition stmt {A} (f : DB → res UBError (A * DB)) : tx A :=
  λ s, match snd s with
       | true :: _ => Err ErrSQL
       | _ => match f (fst s) with
              | Ok (a, d) => Ok (a, (d, tail (snd s)))
              | Err e => Err e
              end
       end.

(** A statement that only reads. *)
Definition query {A} (f : DB → A) : tx A := stmt (λ d, Ok (f d, d)).

(** How a transaction ends: [COMMIT] succeeds, or reports an error with or
    without having taken effect (a lost connection). *)
Inductive CommitFate := CommitOk | CommitFailed | CommitUnknown.

Record Faults := {
  fault_begin : bool;
  fault_stmts : list bool;
  fault_commit : CommitFate;
}.
Definition no_faults : Faults :=
  {| fault_begin := false; fault_stmts := []; fault_commit := CommitOk |}.

(** [BeginTx], the body, and [Commit]; an error and a body that answers without
    committing roll everything back. *)
Inductive TxEnd (A : Type) := Commit (a : A) | Rollback (a : A).
Arguments Commit {A} a.
Arguments Rollback {A} a.

Definition run_tx {A} (body : tx (TxEnd A)) (fl : Faults) (d : DB) : DB * res UBError A :=
  if fault_begin fl then (d, Err ErrSQL)
  else
    match body (d, fault_stmts fl) with
    | Err e => (d, Err e)
    | Ok (Rollback a, _) => (d, Ok a)
    | Ok (Commit a, (d', _)) =>
        match fault_commit fl with
        | CommitOk => (d', Ok a)
        | CommitFailed => (d, Err ErrSQL)
        | CommitUnknown => (d', Err ErrSQL)
        end
    end.

(** ** Facts about numerics *)

Lemma round_half_away_proper p q : (p == q)%Q → round_half_away p = round_half_away q.
Proof.
  destruct p as [n1 d1], q as [n2 d2]. unfold Qeq, round_half_away. simpl. intros Heq.
  assert (Z.sgn n1 = Z.sgn n2) as ->.
  { assert (Z.sgn (n1 * Z.pos d2) = Z.sgn (n2 * Z.pos d1)) as Hs by (by rewrite Heq).
    rewrite !Z.sgn_mul in Hs. by rewrite !(Z.sgn_pos (Z.pos _)), !Z.mul_1_r in Hs by lia. }
  f_equal. assert (Z.abs n1 * Z.pos d2 = Z.abs n2 * Z.pos d1) as Habs.
  { assert (Z.abs (n1 * Z.pos d2) = Z.abs (n2 * Z.pos d1)) as Hs by (by rewrite Heq).
    by rewrite !Z.abs_mul in Hs. }
  rewrite <-(Z.div_mul_cancel_r (2 * Z.abs n1 + Z.pos d1) (2 * Z.pos d1) (Z.pos d2)) by lia.
  rewrite <-(Z.div_mul_cancel_r (2 * Z.abs n2 + Z.pos d2) (2 * Z.pos d2) (Z.pos d1)) by lia.
  f_equal; nia.
Qed.

Lemma round_half_away_int z : round_half_away (z # 1) = z.
Proof.
  unfold round_half_away. simpl. replace (2 * Z.abs z + 1) with (1 + Z.abs z * 2) by lia.
  rewrite Z.div_add by lia. change (1 / 2) with 0.
  rewrite Z.add_0_l, Z.mul_comm. apply Z.abs_sgn.
Qed.

Lemma round_half_away_nonneg q : (0 <= q)%Q → 0 ≤ round_half_away q.
Proof.
  destruct q as [n d]. unfold Qle, round_half_away. simpl. intros Hn.
  assert (0 ≤ n) by lia. assert (0 ≤ (2 * Z.abs n + Z.pos d) / (2 * Z.pos d))
    by (apply Z.div_pos; lia). lia.
Qed.

(** A value that fits the scale is stored exactly. *)
Lemma store_exact k z : Z.abs z < 10 ^ 20 → store k (dec k z) = Some z.
Proof.
  intros Hz. unfold store. rewrite (round_half_away_proper _ (z # 1)).
  - rewrite round_half_away_int. by apply Z.ltb_lt in Hz as ->.
  - unfold Qeq. simpl. lia.
Qed.

Lemma store_proper k p q : (p == q)%Q → store k p = store k q.
Proof.
  intros Heq. unfold store. rewrite (round_half_away_proper _ (q * (Z.pos k # 1))); [done|].
  by rewrite Heq.
Qed.

Lemma store_exact_inv k q z r : (q == dec k z)%Q → store k q = Some r → r = z.
Proof.
  intros Heq. unfold store. rewrite (round_half_away_proper _ (z # 1)).
  - rewrite round_half_away_int. destruct (_ <? _); [|done]. by intros [= <-].
  - rewrite Heq. unfold Qeq. simpl. lia.
Qed.

Lemma store_nonneg k q z : (0 <= q)%Q → store k q = Some z → 0 ≤ z.
Proof.
  intros Hq. unfold store. destruct (_ <? _); [|done]. intros [= <-].
  apply round_half_away_nonneg. apply Qmult_le_0_compat; [done|]. unfold Qle. simpl. lia.
Qed.

Lemma dec_plus k a b : (dec k a + dec k b == dec k (a + b))%Q.
Proof. unfold dec, Qeq, Qplus. simpl. lia. Qed.
Lemma dec_minus k a b : (dec k a - dec k b == dec k (a - b))%Q.
Proof. unfold dec, Qeq, Qminus, Qplus, Qopp. simpl. lia. Qed.
Lemma dec_le k a b : (dec k a <= dec k b)%Q ↔ a ≤ b.
Proof. unfold dec, Qle. simpl. nia. Qed.

Lemma Qltb_iff x y : Qltb x y = true ↔ (x < y)%Q.
Proof.
  unfold Qltb. rewrite negb_true_iff, <-not_true_iff_false, Qle_bool_iff.
  split; [apply Qnot_le_lt|apply Qlt_not_le].
Qed.

(** ** Facts about transactions *)

(** The new state of a transaction is the old one or the one its body made. *)
Lemma run_tx_cases {A} (body : tx (TxEnd A)) fl d d' r :
  run_tx body fl d = (d', r) →
  d' = d ∨ ∃ a fs, body (d, fault_stmts fl) = Ok (Commit a, (d', fs)).
Proof.
  unfold run_tx. destruct (fault_begin fl); [intros [= <- <-]; by left|].
  destruct (body _) as [[[a|a] [d1 fs]]|e] eqn:E; [|intros [= <- <-]; by left..].
  destruct (fault_commit fl); intros [= <- <-]; eauto.
Qed.
