(* ===== verification/UsageBilling.v ===== *)
(** * Applying a charge at most once

    [src/backend/internal/service/usage_billing.go],
    [batch_image_billing_hold.go] and
    [src/backend/internal/repository/usage_billing_repo.go]: a charge is a
    transaction that first claims the request in [usage_billing_dedup] and then
    books the cost on the subscription, the balance, the API key and the
    account; batch-image jobs reserve an amount of the balance and later capture
    or release it through the same claim.  The dedup rows are moved to an
    archive table by [CleanupUsageBillingDedup]
    ([dashboard_aggregation_repo.go]). *)

From Stdlib Require Import ZArith Lia QArith Bool String.
From stdpp Require Import base numbers option list gmap strings pretty.
From S2P Require Import Prelude GoStrings GoFloat UsageDB.

#[local] Open Scope Z_scope.

(** SHA-256 in hexadecimal and the [%0.10f] verb. *)
Class GoHash := {
  sha256_hex : string → string;
  fmt_f10 : f64 → string;
}.

(** PostgreSQL's calendar: the start of the day in the session's time zone, and
    the next reset point of an account's daily and weekly quota in the zone and
    at the hour it configures. *)
Class PgClock := {
  trunc_day : time → time;
  next_daily_reset : AccountRow → time → time;
  next_weekly_reset : AccountRow → time → time;
}.

Record UsageBillingCommand := {
  RequestID : string;
  APIKeyID : Z;
  RequestFingerprint : string;
  RequestPayloadHash : string;
  UserID : Z;
  AccountID : Z;
  SubscriptionID : option Z;
  AccountType : string;
  cmd_Model : string;
  cmd_ServiceTier : string;
  ReasoningEffort : string;
  BillingType : Z;
  cmd_InputTokens : Z;
  cmd_OutputTokens : Z;
  cmd_CacheCreationTokens : Z;
  cmd_CacheReadTokens : Z;
  ImageCount : Z;
  MediaType : string;
  BalanceCost : f64;
  SubscriptionCost : f64;
  APIKeyQuotaCost : f64;
  APIKeyRateLimitCost : f64;
  AccountQuotaCost : f64;
}.

Record BatchImageBalanceHoldCommand := {
  h_RequestID : string;
  h_APIKeyID : Z;
  h_RequestFingerprint : string;
  h_RequestPayloadHash : string;
  h_UserID : Z;
  h_BatchID : string;
  h_HoldAmount : f64;
  h_ActualAmount : f64;
}.

Record AccountQuotaState := {
  TotalUsed : f64; TotalLimit : f64;
  DailyUsed : f64; DailyLimit : f64;
  WeeklyUsed : f64; WeeklyLimit : f64;
}.

Record UsageBillingApplyResult := {
  Applied : bool;
  APIKeyQuotaExhausted : bool;
  NewBalance : option f64;
  BalanceOverdrafted : bool;
  QuotaState : option AccountQuotaState;
}.

Record HoldResult := {
  h_Applied : bool;
  h_NewBalance : option f64;
  h_FrozenBalance : option f64;
}.

Definition StatusAPIKeyActive : string := "active".
Definition StatusAPIKeyQuotaExhausted : string := "quota_exhausted".
Definition AccountTypeAPIKey : string := "apikey".
Definition AccountTypeBedrock : string := "bedrock".

Section UsageBilling.
Context `{GoText} `{GoHash} `{PgFloat} `{PgClock}.

(** ** Fingerprints *)

Definition with_payload (raw payloadHash : string) : string :=
  if String.eqb (TrimSpace payloadHash) "" then raw else raw +:+ "|" +:+ TrimSpace payloadHash.

Definition buildUsageBillingFingerprint (c : UsageBillingCommand) : string :=
  let raw := Join
    [pretty (UserID c); pretty (AccountID c); pretty (APIKeyID c);
     TrimSpace (AccountType c); TrimSpace (cmd_Model c); TrimSpace (cmd_ServiceTier c);
     TrimSpace (ReasoningEffort c); pretty (BillingType c);
     pretty (cmd_InputTokens c); pretty (cmd_OutputTokens c);
     pretty (cmd_CacheCreationTokens c); pretty (cmd_CacheReadTokens c);
     pretty (ImageCount c); TrimSpace (MediaType c); pretty (default 0 (SubscriptionID c));
     fmt_f10 (BalanceCost c); fmt_f10 (SubscriptionCost c); fmt_f10 (APIKeyQuotaCost c);
     fmt_f10 (APIKeyRateLimitCost c); fmt_f10 (AccountQuotaCost c)] "|" in
  sha256_hex (with_payload raw (RequestPayloadHash c)).

(** [Normalize] *)
Definition Normalize (c : UsageBillingCommand) : UsageBillingCommand :=
  {| RequestID := TrimSpace (RequestID c); APIKeyID := APIKeyID c;
     RequestFingerprint :=
       if String.eqb (TrimSpace (RequestFingerprint c)) ""
       then buildUsageBillingFingerprint
              {| RequestID := TrimSpace (RequestID c); APIKeyID := APIKeyID c;
                 RequestFingerprint := RequestFingerprint c;
                 RequestPayloadHash := RequestPayloadHash c; UserID := UserID c;
                 AccountID := AccountID c; SubscriptionID := SubscriptionID c;
                 AccountType := AccountType c; cmd_Model := cmd_Model c;
                 cmd_ServiceTier := cmd_ServiceTier c; ReasoningEffort := ReasoningEffort c;
                 BillingType := BillingType c; cmd_InputTokens := cmd_InputTokens c;
                 cmd_OutputTokens := cmd_OutputTokens c;
                 cmd_CacheCreationTokens := cmd_CacheCreationTokens c;
                 cmd_CacheReadTokens := cmd_CacheReadTokens c; ImageCount := ImageCount c;
                 MediaType := MediaType c; BalanceCost := BalanceCost c;
                 SubscriptionCost := SubscriptionCost c; APIKeyQuotaCost := APIKeyQuotaCost c;
                 APIKeyRateLimitCost := APIKeyRateLimitCost c;
                 AccountQuotaCost := AccountQuotaCost c |}
       else RequestFingerprint c;
     RequestPayloadHash := RequestPayloadHash c; UserID := UserID c; AccountID := AccountID c;
     SubscriptionID := SubscriptionID c; AccountType := AccountType c;
     cmd_Model := cmd_Model c; cmd_ServiceTier := cmd_ServiceTier c;
     ReasoningEffort := ReasoningEffort c; BillingType := BillingType c;
     cmd_InputTokens := cmd_InputTokens c; cmd_OutputTokens := cmd_OutputTokens c;
     cmd_CacheCreationTokens := cmd_CacheCreationTokens c;
     cmd_CacheReadTokens := cmd_CacheReadTokens c; ImageCount := ImageCount c;
     MediaType := MediaType c; BalanceCost := BalanceCost c;
     SubscriptionCost := SubscriptionCost c; APIKeyQuotaCost := APIKeyQuotaCost c;
     APIKeyRateLimitCost := APIKeyRateLimitCost c; AccountQuotaCost := AccountQuotaCost c |}.

Definition buildBatchImageBalanceHoldFingerprint (c : BatchImageBalanceHoldCommand) : string :=
  let raw := Join [pretty (h_UserID c); pretty (h_APIKeyID c); TrimSpace (h_BatchID c);
                   fmt_f10 (h_HoldAmount c); fmt_f10 (h_ActualAmount c)] "|" in
  sha256_hex (with_payload raw (h_RequestPayloadHash c)).

Definition hold_Normalize (c : BatchImageBalanceHoldCommand) : BatchImageBalanceHoldCommand :=
  let c := {| h_RequestID := TrimSpace (h_RequestID c); h_APIKeyID := h_APIKeyID c;
              h_RequestFingerprint := h_RequestFingerprint c;
              h_RequestPayloadHash := h_RequestPayloadHash c; h_UserID := h_UserID c;
              h_BatchID := TrimSpace (h_BatchID c); h_HoldAmount := h_HoldAmount c;
              h_ActualAmount := h_ActualAmount c |} in
  if String.eqb (TrimSpace (h_RequestFingerprint c)) "" then
    {| h_RequestID := h_RequestID c; h_APIKeyID := h_APIKeyID c;
       h_RequestFingerprint := buildBatchImageBalanceHoldFingerprint c;
       h_RequestPayloadHash := h_RequestPayloadHash c; h_UserID := h_UserID c;
       h_BatchID := h_BatchID c; h_HoldAmount := h_HoldAmount c;
       h_ActualAmount := h_ActualAmount c |}
  else c.

Definition BatchImageHoldRequestID (batchID : string) : string :=
  "batch_image_hold:" +:+ TrimSpace batchID.
Definition BatchImageCaptureRequestID (batchID : string) : string :=
  "batch_image_capture:" +:+ TrimSpace batchID.
Definition BatchImageReleaseRequestID (batchID : string) : string :=
  "batch_image_release:" +:+ TrimSpace batchID.

(** ** The claim *)

Definition same_fingerprint (a b : string) : bool := String.eqb (TrimSpace a) (TrimSpace b).

(** [claimUsageBillingRequest] *)
Definition claimUsageBillingRequest (requestID : string) (apiKeyID : Z) (fp : string) : tx bool :=
  let key := (requestID, apiKeyID) in
  inserted <-tx stmt (λ d, match dedup d !! key with
                           | Some _ => Ok (false, d)
                           | None => Ok (true, set_dedup <[key := fp]> d)
                           end);
  if negb inserted then
    existing <-tx query (λ d, dedup d !! key);
    match existing with
    | None => tx_fail ErrSQL
    | Some e => if negb (same_fingerprint e fp) then tx_fail ErrUsageBillingRequestConflict
                else tx_ret false
    end
  else
    archived <-tx query (λ d, archive d !! key);
    match archived with
    | Some e => if negb (same_fingerprint e fp) then tx_fail ErrUsageBillingRequestConflict
                else tx_ret false
    | None => tx_ret true
    end.

(** ** The effects of a charge *)

(** [UPDATE users SET ... WHERE id = $2 AND deleted_at IS NULL AND guard
    RETURNING ...]: [None] when no row qualifies. *)
Definition update_user (id : Z) (guard : UserRow → bool) (f : UserRow → option UserRow)
  : tx (option UserRow) :=
  stmt (λ d, match users d !! id with
             | Some u =>
                 if u_deleted u || negb (guard u) then Ok (None, d)
                 else match f u with
                      | None => Err ErrSQL
                      | Some u' => Ok (Some u', set_users <[id := u']> d)
                      end
             | None => Ok (None, d)
             end).

Definition frozen_of (u : UserRow) : Z := default 0 (u_frozen u).

(** [SET balance = balance + db, frozen_balance = COALESCE(frozen_balance, 0) + df] *)
Definition move_balance (db df : Q) (u : UserRow) : option UserRow :=
  b ← store scale8 (dec scale8 (u_balance u) + db)%Q;
  f ← store scale8 (dec scale8 (frozen_of u) + df)%Q;
  Some {| u_balance := b; u_frozen := Some f; u_deleted := u_deleted u |}.

(** [SET balance = balance - $1] *)
Definition subtract_balance (amount : Q) (u : UserRow) : option UserRow :=
  b ← store scale8 (dec scale8 (u_balance u) - amount)%Q;
  Some {| u_balance := b; u_frozen := u_frozen u; u_deleted := u_deleted u |}.

Definition incrementUsageBillingSubscription (subscriptionID : Z) (costUSD : f64) : tx unit :=
  affected <-tx stmt (λ d,
    match subscriptions d !! subscriptionID with
    | Some s =>
        if s_deleted s || default true (groups d !! s_group s) then Ok (false, d)
        else
          match store scale10 (dec scale10 (s_daily s) + num costUSD)%Q,
                store scale10 (dec scale10 (s_weekly s) + num costUSD)%Q,
                store scale10 (dec scale10 (s_monthly s) + num costUSD)%Q with
          | Some x, Some y, Some z =>
              Ok (true, set_subscriptions
                          <[subscriptionID := {| s_group := s_group s; s_daily := x; s_weekly := y;
                                                 s_monthly := z; s_deleted := s_deleted s |}]> d)
          | _, _, _ => Err ErrSQL
          end
    | None => Ok (false, d)
    end);
  if affected then tx_ret () else tx_fail ErrSubscriptionNotFound.

Definition deductUsageBillingBalance (userID : Z) (amount : f64) : tx (f64 * bool) :=
  r <-tx update_user userID (λ u, Qle_bool (num amount) (dec scale8 (u_balance u)))
                     (subtract_balance (num amount));
  match r with
  | Some u => tx_ret (scan (dec scale8 (u_balance u)), true)
  | None =>
      r <-tx update_user userID (λ _, true) (subtract_balance (num amount));
      match r with
      | Some u => tx_ret (scan (dec scale8 (u_balance u)), false)
      | None => tx_fail ErrUserNotFound
      end
  end.

(** [incrementUsageBillingAPIKeyQuota]: the row after the update and the
    [RETURNING] expression. *)
Definition quota_increment (amount : Q) (k : APIKeyRow) : option (bool * APIKeyRow) :=
  used ← store scale8 (dec scale8 (k_quota_used k) + amount)%Q;
  let crosses := (0 <? k_quota k) && String.eqb (k_status k) StatusAPIKeyActive
                 && (k_quota_used k <? k_quota k)
                 && Qle_bool (dec scale8 (k_quota k)) (dec scale8 (k_quota_used k) + amount)%Q in
  Some ((0 <? k_quota k) && (k_quota k <=? used)
        && Qltb (dec scale8 used - amount)%Q (dec scale8 (k_quota k)),
        {| k_quota := k_quota k; k_quota_used := used;
           k_status := if crosses then StatusAPIKeyQuotaExhausted else k_status k;
           k_usage_5h := k_usage_5h k; k_usage_1d := k_usage_1d k; k_usage_7d := k_usage_7d k;
           k_window_5h := k_window_5h k; k_window_1d := k_window_1d k;
           k_window_7d := k_window_7d k; k_deleted := k_deleted k |}).

Definition update_key {A} (id : Z) (f : APIKeyRow → option (A * APIKeyRow)) : tx (option A) :=
  stmt (λ d, match api_keys d !! id with
             | Some k =>
                 if k_deleted k then Ok (None, d)
                 else match f k with
                      | None => Err ErrSQL
                      | Some (a, k') => Ok (Some a, set_api_keys <[id := k']> d)
                      end
             | None => Ok (None, d)
             end).

Definition incrementUsageBillingAPIKeyQuota (apiKeyID : Z) (amount : f64) : tx bool :=
  r <-tx update_key apiKeyID (quota_increment (num amount));
  match r with Some exhausted => tx_ret exhausted | None => tx_fail ErrAPIKeyNotFound end.

(** One rolling window: usage and start after the increment. *)
Definition window_expired (now : time) (len : duration) (start : option time) : bool :=
  match start with Some t => time_Add t len <=? now | None => false end.
Definition bump_window (now : time) (len : duration) (restart : time) (cost : Q)
    (usage : Z) (start : option time) : option (Z * option time) :=
  u ← store scale8 (if window_expired now len start then cost
                    else dec scale8 usage + cost)%Q;
  Some (u, if match start with None => true | Some _ => window_expired now len start end
           then Some restart else start).

Definition rate_limit_increment (now : time) (cost : Q) (k : APIKeyRow) : option (unit * APIKeyRow) :=
  w5 ← bump_window now (5 * Hour) now cost (k_usage_5h k) (k_window_5h k);
  w1 ← bump_window now (24 * Hour) (trunc_day now) cost (k_usage_1d k) (k_window_1d k);
  w7 ← bump_window now (7 * 24 * Hour) (trunc_day now) cost (k_usage_7d k) (k_window_7d k);
  Some ((), {| k_quota := k_quota k; k_quota_used := k_quota_used k; k_status := k_status k;
               k_usage_5h := fst w5; k_usage_1d := fst w1; k_usage_7d := fst w7;
               k_window_5h := snd w5; k_window_1d := snd w1; k_window_7d := snd w7;
               k_deleted := k_deleted k |}).

Definition incrementUsageBillingAPIKeyRateLimit (now : time) (apiKeyID : Z) (cost : f64) : tx unit :=
  r <-tx update_key apiKeyID (rate_limit_increment now (num cost));
  match r with Some _ => tx_ret () | None => tx_fail ErrAPIKeyNotFound end.

(** The epoch of [COALESCE(..., '1970-01-01')], in ns since year 1. *)
Definition unix_epoch : time := 62135596800 * Second.

(** [dailyExpiredExpr] and [weeklyExpiredExpr]. *)
Definition quota_expired (now : time) (len : duration) (q : QuotaPeriod) : bool :=
  if q_fixed q then default unix_epoch (q_reset_at q) <=? now
  else time_Add (default unix_epoch (q_start q)) len <=? now.

(** The JSON update of one period. *)
Definition bump_period (now : time) (len : duration) (next : time) (amount : Q) (q : QuotaPeriod)
  : QuotaPeriod :=
  if Qltb 0 (default 0%Q (q_limit q)) then
    let expired := quota_expired now len q in
    {| q_limit := q_limit q;
       q_used := Some (if expired then amount else default 0%Q (q_used q) + amount)%Q;
       q_fixed := q_fixed q;
       q_start := Some (if expired then now else default now (q_start q));
       q_reset_at := if expired && q_fixed q then Some next else q_reset_at q |}
  else q.

Definition account_increment (now : time) (amount : Q) (a : AccountRow) : AccountRow :=
  {| a_quota_used := Some (default 0%Q (a_quota_used a) + amount)%Q;
     a_quota_limit := a_quota_limit a;
     a_daily := bump_period now (24 * Hour) (next_daily_reset a now) amount (a_daily a);
     a_weekly := bump_period now (168 * Hour) (next_weekly_reset a now) amount (a_weekly a);
     a_deleted := a_deleted a |}.

Definition quota_state (a : AccountRow) : AccountQuotaState :=
  let f q := scan (default 0%Q q) in
  {| TotalUsed := f (a_quota_used a); TotalLimit := f (a_quota_limit a);
     DailyUsed := f (q_used (a_daily a)); DailyLimit := f (q_limit (a_daily a));
     WeeklyUsed := f (q_used (a_weekly a)); WeeklyLimit := f (q_limit (a_weekly a)) |}.

Definition crossed (used limit amount : f64) : bool :=
  (f0 <ᶠ limit) && (limit ≤ᶠ used) && ((used -ᶠ amount) <ᶠ limit).

Definition incrementUsageBillingAccountQuota (now : time) (accountID : Z) (amount : f64)
  : tx AccountQuotaState :=
  r <-tx stmt (λ d, match accounts d !! accountID with
                    | Some a =>
                        if a_deleted a then Ok (None, d)
                        else let a' := account_increment now (num amount) a in
                             Ok (Some (quota_state a'), set_accounts <[accountID := a']> d)
                    | None => Ok (None, d)
                    end);
  match r with
  | None => tx_fail ErrAccountNotFound
  | Some st =>
      if crossed (TotalUsed st) (TotalLimit st) amount
         || crossed (DailyUsed st) (DailyLimit st) amount
         || crossed (WeeklyUsed st) (WeeklyLimit st) amount
      then _ <-tx stmt (λ d, Ok ((), add_outbox accountID d)); tx_ret st
      else tx_ret st
  end.

(** [applyUsageBillingEffects] *)
Definition applyUsageBillingEffects (now : time) (cmd : UsageBillingCommand)
  : tx UsageBillingApplyResult :=
  _ <-tx (match SubscriptionID cmd with
          | Some sid =>
              if f0 <ᶠ SubscriptionCost cmd
              then incrementUsageBillingSubscription sid (SubscriptionCost cmd) else tx_ret ()
          | None => tx_ret ()
          end);
  bal <-tx (if f0 <ᶠ BalanceCost cmd
            then r <-tx deductUsageBillingBalance (UserID cmd) (BalanceCost cmd); tx_ret (Some r)
            else tx_ret None);
  exhausted <-tx (if f0 <ᶠ APIKeyQuotaCost cmd
                  then incrementUsageBillingAPIKeyQuota (APIKeyID cmd) (APIKeyQuotaCost cmd)
                  else tx_ret false);
  _ <-tx (if f0 <ᶠ APIKeyRateLimitCost cmd
          then incrementUsageBillingAPIKeyRateLimit now (APIKeyID cmd) (APIKeyRateLimitCost cmd)
          else tx_ret ());
  quota <-tx (if (f0 <ᶠ AccountQuotaCost cmd)
                 && (EqualFold (AccountType cmd) AccountTypeAPIKey
                     || EqualFold (AccountType cmd) AccountTypeBedrock)
              then st <-tx incrementUsageBillingAccountQuota now (AccountID cmd)
                             (AccountQuotaCost cmd);
                   tx_ret (Some st)
              else tx_ret None);
  tx_ret {| Applied := true; APIKeyQuotaExhausted := exhausted; NewBalance := fst <$> bal;
            BalanceOverdrafted := match bal with Some (_, ok) => negb ok | None => false end;
            QuotaState := quota |}.

Definition not_applied : UsageBillingApplyResult :=
  {| Applied := false; APIKeyQuotaExhausted := false; NewBalance := None;
     BalanceOverdrafted := false; QuotaState := None |}.

(** [Apply] on a non-nil command *)
Definition Apply (now : time) (cmd : UsageBillingCommand) (fl : Faults) (d : DB)
  : DB * res UBError UsageBillingApplyResult :=
  let cmd := Normalize cmd in
  if String.eqb (RequestID cmd) "" then (d, Err ErrUsageBillingRequestIDRequired)
  else
    run_tx (applied <-tx claimUsageBillingRequest (RequestID cmd) (APIKeyID cmd)
                           (RequestFingerprint cmd);
            if negb applied then tx_ret (Rollback not_applied)
            else r <-tx applyUsageBillingEffects now cmd; tx_ret (Commit r)) fl d.

(** ** Batch-image holds *)

Definition no_hold : HoldResult :=
  {| h_Applied := false; h_NewBalance := None; h_FrozenBalance := None |}.
Definition hold_result (u : UserRow) : HoldResult :=
  {| h_Applied := false; h_NewBalance := Some (scan (dec scale8 (u_balance u)));
     h_FrozenBalance := Some (scan (dec scale8 (frozen_of u))) |}.

Definition userExistsForBilling (userID : Z) : tx bool :=
  query (λ d, match users d !! userID with Some u => negb (u_deleted u) | None => false end).

(** What follows an [UPDATE] that hit no row. *)
Definition missing_user (userID : Z) (e : UBError) : tx HoldResult :=
  exists_ <-tx userExistsForBilling userID;
  if negb exists_ then tx_fail ErrUserNotFound else tx_fail e.

Definition reserveUsageBillingBatchImageBalance (cmd : BatchImageBalanceHoldCommand)
  : tx HoldResult :=
  if h_HoldAmount cmd ≤ᶠ f0 then tx_ret no_hold
  else
    let x := num (h_HoldAmount cmd) in
    r <-tx update_user (h_UserID cmd) (λ u, Qle_bool x (dec scale8 (u_balance u)))
             (move_balance (- x)%Q x);
    match r with
    | Some u => tx_ret (hold_result u)
    | None => missing_user (h_UserID cmd) ErrBatchImageInsufficientBalance
    end.

Definition captureUsageBillingBatchImageBalance (cmd : BatchImageBalanceHoldCommand)
  : tx HoldResult :=
  if (h_HoldAmount cmd ≤ᶠ f0) && (h_ActualAmount cmd ≤ᶠ f0) then tx_ret no_hold
  else if f_dec 1 8 <ᶠ (h_ActualAmount cmd -ᶠ h_HoldAmount cmd)
  then tx_fail ErrBatchImageSettlementCostExceedsHold
  else
    let x := num (h_HoldAmount cmd) in
    let y := num (h_ActualAmount cmd) in
    let back := if Qltb y x then (x - y)%Q else 0%Q in
    let more := if Qltb x y then (y - x)%Q else 0%Q in
    r <-tx update_user (h_UserID cmd) (λ u, Qle_bool x (dec scale8 (frozen_of u)))
             (move_balance (back - more)%Q (- x)%Q);
    match r with
    | Some u => tx_ret (hold_result u)
    | None => missing_user (h_UserID cmd) ErrFrozenBalanceInsufficient
    end.

(** [batchImageHoldClaimExists] *)
Definition batchImageHoldClaimExists (holdRequestID : string) (apiKeyID : Z) : tx bool :=
  live <-tx query (λ d, dedup d !! (holdRequestID, apiKeyID));
  match live with
  | Some _ => tx_ret true
  | None =>
      archived <-tx query (λ d, archive d !! (holdRequestID, apiKeyID));
      tx_ret (match archived with Some _ => true | None => false end)
  end.

Definition releaseUsageBillingBatchImageBalance (cmd : BatchImageBalanceHoldCommand)
  : tx HoldResult :=
  if h_HoldAmount cmd ≤ᶠ f0 then tx_ret no_hold
  else
    held <-tx batchImageHoldClaimExists (BatchImageHoldRequestID (h_BatchID cmd)) (h_APIKeyID cmd);
    if negb held then tx_ret no_hold
    else
      let x := num (h_HoldAmount cmd) in
      r <-tx update_user (h_UserID cmd) (λ u, Qle_bool x (dec scale8 (frozen_of u)))
               (move_balance x (- x)%Q);
      match r with
      | Some u => tx_ret (hold_result u)
      | None => missing_user (h_UserID cmd) ErrFrozenBalanceInsufficient
      end.

(** [applyBatchImageBalanceHold] on a non-nil command *)
Definition applyBatchImageBalanceHold (apply : BatchImageBalanceHoldCommand → tx HoldResult)
    (cmd : BatchImageBalanceHoldCommand) (fl : Faults) (d : DB) : DB * res UBError HoldResult :=
  let cmd := hold_Normalize cmd in
  if String.eqb (h_RequestID cmd) "" then (d, Err ErrUsageBillingRequestIDRequired)
  else
    run_tx (applied <-tx claimUsageBillingRequest (h_RequestID cmd) (h_APIKeyID cmd)
                           (h_RequestFingerprint cmd);
            if negb applied then tx_ret (Rollback no_hold)
            else
              r <-tx apply cmd;
              tx_ret (Commit {| h_Applied := true; h_NewBalance := h_NewBalance r;
                                h_FrozenBalance := h_FrozenBalance r |})) fl d.

Definition ReserveBatchImageBalance := applyBatchImageBalanceHold reserveUsageBillingBatchImageBalance.
Definition CaptureBatchImageBalance := applyBatchImageBalanceHold captureUsageBillingBatchImageBalance.
Definition ReleaseBatchImageBalance := applyBatchImageBalanceHold releaseUsageBillingBatchImageBalance.

(** ** Archiving *)

(** One batch of [CleanupUsageBillingDedup]: the victims are copied to the
    archive, where an existing row wins, and deleted. *)
Definition archive_key (d : DB) (k : dedup_key) : DB :=
  match dedup d !! k with
  | None => d
  | Some fp =>
      set_dedup (delete k)
        (match archive d !! k with
         | Some _ => d
         | None => set_archive <[k := fp]> d
         end)
  end.
Definition CleanupUsageBillingDedup (victims : list dedup_key) (d : DB) : DB :=
  foldl archive_key d victims.

End UsageBilling.
