(* ===== verification/UsageBillingProps.v ===== *)
(** * What the billing transactions guarantee

    Theorems on [UsageBilling]: a charge takes effect at most once whatever
    retries, faults and archiving happen, a transaction applies all of its
    effects or none, holds conserve money and are never released without a
    reservation, and the frozen balance never becomes negative. *)

From Stdlib Require Import ZArith Lia QArith Bool String SpecFloat.
From stdpp Require Import base numbers option list gmap strings pretty.
From S2P Require Import Prelude GoStrings GoFloat UsageDB UsageBilling.

#[local] Open Scope Z_scope.

(** ** Properties that compose along a transaction

    [keeps P m]: a successful [m] relates the states before and after by the
    preorder [P].  [steady m]: the outcome of a successful [m] does not depend
    on the faults that did not hit it. *)

Section TxProps.
Context (P : DB → DB → Prop) `{!PreOrder P}.

Definition keeps {A} (m : tx A) : Prop :=
  ∀ d fs a d' fs', m (d, fs) = Ok (a, (d', fs')) → P d d'.

Lemma keeps_ret {A} (a : A) : keeps (tx_ret a).
Proof. intros d fs a' d' fs' [= <- <- <-]. reflexivity. Qed.
Lemma keeps_fail {A} e : keeps (tx_fail (A := A) e).
Proof. done. Qed.
Lemma keeps_bind {A B} (m : tx A) (k : A → tx B) :
  keeps m → (∀ a, keeps (k a)) → keeps (tx_bind m k).
Proof.
  intros Hm Hk d fs b d' fs'. unfold tx_bind.
  destruct (m (d, fs)) as [[a [d1 fs1]]|e] eqn:E; [|done]. intros Hb.
  etrans; [by eapply Hm|by eapply Hk].
Qed.
Lemma keeps_stmt {A} (f : DB → res UBError (A * DB)) :
  (∀ d a d', f d = Ok (a, d') → P d d') → keeps (stmt f).
Proof.
  intros Hf d fs a d' fs'. unfold stmt. simpl.
  destruct fs as [|[] fs]; [|done|];
    (destruct (f d) as [[a1 d1]|e] eqn:E; [|done]); intros [= <- <- <-]; by eapply Hf.
Qed.
Lemma keeps_query {A} (f : DB → A) : keeps (query f).
Proof. apply keeps_stmt. intros d a d' [= _ <-]. reflexivity. Qed.
Lemma keeps_if {A} (b : bool) (m m' : tx A) : keeps m → keeps m' → keeps (if b then m else m').
Proof. by destruct b. Qed.
End TxProps.

Definition steady {A} (m : tx A) : Prop :=
  ∀ d fs a d' fs', m (d, fs) = Ok (a, (d', fs')) → m (d, []) = Ok (a, (d', [])).

Lemma steady_ret {A} (a : A) : steady (tx_ret a).
Proof. by intros d fs a' d' fs' [= <- <- <-]. Qed.
Lemma steady_fail {A} e : steady (tx_fail (A := A) e).
Proof. done. Qed.
Lemma steady_bind {A B} (m : tx A) (k : A → tx B) :
  steady m → (∀ a, steady (k a)) → steady (tx_bind m k).
Proof.
  intros Hm Hk d fs b d' fs'. unfold tx_bind.
  destruct (m (d, fs)) as [[a [d1 fs1]]|e] eqn:E; [|done]. intros Hb.
  rewrite (Hm _ _ _ _ _ E). by eapply Hk.
Qed.
Lemma steady_stmt {A} (f : DB → res UBError (A * DB)) : steady (stmt f).
Proof.
  intros d fs a d' fs'. unfold stmt. simpl.
  destruct fs as [|[] fs]; [|done|];
    (destruct (f d) as [[a1 d1]|e]; [|done]); by intros [= <- <- <-].
Qed.
Lemma steady_if {A} (b : bool) (m m' : tx A) : steady m → steady m' → steady (if b then m else m').
Proof. by destruct b. Qed.

Create HintDb tx.
#[export] Hint Resolve keeps_ret keeps_fail keeps_bind keeps_query keeps_if steady_ret steady_fail
  steady_bind steady_stmt steady_if : tx.

(** Goes through the structure of a transaction, leaving its statements. *)
Ltac tx_step :=
  first
    [ apply keeps_ret; exact _ | apply keeps_fail | apply keeps_query; exact _
    | apply keeps_bind; [exact _| |intros ?] | apply keeps_if
    | apply steady_ret | apply steady_fail | apply steady_stmt
    | apply steady_bind; [|intros ?] | apply steady_if
    | match goal with
      | |- keeps _ (match ?x with _ => _ end) => destruct x
      | |- steady (match ?x with _ => _ end) => destruct x
      end ].
Ltac tx_walk := repeat (cbv zeta; tx_step).

Section Props.
Context `{GoText} `{GoHash} `{PgFloat} `{PgClock}.

(** ** Claims *)

Definition same_claims (d d' : DB) : Prop := dedup d' = dedup d ∧ archive d' = archive d.

#[global] Instance same_claims_preorder : PreOrder same_claims.
Proof. split; [done|]. intros d1 d2 d3 [] []. split; congruence. Qed.

Lemma update_user_claims id g f : keeps same_claims (update_user id g f).
Proof.
  apply keeps_stmt. intros d a d'. destruct (users d !! id) as [u|]; [|by intros [= _ <-]].
  destruct (_ || _); [by intros [= _ <-]|]. destruct (f u); [|done]. by intros [= _ <-].
Qed.

(** A relation that allows the changes a charge makes outside [users] and the
    claims, and the subtraction of an amount from a balance, holds along the
    effects of a charge. *)
Lemma effects_keeps (P : DB → DB → Prop) `{!PreOrder P} now cmd :
  (∀ d d', users d' = users d → same_claims d d' → P d d') →
  (∀ d id u u' x, users d !! id = Some u → subtract_balance x u = Some u' →
     P d (set_users <[id := u']> d)) →
  keeps P (applyUsageBillingEffects now cmd).
Proof.
  intros Hother Hsub.
  assert (∀ id g x, keeps P (update_user id g (subtract_balance x))) as Huser.
  { intros id g x. apply keeps_stmt. intros d a d'. destruct (users d !! id) as [u|] eqn:Eu;
      [|by intros [= _ <-]].
    destruct (_ || _); [by intros [= _ <-]|]. destruct (subtract_balance x u) as [u'|] eqn:E; [|done].
    intros [= _ <-]. by eapply Hsub. }
  assert (∀ A id (f : APIKeyRow → option (A * APIKeyRow)), keeps P (update_key id f)) as Hkey.
  { intros A id f. apply keeps_stmt. intros d a d'.
    destruct (api_keys d !! id) as [k|]; [|by intros [= _ <-]].
    destruct (k_deleted k); [by intros [= _ <-]|]. destruct (f k) as [[]|]; [|done].
    intros [= _ <-]. by apply Hother. }
  unfold applyUsageBillingEffects, incrementUsageBillingSubscription, deductUsageBillingBalance,
    incrementUsageBillingAPIKeyQuota, incrementUsageBillingAPIKeyRateLimit,
    incrementUsageBillingAccountQuota.
  tx_walk; try apply Huser; try apply Hkey; apply keeps_stmt; intros d0 r0 d1.
  - destruct (subscriptions d0 !! _); [|by intros [= _ <-]].
    destruct (_ || _); [by intros [= _ <-]|]. repeat (destruct (store _ _); [|done]).
    intros [= _ <-]. by apply Hother.
  - destruct (accounts d0 !! _) as [row|]; [|by intros [= _ <-]].
    destruct (a_deleted row); intros [= _ <-]; [done|]. by apply Hother.
  - intros [= _ <-]. by apply Hother.
Qed.

Lemma effects_claims now cmd : keeps same_claims (applyUsageBillingEffects now cmd).
Proof. by apply effects_keeps; [exact _|..]. Qed.

Lemma hold_effects_claims cmd :
  keeps same_claims (reserveUsageBillingBatchImageBalance cmd) ∧
  keeps same_claims (captureUsageBillingBatchImageBalance cmd) ∧
  keeps same_claims (releaseUsageBillingBatchImageBalance cmd).
Proof.
  unfold reserveUsageBillingBatchImageBalance, captureUsageBillingBatchImageBalance,
    releaseUsageBillingBatchImageBalance, batchImageHoldClaimExists, missing_user,
    userExistsForBilling.
  split; [|split]; tx_walk; apply update_user_claims.
Qed.

Definition claimed (d : DB) (k : dedup_key) : Prop :=
  is_Some (dedup d !! k) ∨ is_Some (archive d !! k).
#[global] Instance claimed_dec d k : Decision (claimed d k).
Proof. unfold claimed. apply _. Defined.

(** The claim answers yes only for a key that is not claimed, and then records
    it; when it answers no, the transaction is rolled back. *)
Lemma claim_true rid ak fp d fs d' fs' :
  claimUsageBillingRequest rid ak fp (d, fs) = Ok (true, (d', fs')) →
  ¬ claimed d (rid, ak) ∧ d' = set_dedup <[(rid, ak) := fp]> d.
Proof.
  unfold claimUsageBillingRequest, claimed, tx_bind, stmt, query. simpl.
  destruct fs as [|[] fs]; [|done|]; simpl.
  - destruct (dedup d !! (rid, ak)) as [e|] eqn:E; simpl.
    + rewrite E. by destruct (negb (same_fingerprint _ _)).
    + destruct (archive d !! (rid, ak)) as [e|] eqn:Ea; simpl.
      * by destruct (negb (same_fingerprint _ _)).
      * intros [= <- <-]. split; [|done]. by intros [[? ?]|[? ?]].
  - destruct (dedup d !! (rid, ak)) as [e|] eqn:E; simpl.
    + destruct fs as [|[] fs]; [|done|]; simpl; rewrite E;
        by destruct (negb (same_fingerprint _ _)).
    + destruct fs as [|[] fs]; [|done|]; simpl;
        (destruct (archive d !! (rid, ak)) as [e|] eqn:Ea; simpl;
         [by destruct (negb (same_fingerprint _ _))|]);
        (intros [= <- <-]; split; [|done]; by intros [[? ?]|[? ?]]).
Qed.

Lemma claim_steady rid ak fp : steady (claimUsageBillingRequest rid ak fp).
Proof. unfold claimUsageBillingRequest, query. tx_walk. Qed.

(** A claimed transaction: the claim, then effects that keep the claims. *)
Definition claimed_body {A B} (key : dedup_key) (fp : string) (no : B) (m : tx A) (done : A → B)
  : tx (TxEnd B) :=
  applied <-tx claimUsageBillingRequest (fst key) (snd key) fp;
  if negb applied then tx_ret (Rollback no)
  else r <-tx m; tx_ret (Commit (done r)).

Lemma claimed_body_commit {A B} key fp (no : B) (m : tx A) done d fs b d' fs' :
  keeps same_claims m →
  claimed_body key fp no m done (d, fs) = Ok (Commit b, (d', fs')) →
  ¬ claimed d key ∧ (∀ k, claimed d' k ↔ claimed d k ∨ k = key) ∧
  ∃ a fs1 fs2, m (set_dedup <[key := fp]> d, fs1) = Ok (a, (d', fs2)) ∧ b = done a.
Proof.
  intros Hm. unfold claimed_body, tx_bind at 1.
  destruct (claimUsageBillingRequest _ _ _ _) as [[[] [d1 fs1]]|e] eqn:E; simpl; [|done|done].
  apply claim_true in E as [Hnot ->]. destruct key as [rid ak]. simpl in *.
  unfold tx_bind. destruct (m _) as [[a [d2 fs2]]|e] eqn:Em; [|done].
  intros [= <- <- <-]. destruct (Hm _ _ _ _ _ Em) as [Hd Ha].
  split; [done|]. unfold claimed. rewrite Hd, Ha. simpl. split.
  - intros k. rewrite lookup_insert. case_decide as Hk.
    + split; [by right|]. intros _. left. eauto.
    + split; [by left|]. by intros [?| ->].
  - exists a, fs1, fs2. by split.
Qed.

(** The operations on the billing tables. *)
Inductive op :=
| OpApply (now : time) (cmd : UsageBillingCommand) (fl : Faults)
| OpReserve (cmd : BatchImageBalanceHoldCommand) (fl : Faults)
| OpCapture (cmd : BatchImageBalanceHoldCommand) (fl : Faults)
| OpRelease (cmd : BatchImageBalanceHoldCommand) (fl : Faults)
| OpArchive (victims : list dedup_key).

Definition run_op (o : op) (d : DB) : DB :=
  match o with
  | OpApply now cmd fl => fst (Apply now cmd fl d)
  | OpReserve cmd fl => fst (ReserveBatchImageBalance cmd fl d)
  | OpCapture cmd fl => fst (CaptureBatchImageBalance cmd fl d)
  | OpRelease cmd fl => fst (ReleaseBatchImageBalance cmd fl d)
  | OpArchive victims => CleanupUsageBillingDedup victims d
  end.
Definition run_ops (os : list op) (d : DB) : DB := foldl (λ d o, run_op o d) d os.

(** The request an operation belongs to. *)
Definition op_key (o : op) : option dedup_key :=
  match o with
  | OpApply _ cmd _ => Some (RequestID (Normalize cmd), APIKeyID cmd)
  | OpReserve cmd _ | OpCapture cmd _ | OpRelease cmd _ =>
      Some (h_RequestID (hold_Normalize cmd), h_APIKeyID cmd)
  | OpArchive _ => None
  end.

Lemma hold_Normalize_key cmd : h_APIKeyID (hold_Normalize cmd) = h_APIKeyID cmd.
Proof. unfold hold_Normalize. by destruct (String.eqb _ _). Qed.

(** One step of a keyed operation: nothing, or a claimed transaction. *)
Definition claims_key (d d' : DB) (k : dedup_key) : Prop :=
  ¬ claimed d k ∧ ∀ k', claimed d' k' ↔ claimed d k' ∨ k' = k.

Lemma run_op_step o d k : op_key o = Some k → run_op o d = d ∨ claims_key d (run_op o d) k.
Proof.
  assert (∀ hold cmd fl, keeps same_claims (hold (hold_Normalize cmd)) →
    let d' := fst (applyBatchImageBalanceHold hold cmd fl d) in
    d' = d ∨ claims_key d d' (h_RequestID (hold_Normalize cmd), h_APIKeyID cmd)) as Hhold.
  { intros hold cmd fl Hkeep. unfold applyBatchImageBalanceHold.
    destruct (String.eqb _ _); [by left|].
    destruct (run_tx _ fl d) as [d' r] eqn:Hr.
    destruct (run_tx_cases _ _ _ _ _ Hr) as [->|(b & fs & Hb)]; [by left|]. right.
    apply (claimed_body_commit (h_RequestID (hold_Normalize cmd), h_APIKeyID (hold_Normalize cmd))
             _ no_hold (hold (hold_Normalize cmd)) _ _ _ _ _ _ Hkeep) in Hb as (Hn & Hc & _).
    by rewrite hold_Normalize_key in *. }
  destruct o as [now cmd fl|cmd fl|cmd fl|cmd fl|vs]; simpl; intros [= <-];
    try (by apply Hhold; apply hold_effects_claims).
  unfold Apply. cbv zeta. destruct (String.eqb _ _); [by left|].
  destruct (run_tx _ fl d) as [d' r] eqn:Hr.
  destruct (run_tx_cases _ _ _ _ _ Hr) as [->|(b & fs & Hb)]; [by left|]. right.
  by apply (claimed_body_commit (RequestID (Normalize cmd), APIKeyID (Normalize cmd))
             _ not_applied (applyUsageBillingEffects now (Normalize cmd)) id _ _ _ _ _
             (effects_claims _ _)) in Hb as (Hn & Hc & _).
Qed.

Lemma archive_claimed victims d k : claimed (CleanupUsageBillingDedup victims d) k ↔ claimed d k.
Proof.
  unfold CleanupUsageBillingDedup. revert d. induction victims as [|v vs IH]; intros d; simpl; [done|].
  rewrite IH. clear IH. unfold archive_key. destruct (dedup d !! v) as [fp|] eqn:Ev; [|done].
  unfold claimed. destruct (archive d !! v) as [fp'|] eqn:Ea; simpl;
    (destruct (decide (k = v)) as [->|Hne];
     [rewrite lookup_delete_eq, ?lookup_insert_eq, ?Ev, ?Ea; split; eauto
     |by rewrite lookup_delete_ne, ?lookup_insert_ne by done]).
Qed.

(** Claims are never lost. *)
Lemma run_op_claimed o d k : claimed d k → claimed (run_op o d) k.
Proof.
  intros Hk. destruct (op_key o) as [k0|] eqn:Ek.
  - destruct (run_op_step o d k0 Ek) as [->|[_ Hall]]; [done|]. apply Hall. by left.
  - destruct o; try done. by apply archive_claimed.
Qed.

Lemma run_ops_claimed os d k : claimed d k → claimed (run_ops os d) k.
Proof.
  revert d. induction os as [|o os IH]; intros d Hk; simpl; [done|]. apply IH, run_op_claimed, Hk.
Qed.

(** A claim comes from the operation that made it. *)
Lemma claimed_origin os d k :
  claimed (run_ops os d) k → ¬ claimed d k →
  ∃ pre o post, os = pre ++ o :: post ∧ op_key o = Some k ∧
                run_op o (run_ops pre d) ≠ run_ops pre d.
Proof.
  revert d. induction os as [|o os IH]; intros d Hc Hn; simpl in *; [done|].
  destruct (decide (claimed (run_op o d) k)) as [Ho|Ho]; [|].
  - exists [], o, os. split_and!; [done| |simpl; intros Heq; by rewrite Heq in Ho].
    destruct (op_key o) as [k0|] eqn:Ek.
    + destruct (run_op_step o d k0 Ek) as [Heq|[_ Hall]]; [by rewrite Heq in Ho|].
      destruct (proj1 (Hall k) Ho) as [Hk| ->]; done.
    + destruct o; try done. by apply archive_claimed in Ho.
  - destruct (IH _ Hc Ho) as (pre & o1 & post & -> & Hk & Hne). exists (o :: pre), o1, post.
    by split_and!.
Qed.

(** C2: a request is charged at most once.  Once an operation (a usage charge,
    or the reservation, capture or release of a batch hold) has changed
    anything under its request id and API key, no later operation with that id
    and key changes anything - whatever other operations, failed statements,
    lost connections at commit, and archiving runs of the dedup table lie in
    between. *)
Theorem charge_at_most_once pre o1 mid o2 d k :
  op_key o1 = Some k → op_key o2 = Some k →
  let d1 := run_ops pre d in
  let d2 := run_op o1 d1 in
  let d3 := run_ops mid d2 in
  d2 ≠ d1 → run_op o2 d3 = d3.
Proof.
  intros Hk1 Hk2 d1 d2 d3 Hchg.
  destruct (run_op_step o1 d1 k Hk1) as [Heq|[_ Hc]]; [done|].
  destruct (run_op_step o2 d3 k Hk2) as [Heq|[Hn _]]; [done|].
  exfalso. apply Hn, run_ops_claimed, Hc. by right.
Qed.

(** ** All or nothing *)

Lemma effects_steady now cmd : steady (applyUsageBillingEffects now cmd).
Proof.
  unfold applyUsageBillingEffects, incrementUsageBillingSubscription, deductUsageBillingBalance,
    incrementUsageBillingAPIKeyQuota, incrementUsageBillingAPIKeyRateLimit,
    incrementUsageBillingAccountQuota, update_user, update_key.
  tx_walk.
Qed.

(** C32: a charge is all or nothing: whichever statement fails and however the
    commit ends, the tables are left unchanged or exactly as the undisturbed
    charge would leave them; and a reported success is the undisturbed
    result. *)
Theorem Apply_all_or_nothing now cmd fl d :
  let (d', r) := Apply now cmd fl d in
  let (dn, rn) := Apply now cmd no_faults d in
  (d' = d ∨ (d' = dn ∧ is_ok rn = true)) ∧ (is_ok r = true → d' = dn ∧ r = rn).
Proof.
  destruct (Apply now cmd fl d) as [d' r] eqn:E, (Apply now cmd no_faults d) as [dn rn] eqn:En.
  unfold Apply in *. cbv zeta in *. destruct (String.eqb _ _).
  { injection E as <- <-. injection En as <- <-. split; [by left|done]. }
  set (body := tx_bind (claimUsageBillingRequest _ _ _) _) in *.
  assert (steady body) as Hst.
  { unfold body. apply steady_bind; [apply claim_steady|intros b]. apply steady_if;
      [apply steady_ret|]. apply steady_bind; [apply effects_steady|intros; apply steady_ret]. }
  unfold run_tx in *. simpl in En. destruct (fault_begin fl).
  { injection E as <- <-. split; [by left|done]. }
  destruct (body (d, fault_stmts fl)) as [[x [d1 fs1]]|e] eqn:Eb.
  2:{ injection E as <- <-. split; [by left|done]. }
  rewrite (Hst _ _ _ _ _ Eb) in En. destruct x as [a|a].
  - injection En as <- <-. destruct (fault_commit fl); injection E as <- <-;
      (split; [|done]); eauto.
  - injection E as <- <-. injection En as <- <-. split; [by left|done].
Qed.


(** ** Holds *)

Lemma update_user_cases id g f d fs a d' fs' :
  update_user id g f (d, fs) = Ok (a, (d', fs')) →
  (a = None ∧ d' = d) ∨
  ∃ u u', users d !! id = Some u ∧ u_deleted u = false ∧ g u = true ∧ f u = Some u' ∧
          a = Some u' ∧ d' = set_users <[id := u']> d.
Proof.
  assert (∀ a d', match users d !! id with
                  | Some u => if u_deleted u || negb (g u) then Ok (None, d)
                              else match f u with
                                   | Some u' => Ok (Some u', set_users <[id := u']> d)
                                   | None => Err ErrSQL
                                   end
                  | None => Ok (None, d)
                  end = Ok (a, d') →
            (a = None ∧ d' = d) ∨
            ∃ u u', users d !! id = Some u ∧ u_deleted u = false ∧ g u = true ∧ f u = Some u' ∧
                    a = Some u' ∧ d' = set_users <[id := u']> d) as Hgo.
  { intros a1 d1. destruct (users d !! id) as [u|]; [|intros [= <- <-]; by left].
    destruct (u_deleted u) eqn:Ed; simpl; [intros [= <- <-]; by left|].
    destruct (g u) eqn:Eg; simpl; [|intros [= <- <-]; by left].
    destruct (f u) as [u'|] eqn:Ef; [|done]. intros [= <- <-]. right. exists u, u'. by split_and!. }
  unfold update_user, stmt. simpl.
  destruct fs as [|[] fs]; [|done|];
    (destruct (match users d !! id with Some _ => _ | None => _ end) as [[a1 d1]|e] eqn:E;
     [|done]); intros [= <- <- <-]; by apply Hgo.
Qed.

Lemma missing_user_fails id e s r : missing_user id e s = Ok r → False.
Proof.
  unfold missing_user, tx_bind. destruct (userExistsForBilling id s) as [[b s']|]; [|done].
  by destruct (negb b).
Qed.

(** A guarded move of money between a user's two balances, as the three hold
    operations make it. *)
Definition moved (id : Z) (g : UserRow → bool) (db df : Q) (d d' : DB) : Prop :=
  ∃ u u', users d !! id = Some u ∧ g u = true ∧ move_balance db df u = Some u' ∧
          d' = set_users <[id := u']> d.

Lemma move_cases id g db df e d fs a d' fs' :
  (r <-tx update_user id g (move_balance db df);
   match r with Some u => tx_ret (hold_result u) | None => missing_user id e end) (d, fs)
    = Ok (a, (d', fs')) →
  moved id g db df d d'.
Proof.
  unfold tx_bind. destruct (update_user _ _ _ _) as [[r [d1 fs1]]|] eqn:E; [|done].
  apply update_user_cases in E as [[-> ->]|(u & u' & Hu & _ & Hg & Hf & -> & ->)].
  - intros Hm. by apply missing_user_fails in Hm.
  - intros [= <- <- <-]. exists u, u'. by split_and!.
Qed.

Definition frozen_covers (x : Q) (u : UserRow) : bool := Qle_bool x (dec scale8 (frozen_of u)).
Definition balance_covers (x : Q) (u : UserRow) : bool := Qle_bool x (dec scale8 (u_balance u)).

Lemma reserve_cases cmd d fs a d' fs' :
  reserveUsageBillingBatchImageBalance cmd (d, fs) = Ok (a, (d', fs')) →
  d' = d ∨ (f0 <ᶠ h_HoldAmount cmd) = negb (f_is_nan (h_HoldAmount cmd)) ∧
           moved (h_UserID cmd) (balance_covers (num (h_HoldAmount cmd)))
             (- num (h_HoldAmount cmd))%Q (num (h_HoldAmount cmd)) d d'.
Proof.
  unfold reserveUsageBillingBatchImageBalance.
  destruct (h_HoldAmount cmd ≤ᶠ f0) eqn:E; [intros [= _ <- _]; by left|].
  intros Hm%move_cases. right. split; [|done].
  destruct (h_HoldAmount cmd) as [[]|[]| |[] m e]; done.
Qed.

Lemma capture_cases cmd d fs a d' fs' :
  captureUsageBillingBatchImageBalance cmd (d, fs) = Ok (a, (d', fs')) →
  let x := num (h_HoldAmount cmd) in
  let y := num (h_ActualAmount cmd) in
  d' = d ∨ moved (h_UserID cmd) (frozen_covers x)
             ((if Qltb y x then x - y else 0) - (if Qltb x y then y - x else 0))%Q (- x)%Q d d'.
Proof.
  unfold captureUsageBillingBatchImageBalance. cbv zeta.
  destruct (_ && _); [intros [= _ <- _]; by left|]. destruct (_ <ᶠ _); [done|].
  intros Hm%move_cases. by right.
Qed.

Lemma claim_exists_cases rid ak d fs b d' fs' :
  batchImageHoldClaimExists rid ak (d, fs) = Ok (b, (d', fs')) →
  d' = d ∧ (b = true → claimed d (rid, ak)).
Proof.
  unfold batchImageHoldClaimExists, claimed, query, stmt, tx_bind. simpl.
  destruct fs as [|[] fs]; [|done|]; simpl;
    (destruct (dedup d !! (rid, ak)) as [e|]; simpl;
     [intros [= <- <- <-]; split; [done|]; eauto|]);
    try (destruct fs as [|[] fs]; [|done|]; simpl);
    (destruct (archive d !! (rid, ak)) as [e|]; intros [= <- <- <-]; split; try done; eauto).
Qed.

Lemma release_cases cmd d fs a d' fs' :
  releaseUsageBillingBatchImageBalance cmd (d, fs) = Ok (a, (d', fs')) →
  d' = d ∨ claimed d (BatchImageHoldRequestID (h_BatchID cmd), h_APIKeyID cmd) ∧
           moved (h_UserID cmd) (frozen_covers (num (h_HoldAmount cmd)))
             (num (h_HoldAmount cmd)) (- num (h_HoldAmount cmd))%Q d d'.
Proof.
  unfold releaseUsageBillingBatchImageBalance. cbv zeta.
  destruct (_ ≤ᶠ _); [intros [= _ <- _]; by left|].
  unfold tx_bind at 1. destruct (batchImageHoldClaimExists _ _ _) as [[b [d1 fs1]]|] eqn:E; [|done].
  apply claim_exists_cases in E as [-> Hb]. destruct b; simpl; [|intros [= _ <- _]; by left].
  intros Hm%move_cases. right. auto.
Qed.

(** What one hold operation does: nothing, or its effect on the tables with the
    request claimed. *)
Lemma hold_op_cases hold cmd fl d :
  fst (applyBatchImageBalanceHold hold cmd fl d) = d ∨
  ∃ fs a fs',
    hold (hold_Normalize cmd)
      (set_dedup <[(h_RequestID (hold_Normalize cmd), h_APIKeyID (hold_Normalize cmd)) :=
                     h_RequestFingerprint (hold_Normalize cmd)]> d, fs)
      = Ok (a, (fst (applyBatchImageBalanceHold hold cmd fl d), fs')).
Proof.
  unfold applyBatchImageBalanceHold. cbv zeta. destruct (String.eqb _ _); [by left|].
  destruct (run_tx _ fl d) as [d' r] eqn:Hr.
  destruct (run_tx_cases _ _ _ _ _ Hr) as [->|(b & fs & Hb)]; [by left|]. right. simpl.
  unfold tx_bind at 1 in Hb.
  destruct (claimUsageBillingRequest _ _ _ _) as [[[] [d1 fs1]]|e] eqn:E; simpl in Hb; [|done|done].
  apply claim_true in E as [_ ->]. unfold tx_bind in Hb.
  destruct (hold _ _) as [[a [d2 fs2]]|e] eqn:Em; [|done]. injection Hb as <- <- <-. eauto.
Qed.

Lemma hold_Normalize_amounts cmd :
  h_HoldAmount (hold_Normalize cmd) = h_HoldAmount cmd ∧
  h_ActualAmount (hold_Normalize cmd) = h_ActualAmount cmd ∧
  h_UserID (hold_Normalize cmd) = h_UserID cmd ∧
  h_BatchID (hold_Normalize cmd) = TrimSpace (h_BatchID cmd).
Proof. unfold hold_Normalize. by destruct (String.eqb _ _). Qed.

Ltac hold_op f cases :=
  match goal with
  | cmd : BatchImageBalanceHoldCommand, fl : Faults, d : DB |- _ =>
      pose proof (hold_op_cases f cmd fl d) as Hhold;
      set (dnew := fst (applyBatchImageBalanceHold f cmd fl d)) in *; clearbody dnew;
      let fs := fresh "fs" in let a := fresh "a" in let fs' := fresh "fs'" in
      destruct Hhold as [->|(fs & a & fs' & Ho)]; [by left|];
      apply cases in Ho as [->|Ho]; [by left|]
  end.

(** The moves of the three operations on the tables of [d]. *)
Lemma hold_moves cmd fl d :
  let x := num (h_HoldAmount cmd) in
  let y := num (h_ActualAmount cmd) in
  let id := h_UserID cmd in
  let moves g db df d' :=
    users d' = users d ∨
    ∃ u u', users d !! id = Some u ∧ g u = true ∧ move_balance db df u = Some u' ∧
            users d' = <[id := u']> (users d) in
  ((h_HoldAmount cmd ≤ᶠ f0) = false →
     moves (balance_covers x) (- x)%Q x (run_op (OpReserve cmd fl) d)) ∧
  moves (frozen_covers x) x (- x)%Q (run_op (OpRelease cmd fl) d) ∧
  moves (frozen_covers x) ((if Qltb y x then x - y else 0) - (if Qltb x y then y - x else 0))%Q
    (- x)%Q (run_op (OpCapture cmd fl) d) ∧
  (users (run_op (OpReserve cmd fl) d) = users d ∨ (h_HoldAmount cmd ≤ᶠ f0) = false).
Proof.
  cbn [run_op]. destruct (hold_Normalize_amounts cmd) as (Eh & Ea & Eu & _).
  unfold ReserveBatchImageBalance, CaptureBatchImageBalance, ReleaseBatchImageBalance.
  split_and!.
  - intros Hpos. hold_op reserveUsageBillingBatchImageBalance reserve_cases.
    destruct Ho as [_ (u & u' & Hu)]. right.
    rewrite Eh, Eu in Hu. exists u, u'. destruct Hu as (?&?&?&->). by split_and!.
  - hold_op releaseUsageBillingBatchImageBalance release_cases.
    destruct Ho as [_ (u & u' & Hu)]. right.
    rewrite Eh, Eu in Hu. exists u, u'. destruct Hu as (?&?&?&->). by split_and!.
  - hold_op captureUsageBillingBatchImageBalance capture_cases.
    destruct Ho as (u & u' & Hu). right.
    rewrite Eh, Ea, Eu in Hu. exists u, u'. destruct Hu as (?&?&?&->). by split_and!.
  - destruct (h_HoldAmount cmd ≤ᶠ f0) eqn:E; [left|by right].
    destruct (hold_op_cases reserveUsageBillingBatchImageBalance cmd fl d)
      as [->|(fs & a & fs' & Ho)]; [done|].
    unfold reserveUsageBillingBatchImageBalance at 1 in Ho. rewrite Eh, E in Ho.
    injection Ho as _ Hd _. by rewrite <-Hd.
Qed.

(** The two balances after a move. *)
Lemma move_balance_inv db df u u' :
  move_balance db df u = Some u' →
  store scale8 (dec scale8 (u_balance u) + db)%Q = Some (u_balance u') ∧
  store scale8 (dec scale8 (frozen_of u) + df)%Q = Some (frozen_of u').
Proof.
  unfold move_balance. destruct (store _ (_ + db)%Q) as [b|]; simpl; [|done].
  destruct (store _ (_ + df)%Q) as [f|]; simpl; [|done]. by intros [= <-].
Qed.

Lemma subtract_balance_inv x u u' :
  subtract_balance x u = Some u' →
  store scale8 (dec scale8 (u_balance u) - x)%Q = Some (u_balance u') ∧
  u_frozen u' = u_frozen u ∧ u_deleted u' = u_deleted u.
Proof.
  unfold subtract_balance. destruct (store _ _) as [b|]; simpl; [|done]. by intros [= <-].
Qed.

(** What is kept of every user by every charge. *)
Lemma Apply_keeps_users (f : UserRow → Z) now cmd fl d :
  (∀ u u' x, subtract_balance x u = Some u' → f u' = f u) →
  ∀ i, f <$> users (run_op (OpApply now cmd fl) d) !! i = f <$> users d !! i.
Proof.
  intros Hf. pose (P := λ d d' : DB, ∀ i, f <$> users d' !! i = f <$> users d !! i).
  assert (PreOrder P) as HP by (split; [done|intros a b c Hab Hbc i; by rewrite Hbc]).
  change (P d (run_op (OpApply now cmd fl) d)). simpl. unfold Apply. cbv zeta.
  destruct (String.eqb _ _); [by intros i|].
  destruct (run_tx _ fl d) as [d' r] eqn:Hr.
  destruct (run_tx_cases _ _ _ _ _ Hr) as [->|(b & fs & Hb)]; [by intros i|].
  apply (claimed_body_commit (RequestID (Normalize cmd), APIKeyID (Normalize cmd))
             _ not_applied (applyUsageBillingEffects now (Normalize cmd)) id _ _ _ _ _
             (effects_claims _ _)) in Hb as (_ & _ & a & fs1 & fs2 & Hm & _).
  eapply (effects_keeps P) in Hm; [exact Hm|..].
  - intros d1 d2 Heq _ i. by rewrite Heq.
  - intros d1 id u u' x Hu Hs i. simpl. rewrite lookup_insert. case_decide; [subst|done].
    rewrite Hu. simpl. by rewrite (Hf _ _ _ Hs).
Qed.

Lemma archive_users victims d : users (CleanupUsageBillingDedup victims d) = users d.
Proof.
  unfold CleanupUsageBillingDedup. revert d. induction victims as [|v vs IH]; intros d; simpl; [done|].
  rewrite IH. unfold archive_key. destruct (dedup d !! v); [|done]. by destruct (archive d !! v).
Qed.

Definition frozen_ok (d : DB) : Prop := ∀ i u, users d !! i = Some u → 0 ≤ frozen_of u.
Definition finite_reserve (o : op) : Prop :=
  match o with OpReserve cmd _ => f_finite (h_HoldAmount cmd) = true | _ => True end.

Lemma frozen_ok_moved d d' id g db df :
  (∀ u, g u = true → (0 <= dec scale8 (frozen_of u) + df)%Q ∨ frozen_of u < 0) →
  (users d' = users d ∨
   ∃ u u', users d !! id = Some u ∧ g u = true ∧ move_balance db df u = Some u' ∧
           users d' = <[id := u']> (users d)) →
  frozen_ok d → frozen_ok d'.
Proof.
  unfold frozen_ok. intros Hg [->|(u & u' & Hu & Hgu & Hmv & ->)] Hok i v; [apply Hok|].
  rewrite lookup_insert. case_decide; [|apply Hok]. intros [= <-].
  apply move_balance_inv in Hmv as [_ Hf]. destruct (Hg _ Hgu) as [Hle|Hneg].
  - by eapply store_nonneg.
  - apply Hok in Hu. lia.
Qed.

(** C30: frozen money never goes below zero: whatever charges, reservations,
    captures, releases and archiving runs happen, with whatever faults, no
    user's frozen balance becomes negative (for reservations of finite
    amounts). *)
Theorem frozen_never_negative `{!PgFloatLaws} os d :
  Forall finite_reserve os → frozen_ok d → frozen_ok (run_ops os d).
Proof.
  intros Hos. revert d. induction Hos as [|o os Ho Hos IH]; intros d Hok; simpl; [done|].
  apply IH. clear IH.
  assert (∀ x u, frozen_covers x u = true → (0 <= dec scale8 (frozen_of u) + - x)%Q ∨ frozen_of u < 0)
    as Hcov.
  { intros x u Hx%Qle_bool_iff. left. by apply Qle_minus_iff in Hx. }
  destruct o as [now cmd fl|cmd fl|cmd fl|cmd fl|vs].
  - intros i u Hu. pose proof (Apply_keeps_users frozen_of now cmd fl d) as Hk.
    specialize (Hk ltac:(intros v v' x Hv; apply subtract_balance_inv in Hv as (_ & Hf & _);
                         unfold frozen_of; by rewrite Hf) i).
    rewrite Hu in Hk. destruct (users d !! i) as [v|] eqn:Hv; [|done]. simpl in Hk.
    injection Hk as ->. by eapply Hok.
  - destruct (hold_moves cmd fl d) as (Hr & _ & _ & [Heq|Hpos]).
    + intros i u. rewrite Heq. apply Hok.
    + eapply frozen_ok_moved; [|by apply Hr|done]. intros u _.
      assert (Qltb 0 (num (h_HoldAmount cmd)) = true) as Hn%Qltb_iff.
      { apply num_pos; [done|]. simpl in Ho.
        destruct (h_HoldAmount cmd) as [[]|[]| |[] m e]; done. }
      destruct (decide (frozen_of u < 0)) as [?|Hge]; [by right|left].
      assert (0 <= dec scale8 (frozen_of u))%Q by (unfold Qle, dec; simpl; lia).
      apply Qlt_le_weak in Hn. rewrite <-(Qplus_0_l 0). by apply Qplus_le_compat.
  - destruct (hold_moves cmd fl d) as (_ & _ & Hc & _). eapply frozen_ok_moved; [|apply Hc|done].
    apply Hcov.
  - destruct (hold_moves cmd fl d) as (_ & Hc & _ & _). eapply frozen_ok_moved; [|apply Hc|done].
    apply Hcov.
  - intros i u. simpl. rewrite archive_users. apply Hok.
Qed.

(** A hold is never released that was not reserved: when releasing a batch's
    hold changes a balance, some earlier operation made the claim of that
    batch's reservation (and, unless the tables already held that claim,
    changed the tables with it). *)
Theorem release_needs_reservation os cmd fl d k :
  k = (BatchImageHoldRequestID (h_BatchID (hold_Normalize cmd)), h_APIKeyID cmd) →
  h_RequestID (hold_Normalize cmd) ≠ fst k →
  ¬ claimed d k →
  users (run_op (OpRelease cmd fl) (run_ops os d)) ≠ users (run_ops os d) →
  ∃ pre o post, os = pre ++ o :: post ∧ op_key o = Some k ∧
                run_op o (run_ops pre d) ≠ run_ops pre d.
Proof.
  intros -> Hrid Hn Hchg. apply claimed_origin; [|done].
  simpl in Hchg. unfold ReleaseBatchImageBalance in Hchg.
  destruct (hold_op_cases releaseUsageBillingBatchImageBalance cmd fl (run_ops os d))
    as [Heq|(fs & a & fs' & Ho)]; [by rewrite Heq in Hchg|].
  apply release_cases in Ho as [Heq|[Hc _]]; [by rewrite Heq in Hchg|].
  rewrite hold_Normalize_key in Hc. unfold claimed in *. simpl in Hc.
  rewrite lookup_insert_ne in Hc; [done|]. intros [=]. by apply Hrid.
Qed.

(** ** Conservation *)

Definition total (u : UserRow) : Z := u_balance u + frozen_of u.

Lemma move_balance_exact db df a b u u' :
  (db == dec scale8 a)%Q → (df == dec scale8 b)%Q → move_balance db df u = Some u' →
  u_balance u' = u_balance u + a ∧ frozen_of u' = frozen_of u + b.
Proof.
  intros Ha Hb [Hbal Hfr]%move_balance_inv. split; (eapply store_exact_inv; [|done]).
  - by rewrite Ha, dec_plus.
  - by rewrite Hb, dec_plus.
Qed.

Lemma moved_totals d d' id g db df a b :
  (db == dec scale8 a)%Q → (df == dec scale8 b)%Q →
  (users d' = users d ∨
   ∃ u u', users d !! id = Some u ∧ g u = true ∧ move_balance db df u = Some u' ∧
           users d' = <[id := u']> (users d)) →
  (users d' = users d ∨ ∀ i, total <$> users d' !! i =
     (λ u, total u + if decide (i = id) then a + b else 0) <$> users d !! i).
Proof.
  intros Ha Hb [?|(u & u' & Hu & _ & Hmv & ->)]; [by left|right]. intros i.
  destruct (move_balance_exact _ _ _ _ _ _ Ha Hb Hmv) as [Hbal Hfr].
  rewrite lookup_insert. destruct (decide (id = i)) as [<-|Hne].
  - rewrite Hu. simpl. rewrite decide_True by done. f_equal. unfold total. lia.
  - rewrite decide_False by done. destruct (users d !! i); simpl; [|done]. f_equal. lia.
Qed.

Lemma Qltb_false x y : Qltb x y = false ↔ (y <= x)%Q.
Proof. rewrite <-not_true_iff_false, Qltb_iff. split; [apply Qnot_lt_le|apply Qle_not_lt]. Qed.

(** C4: holds move money and do not make any: for amounts that fit the columns,
    reserving and releasing leave every user's balance plus frozen balance as
    they were, and capturing leaves everything as it was or takes exactly the
    actual cost from that sum, for the job's user only. *)
Theorem holds_conserve_money cmd fl d z w :
  (num (h_HoldAmount cmd) == dec scale8 z)%Q → (num (h_ActualAmount cmd) == dec scale8 w)%Q →
  (∀ i, total <$> users (run_op (OpReserve cmd fl) d) !! i = total <$> users d !! i) ∧
  (∀ i, total <$> users (run_op (OpRelease cmd fl) d) !! i = total <$> users d !! i) ∧
  let d' := run_op (OpCapture cmd fl) d in
  (users d' = users d ∨
   ∀ i, total <$> users d' !! i =
        (λ u, total u - if decide (i = h_UserID cmd) then w else 0) <$> users d !! i).
Proof.
  intros Hz Hw. destruct (hold_moves cmd fl d) as (Hr & Hrel & Hcap & Hno).
  set (x := num (h_HoldAmount cmd)) in *. set (y := num (h_ActualAmount cmd)) in *.
  assert (- x == dec scale8 (- z))%Q as Hxz by (rewrite Hz; by unfold Qeq, dec, Qopp).
  assert (∀ d', (users d' = users d ∨ ∀ i, total <$> users d' !! i =
      (λ u, total u + if decide (i = h_UserID cmd) then 0 else 0) <$> users d !! i) →
    ∀ i, total <$> users d' !! i = total <$> users d !! i) as Hzero.
  { intros d' [->|Hall] i; [done|]. rewrite Hall. destruct (users d !! i); simpl; [|done].
    f_equal. case_decide; lia. }
  split_and!.
  - destruct Hno as [Heq|Hpos]; [intros i; by rewrite Heq|]. apply Hzero.
    specialize (Hr Hpos). apply (moved_totals _ _ _ _ _ _ _ _ Hxz Hz) in Hr.
    by replace (- z + z) with 0 in Hr by lia.
  - apply Hzero. apply (moved_totals _ _ _ _ _ _ _ _ Hz Hxz) in Hrel.
    by replace (z + - z) with 0 in Hrel by lia.
  - assert ((if Qltb y x then x - y else 0) - (if Qltb x y then y - x else 0)
            == dec scale8 (z - w))%Q as Hback.
    { rewrite <-dec_minus, <-Hz, <-Hw. destruct (Qltb y x) eqn:E1, (Qltb x y) eqn:E2.
      - apply Qltb_iff in E1, E2. exfalso. by apply (Qlt_irrefl x), Qlt_trans with y.
      - ring.
      - ring.
      - apply Qltb_false in E1, E2. assert (x == y)%Q as -> by (by apply Qle_antisym). ring. }
    apply (moved_totals _ _ _ _ _ _ _ _ Hback Hxz) in Hcap as [?|Hall]; [by left|right].
    intros i. rewrite Hall. destruct (users d !! i); simpl; [|done]. f_equal. case_decide; lia.
Qed.

(** ** What a charge does *)

(** One row of a table is replaced; [e] when there is no live row. *)
Definition replace_row {V A} (e : UBError) (live : V → bool) (f : V → option (A * V))
    (i : Z) (m : gmap Z V) : res UBError (A * gmap Z V) :=
  match m !! i with
  | Some v => if live v then match f v with
                             | Some (a, v') => Ok (a, <[i := v']> m)
                             | None => Err ErrSQL
                             end
              else Err e
  | None => Err e
  end.

(** The abstract charge: each cost that applies is booked on its one row.  The
    balance is reduced whether it covers the cost or not. *)
Definition charge_subscription (cost : Q) (s : SubscriptionRow) : option (unit * SubscriptionRow) :=
  x ← store scale10 (dec scale10 (s_daily s) + cost)%Q;
  y ← store scale10 (dec scale10 (s_weekly s) + cost)%Q;
  z ← store scale10 (dec scale10 (s_monthly s) + cost)%Q;
  Some ((), {| s_group := s_group s; s_daily := x; s_weekly := y; s_monthly := z;
               s_deleted := s_deleted s |}).
Definition charge_balance (cost : Q) (u : UserRow) : option ((f64 * bool) * UserRow) :=
  u' ← subtract_balance cost u;
  Some ((scan (dec scale8 (u_balance u')), Qle_bool cost (dec scale8 (u_balance u))), u').
Definition charge_account (now : time) (cost : Q) (a : AccountRow)
  : option (AccountQuotaState * AccountRow) :=
  Some (quota_state (account_increment now cost a), account_increment now cost a).

Definition sub_cost (cmd : UsageBillingCommand) : option Z :=
  match SubscriptionID cmd with
  | Some sid => if f0 <ᶠ SubscriptionCost cmd then Some sid else None
  | None => None
  end.
Definition charges_account (cmd : UsageBillingCommand) : bool :=
  (f0 <ᶠ AccountQuotaCost cmd)
  && (EqualFold (AccountType cmd) AccountTypeAPIKey || EqualFold (AccountType cmd) AccountTypeBedrock).
Definition notifies (amount : f64) (st : AccountQuotaState) : bool :=
  crossed (TotalUsed st) (TotalLimit st) amount || crossed (DailyUsed st) (DailyLimit st) amount
  || crossed (WeeklyUsed st) (WeeklyLimit st) amount.

Definition book_subscription (cmd : UsageBillingCommand) (d : DB)
  : res UBError (unit * gmap Z SubscriptionRow) :=
  match sub_cost cmd with
  | Some sid => replace_row ErrSubscriptionNotFound
                  (λ s, negb (s_deleted s || default true (groups d !! s_group s)))
                  (charge_subscription (num (SubscriptionCost cmd))) sid (subscriptions d)
  | None => Ok ((), subscriptions d)
  end.
Definition book_balance (cmd : UsageBillingCommand) (m : gmap Z UserRow)
  : res UBError (option (f64 * bool) * gmap Z UserRow) :=
  if f0 <ᶠ BalanceCost cmd then
    r <-? replace_row ErrUserNotFound (λ u, negb (u_deleted u))
            (charge_balance (num (BalanceCost cmd))) (UserID cmd) m;
    Ok (Some (fst r), snd r)
  else Ok (None, m).
Definition book_quota (cmd : UsageBillingCommand) (m : gmap Z APIKeyRow)
  : res UBError (bool * gmap Z APIKeyRow) :=
  if f0 <ᶠ APIKeyQuotaCost cmd
  then replace_row ErrAPIKeyNotFound (λ k, negb (k_deleted k))
         (quota_increment (num (APIKeyQuotaCost cmd))) (APIKeyID cmd) m
  else Ok (false, m).
Definition book_rate (now : time) (cmd : UsageBillingCommand) (m : gmap Z APIKeyRow)
  : res UBError (unit * gmap Z APIKeyRow) :=
  if f0 <ᶠ APIKeyRateLimitCost cmd
  then replace_row ErrAPIKeyNotFound (λ k, negb (k_deleted k))
         (rate_limit_increment now (num (APIKeyRateLimitCost cmd))) (APIKeyID cmd) m
  else Ok ((), m).
Definition book_account (now : time) (cmd : UsageBillingCommand) (m : gmap Z AccountRow)
  : res UBError (option AccountQuotaState * gmap Z AccountRow) :=
  if charges_account cmd then
    r <-? replace_row ErrAccountNotFound (λ a, negb (a_deleted a))
            (charge_account now (num (AccountQuotaCost cmd))) (AccountID cmd) m;
    Ok (Some (fst r), snd r)
  else Ok (None, m).

Definition charge (now : time) (cmd : UsageBillingCommand) (d : DB)
  : res UBError (DB * UsageBillingApplyResult) :=
  subs <-? book_subscription cmd d;
  us <-? book_balance cmd (users d);
  ks <-? book_quota cmd (api_keys d);
  ks' <-? book_rate now cmd (snd ks);
  accts <-? book_account now cmd (accounts d);
  Ok ({| users := snd us; groups := groups d; subscriptions := snd subs; api_keys := snd ks';
         accounts := snd accts; dedup := dedup d; archive := archive d;
         outbox := outbox d ++ match fst accts with
                               | Some st => if notifies (AccountQuotaCost cmd) st
                                            then [AccountID cmd] else []
                               | None => []
                               end |},
      {| Applied := true; APIKeyQuotaExhausted := fst ks; NewBalance := fst <$> fst us;
         BalanceOverdrafted := match fst us with Some (_, ok) => negb ok | None => false end;
         QuotaState := fst accts |}).

(** Statements without faults *)
Lemma stmt_nil {A} (f : DB → res UBError (A * DB)) d :
  stmt f (d, []) = match f d with Ok (a, d') => Ok (a, (d', [])) | Err e => Err e end.
Proof. done. Qed.

Definition lift {A} (set : A → DB) {B} (r : res UBError (B * A)) : res UBError (B * (DB * list bool)) :=
  match r with Ok (b, m) => Ok (b, (set m, [])) | Err e => Err e end.

Lemma subscription_nil sid cost d :
  incrementUsageBillingSubscription sid cost (d, []) =
  lift (λ m, set_subscriptions (λ _, m) d)
    (replace_row ErrSubscriptionNotFound
       (λ s, negb (s_deleted s || default true (groups d !! s_group s)))
       (charge_subscription (num cost)) sid (subscriptions d)).
Proof.
  unfold incrementUsageBillingSubscription, tx_bind, replace_row, charge_subscription. rewrite stmt_nil.
  destruct (subscriptions d !! sid) as [s|]; [|done]. destruct (_ || _); [done|]. simpl.
  repeat (destruct (store _ _); [simpl|done]). done.
Qed.

Lemma deduct_nil id cost d :
  deductUsageBillingBalance id cost (d, []) =
  lift (λ m, set_users (λ _, m) d)
    (replace_row ErrUserNotFound (λ u, negb (u_deleted u)) (charge_balance (num cost)) id (users d)).
Proof.
  unfold deductUsageBillingBalance, tx_bind, replace_row, charge_balance, update_user, stmt.
  simpl. destruct (users d !! id) as [u|] eqn:Eu; simpl; [|by rewrite Eu].
  destruct (u_deleted u) eqn:Ed; simpl; [by rewrite Eu, Ed|].
  destruct (Qle_bool _ _); simpl; [by destruct (subtract_balance _ u)|].
  rewrite Eu, Ed. simpl. by destruct (subtract_balance _ u).
Qed.

Lemma update_key_nil {A} id (f : APIKeyRow → option (A * APIKeyRow)) d :
  (r <-tx update_key id f; match r with Some a => tx_ret a | None => tx_fail ErrAPIKeyNotFound end)
    (d, []) =
  lift (λ m, set_api_keys (λ _, m) d)
    (replace_row ErrAPIKeyNotFound (λ k, negb (k_deleted k)) f id (api_keys d)).
Proof.
  unfold tx_bind, replace_row, update_key. rewrite stmt_nil.
  destruct (api_keys d !! id) as [k|]; [|done]. destruct (k_deleted k); [done|]. simpl.
  by destruct (f k) as [[]|].
Qed.

Lemma account_nil now id cost d :
  incrementUsageBillingAccountQuota now id cost (d, []) =
  match replace_row ErrAccountNotFound (λ a, negb (a_deleted a)) (charge_account now (num cost)) id
          (accounts d) with
  | Ok (st, m) => Ok (st, ((if notifies cost st then add_outbox id else λ d, d)
                             (set_accounts (λ _, m) d), []))
  | Err e => Err e
  end.
Proof.
  unfold incrementUsageBillingAccountQuota, tx_bind, replace_row. rewrite stmt_nil.
  destruct (accounts d !! id) as [row|]; [|done]. destruct (a_deleted row); [done|].
  unfold charge_account, negb. cbv zeta. unfold notifies. by destruct (_ || _ || _).
Qed.

(** A bind whose first part is a booking. *)
Lemma tx_bind_lift {A B C} (m : tx A) (k : A → tx B) s (set : C → DB) r :
  m s = lift set r →
  tx_bind m k s = match r with Ok (a, t) => k a (set t, []) | Err e => Err e end.
Proof. unfold tx_bind. intros ->. by destruct r as [[]|]. Qed.

Lemma effects_nil now cmd d :
  applyUsageBillingEffects now cmd (d, []) =
  match charge now cmd d with Ok (d', r) => Ok (r, (d', [])) | Err e => Err e end.
Proof.
  unfold applyUsageBillingEffects, charge, rbind.
  rewrite (tx_bind_lift _ _ _ (λ m, set_subscriptions (λ _, m) d) (book_subscription cmd d)).
  2:{ unfold book_subscription, sub_cost. destruct (SubscriptionID cmd); [|by destruct d].
      destruct (f0 <ᶠ _); [apply subscription_nil|by destruct d]. }
  destruct (book_subscription cmd d) as [[[] msub]|e]; [|done].
  rewrite (tx_bind_lift _ _ _ (λ m, set_users (λ _, m) (set_subscriptions (λ _, msub) d))
             (book_balance cmd (users d))).
  2:{ unfold book_balance. destruct (f0 <ᶠ _); [|done]. unfold tx_bind. rewrite deduct_nil. simpl.
      by destruct (replace_row _ _ _ _ _) as [[]|]. }
  destruct (book_balance cmd (users d)) as [[bal mus]|e]; [|done].
  set (d2 := set_users (λ _, mus) (set_subscriptions (λ _, msub) d)).
  rewrite (tx_bind_lift _ _ _ (λ m, set_api_keys (λ _, m) d2) (book_quota cmd (api_keys d))).
  2:{ unfold book_quota. destruct (f0 <ᶠ _); [|done]. exact (update_key_nil _ _ d2). }
  destruct (book_quota cmd (api_keys d)) as [[ex mks]|e]; [|done].
  rewrite (tx_bind_lift _ _ _ (λ m, set_api_keys (λ _, m) d2) (book_rate now cmd mks)).
  2:{ unfold book_rate. destruct (f0 <ᶠ _); [|done].
      transitivity (lift (λ m, set_api_keys (λ _, m) (set_api_keys (λ _, mks) d2))
        (replace_row ErrAPIKeyNotFound (λ k, negb (k_deleted k))
           (rate_limit_increment now (num (APIKeyRateLimitCost cmd))) (APIKeyID cmd) mks)).
      - etrans; [|exact (update_key_nil _ _ (set_api_keys (λ _, mks) d2))].
        unfold incrementUsageBillingAPIKeyRateLimit, tx_bind. by destruct (update_key _ _ _) as [[[[]|] ?]|].
      - by destruct (replace_row _ _ _ _ _) as [[]|]. }
  simpl. destruct (book_rate now cmd mks) as [[[] mks']|e]; [|done].
  unfold book_account, charges_account. destruct (_ && _); unfold tx_bind; simpl;
    [|by rewrite app_nil_r].
  rewrite account_nil. simpl.
  destruct (replace_row _ _ _ _ _) as [[st maccts]|e]; simpl; [|done].
  destruct (notifies _ _); [done|]. by rewrite app_nil_r.
Qed.

(** The fingerprint recorded for a request, live or archived. *)
Definition recorded (d : DB) (k : dedup_key) : option string := (dedup d ∪ archive d) !! k.

Lemma claim_nil rid ak fp d :
  claimUsageBillingRequest rid ak fp (d, []) =
  match recorded d (rid, ak) with
  | None => Ok (true, (set_dedup <[(rid, ak) := fp]> d, []))
  | Some e => if same_fingerprint e fp then
                Ok (false, (match dedup d !! (rid, ak) with
                            | Some _ => d
                            | None => set_dedup <[(rid, ak) := fp]> d
                            end, []))
              else Err ErrUsageBillingRequestConflict
  end.
Proof.
  unfold claimUsageBillingRequest, recorded, tx_bind, query, stmt. simpl. rewrite lookup_union.
  destruct (dedup d !! (rid, ak)) as [e|] eqn:E; simpl.
  - rewrite E, union_Some_l. by destruct (same_fingerprint e fp).
  - rewrite (left_id_L None union). destruct (archive d !! (rid, ak)) as [e|]; simpl; [|done].
    by destruct (same_fingerprint e fp).
Qed.

(** C3: an undisturbed [Apply] implements the abstract charge: without a request
    id it is refused; a request that is recorded, in the live or in the archive
    table, is not charged again, and is refused as a conflict when it carries
    another fingerprint; otherwise every cost is booked on its one row, the
    balance is reduced by the cost even below zero, and the first missing row
    or overflowing column refuses the whole charge. *)
Theorem Apply_refines_charge now cmd d :
  let c := Normalize cmd in
  let key := (RequestID c, APIKeyID c) in
  Apply now cmd no_faults d =
    if String.eqb (RequestID c) "" then (d, Err ErrUsageBillingRequestIDRequired)
    else match recorded d key with
         | Some e => (d, if same_fingerprint e (RequestFingerprint c) then Ok not_applied
                         else Err ErrUsageBillingRequestConflict)
         | None => match charge now c (set_dedup <[key := RequestFingerprint c]> d) with
                   | Ok (d', r) => (d', Ok r)
                   | Err e => (d, Err e)
                   end
         end.
Proof.
  cbv zeta. unfold Apply, run_tx. cbv zeta. destruct (String.eqb _ _); [done|]. simpl.
  unfold tx_bind at 1. rewrite claim_nil. destruct (recorded d _) as [e|].
  - by destruct (same_fingerprint e _).
  - simpl. unfold tx_bind. rewrite effects_nil. by destruct (charge _ _ _) as [[]|].
Qed.

(** ** The quota of an API key *)

Lemma quota_increment_exact q z k r :
  (q == dec scale8 z)%Q → quota_increment q k = Some r →
  let crossing := (0 <? k_quota k) && (k_quota_used k <? k_quota k)
                  && (k_quota k <=? k_quota_used k + z) in
  fst r = crossing ∧
  k_quota_used (snd r) = k_quota_used k + z ∧ k_quota (snd r) = k_quota k ∧
  k_status (snd r) = if crossing && String.eqb (k_status k) StatusAPIKeyActive
                     then StatusAPIKeyQuotaExhausted else k_status k.
Proof.
  intros Hq. unfold quota_increment.
  destruct (store _ _) as [used|] eqn:Es; [|done]. simpl. intros [= <-]. simpl.
  apply (store_exact_inv _ _ (k_quota_used k + z)) in Es; [|by rewrite Hq, dec_plus]. subst used.
  assert (Qltb (dec scale8 (k_quota_used k + z) - q) (dec scale8 (k_quota k))
          = (k_quota_used k <? k_quota k)) as ->.
  { apply eq_true_iff_eq. rewrite Qltb_iff, Z.ltb_lt, Hq, dec_minus.
    replace (k_quota_used k + z - z) with (k_quota_used k) by lia. unfold dec, Qlt. simpl. nia. }
  assert (Qle_bool (dec scale8 (k_quota k)) (dec scale8 (k_quota_used k) + q)
          = (k_quota k <=? k_quota_used k + z)) as ->.
  { apply eq_true_iff_eq. rewrite Qle_bool_iff, Z.leb_le, Hq, dec_plus. apply dec_le. }
  split_and!; [by destruct (0 <? _), (_ <? _), (_ <=? _)|done..|].
  by destruct (0 <? _), (_ <? _), (_ <=? _), (String.eqb _ _).
Qed.

(** A sequence of charges to one key. *)
Fixpoint quota_charges (amounts : list Q) (k : APIKeyRow) : option (list bool * APIKeyRow) :=
  match amounts with
  | [] => Some ([], k)
  | q :: rest =>
      r ← quota_increment q k;
      rs ← quota_charges rest (snd r);
      Some (fst r :: fst rs, snd rs)
  end.

Abbreviation column_amounts := (Forall (λ q, ∃ z, 0 ≤ z ∧ (q == dec scale8 z)%Q)).

(** A key at or beyond its quota is not reported again. *)
Lemma quota_charges_past amounts flags k k' :
  column_amounts amounts → k_quota k ≤ k_quota_used k → 0 < k_quota k →
  quota_charges amounts k = Some (flags, k') →
  List.filter id flags = [] ∧ k_quota k' ≤ k_quota_used k' ∧ k_status k' = k_status k.
Proof.
  intros Hex. revert flags k k'.
  induction Hex as [|q rest (z & Hz & Hqz) _ IH]; intros flags k k' Hle Hpos; simpl.
  - by intros [= <- <-].
  - destruct (quota_increment q k) as [[b k1]|] eqn:E; [simpl|done].
    destruct (quota_charges rest k1) as [[bs k2]|] eqn:Er; [simpl|done]. intros [= <- <-].
    apply (quota_increment_exact _ z) in E as (Eb & Eu & Eq & Est); [|done]. simpl in *.
    rewrite (proj2 (Z.ltb_ge _ _) Hle), andb_false_r in *. simpl in *. subst b.
    apply IH in Er as (? & ? & ->); [done|lia..].
Qed.

(** an active key below its quota is reported exhausted by exactly one
    charge, the one that reaches the quota, and by none when the quota is not
    reached; its status then is [quota_exhausted], and it stays active
    otherwise (for amounts that fit the column). *)
Theorem quota_exhausted_once amounts k flags k' :
  column_amounts amounts →
  0 < k_quota k → k_quota_used k < k_quota k → k_status k = StatusAPIKeyActive →
  quota_charges amounts k = Some (flags, k') →
  let reached := k_quota k' <=? k_quota_used k' in
  length (List.filter id flags) = (if reached then 1 else 0)%nat ∧
  k_status k' = if reached then StatusAPIKeyQuotaExhausted else StatusAPIKeyActive.
Proof.
  intros Hex. cbv zeta. revert flags k k'.
  induction Hex as [|q rest (z & Hz & Hqz) Hrest IH]; intros flags k k' Hq Hlt Hst; simpl.
  - intros [= <- <-]. rewrite (proj2 (Z.leb_gt _ _) Hlt). by rewrite Hst.
  - destruct (quota_increment q k) as [[b k1]|] eqn:E; [simpl|done].
    destruct (quota_charges rest k1) as [[bs k2]|] eqn:Er; [simpl|done]. intros [= <- <-].
    apply (quota_increment_exact _ z) in E as (Eb & Eu & Eq & Est); [|done]. simpl in *.
    rewrite (proj2 (Z.ltb_lt _ _) Hq), (proj2 (Z.ltb_lt _ _) Hlt), Hst in *. simpl in *.
    destruct (k_quota k <=? k_quota_used k + z) eqn:Ecross; subst b; simpl.
    + apply Z.leb_le in Ecross.
      destruct (quota_charges_past rest bs k1 k2) as (Hbs & Hle & ->); [done|lia|lia|done|].
      unfold id in *. by rewrite Hbs, Est, (proj2 (Z.leb_le _ _) Hle).
    + apply Z.leb_gt in Ecross. apply (IH bs k1 k2); [lia|lia| |done]. by rewrite Est.
Qed.

End Props.

(** ** Concrete runs *)

Module UsageDemo.

(** The exact rational a float denotes. *)
Definition exact_num (x : f64) : Q :=
  match x with
  | S754_finite s m e =>
      let n := if s then Z.neg m else Z.pos m in
      if 0 <=? e then (n * 2 ^ e) # 1 else n # Z.to_pos (2 ^ (- e))
  | _ => 0%Q
  end.

#[local] Instance demo_text : GoText := ascii_text.
#[local] Instance demo_hash : GoHash := {| sha256_hex := λ s, s; fmt_f10 := λ _, "0" |}.
#[local] Instance demo_num : PgFloat := {| num := exact_num; scan := λ _, f0 |}.
#[local] Instance demo_clock : PgClock :=
  {| trunc_day := λ t, t; next_daily_reset := λ _ t, t; next_weekly_reset := λ _ t, t |}.
#[local] Instance demo_num_laws : PgFloatLaws.
Proof.
  split. intros [s|s| |[] m e] Hfin Hpos; try done. simpl in *.
  unfold exact_num, Qltb. destruct (0 <=? e) eqn:E; unfold Qle_bool; simpl; [|done].
  apply negb_true_iff, Z.leb_gt. assert (0 < 2 ^ e) by (apply Z.pow_pos_nonneg; lia). lia.
Qed.

Definition user_with (balance frozen : Z) : UserRow :=
  {| u_balance := balance; u_frozen := Some frozen; u_deleted := false |}.
Definition db_with (balance frozen : Z) : DB :=
  {| users := {[7 := user_with balance frozen]}; groups := ∅; subscriptions := ∅; api_keys := ∅;
     accounts := ∅; dedup := ∅; archive := ∅; outbox := [] |}.
Definition balances (d : DB) : option (Z * Z) := (λ u, (u_balance u, frozen_of u)) <$> users d !! 7.

Definition hold_cmd (rid batch : string) (hold actual : Z) : BatchImageBalanceHoldCommand :=
  {| h_RequestID := rid; h_APIKeyID := 1; h_RequestFingerprint := "fp"; h_RequestPayloadHash := "";
     h_UserID := 7; h_BatchID := batch; h_HoldAmount := f_of_int hold;
     h_ActualAmount := f_of_int actual |}.
Definition reserve_op batch hold :=
  OpReserve (hold_cmd (BatchImageHoldRequestID batch) batch hold 0) no_faults.
Definition capture_op batch hold actual :=
  OpCapture (hold_cmd (BatchImageCaptureRequestID batch) batch hold actual) no_faults.
Definition release_op batch hold :=
  OpRelease (hold_cmd (BatchImageReleaseRequestID batch) batch hold 0) no_faults.

(** A batch that is reserved, captured and released: the release after the
    capture pays the hold back a second time, out of what another batch has
    frozen. *)
Example release_after_capture :
  balances (run_ops [reserve_op "a" 3; reserve_op "b" 4; capture_op "a" 3 3; release_op "a" 3]
              (db_with (10 * 10 ^ 8) 0)) = Some (6 * 10 ^ 8, 1 * 10 ^ 8).
Proof. vm_compute. reflexivity. Qed.

Lemma charge_at_most_once_witness :
  run_op (reserve_op "a" 3) (run_ops [reserve_op "b" 4] (db_with (10 * 10 ^ 8) 0))
    ≠ run_ops [reserve_op "b" 4] (db_with (10 * 10 ^ 8) 0) ∧
  let d3 := run_ops [OpArchive [("batch_image_hold:a", 1)]; release_op "b" 4]
              (run_op (reserve_op "a" 3) (run_ops [reserve_op "b" 4] (db_with (10 * 10 ^ 8) 0))) in
  run_op (reserve_op "a" 3) d3 = d3.
Proof.
  assert (run_op (reserve_op "a" 3) (run_ops [reserve_op "b" 4] (db_with (10 * 10 ^ 8) 0))
    ≠ run_ops [reserve_op "b" 4] (db_with (10 * 10 ^ 8) 0)) as Hne.
  { intros Heq%(f_equal balances). vm_compute in Heq. discriminate. }
  split; [exact Hne|].
  exact (charge_at_most_once [reserve_op "b" 4] (reserve_op "a" 3)
           [OpArchive [("batch_image_hold:a", 1)]; release_op "b" 4] (reserve_op "a" 3) _
           ("batch_image_hold:a", 1) eq_refl eq_refl Hne).
Defined.

Lemma frozen_never_negative_witness :
  frozen_ok (run_ops [reserve_op "a" 3; release_op "a" 3; release_op "a" 3] (db_with (10 * 10 ^ 8) 0)).
Proof.
  apply (frozen_never_negative [reserve_op "a" 3; release_op "a" 3; release_op "a" 3]).
  - repeat constructor.
  - intros i u. simpl. intros [<- <-]%lookup_singleton_Some. vm_compute. discriminate.
Defined.

Lemma release_needs_reservation_witness :
  ∃ pre o post, [reserve_op "a" 3] = pre ++ o :: post ∧ op_key o = Some ("batch_image_hold:a", 1) ∧
    run_op o (run_ops pre (db_with (10 * 10 ^ 8) 0)) ≠ run_ops pre (db_with (10 * 10 ^ 8) 0).
Proof.
  apply (release_needs_reservation [reserve_op "a" 3]
           (hold_cmd (BatchImageReleaseRequestID "a") "a" 3 0) no_faults).
  - vm_compute. reflexivity.
  - vm_compute. discriminate.
  - vm_compute. by intros [[? ?]|[? ?]].
  - intros Heq%(f_equal (lookup 7)). vm_compute in Heq. discriminate.
Defined.

Lemma holds_conserve_money_witness :
  let cmd := hold_cmd "r" "a" 3 2 in
  let d := db_with (10 * 10 ^ 8) (5 * 10 ^ 8) in
  let d' := run_op (OpCapture cmd no_faults) d in
  balances d' = Some (11 * 10 ^ 8, 2 * 10 ^ 8) ∧
  (users d' = users d ∨
   ∀ i, total <$> users d' !! i =
        (λ u, total u - if decide (i = h_UserID cmd) then 2 * 10 ^ 8 else 0) <$> users d !! i).
Proof.
  split; [vm_compute; reflexivity|].
  apply (holds_conserve_money (hold_cmd "r" "a" 3 2) no_faults (db_with (10 * 10 ^ 8) (5 * 10 ^ 8))
           (3 * 10 ^ 8) (2 * 10 ^ 8)); vm_compute; reflexivity.
Defined.

Definition key_with (quota used : Z) : APIKeyRow :=
  {| k_quota := quota; k_quota_used := used; k_status := StatusAPIKeyActive; k_usage_5h := 0;
     k_usage_1d := 0; k_usage_7d := 0; k_window_5h := None; k_window_1d := None;
     k_window_7d := None; k_deleted := false |}.

Lemma quota_exhausted_once_witness :
  let k' := snd (default ([], key_with 0 0)
                   (quota_charges [dec scale8 4; dec scale8 4; dec scale8 4] (key_with 10 1))) in
  k_quota_used k' = 13 ∧ k_status k' = StatusAPIKeyQuotaExhausted.
Proof.
  split; [vm_compute; reflexivity|].
  eapply (quota_exhausted_once [dec scale8 4; dec scale8 4; dec scale8 4] (key_with 10 1)).
  - repeat constructor; (exists 4; split; [lia|reflexivity]).
  - reflexivity.
  - reflexivity.
  - reflexivity.
  - vm_compute. reflexivity.
Defined.

(** Half a unit of the last place is rounded up on both sides of a
    reservation: the two balances together grow by one unit. *)
Lemma half_unit_reserve x u u' :
  (x == 1 # 200000000)%Q → 0 < u_balance u → 0 ≤ frozen_of u →
  move_balance (- x)%Q x u = Some u' → total u' = total u + 1.
Proof.
  intros Hx Hb Hf [Hbal Hfr]%move_balance_inv.
  rewrite (store_proper _ _ (2 * u_balance u - 1 # 200000000)) in Hbal
    by (rewrite Hx; unfold Qeq, dec, Qplus, scale8; simpl; lia).
  rewrite (store_proper _ _ (2 * frozen_of u + 1 # 200000000)) in Hfr
    by (rewrite Hx; unfold Qeq, dec, Qplus, scale8; simpl; lia).
  unfold store in *. destruct (_ <? _) in Hbal; [|done]. destruct (_ <? _) in Hfr; [|done].
  injection Hbal as Hbal. injection Hfr as Hfr. unfold total. rewrite <-Hbal, <-Hfr.
  assert (∀ n, 0 < n → round_half_away ((n # 200000000) * (Z.pos scale8 # 1))
                 = (2 * n + 2) / 4) as Hround.
  { intros n Hn. rewrite (round_half_away_proper _ (n # 2))
      by (unfold Qeq, Qmult, scale8; simpl; lia).
    unfold round_half_away. cbn [Qnum]. rewrite Z.sgn_pos, Z.abs_eq, Z.mul_1_l by lia. reflexivity. }
  rewrite !Hround by lia.
  replace (2 * (2 * u_balance u - 1) + 2) with (u_balance u * 4) by lia.
  replace (2 * (2 * frozen_of u + 1) + 2) with (frozen_of u * 4 + 4) by lia.
  rewrite Z.div_mul by lia. replace (frozen_of u * 4 + 4) with ((frozen_of u + 1) * 4) by lia.
  rewrite Z.div_mul by lia. lia.
Qed.

(** With half a unit the exhaustion report and the status disagree: the charge
    that fills the quota is reported but leaves the key active, and no later
    charge changes its status. *)
Example half_unit_quota :
  (λ r, (fst r, k_status (snd r))) <$>
    quota_charges [(1 # 200000000)%Q; dec scale8 5; dec scale8 5] (key_with 10 9)
  = Some ([true; false; false], StatusAPIKeyActive).
Proof. vm_compute. reflexivity. Qed.

End UsageDemo.
