(* ===== verification/GoUTF8.v ===== *)
(** * UTF-8

    [utf8.ValidString] and slices [s\[:n\]] of Go strings, with the fact that
    a valid string has a character boundary in every four bytes. *)

From Stdlib Require Import ZArith Lia Ascii String Bool.
From stdpp Require Import base numbers option list strings.
From S2P Require Import Prelude GoStrings.

#[local] Open Scope Z_scope.

(** [s\[:n\]] for [n ≤ len s] *)
Fixpoint str_take (n : nat) (s : string) : string :=
  match n, s with
  | S n', String c s' => String c (str_take n' s')
  | _, _ => ""
  end.
Fixpoint str_drop (n : nat) (s : string) : string :=
  match n, s with
  | S n', String _ s' => str_drop n' s'
  | _, _ => s
  end.

Definition between (lo hi : Z) (c : ascii) : bool := (lo <=? byte_of c) && (byte_of c <=? hi).
Definition continuation : ascii → bool := between 128 191.

(** The bounds of the second byte, by the first byte of a sequence. *)
Definition second_byte (c : ascii) : ascii → bool :=
  if byte_of c =? 224 then between 160 191
  else if byte_of c =? 237 then between 128 159
  else if byte_of c =? 240 then between 144 191
  else if byte_of c =? 244 then between 128 143
  else continuation.

(** The length of the UTF-8 sequence a string starts with. *)
Definition first_sequence (s : string) : option nat :=
  match s with
  | String c s1 =>
      if byte_of c <? 128 then Some 1%nat
      else match s1 with
           | String c1 s2 =>
               if negb (second_byte c c1) then None
               else if between 194 223 c then Some 2%nat
               else match s2 with
                    | String c2 s3 =>
                        if negb (continuation c2) then None
                        else if between 224 239 c then Some 3%nat
                        else match s3 with
                             | String c3 _ =>
                                 if between 240 244 c && continuation c3 then Some 4%nat else None
                             | "" => None
                             end
                    | "" => None
                    end
           | "" => None
           end
  | "" => None
  end.

#[global] Arguments first_sequence : simpl never.

Fixpoint valid_fuel (n : nat) (s : string) : bool :=
  match s with
  | "" => true
  | _ => match n with
         | O => false
         | S n' => match first_sequence s with
                   | Some l => valid_fuel n' (str_drop l s)
                   | None => false
                   end
         end
  end.
(** [utf8.ValidString] *)
Definition ValidString (s : string) : bool := valid_fuel (String.length s) s.

(** ** Facts *)

Lemma str_take_length n s : (n ≤ String.length s)%nat → String.length (str_take n s) = n.
Proof.
  revert s. induction n as [|n IH]; intros [|c s]; simpl; intros Hn; try done; try lia.
  f_equal. apply IH. lia.
Qed.
Lemma str_take_prefix n s : s = str_take n s +:+ str_drop n s.
Proof. revert s. induction n as [|n IH]; intros [|c s]; simpl; try done. change (String c s = String c (str_take n s +:+ str_drop n s)). by rewrite <-IH. Qed.
Lemma str_drop_length n s : String.length (str_drop n s) = (String.length s - n)%nat.
Proof. revert s. induction n as [|n IH]; intros [|c s]; simpl; try done. Qed.
Lemma str_take_all n s : (String.length s ≤ n)%nat → str_take n s = s.
Proof.
  revert s. induction n as [|n IH]; intros [|c s]; simpl; intros Hn; try done; try lia.
  f_equal. apply IH. lia.
Qed.

Lemma first_sequence_bounds s l :
  first_sequence s = Some l → (1 ≤ l ≤ 4)%nat ∧ (l ≤ String.length s)%nat.
Proof.
  unfold first_sequence. destruct s as [|c [|c1 [|c2 [|c3 s]]]]; simpl; try done;
    repeat case_match; try done; intros [= <-]; lia.
Qed.

(** The first sequence does not depend on what follows it. *)
Lemma first_sequence_take s l n :
  first_sequence s = Some l → (l ≤ n)%nat → first_sequence (str_take n s) = Some l.
Proof.
  unfold first_sequence. intros Hs Hn.
  destruct s as [|c [|c1 [|c2 [|c3 s]]]]; simpl in *; try done;
    repeat (case_match; try done); simplify_eq;
    repeat (destruct n as [|n]; [lia|]; simpl in *); repeat (case_match; try done); congruence.
Qed.

Lemma str_drop_take l n s : (l ≤ n)%nat → str_drop l (str_take n s) = str_take (n - l) (str_drop l s).
Proof.
  revert n s. induction l as [|l IH]; intros n s Hn; simpl; [by rewrite Nat.sub_0_r|].
  destruct n as [|n]; [lia|]. destruct s as [|c s]; simpl; [by destruct (n - l)%nat|].
  apply IH. lia.
Qed.

Lemma valid_fuel_more n m s : (n ≤ m)%nat → valid_fuel n s = true → valid_fuel m s = true.
Proof.
  revert m s. induction n as [|n IH]; intros m [|c s] Hm; destruct m; simpl; try done; [lia|].
  destruct (first_sequence (String c s)) as [l|]; [|done]. apply IH. lia.
Qed.

(** What validity gives, one sequence at a time. *)
Lemma ValidString_cons s l :
  s ≠ "" → first_sequence s = Some l → ValidString (str_drop l s) = true → ValidString s = true.
Proof.
  unfold ValidString. intros Hs Hl Hv. pose proof (first_sequence_bounds _ _ Hl) as [Hb Hlen].
  destruct s as [|c s]; [done|]. simpl. rewrite Hl.
  eapply valid_fuel_more; [|exact Hv]. rewrite str_drop_length. simpl in *. lia.
Qed.

(** A valid string has a valid prefix that ends in any four bytes. *)
Lemma valid_prefix_near n s :
  ValidString s = true → (n ≤ String.length s)%nat →
  ∃ m, (m ≤ n)%nat ∧ (n < m + 4)%nat ∧ ValidString (str_take m s) = true.
Proof.
  unfold ValidString at 1. generalize (String.length s) at 1. intros fuel. revert n s.
  induction fuel as [|fuel IH]; intros n s Hv Hn.
  { destruct s; simpl in *; [|done]. exists 0%nat. split_and!; [lia|lia|done]. }
  destruct (decide (n < 4)%nat) as [Hsmall|Hbig].
  { exists 0%nat. split_and!; [lia|lia|by destruct s]. }
  destruct s as [|c s]; [simpl in Hn; lia|]. simpl in Hv.
  destruct (first_sequence (String c s)) as [l|] eqn:El; [|done].
  pose proof (first_sequence_bounds _ _ El) as [Hb Hlen].
  destruct (IH (n - l)%nat (str_drop l (String c s))) as (m & Hm1 & Hm2 & Hm3);
    [done|rewrite str_drop_length; lia|].
  exists (m + l)%nat. split_and!; [lia|lia|].
  apply (ValidString_cons _ l); [by destruct (m + l)%nat eqn:E; [lia|]|apply first_sequence_take; [done|lia]|].
  rewrite str_drop_take by lia. by replace (m + l - l)%nat with m by lia.
Qed.
