(* ===== verification/Redact.v ===== *)
(** * Redaction of JSON

    [src/backend/internal/util/logredact/redact.go]: JSON values, and the
    removal of the values of sensitive keys.  [encoding/json] and the regular
    expressions for text that is not JSON are the class [GoJSON]. *)

From Stdlib Require Import ZArith Lia Ascii String Bool.
From stdpp Require Import base numbers option list gmap strings.
From S2P Require Import Prelude GoStrings.

#[local] Open Scope Z_scope.

(** ** JSON values

    What [json.Unmarshal] stores in an [any]; an object is a [map[string]any],
    here the list of its entries, with distinct keys. *)

Inductive Json :=
| JNull
| JBool (b : bool)
| JNum (literal : string)
| JStr (s : string)
| JArr (l : list Json)
| JObj (m : list (string * Json)).

Fixpoint Json_rect' (P : Json → Prop)
    (Hnull : P JNull) (Hbool : ∀ b, P (JBool b)) (Hnum : ∀ n, P (JNum n)) (Hstr : ∀ s, P (JStr s))
    (Harr : ∀ l, Forall P l → P (JArr l)) (Hobj : ∀ m, Forall (λ kv, P (snd kv)) m → P (JObj m))
    (v : Json) : P v :=
  let rec := Json_rect' P Hnull Hbool Hnum Hstr Harr Hobj in
  match v with
  | JNull => Hnull | JBool b => Hbool b | JNum n => Hnum n | JStr s => Hstr s
  | JArr l => Harr l ((fix go l : Forall P l :=
                         match l with [] => Forall_nil_2 _ | x :: l => Forall_cons_2 _ _ _ (rec x) (go l) end) l)
  | JObj m => Hobj m ((fix go m : Forall (λ kv, P (snd kv)) m :=
                         match m with
                         | [] => Forall_nil_2 _
                         | kv :: m => Forall_cons_2 (λ kv, P (snd kv)) _ _ (rec (snd kv)) (go m)
                         end) m)
  end.

(** [encoding/json], the conversion of a number literal to a float and on to an
    int64, and the replacements of [RedactText] on other text. *)
Class GoJSON := {
  json_Marshal : Json → option string;
  json_Unmarshal : string → option Json;
  json_int64 : string → Z;
  redact_patterns : string → string;
}.

(** ** logredact *)

Definition maxRedactDepth : nat := 32.
Definition defaultSensitiveKeys : list string :=
  ["authorization_code"; "code"; "code_verifier"; "access_token"; "refresh_token"; "id_token";
   "client_secret"; "password"].

Section Redact.
Context `{GoText}.

Definition normalizeKey (key : string) : string := ToLower (TrimSpace key).
Definition isSensitiveKey (key : string) (keys : list string) : bool :=
  bool_decide (normalizeKey key ∈ keys).
Definition buildKeySet (extraKeys : list string) : list string :=
  defaultSensitiveKeys ++ List.filter (λ k, negb (String.eqb k "")) (normalizeKey <$> extraKeys).

(** [redactValueWithDepth]; [room] is what is left of [maxRedactDepth]. *)
Fixpoint redactValueWithDepth (keys : list string) (room : nat) (v : Json) {struct v} : Json :=
  match v with
  | JObj m =>
      JObj (map (λ kv, (fst kv,
                    if isSensitiveKey (fst kv) keys then JStr "***"
                    else match room with
                         | O => JStr "<depth limit exceeded>"
                         | S room => redactValueWithDepth keys room (snd kv)
                         end)) m)
  | JArr l =>
      JArr (map (λ x, match room with
                  | O => JStr "<depth limit exceeded>"
                  | S room => redactValueWithDepth keys room x
                  end) l)
  | _ => v
  end.
End Redact.

Section RedactText.
Context `{GoText} `{GoJSON}.

Definition RedactJSON (raw : string) (extraKeys : list string) : string :=
  if String.eqb raw "" then ""
  else match json_Unmarshal raw with
       | None => "<non-json payload redacted>"
       | Some v =>
           match json_Marshal (redactValueWithDepth (buildKeySet extraKeys) maxRedactDepth v) with
           | None => "<redacted>"
           | Some s => s
           end
       end.

(** [RedactText]: [json.Valid] holds of what [json.Unmarshal] accepts. *)
Definition RedactText (input : string) (extraKeys : list string) : string :=
  let input := TrimSpace input in
  if String.eqb input "" then ""
  else match json_Unmarshal input with
       | Some _ => RedactJSON input extraKeys
       | None => redact_patterns input
       end.
End RedactText.

(** ** Properties *)

Section Facts.
Context `{GoText}.

(** No object in the value shows the value of a sensitive key. *)
Fixpoint hides_secrets (keys : list string) (v : Json) : bool :=
  match v with
  | JObj m => forallb (λ kv, if isSensitiveKey (fst kv) keys
                             then match snd kv with JStr s => String.eqb s "***" | _ => false end
                             else hides_secrets keys (snd kv)) m
  | JArr l => forallb (hides_secrets keys) l
  | _ => true
  end.

(** No object in the value has a sensitive key. *)
Fixpoint no_sensitive_key (keys : list string) (v : Json) : bool :=
  match v with
  | JObj m => forallb (λ kv, negb (isSensitiveKey (fst kv) keys) && no_sensitive_key keys (snd kv)) m
  | JArr l => forallb (no_sensitive_key keys) l
  | _ => true
  end.

(** How deeply values are nested. *)
Fixpoint jdepth (v : Json) : nat :=
  match v with
  | JObj m => S (foldr (λ kv n, jdepth (snd kv) `max` n)%nat O m)
  | JArr l => S (foldr (λ x n, jdepth x `max` n)%nat O l)
  | _ => 1%nat
  end.

Lemma jdepth_pos v : (1 ≤ jdepth v)%nat.
Proof. destruct v; simpl; lia. Qed.

Lemma forallb_map {A B} (f : A → B) (p : B → bool) (l : list A) :
  (∀ x, x ∈ l → p (f x) = true) → forallb p (map f l) = true.
Proof.
  intros Hp. apply forallb_forall. intros y (x & <- & Hx)%in_map_iff. by apply Hp, list_elem_of_In.
Qed.
Lemma map_id_in {A} (f : A → A) (l : list A) : (∀ x, x ∈ l → f x = x) → map f l = l.
Proof.
  intros Hf. etrans; [|apply map_id]. apply map_ext_in. intros x Hx. by apply Hf, list_elem_of_In.
Qed.

Lemma redact_hides keys v room : hides_secrets keys (redactValueWithDepth keys room v) = true.
Proof.
  revert room. induction v as [| | | |l IH|m IH] using Json_rect'; intros room; simpl; try done;
    apply forallb_map; intros x Hx; rewrite Forall_forall in IH; specialize (IH _ Hx).
  - destruct room; [done|apply IH].
  - simpl. destruct (isSensitiveKey _ _); [done|]. destruct room; [done|apply IH].
Qed.

Lemma redact_idem keys v room :
  redactValueWithDepth keys room (redactValueWithDepth keys room v) = redactValueWithDepth keys room v.
Proof.
  revert room. induction v as [| | | |l IH|m IH] using Json_rect'; intros room; simpl; try done;
    f_equal; rewrite map_map; apply map_ext_in; intros x Hx%list_elem_of_In;
    rewrite Forall_forall in IH; specialize (IH _ Hx); simpl.
  - destruct room; [done|apply IH].
  - destruct (isSensitiveKey _ _); [done|]. destruct room; [done|]. by rewrite IH.
Qed.

Lemma foldr_max_le {A} (f : A → nat) (l : list A) n x :
  (foldr (λ x n, f x `max` n) O l ≤ n)%nat → x ∈ l → (f x ≤ n)%nat.
Proof.
  induction l as [|y l IH]; simpl; intros Hn; [by intros ?%elem_of_nil|].
  rewrite elem_of_cons. intros [->|Hx]; [lia|]. apply IH; [lia|done].
Qed.

Lemma redact_id keys v room :
  no_sensitive_key keys v = true → (jdepth v ≤ S room)%nat → redactValueWithDepth keys room v = v.
Proof.
  revert room. induction v as [| | | |l IH|m IH] using Json_rect'; intros room; simpl; try done;
    intros Hk Hd; f_equal; apply map_id_in; intros x Hx; rewrite forallb_forall in Hk;
    rewrite Forall_forall in IH; specialize (IH _ Hx);
    specialize (Hk x (proj1 (list_elem_of_In _ _) Hx)); apply le_S_n in Hd.
  - apply (foldr_max_le jdepth _ room x) in Hd; [|done].
    destruct room; [pose proof (jdepth_pos x); lia|by apply IH].
  - apply andb_true_iff in Hk as [->%negb_true_iff Hk].
    apply (foldr_max_le (λ kv, jdepth (snd kv)) _ room x) in Hd; [|done].
    destruct x as [k x]. simpl in *. f_equal.
    destruct room; [pose proof (jdepth_pos x); lia|by apply IH].
Qed.
End Facts.
