(* ===== verification/Proc.v ===== *)
(** * Concurrent processes on a shared state

    The server runs many requests at once on shared tables, and can be stopped
    between any two statements.  A process is a tree of atomic actions (a
    statement or a committed transaction, a read of the clock); an action gets
    an oracle value, which says whether it fails and what time it is.  A run
    is a schedule: which process moves next, with which oracle value; a process
    that is never scheduled again has crashed.

    [ends OK n p s Q] says that [p], alone, ends; [safe G P p Q] is a rely-guarantee triple: started where [P] holds, every
    action of [p] makes a step of the relation [G], whatever other processes
    that also make steps of [G] do in between, and where [p] ends with [a],
    [Q a] holds from then on. *)

From stdpp Require Import base list relations option.
From S2P Require Import Prelude.

Inductive proc (S O A : Type) : Type :=
| Ret (a : A)
| Act {B : Type} (f : O → S → B * S) (k : B → proc S O A).
Arguments Ret {S O A} a.
Arguments Act {S O A B} f k.

Fixpoint proc_bind {S O A B} (p : proc S O A) (k : A → proc S O B) : proc S O B :=
  match p with
  | Ret a => k a
  | Act f k' => Act f (λ b, proc_bind (k' b) k)
  end.
Definition act {S O B} (f : O → S → B * S) : proc S O B := Act f Ret.

Notation "x <-p m ; k" := (proc_bind m (λ x, k))
  (at level 100, m at level 99, k at level 200, right associativity) : go_scope.

Section Run.
Context {S O A : Type}.

(** One scheduled action of process [i]. *)
Definition pool_step (w : S * list (proc S O A)) (m : nat * O) : S * list (proc S O A) :=
  let (s, ps) := w in
  match ps !! fst m with
  | Some (Act f k) => let (b, s') := f (snd m) s in (s', <[fst m := k b]> ps)
  | _ => w
  end.
Definition run (sched : list (nat * O)) (w : S * list (proc S O A)) : S * list (proc S O A) :=
  foldl pool_step w sched.

Definition result (p : proc S O A) : option A := match p with Ret a => Some a | Act _ _ => None end.

(** A process run alone from [s], with the given oracle values. *)
Fixpoint run_alone (p : proc S O A) (os : list O) (s : S) : S * option A :=
  match p, os with
  | Ret a, _ => (s, Some a)
  | Act _ _, [] => (s, None)
  | Act f k, o :: os => let (b, s') := f o s in run_alone (k b) os s'
  end.
End Run.

(** ** Statements

    What happens to an action: it succeeds, it fails without effect, or it
    takes effect and the answer is lost.  And the time it happens at. *)

Inductive Fate := Fine | Fail | Lost.
Record Oracle := { fate : Fate; o_now : time }.

Definition read {S B} (f : S → B) : proc S Oracle (option B) :=
  act (λ o s, match fate o with Fine => (Some (f s), s) | _ => (None, s) end).
Definition now {S} : proc S Oracle time := act (λ o s, (o_now o, s)).

(** A statement, or a transaction when it commits; [e] reports a database error. *)
Definition write {S E A} (e : E) (f : time → S → res E (A * S)) : proc S Oracle (res E A) :=
  act (λ o s, match fate o, f (o_now o) s with
              | Fail, _ => (Err e, s)
              | _, Err e' => (Err e', s)
              | Fine, Ok (a, s') => (Ok a, s')
              | Lost, Ok (_, s') => (Err e, s')
              end).

(** A process on a part of a larger state. *)
Fixpoint zoom {S V O A} (get : S → V) (put : V → S → S) (p : proc V O A) : proc S O A :=
  match p with
  | Ret a => Ret a
  | Act f k => Act (λ o s, let (b, v) := f o (get s) in (b, put v s)) (λ b, zoom get put (k b))
  end.

(** ** Runs to the end

    [ends OK n p s Q]: alone from [s], with oracle values that satisfy [OK], the
    process ends after at most [n] actions, in a state and with a result that
    satisfy [Q]. *)
Section Ends.
Context {S O : Type} (OK : O → Prop).

Fixpoint ends {A} (n : nat) (p : proc S O A) (s : S) (Q : A → S → Prop) : Prop :=
  match p, n with
  | Ret a, _ => Q a s
  | Act f k, Datatypes.S n => ∀ o, OK o → ends n (k (fst (f o s))) (snd (f o s)) Q
  | Act _ _, O => False
  end.

Lemma ends_weaken {A} n m (p : proc S O A) s (Q Q' : A → S → Prop) :
  ends n p s Q → (n ≤ m)%nat → (∀ a s, Q a s → Q' a s) → ends m p s Q'.
Proof.
  revert n m s. induction p as [a|B f k IH]; intros n m s Hp Hnm HQ.
  { destruct n, m; by apply HQ. }
  destruct n as [|n]; [done|]. destruct m as [|m]; [lia|]. intros o Ho.
  eapply (IH _ n m); [by apply Hp|lia|done].
Qed.

Lemma ends_le {A} n m (p : proc S O A) s (Q : A → S → Prop) :
  ends n p s Q → (n ≤ m)%nat → ends m p s Q.
Proof. intros Hp Hn. by eapply ends_weaken. Qed.

Lemma ends_bind {A B} n m (p : proc S O A) (k : A → proc S O B) s Q Q' :
  ends n p s Q → (∀ a s, Q a s → ends m (k a) s Q') → ends (n + m) (proc_bind p k) s Q'.
Proof.
  revert n s. induction p as [a|C f k' IH]; intros n s Hp Hk.
  { eapply (ends_weaken m (n + m)); [|lia|done]. apply Hk. by destruct n. }
  destruct n as [|n]; [done|]. intros o Ho. apply IH; [by apply Hp|done].
Qed.

Lemma ends_run {A} n (p : proc S O A) os s Q :
  ends n p s Q → Forall OK os → (n ≤ length os)%nat →
  ∃ s' a, run_alone p os s = (s', Some a) ∧ Q a s'.
Proof.
  revert n os s. induction p as [a|B f k IH]; intros n os s Hp Hos Hn.
  { exists s, a. split; [by destruct os|by destruct n]. }
  destruct n as [|n]; [done|]. destruct Hos as [|o os Ho Hos]; [simpl in Hn; lia|].
  specialize (Hp o Ho). simpl. destruct (f o s) as [b s1].
  apply (IH b n); [done|done|simpl in Hn; lia].
Qed.
Lemma ends_result {A} n (p : proc S O A) os s s' a Q :
  ends n p s Q → Forall OK os → run_alone p os s = (s', Some a) → Q a s'.
Proof.
  revert n os s. induction p as [a'|B f k IH]; intros n os s Hp Hos Hr.
  { destruct n, os; by simplify_eq/=. }
  destruct n as [|n]; [done|]. destruct Hos as [|o os Ho Hos]; [done|].
  specialize (Hp o Ho). simpl in Hr. destruct (f o s) as [b s1]. by eapply (IH b n os s1).
Qed.
End Ends.

Section RelyGuarantee.
Context {S O : Type} (G : S → S → Prop).

Definition stable (P : S → Prop) : Prop := ∀ s s', P s → G s s' → P s'.

Fixpoint safe {A} (P : S → Prop) (p : proc S O A) (Q : A → S → Prop) : Prop :=
  match p with
  | Ret a => ∀ s, P s → Q a s
  | @Act _ _ _ B f k =>
      ∃ R : B → S → Prop,
        (∀ o s, P s → G s (snd (f o s)) ∧ R (fst (f o s)) (snd (f o s))) ∧
        (∀ b, stable (R b)) ∧ (∀ b, safe (R b) (k b) Q)
  end.

Lemma safe_weaken {A} (P P' : S → Prop) (p : proc S O A) (Q Q' : A → S → Prop) :
  safe P p Q → (∀ s, P' s → P s) → (∀ a s, Q a s → Q' a s) → safe P' p Q'.
Proof.
  revert P P'. induction p as [a|B f k IH]; simpl; intros P P' Hp HP HQ; [eauto|].
  destruct Hp as (R & Hf & HR & Hk). exists R. split_and!; [eauto|done|].
  intros b. by apply (IH b (R b) (R b)).
Qed.

Lemma safe_bind {A B} (P : S → Prop) (p : proc S O A) (k : A → proc S O B) Q Q' :
  safe P p Q → (∀ a, safe (Q a) (k a) Q') → safe P (proc_bind p k) Q'.
Proof.
  revert P. induction p as [a|C f k' IH]; simpl; intros P Hp Hk.
  - eapply safe_weaken; [apply (Hk a)|exact Hp|done].
  - destruct Hp as (R & Hf & HR & Hk'). exists R. eauto.
Qed.

(** What is stable and held at the start still holds at the end. *)
Lemma safe_frame {A} (F P : S → Prop) (p : proc S O A) (Q : A → S → Prop) :
  stable F → safe P p Q → safe (λ s, P s ∧ F s) p (λ a s, Q a s ∧ F s).
Proof.
  intros HF. revert P. induction p as [a|B f k IH]; simpl; intros P Hp.
  { intros s [HP HFs]. split; [by apply Hp|done]. }
  destruct Hp as (R & Hf & HR & Hk). exists (λ b s, R b s ∧ F s). split_and!.
  - intros o s [HP HFs]. destruct (Hf o s HP) as [HG HRb]. split_and!; [done|done|by eapply HF].
  - intros b s s' [HRb HFs] HG. split; [by eapply HR|by eapply HF].
  - intros b. by apply IH.
Qed.

(** An atomic action, by what it does to the state. *)
Lemma safe_act {B} (P : S → Prop) (f : O → S → B * S) (R : B → S → Prop) :
  (∀ o s, P s → G s (snd (f o s)) ∧ R (fst (f o s)) (snd (f o s))) → (∀ b, stable (R b)) →
  safe P (act f) R.
Proof. intros Hf HR. simpl. eauto. Qed.

(** An action followed by the rest of the process. *)
Lemma safe_bind_act {A B} (P : S → Prop) (f : O → S → B * S) (R : B → S → Prop)
    (k : B → proc S O A) Q :
  (∀ o s, P s → G s (snd (f o s)) ∧ R (fst (f o s)) (snd (f o s))) → (∀ b, stable (R b)) →
  (∀ b, safe (R b) (k b) Q) → safe P (proc_bind (act f) k) Q.
Proof. intros Hf HR Hk. simpl. eauto. Qed.

Lemma stable_True : stable (λ _, True).
Proof. done. Qed.
Lemma stable_const (φ : Prop) : stable (λ _, φ).
Proof. by intros s s' Hφ _. Qed.
Lemma stable_and P Q : stable P → stable Q → stable (λ s, P s ∧ Q s).
Proof. intros HP HQ s s' [? ?] ?. split; eauto. Qed.
Lemma stable_impl (φ : Prop) P : (φ → stable P) → stable (λ s, φ → P s).
Proof. intros HP s s' H ? ?. eapply HP; eauto. Qed.
Lemma stable_rtc P s s' : stable P → P s → rtc G s s' → P s'.
Proof. intros HP H Hr. induction Hr as [s|s1 s2 s3 H12 _ IH]; [done|]. eauto. Qed.

(** Every run of safe processes makes steps of [G] only, and what their
    conditions promise holds at its end. *)
Theorem run_safe {A} (Q : nat → A → S → Prop) (sched : list (nat * O)) (s0 : S)
    (ps0 : list (proc S O A)) :
  (∀ s, G s s) → (∀ i a, stable (Q i a)) →
  (∀ i p, ps0 !! i = Some p → ∃ P, stable P ∧ P s0 ∧ safe P p (Q i)) →
  let (s, ps) := run sched (s0, ps0) in
  rtc G s0 s ∧ ∀ i p, ps !! i = Some p → ∃ P, stable P ∧ P s ∧ safe P p (Q i).
Proof.
  intros Grefl HQ. revert s0 ps0. induction sched as [|[i o] sched IH]; intros s0 ps0 Hps.
  { split; [done|exact Hps]. }
  change (run ((i, o) :: sched) (s0, ps0)) with (run sched (pool_step (s0, ps0) (i, o))).
  unfold pool_step. simpl. destruct (ps0 !! i) as [[a|B f k]|] eqn:Ei; [by apply IH| |by apply IH].
  destruct (Hps _ _ Ei) as (P & HP & HPs & R & Hf & HR & Hk).
  destruct (Hf o s0 HPs) as [HG HRb]. destruct (f o s0) as [b s1]. simpl in *.
  specialize (IH s1 (<[i:=k b]> ps0)).
  destruct (run sched (s1, <[i:=k b]> ps0)) as [s ps]. destruct IH as [Hr Hend].
  - intros j p. rewrite list_lookup_insert_Some. intros [(<- & <- & _)|[Hne Hj]].
    + exists (R b). by split_and!.
    + destruct (Hps _ _ Hj) as (P' & HP' & HPs' & Hsafe). exists P'. eauto.
  - split; [by eapply rtc_l|exact Hend].
Qed.

Corollary run_result {A} (Q : nat → A → S → Prop) (sched : list (nat * O)) (s0 : S)
    (ps0 : list (proc S O A)) s ps i a :
  (∀ s, G s s) → (∀ i a, stable (Q i a)) →
  (∀ i p, ps0 !! i = Some p → ∃ P, stable P ∧ P s0 ∧ safe P p (Q i)) →
  run sched (s0, ps0) = (s, ps) → ps !! i = Some (Ret a) → Q i a s.
Proof.
  intros Grefl HQ Hps Hr Hi. pose proof (run_safe Q sched s0 ps0 Grefl HQ Hps) as H.
  rewrite Hr in H. destruct H as [_ H]. destruct (H _ _ Hi) as (P & _ & HPs & Hsafe). by apply Hsafe.
Qed.
End RelyGuarantee.
