(* ===== verification/ProcGhost.v ===== *)
(** * Processes that own things

    The rely-guarantee triple of [Proc.v], for processes with an identity: each
    process [i] makes steps of its own relation [G i] and tolerates the steps
    [R i] of the others.  The relations speak of the shared state and of a ghost
    state, which the program does not have: a proof chooses how every action
    changes it, for instance to remember which process owns a row.

    A triple may also assume something of the oracle values of the run, such
    as the interval the clock stays in. *)

From stdpp Require Import base list relations option.
From S2P Require Import Prelude Proc.

Section Triples.
Context {S O Γ : Type} (OK : O → Prop) (R G : S * Γ → S * Γ → Prop).

Definition gstable (P : S * Γ → Prop) : Prop := ∀ w w', P w → R w w' → P w'.

Fixpoint gsafe {A} (P : S * Γ → Prop) (p : proc S O A) (Q : A → S * Γ → Prop) : Prop :=
  match p with
  | Ret a => ∀ w, P w → Q a w
  | @Act _ _ _ B f k =>
      ∃ M : B → S * Γ → Prop,
        (∀ o s γ, OK o → P (s, γ) →
           ∃ γ', G (s, γ) (snd (f o s), γ') ∧ M (fst (f o s)) (snd (f o s), γ')) ∧
        (∀ b, gstable (M b)) ∧ (∀ b, gsafe (M b) (k b) Q)
  end.

Lemma gsafe_weaken {A} (P P' : S * Γ → Prop) (p : proc S O A) (Q Q' : A → S * Γ → Prop) :
  gsafe P p Q → (∀ w, P' w → P w) → (∀ a w, Q a w → Q' a w) → gsafe P' p Q'.
Proof.
  revert P P'. induction p as [a|B f k IH]; simpl; intros P P' Hp HP HQ; [eauto|].
  destruct Hp as (M & Hf & HM & Hk). exists M. split_and!; [eauto|done|].
  intros b. by apply (IH b (M b) (M b)).
Qed.

Lemma gsafe_bind {A B} (P : S * Γ → Prop) (p : proc S O A) (k : A → proc S O B) Q Q' :
  gsafe P p Q → (∀ a, gsafe (Q a) (k a) Q') → gsafe P (proc_bind p k) Q'.
Proof.
  revert P. induction p as [a|C f k' IH]; simpl; intros P Hp Hk.
  - eapply gsafe_weaken; [apply (Hk a)|exact Hp|done].
  - destruct Hp as (M & Hf & HM & Hk'). exists M. eauto.
Qed.

(** An action that changes the ghost state by [g]. *)
Lemma gsafe_act {B} (P : S * Γ → Prop) (f : O → S → B * S) (M : B → S * Γ → Prop) :
  (∀ o s γ, OK o → P (s, γ) →
     ∃ γ', G (s, γ) (snd (f o s), γ') ∧ M (fst (f o s)) (snd (f o s), γ')) →
  (∀ b, gstable (M b)) → gsafe P (act f) M.
Proof. intros Hf HM. simpl. eauto. Qed.

(** What no step undoes still holds at the end. *)
Lemma gsafe_frame {A} (F P : S * Γ → Prop) (p : proc S O A) (Q : A → S * Γ → Prop) :
  (∀ w w', R w w' → F w → F w') → (∀ w w', G w w' → F w → F w') →
  gsafe P p Q → gsafe (λ w, P w ∧ F w) p (λ a w, Q a w ∧ F w).
Proof.
  intros HR HG. revert P. induction p as [a|B f k IH]; simpl; intros P Hp.
  { intros w [HP HF]. split; [by apply Hp|done]. }
  destruct Hp as (M & Hf & HM & Hk). exists (λ b w, M b w ∧ F w). split_and!.
  - intros o s γ Ho [HP HF]. destruct (Hf o s γ Ho HP) as (γ' & Hg & HMb). exists γ'.
    split_and!; [done|done|by eapply HG].
  - intros b w w' [HMb HF] Hr. split; [by eapply HM|by eapply HR].
  - intros b. by apply IH.
Qed.

(** A false precondition. *)
Lemma gsafe_absurd {A} (P : S * Γ → Prop) (p : proc S O A) Q :
  (∀ w, ¬ P w) → gsafe P p Q.
Proof.
  revert P. induction p as [a|B f k IH]; simpl; intros P HP; [by intros w []%HP|].
  exists (λ _ _, False). split_and!; [by intros o s γ _ []%HP|by intros b w w'|].
  intros b. apply IH. by intros w [].
Qed.

Lemma gstable_and P Q : gstable P → gstable Q → gstable (λ w, P w ∧ Q w).
Proof. intros HP HQ w w' [? ?] ?. split; eauto. Qed.
Lemma gstable_const (φ : Prop) : gstable (λ _, φ).
Proof. by intros w w' Hφ _. Qed.
Lemma gstable_impl (φ : Prop) P : (φ → gstable P) → gstable (λ w, φ → P w).
Proof. intros HP w w' H ? ?. eapply HP; eauto. Qed.
End Triples.

Section Runs.
Context {S O Γ A : Type} (OK : O → Prop) (R G : nat → S * Γ → S * Γ → Prop).
Context (Q : nat → A → S * Γ → Prop).

(** What holds of the process at place [i]. *)
Definition proc_ok (w : S * Γ) (i : nat) (p : proc S O A) : Prop :=
  ∃ P, gstable (R i) P ∧ P w ∧ gsafe OK (R i) (G i) P p (Q i).

Definition some_step (w w' : S * Γ) : Prop := ∃ i, G i w w'.

Theorem grun_safe (sched : list (nat * O)) (s0 : S) (γ0 : Γ) (ps0 : list (proc S O A)) s ps :
  (∀ i j w w', i ≠ j → G i w w' → R j w w') →
  Forall (λ m, OK (snd m)) sched →
  (∀ i p, ps0 !! i = Some p → proc_ok (s0, γ0) i p) →
  run sched (s0, ps0) = (s, ps) →
  ∃ γ, rtc some_step (s0, γ0) (s, γ) ∧ ∀ i p, ps !! i = Some p → proc_ok (s, γ) i p.
Proof.
  intros HGR Hok. revert s0 γ0 ps0.
  induction Hok as [|[i o] sched Ho Hok IH]; intros s0 γ0 ps0 Hps Hrun.
  { injection Hrun as <- <-. by exists γ0. }
  change (run ((i, o) :: sched) (s0, ps0)) with (run sched (pool_step (s0, ps0) (i, o))) in Hrun.
  unfold pool_step in Hrun. simpl in Hrun.
  destruct (ps0 !! i) as [[a|B f k]|] eqn:Ei; [by eapply IH| |by eapply IH].
  destruct (Hps _ _ Ei) as (P & HP & HPs & M & Hf & HM & Hk).
  destruct (Hf o s0 γ0 Ho HPs) as (γ1 & HG & HMb). destruct (f o s0) as [b s1]. simpl in *.
  destruct (IH s1 γ1 (<[i:=k b]> ps0)) as (γ & Hr & Hend); [|done|].
  - intros j p. rewrite list_lookup_insert_Some. intros [(<- & <- & _)|[Hne Hj]].
    + exists (M b). by split_and!.
    + destruct (Hps _ _ Hj) as (P' & HP' & HPs' & Hsafe). exists P'. split_and!; [done| |done].
      eapply HP'; [done|]. by eapply HGR.
  - exists γ. split; [|done]. eapply rtc_l; [|done]. by exists i.
Qed.

(** The next move of such a run: nothing, or one step of some process. *)
Lemma gstep_safe (m : nat * O) s γ (ps : list (proc S O A)) :
  OK (snd m) → (∀ i p, ps !! i = Some p → proc_ok (s, γ) i p) →
  (pool_step (s, ps) m).1 = s ∨ ∃ γ', some_step (s, γ) ((pool_step (s, ps) m).1, γ').
Proof.
  intros Ho Hps. destruct m as [i o]. unfold pool_step. simpl.
  destruct (ps !! i) as [[a|B f k]|] eqn:Ei; [by left| |by left]. right.
  destruct (Hps _ _ Ei) as (P & _ & HPs & M & Hf & _).
  destruct (Hf o s γ Ho HPs) as (γ1 & HG & _). destruct (f o s) as [b s1]. exists γ1. by exists i.
Qed.

Lemma proc_ok_result w i a : proc_ok w i (Ret a) → Q i a w.
Proof. intros (P & _ & HP & Hsafe). by apply Hsafe. Qed.
End Runs.

(** ** Processes all of whose actions make steps of a relation *)
Section Acts.
Context {S O : Type} (W : S → S → Prop).

Fixpoint acts {A} (p : proc S O A) : Prop :=
  match p with
  | Ret _ => True
  | Act f k => (∀ o s, W s (snd (f o s))) ∧ ∀ b, acts (k b)
  end.

Lemma acts_bind {A B} (p : proc S O A) (k : A → proc S O B) :
  acts p → (∀ a, acts (k a)) → acts (proc_bind p k).
Proof. intros Hp Hk. induction p as [a|C f k' IH]; [apply Hk|]. destruct Hp as [Hf Hp]. split; eauto. Qed.
Lemma acts_act {B} (f : O → S → B * S) : (∀ o s, W s (snd (f o s))) → acts (act f).
Proof. done. Qed.
End Acts.
Lemma acts_weaken {S O A} (W W' : S → S → Prop) (p : proc S O A) :
  (∀ s s', W s s' → W' s s') → acts W p → acts W' p.
Proof. intros HW. induction p as [a|B f k IH]; [exact id|]. intros [Hf Hp]. split; eauto. Qed.

(** A run of processes all of whose actions make steps of [W]. *)
Lemma acts_run {S O A} (W : S → S → Prop) (sched : list (nat * O)) (s s' : S)
    (ps ps' : list (proc S O A)) :
  Forall (acts W) ps → run sched (s, ps) = (s', ps') → rtc W s s' ∧ Forall (acts W) ps'.
Proof.
  revert s ps. induction sched as [|[i o] sched IH]; intros s ps Hps Hrun.
  { by injection Hrun as <- <-. }
  change (run ((i, o) :: sched) (s, ps)) with (run sched (pool_step (s, ps) (i, o))) in Hrun.
  unfold pool_step in Hrun. simpl in Hrun.
  destruct (ps !! i) as [[a|B f k]|] eqn:Ei; [by eapply IH| |by eapply IH].
  destruct (proj1 (Forall_lookup _ _) Hps _ _ Ei) as [Hf Hk].
  specialize (Hf o s). destruct (f o s) as [b s1]. simpl in *.
  destruct (IH s1 (<[i:=k b]> ps)) as [Hr Hend]; [by apply Forall_insert; [|apply Hk]|done|].
  split; [by eapply rtc_l|done].
Qed.

(** The same with a relation for each process, and the next move of such a run. *)
Section ActsAt.
Context {S O A : Type} (W : nat → S → S → Prop).

Definition acts_at (ps : list (proc S O A)) : Prop := ∀ i p, ps !! i = Some p → acts (W i) p.

Lemma acts_step_at (m : nat * O) (s s' : S) (ps ps' : list (proc S O A)) :
  acts_at ps → pool_step (s, ps) m = (s', ps') → (s' = s ∨ W (fst m) s s') ∧ acts_at ps'.
Proof.
  intros Hps. unfold pool_step. destruct m as [i o]. simpl.
  destruct (ps !! i) as [[a|B f k]|] eqn:Ei; [by intros [= <- <-]; auto| |by intros [= <- <-]; auto].
  destruct (Hps _ _ Ei) as [Hf Hk]. specialize (Hf o s). destruct (f o s) as [b s1]. simpl in *.
  intros [= <- <-]. split; [by right|]. intros j p. rewrite list_lookup_insert_Some.
  intros [(<- & <- & _)|[_ Hj]]; [apply Hk|by apply Hps].
Qed.
Lemma acts_run_at (sched : list (nat * O)) (s s' : S) (ps ps' : list (proc S O A)) :
  acts_at ps → run sched (s, ps) = (s', ps') → rtc (λ a b, ∃ i, W i a b) s s' ∧ acts_at ps'.
Proof.
  revert s ps. induction sched as [|m sched IH]; intros s ps Hps Hrun; [by injection Hrun as <- <-|].
  change (run (m :: sched) (s, ps)) with (run sched (pool_step (s, ps) m)) in Hrun.
  destruct (pool_step (s, ps) m) as [s1 ps1] eqn:E. destruct (acts_step_at _ _ _ _ _ Hps E) as [Hs1 Hps1].
  destruct (IH _ _ Hps1 Hrun) as [Hr Hend]. split; [|done].
  destruct Hs1 as [->|Hs1]; [done|]. eapply rtc_l; [|done]. by exists (fst m).
Qed.
End ActsAt.

(** ** Processes that know an invariant

    [yields OK Inv W p Q]: where the invariant holds, every action of [p] makes
    a step of [W], and what an action answers is known to the rest of [p]; the
    result satisfies [Q]. *)
Section Yields.
Context {S O : Type} (OK : O → Prop) (Inv : S → Prop) (W : S → S → Prop).

Fixpoint yields {A} (p : proc S O A) (Q : A → Prop) : Prop :=
  match p with
  | Ret a => Q a
  | Act f k => ∀ o s, OK o → Inv s → W s (snd (f o s)) ∧ yields (k (fst (f o s))) Q
  end.

Lemma yields_weaken {A} (p : proc S O A) (Q Q' : A → Prop) :
  yields p Q → (∀ a, Q a → Q' a) → yields p Q'.
Proof.
  intros Hp HQ. induction p as [a|B f k IH]; [by apply HQ|].
  intros o s Ho Hs. destruct (Hp o s Ho Hs). split; [done|by apply IH].
Qed.
Lemma yields_bind {A B} (p : proc S O A) (k : A → proc S O B) (Q : A → Prop) (Q' : B → Prop) :
  yields p Q → (∀ a, Q a → yields (k a) Q') → yields (proc_bind p k) Q'.
Proof.
  intros Hp Hk. induction p as [a|C f k' IH]; [by apply Hk|].
  intros o s Ho Hs. destruct (Hp o s Ho Hs). split; [done|by apply IH].
Qed.
Lemma yields_act {B} (f : O → S → B * S) (Q : B → Prop) :
  (∀ o s, OK o → Inv s → W s (snd (f o s)) ∧ Q (fst (f o s))) → yields (act f) Q.
Proof. done. Qed.

Lemma yields_run {A} (Q : A → Prop) (sched : list (nat * O)) (s s' : S) (ps ps' : list (proc S O A)) :
  (∀ s1 s2, Inv s1 → W s1 s2 → Inv s2) → Forall (λ m, OK (snd m)) sched → Inv s →
  Forall (λ p, yields p Q) ps → run sched (s, ps) = (s', ps') →
  rtc W s s' ∧ Inv s' ∧ Forall (λ p, yields p Q) ps'.
Proof.
  intros HW Hok. revert s ps. induction Hok as [|[i o] sched Ho Hok IH]; intros s ps Hs Hps Hrun.
  { by injection Hrun as <- <-. }
  change (run ((i, o) :: sched) (s, ps)) with (run sched (pool_step (s, ps) (i, o))) in Hrun.
  unfold pool_step in Hrun. simpl in Hrun.
  destruct (ps !! i) as [[a|B f k]|] eqn:Ei; [by eapply IH| |by eapply IH].
  destruct (proj1 (Forall_lookup _ _) Hps _ _ Ei o s Ho Hs) as [HWs Hk].
  destruct (f o s) as [b s1]. simpl in *.
  destruct (IH s1 (<[i:=k b]> ps)) as (Hr & Hend); [by eapply HW|by apply Forall_insert|done|].
  split; [by eapply rtc_l|done].
Qed.
End Yields.
