(* ===== verification/Idempotency.v ===== *)
(** * Idempotent requests

    [src/backend/internal/service/idempotency.go] and
    [src/backend/internal/repository/idempotency_repo.go]: a request that
    carries an [Idempotency-Key] claims a row of [idempotency_records], runs,
    and stores its answer, which later requests with the key get instead of
    running again; [idempotency_cleanup_service.go] deletes the rows that have
    expired, and [system_operation_lock_service.go] uses a row as a lock with a
    lease.

    Requests are processes ([Proc.v]): every statement and every read of the
    clock is an action.  Metrics and audit logs are left out. *)

From Stdlib Require Import ZArith Lia Ascii String Bool.
From stdpp Require Import base numbers option list gmap strings pretty sorting.
From S2P Require Import Prelude GoStrings GoUTF8 GoFloat Redact Proc.
From S2P Require UsageBilling.

#[local] Open Scope Z_scope.

Definition IdempotencyStatusProcessing : string := "processing".
Definition IdempotencyStatusSucceeded : string := "succeeded".
Definition IdempotencyStatusFailedRetryable : string := "failed_retryable".

(** [created_at] and [updated_at] are never read. *)
Record IdempotencyRecord := {
  ir_ID : Z;
  ir_RequestFingerprint : string;
  ir_Status : string;
  ir_ResponseStatus : option Z;
  ir_ResponseBody : option string;
  ir_ErrorReason : option string;
  ir_LockedUntil : option time;
  ir_ExpiresAt : time;
}.

Record IdempotencyConfig := {
  DefaultTTL : duration;
  SystemOperationTTL : duration;
  ProcessingTimeout : duration;
  FailedRetryBackoff : duration;
  MaxStoredResponseLen : Z;
  ObserveOnly : bool;
}.
Definition DefaultIdempotencyConfig : IdempotencyConfig :=
  {| DefaultTTL := 24 * Hour; SystemOperationTTL := 1 * Hour; ProcessingTimeout := 30 * Second;
     FailedRetryBackoff := 5 * Second; MaxStoredResponseLen := 64 * 1024; ObserveOnly := true |}.

Record IdempotencyExecuteOptions := {
  Scope : string;
  ActorScope : string;
  Method : string;
  Route : string;
  IdempotencyKey : string;
  Payload : Json;
  TTL : duration;
  RequireKey : bool;
}.

Record IdempotencyExecuteResult := { Data : Json; Replayed : bool }.

(** An error of the executed function is known by its reason. *)
Inductive IdemError :=
| ErrIdempotencyKeyRequired
| ErrIdempotencyKeyInvalid
| ErrIdempotencyKeyConflict
| ErrIdempotencyInProgress (retry_after : option Z)
| ErrIdempotencyRetryBackoff (retry_after : option Z)
| ErrIdempotencyStoreUnavail
| ErrIdempotencyInvalidPayload
| ErrIdempotencyScopeRequired
| ErrExecution (reason : string).

(** The table, keyed by its unique index [(scope, idempotency_key_hash)], and
    what the executed functions work on. *)
Record IdemState (W : Type) := {
  records : gmap (string * string) IdempotencyRecord;
  next_record : Z;
  world : W;
}.
Arguments Build_IdemState {W}.
Arguments records {W}.
Arguments next_record {W}.
Arguments world {W}.

Definition set_records {W : Type} (f : gmap (string * string) IdempotencyRecord → gmap (string * string) IdempotencyRecord)
    (s : IdemState W) : IdemState W :=
  {| records := f (records s); next_record := next_record s; world := world s |}.
Definition set_world {W : Type} (w : W) (s : IdemState W) : IdemState W :=
  {| records := records s; next_record := next_record s; world := w |}.

(** ** The repository *)

Section Repository.
Context {W : Type}.
Let idem A := (proc (IdemState W) Oracle A).

Definition new_record (id : Z) (fingerprint : string) (lockedUntil expiresAt : time)
  : IdempotencyRecord :=
  {| ir_ID := id; ir_RequestFingerprint := fingerprint; ir_Status := IdempotencyStatusProcessing;
     ir_ResponseStatus := None; ir_ResponseBody := None; ir_ErrorReason := None;
     ir_LockedUntil := Some lockedUntil; ir_ExpiresAt := expiresAt |}.

(** [INSERT ... ON CONFLICT DO NOTHING RETURNING id] *)
Definition CreateProcessing (scope keyHash fingerprint : string) (lockedUntil expiresAt : time)
  : idem (res IdemError (option Z)) :=
  write ErrIdempotencyStoreUnavail (λ _ s,
    match records s !! (scope, keyHash) with
    | Some _ => Ok (None, s)
    | None =>
        let id := next_record s in
        Ok (Some id,
            {| records := <[(scope, keyHash) := new_record id fingerprint lockedUntil expiresAt]> (records s);
               next_record := id + 1; world := world s |})
    end).

Definition GetByScopeAndKeyHash (scope keyHash : string) : idem (option (option IdempotencyRecord)) :=
  read (λ s, records s !! (scope, keyHash)).

(** [UPDATE ... SET f WHERE p]: the rows, and whether one was hit. *)
Definition update_where (p : IdempotencyRecord → bool) (f : IdempotencyRecord → IdempotencyRecord)
    (s : IdemState W) : bool * IdemState W :=
  (negb (bool_decide (map_Forall (λ _ r, p r = false) (records s))),
   set_records (fmap (λ r, if p r then f r else r)) s).

Definition reclaimable (id : Z) (fromStatus : string) (now : time) (r : IdempotencyRecord) : bool :=
  (ir_ID r =? id) && String.eqb (ir_Status r) fromStatus
  && match ir_LockedUntil r with Some l => l <=? now | None => true end.
Definition reclaimed (newLockedUntil newExpiresAt : time) (r : IdempotencyRecord) : IdempotencyRecord :=
  {| ir_ID := ir_ID r; ir_RequestFingerprint := ir_RequestFingerprint r;
     ir_Status := IdempotencyStatusProcessing; ir_ResponseStatus := ir_ResponseStatus r;
     ir_ResponseBody := ir_ResponseBody r; ir_ErrorReason := None;
     ir_LockedUntil := Some newLockedUntil; ir_ExpiresAt := newExpiresAt |}.
Definition TryReclaim (id : Z) (fromStatus : string) (now newLockedUntil newExpiresAt : time)
  : idem (res IdemError bool) :=
  write ErrIdempotencyStoreUnavail (λ _ s,
    Ok (update_where (reclaimable id fromStatus now) (reclaimed newLockedUntil newExpiresAt) s)).

Definition extended (newLockedUntil newExpiresAt : time) (r : IdempotencyRecord) : IdempotencyRecord :=
  {| ir_ID := ir_ID r; ir_RequestFingerprint := ir_RequestFingerprint r; ir_Status := ir_Status r;
     ir_ResponseStatus := ir_ResponseStatus r; ir_ResponseBody := ir_ResponseBody r;
     ir_ErrorReason := ir_ErrorReason r; ir_LockedUntil := Some newLockedUntil;
     ir_ExpiresAt := newExpiresAt |}.
Definition ExtendProcessingLock (id : Z) (requestFingerprint : string)
    (newLockedUntil newExpiresAt : time) : idem (res IdemError bool) :=
  write ErrIdempotencyStoreUnavail (λ _ s,
    Ok (update_where (λ r, (ir_ID r =? id) && String.eqb (ir_Status r) IdempotencyStatusProcessing
                           && String.eqb (ir_RequestFingerprint r) requestFingerprint)
                     (extended newLockedUntil newExpiresAt) s)).

Definition succeeded (responseStatus : Z) (responseBody : string) (expiresAt : time)
    (r : IdempotencyRecord) : IdempotencyRecord :=
  {| ir_ID := ir_ID r; ir_RequestFingerprint := ir_RequestFingerprint r;
     ir_Status := IdempotencyStatusSucceeded; ir_ResponseStatus := Some responseStatus;
     ir_ResponseBody := Some responseBody; ir_ErrorReason := None; ir_LockedUntil := None;
     ir_ExpiresAt := expiresAt |}.
Definition MarkSucceeded (id responseStatus : Z) (responseBody : string) (expiresAt : time)
  : idem (res IdemError unit) :=
  write ErrIdempotencyStoreUnavail (λ _ s,
    Ok ((), snd (update_where (λ r, ir_ID r =? id) (succeeded responseStatus responseBody expiresAt) s))).

Definition failed_retryable (errorReason : string) (lockedUntil expiresAt : time)
    (r : IdempotencyRecord) : IdempotencyRecord :=
  {| ir_ID := ir_ID r; ir_RequestFingerprint := ir_RequestFingerprint r;
     ir_Status := IdempotencyStatusFailedRetryable; ir_ResponseStatus := ir_ResponseStatus r;
     ir_ResponseBody := ir_ResponseBody r; ir_ErrorReason := Some errorReason;
     ir_LockedUntil := Some lockedUntil; ir_ExpiresAt := expiresAt |}.
Definition MarkFailedRetryable (id : Z) (errorReason : string) (lockedUntil expiresAt : time)
  : idem (res IdemError unit) :=
  write ErrIdempotencyStoreUnavail (λ _ s,
    Ok ((), snd (update_where (λ r, ir_ID r =? id) (failed_retryable errorReason lockedUntil expiresAt) s))).

(** [DeleteExpired]: the rows that expired first; rows that expired at the
    same time are taken in the order of the table. *)
Definition expires_first (a b : (string * string) * IdempotencyRecord) : Prop :=
  ir_ExpiresAt (snd a) ≤ ir_ExpiresAt (snd b).
#[global] Instance expires_first_dec : RelDecision expires_first.
Proof. intros a b. unfold expires_first. apply _. Defined.
Definition expired_records (now : time) (limit : nat) (s : IdemState W) : list (string * string) :=
  take limit (fst <$> merge_sort expires_first
                (List.filter (λ kr, ir_ExpiresAt (snd kr) <=? now) (map_to_list (records s)))).
Definition DeleteExpired (now : time) (limit : Z) : idem (res IdemError Z) :=
  let limit := if limit <=? 0 then 500 else limit in
  write ErrIdempotencyStoreUnavail (λ _ s,
    let gone := expired_records now (Z.to_nat limit) s in
    Ok (Z.of_nat (length gone), set_records (λ m, foldr delete m gone) s)).
End Repository.

(** ** The coordinator *)

Section Coordinator.
Context `{GoText} `{GoJSON} `{UsageBilling.GoHash}.

Definition newline : string := String (ascii_of_N 10) "".

Definition NormalizeIdempotencyKey (raw : string) : res IdemError string :=
  let key := TrimSpace raw in
  if String.eqb key "" then Ok ""
  else if 128 <? str_len key then Err ErrIdempotencyKeyInvalid
  else if str_forallb (between 33 126) key then Ok key
  else Err ErrIdempotencyKeyInvalid.

Definition HashIdempotencyKey (key : string) : string := UsageBilling.sha256_hex key.

Definition BuildIdempotencyFingerprint (method route actorScope : string) (payload : Json)
  : res IdemError string :=
  let method := if String.eqb method "" then "POST" else method in
  let route := if String.eqb route "" then "/" else route in
  let actorScope := if String.eqb actorScope "" then "anonymous" else actorScope in
  match json_Marshal payload with
  | None => Err ErrIdempotencyInvalidPayload
  | Some raw =>
      Ok (UsageBilling.sha256_hex
            (ToUpper method +:+ newline +:+ route +:+ newline +:+ actorScope +:+ newline +:+ raw))
  end.

(** [int(d.Seconds())], where [Seconds] adds two floats. *)
Definition seconds_of (d : duration) : Z :=
  f_to_int (f_of_int (Z.quot d Second) +ᶠ fdiv (f_of_int (Z.rem d Second)) (f_of_int Second)).

(** [conflictWithRetryAfter]: the metadata it adds. *)
Definition retry_after (lockedUntil : option time) (now : time) : option Z :=
  match lockedUntil with
  | None => None
  | Some l => let sec := seconds_of (time_Sub l now) in Some (if sec <=? 0 then 1 else sec)
  end.

(** The loop of [truncateUTF8]. *)
Fixpoint shrink_to_valid (maxBytes : nat) (s : string) : nat :=
  match maxBytes with
  | O => O
  | S n => if ValidString (str_take maxBytes s) then maxBytes else shrink_to_valid n s
  end.
Definition truncateUTF8 (s : string) (maxBytes : Z) : string :=
  if (maxBytes <=? 0) || (str_len s <=? maxBytes) then s
  else str_take (shrink_to_valid (Z.to_nat maxBytes) s) s.

Definition marshalStoredResponse (c : IdempotencyConfig) (data : Json) : option string :=
  match json_Marshal data with
  | None => None
  | Some raw =>
      let redacted := RedactText raw [] in
      Some (if (0 <? MaxStoredResponseLen c) && (MaxStoredResponseLen c <? str_len redacted)
            then truncateUTF8 redacted (MaxStoredResponseLen c) +:+ "...(truncated)"
            else redacted)
  end.

Definition decodeStoredResponse (stored : option string) : option Json :=
  match stored with
  | None => Some (JObj [])
  | Some s => if String.eqb (TrimSpace s) "" then Some (JObj []) else json_Unmarshal s
  end.

(** How the attempt to claim the row ends: the caller owns the row and runs,
    or is answered without running. *)
Inductive Claim :=
| Owned (id : Z)
| Answered (r : res IdemError IdempotencyExecuteResult).

Section Execute.
Context {W : Type} (c : IdempotencyConfig) (opts : IdempotencyExecuteOptions).
Context (keyHash fingerprint : string) (now_ : time).
Let ttl := if TTL opts <=? 0 then DefaultTTL c else TTL opts.
Let expiresAt := time_Add now_ ttl.
Let lockedUntil := time_Add now_ (ProcessingTimeout c).
Let idem A := (proc (IdemState W) Oracle A).

(** The [switch] on the status of the existing row. *)
Definition claim_by_status (existing : IdempotencyRecord) : idem Claim :=
  if String.eqb (ir_Status existing) IdempotencyStatusSucceeded then
    Ret (Answered (match decodeStoredResponse (ir_ResponseBody existing) with
                   | Some d => Ok {| Data := d; Replayed := true |}
                   | None => Err ErrIdempotencyStoreUnavail
                   end))
  else if String.eqb (ir_Status existing) IdempotencyStatusProcessing then
    Ret (Answered (Err (ErrIdempotencyInProgress (retry_after (ir_LockedUntil existing) now_))))
  else if String.eqb (ir_Status existing) IdempotencyStatusFailedRetryable then
    if match ir_LockedUntil existing with Some l => time_After l now_ | None => false end then
      Ret (Answered (Err (ErrIdempotencyRetryBackoff (retry_after (ir_LockedUntil existing) now_))))
    else
      taken <-p TryReclaim (ir_ID existing) IdempotencyStatusFailedRetryable now_ lockedUntil expiresAt;
      Ret (match taken with
           | Err e => Answered (Err e)
           | Ok false => Answered (Err (ErrIdempotencyInProgress (retry_after (ir_LockedUntil existing) now_)))
           | Ok true => Owned (ir_ID existing)
           end)
  else Ret (Answered (Err ErrIdempotencyKeyConflict)).

(** [GetByScopeAndKeyHash] and the checks that follow both of its calls. *)
Definition with_existing (k : IdempotencyRecord → idem Claim) : idem Claim :=
  existing <-p GetByScopeAndKeyHash (Scope opts) keyHash;
  match existing with
  | None | Some None => Ret (Answered (Err ErrIdempotencyStoreUnavail))
  | Some (Some existing) =>
      if negb (String.eqb (ir_RequestFingerprint existing) fingerprint)
      then Ret (Answered (Err ErrIdempotencyKeyConflict))
      else k existing
  end.

Definition claim_existing (existing : IdempotencyRecord) : idem Claim :=
  if negb (time_After (ir_ExpiresAt existing) now_) then
    taken <-p TryReclaim (ir_ID existing) (ir_Status existing) now_ lockedUntil expiresAt;
    match taken with
    | Err e => Ret (Answered (Err e))
    | Ok true => Ret (Owned (ir_ID existing))
    | Ok false => with_existing claim_by_status
    end
  else claim_by_status existing.

Definition claim : idem Claim :=
  owner <-p CreateProcessing (Scope opts) keyHash fingerprint lockedUntil expiresAt;
  match owner with
  | Err e => Ret (Answered (Err e))
  | Ok (Some id) => Ret (Owned id)
  | Ok None => with_existing claim_existing
  end.

(** What the owner of row [id] does. *)
Definition run_claimed (id : Z) (execute : idem (res string Json))
  : idem (res IdemError IdempotencyExecuteResult) :=
  r <-p execute;
  match r with
  | Err reason =>
      t <-p now;
      let backoffUntil := time_Add t (FailedRetryBackoff c) in
      let reason' := if String.eqb reason "" then "EXECUTION_FAILED" else reason in
      _ <-p MarkFailedRetryable id reason' backoffUntil expiresAt;
      Ret (Err (ErrExecution reason))
  | Ok data =>
      match marshalStoredResponse c data with
      | None => Ret (Err ErrIdempotencyStoreUnavail)
      | Some storedBody =>
          marked <-p MarkSucceeded id 200 storedBody expiresAt;
          Ret (match marked with
               | Err e => Err e
               | Ok _ => Ok {| Data := data; Replayed := false |}
               end)
      end
  end.
End Execute.

(** [Execute], with a repository and a function to execute. *)
Definition Execute {W} (c : IdempotencyConfig) (opts : IdempotencyExecuteOptions)
    (execute : proc (IdemState W) Oracle (res string Json))
  : proc (IdemState W) Oracle (res IdemError IdempotencyExecuteResult) :=
  match NormalizeIdempotencyKey (IdempotencyKey opts) with
  | Err e => Ret (Err e)
  | Ok key =>
      if String.eqb key "" then
        if RequireKey opts && negb (ObserveOnly c) then Ret (Err ErrIdempotencyKeyRequired)
        else
          r <-p execute;
          Ret (match r with
               | Ok d => Ok {| Data := d; Replayed := false |}
               | Err reason => Err (ErrExecution reason)
               end)
      else if String.eqb (Scope opts) "" then Ret (Err ErrIdempotencyScopeRequired)
      else
        match BuildIdempotencyFingerprint (Method opts) (Route opts) (ActorScope opts) (Payload opts) with
        | Err e => Ret (Err e)
        | Ok fingerprint =>
            now_ <-p now;
            cl <-p claim c opts (HashIdempotencyKey key) fingerprint now_;
            match cl with
            | Answered r => Ret r
            | Owned id => if id =? 0 then Ret (Err ErrIdempotencyStoreUnavail)
                          else run_claimed c opts now_ id execute
            end
        end
  end.
End Coordinator.

(** ** The cleanup of expired rows *)

Definition cleanupOnce {W} (batch : Z) : proc (IdemState W) Oracle (res IdemError Z) :=
  t <-p now; DeleteExpired t batch.

(** ** The lock of system operations *)

Definition systemOperationLockScope : string := "admin.system.operations.global_lock".
Definition systemOperationLockKey : string := "global-system-operation-lock".

Inductive LockError :=
| ErrLockStoreUnavail
| ErrSystemOperationIDRequired
| ErrSystemOperationBusy (operationID : option string) (retry_after : option Z).

Record SystemOperationLock := { recordID : Z; operationID : string }.

Section SystemLock.
Context `{UsageBilling.GoHash} {W : Type} (cfg : IdempotencyConfig).
Let idem A := (proc (IdemState W) Oracle A).

(** [NewSystemOperationLockService] *)
Definition lock_lease : duration :=
  if ProcessingTimeout cfg <=? 0 then 30 * Second else ProcessingTimeout cfg.
Definition lock_ttl : duration :=
  if SystemOperationTTL cfg <=? 0 then Hour else SystemOperationTTL cfg.

Definition busyError (operationID : string) (lockedUntil : option time) (now_ : time) : LockError :=
  ErrSystemOperationBusy (if String.eqb operationID "" then None else Some operationID)
    (retry_after lockedUntil now_).

Definition lock_hash : string := HashIdempotencyKey systemOperationLockKey.

Definition Acquire (opID : string) : idem (res LockError SystemOperationLock) :=
  if String.eqb opID "" then Ret (Err ErrSystemOperationIDRequired)
  else
    now_ <-p now;
    let expiresAt := time_Add now_ lock_ttl in
    let lockedUntil := time_Add now_ lock_lease in
    owner <-p CreateProcessing systemOperationLockScope lock_hash opID lockedUntil expiresAt;
    match owner with
    | Err _ => Ret (Err ErrLockStoreUnavail)
    | Ok (Some id) =>
        Ret (if id =? 0 then Err ErrLockStoreUnavail
             else Ok {| recordID := id; operationID := opID |})
    | Ok None =>
        existing <-p GetByScopeAndKeyHash systemOperationLockScope lock_hash;
        match existing with
        | None | Some None => Ret (Err ErrLockStoreUnavail)
        | Some (Some existing) =>
            if String.eqb (ir_Status existing) IdempotencyStatusProcessing
               && match ir_LockedUntil existing with Some l => time_After l now_ | None => false end
            then Ret (Err (busyError (ir_RequestFingerprint existing) (ir_LockedUntil existing) now_))
            else
              taken <-p TryReclaim (ir_ID existing) (ir_Status existing) now_ lockedUntil expiresAt;
              match taken with
              | Err _ => Ret (Err ErrLockStoreUnavail)
              | Ok false =>
                  latest <-p GetByScopeAndKeyHash systemOperationLockScope lock_hash;
                  Ret (Err (match latest with
                            | Some (Some l) => busyError (ir_RequestFingerprint l) (ir_LockedUntil l) now_
                            | _ => ErrSystemOperationBusy None None
                            end))
              | Ok true =>
                  Ret (if ir_ID existing =? 0 then Err ErrLockStoreUnavail
                       else Ok {| recordID := ir_ID existing; operationID := opID |})
              end
        end
    end.

(** [renewLoop]: [ticks] ticks before the lock is released. *)
Fixpoint renewLoop (ticks : nat) (lock : SystemOperationLock) : idem unit :=
  match ticks with
  | O => Ret ()
  | S n =>
      now_ <-p now;
      ok <-p ExtendProcessingLock (recordID lock) (operationID lock)
               (time_Add now_ lock_lease) (time_Add now_ lock_ttl);
      match ok with
      | Ok false => Ret ()
      | _ => renewLoop n lock
      end
  end.

Definition released_body (operationID : string) : string :=
  let q := String (ascii_of_N 34) "" in
  "{" +:+ q +:+ "operation_id" +:+ q +:+ ":" +:+ q +:+ operationID +:+ q +:+ ","
  +:+ q +:+ "released" +:+ q +:+ ":true}".

Definition Release (lock : SystemOperationLock) (succeeded : bool) (failureReason : string)
  : idem (res IdemError unit) :=
  t <-p now;
  let expiresAt := time_Add t lock_ttl in
  if succeeded then
    MarkSucceeded (recordID lock) 200
      (released_body (operationID lock)) expiresAt
  else
    t' <-p now;
    MarkFailedRetryable (recordID lock)
      (if String.eqb failureReason "" then "SYSTEM_OPERATION_FAILED" else failureReason) t' expiresAt.
End SystemLock.
