(* ===== verification/IdempotencyProps.v ===== *)
(** * A request with an idempotency key runs once

    Requests run concurrently, each action can fail or lose its answer, and
    any process can stop at any point.  As long as the run is shorter than the
    life of a record, the function of a key is executed by one request at a
    time, and never again after it succeeded; a later request gets the answer
    that was stored.

    The proof is a rely-guarantee argument ([ProcGhost.v]) whose ghost state
    says which request owns a row. *)

From Stdlib Require Import ZArith Lia Ascii String Bool.
From stdpp Require Import base numbers option list gmap strings pretty relations sorting.
From S2P Require Import Prelude GoStrings GoUTF8 Redact Proc ProcGhost Idempotency.
From S2P Require UsageBilling.

#[local] Open Scope Z_scope.

(** ** The executions of a run

    Around the function of request [i] with key [k], the journal records that
    it starts and how it ends. *)

Abbreviation Key := (string * string)%type.
Inductive Event := EvStart (i : nat) | EvDone (i : nat) (r : res string Json).
Definition actor (e : Event) : nat := match e with EvStart i | EvDone i _ => i end.

Record Journal (V : Type) := { journal : list (Key * Event); business : V }.
Arguments Build_Journal {V}.
Arguments journal {V}.
Arguments business {V}.

Section Executions.
Context `{GoText} `{GoJSON} `{UsageBilling.GoHash} {V : Type}.
Abbreviation State := (IdemState (Journal V)).

Definition hist (k : Key) (s : State) : list Event :=
  snd <$> filter (λ ke, fst ke = k) (journal (world s)).

Definition record_event (k : Key) (e : Event) (s : State) : State :=
  set_world {| journal := journal (world s) ++ [(k, e)]; business := business (world s) |} s.
Definition with_business (v : V) (s : State) : State :=
  set_world {| journal := journal (world s); business := v |} s.

Definition traced (k : option Key) (i : nat) (f : proc V Oracle (res string Json))
  : proc State Oracle (res string Json) :=
  let f := zoom (λ s, business (world s)) with_business f in
  match k with
  | None => f
  | Some k =>
      _ <-p act (λ _ s, ((), record_event k (EvStart i) s));
      r <-p f;
      _ <-p act (λ _ s, ((), record_event k (EvDone i r) s));
      Ret r
  end.

(** The row a request uses, and its fingerprint. *)
Definition key_of (opts : IdempotencyExecuteOptions) : option Key :=
  match NormalizeIdempotencyKey (IdempotencyKey opts) with
  | Ok key => if String.eqb key "" || String.eqb (Scope opts) "" then None
              else Some (Scope opts, HashIdempotencyKey key)
  | Err _ => None
  end.
Definition fingerprint_of (opts : IdempotencyExecuteOptions) : string :=
  match BuildIdempotencyFingerprint (Method opts) (Route opts) (ActorScope opts) (Payload opts) with
  | Ok fp => fp | Err _ => ""
  end.
Definition ttl_of (c : IdempotencyConfig) (opts : IdempotencyExecuteOptions) : duration :=
  if TTL opts <=? 0 then DefaultTTL c else TTL opts.

Inductive Request :=
| RExecute (opts : IdempotencyExecuteOptions) (f : proc V Oracle (res string Json))
| RCleanup (batch : Z).

Definition serve (c : IdempotencyConfig) (i : nat) (r : Request)
  : proc State Oracle (option (res IdemError IdempotencyExecuteResult)) :=
  match r with
  | RExecute opts f => a <-p Execute c opts (traced (key_of opts) i f); Ret (Some a)
  | RCleanup batch => _ <-p cleanupOnce batch; Ret None
  end.

Definition start (v : V) : State :=
  {| records := ∅; next_record := 1; world := {| journal := []; business := v |} |}.

(** ** The shape of a key's history *)

(** Executions that all failed, one after the other. *)
Inductive failures : list Event → Prop :=
| failures_nil : failures []
| failures_snoc l i e : failures l → failures (l ++ [EvStart i; EvDone i (Err e)]).

(** Executions one after the other, of which only the last may succeed or
    still be running. *)
Definition one_at_a_time (l : list Event) : Prop :=
  ∃ l0, failures l0 ∧ (l = l0 ∨ ∃ i, l = l0 ++ [EvStart i] ∨ ∃ d, l = l0 ++ [EvStart i; EvDone i (Ok d)]).

(** The history ends with the execution of [i], which returned [d]. *)
Definition finished (i : nat) (d : Json) (l : list Event) : Prop :=
  ∃ l0, failures l0 ∧ l = l0 ++ [EvStart i; EvDone i (Ok d)].

(** How far its owner is. *)
Inductive Phase := Fresh | Running | Ended (r : res string Json).
Definition in_phase (i : nat) (p : Phase) (l : list Event) : Prop :=
  ∃ l0, failures l0 ∧ l = match p with
                          | Fresh => l0
                          | Running => l0 ++ [EvStart i]
                          | Ended r => l0 ++ [EvStart i; EvDone i r]
                          end.

Lemma hist_record k k' e s :
  hist k (record_event k' e s) = if decide (k' = k) then hist k s ++ [e] else hist k s.
Proof.
  unfold hist, record_event. simpl. rewrite filter_app, fmap_app. f_equal.
  rewrite filter_cons. simpl. destruct (decide (k' = k)); [done|]. by rewrite app_nil_r.
Qed.

Lemma in_phase_one i p l : in_phase i p l → one_at_a_time l.
Proof.
  intros (l0 & Hl0 & ->). destruct p as [| |[d|e]].
  - exists l0. by split; [|left].
  - exists l0. split; [done|]. right. exists i. by left.
  - exists l0. split; [done|]. right. exists i. right. by exists d.
  - eexists. split; [by apply failures_snoc|]. by left.
Qed.
End Executions.

(** ** The invariant *)

Section Invariant.
Context `{GoText} `{GoJSON} `{UsageBilling.GoHash} {V : Type}.
(** The configuration, the fingerprints of the requests, and the end of the run. *)
Context (c : IdempotencyConfig) (fp : nat → string) (T : time).
Abbreviation State := (IdemState (Journal V)).
Abbreviation Ghost := (gmap Key nat).

(** The answer [d] of the last execution is stored in [body]. *)
Definition stored (l : list Event) (fpr : string) (body : option string) : Prop :=
  ∃ i d b, finished i d l ∧ fp i = fpr ∧ marshalStoredResponse c d = Some b ∧ body = Some b.

Definition row_ok (o : option nat) (r : IdempotencyRecord) (l : list Event) : Prop :=
  match o with
  | Some i => ir_Status r = IdempotencyStatusProcessing ∧ fp i = ir_RequestFingerprint r
              ∧ ∃ p, in_phase i p l
  | None =>
      ((ir_Status r = IdempotencyStatusProcessing ∨ ir_Status r = IdempotencyStatusFailedRetryable)
       ∧ failures l)
      ∨ (ir_Status r = IdempotencyStatusSucceeded
         ∧ stored l (ir_RequestFingerprint r) (ir_ResponseBody r))
  end.

Definition key_ok (s : State) (γ : Ghost) (k : Key) : Prop :=
  match records s !! k with
  | None => γ !! k = None ∧ hist k s = []
  | Some r => 0 < ir_ID r < next_record s ∧ T < ir_ExpiresAt r ∧ row_ok (γ !! k) r (hist k s)
  end.

Definition ids_unique (s : State) : Prop :=
  ∀ k1 k2 r1 r2, records s !! k1 = Some r1 → records s !! k2 = Some r2 → ir_ID r1 = ir_ID r2 → k1 = k2.

Definition Inv (w : State * Ghost) : Prop :=
  (∀ k, key_ok (fst w) (snd w) k) ∧ ids_unique (fst w) ∧ 0 < next_record (fst w).

(** What every step keeps: rows and their identity, and the history of a key
    whose execution succeeded. *)
Definition keeps (w w' : State * Ghost) : Prop :=
  ∀ k, (∀ r, records (fst w) !! k = Some r →
          ∃ r', records (fst w') !! k = Some r' ∧ ir_ID r' = ir_ID r
                ∧ ir_RequestFingerprint r' = ir_RequestFingerprint r)
       ∧ (∀ i d, finished i d (hist k (fst w)) → hist k (fst w') = hist k (fst w)).

Definition same_at (k : Key) (w w' : State * Ghost) : Prop :=
  records (fst w') !! k = records (fst w) !! k ∧ snd w' !! k = snd w !! k
  ∧ hist k (fst w') = hist k (fst w).

(** Process [i] only touches keys it owns, or that nobody owns. *)
Definition Guar (i : nat) (w w' : State * Ghost) : Prop :=
  Inv w → Inv w' ∧ keeps w w'
          ∧ ∀ k j, snd w !! k = Some j → j ≠ i → same_at k w w'.
Definition Rely (i : nat) (w w' : State * Ghost) : Prop :=
  Inv w → Inv w' ∧ keeps w w' ∧ ∀ k, snd w !! k = Some i → same_at k w w'.

Lemma Guar_Rely i j w w' : i ≠ j → Guar i w w' → Rely j w w'.
Proof. intros Hne HG HI. destruct (HG HI) as (? & ? & Hs). split_and!; [done..|]. intros. eapply Hs; eauto. Qed.

Lemma keeps_refl w : keeps w w.
Proof. intros k. split; [eauto|done]. Qed.
Lemma Guar_refl i w : Guar i w w.
Proof. intros HI. split_and!; [done|apply keeps_refl|done]. Qed.

(** What process [i] knows: the invariant, and that it owns row [id] of [k]
    and is in phase [p]. *)
Definition mine (i : nat) (k : Key) (id : Z) (p : Phase) (w : State * Ghost) : Prop :=
  snd w !! k = Some i ∧ (∃ r, records (fst w) !! k = Some r ∧ ir_ID r = id) ∧ in_phase i p (hist k (fst w)).

Lemma Inv_stable i : gstable (Rely i) Inv.
Proof. intros w w' HI HR. by apply HR. Qed.
Lemma mine_stable i k id p : gstable (Rely i) (λ w, Inv w ∧ mine i k id p w).
Proof.
  intros w w' (HI & Hγ & (r & Hr & Hid) & Hp) HR. destruct (HR HI) as (HI' & _ & Hs).
  destruct (Hs k Hγ) as (Hrec & Hγ' & Hh). split; [done|]. unfold mine. rewrite Hrec, Hγ', Hh. eauto.
Qed.

(** A step that only changes one key, which [i] owns or nobody does. *)
Lemma Guar_at i k (s : State) γ s' γ' :
  (∀ k', k' ≠ k → same_at k' (s, γ) (s', γ')) →
  next_record s ≤ next_record s' →
  (γ !! k = Some i ∨ γ !! k = None) →
  (Inv (s, γ) → key_ok s' γ' k) →
  (∀ r, records s !! k = Some r →
     ∃ r', records s' !! k = Some r' ∧ ir_ID r' = ir_ID r ∧ ir_RequestFingerprint r' = ir_RequestFingerprint r) →
  (∀ r', records s !! k = None → records s' !! k = Some r' → ir_ID r' = next_record s) →
  (∀ j d, finished j d (hist k s) → hist k s' = hist k s) →
  Guar i (s, γ) (s', γ').
Proof.
  intros Hother Hnext Hγ Hk Hkeep Hnew Hfin HI. destruct HI as (Hkeys & Hids & Hpos).
  assert (∀ k' r', records s' !! k' = Some r' →
            (∃ r, records s !! k' = Some r ∧ ir_ID r = ir_ID r') ∨ (k' = k ∧ ir_ID r' = next_record s)) as Hold.
  { intros k' r' Hr'. destruct (decide (k' = k)) as [->|Hne].
    - destruct (records s !! k) as [r|] eqn:Er; [|right; eauto].
      destruct (Hkeep r eq_refl) as (r1 & Hr1 & Hid & _). left. exists r. split; [done|]. congruence.
    - destruct (Hother k' Hne) as (Hrec & _ & _). simpl in Hrec. left. exists r'. split; [congruence|done]. }
  assert (∀ k' r, records s !! k' = Some r → 0 < ir_ID r < next_record s) as Hlt.
  { intros k' r Hr. specialize (Hkeys k'). unfold key_ok in Hkeys. simpl in Hkeys. rewrite Hr in Hkeys. apply Hkeys. }
  split_and!; [split_and!| |].
  - intros k'. destruct (decide (k' = k)) as [->|Hne]; [apply Hk; by split_and!|].
    destruct (Hother k' Hne) as (Hrec & Hg & Hh). specialize (Hkeys k'). unfold key_ok in *. simpl in *.
    rewrite Hrec, Hg, Hh. destruct (records s !! k'); [|done]. destruct Hkeys as (? & ? & ?). split_and!; [lia|lia|done..].
  - intros k1 k2 r1 r2 H1' H2' Heq. simpl in *.
    destruct (Hold _ _ H1') as [(q1 & Hq1 & E1)|[-> E1]], (Hold _ _ H2') as [(q2 & Hq2 & E2)|[-> E2]].
    + eapply Hids; [exact Hq1|exact Hq2|congruence].
    + pose proof (Hlt _ _ Hq1). lia.
    + pose proof (Hlt _ _ Hq2). lia.
    + done.
  - simpl in *. lia.
  - intros k'. simpl. destruct (decide (k' = k)) as [->|Hne]; [by split|].
    destruct (Hother k' Hne) as (Hrec & _ & Hh). simpl in *. rewrite Hrec. split; [eauto|done].
  - intros k' j Hj Hji. apply Hother. intros ->. simpl in Hj. destruct Hγ; congruence.
Qed.
End Invariant.

(** ** The actions of a request *)

Section Actions.
Context `{GoText} `{GoJSON} `{UsageBilling.GoHash} {V : Type}.
Context (c : IdempotencyConfig) (fp : nat → string) (T0 T : time) (i : nat).
Abbreviation State := (IdemState (Journal V)).
Abbreviation Inv := (Inv (V := V) c fp T).
Abbreviation Rely := (Rely (V := V) c fp T i).
Abbreviation Guar := (Guar (V := V) c fp T i).
Abbreviation Asrt := (State * gmap Key nat → Prop).
(** The clock stays in the run's interval. *)
Definition in_run (o : Oracle) : Prop := T0 ≤ o_now o ≤ T.
Abbreviation sound := (gsafe in_run Rely Guar).

Lemma sound_read {B : Type} (P : Asrt) (f : State → B) (M : B → Asrt) :
  gstable Rely P → (∀ b, gstable Rely (M b)) → (∀ s γ, P (s, γ) → M (f s) (s, γ)) →
  sound P (read f) (λ r w, match r with Some b => M b w | None => P w end).
Proof.
  intros HP HM Hf. apply gsafe_act; [|by intros [b|]].
  intros o s γ _ HPs. exists γ. destruct (fate o); simpl; (split; [apply Guar_refl|]); auto.
Qed.

Lemma sound_now (P : Asrt) : gstable Rely P → sound P now (λ t w, T0 ≤ t ≤ T ∧ P w).
Proof.
  intros HP. apply gsafe_act; [|intros t; apply gstable_and; [apply gstable_const|done]].
  intros o s γ Ho HPs. exists γ. simpl. split; [apply Guar_refl|done].
Qed.

(** A statement that gives [M] when it answers and [N] when it does not. *)
Lemma sound_write {E A : Type} (P : Asrt) (e : E) (f : time → State → res E (A * State))
    (M : A → Asrt) (N : Asrt) :
  (∀ a, gstable Rely (M a)) → gstable Rely N → (∀ w, P w → N w) →
  (∀ t s γ a s', T0 ≤ t ≤ T → P (s, γ) → f t s = Ok (a, s') →
     (∃ γ', Guar (s, γ) (s', γ') ∧ M a (s', γ')) ∧ (∃ γ', Guar (s, γ) (s', γ') ∧ N (s', γ'))) →
  sound P (write e f) (λ r, match r with Ok a => M a | Err _ => N end).
Proof.
  intros HM HN HPN Hf. apply gsafe_act; [|by intros [a|e']].
  intros o s γ Ho HPs.
  assert (Guar (s, γ) (s, γ) ∧ N (s, γ)) as Hno by (split; [apply Guar_refl|by apply HPN]).
  destruct (fate o); [| by exists γ |]; destruct (f (o_now o) s) as [[a s']|e'] eqn:Ef; simpl;
    [by destruct (Hf _ _ _ _ _ Ho HPs Ef)|by exists γ|by destruct (Hf _ _ _ _ _ Ho HPs Ef)|by exists γ].
Qed.

(** A statement that hits at most the row [r] of [k]. *)
Lemma update_where_at (s : State) k r p f :
  ids_unique s → records s !! k = Some r → (∀ r', p r' = true → ir_ID r' = ir_ID r) →
  update_where p f s = if p r then (true, set_records <[k := f r]> s) else (false, s).
Proof.
  intros Hids Hr Hp.
  assert (∀ k' r', records s !! k' = Some r' → p r' = true → k' = k) as Honly.
  { intros k' r' Hr' Hpr. eapply Hids; eauto. }
  unfold update_where. destruct (p r) eqn:Epr.
  - rewrite bool_decide_false; [|intros Hall; specialize (Hall _ _ Hr); simpl in Hall; congruence].
    simpl. f_equal. unfold set_records. f_equal. apply map_eq. intros k'. rewrite lookup_fmap, lookup_insert.
    case_decide as Hk; [subst; rewrite Hr; simpl; by rewrite Epr|].
    destruct (records s !! k') as [r'|] eqn:Er'; simpl; [|done].
    destruct (p r') eqn:Ep'; [|done]. by destruct Hk; symmetry; eapply Honly.
  - rewrite bool_decide_true.
    + simpl. f_equal. destruct s as [m n wld]. unfold set_records. simpl in *. f_equal. apply map_eq.
      intros k'. rewrite lookup_fmap. destruct (m !! k') as [r'|] eqn:Er'; simpl; [|done].
      destruct (p r') eqn:Ep'; [|done]. assert (k' = k) as -> by eauto. congruence.
    + intros k' r' Hr'. destruct (p r') eqn:Ep'; [|done]. assert (k' = k) as -> by eauto. congruence.
Qed.

Lemma Inv_key w k : Inv w → key_ok c fp T (fst w) (snd w) k.
Proof. intros HI. apply HI. Qed.

(** Replacing the row of a key, and its owner. *)
Lemma Guar_set_row (s : State) γ k r r' o :
  (γ !! k = Some i ∨ γ !! k = None) → records s !! k = Some r →
  ir_ID r' = ir_ID r → ir_RequestFingerprint r' = ir_RequestFingerprint r →
  (Inv (s, γ) → T < ir_ExpiresAt r' ∧ row_ok c fp o r' (hist k s)) →
  Guar (s, γ) (set_records <[k := r']> s, partial_alter (λ _, o) k γ).
Proof.
  intros Hγ Hr Hid Hf Hok. apply Guar_at with k; try done.
  - intros k' Hne. unfold same_at. simpl. by rewrite lookup_insert_ne, lookup_partial_alter_ne.
  - intros HI. destruct (Hok HI) as [He Hrow]. unfold key_ok. simpl.
    rewrite lookup_insert_eq, lookup_partial_alter_eq, Hid. split; [|by split].
    pose proof (Inv_key _ k HI) as Hk. unfold key_ok in Hk. simpl in Hk. rewrite Hr in Hk. apply Hk.
  - intros r0 Hr0. exists r'. simpl. rewrite lookup_insert_eq. by simplify_eq.
  - intros r0 Hr0. congruence.
Qed.

Lemma row_unowned_fresh o r l : row_ok c fp o r l →
  ir_Status r = IdempotencyStatusFailedRetryable → o = None ∧ failures l.
Proof.
  intros Hrow Hst. destruct o as [j|]; simpl in Hrow.
  - destruct Hrow as (Hs & _). rewrite Hst in Hs. done.
  - destruct Hrow as [[_ ?]|[Hs _]]; [done|]. rewrite Hst in Hs. done.
Qed.

Abbreviation mine := (mine (V := V) i).
Lemma Inv_stable' : gstable Rely Inv.
Proof. apply Inv_stable. Qed.
Lemma mine_stable' k id p : gstable Rely (λ w, Inv w ∧ mine k id p w).
Proof. apply mine_stable. Qed.

Definition owns (k : Key) (p : Phase) (r : option Z) (w : State * gmap Key nat) : Prop :=
  Inv w ∧ match r with Some id => mine k id p w | None => True end.
Lemma owns_stable k p r : gstable Rely (owns k p r).
Proof. destruct r as [id|]; [apply mine_stable|]. intros w w' [HI _] HR. split; [by eapply Inv_stable|done]. Qed.

Lemma key_ok_row w k r : Inv w → records (fst w) !! k = Some r →
  T < ir_ExpiresAt r ∧ row_ok c fp (snd w !! k) r (hist k (fst w)).
Proof. intros HI Hr. pose proof (Inv_key w k HI) as Hk. unfold key_ok in Hk. rewrite Hr in Hk. by destruct Hk as (_ & ? & ?). Qed.

Lemma sound_CreateProcessing scope keyHash fingerprint lockedUntil expiresAt :
  fp i = fingerprint → T < expiresAt →
  sound Inv (CreateProcessing scope keyHash fingerprint lockedUntil expiresAt)
    (λ r, match r with Ok a => owns (scope, keyHash) Fresh a | Err _ => Inv end).
Proof.
  intros Hfp HT. set (k := (scope, keyHash)). apply sound_write; [apply owns_stable|apply Inv_stable|done|].
  intros t s γ a s' _ HI Hs'. fold k in Hs'. destruct (records s !! k) as [r|] eqn:Er.
  { injection Hs' as <- <-. split; exists γ; (split; [apply Guar_refl|]); [by split|done]. }
  injection Hs' as <- <-.
  pose proof (Inv_key _ k HI) as Hk. unfold key_ok in Hk. simpl in Hk. rewrite Er in Hk. destruct Hk as [Hγ Hh].
  destruct HI as (Hkeys & Hids & Hpos).
  set (r := new_record (next_record s) fingerprint lockedUntil expiresAt).
  set (s1 := {| records := _; next_record := _; world := _ |}).
  assert (∀ o, row_ok c fp o r [] → Guar (s, γ) (s1, partial_alter (λ _, o) k γ)) as HG.
  { intros o Hrow. apply Guar_at with k.
    - intros k' Hne. unfold same_at, s1. simpl. by rewrite lookup_insert_ne, lookup_partial_alter_ne.
    - unfold s1. simpl. lia.
    - by right.
    - intros _. unfold key_ok, s1. simpl. rewrite lookup_insert_eq, lookup_partial_alter_eq.
      change (hist k _) with (hist k s). rewrite Hh. simpl in *. split; [lia|by split].
    - intros r0 Hr0. congruence.
    - unfold s1. simpl. intros r0 _. rewrite lookup_insert_eq. by intros [= <-].
    - done. }
  assert (row_ok c fp None r []) as Hnone by (left; split; [by left|constructor]).
  assert (in_phase i Fresh []) as Hph by (exists []; split; [constructor|done]).
  split; eexists; (split; [apply HG|]).
  - instantiate (1 := Some i). simpl. split_and!; [done|done|by exists Fresh].
  - split.
    + apply (HG (Some i)); [|by split_and!]. simpl. split_and!; [done|done|by exists Fresh].
    + unfold mine. simpl. rewrite lookup_partial_alter_eq, lookup_insert_eq.
      change (hist k s1) with (hist k s). rewrite Hh. split_and!; [done|by exists r|done].
  - exact Hnone.
  - by apply HG.
Qed.

(** What stays true of a row that was read. *)
Definition seen (k : Key) (r : IdempotencyRecord) (w : State * gmap Key nat) : Prop :=
  T < ir_ExpiresAt r
  ∧ (∃ r', records (fst w) !! k = Some r' ∧ ir_ID r' = ir_ID r
           ∧ ir_RequestFingerprint r' = ir_RequestFingerprint r)
  ∧ (ir_Status r = IdempotencyStatusSucceeded →
     stored c fp (hist k (fst w)) (ir_RequestFingerprint r) (ir_ResponseBody r)).

Lemma keeps_stored (w w' : State * gmap Key nat) k f b : keeps w w' → stored c fp (hist k (fst w)) f b → stored c fp (hist k (fst w')) f b.
Proof.
  intros Hk (j & d & s & Hf & Hrest). destruct (Hk k) as [_ Hh]. exists j, d, s. by rewrite (Hh _ _ Hf).
Qed.

Lemma seen_stable k r : gstable Rely (λ w, Inv w ∧ seen k r w).
Proof.
  intros w w' (HI & HT & (r' & Hr' & Hid & Hf) & Hst) HR. destruct (HR HI) as (HI' & Hk & _).
  unfold seen. split_and!; [done|done| |].
  - destruct (Hk k) as [Hrow _]. destruct (Hrow _ Hr') as (r2 & Hr2 & Hid2 & Hf2). exists r2.
    split_and!; [done|congruence|congruence].
  - intros Hs. eapply keeps_stored; [done|by apply Hst].
Qed.

Lemma Inv_seen (w : State * gmap Key nat) k r : Inv w → records (fst w) !! k = Some r → seen k r w.
Proof.
  intros HI Hr. destruct (key_ok_row w k r HI Hr) as [HT Hrow]. split_and!; [done|by exists r|].
  intros Hst. destruct (snd w !! k) as [j|]; simpl in Hrow; [destruct Hrow as (Hp & _); by rewrite Hst in Hp|].
  destruct Hrow as [[[Hp|Hp] _]|[_ Hs]]; [by rewrite Hst in Hp..|done].
Qed.

Lemma sound_Get scope keyHash :
  sound Inv (GetByScopeAndKeyHash scope keyHash)
    (λ r w, match r with
            | Some (Some ex) => Inv w ∧ seen (scope, keyHash) ex w
            | _ => Inv w
            end).
Proof.
  eapply gsafe_weaken;
    [apply (sound_read Inv _ (λ m w, match m with Some ex => Inv w ∧ seen (scope, keyHash) ex w | None => Inv w end))
    |done|by intros [[ex|]|] w].
  - apply Inv_stable.
  - intros [ex|]; [apply seen_stable|apply Inv_stable].
  - intros s γ HI. destruct (records s !! _) as [r|] eqn:Er; [|done]. split; [done|by apply Inv_seen].
Qed.

(** Updates of the row with a known id. *)
Lemma owned_update (s : State) γ k id p q f o :
  Inv (s, γ) → mine k id p (s, γ) → (∀ r, q r = true ↔ ir_ID r = id) →
  (∀ r, ir_ID (f r) = ir_ID r ∧ ir_RequestFingerprint (f r) = ir_RequestFingerprint r) →
  (∀ r, fp i = ir_RequestFingerprint r →
        T < ir_ExpiresAt (f r) ∧ row_ok c fp o (f r) (hist k s)) →
  Guar (s, γ) (snd (update_where q f s), partial_alter (λ _, o) k γ).
Proof.
  intros HI (Hγ & (r & Hr & Hid) & _) Hq Hf Hok.
  rewrite (update_where_at s k r q f); [|apply HI|done|].
  - assert (q r = true) as -> by (by apply Hq). simpl. destruct (Hf r) as [Hf1 Hf2].
    apply Guar_set_row with r; [by left|done|done|done|]. intros _. apply Hok.
    destruct (key_ok_row _ k r HI Hr) as [_ Hrow]. simpl in *. rewrite Hγ in Hrow. by destruct Hrow as (_ & ? & _).
  - intros r' Hr'%Hq. congruence.
Qed.

Lemma sound_TryReclaim k id t lockedUntil expiresAt :
  T < expiresAt →
  sound (λ w, Inv w ∧ ∃ r, records (fst w) !! k = Some r ∧ ir_ID r = id ∧ ir_RequestFingerprint r = fp i)
    (TryReclaim id IdempotencyStatusFailedRetryable t lockedUntil expiresAt)
    (λ r, match r with Ok b => owns k Fresh (if b then Some id else None) | Err _ => Inv end).
Proof.
  intros HT. apply (sound_write _ _ _ (λ b : bool, owns k Fresh (if b then Some id else None)));
    [intros b; apply owns_stable|apply Inv_stable|by intros w [? _]|].
  intros _ s γ b s' _ (HI & r & Hr & Hid & Hf) Hs'. simpl in Hr.
  rewrite (update_where_at s k r) in Hs'; [|apply HI|done|].
  2: { intros r' Hr'. unfold reclaimable in Hr'. split_andb_in Hr'. rewrite Hid. by apply Z.eqb_eq. }
  destruct (reclaimable _ _ _ r) eqn:Erec; injection Hs' as <- <-.
  - unfold reclaimable in Erec. apply andb_true_iff in Erec as [Erec _].
    apply andb_true_iff in Erec as [_ Hst%String.eqb_eq].
    destruct (key_ok_row _ k r HI Hr) as [_ Hrow]. simpl in Hrow.
    apply row_unowned_fresh in Hrow as [Hγ Hfail]; [|done].
    assert (∀ o, row_ok c fp o (reclaimed lockedUntil expiresAt r) (hist k s) →
                 Guar (s, γ) (set_records <[k := reclaimed lockedUntil expiresAt r]> s, partial_alter (λ _, o) k γ)) as HG.
    { intros o Hrow. apply Guar_set_row with r; [by right|done|done|done|by split]. }
    assert (row_ok c fp None (reclaimed lockedUntil expiresAt r) (hist k s)) as Hnone
      by (left; split; [by left|done]).
    assert (row_ok c fp (Some i) (reclaimed lockedUntil expiresAt r) (hist k s)) as Hsome.
    { split_and!; [done|by rewrite <-Hf|]. exists Fresh, (hist k s). by split. }
    split; [exists (partial_alter (λ _, Some i) k γ)|exists (partial_alter (λ _, None) k γ)];
      (split; [by apply HG|]).
    + split; [by apply (HG (Some i))|]. unfold mine. simpl.
      rewrite lookup_partial_alter_eq, lookup_insert_eq. split_and!; [done|by eexists|]. by exists (hist k s).
    + by apply (HG None).
  - split; exists γ; (split; [apply Guar_refl|]); [by split|done].
Qed.

Lemma sound_DeleteExpired limit t :
  T0 ≤ t ≤ T → sound Inv (DeleteExpired t limit) (λ _, Inv).
Proof.
  intros Ht. eapply gsafe_weaken;
    [apply (sound_write Inv _ _ (λ _, Inv) Inv)|done|by intros [a|e]].
  - intros _. apply Inv_stable.
  - apply Inv_stable.
  - done.
  - intros _ s γ a s' _ HI. unfold expired_records.
    replace (List.filter _ _) with (@nil (Key * IdempotencyRecord)).
    2: { symmetry. destruct (List.filter _ _) as [|[k r] l] eqn:E; [done|].
         assert (In (k, r) (List.filter (λ kr, ir_ExpiresAt (snd kr) <=? t) (map_to_list (records s)))) as Hin
           by (rewrite E; by left).
         apply filter_In in Hin as [Hin Hle]. apply list_elem_of_In, elem_of_map_to_list in Hin.
         destruct (key_ok_row _ _ _ HI Hin) as [HT _]. simpl in Hle. apply Z.leb_le in Hle. lia. }
    assert (∀ n, take n (fst <$> merge_sort expires_first []) = []) as -> by (by intros []).
    simpl. intros [= <- <-]. assert (set_records (λ m, m) s = s) as -> by (by destruct s).
    split; exists γ; (split; [apply Guar_refl|done]).
Qed.

(** The journal and the business data. *)
Lemma failures_not_finished l j d : failures l → ¬ finished j d l.
Proof.
  intros Hl (l0 & _ & ->). remember (l0 ++ _) as l eqn:El. destruct Hl as [|l i' e Hl].
  - by destruct l0.
  - apply (app_inj_2) in El as [_ El]; [|done]. by simplify_eq.
Qed.
Lemma running_not_finished l i' j d : ¬ finished j d (l ++ [EvStart i']).
Proof.
  intros (l0 & _ & El). apply (f_equal reverse) in El. rewrite !reverse_app in El. by simplify_eq.
Qed.

Lemma sound_record k id p p' e :
  (∀ l, in_phase i p l → ¬ (∃ j d, finished j d l)) →
  (∀ l, in_phase i p l → in_phase i p' (l ++ [e])) →
  sound (λ w, Inv w ∧ mine k id p w) (act (λ _ s, ((), record_event k e s)))
    (λ _ w, Inv w ∧ mine k id p' w).
Proof.
  intros Hfin Hp. apply gsafe_act; [|intros []; apply mine_stable].
  intros o s γ _ (HI & Hγ & (r & Hr & Hid) & Hph). simpl in *. exists γ.
  assert (hist k (record_event k e s) = hist k s ++ [e]) as Hh
    by (rewrite hist_record; by rewrite decide_True).
  assert (Guar (s, γ) (record_event k e s, γ)) as HG.
  { apply Guar_at with k.
    - intros k' Hne. unfold same_at. simpl. rewrite hist_record. by rewrite decide_False.
    - simpl. lia.
    - by left.
    - intros _. pose proof (Inv_key _ k HI) as Hk. unfold key_ok in *. simpl in *. rewrite Hr in *. rewrite Hh.
      destruct Hk as (Hids & HT & Hrow). split; [done|]. split; [done|]. rewrite Hγ in *. simpl in *.
      destruct Hrow as (? & ? & _). split_and!; [done|done|]. exists p'. by apply Hp.
    - intros r0 Hr0. by exists r0.
    - intros r0 Hr0. congruence.
    - intros j d Hf. destruct (Hfin _ Hph). by exists j, d. }
  split; [done|]. split; [by apply HG|]. unfold mine. simpl. rewrite Hh.
  split_and!; [done|by exists r|by apply Hp].
Qed.

Lemma Guar_business s γ v : Guar (s, γ) (with_business v s, γ).
Proof. intros HI. split_and!; [exact HI|exact (keeps_refl (s, γ))|done]. Qed.

Lemma sound_zoom {A : Type} (f : proc V Oracle A) (P : Asrt) :
  gstable Rely P → (∀ s γ v, P (s, γ) → P (with_business v s, γ)) →
  sound P (zoom (λ s, business (world s)) with_business f) (λ _, P).
Proof.
  intros HP Hb. induction f as [a|B f k IH]; simpl; [done|].
  exists (λ _, P). split; [|split; [by intros b|intros b; apply IH]]. intros o s γ _ HPs. exists γ.
  destruct (f o _) as [b v]. simpl. split; [apply Guar_business|by apply Hb].
Qed.

Lemma sound_traced k id f :
  sound (λ w, Inv w ∧ mine k id Fresh w) (traced (Some k) i f) (λ r w, Inv w ∧ mine k id (Ended r) w).
Proof.
  unfold traced. eapply gsafe_bind.
  { apply (sound_record k id Fresh Running).
    - intros l (l0 & Hl & ->) (j & d & Hf). by eapply failures_not_finished.
    - intros l (l0 & Hl & ->). by exists l0. }
  intros []. eapply gsafe_bind.
  { apply (sound_zoom f (λ w, Inv w ∧ mine k id Running w)); [apply mine_stable|done]. }
  intros r. eapply gsafe_bind.
  { apply (sound_record k id Running (Ended r)).
    - intros l (l0 & Hl & ->) (j & d & Hf). by eapply running_not_finished.
    - intros l (l0 & Hl & ->). exists l0. split; [done|]. by rewrite <-app_assoc. }
  intros []. by intros w.
Qed.

(** The end of an execution. *)
Lemma finished_stable k j d : gstable Rely (λ w, Inv w ∧ finished j d (hist k (fst w))).
Proof.
  intros w w' [HI Hf] HR. destruct (HR HI) as (HI' & Hk & _). split; [done|].
  destruct (Hk k) as [_ Hh]. by rewrite (Hh _ _ Hf).
Qed.

Lemma sound_MarkSucceeded k id d body expiresAt :
  T < expiresAt → marshalStoredResponse c d = Some body →
  sound (λ w, Inv w ∧ mine k id (Ended (Ok d)) w) (MarkSucceeded id 200 body expiresAt)
    (λ r w, Inv w ∧ finished i d (hist k (fst w))).
Proof.
  intros HT Hm. eapply gsafe_weaken;
    [apply (sound_write (λ w, Inv w ∧ mine k id (Ended (Ok d)) w) _ _ (λ _ : unit, λ w, Inv w ∧ finished i d (hist k (fst w)))
              (λ w, Inv w ∧ finished i d (hist k (fst w))))|done|by intros [a|e] w].
  - intros _. apply finished_stable.
  - apply finished_stable.
  - intros w (HI & _ & _ & Hp). by split.
  - intros _ s γ [] s' _ (HI & Hmine) Hs'. simpl in Hs'. injection Hs' as Hs'. subst s'.
    pose proof Hmine as (_ & _ & Hfin).
    split; exists (partial_alter (λ _, None) k γ);
      (assert (Guar (s, γ) (snd (update_where (λ r, ir_ID r =? id) (succeeded 200 body expiresAt) s),
                            partial_alter (λ _, None) k γ)) as HG;
       [eapply owned_update; [done|done|intros r; apply Z.eqb_eq|done|];
        intros r Hr; split; [done|]; right; split; [done|]; by exists i, d, body|]);
      (split; [done|]; split; [by apply HG|done]).
Qed.

Lemma sound_MarkFailedRetryable k id e reason lockedUntil expiresAt :
  T < expiresAt →
  sound (λ w, Inv w ∧ mine k id (Ended (Err e)) w) (MarkFailedRetryable id reason lockedUntil expiresAt)
    (λ _, Inv).
Proof.
  intros HT. eapply gsafe_weaken;
    [apply (sound_write (λ w, Inv w ∧ mine k id (Ended (Err e)) w) _ _ (λ _ : unit, Inv) Inv)|done|by intros [a|e'] w].
  - intros _. apply Inv_stable.
  - apply Inv_stable.
  - by intros w [? _].
  - intros _ s γ [] s' _ (HI & Hmine) Hs'. simpl in Hs'. injection Hs' as Hs'. subst s'.
    pose proof Hmine as (_ & _ & (l0 & Hl0 & Hl)).
    assert (Guar (s, γ) (snd (update_where (λ r, ir_ID r =? id) (failed_retryable reason lockedUntil expiresAt) s),
                         partial_alter (λ _, None) k γ)) as HG.
    { eapply owned_update; [done|done|intros r; apply Z.eqb_eq|done|].
      intros r Hr. split; [done|]. left. split; [by right|]. simpl in Hl. rewrite Hl. by constructor. }
    split; exists (partial_alter (λ _, None) k γ); (split; [done|by apply HG]).
Qed.

(** ** Requests *)

(** What an answer says about the history of its key. *)
Definition answers (k : Key) (a : res IdemError IdempotencyExecuteResult) (l : list Event) : Prop :=
  match a with
  | Ok r => if Replayed r
            then ∃ j d b, finished j d l ∧ fp j = fp i ∧ marshalStoredResponse c d = Some b
                          ∧ decodeStoredResponse (Some b) = Some (Data r)
            else finished i (Data r) l
  | Err _ => True
  end.
Definition answered (k : Key) (a : res IdemError IdempotencyExecuteResult) (w : State * gmap Key nat) : Prop := Inv w ∧ answers k a (hist k (fst w)).
Definition claimed (k : Key) (cl : Claim) (w : State * gmap Key nat) : Prop :=
  match cl with
  | Owned id => Inv w ∧ mine k id Fresh w
  | Answered a => answered k a w
  end.

Lemma answered_stable k a : gstable Rely (answered k a).
Proof.
  intros w w' [HI Ha] HR. destruct (HR HI) as (HI' & Hk & _). split; [done|]. destruct (Hk k) as [_ Hh].
  destruct a as [r|e]; [|done]. simpl in *. destruct (Replayed r).
  - destruct Ha as (j & d & b & Hf & Hrest). exists j, d, b. by rewrite (Hh _ _ Hf).
  - by rewrite (Hh _ _ Ha).
Qed.

Section Request.
Context (opts : IdempotencyExecuteOptions) (keyHash fingerprint : string) (now_ : time).
Context (Hnow : T0 ≤ now_ ≤ T) (Httl : T < T0 + ttl_of c opts) (Hfp : fp i = fingerprint).
Let k : Key := (Scope opts, keyHash).

Lemma expires_later : T < time_Add now_ (if TTL opts <=? 0 then DefaultTTL c else TTL opts).
Proof. unfold time_Add, ttl_of in *. lia. Qed.

Lemma sound_claim_by_status ex :
  ir_RequestFingerprint ex = fingerprint →
  sound (λ w, Inv w ∧ seen k ex w) (claim_by_status c opts now_ ex) (claimed k).
Proof.
  intros Hex. unfold claim_by_status.
  destruct (String.eqb _ IdempotencyStatusSucceeded) eqn:Es.
  { apply String.eqb_eq in Es. intros w [HI (_ & _ & Hs)]. split; [done|].
    destruct (Hs Es) as (j & d & b & Hf & Hj & Hm & ->).
    destruct (decodeStoredResponse _) as [d'|] eqn:Ed; [|done]. exists j, d, b. simpl.
    split_and!; [done|congruence|done|done]. }
  destruct (String.eqb _ IdempotencyStatusProcessing); [by intros w [HI _]|].
  destruct (String.eqb _ IdempotencyStatusFailedRetryable); [|by intros w [HI _]].
  destruct (match ir_LockedUntil ex with Some l => time_After l now_ | None => false end);
    [by intros w [HI _]|].
  eapply gsafe_bind.
  - eapply gsafe_weaken; [apply (sound_TryReclaim k (ir_ID ex)), expires_later| |done].
    intros w [HI (_ & (r & Hr & Hid & Hf) & _)]. split; [done|]. exists r. split_and!; [done..|congruence].
  - intros [[]|e] w; simpl; [done|by intros [HI _]|done].
Qed.

Lemma sound_with_existing f :
  (∀ ex, ir_RequestFingerprint ex = fingerprint →
         sound (λ w, Inv w ∧ seen k ex w) (f ex) (claimed k)) →
  sound Inv (with_existing opts keyHash fingerprint f) (claimed k).
Proof.
  intros Hf. unfold with_existing. eapply gsafe_bind; [apply sound_Get|].
  intros [[ex|]|]; [|by intros w|by intros w].
  destruct (negb _) eqn:En; [by intros w [HI _]|].
  apply negb_false_iff, String.eqb_eq in En. by apply Hf.
Qed.

Lemma sound_claim : sound Inv (claim c opts keyHash fingerprint now_) (claimed k).
Proof.
  unfold claim. eapply gsafe_bind; [apply sound_CreateProcessing; [done|apply expires_later]|].
  intros [[id|]|e]; [by intros w| |by intros w].
  eapply gsafe_weaken; [apply sound_with_existing|by intros w [HI _]|done].
  intros ex Hex. unfold claim_existing. destruct (time_After (ir_ExpiresAt ex) now_) eqn:Et.
  - by apply sound_claim_by_status.
  - apply gsafe_absurd. intros w [_ (HT & _)]. unfold time_After in Et. apply Z.ltb_ge in Et. lia.
Qed.

Lemma sound_run_claimed id f :
  sound (λ w, Inv w ∧ mine k id Fresh w) (run_claimed c opts now_ id (traced (Some k) i f)) (answered k).
Proof.
  unfold run_claimed. eapply gsafe_bind; [apply sound_traced|]. intros [d|reason].
  - destruct (marshalStoredResponse c d) as [body|] eqn:Em; [|by intros w [HI _]].
    eapply gsafe_bind; [apply (sound_MarkSucceeded k id d); [apply expires_later|done]|].
    intros [[]|e] w [HI Hf]; by split.
  - eapply gsafe_bind; [apply sound_now, mine_stable|]. intros t.
    eapply gsafe_bind.
    + eapply gsafe_weaken; [apply (sound_MarkFailedRetryable k id reason); apply expires_later|by intros w [_ Hw]|done].
    + by intros r w HI.
Qed.
End Request.

(** The request of this process. *)
Lemma sound_Execute opts f :
  fp i = fingerprint_of opts → T < T0 + ttl_of c opts →
  sound Inv (Execute c opts (traced (key_of opts) i f))
    (λ a w, Inv w ∧ match key_of opts with Some k => answers k a (hist k (fst w)) | None => True end).
Proof.
  intros Hfp Httl. unfold Execute, key_of, fingerprint_of in *.
  destruct (NormalizeIdempotencyKey _) as [key|e]; [|by intros w].
  destruct (String.eqb key "") eqn:Ek; cbn [orb].
  { destruct (_ && _); [by intros w|]. eapply gsafe_bind.
    - apply (sound_zoom f Inv); [apply Inv_stable|done].
    - by intros r w. }
  destruct (String.eqb (Scope opts) "") eqn:Esc; [by intros w|].
  destruct (BuildIdempotencyFingerprint _ _ _ _) as [fpr|e]; [|by intros w].
  eapply gsafe_bind; [apply sound_now, Inv_stable|]. intros t.
  destruct (decide (T0 ≤ t ≤ T)) as [Ht|Ht].
  2: { apply gsafe_absurd. by intros w [? _]. }
  eapply gsafe_bind.
  - eapply gsafe_weaken; [by apply sound_claim|by intros w [_ HI]|done].
  - intros [id|a]; [|by intros w]. destruct (id =? 0); [by intros w [HI _]|].
    by apply sound_run_claimed.
Qed.
End Actions.

(** ** Runs *)

Section Runs.
Context `{GoText} `{GoJSON} `{UsageBilling.GoHash} {V : Type}.
Context (c : IdempotencyConfig).
Abbreviation State := (IdemState (Journal V)).

Definition request_fingerprint (reqs : list (Request (V := V))) (i : nat) : string :=
  match reqs !! i with Some (RExecute opts _) => fingerprint_of opts | _ => "" end.

(** The run is over before a record can expire. *)
Definition outlived (T0 T : time) (r : Request (V := V)) : Prop :=
  match r with RExecute opts _ => T < T0 + ttl_of c opts | RCleanup _ => True end.
Definition clock_within (T0 T : time) (m : nat * Oracle) : Prop := T0 ≤ o_now (snd m) ≤ T.

Definition request_done (reqs : list (Request (V := V))) (i : nat)
    (a : option (res IdemError IdempotencyExecuteResult)) (s : State) : Prop :=
  match reqs !! i, a with
  | Some (RExecute opts _), Some a =>
      match key_of opts with
      | Some k => answers c (request_fingerprint reqs) i k a (hist k s)
      | None => True
      end
  | _, _ => True
  end.

Lemma Inv_start fp T v : Inv (V := V) c fp T (start v, ∅).
Proof.
  split_and!; simpl; [|done|done].
  intros k. unfold key_ok. simpl. by rewrite !lookup_empty.
Qed.

Lemma serve_safe reqs T0 T i r :
  reqs !! i = Some r → outlived T0 T r →
  gsafe (in_run T0 T) (Rely c (request_fingerprint reqs) T i) (Guar c (request_fingerprint reqs) T i)
    (Inv c (request_fingerprint reqs) T) (serve (V := V) c i r)
    (λ a w, Inv c (request_fingerprint reqs) T w ∧ request_done reqs i a (fst w)).
Proof.
  intros Hi Ho. unfold request_done. rewrite Hi. destruct r as [opts f|batch]; cbn [serve outlived] in *.
  - eapply gsafe_bind; [apply sound_Execute; [|done]|].
    + unfold request_fingerprint. by rewrite Hi.
    + by intros a w.
  - apply gsafe_bind with (Q := λ _, Inv c (request_fingerprint reqs) T); [|by intros a w HI].
    unfold cleanupOnce. eapply gsafe_bind; [apply sound_now, Inv_stable|]. intros t.
    destruct (decide (T0 ≤ t ≤ T)) as [Ht|Ht]; [|apply gsafe_absurd; by intros w [? _]].
    eapply gsafe_weaken; [by eapply (sound_DeleteExpired _ _ T0)|by intros w [_ HI]|done].
Qed.

Lemma run_Inv reqs v T0 T sched s ps :
  Forall (clock_within T0 T) sched → Forall (outlived T0 T) reqs →
  run sched (start v, imap (serve c) reqs) = (s, ps) →
  ∃ γ, Inv c (request_fingerprint reqs) T (s, γ)
       ∧ ∀ i a, ps !! i = Some (Ret a) → request_done reqs i a s.
Proof.
  intros Hs Hr Hrun. set (fp := request_fingerprint reqs).
  destruct (grun_safe (in_run T0 T) (Rely c fp T) (Guar c fp T)
              (λ i a w, Inv c fp T w ∧ request_done reqs i a (fst w))
              sched (start v) ∅ (imap (serve c) reqs) s ps) as (γ & Hsteps & Hend).
  - intros i j w w'. apply Guar_Rely.
  - exact Hs.
  - intros i p Hp. rewrite list_lookup_imap in Hp. destruct (reqs !! i) as [r|] eqn:Ei; [|done].
    injection Hp as <-. exists (Inv c fp T).
    split_and!; [apply Inv_stable|apply Inv_start|]. apply serve_safe; [done|].
    rewrite Forall_forall in Hr. apply Hr. by eapply list_elem_of_lookup_2.
  - done.
  - exists γ. split.
    + assert (Inv c fp T (start v, ∅)) as HI0 by apply Inv_start. revert HI0.
      induction Hsteps as [w|w1 w2 w3 [j Hg] _ IH]; [done|]. intros HI. apply IH; [done|by apply Hg].
    + intros i a Ha. by apply (proc_ok_result _ _ _ _ _ _ _ (Hend _ _ Ha)).
Qed.

Lemma Inv_one_at_a_time fp T s γ k : Inv (V := V) c fp T (s, γ) → one_at_a_time (hist k s).
Proof.
  intros HI. pose proof (proj1 HI k) as Hk. unfold key_ok in Hk. simpl in Hk.
  destruct (records s !! k) as [r|].
  - destruct Hk as (_ & _ & Hrow). destruct (γ !! k) as [i|]; simpl in Hrow.
    + destruct Hrow as (_ & _ & p & Hp). by eapply in_phase_one.
    + destruct Hrow as [[_ Hf]|(_ & i & d & b & (l0 & Hl0 & Hl) & _)].
      * exists (hist k s). by split; [|left].
      * exists l0. split; [done|]. right. exists i. right. by exists d.
  - destruct Hk as [_ ->]. exists []. split; [constructor|by left].
Qed.

(** C5: In any run of requests and cleanups that is over before a record can
    expire, whatever the interleaving, whatever statements fail or lose their
    answer and whatever processes stop, the function of a key runs in one
    request at a time, and it is not run again after it succeeded: the history
    of every key is a sequence of failed executions, followed by at most one
    that is running, was abandoned or succeeded. *)
Theorem executed_once reqs v T0 T sched s ps k :
  Forall (clock_within T0 T) sched → Forall (outlived T0 T) reqs →
  run sched (start v, imap (serve c) reqs) = (s, ps) →
  one_at_a_time (hist k s).
Proof.
  intros Hs Hr Hrun. destruct (run_Inv _ _ _ _ _ _ _ Hs Hr Hrun) as (γ & HI & _).
  by eapply Inv_one_at_a_time.
Qed.

(** C33: In such a run, a request that is answered without an error either ran
    and returned what its function returned, or got the stored form of what
    the function of another request with the same key and the same
    fingerprint (method, route, actor and payload) returned. *)
Theorem answered_by_the_execution reqs v T0 T sched s ps i opts f k r :
  Forall (clock_within T0 T) sched → Forall (outlived T0 T) reqs →
  run sched (start v, imap (serve c) reqs) = (s, ps) →
  reqs !! i = Some (RExecute opts f) → key_of opts = Some k → ps !! i = Some (Ret (Some (Ok r))) →
  if Replayed r
  then ∃ j d b, finished j d (hist k s) ∧ request_fingerprint reqs j = fingerprint_of opts
                ∧ marshalStoredResponse c d = Some b ∧ decodeStoredResponse (Some b) = Some (Data r)
  else finished i (Data r) (hist k s).
Proof.
  intros Hs Hr Hrun Hi Hk Ha. destruct (run_Inv _ _ _ _ _ _ _ Hs Hr Hrun) as (γ & _ & Hdone).
  specialize (Hdone _ _ Ha). unfold request_done in Hdone. rewrite Hi, Hk in Hdone. simpl in Hdone.
  destruct (Replayed r); [|done]. destruct Hdone as (j & d & b & Hf & Hfp & Hrest). exists j, d, b.
  split_and!; [done| |apply Hrest..]. rewrite Hfp. unfold request_fingerprint. by rewrite Hi.
Qed.
End Runs.

(** ** The stored answer *)

Section Stored.
Context `{GoText} `{GoJSON} `{UsageBilling.GoHash}.

(** [encoding/json] prints the value without blanks around it and reads it back. *)
Definition json_ok (v : Json) (raw : string) : Prop :=
  json_Marshal v = Some raw ∧ json_Unmarshal raw = Some v ∧ TrimSpace raw = raw ∧ raw ≠ "".

(** What a replay returns: when the redacted answer is no longer than the
    limit, storing and reading it gives the answer with the values of sensitive
    keys hidden; that is the answer itself when it has no sensitive key (and is
    not nested too deeply). *)
Theorem stored_answer_roundtrip c d raw raw' :
  let d' := redactValueWithDepth (buildKeySet []) maxRedactDepth d in
  json_ok d raw → json_ok d' raw' →
  MaxStoredResponseLen c ≤ 0 ∨ str_len raw' ≤ MaxStoredResponseLen c →
  (∃ b, marshalStoredResponse c d = Some b ∧ decodeStoredResponse (Some b) = Some d')
  ∧ hides_secrets (buildKeySet []) d' = true
  ∧ (no_sensitive_key (buildKeySet []) d = true → (jdepth d ≤ 33)%nat → d' = d).
Proof.
  intros d' (Hm & Hu & Ht & Hne) (Hm' & Hu' & Ht' & Hne') Hlen. split_and!.
  - exists raw'. unfold marshalStoredResponse, decodeStoredResponse. rewrite Hm. unfold RedactText.
    rewrite Ht, Ht', Hu, Hu'. apply String.eqb_neq in Hne as He, Hne' as He'. rewrite He, He'.
    unfold RedactJSON. rewrite He, Hu. fold d'. rewrite Hm'. split; [|done].
    assert ((0 <? MaxStoredResponseLen c) && (MaxStoredResponseLen c <? str_len raw') = false) as ->; [|done].
    apply andb_false_iff. rewrite !Z.ltb_ge. lia.
  - apply redact_hides.
  - intros Hk Hd. apply redact_id; [done|]. unfold maxRedactDepth. lia.
Qed.

Lemma shrink_to_valid_spec n s :
  let m := shrink_to_valid n s in
  (m ≤ n)%nat ∧ ValidString (str_take m s) = true
  ∧ ∀ m', (m < m' ≤ n)%nat → ValidString (str_take m' s) = false.
Proof.
  induction n as [|n IH]; simpl; [split_and!; [lia|by destruct s|lia]|].
  destruct (ValidString (str_take (S n) s)) eqn:Ev; simpl in *; rewrite Ev.
  - split_and!; [lia|done|lia].
  - destruct IH as (Hle & Hv & Hmax). split_and!; [lia|done|]. intros m' Hm'.
    destruct (decide (m' = S n)) as [->|]; [done|]. apply Hmax. lia.
Qed.

(** [truncateUTF8] terminates with a prefix of at most [maxBytes] bytes
    that is valid UTF-8; of a valid string it drops at most three bytes more
    than it has to. *)
Theorem truncateUTF8_bounds s maxBytes :
  0 < maxBytes →
  let t := truncateUTF8 s maxBytes in
  str_len t ≤ maxBytes ∧ (∃ rest, s = t +:+ rest)
  ∧ (ValidString s = true →
     ValidString t = true ∧ (t = s ∨ maxBytes - 3 ≤ str_len t)).
Proof.
  intros Hmax. unfold truncateUTF8, str_len. replace (maxBytes <=? 0) with false by lia. simpl.
  destruct (Z.of_nat (String.length s) <=? maxBytes) eqn:El; simpl.
  - split_and!; [lia| |intros Hv; split; [done|by left]]. exists "". clear.
    induction s as [|a s IH]; [done|]. change (String a s = String a (s +:+ "")). by rewrite <-IH.
  - apply Z.leb_gt in El.
    destruct (shrink_to_valid_spec (Z.to_nat maxBytes) s) as (Hle & Hv & Hbest).
    set (m := shrink_to_valid _ _) in *.
    rewrite str_take_length by lia. split_and!; [lia|exists (str_drop m s); apply str_take_prefix|].
    intros Hs. split; [done|]. right.
    destruct (valid_prefix_near (Z.to_nat maxBytes) s Hs) as (m' & Hm'1 & Hm'2 & Hm'3); [lia|].
    destruct (decide (m < m')%nat) as [Hlt|]; [|lia].
    rewrite (Hbest m') in Hm'3; [done|lia].
Qed.
End Stored.

(** ** Runs on concrete data *)

Module IdemDemo.
#[local] Instance text : GoText := ascii_text.
#[local] Instance hash : UsageBilling.GoHash :=
  {| UsageBilling.sha256_hex := id; UsageBilling.fmt_f10 := λ _, "" |}.
(** A printer and a parser for strings and for objects with one entry. *)
#[local] Instance json : GoJSON :=
  {| json_Marshal v := match v with
                       | JStr s => Some ("s" +:+ s)
                       | JObj [(k, JStr s)] => Some ("{" +:+ k +:+ ":" +:+ s +:+ "}")
                       | _ => None
                       end;
     json_Unmarshal raw := match raw with
                           | String "s" s => Some (JStr s)
                           | String "{" rest =>
                               match Split (TrimSuffix rest "}") ":" with
                               | [k; s] => if HasSuffix rest "}" then Some (JObj [(k, JStr s)]) else None
                               | _ => None
                               end
                           | _ => None
                           end;
     json_int64 := λ _, 0;
     redact_patterns := id |}.

Definition conf : IdempotencyConfig :=
  {| DefaultTTL := 100; SystemOperationTTL := 100; ProcessingTimeout := 10; FailedRetryBackoff := 5;
     MaxStoredResponseLen := 64; ObserveOnly := false |}.
Definition post (key : string) : IdempotencyExecuteOptions :=
  {| Scope := "orders"; ActorScope := "user:1"; Method := "POST"; Route := "/orders";
     IdempotencyKey := key; Payload := JStr "cart"; TTL := 0; RequireKey := true |}.

(** Functions that count how often they ran: one books an order, one fails the
    first time, one always fails, one creates a redeem code, one answers at length. *)
Definition book : proc nat Oracle (res string Json) :=
  act (λ _ n, (Ok (JStr "booked"), S n)).
Definition fail_first : proc nat Oracle (res string Json) :=
  act (λ _ n, (if Nat.eqb n 0 then Err "CARD" else Ok (JStr "booked"), S n)).

Definition slow : proc nat Oracle (res string Json) := act (λ _ n, (Err "TIMEOUT", S n)).
Definition generate : proc nat Oracle (res string Json) :=
  act (λ _ n, (Ok (JObj [("code", JStr "X1")]), S n)).
Definition report : proc nat Oracle (res string Json) :=
  act (λ _ n, (Ok (JObj [("id", JStr (String.concat "" (repeat "0123456789" 7)))]), S n)).

Definition at_ (t : time) : Oracle := {| fate := Fine; o_now := t |}.
Definition steps (i n : nat) (t : time) : list (nat * Oracle) := repeat (i, at_ t) n.
Definition outcome (reqs : list (Request (V := nat))) sched :=
  let w := run sched (start 0%nat, imap (serve conf) reqs) in
  (business (world (fst w)), result <$> snd w).

(** The first request fails, the second runs after the backoff, the third gets
    its answer: the function ran twice. *)
Definition three : list (Request (V := nat)) :=
  [RExecute (post "k") fail_first; RExecute (post "k") fail_first; RExecute (post "k") book].
Definition three_sched : list (nat * Oracle) := steps 0 9 1 ++ steps 1 9 6 ++ steps 2 9 7.
Definition three_end := run three_sched (start 0%nat, imap (serve conf) three).
Example three_outcome :
  outcome three three_sched =
  (2%nat, [Some (Some (Err (ErrExecution "CARD")));
           Some (Some (Ok {| Data := JStr "booked"; Replayed := false |}));
           Some (Some (Ok {| Data := JStr "booked"; Replayed := true |}))]).
Proof. vm_compute. reflexivity. Qed.

Lemma three_clock : Forall (clock_within 1 7) three_sched.
Proof. unfold three_sched, clock_within. simpl. repeat constructor; simpl; lia. Defined.
Lemma three_ttl : Forall (outlived conf 1 7) three.
Proof. repeat constructor. Defined.

Lemma executed_once_witness :
  Forall (clock_within 1 7) three_sched ∧ Forall (outlived conf 1 7) three
  ∧ one_at_a_time (hist ("orders", "k") (fst three_end)).
Proof.
  split; [apply three_clock|]. split; [apply three_ttl|].
  apply (executed_once conf three 0%nat 1 7 three_sched (fst three_end) (snd three_end) ("orders", "k")
           three_clock three_ttl).
  vm_compute. reflexivity.
Defined.

Lemma answered_by_the_execution_witness :
  Forall (clock_within 1 7) three_sched ∧ Forall (outlived conf 1 7) three
  ∧ ∃ j d b, finished j d (hist ("orders", "k") (fst three_end))
             ∧ request_fingerprint three j = fingerprint_of (post "k")
             ∧ marshalStoredResponse conf d = Some b ∧ decodeStoredResponse (Some b) = Some (JStr "booked").
Proof.
  split; [apply three_clock|]. split; [apply three_ttl|].
  apply (answered_by_the_execution conf three 0%nat 1 7 three_sched (fst three_end) (snd three_end) 2
           (post "k") book ("orders", "k") {| Data := JStr "booked"; Replayed := true |}
           three_clock three_ttl);
    vm_compute; reflexivity.
Defined.

Lemma stored_answer_roundtrip_witness :
  let d := JObj [("code", JStr "X1")] in
  let d' := JObj [("code", JStr "***")] in
  ((∃ b, marshalStoredResponse conf d = Some b ∧ decodeStoredResponse (Some b) = Some d')
   ∧ hides_secrets (buildKeySet []) d' = true
   ∧ (no_sensitive_key (buildKeySet []) d = true → (jdepth d ≤ 33)%nat → d' = d)).
Proof.
  apply (stored_answer_roundtrip conf (JObj [("code", JStr "X1")]) "{code:X1}" "{code:***}").
  - repeat split. discriminate.
  - repeat split. discriminate.
  - right. vm_compute. discriminate.
Defined.

Lemma truncateUTF8_bounds_witness :
  0 < 4 ∧ truncateUTF8 (bytes [65; 226; 130; 172; 66]%N) 3 = "A"
  ∧ let s := bytes [65; 226; 130; 172; 66]%N in
    str_len (truncateUTF8 s 4) ≤ 4 ∧ (∃ rest, s = truncateUTF8 s 4 +:+ rest)
    ∧ (ValidString s = true →
       ValidString (truncateUTF8 s 4) = true ∧ (truncateUTF8 s 4 = s ∨ 4 - 3 ≤ str_len (truncateUTF8 s 4))).
Proof.
  split; [lia|]. split; [reflexivity|]. apply (truncateUTF8_bounds (bytes [65; 226; 130; 172; 66]%N) 4). lia.
Defined.

(** The answer to a request that creates redeem codes has them under a
    sensitive key: whoever asks again gets asterisks. *)
Example replay_hides_codes :
  outcome [RExecute (post "k") generate; RExecute (post "k") generate] (steps 0 9 1 ++ steps 1 9 6) =
  (1%nat, [Some (Some (Ok {| Data := JObj [("code", JStr "X1")]; Replayed := false |}));
           Some (Some (Ok {| Data := JObj [("code", JStr "***")]; Replayed := true |}))]).
Proof. vm_compute. reflexivity. Qed.

(** An answer longer than the limit is cut, and what is left cannot be read. *)
Example long_answer_cannot_be_replayed :
  snd (outcome [RExecute (post "k") report; RExecute (post "k") report] (steps 0 9 1 ++ steps 1 9 6))
    !! 1%nat = Some (Some (Some (Err ErrIdempotencyStoreUnavail))).
Proof. vm_compute. reflexivity. Qed.

(** A request that outlives its record still marks the row, by its id alone:
    the failure of the first request replaces the success of the second, and
    the third runs again. *)
Example stale_owner_reopens :
  outcome [RExecute (post "k") slow; RExecute (post "k") book; RExecute (post "k") book]
    (steps 0 3 1 ++ steps 1 9 102 ++ steps 0 5 103 ++ steps 2 9 109) =
  (3%nat, [Some (Some (Err (ErrExecution "TIMEOUT")));
           Some (Some (Ok {| Data := JStr "booked"; Replayed := false |}));
           Some (Some (Ok {| Data := JStr "booked"; Replayed := false |}))]).
Proof. vm_compute. reflexivity. Qed.

(** One system operation: it takes the lock, renews it [ticks] times and
    releases it. *)
Definition operation (opID : string) (ticks : nat) : proc (IdemState unit) Oracle (res LockError unit) :=
  l <-p Acquire conf opID;
  match l with
  | Err e => Ret (Err e)
  | Ok lock => _ <-p renewLoop conf ticks lock; _ <-p Release conf lock true ""; Ret (Ok ())
  end.
Definition take_lock (opID : string) : proc (IdemState unit) Oracle (res LockError unit) :=
  l <-p Acquire conf opID; Ret (match l with Ok _ => Ok () | Err e => Err e end).
Definition lock_sched : list (nat * Oracle) :=
  steps 0 6 1 ++ steps 1 4 2 ++ steps 1 2 5 ++ steps 2 4 13.

(** A lock that is taken over keeps the fingerprint of its first holder, so
    the first renewal of the second holder finds no row and stops; ten seconds
    later a third operation takes the lock while the second still runs. *)
Example reclaimed_lock_is_not_renewed :
  let w := run lock_sched ({| records := ∅; next_record := 1; world := () |},
                           [operation "a" 0; operation "b" 3; take_lock "c"]) in
  result <$> snd w = [Some (Ok ()); None; Some (Ok ())].
Proof. vm_compute. reflexivity. Qed.
End IdemDemo.
