(* ===== verification/PaymentOrder.v ===== *)
(** * Payment orders and what a payment notification must match

    The rows of [payment_orders], [payment_provider_instances] and
    [redeem_codes] the payment code reads, currencies
    ([src/backend/internal/payment/currency.go]), the provider snapshot of an
    order ([payment_order_provider_snapshot.go]) and the checks
    [confirmPayment] makes before an order is marked paid
    ([payment_fulfillment.go], [payment_refund.go]). *)

From Stdlib Require Import ZArith Lia QArith Ascii String Bool.
From stdpp Require Import base numbers option list gmap strings.
From S2P Require Import Prelude GoStrings GoFloat UsageDB.

#[local] Open Scope Z_scope.

(** ** Constants *)

Definition TypeAlipay : string := "alipay".
Definition TypeWxpay : string := "wxpay".
Definition TypeAlipayDirect : string := "alipay_direct".
Definition TypeWxpayDirect : string := "wxpay_direct".
Definition TypeStripe : string := "stripe".
Definition TypeCard : string := "card".
Definition TypeLink : string := "link".
Definition TypeEasyPay : string := "easypay".
Definition TypeAirwallex : string := "airwallex".

Definition OrderTypeBalance : string := "balance".
Definition OrderTypeSubscription : string := "subscription".

(** The statuses; the columns hold their Go names. *)
Inductive OrderStatus :=
| Pending | Paid | Recharging | Completed | Expired | Cancelled | Failed
| RefundRequested | Refunding | RefundPending | PartiallyRefunded | Refunded | RefundFailed.
#[global] Instance OrderStatus_eq_dec : EqDecision OrderStatus.
Proof. solve_decision. Defined.

Definition psIsRefundStatus (s : OrderStatus) : bool :=
  match s with
  | RefundRequested | Refunding | RefundPending | PartiallyRefunded | Refunded | RefundFailed => true
  | _ => false
  end.

(** ** Rows *)

(** A value of the [provider_snapshot] JSON object; numbers decode to
    [float64]. *)
Inductive JVal := JStr (s : string) | JNum (x : f64) | JOther.

(** Amounts are [decimal(20,2)] columns: integers of 1e-2. *)
Definition scale2 : positive := 100.

Record Order := {
  o_user : Z;
  o_amount : Z;
  o_pay_amount : Z;
  o_recharge_code : string;
  o_out_trade_no : string;
  o_payment_type : string;
  o_trade_no : string;
  o_order_type : string;
  o_sub_group : option Z;
  o_sub_days : option Z;
  o_provider_instance_id : option string;
  o_provider_key : option string;
  o_snapshot : gmap string JVal;
  o_status : OrderStatus;
  o_paid_at : option time;
  o_completed_at : option time;
  o_failed_at : option time;
  o_failed_reason : option string;
  o_updated_at : time;
}.

Record ProviderInstance := {
  pi_ProviderKey : string;
  pi_SupportedTypes : string;
  pi_RefundEnabled : bool;
  pi_AllowUserRefund : bool;
}.

(** ** Currencies *)

Definition DefaultPaymentCurrency : string := "CNY".

(** [NormalizePaymentCurrency]; [None] for an error. *)
Definition NormalizePaymentCurrency `{GoText} (raw : string) : option string :=
  let currency := ToUpper (TrimSpace raw) in
  if String.eqb currency "" then Some DefaultPaymentCurrency
  else if negb (str_len currency =? 3) then None
  else if str_forallb (λ c, (65 <=? byte_of c) && (byte_of c <=? 90)) currency then Some currency
  else None.

(** [paymentCurrencyAmountUnits]: the minor unit of the provider API and the
    digits shown. *)
Definition paymentCurrencyAmountUnits : list (string * (Z * Z)) :=
  map (λ c, (c, (0, 0)))
    ["BIF"; "CLP"; "DJF"; "GNF"; "JPY"; "KMF"; "KRW"; "MGA"; "PYG"; "RWF"; "VND"; "VUV"; "XAF";
     "XOF"; "XPF"]
  ++ map (λ c, (c, (2, 0))) ["ISK"; "UGX"]
  ++ map (λ c, (c, (3, 3))) ["BHD"; "IQD"; "JOD"; "KWD"; "LYD"; "OMR"; "TND"].

Definition paymentCurrencyAmountUnitFor `{GoText} (currency : string) : Z * Z :=
  match NormalizePaymentCurrency currency with
  | None => (2, 2)
  | Some c => match List.find (λ e, String.eqb (fst e) c) paymentCurrencyAmountUnits with
              | Some e => snd e
              | None => (2, 2)
              end
  end.
Definition CurrencyMinorUnit `{GoText} (currency : string) : Z :=
  fst (paymentCurrencyAmountUnitFor currency).
Definition CurrencyMaxFractionDigits `{GoText} (currency : string) : Z :=
  snd (paymentCurrencyAmountUnitFor currency).

Definition amountToleranceCNY : f64 := f_dec 1 2.

Definition paymentAmountToleranceForCurrency `{GoText} (currency : string) : f64 :=
  let minorUnit := CurrencyMinorUnit currency in
  if minorUnit <=? 2 then amountToleranceCNY else fdiv (f_dec 1 minorUnit) (f_of_int 2).

Definition isValidProviderAmount (amount : f64) : bool :=
  (f0 <ᶠ amount) && negb (f_is_nan amount) && negb (f_is_inf amount).

(** ** The provider snapshot of an order *)

Record ProviderSnapshot := {
  SchemaVersion : Z;
  ProviderInstanceID : string;
  snap_ProviderKey : string;
  PaymentMode : string;
  MerchantAppID : string;
  MerchantID : string;
  snap_Currency : string;
}.

Definition psSnapshotStringValue (v : option JVal) : string :=
  match v with Some (JStr s) => TrimSpace s | _ => "" end.

(** [int(typed)] of a [float64]: truncation; what does not fit is the smallest
    integer, as on amd64. *)
Definition f_to_int (x : f64) : Z :=
  match x with
  | SpecFloat.S754_zero _ => 0
  | SpecFloat.S754_finite s m e =>
      let a := if 0 <=? e then Z.pos m * 2 ^ e else Z.pos m / 2 ^ (- e) in
      let z := if s then - a else a in
      if (min_int64 <=? z) && (z <=? max_int64) then z else min_int64
  | _ => min_int64
  end.

Definition psSnapshotIntValue (v : option JVal) : Z :=
  match v with
  | Some (JNum x) => f_to_int x
  | Some (JStr s) => default 0 (Atoi (TrimSpace s))
  | _ => 0
  end.

Definition psOrderProviderSnapshot (o : Order) : option ProviderSnapshot :=
  if bool_decide (o_snapshot o = ∅) then None
  else
    let snap := {| SchemaVersion := psSnapshotIntValue (o_snapshot o !! "schema_version");
                   ProviderInstanceID := psSnapshotStringValue (o_snapshot o !! "provider_instance_id");
                   snap_ProviderKey := psSnapshotStringValue (o_snapshot o !! "provider_key");
                   PaymentMode := psSnapshotStringValue (o_snapshot o !! "payment_mode");
                   MerchantAppID := psSnapshotStringValue (o_snapshot o !! "merchant_app_id");
                   MerchantID := psSnapshotStringValue (o_snapshot o !! "merchant_id");
                   snap_Currency := psSnapshotStringValue (o_snapshot o !! "currency") |} in
    if (SchemaVersion snap =? 0) && String.eqb (ProviderInstanceID snap) ""
       && String.eqb (snap_ProviderKey snap) "" && String.eqb (PaymentMode snap) ""
       && String.eqb (MerchantAppID snap) "" && String.eqb (MerchantID snap) ""
       && String.eqb (snap_Currency snap) ""
    then None else Some snap.

Definition PaymentOrderCurrency `{GoText} (o : Order) : string :=
  match psOrderProviderSnapshot o with
  | Some snap => default DefaultPaymentCurrency (NormalizePaymentCurrency (snap_Currency snap))
  | None => DefaultPaymentCurrency
  end.

Definition psStringValue (v : option string) : string := default "" v.

(** [expectedNotificationProviderKey] on a non-nil registry. *)
Definition expectedNotificationProviderKey (registry : string → string)
    (orderPaymentType orderProviderKey instanceProviderKey : string) : string :=
  if negb (String.eqb (TrimSpace instanceProviderKey) "") then TrimSpace instanceProviderKey
  else if negb (String.eqb (TrimSpace orderProviderKey) "") then TrimSpace orderProviderKey
  else if negb (String.eqb (TrimSpace (registry orderPaymentType)) "")
  then TrimSpace (registry orderPaymentType)
  else TrimSpace orderPaymentType.

Definition expectedNotificationProviderKeyForOrder (registry : string → string) (o : Order)
    (instanceProviderKey : string) : string :=
  let orderProviderKey :=
    match psOrderProviderSnapshot o with
    | Some snap => if String.eqb (snap_ProviderKey snap) "" then psStringValue (o_provider_key o)
                   else snap_ProviderKey snap
    | None => psStringValue (o_provider_key o)
    end in
  expectedNotificationProviderKey registry (o_payment_type o) orderProviderKey instanceProviderKey.

(** ** Notification metadata *)

Inductive MetadataError := MetadataMissing (field : string) | MetadataMismatch (field : string).

(** A field the snapshot pins must be present and equal up to case. *)
Definition require_field `{GoText} (field expected actual : string) : res MetadataError unit :=
  if String.eqb expected "" then Ok ()
  else if String.eqb actual "" then Err (MetadataMissing field)
  else if negb (EqualFold expected actual) then Err (MetadataMismatch field)
  else Ok ().
(** A status the provider reports must be its word for success. *)
Definition status_field `{GoText} (field actual success : string) : res MetadataError unit :=
  if negb (String.eqb actual "") && negb (EqualFold actual success)
  then Err (MetadataMismatch field) else Ok ().

Definition validateProviderSnapshotMetadata `{GoText} (o : Order) (providerKey : string)
    (metadata : gmap string string) : res MetadataError unit :=
  if bool_decide (metadata = ∅) then Ok ()
  else
    match psOrderProviderSnapshot o with
    | None => Ok ()
    | Some snap =>
        let get k := TrimSpace (default "" (metadata !! k)) in
        let key := TrimSpace providerKey in
        let appID := TrimSpace (MerchantAppID snap) in
        let merchant := TrimSpace (MerchantID snap) in
        let currency := TrimSpace (snap_Currency snap) in
        if String.eqb key TypeWxpay then
          _ <-? require_field "appid" appID (get "appid");
          _ <-? require_field "mchid" merchant (get "mchid");
          _ <-? require_field "currency" currency (ToUpper (get "currency"));
          status_field "trade_state" (get "trade_state") "SUCCESS"
        else if String.eqb key TypeAlipay then require_field "app_id" appID (get "app_id")
        else if String.eqb key TypeEasyPay then require_field "pid" merchant (get "pid")
        else if String.eqb key TypeStripe then
          require_field "currency" currency (ToUpper (get "currency"))
        else if String.eqb key TypeAirwallex then
          _ <-? require_field "account_id" merchant (get "account_id");
          _ <-? require_field "currency" currency (ToUpper (get "currency"));
          status_field "status" (get "status") "SUCCEEDED"
        else Ok ()
    end.

(** ** The provider instance of an order *)

Definition GetBasePaymentType (t : string) : string :=
  if String.eqb t TypeEasyPay then TypeEasyPay
  else if String.eqb t TypeAirwallex then TypeAirwallex
  else if String.eqb t TypeStripe || String.eqb t TypeCard || String.eqb t TypeLink then TypeStripe
  else if HasPrefix t TypeAlipay then TypeAlipay
  else if HasPrefix t TypeWxpay then TypeWxpay
  else t.

Definition normalizeVisibleMethodSupportType (paymentType : string) : string :=
  let t := TrimSpace paymentType in
  if String.eqb t TypeAlipay || String.eqb t TypeAlipayDirect then TypeAlipay
  else if String.eqb t TypeWxpay || String.eqb t TypeWxpayDirect then TypeWxpay
  else t.

Definition InstanceSupportsType (supportedTypes target : string) : bool :=
  String.eqb supportedTypes ""
  || existsb (λ t, String.eqb (TrimSpace t) target
                   || String.eqb (normalizeVisibleMethodSupportType (TrimSpace t))
                        (normalizeVisibleMethodSupportType target))
       (Split supportedTypes ","%char).

Definition psLegacyOrderMatchesInstance (orderPaymentType : string) (inst : ProviderInstance) : bool :=
  let baseType := GetBasePaymentType (TrimSpace orderPaymentType) in
  let key := TrimSpace (pi_ProviderKey inst) in
  if String.eqb baseType "" then false
  else if String.eqb baseType TypeStripe then String.eqb key TypeStripe
  else if String.eqb key TypeStripe then false
  else if String.eqb key baseType then true
  else InstanceSupportsType (pi_SupportedTypes inst) baseType.

Definition psFilterLegacyOrderProviderInstances (orderPaymentType : string)
    (instances : list ProviderInstance) : list ProviderInstance :=
  if String.eqb (TrimSpace orderPaymentType) "" then instances
  else List.filter (psLegacyOrderMatchesInstance orderPaymentType) instances.

(** [resolveUniqueLegacyOrderProviderInstance] on the instances its query
    returns. *)
Definition resolveUniqueLegacyOrderProviderInstance (o : Order) (instances : list ProviderInstance)
  : option ProviderInstance :=
  let paymentType := GetBasePaymentType (TrimSpace (o_payment_type o)) in
  let providerKey := TrimSpace (psStringValue (o_provider_key o)) in
  let unique l := match psFilterLegacyOrderProviderInstances paymentType l with
                  | [inst] => Some inst
                  | _ => None
                  end in
  if negb (String.eqb providerKey "")
  then unique (List.filter (λ i, String.eqb (pi_ProviderKey i) providerKey) instances)
  else if String.eqb paymentType "" then None
  else unique instances.

(** [resolveSnapshotOrderProviderInstance]: [None] for every error. *)
Definition resolveSnapshotOrderProviderInstance `{GoText} (instances : gmap Z ProviderInstance)
    (o : Order) (snap : ProviderSnapshot) : option ProviderInstance :=
  let columnID := TrimSpace (psStringValue (o_provider_instance_id o)) in
  let instanceID := if String.eqb (TrimSpace (ProviderInstanceID snap)) "" then columnID
                    else TrimSpace (ProviderInstanceID snap) in
  if String.eqb instanceID "" then None
  else if negb (String.eqb columnID "") && negb (String.eqb (ProviderInstanceID snap) "")
          && negb (EqualFold columnID (ProviderInstanceID snap)) then None
  else
    instID ← Atoi instanceID;
    inst ← instances !! instID;
    if negb (String.eqb (snap_ProviderKey snap) "")
       && negb (EqualFold (TrimSpace (pi_ProviderKey inst)) (snap_ProviderKey snap)) then None
    else Some inst.

(** [getOrderProviderInstance]; its caller treats an error like [nil]. *)
Definition getOrderProviderInstance `{GoText} (instances : gmap Z ProviderInstance) (o : Order)
  : option ProviderInstance :=
  match psOrderProviderSnapshot o with
  | Some snap => resolveSnapshotOrderProviderInstance instances o snap
  | None =>
      let id := TrimSpace (psStringValue (o_provider_instance_id o)) in
      if String.eqb id "" then
        resolveUniqueLegacyOrderProviderInstance o (map snd (map_to_list instances))
      else instID ← Atoi id; instances !! instID
  end.

(** ** The checks of [confirmPayment] *)

Inductive PayError :=
| ProviderMismatch
| MetadataRejected (e : MetadataError)
| InvalidPaidAmount
| AmountMismatch.

(** The audit action written for a rejection. *)
Definition rejection_audit (e : PayError) : string :=
  match e with
  | ProviderMismatch => "PAYMENT_PROVIDER_MISMATCH"
  | MetadataRejected _ => "PAYMENT_PROVIDER_METADATA_MISMATCH"
  | InvalidPaidAmount => "PAYMENT_INVALID_AMOUNT"
  | AmountMismatch => "PAYMENT_AMOUNT_MISMATCH"
  end.

Definition check_notification `{GoText} `{PgFloat} (registry : string → string)
    (inst : option ProviderInstance) (o : Order) (paid : f64) (pk : string)
    (metadata : gmap string string) : res PayError unit :=
  let instanceProviderKey := match inst with Some i => pi_ProviderKey i | None => "" end in
  let expected := expectedNotificationProviderKeyForOrder registry o instanceProviderKey in
  if negb (String.eqb expected "") && negb (String.eqb (TrimSpace pk) "")
     && negb (EqualFold expected (TrimSpace pk)) then Err ProviderMismatch
  else
    match validateProviderSnapshotMetadata o pk metadata with
    | Err e => Err (MetadataRejected e)
    | Ok _ =>
        if negb (isValidProviderAmount paid) then Err InvalidPaidAmount
        else if paymentAmountToleranceForCurrency (PaymentOrderCurrency o)
                <ᶠ fabs (paid -ᶠ scan (dec scale2 (o_pay_amount o)))
        then Err AmountMismatch
        else Ok ()
    end.
