(* ===== verification/Fulfillment.v ===== *)
(** * Payment notifications and the fulfillment of orders

    [src/backend/internal/service/payment_fulfillment.go], the part of
    [redeem_service.go] that redeems a code, and [assignOrExtendSubscription]
    of [subscription_service.go], as processes on the shared tables: every
    query, every update and every read of the clock is one action, and other
    processes run in between.  A transaction that reads before it writes reads
    in actions of its own and takes effect in one action when it commits, as
    under READ COMMITTED isolation. *)

From Stdlib Require Import ZArith Lia QArith Ascii String Bool.
From stdpp Require Import base numbers option list gmap strings pretty relations.
From S2P Require Import Prelude GoStrings GoFloat UsageDB PaymentOrder Proc.

#[local] Open Scope Z_scope.

(** ** The tables *)

Definition StatusUnused : string := "unused".
Definition StatusUsed : string := "used".
Definition StatusExpired : string := "expired".
Definition RedeemTypeBalance : string := "balance".
Definition RedeemTypeConcurrency : string := "concurrency".
Definition RedeemTypeSubscription : string := "subscription".
Definition SubscriptionStatusActive : string := "active".
Definition SubscriptionStatusExpired : string := "expired".
Definition EntityStatusActive : string := "active".

Record RedeemCode := {
  rc_ID : Z;
  rc_Type : string;
  rc_Value : Z;                    (* decimal(20,8) *)
  rc_Status : string;
  rc_UsedBy : option Z;
  rc_UsedAt : option time;
  rc_ExpiresAt : option time;
  rc_GroupID : option Z;
  rc_ValidityDays : Z;
}.

Record PayUser := {
  pu_balance : Z;                  (* decimal(20,8) *)
  pu_recharged : Z;                (* decimal(20,8) *)
  pu_concurrency : Z;
  pu_deleted : bool;
}.

Record Subscription := {
  sub_ID : Z;
  sub_StartsAt : time;
  sub_ExpiresAt : time;
  sub_Status : string;
  sub_DailyWindowStart : option time;
  sub_WeeklyWindowStart : option time;
  sub_MonthlyWindowStart : option time;
  sub_DailyUsage : Z;
  sub_WeeklyUsage : Z;
  sub_MonthlyUsage : Z;
  sub_Notes : string;
}.

Record PayGroup := {
  g_status : string;
  g_subscription_type : bool;
}.

(** Codes are keyed by their unique column, live subscriptions by user and
    group, the audit log by its unique index [(order_id, action)].  [rebates]
    is the ledger of affiliate rebates: invitee, amount, source order. *)
Record PayDB := {
  orders : gmap Z Order;
  instances : gmap Z ProviderInstance;
  codes : gmap string RedeemCode;
  pusers : gmap Z PayUser;
  pgroups : gmap Z PayGroup;
  subs : gmap (Z * Z) Subscription;
  audit : gset (Z * string);
  rebates : list (Z * f64 * option Z);
  attempts : gmap Z Z;             (* Redis: failed redeem attempts *)
  locks : gmap string time;        (* Redis: redeem locks and their expiry *)
  next_id : Z;                     (* the sequences of new rows *)
}.

Definition set_orders (f : gmap Z Order → gmap Z Order) (d : PayDB) : PayDB :=
  {| orders := f (orders d); instances := instances d; codes := codes d; pusers := pusers d;
     pgroups := pgroups d; subs := subs d; audit := audit d; rebates := rebates d;
     attempts := attempts d; locks := locks d; next_id := next_id d |}.
Definition set_codes (f : gmap string RedeemCode → gmap string RedeemCode) (d : PayDB) : PayDB :=
  {| orders := orders d; instances := instances d; codes := f (codes d); pusers := pusers d;
     pgroups := pgroups d; subs := subs d; audit := audit d; rebates := rebates d;
     attempts := attempts d; locks := locks d; next_id := next_id d + 1 |}.
Definition set_pusers (f : gmap Z PayUser → gmap Z PayUser) (d : PayDB) : PayDB :=
  {| orders := orders d; instances := instances d; codes := codes d; pusers := f (pusers d);
     pgroups := pgroups d; subs := subs d; audit := audit d; rebates := rebates d;
     attempts := attempts d; locks := locks d; next_id := next_id d |}.
Definition set_subs (f : gmap (Z * Z) Subscription → gmap (Z * Z) Subscription) (d : PayDB) : PayDB :=
  {| orders := orders d; instances := instances d; codes := codes d; pusers := pusers d;
     pgroups := pgroups d; subs := f (subs d); audit := audit d; rebates := rebates d;
     attempts := attempts d; locks := locks d; next_id := next_id d + 1 |}.
Definition set_audit (f : gset (Z * string) → gset (Z * string)) (d : PayDB) : PayDB :=
  {| orders := orders d; instances := instances d; codes := codes d; pusers := pusers d;
     pgroups := pgroups d; subs := subs d; audit := f (audit d); rebates := rebates d;
     attempts := attempts d; locks := locks d; next_id := next_id d |}.
Definition add_rebate (r : Z * f64 * option Z) (d : PayDB) : PayDB :=
  {| orders := orders d; instances := instances d; codes := codes d; pusers := pusers d;
     pgroups := pgroups d; subs := subs d; audit := audit d; rebates := rebates d ++ [r];
     attempts := attempts d; locks := locks d; next_id := next_id d |}.
Definition set_redis (f : gmap Z Z → gmap Z Z) (g : gmap string time → gmap string time) (d : PayDB)
  : PayDB :=
  {| orders := orders d; instances := instances d; codes := codes d; pusers := pusers d;
     pgroups := pgroups d; subs := subs d; audit := audit d; rebates := rebates d;
     attempts := f (attempts d); locks := g (locks d); next_id := next_id d |}.

(** ** Actions *)

Inductive FErr :=
| EDB
| EOrderNotFound
| EInvalidStatus
| EConflict
| ERejected (e : PayError)
| ECode
| ERateLimited
| ELocked
| ECodeNotFound
| ECodeExpired
| ECodeUsed
| EUnsupported
| EUser
| EGroup
| ESubscription
| EAffiliate
| ECache.

Abbreviation pay A := (proc PayDB Oracle A).

Definition query {B} (f : PayDB → B) : pay (option B) :=
  act (λ o d, match fate o with Fine => (Some (f d), d) | _ => (None, d) end).
Definition clock : pay time := act (λ o d, (o_now o, d)).

(** A statement, or a transaction when it commits. *)
Definition commit {A} (f : time → PayDB → res FErr (A * PayDB)) : pay (res FErr A) :=
  act (λ o d, match fate o, f (o_now o) d with
              | Fail, _ => (Err EDB, d)
              | _, Err e => (Err e, d)
              | Fine, Ok (a, d') => (Ok a, d')
              | Lost, Ok (_, d') => (Err EDB, d')
              end).

(** [writeAuditLog]: a failure is only logged. *)
Definition writeAuditLog (oid : Z) (action : string) : pay unit :=
  _ <-p commit (λ _ d, if decide ((oid, action) ∈ audit d) then Err EDB
                       else Ok ((), set_audit (λ a, {[(oid, action)]} ∪ a) d));
  Ret ().

(** The affiliate service, as the payment code sees it: the rebate it accrues
    for a recharge, given the ledger so far; zero for none. *)
Class Affiliate := {
  affiliate_enabled : bool;
  accrue : time → Z → f64 → list (Z * f64 * option Z) → res FErr f64;
}.

Section Fulfillment.
Context `{GoText} `{PgFloat} `{Affiliate}.
(** The payment types of the provider registry. *)
Context (registry : string → string).

(** ** Redeeming a code *)

Definition redeemMaxErrorsPerHour : Z := 20.
Definition redeemLockDuration : duration := 10 * Second.

Definition IsExpiredAt (now : time) (r : RedeemCode) : bool :=
  if String.eqb (rc_Status r) StatusExpired then true
  else String.eqb (rc_Status r) StatusUnused
       && match rc_ExpiresAt r with Some e => negb (time_After e now) | None => false end.
Definition IsUsed (r : RedeemCode) : bool := String.eqb (rc_Status r) StatusUsed.
Definition CanUse (now : time) (r : RedeemCode) : bool :=
  String.eqb (rc_Status r) StatusUnused && negb (IsExpiredAt now r).

Definition checkRedeemRateLimit (uid : Z) : pay bool :=
  r <-p query (λ d, default 0 (attempts d !! uid));
  Ret (match r with Some n => n <? redeemMaxErrorsPerHour | None => true end).
Definition incrementRedeemErrorCount (uid : Z) : pay unit :=
  _ <-p commit (λ _ d, Ok ((), set_redis (λ m, <[uid := default 0 (m !! uid) + 1]> m) id d));
  Ret ().
(** [SETNX] with a time to live; when Redis fails, the lock is taken to be
    held. *)
Definition acquireRedeemLock (code : string) : pay bool :=
  r <-p commit (λ now d,
    if match locks d !! code with Some e => now <? e | None => false end then Ok (false, d)
    else Ok (true, set_redis id <[code := time_Add now redeemLockDuration]> d));
  Ret (match r with Ok b => b | Err _ => true end).
Definition releaseRedeemLock (code : string) : pay unit :=
  _ <-p commit (λ _ d, Ok ((), set_redis id (delete code) d)); Ret ().

(** [redeemRepo.Use]: [UPDATE ... WHERE id = $1 AND status = 'unused']. *)
Definition mark_used (code : string) (id uid : Z) (now : time) (d : PayDB) : res FErr PayDB :=
  match codes d !! code with
  | Some r =>
      if (rc_ID r =? id) && String.eqb (rc_Status r) StatusUnused then
        Ok (set_codes <[code := {| rc_ID := rc_ID r; rc_Type := rc_Type r; rc_Value := rc_Value r;
                                   rc_Status := StatusUsed; rc_UsedBy := Some uid;
                                   rc_UsedAt := Some now; rc_ExpiresAt := rc_ExpiresAt r;
                                   rc_GroupID := rc_GroupID r;
                                   rc_ValidityDays := rc_ValidityDays r |}]> d)
      else Err ECodeUsed
  | None => Err ECodeUsed
  end.

(** [UpdateBalance] for an amount that is not negative,
    [ApplyRedeemBalanceAdjustment] for a negative one. *)
Definition credit_balance (amount : f64) (u : PayUser) : option PayUser :=
  if amount <ᶠ f0 then
    if pu_deleted u then None
    else
      b ← store scale8 (let q := (dec scale8 (pu_balance u) + num amount)%Q in
                        if Qltb q 0 then 0%Q else q);
      Some {| pu_balance := b; pu_recharged := pu_recharged u;
              pu_concurrency := pu_concurrency u; pu_deleted := pu_deleted u |}
  else
    b ← store scale8 (dec scale8 (pu_balance u) + num amount)%Q;
    t ← (if f0 <ᶠ amount then store scale8 (dec scale8 (pu_recharged u) + num amount)%Q
         else Some (pu_recharged u));
    Some {| pu_balance := b; pu_recharged := t; pu_concurrency := pu_concurrency u;
            pu_deleted := pu_deleted u |}.

(** [UpdateConcurrency] and [ApplyRedeemConcurrencyAdjustment] *)
Definition credit_concurrency (delta : Z) (u : PayUser) : option PayUser :=
  if delta <? 0 then
    if pu_deleted u then None
    else Some {| pu_balance := pu_balance u; pu_recharged := pu_recharged u;
                 pu_concurrency := Z.max (pu_concurrency u + delta) 0;
                 pu_deleted := pu_deleted u |}
  else Some {| pu_balance := pu_balance u; pu_recharged := pu_recharged u;
               pu_concurrency := pu_concurrency u + delta; pu_deleted := pu_deleted u |}.

(** The value of a code as the code reads it. *)
Definition code_value (r : RedeemCode) : f64 := scan (dec scale8 (rc_Value r)).

(** What a code does to the user that redeems it. *)
Definition code_effect (r : RedeemCode) (u : PayUser) : option PayUser :=
  if String.eqb (rc_Type r) RedeemTypeBalance then credit_balance (code_value r) u
  else credit_concurrency (f_to_int (code_value r)) u.

Definition update_puser (uid : Z) (f : PayUser → option PayUser) (d : PayDB) : res FErr PayDB :=
  match pusers d !! uid with
  | Some u => match f u with Some u' => Ok (set_pusers <[uid := u']> d) | None => Err EUser end
  | None => Err EUser
  end.

(** ** Subscriptions *)

(** 2099-12-31T23:59:59Z *)
Definition MaxExpiresAt : time := (62135596800 + 4102444799) * Second.
Definition MaxValidityDays : Z := 36500.

Definition clamp_validity (days : Z) : Z :=
  let days := if days <=? 0 then 30 else days in
  if MaxValidityDays <? days then MaxValidityDays else days.
Definition cap_expiry (t : time) : time := if time_After t MaxExpiresAt then MaxExpiresAt else t.

Definition appendSubscriptionNotes (existingNotes newNotes : string) : string :=
  if String.eqb newNotes "" then existingNotes
  else if String.eqb existingNotes "" then newNotes
  else existingNotes +:+ (String (ascii_of_N 10) "" +:+ newNotes).

(** What a transaction writes to the subscription of a user and group. *)
Inductive SubChange :=
| SubCreate (startsAt expiresAt : time) (notes : string)
| SubRenew (old : Subscription) (startsAt expiresAt : time) (notes : string)
| SubTerm (id : Z) (expiresAt : time) (status : option string) (notes : option string).

Definition renewedSubscriptionTerm (s : Subscription) (notes : string) (startsAt expiresAt : time)
  : Subscription :=
  {| sub_ID := sub_ID s; sub_StartsAt := startsAt; sub_ExpiresAt := expiresAt;
     sub_Status := SubscriptionStatusActive; sub_DailyWindowStart := Some startsAt;
     sub_WeeklyWindowStart := Some startsAt; sub_MonthlyWindowStart := Some startsAt;
     sub_DailyUsage := 0; sub_WeeklyUsage := 0; sub_MonthlyUsage := 0;
     sub_Notes := appendSubscriptionNotes (sub_Notes s) notes |}.

(** The decision of [assignOrExtendSubscription] on the subscription it has
    read ([None] also when the read failed). *)
Definition assign_change (now : time) (existing : option Subscription) (days : Z) (notes : string)
  : SubChange :=
  let days := clamp_validity days in
  match existing with
  | Some s =>
      let isExpired := negb (time_After (sub_ExpiresAt s) now) in
      let newExpiresAt := cap_expiry (AddDays (if isExpired then now else sub_ExpiresAt s) days) in
      if isExpired then SubRenew s now newExpiresAt notes
      else SubTerm (sub_ID s) newExpiresAt
             (if String.eqb (sub_Status s) SubscriptionStatusActive then None
              else Some SubscriptionStatusActive)
             (if String.eqb notes "" then None
              else Some (appendSubscriptionNotes (sub_Notes s) notes))
  | None => SubCreate now (cap_expiry (AddDays now days)) notes
  end.

(** The decision of [reduceOrCancelSubscription]: [int(Hours() / 24)] is the
    number of whole days left. *)
Definition reduce_change (now : time) (s : Subscription) (reduceDays : Z) (code : string) : SubChange :=
  let remaining := Z.max 0 (Z.quot (time_Sub (sub_ExpiresAt s) now) Day) in
  let notes := (if String.eqb (sub_Notes s) "" then "" else sub_Notes s +:+ String (ascii_of_N 10) "")
               +:+ "通过兑换码 " +:+ code +:+ " 退款扣减 " +:+ pretty reduceDays +:+ " 天" in
  if remaining <=? reduceDays
  then SubTerm (sub_ID s) now (Some SubscriptionStatusExpired) (Some notes)
  else SubTerm (sub_ID s) (AddDays (sub_ExpiresAt s) (- reduceDays)) None (Some notes).

(** The statements of a change; a row that is gone, and a row that appeared
    where one is created, are errors. *)
Definition apply_change (uid gid : Z) (ch : SubChange) (d : PayDB) : res FErr PayDB :=
  match ch, subs d !! (uid, gid) with
  | SubCreate startsAt expiresAt notes, None =>
      Ok (set_subs <[(uid, gid) :=
            {| sub_ID := next_id d; sub_StartsAt := startsAt; sub_ExpiresAt := expiresAt;
               sub_Status := SubscriptionStatusActive; sub_DailyWindowStart := None;
               sub_WeeklyWindowStart := None; sub_MonthlyWindowStart := None;
               sub_DailyUsage := 0; sub_WeeklyUsage := 0; sub_MonthlyUsage := 0;
               sub_Notes := notes |}]> d)
  | SubRenew old startsAt expiresAt notes, Some s =>
      if sub_ID s =? sub_ID old
      then Ok (set_subs <[(uid, gid) := renewedSubscriptionTerm old notes startsAt expiresAt]> d)
      else Err ESubscription
  | SubTerm id expiresAt status notes, Some s =>
      if sub_ID s =? id
      then Ok (set_subs <[(uid, gid) :=
                 {| sub_ID := sub_ID s; sub_StartsAt := sub_StartsAt s; sub_ExpiresAt := expiresAt;
                    sub_Status := default (sub_Status s) status;
                    sub_DailyWindowStart := sub_DailyWindowStart s;
                    sub_WeeklyWindowStart := sub_WeeklyWindowStart s;
                    sub_MonthlyWindowStart := sub_MonthlyWindowStart s;
                    sub_DailyUsage := sub_DailyUsage s; sub_WeeklyUsage := sub_WeeklyUsage s;
                    sub_MonthlyUsage := sub_MonthlyUsage s;
                    sub_Notes := default (sub_Notes s) notes |}]> d)
      else Err ESubscription
  | _, _ => Err ESubscription
  end.

(** The reads of [assignOrExtendSubscription] up to its decision. *)
Definition assignOrExtendSubscription (uid gid days : Z) (notes : string) : pay (res FErr SubChange) :=
  g <-p query (λ d, pgroups d !! gid);
  match g with
  | None | Some None => Ret (Err EGroup)
  | Some (Some g) =>
      if negb (g_subscription_type g) then Ret (Err EGroup)
      else
        existing <-p query (λ d, subs d !! (uid, gid));
        now <-p clock;
        Ret (Ok (assign_change now (default None existing) days notes))
  end.

Definition reduceOrCancelSubscription (uid gid reduceDays : Z) (code : string)
  : pay (res FErr SubChange) :=
  existing <-p query (λ d, subs d !! (uid, gid));
  match existing with
  | Some (Some s) => now <-p clock; Ret (Ok (reduce_change now s reduceDays code))
  | _ => Ret (Err ESubscription)
  end.

(** The reads of the transaction of [Redeem] for a subscription code. *)
Definition redeem_subscription (uid gid : Z) (r : RedeemCode) (code : string)
  : pay (res FErr SubChange) :=
  if rc_ValidityDays r <? 0
  then reduceOrCancelSubscription uid gid (- rc_ValidityDays r) code
  else assignOrExtendSubscription uid gid (if rc_ValidityDays r =? 0 then 30 else rc_ValidityDays r)
         ("通过兑换码 " +:+ code +:+ " 兑换").

(** The transaction of [Redeem]. *)
Definition redeem_tx (uid : Z) (code : string) (r : RedeemCode) : pay (res FErr unit) :=
  if String.eqb (rc_Type r) RedeemTypeSubscription then
    let gid := default 0 (rc_GroupID r) in
    ch <-p redeem_subscription uid gid r code;
    match ch with
    | Err e => Ret (Err e)
    | Ok ch => commit (λ now d, d1 <-? mark_used code (rc_ID r) uid now d;
                                d2 <-? apply_change uid gid ch d1; Ok ((), d2))
    end
  else commit (λ now d, d1 <-? mark_used code (rc_ID r) uid now d;
                        d2 <-? update_puser uid (code_effect r) d1; Ok ((), d2)).

(** [tryAccrueAffiliateRebateForRedeem]; [AccrueInviteRebate] has no source
    order. *)
Definition tryAccrueAffiliateRebateForRedeem (skip : bool) (uid : Z) (amount : f64) : pay unit :=
  if skip || negb affiliate_enabled then Ret ()
  else
    _ <-p commit (λ now d, rebate <-? accrue now uid amount (rebates d);
                           Ok ((), if f0 <ᶠ rebate then add_rebate (uid, rebate, None) d else d));
    Ret ().

(** [Redeem] after the lock is taken; [skip] is [ContextSkipRedeemAffiliate]. *)
Definition redeem_locked (skip : bool) (uid : Z) (code : string) : pay (res FErr unit) :=
  rc <-p query (λ d, codes d !! code);
  match rc with
  | None => Ret (Err EDB)
  | Some None => _ <-p incrementRedeemErrorCount uid; Ret (Err ECodeNotFound)
  | Some (Some r) =>
      now <-p clock;
      if IsExpiredAt now r then _ <-p incrementRedeemErrorCount uid; Ret (Err ECodeExpired)
      else
        now <-p clock;
        if negb (CanUse now r) then _ <-p incrementRedeemErrorCount uid; Ret (Err ECodeUsed)
        else if negb (String.eqb (rc_Type r) RedeemTypeBalance
                      || String.eqb (rc_Type r) RedeemTypeConcurrency
                      || (String.eqb (rc_Type r) RedeemTypeSubscription
                          && match rc_GroupID r with Some _ => true | None => false end))
        then Ret (Err EUnsupported)
        else
          u <-p query (λ d, pusers d !! uid);
          match u with
          | Some (Some u) =>
              if pu_deleted u then Ret (Err EUser)
              else
                done <-p redeem_tx uid code r;
                match done with
                | Err e => Ret (Err e)
                | Ok _ =>
                    _ <-p (if String.eqb (rc_Type r) RedeemTypeBalance && (f0 <ᶠ code_value r)
                           then tryAccrueAffiliateRebateForRedeem skip uid (code_value r)
                           else Ret ());
                    again <-p query (λ d, codes d !! code);
                    Ret (match again with Some (Some _) => Ok () | _ => Err EDB end)
                end
          | _ => Ret (Err EUser)
          end
  end.

Definition Redeem (skip : bool) (uid : Z) (code : string) : pay (res FErr unit) :=
  allowed <-p checkRedeemRateLimit uid;
  if negb allowed then Ret (Err ERateLimited)
  else
    locked <-p acquireRedeemLock code;
    if negb locked then Ret (Err ELocked)
    else
      r <-p redeem_locked skip uid code;
      _ <-p releaseRedeemLock code;
      Ret r.

(** [CreateCode] for the unused balance code of an order. *)
Definition CreateCode (code : string) (value : f64) : pay (res FErr unit) :=
  let code := TrimSpace code in
  if String.eqb code "" then Ret (Err ECode)
  else if value =ᶠ f0 then Ret (Err ECode)
  else commit (λ _ d,
    if 32 <? str_len code then Err ECode
    else match codes d !! code, store scale8 (num value) with
         | None, Some v =>
             Ok ((), set_codes <[code := {| rc_ID := next_id d; rc_Type := RedeemTypeBalance;
                                            rc_Value := v; rc_Status := StatusUnused;
                                            rc_UsedBy := None; rc_UsedAt := None;
                                            rc_ExpiresAt := None; rc_GroupID := None;
                                            rc_ValidityDays := 0 |}]> d)
         | _, _ => Err EDB
         end).

(** ** The order *)

Definition paymentFulfillmentLeaseDuration : duration := 5 * Minute.
Definition paymentGraceMinutes : Z := 5.

Definition with_status (st : OrderStatus) (now : time) (o : Order) : Order :=
  {| o_user := o_user o; o_amount := o_amount o; o_pay_amount := o_pay_amount o;
     o_recharge_code := o_recharge_code o; o_out_trade_no := o_out_trade_no o;
     o_payment_type := o_payment_type o; o_trade_no := o_trade_no o;
     o_order_type := o_order_type o; o_sub_group := o_sub_group o; o_sub_days := o_sub_days o;
     o_provider_instance_id := o_provider_instance_id o; o_provider_key := o_provider_key o;
     o_snapshot := o_snapshot o; o_status := st; o_paid_at := o_paid_at o;
     o_completed_at := o_completed_at o; o_failed_at := o_failed_at o;
     o_failed_reason := o_failed_reason o; o_updated_at := now |}.

Definition set_paid (payAmount : Z) (tradeNo : string) (paidAt now : time) (o : Order) : Order :=
  {| o_user := o_user o; o_amount := o_amount o; o_pay_amount := payAmount;
     o_recharge_code := o_recharge_code o; o_out_trade_no := o_out_trade_no o;
     o_payment_type := o_payment_type o; o_trade_no := tradeNo;
     o_order_type := o_order_type o; o_sub_group := o_sub_group o; o_sub_days := o_sub_days o;
     o_provider_instance_id := o_provider_instance_id o; o_provider_key := o_provider_key o;
     o_snapshot := o_snapshot o; o_status := Paid; o_paid_at := Some paidAt;
     o_completed_at := o_completed_at o; o_failed_at := None; o_failed_reason := None;
     o_updated_at := now |}.

(** The statuses' time stamps *)
Definition set_recharging (now : time) (o : Order) : Order :=
  let o := with_status Recharging now o in
  {| o_user := o_user o; o_amount := o_amount o; o_pay_amount := o_pay_amount o;
     o_recharge_code := o_recharge_code o; o_out_trade_no := o_out_trade_no o;
     o_payment_type := o_payment_type o; o_trade_no := o_trade_no o;
     o_order_type := o_order_type o; o_sub_group := o_sub_group o; o_sub_days := o_sub_days o;
     o_provider_instance_id := o_provider_instance_id o; o_provider_key := o_provider_key o;
     o_snapshot := o_snapshot o; o_status := o_status o; o_paid_at := o_paid_at o;
     o_completed_at := o_completed_at o; o_failed_at := None; o_failed_reason := None;
     o_updated_at := o_updated_at o |}.
Definition set_completed (completedAt now : time) (o : Order) : Order :=
  let o := with_status Completed now o in
  {| o_user := o_user o; o_amount := o_amount o; o_pay_amount := o_pay_amount o;
     o_recharge_code := o_recharge_code o; o_out_trade_no := o_out_trade_no o;
     o_payment_type := o_payment_type o; o_trade_no := o_trade_no o;
     o_order_type := o_order_type o; o_sub_group := o_sub_group o; o_sub_days := o_sub_days o;
     o_provider_instance_id := o_provider_instance_id o; o_provider_key := o_provider_key o;
     o_snapshot := o_snapshot o; o_status := o_status o; o_paid_at := o_paid_at o;
     o_completed_at := Some completedAt; o_failed_at := o_failed_at o;
     o_failed_reason := o_failed_reason o; o_updated_at := o_updated_at o |}.
Definition set_failed (failedAt : time) (reason : string) (now : time) (o : Order) : Order :=
  let o := with_status Failed now o in
  {| o_user := o_user o; o_amount := o_amount o; o_pay_amount := o_pay_amount o;
     o_recharge_code := o_recharge_code o; o_out_trade_no := o_out_trade_no o;
     o_payment_type := o_payment_type o; o_trade_no := o_trade_no o;
     o_order_type := o_order_type o; o_sub_group := o_sub_group o; o_sub_days := o_sub_days o;
     o_provider_instance_id := o_provider_instance_id o; o_provider_key := o_provider_key o;
     o_snapshot := o_snapshot o; o_status := o_status o; o_paid_at := o_paid_at o;
     o_completed_at := o_completed_at o; o_failed_at := Some failedAt;
     o_failed_reason := Some reason; o_updated_at := o_updated_at o |}.

(** [UPDATE payment_orders SET ... WHERE id = oid AND guard]: whether a row
    was updated. *)
Definition update_order (oid : Z) (guard : Order → bool) (f : time → Order → res FErr Order)
  : pay (res FErr bool) :=
  commit (λ now d, match orders d !! oid with
                   | Some o => if guard o
                               then o' <-? f now o; Ok (true, set_orders <[oid := o']> d)
                               else Ok (false, d)
                   | None => Ok (false, d)
                   end).

Definition get_order (oid : Z) : pay (option (option Order)) := query (λ d, orders d !! oid).

(** ** Leases *)

Definition lease_available (now : time) (o : Order) : bool :=
  match o_status o with
  | Paid | Failed => true
  | Recharging => o_updated_at o <=? time_Add now (- paymentFulfillmentLeaseDuration)
  | _ => false
  end.

(** [acquirePaymentFulfillmentLease]: [Ok None] for no lease and no error. *)
Definition acquirePaymentFulfillmentLease (oid : Z) : pay (res FErr (option time)) :=
  t <-p clock;
  let now := t / Microsecond * Microsecond in
  updated <-p update_order oid (lease_available now) (λ _ o, Ok (set_recharging now o));
  match updated with
  | Err _ => Ret (Err EDB)
  | Ok false =>
      current <-p get_order oid;
      match current with
      | Some (Some cur) => if decide (o_status cur = Completed) then Ret (Ok None)
                           else Ret (Err EConflict)
      | _ => Ret (Err EDB)
      end
  | Ok true =>
      claimed <-p get_order oid;
      match claimed with
      | Some (Some cur) => if decide (o_status cur = Recharging) then Ret (Ok (Some (o_updated_at cur)))
                           else Ret (Err EConflict)
      | _ => Ret (Err EDB)
      end
  end.

Definition holds_lease (version : time) (o : Order) : bool :=
  bool_decide (o_status o = Recharging) && (o_updated_at o =? version).

Definition hasAuditLog (oid : Z) (action : string) : pay bool :=
  r <-p query (λ d, bool_decide ((oid, action) ∈ audit d)); Ret (default false r).

Definition markCompleted (oid : Z) (version : time) (action : string) : pay (res FErr unit) :=
  now <-p clock;
  updated <-p update_order oid (holds_lease version) (λ t o, Ok (set_completed now t o));
  match updated with
  | Err _ => Ret (Err EDB)
  | Ok false =>
      current <-p get_order oid;
      match current with
      | Some (Some cur) => if decide (o_status cur = Completed) then Ret (Ok ())
                           else Ret (Err EConflict)
      | _ => Ret (Err EConflict)
      end
  | Ok true =>
      logged <-p hasAuditLog oid action;
      _ <-p (if logged then Ret () else writeAuditLog oid action);
      Ret (Ok ())
  end.

Definition markFailed (oid : Z) (version : time) (reason : string) : pay unit :=
  now <-p clock;
  updated <-p update_order oid (holds_lease version) (λ t o, Ok (set_failed now reason t o));
  match updated with
  | Ok true => writeAuditLog oid "FULFILLMENT_FAILED"
  | _ => Ret ()
  end.

(** ** Affiliate rebates *)

(** The amount of an order as the code reads it. *)
Definition order_amount (o : Order) : f64 := scan (dec scale2 (o_amount o)).

Definition affiliateRebateBaseAmount (o : Order) : f64 :=
  if String.eqb (o_order_type o) OrderTypeBalance || String.eqb (o_order_type o) OrderTypeSubscription
  then order_amount o else f0.

(** The transaction of [applyAffiliateRebateForOrder]: claim the audit row,
    accrue, and settle the row's action. *)
Definition rebate_tx (oid : Z) (o : Order) (now : time) (d : PayDB) : res FErr (unit * PayDB) :=
  if decide ((oid, "AFFILIATE_REBATE_APPLIED") ∈ audit d ∨ (oid, "AFFILIATE_REBATE_SKIPPED") ∈ audit d)
  then Ok ((), d)
  else
    rebate <-? accrue now (o_user o) (affiliateRebateBaseAmount o) (rebates d);
    if rebate ≤ᶠ f0
    then Ok ((), set_audit (λ a, {[(oid, "AFFILIATE_REBATE_SKIPPED")]} ∪ a) d)
    else Ok ((), add_rebate (o_user o, rebate, Some oid)
                   (set_audit (λ a, {[(oid, "AFFILIATE_REBATE_APPLIED")]} ∪ a) d)).

Definition applyAffiliateRebateForOrder (oid : Z) (o : Order) : pay (res FErr unit) :=
  if affiliateRebateBaseAmount o ≤ᶠ f0 then Ret (Ok ())
  else
    r <-p commit (rebate_tx oid o);
    match r with
    | Ok _ => Ret (Ok ())
    | Err _ => _ <-p writeAuditLog oid "AFFILIATE_REBATE_FAILED"; Ret (Err EAffiliate)
    end.

(** ** Balance orders *)

Inductive redeemAction := RedeemActionCreate | RedeemActionRedeem | RedeemActionSkipCompleted.
Definition resolveRedeemAction (existing : option (option RedeemCode)) : redeemAction :=
  match existing with
  | Some (Some r) => if IsUsed r then RedeemActionSkipCompleted else RedeemActionRedeem
  | _ => RedeemActionCreate
  end.

Definition finish_balance (oid : Z) (o : Order) (version : time) : pay (res FErr unit) :=
  r <-p applyAffiliateRebateForOrder oid o;
  match r with
  | Err e => Ret (Err e)
  | Ok _ => markCompleted oid version "RECHARGE_SUCCESS"
  end.

Definition redeem_and_finish (oid : Z) (o : Order) (version : time) : pay (res FErr unit) :=
  r <-p Redeem true (o_user o) (o_recharge_code o);
  match r with
  | Err e => Ret (Err e)
  | Ok _ => finish_balance oid o version
  end.

Definition doBalance (oid : Z) (o : Order) (version : time) : pay (res FErr unit) :=
  existing <-p query (λ d, codes d !! o_recharge_code o);
  match resolveRedeemAction existing with
  | RedeemActionSkipCompleted => finish_balance oid o version
  | RedeemActionCreate =>
      r <-p CreateCode (o_recharge_code o) (order_amount o);
      match r with
      | Err e => Ret (Err e)
      | Ok _ => redeem_and_finish oid o version
      end
  | RedeemActionRedeem => redeem_and_finish oid o version
  end.

(** ** Subscription orders *)

Definition paymentSubscriptionOrderNote (oid : Z) : string := "payment order " +:+ pretty oid.
Definition hasPaymentSubscriptionOrderNote (notes orderNote : string) : bool :=
  existsb (λ line, String.eqb (TrimSpace line) orderNote)
    (Split (ReplaceAll notes (String (ascii_of_N 13) (String (ascii_of_N 10) ""))
              (String (ascii_of_N 10) "")) (ascii_of_N 10)).

Definition assignment_audited (oid : Z) (d : PayDB) : bool :=
  bool_decide ((oid, "SUBSCRIPTION_ASSIGNED") ∈ audit d ∨ (oid, "SUBSCRIPTION_SUCCESS") ∈ audit d).

(** [invalidateSubscriptionCaches]: Redis may fail. *)
Definition invalidateSubscriptionCaches : pay (res FErr unit) :=
  r <-p query (λ _, ()); Ret (match r with Some _ => Ok () | None => Err ECache end).

(** What the transaction of [ensurePaymentSubscriptionAssigned] writes: the
    change, if there is one, and the audit row. *)
Definition assignment_tx (oid uid gid : Z) (ch : option SubChange) (d : PayDB)
  : res FErr (unit * PayDB) :=
  d1 <-? match ch with Some ch => apply_change uid gid ch d | None => Ok d end;
  if decide ((oid, "SUBSCRIPTION_ASSIGNED") ∈ audit d1) then Err EConflict
  else Ok ((), set_audit (λ a, {[(oid, "SUBSCRIPTION_ASSIGNED")]} ∪ a) d1).

Definition commit_assignment (oid uid gid : Z) (ch : option SubChange) : pay (res FErr unit) :=
  r <-p commit (λ _, assignment_tx oid uid gid ch);
  match r with
  | Ok _ => invalidateSubscriptionCaches
  | Err EConflict =>
      claimed <-p query (assignment_audited oid);
      if default false claimed then invalidateSubscriptionCaches else Ret (Err EConflict)
  | Err e => Ret (Err e)
  end.

Definition ensurePaymentSubscriptionAssigned (oid : Z) (o : Order) (gid days : Z)
  : pay (res FErr unit) :=
  already <-p query (assignment_audited oid);
  match already with
  | None => Ret (Err EDB)
  | Some true => invalidateSubscriptionCaches
  | Some false =>
      let note := paymentSubscriptionOrderNote oid in
      existing <-p query (λ d, subs d !! (o_user o, gid));
      match existing with
      | None => Ret (Err EDB)
      | Some found =>
          if match found with
             | Some s => hasPaymentSubscriptionOrderNote (sub_Notes s) note
             | None => false
             end
          then commit_assignment oid (o_user o) gid None
          else
            ch <-p assignOrExtendSubscription (o_user o) gid days note;
            match ch with
            | Err e => Ret (Err e)
            | Ok ch => commit_assignment oid (o_user o) gid (Some ch)
            end
      end
  end.

Definition doSub (oid : Z) (o : Order) (gid days : Z) (version : time) : pay (res FErr unit) :=
  g <-p query (λ d, pgroups d !! gid);
  match g with
  | Some (Some g) =>
      if negb (String.eqb (g_status g) EntityStatusActive) then Ret (Err EGroup)
      else
        r <-p ensurePaymentSubscriptionAssigned oid o gid days;
        match r with
        | Err e => Ret (Err e)
        | Ok _ =>
            r <-p applyAffiliateRebateForOrder oid o;
            match r with
            | Err e => Ret (Err e)
            | Ok _ => markCompleted oid version "SUBSCRIPTION_SUCCESS"
            end
        end
  | _ => Ret (Err EGroup)
  end.

(** ** Fulfillment *)

(** What both fulfillments do around their work. *)
Definition with_lease (oid : Z) (work : time → pay (res FErr unit)) : pay (res FErr unit) :=
  lease <-p acquirePaymentFulfillmentLease oid;
  match lease with
  | Err e => Ret (Err e)
  | Ok None => Ret (Ok ())
  | Ok (Some version) =>
      r <-p work version;
      match r with
      | Err e => _ <-p markFailed oid version "error"; Ret (Err e)
      | Ok _ => Ret (Ok ())
      end
  end.

(** The status guard both share: [Some] is their answer. *)
Definition fulfill_guard (o : Order) : option (res FErr unit) :=
  match o_status o with
  | Completed => Some (Ok ())
  | Paid | Failed | Recharging => None
  | _ => Some (Err EInvalidStatus)
  end.

Definition ExecuteBalanceFulfillment (oid : Z) : pay (res FErr unit) :=
  r <-p get_order oid;
  match r with
  | Some (Some o) => match fulfill_guard o with
                     | Some answer => Ret answer
                     | None => with_lease oid (doBalance oid o)
                     end
  | _ => Ret (Err EOrderNotFound)
  end.

Definition ExecuteSubscriptionFulfillment (oid : Z) : pay (res FErr unit) :=
  r <-p get_order oid;
  match r with
  | Some (Some o) =>
      match fulfill_guard o, o_sub_group o, o_sub_days o with
      | Some answer, _, _ => Ret answer
      | None, Some gid, Some days => with_lease oid (doSub oid o gid days)
      | None, _, _ => Ret (Err EInvalidStatus)
      end
  | _ => Ret (Err EOrderNotFound)
  end.

Definition executeFulfillment (oid : Z) : pay (res FErr unit) :=
  r <-p get_order oid;
  match r with
  | Some (Some o) => if String.eqb (o_order_type o) OrderTypeSubscription
                     then ExecuteSubscriptionFulfillment oid else ExecuteBalanceFulfillment oid
  | _ => Ret (Err EDB)
  end.

Definition RetryFulfillment (oid : Z) : pay (res FErr unit) :=
  r <-p get_order oid;
  match r with
  | Some (Some o) =>
      if negb (match o_paid_at o with Some _ => true | None => false end) then Ret (Err EInvalidStatus)
      else match o_status o with
           | Failed | Paid | Recharging =>
               _ <-p writeAuditLog oid "RECHARGE_RETRY"; executeFulfillment oid
           | _ => Ret (Err EInvalidStatus)
           end
  | _ => Ret (Err EOrderNotFound)
  end.

(** ** Notifications *)

Definition alreadyProcessed (oid : Z) : pay (res FErr unit) :=
  r <-p get_order oid;
  match r with
  | Some (Some cur) =>
      match o_status cur with
      | Failed | Paid | Recharging => executeFulfillment oid
      | Expired => _ <-p writeAuditLog oid "PAYMENT_AFTER_EXPIRY"; Ret (Ok ())
      | _ => Ret (Ok ())
      end
  | _ => Ret (Ok ())
  end.

(** The statuses a payment is still accepted in. *)
Definition payable (grace : time) (o : Order) : bool :=
  match o_status o with
  | Pending | Cancelled => true
  | Expired => grace <=? o_updated_at o
  | _ => false
  end.

Definition toPaid (oid : Z) (o : Order) (tradeNo : string) (paid : f64) : pay (res FErr unit) :=
  now <-p clock;
  let grace := time_Add now (- (paymentGraceMinutes * Minute)) in
  c <-p update_order oid (payable grace)
          (λ t cur, match store scale2 (num paid) with
                    | Some z => if 128 <? str_len tradeNo then Err EDB
                                else Ok (set_paid z tradeNo now t cur)
                    | None => Err EDB
                    end);
  match c with
  | Err _ => Ret (Err EDB)
  | Ok false => alreadyProcessed oid
  | Ok true =>
      _ <-p (if decide (o_status o = Cancelled ∨ o_status o = Expired)
             then writeAuditLog oid "ORDER_RECOVERED" else Ret ());
      _ <-p writeAuditLog oid "ORDER_PAID";
      executeFulfillment oid
  end.

(** [confirmPayment]: when the order cannot be read, for whatever reason, the
    answer is success. *)
Definition confirmPayment (oid : Z) (tradeNo : string) (paid : f64) (pk : string)
    (metadata : gmap string string) : pay (res FErr unit) :=
  r <-p get_order oid;
  match r with
  | Some (Some o) =>
      inst <-p query (λ d, getOrderProviderInstance (instances d) o);
      match check_notification registry (default None inst) o paid pk metadata with
      | Err e => _ <-p writeAuditLog oid (rejection_audit e); Ret (Err (ERejected e))
      | Ok _ => toPaid oid o tradeNo paid
      end
  | _ => Ret (Ok ())
  end.

Definition orderIDPrefix : string := "sub2_".
(** [parseLegacyPaymentOrderID] when no order has the trade number. *)
Definition parseLegacyPaymentOrderID (orderID : string) : option Z :=
  let orderID := TrimSpace orderID in
  trimmed ← CutPrefix orderID orderIDPrefix;
  if String.eqb trimmed "" then None
  else
    oid ← Atoi trimmed;
    if oid <=? 0 then None else Some oid.

Record PaymentNotification := {
  n_Success : bool;
  n_OrderID : string;
  n_TradeNo : string;
  n_Amount : f64;
  n_Metadata : gmap string string;
}.

Definition HandlePaymentNotification (n : PaymentNotification) (pk : string) : pay (res FErr unit) :=
  if negb (n_Success n) then Ret (Ok ())
  else
    found <-p query (λ d, option_map fst (List.find (λ e, String.eqb (o_out_trade_no (snd e)) (n_OrderID n))
                                    (map_to_list (orders d))));
    match found with
    | None => Ret (Err EDB)
    | Some (Some oid) => confirmPayment oid (n_TradeNo n) (n_Amount n) pk (n_Metadata n)
    | Some None =>
        match parseLegacyPaymentOrderID (n_OrderID n) with
        | Some oid => confirmPayment oid (n_TradeNo n) (n_Amount n) pk (n_Metadata n)
        | None => Ret (Err EOrderNotFound)
        end
    end.

End Fulfillment.
