(* ===== verification/FulfillmentProps.v ===== *)
(** * What payment fulfillment guarantees

    Theorems on [Fulfillment] for any number of concurrent notifications,
    retries and redemptions, any failures and crashes: an order is credited at
    most once and completed only when it has been credited, and a code, a
    subscription assignment and a rebate take effect at most once. *)

From Stdlib Require Import ZArith Lia QArith Ascii String Bool.
From stdpp Require Import base numbers option list gmap strings pretty relations.
From S2P Require Import Prelude GoStrings GoFloat UsageDB PaymentOrder Proc Fulfillment.

#[local] Open Scope Z_scope.

Section Props.
Context `{GoText} `{PgFloat} `{Affiliate}.
Context (registry : string → string).
(** Who may redeem a code. *)
Context (own : string → Z → Prop).

(** ** Events: what a step of the system can do *)

Inductive Event :=
| EvNone
| EvRedeem (code : string) (uid : Z)
| EvAssign (oid : Z)
| EvRebate (oid : Z)
| EvUserRebate.

Definition code_used (c : string) (d : PayDB) : Prop :=
  ∃ r, codes d !! c = Some r ∧ rc_Status r = StatusUsed.
Definition assigned (oid : Z) (d : PayDB) : Prop := assignment_audited oid d = true.
Definition rebated (oid : Z) (d : PayDB) : Prop :=
  (oid, "AFFILIATE_REBATE_APPLIED") ∈ audit d ∨ (oid, "AFFILIATE_REBATE_SKIPPED") ∈ audit d.

Lemma assigned_iff oid d :
  assigned oid d ↔ (oid, "SUBSCRIPTION_ASSIGNED") ∈ audit d ∨ (oid, "SUBSCRIPTION_SUCCESS") ∈ audit d.
Proof. unfold assigned, assignment_audited. apply bool_decide_eq_true. Qed.

(** What fulfillment never changes in an order. *)
Definition static (o : Order) :=
  (o_user o, o_amount o, o_recharge_code o, o_order_type o, o_sub_group o, o_sub_days o).

(** What shows that an order has been fulfilled. *)
Definition fulfilled (oid : Z) (o : Order) (d : PayDB) : Prop :=
  if String.eqb (o_order_type o) OrderTypeSubscription then assigned oid d
  else code_used (o_recharge_code o) d.

Inductive status_step : OrderStatus → OrderStatus → Prop :=
| step_same st : status_step st st
| step_paid st : st ∈ [Pending; Cancelled; Expired] → status_step st Paid
| step_lease st : st ∈ [Paid; Failed; Recharging] → status_step st Recharging
| step_failed : status_step Recharging Failed
| step_completed : status_step Recharging Completed.

Definition order_rel (d' : PayDB) (oid : Z) (m m' : option Order) : Prop :=
  match m, m' with
  | None, None => True
  | Some o, Some o' =>
      static o' = static o ∧ status_step (o_status o) (o_status o') ∧
      (o_status o' = Completed → o_status o = Completed ∨ fulfilled oid o d')
  | _, _ => False
  end.

Definition used_by (uid : Z) (r r' : RedeemCode) : Prop :=
  rc_Status r = StatusUnused ∧ rc_Status r' = StatusUsed ∧ rc_UsedBy r' = Some uid ∧
  rc_Type r' = rc_Type r ∧ rc_Value r' = rc_Value r.

Definition code_rel (d : PayDB) (ev : Event) (c : string) (m m' : option RedeemCode) : Prop :=
  match m, m' with
  | None, None => True
  | None, Some r' =>
      rc_Status r' = StatusUnused ∧ rc_Type r' = RedeemTypeBalance ∧
      ∃ oid o, orders d !! oid = Some o ∧ c = TrimSpace (o_recharge_code o) ∧
               store scale8 (num (order_amount o)) = Some (rc_Value r')
  | Some r, Some r' => r' = r ∨ ∃ uid, ev = EvRedeem c uid ∧ used_by uid r r'
  | Some _, None => False
  end.

Definition effect (ev : Event) (d d' : PayDB) : Prop :=
  match ev with
  | EvNone => pusers d' = pusers d ∧ subs d' = subs d ∧ rebates d' = rebates d
  | EvRedeem c uid =>
      rebates d' = rebates d ∧ own c uid ∧
      ∃ r, codes d !! c = Some r ∧ rc_Status r = StatusUnused ∧ code_used c d' ∧
      (if String.eqb (rc_Type r) RedeemTypeSubscription then pusers d' = pusers d
       else subs d' = subs d ∧
           ∃ u u', pusers d !! uid = Some u ∧ code_effect r u = Some u' ∧
                   pusers d' = <[uid := u']> (pusers d))
  | EvAssign oid =>
      pusers d' = pusers d ∧ rebates d' = rebates d ∧
      (oid, "SUBSCRIPTION_ASSIGNED") ∉ audit d ∧ (oid, "SUBSCRIPTION_ASSIGNED") ∈ audit d'
  | EvRebate oid =>
      pusers d' = pusers d ∧ subs d' = subs d ∧ ¬ rebated oid d ∧ rebated oid d'
  | EvUserRebate => pusers d' = pusers d ∧ subs d' = subs d
  end.

Definition happens (ev : Event) (d d' : PayDB) : Prop :=
  (∀ oid, order_rel d' oid (orders d !! oid) (orders d' !! oid)) ∧
  (∀ c, code_rel d ev c (codes d !! c) (codes d' !! c)) ∧
  audit d ⊆ audit d' ∧
  (∀ oid, assigned oid d' → assigned oid d ∨ ev = EvAssign oid) ∧
  (∀ oid, rebated oid d' → rebated oid d ∨ ev = EvRebate oid) ∧
  effect ev d d'.

Definition G (d d' : PayDB) : Prop := ∃ ev, happens ev d d'.

Lemma order_rel_refl d' oid m : order_rel d' oid m m.
Proof. destruct m as [o|]; simpl; [|done]. split_and!; [done|constructor|by left]. Qed.
Lemma code_rel_refl d ev c m : code_rel d ev c m m.
Proof. destruct m as [r|]; simpl; [by left|done]. Qed.
Lemma G_refl d : G d d.
Proof.
  exists EvNone. split_and!; [intros; apply order_rel_refl|intros; apply code_rel_refl|done|by left..|].
  by split_and!.
Qed.

(** A step that touches none of the tables the guarantees speak of. *)
Lemma G_same d d' :
  orders d' = orders d → codes d' = codes d → audit d' = audit d → pusers d' = pusers d →
  subs d' = subs d → rebates d' = rebates d → G d d'.
Proof.
  intros Eo Ec Ea Eu Es Er. exists EvNone. unfold happens, assigned, rebated, assignment_audited.
  rewrite Eo, Ec, Ea. split_and!;
    [intros; apply order_rel_refl|intros; apply code_rel_refl|done|by left..|by split_and!].
Qed.

(** ** Facts that last *)

Definition knows (oid : Z) (o : Order) (d : PayDB) : Prop :=
  ∃ o', orders d !! oid = Some o' ∧ static o' = static o ∧
        (o_status o = Completed → o_status o' = Completed).
Definition completed (oid : Z) (d : PayDB) : Prop :=
  ∃ o, orders d !! oid = Some o ∧ o_status o = Completed.
Definition owners_ok (d : PayDB) : Prop :=
  ∀ oid o, orders d !! oid = Some o → own (o_recharge_code o) (o_user o).

Lemma G_order d d' oid o :
  G d d' → orders d !! oid = Some o →
  ∃ o', orders d' !! oid = Some o' ∧ static o' = static o ∧
        status_step (o_status o) (o_status o') ∧
        (o_status o' = Completed → o_status o = Completed ∨ fulfilled oid o d').
Proof.
  intros (ev & Ho & _) E. specialize (Ho oid). rewrite E in Ho.
  destruct (orders d' !! oid) as [o'|]; [|done]. simpl in Ho. eauto.
Qed.

Lemma status_step_completed st : status_step Completed st → st = Completed.
Proof. inversion 1; subst; set_solver. Qed.

Lemma knows_stable oid o : stable G (knows oid o).
Proof.
  intros d d' (o1 & E & Hs & Hc) HG. destruct (G_order _ _ _ _ HG E) as (o2 & E2 & Hs2 & Hst & _).
  exists o2. split_and!; [done|congruence|]. intros Hcomp. rewrite (Hc Hcomp) in Hst.
  by apply status_step_completed.
Qed.
Lemma completed_stable oid : stable G (completed oid).
Proof.
  intros d d' (o1 & E & Hc) HG. destruct (G_order _ _ _ _ HG E) as (o2 & E2 & _ & Hst & _).
  exists o2. split; [done|]. rewrite Hc in Hst. by apply status_step_completed.
Qed.
Lemma code_used_stable c : stable G (code_used c).
Proof.
  intros d d' (r & E & Hr) (ev & _ & Hc & _). specialize (Hc c). rewrite E in Hc.
  destruct (codes d' !! c) as [r'|] eqn:E'; [|done]. simpl in Hc. exists r'. split; [done|].
  destruct Hc as [->|(uid & _ & Hun & _)]; [done|]. by rewrite Hr in Hun.
Qed.
Lemma audit_stable x : stable G (λ d, x ∈ audit d).
Proof. intros d d' Hx (ev & _ & _ & Ha & _). by apply Ha. Qed.
Lemma assigned_stable oid : stable G (assigned oid).
Proof.
  intros d d' Hd%assigned_iff HG. apply assigned_iff.
  destruct Hd; [left|right]; by eapply audit_stable.
Qed.
Lemma rebated_stable oid : stable G (rebated oid).
Proof. intros d d' [Hd|Hd] HG; [left|right]; by eapply audit_stable. Qed.
Lemma fulfilled_stable oid o : stable G (fulfilled oid o).
Proof.
  unfold fulfilled. destruct (String.eqb _ _); [apply assigned_stable|apply code_used_stable].
Qed.
Lemma owners_stable : stable G owners_ok.
Proof.
  intros d d' Hd (ev & Ho & _) oid o' E'. specialize (Ho oid). rewrite E' in Ho.
  destruct (orders d !! oid) as [o|] eqn:E; [|done]. destruct Ho as [Hs _]. unfold static in Hs.
  injection Hs as Hu _ Hc _ _ _. rewrite Hc, Hu. by eapply Hd.
Qed.

(** ** Steps of the guarantee *)

Lemma G_audit oid action d :
  (action = "SUBSCRIPTION_ASSIGNED" → False) → (action = "SUBSCRIPTION_SUCCESS" → assigned oid d) →
  (action = "AFFILIATE_REBATE_APPLIED" → False) → (action = "AFFILIATE_REBATE_SKIPPED" → False) →
  G d (set_audit (λ a, {[(oid, action)]} ∪ a) d).
Proof.
  intros Ha Hs Hr1 Hr2. exists EvNone. unfold happens, assigned, rebated, assignment_audited. simpl.
  split_and!; [intros; apply order_rel_refl|intros; apply code_rel_refl|set_solver| | |done..].
  - intros i Hi%bool_decide_eq_true. left. simpl in Hi.
    rewrite !elem_of_union, !elem_of_singleton in Hi.
    destruct Hi as [[[= -> <-]|?]|[[= -> <-]|?]]; [by destruct Ha| |by apply Hs|];
      apply assigned_iff; [by left|by right].
  - intros i Hi. left. rewrite !elem_of_union, !elem_of_singleton in Hi.
    destruct Hi as [[[= -> <-]|?]|[[= -> <-]|?]]; [by destruct Hr1|by left|by destruct Hr2|by right].
Qed.

Lemma G_update_order oid o o' d :
  orders d !! oid = Some o → static o' = static o → status_step (o_status o) (o_status o') →
  (o_status o' = Completed → o_status o = Completed ∨ fulfilled oid o d) →
  G d (set_orders <[oid := o']> d).
Proof.
  intros E Hs Hst Hc. exists EvNone. split_and!; simpl;
    [|intros; apply code_rel_refl|done|by left|by left|done..].
  intros i. rewrite lookup_insert. case_decide as Hi; [|apply order_rel_refl]. subst i. rewrite E.
  simpl. by split_and!.
Qed.

(** ** Rules for the actions *)

Abbreviation sound := (safe (S := PayDB) (O := Oracle) G).
Definition after {A} (P : PayDB → Prop) (Q : A → PayDB → Prop) (r : res FErr A) (d : PayDB) : Prop :=
  P d ∧ match r with Ok a => Q a d | Err _ => True end.

Lemma after_stable {A} P (Q : A → PayDB → Prop) r :
  stable G P → (∀ a, stable G (Q a)) → stable G (after P Q r).
Proof. intros HP HQ. apply stable_and; [done|]. destruct r; [apply HQ|apply stable_const]. Qed.

Lemma sound_query {B} P (f : PayDB → B) (Q : B → PayDB → Prop) :
  stable G P → (∀ b, stable G (Q b)) → (∀ d, P d → Q (f d) d) →
  sound P (query f) (λ r d, P d ∧ match r with Some b => Q b d | None => True end).
Proof.
  intros HP HQ Hf. apply safe_act.
  - intros o d Hd. destruct (fate o); simpl; (split; [apply G_refl|]); auto.
  - intros [b|]; apply stable_and; auto using stable_const.
Qed.

Lemma sound_clock P : stable G P → sound P clock (λ _, P).
Proof. intros HP. apply safe_act; [|done]. intros o d Hd. simpl. split; [apply G_refl|done]. Qed.

Lemma sound_commit {A} P (f : time → PayDB → res FErr (A * PayDB)) (Q : A → PayDB → Prop) :
  stable G P → (∀ a, stable G (Q a)) →
  (∀ now d a d', P d → f now d = Ok (a, d') → G d d' ∧ Q a d') →
  sound P (commit f) (after P Q).
Proof.
  intros HP HQ Hf. apply safe_act; [|intros r; by apply after_stable].
  intros o d Hd. unfold after. destruct (fate o); simpl.
  - destruct (f (o_now o) d) as [[a d']|e] eqn:E; simpl; [|split; [apply G_refl|done]].
    destruct (Hf _ _ _ _ Hd E) as [HG HQa]. split_and!; [done|by eapply HP|done].
  - split; [apply G_refl|done].
  - destruct (f (o_now o) d) as [[a d']|e] eqn:E; simpl; [|split; [apply G_refl|done]].
    destruct (Hf _ _ _ _ Hd E) as [HG _]. split_and!; [done|by eapply HP|done].
Qed.

(** A process whose first part has a known rule. *)
Lemma sound_seq {A B} P (p : pay A) (k : A → pay B) Q R :
  sound P p Q → (∀ a, sound (Q a) (k a) R) → sound P (proc_bind p k) R.
Proof. apply safe_bind. Qed.
Lemma sound_post {A} P (p : pay A) (Q Q' : A → PayDB → Prop) :
  sound P p Q → (∀ a d, Q a d → Q' a d) → sound P p Q'.
Proof. intros. by eapply safe_weaken; eauto. Qed.
Lemma sound_pre {A} P P' (p : pay A) (Q : A → PayDB → Prop) :
  sound P p Q → (∀ d, P' d → P d) → sound P' p Q.
Proof. intros. by eapply safe_weaken; eauto. Qed.

Lemma sound_audit P oid action :
  stable G P →
  action ≠ "SUBSCRIPTION_ASSIGNED" → action ≠ "AFFILIATE_REBATE_APPLIED" →
  action ≠ "AFFILIATE_REBATE_SKIPPED" →
  (action = "SUBSCRIPTION_SUCCESS" → ∀ d, P d → assigned oid d) →
  sound P (writeAuditLog oid action) (λ _, P).
Proof.
  intros HP Ha Hr1 Hr2 Hs. unfold writeAuditLog.
  eapply sound_seq; [eapply (sound_commit P _ (λ _ _, True)); [done|done|]|].
  - intros now d a d' Hd. destruct (decide _); [done|]. intros [= _ <-]. split; [|done].
    apply G_audit; auto.
  - intros r d [Hd _]. exact Hd.
Qed.

Lemma sound_get_order P oid :
  stable G P →
  sound P (get_order oid)
    (λ r d, P d ∧ match r with Some (Some o) => knows oid o d | _ => True end).
Proof.
  intros HP. eapply sound_post.
  - apply (sound_query P _ (λ m d, match m with Some o => knows oid o d | None => True end)); [done| |].
    + intros [o|]; [apply knows_stable|apply stable_const].
    + intros d Hd. destruct (orders d !! oid) as [o|] eqn:E; [|done]. exists o. by split_and!.
  - by intros [[o|]|] d.
Qed.

Lemma sound_update_order P oid guard f (Q : PayDB → Prop) :
  stable G P → stable G Q →
  (∀ now d o o', P d → orders d !! oid = Some o → guard o = true → f now o = Ok o' →
     static o' = static o ∧ status_step (o_status o) (o_status o') ∧
     (o_status o' = Completed → o_status o = Completed ∨ fulfilled oid o d) ∧
     Q (set_orders <[oid := o']> d)) →
  sound P (update_order oid guard f) (after P (λ b d, b = true → Q d)).
Proof.
  intros HP HQ Hf. apply sound_commit; [done|intros b; by apply stable_impl|].
  intros now d b d' Hd. destruct (orders d !! oid) as [o|] eqn:E.
  - destruct (guard o) eqn:Eg; [|intros [= <- <-]; split; [apply G_refl|done]].
    destruct (f now o) as [o'|e] eqn:Ef; simpl; [|done]. intros [= <- <-].
    destruct (Hf _ _ _ _ Hd E Eg Ef) as (Hs & Hst & Hc & HQ'). split; [|done].
    by eapply G_update_order.
  - intros [= <- <-]. split; [apply G_refl|done].
Qed.

(** ** Redeeming *)

Definition code_knows (c : string) (r : RedeemCode) (d : PayDB) : Prop :=
  ∃ r', codes d !! c = Some r' ∧ rc_Type r' = rc_Type r ∧ rc_Value r' = rc_Value r.

Lemma code_knows_stable c r : stable G (code_knows c r).
Proof.
  intros d d' (r1 & E & Ht & Hv) (ev & _ & Hc & _). specialize (Hc c). rewrite E in Hc.
  destruct (codes d' !! c) as [r'|] eqn:E'; [|done]. simpl in Hc. exists r'. split; [done|].
  destruct Hc as [->|(uid & _ & _ & _ & _ & -> & ->)]; done.
Qed.

Lemma mark_used_inv code id uid now d d1 :
  mark_used code id uid now d = Ok d1 →
  ∃ r r', codes d !! code = Some r ∧ used_by uid r r' ∧ d1 = set_codes <[code := r']> d.
Proof.
  unfold mark_used. destruct (codes d !! code) as [r|]; [|done].
  destruct (_ && String.eqb _ _) eqn:Eb; [|done]. apply andb_true_iff in Eb as [_ Hst%String.eqb_eq].
  intros [= <-]. eexists r, _. split_and!; [done| |done]. by split_and!.
Qed.

Lemma apply_change_inv uid gid ch d d' :
  apply_change uid gid ch d = Ok d' → ∃ f, d' = set_subs f d.
Proof.
  unfold apply_change. intros Hc.
  destruct ch, (subs d !! (uid, gid)); simpl in Hc; try destruct (_ =? _); simplify_eq; eauto.
Qed.

(** The codes after one of them is redeemed. *)
Lemma code_rel_redeem d uid code r r' c :
  codes d !! code = Some r → used_by uid r r' →
  code_rel d (EvRedeem code uid) c (codes d !! c) (<[code := r']> (codes d) !! c).
Proof.
  intros E Hu. rewrite lookup_insert. case_decide as Hc; [|apply code_rel_refl].
  subst c. rewrite E. simpl. right. eauto.
Qed.

Lemma code_used_insert d uid code r r' :
  used_by uid r r' → codes d = <[code := r']> (codes d) → code_used code d.
Proof.
  intros (_ & Hst & _) E. exists r'. split; [|done]. rewrite E. apply lookup_insert_eq.
Qed.

Lemma code_effect_ext r r' u :
  rc_Type r' = rc_Type r → rc_Value r' = rc_Value r → code_effect r' u = code_effect r u.
Proof. unfold code_effect, code_value. by intros -> ->. Qed.

Lemma G_redeem_user d uid code id r now d1 d2 :
  own code uid → code_knows code r d → (String.eqb (rc_Type r) RedeemTypeSubscription) = false →
  mark_used code id uid now d = Ok d1 → update_puser uid (code_effect r) d1 = Ok d2 →
  G d d2 ∧ code_used code d2.
Proof.
  intros Hown (rk & Ek & Ht & Hv) Hsub (r0 & r' & E & Hu & ->)%mark_used_inv. simplify_eq.
  unfold update_puser. simpl. destruct (pusers d !! uid) as [u|] eqn:Eu; [|done].
  destruct (code_effect r u) as [u'|] eqn:Ee; [|done]. intros [= <-].
  assert (code_used code (set_pusers <[uid:=u']> (set_codes <[code:=r']> d))) as Hused.
  { exists r'. simpl. split; [apply lookup_insert_eq|apply Hu]. }
  split; [|done]. exists (EvRedeem code uid).
  split_and!; simpl; [intros; apply order_rel_refl|intros; by eapply code_rel_redeem|done|by left|by left
    |split_and!; [done..|]].
  exists rk. rewrite Ht, Hsub. split_and!; [done|apply Hu|done|done|].
  exists u, u'. split_and!; [done| |done]. by rewrite (code_effect_ext r).
Qed.

Lemma G_redeem_sub d uid gid code id r now ch d1 d2 :
  own code uid → code_knows code r d → (String.eqb (rc_Type r) RedeemTypeSubscription) = true →
  mark_used code id uid now d = Ok d1 → apply_change uid gid ch d1 = Ok d2 →
  G d d2 ∧ code_used code d2.
Proof.
  intros Hown (rk & Ek & Ht & Hv) Hsub (r0 & r' & E & Hu & ->)%mark_used_inv. simplify_eq.
  intros [f ->]%apply_change_inv.
  assert (code_used code (set_subs f (set_codes <[code:=r']> d))) as Hused.
  { exists r'. simpl. split; [apply lookup_insert_eq|apply Hu]. }
  split; [|done]. exists (EvRedeem code uid).
  split_and!; simpl; [intros; apply order_rel_refl|intros; by eapply code_rel_redeem|done|by left|by left
    |split_and!; [done..|]].
  exists rk. rewrite Ht, Hsub. split_and!; [done|apply Hu|done|done].
Qed.

Lemma sound_assignOrExtend P uid gid days notes :
  stable G P → sound P (assignOrExtendSubscription uid gid days notes) (λ _, P).
Proof.
  intros HP. unfold assignOrExtendSubscription.
  eapply sound_seq; [by apply (sound_query P _ (λ _ _, True))|].
  intros [[g|]|]; [|by intros d [? _]..].
  destruct (negb _); [by intros d [? _]|].
  eapply sound_seq; [apply (sound_query _ _ (λ _ _, True)); [apply stable_and; [done|apply stable_const]|done|done]|].
  intros m. eapply sound_seq; [apply sound_clock; destruct m; repeat apply stable_and; auto using stable_const|].
  intros now d. simpl. tauto.
Qed.

Lemma sound_reduce P uid gid days code :
  stable G P → sound P (reduceOrCancelSubscription uid gid days code) (λ _, P).
Proof.
  intros HP. unfold reduceOrCancelSubscription.
  eapply sound_seq; [by apply (sound_query P _ (λ _ _, True))|].
  intros [[s|]|]; [|by intros d [? _]..].
  eapply sound_seq; [apply sound_clock, stable_and; auto using stable_const|]. by intros now d [? _].
Qed.

Lemma sound_redeem_tx P uid code r :
  stable G P → (∀ d, P d → own code uid) → (∀ d, P d → code_knows code r d) →
  sound P (redeem_tx uid code r) (after P (λ _, code_used code)).
Proof.
  intros HP Hown Hk. unfold redeem_tx. destruct (String.eqb _ _) eqn:Et.
  - eapply sound_seq.
    { unfold redeem_subscription. instantiate (1 := λ _, P).
      destruct (_ <? 0); [by apply sound_reduce|by apply sound_assignOrExtend]. }
    intros [ch|e]; [|by intros d Hd].
    apply sound_commit; [done|intros; apply code_used_stable|].
    intros now d [] d' Hd. unfold rbind. destruct (mark_used _ _ _ _ _) as [d1|] eqn:E1; [|done].
    destruct (apply_change _ _ _ _) as [d2|] eqn:E2; [|done]. intros [= <-].
    by eapply G_redeem_sub; eauto.
  - apply sound_commit; [done|intros; apply code_used_stable|].
    intros now d [] d' Hd. unfold rbind. destruct (mark_used _ _ _ _ _) as [d1|] eqn:E1; [|done].
    destruct (update_puser _ _ _) as [d2|] eqn:E2; [|done]. intros [= <-].
    by eapply G_redeem_user; eauto.
Qed.

Ltac stab :=
  intros; repeat first
    [ assumption | apply stable_const | apply knows_stable | apply completed_stable
    | apply code_used_stable | apply code_knows_stable | apply assigned_stable
    | apply fulfilled_stable | apply owners_stable
    | match goal with |- stable _ (after _ _ _) => apply after_stable; [|intros ?] end
    | match goal with |- stable _ (λ _, match ?x with _ => _ end) => destruct x end
    | apply stable_and | apply stable_impl; intros _ ].

(** An action whose outcome the process ignores. *)
Lemma sound_ignore {A B} P (f : time → PayDB → res FErr (A * PayDB)) (x : B) :
  stable G P → (∀ now d a d', P d → f now d = Ok (a, d') → G d d') →
  sound P (_ <-p commit f; Ret x) (λ _, P).
Proof.
  intros HP Hf. eapply sound_seq; [apply (sound_commit P _ (λ _ _, True)); [done|stab|]|].
  - intros now d a d' Hd E. split; [by eapply Hf|done].
  - by intros r d [? _].
Qed.

Lemma sound_errors P uid : stable G P → sound P (incrementRedeemErrorCount uid) (λ _, P).
Proof. intros HP. apply sound_ignore; [done|]. intros now d a d' _ [= _ <-]. by apply G_same. Qed.
Lemma sound_unlock P code : stable G P → sound P (releaseRedeemLock code) (λ _, P).
Proof. intros HP. apply sound_ignore; [done|]. intros now d a d' _ [= _ <-]. by apply G_same. Qed.

Lemma sound_user_rebate P skip uid amount :
  stable G P → sound P (tryAccrueAffiliateRebateForRedeem skip uid amount) (λ _, P).
Proof.
  intros HP. unfold tryAccrueAffiliateRebateForRedeem. destruct (_ || _); [by intros d Hd|].
  apply sound_ignore; [done|]. intros now d a d' _. unfold rbind.
  destruct (accrue _ _ _ _) as [rebate|]; [|done]. intros [= _ <-].
  destruct (_ <ᶠ _); [|apply G_refl]. exists EvUserRebate.
  split_and!; simpl; [intros; apply order_rel_refl|intros; apply code_rel_refl|done|by left|by left|done].
Qed.

Lemma sound_redeem_locked P skip uid code :
  stable G P → (∀ d, P d → own code uid) →
  sound P (redeem_locked skip uid code) (after P (λ _, code_used code)).
Proof.
  intros HP Hown. unfold redeem_locked.
  eapply sound_seq; [apply (sound_query P _ (λ m d, match m with Some r => code_knows code r d | None => True end));
    [done|stab|]|].
  { intros d Hd. destruct (codes d !! code) as [r|] eqn:E; [|done]. by exists r. }
  intros [[r|]|].
  2:{ eapply sound_seq; [apply sound_errors; stab|]. by intros _ d [? _]. }
  2:{ by intros d [? _]. }
  eapply sound_seq; [apply sound_clock; stab|]. intros t. destruct (IsExpiredAt t r).
  { eapply sound_seq; [apply sound_errors; stab|]. by intros _ d [? _]. }
  eapply sound_seq; [apply sound_clock; stab|]. intros t'. destruct (negb (CanUse t' r)).
  { eapply sound_seq; [apply sound_errors; stab|]. by intros _ d [? _]. }
  destruct (negb _); [by intros d [? _]|].
  eapply sound_seq; [apply (sound_query _ _ (λ _ _, True)); stab; done|]. intros [[u|]|];
    [|by intros d [[? _] _]..].
  destruct (pu_deleted u); [by intros d [[? _] _]|].
  eapply sound_seq; [apply sound_redeem_tx; [stab|by intros d [[? _] _]; eapply Hown|by intros d [[_ ?] _]]|].
  intros [[]|e]; [|by intros d [[[? _] _] _]].
  eapply sound_seq.
  { instantiate (1 := λ _ d, P d ∧ code_used code d).
    eapply sound_pre; [|intros d [[[HPd _] _] Hu]; exact (conj HPd Hu)].
    destruct (_ && _); [apply sound_user_rebate; stab|by intros d Hd]. }
  intros []. eapply sound_seq; [apply (sound_query _ _ (λ _ _, True)); stab; done|].
  intros [[r'|]|]; by intros d [[? ?] _].
Qed.

Lemma sound_Redeem P skip uid code :
  stable G P → (∀ d, P d → own code uid) → sound P (Redeem skip uid code) (after P (λ _, code_used code)).
Proof.
  intros HP Hown. unfold Redeem, checkRedeemRateLimit, acquireRedeemLock.
  apply (sound_seq P _ _ (λ _, P)).
  { eapply sound_seq; [apply (sound_query P _ (λ _ _, True)); stab; done|]. intros n d [Hd _]. exact Hd. }
  intros b. destruct (negb b); [by intros d Hd|].
  apply (sound_seq P _ _ (λ _, P)).
  { eapply sound_seq; [apply (sound_commit P _ (λ _ _, True)); [done|stab|]|].
    - intros now d a d' _. case_match; intros [= _ <-]; (split; [|done]); [apply G_refl|].
      by apply G_same.
    - intros r d [Hd _]. exact Hd. }
  intros locked. destruct (negb locked); [by intros d Hd|].
  eapply sound_seq; [by apply sound_redeem_locked|]. intros r.
  eapply sound_seq; [apply sound_unlock; stab|]. by intros [] d Hd.
Qed.

(** ** The order *)

Lemma sound_CreateCode P oid o :
  stable G P → (∀ d, P d → knows oid o d) →
  sound P (CreateCode (o_recharge_code o) (order_amount o)) (λ _, P).
Proof.
  intros HP Hk. unfold CreateCode. cbv zeta.
  destruct (String.eqb _ _); [by intros d Hd|]. destruct (_ =ᶠ _); [by intros d Hd|].
  eapply sound_post; [apply (sound_commit P _ (λ _ _, True)); [done|stab|]|by intros a d [? _]].
  intros now d [] d' Hd. destruct (32 <? _); [done|].
  destruct (codes d !! TrimSpace (o_recharge_code o)) as [r|] eqn:E; [done|].
  destruct (store _ _) as [v|] eqn:Ev; [|done]. intros [= <-]. split; [|done].
  destruct (Hk _ Hd) as (o' & Eo & Hs & _). unfold static in Hs. injection Hs as Hu Ha Hc Ht Hg Hds.
  exists EvNone. split_and!; simpl; [intros; apply order_rel_refl| |done|by left|by left|done..].
  intros c. rewrite lookup_insert. case_decide; [|apply code_rel_refl]. subst c. rewrite E. simpl.
  split_and!; [done|done|]. exists oid, o'. unfold order_amount in *. rewrite Ha, Hc. by split_and!.
Qed.

Lemma sound_markCompleted P oid o version action :
  stable G P → (∀ d, P d → knows oid o d ∧ fulfilled oid o d) →
  action ≠ "SUBSCRIPTION_ASSIGNED" → action ≠ "AFFILIATE_REBATE_APPLIED" →
  action ≠ "AFFILIATE_REBATE_SKIPPED" →
  (action = "SUBSCRIPTION_SUCCESS" → ∀ d, P d → assigned oid d) →
  sound P (markCompleted oid version action) (after P (λ _, completed oid)).
Proof.
  intros HP Hk Ha1 Ha2 Ha3 Ha4. unfold markCompleted.
  eapply sound_seq; [by apply sound_clock|]. intros t.
  eapply sound_seq; [apply (sound_update_order P oid _ _ (completed oid)); [done|stab|]|].
  - intros now d o1 o2 Hd E Hg [= <-]. unfold holds_lease in Hg.
    apply andb_true_iff in Hg as [Hst%bool_decide_eq_true _]. split_and!; [done| | |].
    + simpl. rewrite Hst. constructor.
    + intros _. right. destruct (Hk _ Hd) as [(o' & E' & Hs & _) Hf]. rewrite E in E'. injection E' as <-.
      unfold static in Hs. injection Hs as Hu Ha Hc Ht Hgr Hds. unfold fulfilled in *.
      by rewrite Ht, Hc.
    + eexists. simpl. by rewrite lookup_insert_eq.
  - intros [[]|e]; [| |by intros d [? _]].
    + eapply sound_seq.
      { instantiate (1 := λ _ d, P d ∧ completed oid d). unfold hasAuditLog.
        eapply sound_seq; [eapply sound_pre; [apply (sound_query (λ d, P d ∧ completed oid d) _ (λ _ _, True)); stab; done|]|].
        - intros d [? Hc]. auto.
        - by intros r d [? _]. }
      intros logged. eapply sound_seq.
      { instantiate (1 := λ _ d, P d ∧ completed oid d). destruct logged; [by intros d Hd|].
        apply sound_audit; [stab|done..|]. intros E d [Hd _]. by apply Ha4. }
      by intros [] d Hd.
    + eapply sound_seq; [eapply sound_pre; [apply (sound_get_order P); stab|by intros d [? _]]|].
      intros [[o1|]|]; [|by intros d [? _]..].
      destruct (decide _) as [Hst|]; [|by intros d [? _]]. intros d [Hd (o' & E & _ & Hc)].
      split; [done|]. exists o'. auto.
Qed.

Lemma sound_markFailed P oid version reason :
  stable G P → sound P (markFailed oid version reason) (λ _, P).
Proof.
  intros HP. unfold markFailed. eapply sound_seq; [by apply sound_clock|]. intros t.
  eapply sound_seq; [apply (sound_update_order P oid _ _ (λ _, True)); [done|stab|]|].
  - intros now d o1 o2 Hd E Hg [= <-]. unfold holds_lease in Hg.
    apply andb_true_iff in Hg as [Hst%bool_decide_eq_true _]. split_and!; [done| |done|done].
    simpl. rewrite Hst. constructor.
  - intros [[]|e]; [|by intros d [? _]..]. eapply sound_pre; [by apply sound_audit|by intros d [? _]].
Qed.

Lemma sound_lease P oid :
  stable G P →
  sound P (acquirePaymentFulfillmentLease oid)
    (after P (λ r d, match r with None => completed oid d | Some _ => True end)).
Proof.
  intros HP. unfold acquirePaymentFulfillmentLease. eapply sound_seq; [by apply sound_clock|].
  intros t. cbv zeta.
  eapply sound_seq; [apply (sound_update_order P oid _ _ (λ _, True)); [done|stab|]|].
  - intros now d o1 o2 Hd E Hg [= <-]. split_and!; [done| |done|done].
    simpl. unfold lease_available in Hg. apply step_lease. destruct (o_status o1); set_solver.
  - intros [[]|e]; [| |by intros d [? _]].
    + eapply sound_seq; [apply sound_get_order; stab|]. intros [[o1|]|]; [|by intros d [[? _] _]..].
      destruct (decide _); by intros d [[? _] _].
    + eapply sound_seq; [apply sound_get_order; stab|]. intros [[o1|]|]; [|by intros d [[? _] _]..].
      destruct (decide _); [|by intros d [[? _] _]]. intros d [[Hd _] (o' & E & _ & Hc)].
      split; [done|]. exists o'. auto.
Qed.

Lemma sound_rebate P oid o : stable G P → sound P (applyAffiliateRebateForOrder oid o) (λ _, P).
Proof.
  intros HP. unfold applyAffiliateRebateForOrder. destruct (_ ≤ᶠ _); [by intros d Hd|].
  eapply sound_seq; [apply (sound_commit P _ (λ _ _, True)); [done|stab|]|].
  - intros now d [] d' Hd. unfold rebate_tx. destruct (decide _) as [|Hno]; [intros [= <-]; split; [apply G_refl|done]|].
    unfold rbind. destruct (accrue _ _ _ _) as [rb|]; [|done]. intros Ed'. split; [|done].
    exists (EvRebate oid). split_and!;
      [destruct (_ ≤ᶠ _); injection Ed' as <-; intros; apply order_rel_refl
      |destruct (_ ≤ᶠ _); injection Ed' as <-; intros; apply code_rel_refl
      |destruct (_ ≤ᶠ _); injection Ed' as <-; simpl; set_solver
      |intros i; rewrite !assigned_iff; destruct (_ ≤ᶠ _); injection Ed' as <-; simpl; set_solver
      |intros i; unfold rebated; destruct (_ ≤ᶠ _); injection Ed' as <-; simpl; set_solver|].
    simpl. split_and!; [by destruct (_ ≤ᶠ _); injection Ed' as <-..|done|].
    unfold rebated. destruct (_ ≤ᶠ _); injection Ed' as <-; simpl; set_solver.
  - intros [r|e]; [by intros d [? _]|].
    eapply sound_seq; [eapply sound_pre; [by apply (sound_audit P)|by intros d [? _]]|]. by intros [] d Hd.
Qed.

(** ** Balance orders *)

Definition is_balance (o : Order) : Prop := String.eqb (o_order_type o) OrderTypeSubscription = false.

Lemma sound_finish_balance P oid o version :
  stable G P → is_balance o → (∀ d, P d → knows oid o d ∧ code_used (o_recharge_code o) d) →
  sound P (finish_balance oid o version) (after P (λ _, completed oid)).
Proof.
  intros HP Hb Hk. unfold finish_balance. eapply sound_seq; [by apply sound_rebate|].
  intros [[]|e]; [|by intros d Hd]. apply sound_markCompleted with o; try done.
  intros d Hd. destruct (Hk _ Hd) as [? ?]. split; [done|]. unfold fulfilled. by rewrite Hb.
Qed.

Lemma sound_redeem_and_finish P oid o version :
  stable G P → is_balance o → (∀ d, P d → knows oid o d ∧ owners_ok d) →
  sound P (redeem_and_finish oid o version) (after P (λ _, completed oid)).
Proof.
  intros HP Hb Hk. unfold redeem_and_finish.
  eapply sound_seq; [apply sound_Redeem; [done|]|].
  - intros d Hd. destruct (Hk _ Hd) as [(o' & E & Hs & _) Hown]. unfold static in Hs.
    injection Hs as Hu _ Hc _ _ _. rewrite <-Hu, <-Hc. by eapply Hown.
  - intros [[]|e]; [|by intros d [? _]].
    eapply sound_post; [apply sound_finish_balance; [stab|done|]|].
    + intros d [Hd Hu]. split; [by apply Hk|done].
    + by intros r d [[? _] ?].
Qed.

Lemma sound_doBalance P oid o version :
  stable G P → is_balance o → (∀ d, P d → knows oid o d ∧ owners_ok d) →
  sound P (doBalance oid o version) (after P (λ _, completed oid)).
Proof.
  intros HP Hb Hk. unfold doBalance.
  eapply sound_seq; [apply (sound_query P _ (λ m d, match m with
      | Some r => IsUsed r = true → code_used (o_recharge_code o) d | None => True end)); [done|stab|]|].
  { intros d Hd. destruct (codes d !! _) as [r|] eqn:E; [|done]. intros Hr%String.eqb_eq. by exists r. }
  assert (∀ m, sound (λ d, P d ∧ match m with Some b =>
      match b with Some r => IsUsed r = true → code_used (o_recharge_code o) d | None => True end
      | None => True end) (redeem_and_finish oid o version) (after P (λ _, completed oid))) as Hredeem.
  { intros m. eapply sound_pre; [by apply sound_redeem_and_finish|by intros d [? _]]. }
  assert (∀ m, sound (λ d, P d ∧ match m with Some b =>
      match b with Some r => IsUsed r = true → code_used (o_recharge_code o) d | None => True end
      | None => True end)
     (r <-p CreateCode (o_recharge_code o) (order_amount o);
      match r with Err e => Ret (Err e) | Ok _ => redeem_and_finish oid o version end)
     (after P (λ _, completed oid))) as Hcreate.
  { intros m. eapply sound_seq; [eapply sound_pre; [apply (sound_CreateCode P oid); [done|]|by intros d [? _]]|].
    - intros d Hd. by apply Hk.
    - intros [[]|e]; [by apply sound_redeem_and_finish|by intros d Hd]. }
  intros m. destruct (resolveRedeemAction m) eqn:Em; [apply Hcreate|apply Hredeem|].
  unfold resolveRedeemAction in Em. destruct m as [[r|]|]; [|done..].
  destruct (IsUsed r) eqn:Er; [|done].
  eapply sound_post; [apply sound_finish_balance; [|done|]|].
  - stab.
  - intros d [Hd Hu]. split; [by apply Hk|by apply Hu].
  - by intros a d [[? _] ?].
Qed.

(** ** Subscription orders *)

Lemma sound_invalidate P (Q : PayDB → Prop) :
  stable G P → stable G Q → (∀ d, P d → Q d) →
  sound P invalidateSubscriptionCaches (after P (λ _, Q)).
Proof.
  intros HP HQ HPQ. unfold invalidateSubscriptionCaches.
  eapply sound_seq; [apply (sound_query P _ (λ _ _, True)); stab; done|].
  intros [[]|] d [Hd _]; (split; [done|]); auto.
Qed.

Lemma sound_commit_assignment P oid uid gid ch :
  stable G P → sound P (commit_assignment oid uid gid ch) (after P (λ _, assigned oid)).
Proof.
  intros HP. unfold commit_assignment.
  eapply sound_seq; [apply (sound_commit P _ (λ _, assigned oid)); [done|stab|]|].
  - intros now d [] d' Hd. unfold assignment_tx, rbind.
    destruct (match ch with Some ch => apply_change uid gid ch d | None => Ok d end) as [d1|e] eqn:E1;
      [|done].
    destruct (decide _) as [|Hno]; [done|]. intros [= <-].
    assert (orders d1 = orders d ∧ codes d1 = codes d ∧ pusers d1 = pusers d ∧ audit d1 = audit d ∧
            rebates d1 = rebates d) as (Eo & Ec & Eu & Ea & Er).
    { destruct ch as [ch|]; [|by injection E1 as <-].
      by apply apply_change_inv in E1 as [f ->]. }
    rewrite Ea in Hno. assert (assigned oid (set_audit (λ a, {[(oid, "SUBSCRIPTION_ASSIGNED")]} ∪ a) d1))
      as Has by (apply assigned_iff; simpl; set_solver).
    split; [|done]. exists (EvAssign oid). unfold happens. setoid_rewrite assigned_iff. unfold rebated. simpl.
    rewrite Eo, Ec, Eu, Ea, Er. split_and!;
      [intros; apply order_rel_refl|intros; apply code_rel_refl|set_solver| |set_solver|done|done|done|set_solver].
    intros i Hi. destruct (decide (i = oid)) as [->|]; [by right|left]. set_solver.
  - intros [[]|e].
    + eapply sound_post; [apply sound_invalidate; [|apply assigned_stable|]|].
      * stab.
      * by intros d [_ ?].
      * by intros r d [[? _] ?].
    + destruct e; try (by intros d [? _]).
      eapply sound_seq; [eapply sound_pre;
        [apply (sound_query P _ (λ b d, b = true → assigned oid d)); [done|stab|by intros d _]
        |by intros d [? _]]|].
      intros [[]|]; cbn [from_option id]; [|by intros d [? _]..].
      eapply sound_post; [apply sound_invalidate; [|apply assigned_stable|]|].
      * stab.
      * intros d [_ Ha]. by apply Ha.
      * by intros r d [[? _] ?].
Qed.

Lemma sound_ensure P oid o gid days :
  stable G P → sound P (ensurePaymentSubscriptionAssigned oid o gid days) (after P (λ _, assigned oid)).
Proof.
  intros HP. unfold ensurePaymentSubscriptionAssigned.
  eapply sound_seq; [apply (sound_query P _ (λ b d, b = true → assigned oid d)); [done|stab|by intros d _]|].
  intros [[]|]; [| |by intros d [? _]].
  - eapply sound_post; [apply sound_invalidate; [|apply assigned_stable|]|].
    + stab.
    + intros d [_ Ha]. by apply Ha.
    + by intros r d [[? _] ?].
  - cbv zeta. eapply sound_seq; [eapply sound_pre; [apply (sound_query P _ (λ _ _, True)); [done|stab|done]
                                          |by intros d [? _]]|].
    intros [found|]; [|by intros d [? _]].
    eapply sound_pre; [|intros d [Hd _]; exact Hd].
    destruct (match found with Some _ => _ | None => false end); [by apply sound_commit_assignment|].
    eapply sound_seq; [by apply sound_assignOrExtend|]. intros [ch|e]; [|by intros d Hd].
    by apply sound_commit_assignment.
Qed.

Lemma sound_doSub P oid o gid days version :
  stable G P → ¬ is_balance o → (∀ d, P d → knows oid o d) →
  sound P (doSub oid o gid days version) (after P (λ _, completed oid)).
Proof.
  intros HP Hb Hk. unfold doSub.
  eapply sound_seq; [apply (sound_query P _ (λ _ _, True)); [done|stab|done]|].
  intros [[g|]|]; [|by intros d [? _]..]. eapply sound_pre; [|intros d [Hd _]; exact Hd].
  destruct (negb _); [by intros d Hd|].
  eapply sound_seq; [by apply sound_ensure|]. intros [[]|e]; [|by intros d [? _]].
  eapply sound_seq; [apply sound_rebate; stab|]. intros [[]|e]; [|by intros d [? _]].
  eapply sound_post; [apply (sound_markCompleted _ oid o); [stab| |done..|]|].
  - intros d [Hd Ha]. split; [by apply Hk|]. unfold fulfilled, is_balance in *.
    by destruct (String.eqb _ _).
  - by intros _ d [_ ?].
  - by intros r d [[? _] ?].
Qed.

(** ** Fulfillment *)

Lemma sound_with_lease P oid work :
  stable G P → (∀ v, sound P (work v) (after P (λ _, completed oid))) →
  sound P (with_lease oid work) (after P (λ _, completed oid)).
Proof.
  intros HP Hw. unfold with_lease. eapply sound_seq; [by apply sound_lease|].
  intros [[v|]|e]; [|by intros d Hd|by intros d [? _]].
  eapply sound_seq; [eapply sound_pre; [apply Hw|by intros d [? _]]|].
  intros [[]|e]; [by intros d Hd|].
  eapply sound_seq; [eapply sound_pre; [by apply sound_markFailed|by intros d [? _]]|].
  by intros [] d Hd.
Qed.

(** A condition that never holds. *)
Lemma sound_absurd {A} P (p : pay A) Q : (∀ d, ¬ P d) → sound P p Q.
Proof.
  revert P. induction p as [a|B f k IH]; intros P HP; simpl; [intros d Hd; by destruct (HP d)|].
  exists (λ _ _, False). split_and!; [intros o d Hd; by destruct (HP d)|by intros b d d' []|].
  intros b. apply IH. by intros d [].
Qed.

(** Two readings of an order agree on what does not change. *)
Lemma knows_static oid o o' d : knows oid o d → knows oid o' d → static o = static o'.
Proof. intros (x & E & Hs & _) (y & E' & Hs' & _). rewrite E in E'. congruence. Qed.

Lemma fulfill_guard_answer o answer :
  fulfill_guard o = Some answer → answer = Ok () → o_status o = Completed.
Proof. unfold fulfill_guard. by destruct (o_status o); intros [= <-]. Qed.

Lemma sound_answer P oid o answer :
  (∀ d, P d → knows oid o d) → fulfill_guard o = Some answer →
  sound P (Ret answer) (after P (λ _, completed oid)).
Proof.
  intros Hk Ha d Hd. split; [done|]. destruct answer as [[]|e]; [|done].
  destruct (Hk _ Hd) as (o' & E & _ & Hc). exists o'. split; [done|].
  by eapply Hc, fulfill_guard_answer.
Qed.

Lemma sound_ExecuteBalance P oid o0 :
  stable G P → is_balance o0 → (∀ d, P d → knows oid o0 d ∧ owners_ok d) →
  sound P (ExecuteBalanceFulfillment oid) (after P (λ _, completed oid)).
Proof.
  intros HP Hb Hk. unfold ExecuteBalanceFulfillment. eapply sound_seq; [by apply sound_get_order|].
  intros [[o|]|]; [|by intros d [? _]..].
  destruct (fulfill_guard o) as [answer|] eqn:Eg.
  { eapply sound_post; [eapply sound_answer; [|done]|].
    - intros d [_ Ho]. exact Ho.
    - by intros r d [[? _] ?]. }
  destruct (decide (static o = static o0)) as [Hs|Hs].
  2:{ apply sound_absurd. intros d [Hd Ho]. apply Hs. eapply knows_static; [done|by apply Hk]. }
  eapply sound_post; [apply sound_with_lease; [stab|]|].
  - intros v. apply sound_doBalance; [stab| |].
    + unfold is_balance in *. unfold static in Hs. by injection Hs as _ _ _ -> _ _.
    + intros d [Hd Ho]. split; [done|]. by apply Hk.
  - by intros r d [[? _] ?].
Qed.

Lemma sound_ExecuteSubscription P oid o0 :
  stable G P → ¬ is_balance o0 → (∀ d, P d → knows oid o0 d) →
  sound P (ExecuteSubscriptionFulfillment oid) (after P (λ _, completed oid)).
Proof.
  intros HP Hb Hk. unfold ExecuteSubscriptionFulfillment. eapply sound_seq; [by apply sound_get_order|].
  intros [[o|]|]; [|by intros d [? _]..].
  destruct (fulfill_guard o) as [answer|] eqn:Eg.
  { eapply sound_post; [eapply sound_answer; [|done]|].
    - intros d [_ Ho]. exact Ho.
    - by intros r d [[? _] ?]. }
  destruct (o_sub_group o) as [gid|]; [|by intros d [? _]].
  destruct (o_sub_days o) as [days|]; [|by intros d [? _]].
  destruct (decide (static o = static o0)) as [Hs|Hs].
  2:{ apply sound_absurd. intros d [Hd Ho]. apply Hs. eapply knows_static; [done|by apply Hk]. }
  eapply sound_post; [apply sound_with_lease; [stab|]|].
  - intros v. apply sound_doSub; [stab| |by intros d [_ Ho]].
    unfold is_balance in *. unfold static in Hs. by injection Hs as _ _ _ -> _ _.
  - by intros r d [[? _] ?].
Qed.

Lemma sound_execute P oid :
  stable G P → (∀ d, P d → owners_ok d) →
  sound P (executeFulfillment oid) (after P (λ _, completed oid)).
Proof.
  intros HP Hown. unfold executeFulfillment. eapply sound_seq; [by apply sound_get_order|].
  intros [[o|]|]; [|by intros d [? _]..].
  eapply (sound_post _ _ (after (λ d, P d ∧ knows oid o d) (λ _, completed oid)));
    [|by intros r d [[? _] ?]].
  destruct (String.eqb _ _) eqn:Et.
  - apply (sound_ExecuteSubscription _ oid o); [stab| |by intros d [_ ?]].
    unfold is_balance. by rewrite Et.
  - apply (sound_ExecuteBalance _ oid o); [stab|done|]. intros d [Hd Ho]. split; [done|by apply Hown].
Qed.

(** What the answers of a notification and of a retry promise. *)
Lemma sound_already P oid :
  stable G P → (∀ d, P d → owners_ok d) → sound P (alreadyProcessed oid) (λ _, P).
Proof.
  intros HP Hown. unfold alreadyProcessed. eapply sound_seq; [by apply sound_get_order|].
  intros [[o|]|]; [|by intros d [? _]..]. eapply sound_pre; [|intros d [Hd _]; exact Hd].
  assert (sound P (executeFulfillment oid) (λ _, P)) as Hex
    by (eapply sound_post; [by apply sound_execute|by intros r d [? _]]).
  destruct (o_status o); try done; try (by intros d Hd).
  eapply sound_seq; [by apply sound_audit|]. by intros [] d Hd.
Qed.

Lemma sound_toPaid P oid o tradeNo paid :
  stable G P → (∀ d, P d → owners_ok d) → sound P (toPaid oid o tradeNo paid) (λ _, P).
Proof.
  intros HP Hown. unfold toPaid. eapply sound_seq; [by apply sound_clock|]. intros t. cbv zeta.
  eapply sound_seq; [apply (sound_update_order P oid _ _ (λ _, True)); [done|stab|]|].
  - intros now d o1 o2 Hd E Hg. destruct (store _ _); [|done]. destruct (_ <? _); [done|].
    intros [= <-]. split_and!; [done| |done|done]. simpl. apply step_paid. unfold payable in Hg.
    destruct (o_status o1); set_solver.
  - intros [[]|e]; [| |by intros d [? _]]; (eapply sound_pre; [|intros d [Hd _]; exact Hd]).
    + apply (sound_seq P _ _ (λ _, P)).
      { destruct (decide _); [by apply sound_audit|by intros d Hd]. }
      intros []. eapply sound_seq; [by apply (sound_audit P)|]. intros [].
      eapply sound_post; [by apply sound_execute|by intros r d [? _]].
    + by apply sound_already.
Qed.

Lemma sound_confirm P oid tradeNo paid pk metadata :
  stable G P → (∀ d, P d → owners_ok d) →
  sound P (confirmPayment registry oid tradeNo paid pk metadata) (λ _, P).
Proof.
  intros HP Hown. unfold confirmPayment. eapply sound_seq; [by apply sound_get_order|].
  intros [[o|]|]; [|by intros d [? _]..]. eapply sound_pre; [|intros d [Hd _]; exact Hd].
  eapply sound_seq; [apply (sound_query P _ (λ _ _, True)); [done|stab|done]|].
  intros inst. eapply sound_pre; [|intros d [Hd _]; exact Hd].
  destruct (check_notification _ _ _ _ _ _) as [[]|e]; [by apply sound_toPaid|].
  eapply sound_seq; [by apply (sound_audit P); destruct e|]. by intros [] d Hd.
Qed.

Lemma sound_notify P n pk :
  stable G P → (∀ d, P d → owners_ok d) →
  sound P (HandlePaymentNotification registry n pk) (λ _, P).
Proof.
  intros HP Hown. unfold HandlePaymentNotification. destruct (negb _); [by intros d Hd|].
  eapply sound_seq; [apply (sound_query P _ (λ _ _, True)); [done|stab|done]|].
  intros found. eapply sound_pre; [|intros d [Hd _]; exact Hd].
  destruct found as [[oid|]|]; [by apply sound_confirm| |by intros d Hd].
  destruct (parseLegacyPaymentOrderID _); [by apply sound_confirm|by intros d Hd].
Qed.

Lemma sound_retry P oid :
  stable G P → (∀ d, P d → owners_ok d) →
  sound P (RetryFulfillment oid) (after P (λ _, completed oid)).
Proof.
  intros HP Hown. unfold RetryFulfillment. eapply sound_seq; [by apply sound_get_order|].
  intros [[o|]|]; [|by intros d [? _]..]. eapply sound_pre; [|intros d [Hd _]; exact Hd].
  destruct (negb _); [by intros d Hd|].
  assert (sound P (_ <-p writeAuditLog oid "RECHARGE_RETRY"; executeFulfillment oid)
    (after P (λ _, completed oid))) as Hgo.
  { eapply sound_seq; [by apply (sound_audit P)|]. intros []. by apply sound_execute. }
  destruct (o_status o); try done; by intros d Hd.
Qed.

(** ** Requests *)

Inductive Request :=
| ReqNotify (n : PaymentNotification) (pk : string)
| ReqRetry (oid : Z)
| ReqRedeem (uid : Z) (code : string).

Definition serve (r : Request) : pay (res FErr unit) :=
  match r with
  | ReqNotify n pk => HandlePaymentNotification registry n pk
  | ReqRetry oid => RetryFulfillment oid
  | ReqRedeem uid code => Redeem false uid code
  end.

Definition promise (r : Request) (a : res FErr unit) (d : PayDB) : Prop :=
  match r, a with
  | ReqRetry oid, Ok _ => completed oid d
  | ReqRedeem uid code, Ok _ => code_used code d
  | _, _ => True
  end.

Lemma promise_stable r a : stable G (promise r a).
Proof. destruct r, a; simpl; stab. Qed.

Definition may_redeem (r : Request) : Prop :=
  match r with ReqRedeem uid code => own code uid | _ => True end.

Lemma sound_serve r : may_redeem r → sound owners_ok (serve r) (promise r).
Proof.
  intros Hr. destruct r as [n pk|oid|uid code]; cbn [serve].
  - eapply sound_post; [by apply sound_notify; [apply owners_stable|]|done].
  - eapply sound_post; [by apply sound_retry; [apply owners_stable|]|].
    intros [[]|e] d [_ Hd]; done.
  - eapply sound_post; [by apply sound_Redeem; [apply owners_stable|]|].
    intros [[]|e] d [_ Hd]; done.
Qed.

Lemma run_sound reqs sched d0 :
  Forall may_redeem reqs → owners_ok d0 →
  let (d, ps) := run sched (d0, serve <$> reqs) in
  rtc G d0 d ∧
  ∀ i r a, reqs !! i = Some r → ps !! i = Some (Ret a) → promise r a d.
Proof.
  intros Hreqs Hown.
  pose (Q := λ i a d, match reqs !! i with Some r => promise r a d | None => True end).
  assert (∀ i p, (serve <$> reqs) !! i = Some p → ∃ P, stable G P ∧ P d0 ∧ sound P p (Q i)) as Hps.
  { intros i p (r & -> & Hi)%list_lookup_fmap_Some. exists owners_ok.
    split_and!; [apply owners_stable|done|]. eapply sound_post; [apply sound_serve|].
    - rewrite Forall_forall in Hreqs. by eapply Hreqs, list_elem_of_lookup_2.
    - intros a d Ha. unfold Q. by rewrite Hi. }
  pose proof (run_safe G Q sched d0 (serve <$> reqs) G_refl) as Hrun.
  destruct (run sched (d0, serve <$> reqs)) as [d ps]. destruct Hrun as [Hr Hend].
  - intros i a. unfold Q. destruct (reqs !! i); [apply promise_stable|apply stable_const].
  - exact Hps.
  - split; [done|]. intros i r a Hi Ha. destruct (Hend _ _ Ha) as (P & _ & HP & Hsafe).
    specialize (Hsafe _ HP). unfold Q in Hsafe. by rewrite Hi in Hsafe.
Qed.

(** ** The ledger of a run *)

Lemma code_used_rel d d' ev c :
  happens ev d d' → code_used c d' → code_used c d ∨ ∃ uid, ev = EvRedeem c uid ∧
    ¬ code_used c d ∧ ∃ r, codes d' !! c = Some r ∧ rc_Status r = StatusUsed ∧ rc_UsedBy r = Some uid.
Proof.
  intros (_ & Hc & _) (r' & E' & Hst'). specialize (Hc c). rewrite E' in Hc.
  destruct (codes d !! c) as [r|] eqn:E; simpl in Hc.
  - destruct Hc as [->|(uid & -> & Hun & Hu & Hby & _ & _)]; [left; by exists r|right].
    exists uid. split_and!; [done| |by exists r'].
    intros (r1 & E1 & Hst1). rewrite E in E1. injection E1 as <-. by rewrite Hun in Hst1.
  - destruct Hc as (Hst & _). by rewrite Hst in Hst'.
Qed.

(** What redeeming the codes of a list did to the users, the codes read in
    [rows]. *)
Definition credit (rows : gmap string RedeemCode) (m : gmap Z PayUser) (e : string * Z)
  : gmap Z PayUser :=
  match rows !! fst e, m !! snd e with
  | Some r, Some u =>
      if String.eqb (rc_Type r) RedeemTypeSubscription then m
      else match code_effect r u with Some u' => <[snd e := u']> m | None => m end
  | _, _ => m
  end.

(** [credits] lists the codes redeemed between [d0] and [d], each once, with
    the user credited; and nothing else changed a user. *)
Definition ledger (d0 d : PayDB) (credits : list (string * Z)) : Prop :=
  NoDup (fst <$> credits) ∧
  (∀ c uid, (c, uid) ∈ credits ↔
     ¬ code_used c d0 ∧
     ∃ r, codes d !! c = Some r ∧ rc_Status r = StatusUsed ∧ rc_UsedBy r = Some uid) ∧
  pusers d = foldl (credit (codes d)) (pusers d0) credits.

Lemma credit_ext rows rows' m credits :
  (∀ c uid, (c, uid) ∈ credits → ∃ r r', rows !! c = Some r ∧ rows' !! c = Some r' ∧
     rc_Type r' = rc_Type r ∧ rc_Value r' = rc_Value r) →
  foldl (credit rows') m credits = foldl (credit rows) m credits.
Proof.
  revert m. induction credits as [|[c uid] credits IH]; intros m Hrows; simpl; [done|].
  rewrite IH by (intros; apply Hrows with uid0; by right). f_equal. unfold credit. simpl.
  destruct (Hrows c uid ltac:(left)) as (r & r' & -> & -> & Ht & Hv). rewrite Ht.
  destruct (m !! uid) as [u|]; [|done]. by rewrite (code_effect_ext r).
Qed.

Lemma used_row_stays d d' ev c r :
  happens ev d d' → codes d !! c = Some r → rc_Status r = StatusUsed → codes d' !! c = Some r.
Proof.
  intros (_ & Hc & _) E Hst. specialize (Hc c). rewrite E in Hc.
  destruct (codes d' !! c) as [r'|]; [|done]. simpl in Hc.
  destruct Hc as [->|(uid & _ & Hun & _)]; [done|]. by rewrite Hst in Hun.
Qed.

Lemma ledger_step d0 d d' ev credits :
  ledger d0 d credits → (∀ c, code_used c d0 → code_used c d) → happens ev d d' →
  ∃ credits', ledger d0 d' credits'.
Proof.
  intros (Hnd & Hin & Hu) Hmono Hev.
  assert (∀ c uid, (c, uid) ∈ credits →
            ¬ code_used c d0 ∧ ∃ r, codes d' !! c = Some r ∧ rc_Status r = StatusUsed ∧ rc_UsedBy r = Some uid)
    as Hold.
  { intros c uid Hc. apply Hin in Hc as (Hn & r & E & Hst & Hby). split; [done|]. exists r.
    by rewrite (used_row_stays _ _ _ _ _ Hev E Hst). }
  assert (∀ m, foldl (credit (codes d')) m credits = foldl (credit (codes d)) m credits) as Hfold.
  { intros m. apply credit_ext. intros c uid Hc. apply Hin in Hc as (_ & r & E & Hst & _).
    exists r, r. by rewrite (used_row_stays _ _ _ _ _ Hev E Hst), E. }
  assert (∀ c uid, ¬ code_used c d0 →
            (∃ r, codes d' !! c = Some r ∧ rc_Status r = StatusUsed ∧ rc_UsedBy r = Some uid) →
            (c, uid) ∈ credits ∨ ev = EvRedeem c uid ∧ ¬ code_used c d) as Hnew.
  { intros c uid Hn (r & E & Hst & Hby).
    destruct (code_used_rel _ _ _ _ Hev (ex_intro _ r (conj E Hst))) as [(r1 & E1 & Hst1)|Hr].
    - left. apply Hin. split; [done|]. rewrite (used_row_stays _ _ _ _ _ Hev E1 Hst1) in E.
      injection E as <-. by exists r1.
    - right. destruct Hr as (uid' & -> & Hn' & r1 & E1 & _ & Hby1). rewrite E in E1. injection E1 as <-.
      rewrite Hby in Hby1. by injection Hby1 as ->. }
  assert ((∀ c uid, ev ≠ EvRedeem c uid) → pusers d' = pusers d → ledger d0 d' credits) as Hquiet.
  { intros Hne Heq. split_and!; [done| |by rewrite Hfold, Heq].
    intros c uid. split; [apply Hold|]. intros [Hn Hr].
    destruct (Hnew _ _ Hn Hr) as [|[-> _]]; [done|]. by destruct (Hne c uid). }
  destruct Hev as (Ho & Hc & Ha & Has & Hrb & He).
  destruct ev as [|c uid|oid|oid|]; simpl in He;
    [exists credits; apply Hquiet; [done|apply He]| |exists credits; apply Hquiet; [done|apply He]..].
  destruct He as (_ & _ & r & E & Hun & Hused & He).
  assert (¬ code_used c d) as Hnd'.
  { intros (r1 & E1 & Hst1). rewrite E in E1. injection E1 as <-. by rewrite Hun in Hst1. }
  assert (∃ r', codes d' !! c = Some r' ∧ rc_Status r' = StatusUsed ∧ rc_UsedBy r' = Some uid ∧
            rc_Type r' = rc_Type r ∧ rc_Value r' = rc_Value r) as (r' & E' & Hst' & Hby' & Ht' & Hv').
  { destruct Hused as (r' & E' & Hst'). exists r'. specialize (Hc c). rewrite E, E' in Hc. simpl in Hc.
    destruct Hc as [->|(uid' & [= <-] & _ & _ & Hby & Ht & Hv)]; [by rewrite Hun in Hst'|].
    by split_and!. }
  exists (credits ++ [(c, uid)]). split_and!.
  - rewrite fmap_app. apply NoDup_app. split_and!; [done| |apply NoDup_singleton].
    intros x Hx Heq%list_elem_of_singleton. apply list_elem_of_fmap in Hx as ([c1 uid1] & -> & Hx).
    simpl in Heq. subst c1.
    apply Hin in Hx as (_ & r1 & E1 & Hst1 & _). apply Hnd'. by exists r1.
  - intros c1 uid1. rewrite elem_of_app, list_elem_of_singleton. split.
    + intros [Hx|[= -> ->]]; [by apply Hold|]. split; [|by exists r'].
      intros Hused0. by apply Hnd', Hmono.
    + intros [Hn Hr]. destruct (Hnew _ _ Hn Hr) as [|[[= -> ->] _]]; [by left|by right].
  - rewrite foldl_app, Hfold, <-Hu. simpl. unfold credit. simpl. rewrite E', Ht'.
    destruct (String.eqb _ _); [by destruct (pusers d !! uid)|].
    destruct He as (_ & u & u' & Eu & Ee & ->). rewrite Eu.
    by rewrite (code_effect_ext r r' u Ht' Hv'), Ee.
Qed.

Lemma rtc_ledger d0 d : rtc G d0 d → ∃ credits, ledger d0 d credits.
Proof.
  assert (ledger d0 d0 []) as H0'.
  { split_and!; [constructor| |done]. intros c uid. split; [by intros ?%elem_of_nil|].
    intros (Hn & r & E & Hst & _). destruct Hn. by exists r. }
  intros Hr. cut ((∀ c, code_used c d0 → code_used c d) ∧ ∃ credits, ledger d0 d credits); [by intros [_ ?]|].
  revert d Hr. apply rtc_ind_r; [by eauto|]. intros d1 d2 Hr HG [Hmono [credits IH]]. split.
  - intros c Hc. eapply code_used_stable; [by apply Hmono|done].
  - destruct HG as [ev Hev]. by eapply ledger_step.
Qed.

(** A code of an order that did not exist at the start is worth the amount of
    the order. *)
Definition issued_for (d0 : PayDB) (c : string) (r : RedeemCode) : Prop :=
  rc_Type r = RedeemTypeBalance ∧
  ∃ oid o, orders d0 !! oid = Some o ∧ c = TrimSpace (o_recharge_code o) ∧
           store scale8 (num (order_amount o)) = Some (rc_Value r).

Lemma rtc_issued d0 d c r :
  rtc G d0 d → codes d0 !! c = None → codes d !! c = Some r → issued_for d0 c r.
Proof.
  intros Hr Hnone.
  cut ((∀ oid o, orders d !! oid = Some o → ∃ o0, orders d0 !! oid = Some o0 ∧ static o = static o0) ∧
       (∀ r, codes d !! c = Some r → issued_for d0 c r)); [intros [_ Hi]; apply Hi|].
  clear r. revert d Hr. apply rtc_ind_r; [split; [eauto|intros r E; by rewrite Hnone in E]|].
  intros d1 d2 _ (ev & Ho & Hc & _) [IHo IHc]. split.
  - intros oid o2 E2. specialize (Ho oid). rewrite E2 in Ho.
    destruct (orders d1 !! oid) as [o1|] eqn:E1; [|done]. destruct (IHo _ _ E1) as (o0 & E0 & Hs).
    exists o0. split; [done|]. destruct Ho as [Hs' _]. congruence.
  - intros r E2. specialize (Hc c). rewrite E2 in Hc. destruct (codes d1 !! c) as [r1|]; simpl in Hc.
    + destruct (IHc _ eq_refl) as [Ht (oid & o & Ev)].
      destruct Hc as [->|(uid & _ & _ & _ & _ & Ht' & Hv')]; [by split; eauto|].
      split; [congruence|]. exists oid, o. by rewrite Hv'.
    + destruct Hc as (_ & Ht & oid & o1 & E1 & -> & Hv). split; [done|].
      destruct (IHo _ _ E1) as (o0 & E0 & Hs). unfold static in Hs.
      injection Hs as _ Ha Hcode _ _ _. exists oid, o0. unfold order_amount in *.
      by rewrite <-Ha, <-Hcode.
Qed.

(** An order that became completed has been fulfilled. *)
Lemma rtc_completed d0 d oid o :
  rtc G d0 d → orders d0 !! oid = Some o → o_status o ≠ Completed → completed oid d →
  fulfilled oid o d.
Proof.
  intros Hr E Hne.
  cut (∃ o1, orders d !! oid = Some o1 ∧ static o1 = static o ∧
             (o_status o1 = Completed → fulfilled oid o d)).
  { intros (o1 & E1 & _ & Hf) (o2 & E2 & Hc). rewrite E1 in E2. injection E2 as <-. auto. }
  revert d Hr. apply rtc_ind_r; [by exists o|].
  intros d1 d2 _ HG (o1 & E1 & Hs & Hf).
  destruct (G_order _ _ _ _ HG E1) as (o2 & E2 & Hs2 & _ & Hc2). exists o2.
  split_and!; [done|congruence|]. intros Hc. destruct (Hc2 Hc) as [Hc1|Hf2].
  - eapply fulfilled_stable; [by apply Hf|done].
  - unfold static in Hs. injection Hs as _ _ Hcode Ht _ _. unfold fulfilled in *. by rewrite <-Ht, <-Hcode.
Qed.

(** The user recorded on a code that was redeemed may redeem it. *)
Lemma rtc_own d0 d c r uid :
  rtc G d0 d → ¬ code_used c d0 → codes d !! c = Some r → rc_Status r = StatusUsed →
  rc_UsedBy r = Some uid → own c uid.
Proof.
  intros Hr Hn. revert r. revert d Hr.
  apply (rtc_ind_r (λ d, ∀ r, codes d !! c = Some r → rc_Status r = StatusUsed →
                      rc_UsedBy r = Some uid → own c uid) d0).
  - intros r E Hst _. destruct Hn. by exists r.
  - intros d1 d2 _ (ev & Hev) IH r E Hst Hby.
    destruct (code_used_rel _ _ _ _ Hev (ex_intro _ r (conj E Hst))) as [(r1 & E1 & Hst1)|Hr].
    + rewrite (used_row_stays _ _ _ _ _ Hev E1 Hst1) in E. injection E as <-. by eapply IH.
    + destruct Hr as (uid' & -> & _ & r1 & E1 & _ & Hby1). rewrite E in E1. injection E1 as <-.
      rewrite Hby in Hby1. injection Hby1 as ->. destruct Hev as (_ & _ & _ & _ & _ & _ & Ho & _).
      exact Ho.
Qed.

(** The events of a run, in order. *)
Inductive trace (d0 : PayDB) : list Event → PayDB → Prop :=
| trace_nil : trace d0 [] d0
| trace_snoc evs d d' ev : trace d0 evs d → happens ev d d' → trace d0 (evs ++ [ev]) d'.

(** What an event uses up. *)
Definition once (ev : Event) : option (string + (Z + Z)) :=
  match ev with
  | EvRedeem code _ => Some (inl code)
  | EvAssign oid => Some (inr (inl oid))
  | EvRebate oid => Some (inr (inr oid))
  | _ => None
  end.
Definition used_up (k : string + (Z + Z)) (d : PayDB) : Prop :=
  match k with
  | inl code => code_used code d
  | inr (inl oid) => (oid, "SUBSCRIPTION_ASSIGNED") ∈ audit d
  | inr (inr oid) => rebated oid d
  end.

Lemma used_up_stable k : stable G (used_up k).
Proof.
  destruct k as [c|[oid|oid]]; [apply code_used_stable|apply audit_stable|apply rebated_stable].
Qed.

Lemma happens_once ev d d' k : happens ev d d' → once ev = Some k → ¬ used_up k d ∧ used_up k d'.
Proof.
  intros (_ & _ & _ & _ & _ & He) Hk. destruct ev; simplify_eq/=.
  - destruct He as (_ & _ & r & E & Hun & Hused & _). split; [|done].
    intros (r1 & E1 & Hst). rewrite E in E1. injection E1 as <-. by rewrite Hun in Hst.
  - by destruct He as (_ & _ & ? & ?).
  - by destruct He as (_ & _ & ? & ?).
Qed.

Lemma trace_once d0 evs d : trace d0 evs d → NoDup (omap once evs) ∧ Forall (λ k, used_up k d) (omap once evs).
Proof.
  induction 1 as [|evs d d' ev _ [Hnd Hall] Hev]; [split; [constructor|constructor]|].
  rewrite omap_app. simpl.
  assert (Forall (λ k, used_up k d') (omap once evs)) as Hall'.
  { eapply Forall_impl; [exact Hall|]. intros k Hk. eapply used_up_stable; [exact Hk|by exists ev]. }
  destruct (once ev) as [k|] eqn:Ek; [|by rewrite app_nil_r].
  destruct (happens_once _ _ _ _ Hev Ek) as [Hno Hyes]. split.
  - apply NoDup_app. split_and!; [done| |apply NoDup_singleton].
    intros x Hx ->%list_elem_of_singleton. rewrite Forall_forall in Hall. by apply Hno, Hall.
  - apply Forall_app. split; [done|]. by constructor.
Qed.

Lemma rtc_trace d0 d : rtc G d0 d → ∃ evs, trace d0 evs d.
Proof.
  revert d. apply (rtc_ind_r (λ d, ∃ evs, trace d0 evs d)); [exists []; constructor|].
  intros d1 d2 _ [ev Hev] [evs IH]. exists (evs ++ [ev]). by econstructor.
Qed.

End Props.

(** ** The guarantees *)

Section Guarantees.
Context `{GoText} `{PgFloat} `{Affiliate}.
Context (registry : string → string).

Definition anyone (c : string) (uid : Z) : Prop := True.

Lemma run_anyone reqs sched d0 :
  let (d, ps) := run sched (d0, serve registry <$> reqs) in
  rtc (G anyone) d0 d ∧
  ∀ i r a, reqs !! i = Some r → ps !! i = Some (Ret a) → promise r a d.
Proof. apply run_sound; [|done]. apply Forall_true. by intros []. Qed.

(** C28: money reaches balances only through codes, and each code pays once:
    whatever notifications, retries and redemptions run concurrently, whatever
    fails and whatever crashes, there is a list of the codes redeemed, each
    with the user it was redeemed by and each once, and the users' balances,
    recharge totals and concurrency limits are what crediting the codes of
    this list in order makes of the initial ones. *)
Theorem codes_credited_once reqs sched d0 :
  let d := fst (run sched (d0, serve registry <$> reqs)) in
  ∃ credits, ledger d0 d credits.
Proof.
  pose proof (run_anyone reqs sched d0) as Hrun.
  destruct (run sched (d0, serve registry <$> reqs)) as [d ps]. by eapply rtc_ledger, Hrun.
Qed.

(** Subscriptions and rebates are granted once: every run is a sequence of
    events in which a code is redeemed at most once, the subscription of an
    order is assigned at most once and the affiliate rebate of an order is
    accrued at most once; only such an event changes a subscription or, apart
    from a user's own redemption, the rebate ledger. *)
Theorem fulfillment_events_once reqs sched d0 :
  let d := fst (run sched (d0, serve registry <$> reqs)) in
  ∃ evs, trace anyone d0 evs d ∧ NoDup (omap once evs).
Proof.
  pose proof (run_anyone reqs sched d0) as Hrun.
  destruct (run sched (d0, serve registry <$> reqs)) as [d ps]. simpl.
  destruct (rtc_trace anyone d0 d (proj1 Hrun)) as [evs Htr]. exists evs. split; [done|].
  by destruct (trace_once _ _ _ _ Htr).
Qed.

(** C1: a balance order is completed only with its payment credited: if at the
    end of a run an order is completed that was not completed at the start and
    whose code did not exist then, its code has been credited in the run, to
    the order's user, and is worth the order's amount (provided no other order
    has the code and nobody else redeems it). *)
Theorem completed_order_is_credited reqs sched d0 oid o :
  let d := fst (run sched (d0, serve registry <$> reqs)) in
  orders d0 !! oid = Some o →
  is_balance o → o_status o ≠ Completed → codes d0 !! o_recharge_code o = None →
  (∀ oid' o', orders d0 !! oid' = Some o' →
     o_recharge_code o' = o_recharge_code o ∨ TrimSpace (o_recharge_code o') = o_recharge_code o →
     oid' = oid) →
  Forall (may_redeem (λ c uid, c = o_recharge_code o → uid = o_user o)) reqs →
  completed oid d →
  ∃ credits r,
    ledger d0 d credits ∧ (o_recharge_code o, o_user o) ∈ credits ∧
    codes d !! o_recharge_code o = Some r ∧ rc_Type r = RedeemTypeBalance ∧
    store scale8 (num (order_amount o)) = Some (rc_Value r).
Proof.
  intros d Eo Hb Hne Hnone Huniq Hreqs Hcomp.
  set (own := λ c uid, c = o_recharge_code o → uid = o_user o) in *.
  assert (owners_ok own d0) as Hown.
  { intros oid' o' E' Hc. rewrite (Huniq _ _ E' (or_introl Hc)) in E'. rewrite Eo in E'.
    by injection E' as <-. }
  pose proof (run_sound registry own reqs sched d0 Hreqs Hown) as Hrun.
  subst d. destruct (run sched (d0, serve registry <$> reqs)) as [d ps]. simpl in *.
  destruct Hrun as [Hr _]. destruct (rtc_ledger own _ _ Hr) as [credits Hl].
  pose proof (rtc_completed own _ _ _ _ Hr Eo Hne Hcomp) as Hf. unfold fulfilled in Hf.
  rewrite Hb in Hf. destruct Hf as (r & Er & Hst).
  destruct (rtc_issued own _ _ _ _ Hr Hnone Er) as (Ht & oid' & o' & E' & Hc & Hv).
  assert (oid' = oid) as -> by (eapply Huniq; eauto). rewrite Eo in E'. injection E' as <-.
  assert (¬ code_used (o_recharge_code o) d0) as Hnot.
  { intros (r0 & E0 & _). by rewrite Hnone in E0. }
  exists credits, r. split_and!; [done| |done..].
  assert (∃ uid, rc_UsedBy r = Some uid) as [uid Hby].
  { destruct (rtc_trace own _ _ Hr) as [evs Htr]. clear -Hnot Er Hst Htr. revert r Er Hst.
    induction Htr as [|evs d d' ev _ IH Hev]; intros r Er Hst; [destruct Hnot; by exists r|].
    destruct (code_used_rel _ _ _ _ _ Hev (ex_intro _ r (conj Er Hst))) as [(r1 & E1 & Hst1)|Hn].
    - rewrite (used_row_stays _ _ _ _ _ _ Hev E1 Hst1) in Er. injection Er as <-. by eapply IH.
    - destruct Hn as (uid & _ & _ & r1 & E1 & _ & Hby). rewrite Er in E1. injection E1 as <-. eauto. }
  assert (uid = o_user o) as <- by (by eapply (rtc_own own)).
  apply Hl. split; [done|]. by exists r.
Qed.

(** An administrator's retry that answers without error has completed the
    order, and a redemption that answers without error has used the code -
    also when other requests, failures and crashes interleave. *)
Theorem retry_answers_truly reqs sched d0 i r :
  let (d, ps) := run sched (d0, serve registry <$> reqs) in
  reqs !! i = Some r → ps !! i = Some (Ret (Ok ())) →
  match r with
  | ReqRetry oid => completed oid d
  | ReqRedeem _ code => code_used code d
  | ReqNotify _ _ => True
  end.
Proof.
  pose proof (run_anyone reqs sched d0) as Hrun.
  destruct (run sched (d0, serve registry <$> reqs)) as [d ps]. destruct Hrun as [_ Hrun].
  intros Hi Ha. specialize (Hrun _ _ _ Hi Ha). by destruct r.
Qed.

End Guarantees.

(** ** Concrete runs *)

Module PayDemo.

Definition exact_num (x : f64) : Q :=
  match x with
  | SpecFloat.S754_finite s m e =>
      let n := if s then Z.neg m else Z.pos m in
      if 0 <=? e then (n * 2 ^ e) # 1 else n # Z.to_pos (2 ^ (- e))
  | _ => 0%Q
  end.
#[local] Instance demo_text : GoText := ascii_text.
#[local] Instance demo_num : PgFloat :=
  {| num := exact_num; scan := λ q, fdiv (f_of_int (Qnum q)) (f_of_int (QDen q)) |}.
#[local] Instance demo_affiliate : Affiliate :=
  {| affiliate_enabled := false; accrue := λ _ _ _ _, Ok f0 |}.

Definition demo_order (user : Z) (code trade type : string) (st : OrderStatus) : Order :=
  {| o_user := user; o_amount := 1000; o_pay_amount := 1000; o_recharge_code := code;
     o_out_trade_no := trade; o_payment_type := "alipay"; o_trade_no := ""; o_order_type := type;
     o_sub_group := Some 3; o_sub_days := Some 30; o_provider_instance_id := None;
     o_provider_key := None; o_snapshot := ∅; o_status := st;
     o_paid_at := if decide (st = Pending) then None else Some 1; o_completed_at := None;
     o_failed_at := None; o_failed_reason := None; o_updated_at := 1 |}.
Definition demo_user : PayUser :=
  {| pu_balance := 0; pu_recharged := 0; pu_concurrency := 5; pu_deleted := false |}.
(** 2026-01-01 *)
Definition t0 : time := (62135596800 + 1767225600) * Second.
Definition demo_sub : Subscription :=
  {| sub_ID := 9; sub_StartsAt := 0; sub_ExpiresAt := AddDays t0 10; sub_Status := "active";
     sub_DailyWindowStart := None; sub_WeeklyWindowStart := None; sub_MonthlyWindowStart := None;
     sub_DailyUsage := 0; sub_WeeklyUsage := 0; sub_MonthlyUsage := 0; sub_Notes := "" |}.
Definition demo_db (os : list (Z * Order)) (errors : Z) : PayDB :=
  {| orders := list_to_map os; instances := ∅; codes := ∅; pusers := {[7 := demo_user]};
     pgroups := {[3 := {| g_status := "active"; g_subscription_type := true |}]};
     subs := {[(7, 3) := demo_sub]}; audit := ∅; rebates := [];
     attempts := {[7 := errors]}; locks := ∅; next_id := 100 |}.

Definition fine (i : nat) : nat * Oracle := (i, {| fate := Fine; o_now := t0 |}).
Definition steps (i n : nat) : list (nat * Oracle) := repeat (fine i) n.
Definition notify (trade : string) : Request :=
  ReqNotify {| n_Success := true; n_OrderID := trade; n_TradeNo := "T1"; n_Amount := f_of_int 10;
               n_Metadata := ∅ |} "alipay".
Abbreviation go reqs sched d := (run sched (d, serve (λ _, "") <$> reqs)).

Definition balance_order := demo_order 7 "PAY-1-5" "sub2_a" "balance" Pending.
Definition balance_db := demo_db [(1, balance_order)] 0.

(** Two notifications of one payment, interleaved: the user is credited once
    and the order completed. *)
Definition interleaved : list (nat * Oracle) :=
  mjoin (repeat [fine 0; fine 1] 12) ++ steps 0 40 ++ steps 1 40.
Example interleaved_run :
  let d := fst (go [notify "sub2_a"; notify "sub2_a"] interleaved balance_db) in
  pu_balance <$> pusers d !! 7 = Some (10 * 10 ^ 8) ∧
  o_status <$> orders d !! 1 = Some Completed.
Proof. vm_compute. split; reflexivity. Qed.

Lemma completed_order_is_credited_witness :
  let d := fst (go [notify "sub2_a"; notify "sub2_a"] interleaved balance_db) in
  ∃ credits r,
    ledger balance_db d credits ∧ ("PAY-1-5", 7) ∈ credits ∧
    codes d !! "PAY-1-5" = Some r ∧ rc_Type r = RedeemTypeBalance ∧
    store scale8 (num (order_amount balance_order)) = Some (rc_Value r).
Proof.
  apply (completed_order_is_credited (λ _, "") [notify "sub2_a"; notify "sub2_a"] interleaved
           balance_db 1 balance_order).
  - reflexivity.
  - reflexivity.
  - discriminate.
  - reflexivity.
  - intros oid o'. simpl. intros [[<- _]|[_ Hn]]%lookup_insert_Some; [done|by rewrite lookup_empty in Hn].
  - repeat constructor.
  - eexists. split; vm_compute; reflexivity.
Defined.

Lemma retry_answers_truly_witness :
  let d0 := demo_db [(1, demo_order 7 "PAY-1-5" "sub2_a" "balance" Failed)] 0 in
  completed 1 (fst (go [ReqRetry 1] (steps 0 60) d0)).
Proof.
  intros d0. pose proof (retry_answers_truly (λ _, "") [ReqRetry 1] (steps 0 60) d0 0 (ReqRetry 1)) as H.
  assert (snd (go [ReqRetry 1] (steps 0 60) d0) !! 0%nat = Some (Ret (Ok ()))) as Hr
    by (vm_compute; reflexivity).
  destruct (go [ReqRetry 1] (steps 0 60) d0) as [d ps]. exact (H eq_refl Hr).
Defined.

(** A notification is answered with success when the order cannot be read, and
    nothing is recorded: the provider will not repeat it. *)
Example notification_lost :
  run_alone (HandlePaymentNotification (λ _, "")
               {| n_Success := true; n_OrderID := "sub2_a"; n_TradeNo := "T1"; n_Amount := f_of_int 10;
                  n_Metadata := ∅ |} "alipay")
    [{| fate := Fine; o_now := t0 |}; {| fate := Fail; o_now := t0 |}] balance_db
  = (balance_db, Some (Ok ())).
Proof. vm_compute. reflexivity. Qed.

(** A user with twenty failed redemptions pays: the order fails, uncredited. *)
Example paid_but_rate_limited :
  let d := fst (go [notify "sub2_a"] (steps 0 80) (demo_db [(1, balance_order)] 20)) in
  pu_balance <$> pusers d !! 7 = Some 0 ∧ o_status <$> orders d !! 1 = Some Failed.
Proof. vm_compute. split; reflexivity. Qed.

(** Two paid orders for one subscription, each of 30 days: fulfilled one after
    the other they extend it by 60 days; when both read the subscription before
    either writes it, by 30, and both orders are completed. *)
Definition two_orders : PayDB :=
  demo_db [(1, demo_order 7 "PAY-1-5" "sub2_a" "subscription" Paid);
           (2, demo_order 7 "PAY-2-5" "sub2_b" "subscription" Paid)] 0.
Definition sub_days (d : PayDB) : option Z :=
  (λ s, (sub_ExpiresAt s - t0) / Day) <$> subs d !! (7, 3).
Definition done_orders (d : PayDB) : bool :=
  bool_decide (o_status <$> orders d !! 1 = Some Completed)
  && bool_decide (o_status <$> orders d !! 2 = Some Completed).

Example orders_in_turn :
  let d := fst (go [ReqRetry 1; ReqRetry 2] (steps 0 40 ++ steps 1 40) two_orders) in
  sub_days d = Some 70 ∧ done_orders d = true.
Proof. vm_compute. split; reflexivity. Qed.


Example orders_at_once :
  let d := fst (go [ReqRetry 1; ReqRetry 2] (steps 0 12 ++ steps 1 40 ++ steps 0 40) two_orders) in
  sub_days d = Some 40 ∧ done_orders d = true.
Proof. vm_compute. split; reflexivity. Qed.

End PayDemo.
