(* ===== verification/Refund.v ===== *)
(** * Refunds of payment orders

    [src/backend/internal/service/payment_refund.go]: the user's request, the
    plan and the execution of a refund by an administrator, and the query of a
    refund the provider has left pending; with the parts of
    [subscription_service.go] and [user_repo.go] they call.

    The tables are those of [Fulfillment.v], with the refund columns of an order,
    the detail of its [REFUND_PENDING] audit row (the index on order and action
    is unique, so there is one) and, beside them, the list of the refunds the
    provider was asked for.  Provider, provider configuration and the cache of
    active subscriptions are outside: what they answer is part of the oracle.
    Texts of warnings and failure reasons are left out. *)

From Stdlib Require Import ZArith Lia QArith Ascii String Bool.
From stdpp Require Import base numbers option list gmap strings pretty.
From S2P Require Import Prelude GoStrings GoFloat UsageDB PaymentOrder Proc Fulfillment.

#[local] Open Scope Z_scope.

(** ** The tables *)

Definition ProviderStatusPending : string := "pending".
Definition ProviderStatusPaid : string := "paid".
Definition ProviderStatusSuccess : string := "success".
Definition ProviderStatusFailed : string := "failed".
Definition ProviderStatusRefunded : string := "refunded".

Record RefundCols := {
  rf_Amount : Z;                   (* decimal(20,2) *)
  rf_Reason : option string;
  rf_At : option time;
  rf_Force : bool;
  rf_RequestedAt : option time;
  rf_RequestReason : option string;
  rf_RequestedBy : option string;
}.
Definition no_refund : RefundCols :=
  {| rf_Amount := 0; rf_Reason := None; rf_At := None; rf_Force := false; rf_RequestedAt := None;
     rf_RequestReason := None; rf_RequestedBy := None |}.

Record refundPendingAuditDetail := { RefundID : string; DeductionRollbackOK : bool }.

(** What [prov.Refund] and [prov.QueryRefund] return: a response, and an error
    or not. *)
Record GatewayAnswer := { ga_response : option (string * string); ga_error : bool }.
Record GatewayCall := { gc_order : Z; gc_amount : f64; gc_answer : GatewayAnswer }.

(** The columns [created_at] and [expires_at] of an order, which do not change. *)
Record OrderDates := { CreatedAt : time; ExpiresAt : time }.

Record PayWorld := {
  pays : PayDB;
  rcols : gmap Z RefundCols;
  pending_rows : gmap Z refundPendingAuditDetail;
  dates : gmap Z OrderDates;
  gateway : list GatewayCall;
}.

Definition created_at (oid : Z) (s : PayWorld) : time := default 0 (CreatedAt <$> dates s !! oid).

Definition set_pays (d : PayDB) (s : PayWorld) : PayWorld :=
  {| pays := d; rcols := rcols s; pending_rows := pending_rows s; dates := dates s;
     gateway := gateway s |}.
Definition set_rcols (m : gmap Z RefundCols) (s : PayWorld) : PayWorld :=
  {| pays := pays s; rcols := m; pending_rows := pending_rows s; dates := dates s;
     gateway := gateway s |}.

(** ** Actions *)

Record ROracle := {
  r_base : Oracle;
  r_active : option Z;
  r_provider : option (string * gmap string string);
  r_queryable : bool;
  r_gateway : GatewayAnswer;
  r_found : option (string * f64 * string * gmap string string);
}.

Inductive RErr :=
| RDB
| RNotFound
| RForbidden
| RInvalidOrderType
| RInvalidStatus
| RUserRefundDisabled
| RUser
| RBalanceNotEnough
| RConflict
| RProviderLookupFailed
| RRefundDisabled
| RInvalidAmount
| RAmountExceeded
| RDeduction
| RSubscription
| RWouldExpire
| RProvider
| RRefundFailed
| RQueryUnsupported
| RQueryFailed
| ROutTradeNo.

Abbreviation refund A := (proc PayWorld ROracle A).

(** A process of the payment tables, in this world. *)
Fixpoint lift {A} (p : pay A) : refund A :=
  match p with
  | Ret a => Ret a
  | Act f k => Act (λ o s, let (b, d) := f (r_base o) (pays s) in (b, set_pays d s)) (λ b, lift (k b))
  end.

Definition outside {B} (f : ROracle → B) : refund B := act (λ o s, (f o, s)).
Definition rquery {B} (f : PayWorld → B) : refund (option B) :=
  act (λ o s, match fate (r_base o) with Fine => (Some (f s), s) | _ => (None, s) end).
Definition rcommit {A} (f : time → PayWorld → res RErr (A * PayWorld)) : refund (res RErr A) :=
  act (λ o s, match fate (r_base o), f (o_now (r_base o)) s with
              | Fail, _ => (Err RDB, s)
              | _, Err e => (Err e, s)
              | Fine, Ok (a, s') => (Ok a, s')
              | Lost, Ok (_, s') => (Err RDB, s')
              end).

(** [UPDATE payment_orders SET ... WHERE id = oid AND guard]: whether a row was
    updated; [None] for a value that does not fit its column. *)
Definition refund_cols (oid : Z) (s : PayWorld) : RefundCols := default no_refund (rcols s !! oid).
Definition update_refund (oid : Z) (guard : Order → bool)
    (f : time → Order → RefundCols → option (Order * RefundCols)) : refund (res RErr bool) :=
  rcommit (λ now s,
    match orders (pays s) !! oid with
    | Some o =>
        if guard o then
          match f now o (refund_cols oid s) with
          | Some (o', c') => Ok (true, set_rcols (<[oid := c']> (rcols s))
                                         (set_pays (set_orders <[oid := o']> (pays s)) s))
          | None => Err RDB
          end
        else Ok (false, s)
    | None => Ok (false, s)
    end).
(** [UpdateOneID]: a row that is gone is an error. *)
Definition update_one (oid : Z) (f : time → Order → RefundCols → option (Order * RefundCols)) : refund (res RErr unit) :=
  r <-p update_refund oid (λ _, true) f;
  Ret (match r with Ok true => Ok () | Ok false => Err RNotFound | Err e => Err e end).
Definition set_status (st : OrderStatus) (now : time) (o : Order) (c : RefundCols) : option (Order * RefundCols) :=
  Some (with_status st now o, c).

Definition audit_log (oid : Z) (action : string) : refund unit := lift (writeAuditLog oid action).
(** The [REFUND_PENDING] row with its detail; like every audit row it is
    written once. *)
Definition audit_pending (oid : Z) (detail : refundPendingAuditDetail) : refund unit :=
  _ <-p rcommit (λ _ s,
    if decide ((oid, "REFUND_PENDING") ∈ audit (pays s)) then Err RDB
    else Ok ((), {| pays := set_audit (λ a, {[(oid, "REFUND_PENDING")]} ∪ a) (pays s);
                    rcols := rcols s; pending_rows := <[oid := detail]> (pending_rows s);
                    dates := dates s; gateway := gateway s |}));
  Ret ().
Definition find_order (oid : Z) : refund (option (option Order)) := lift (get_order oid).

(** ** Users and subscriptions *)

Definition GetUser (uid : Z) : refund (res RErr PayUser) :=
  u <-p rquery (λ s, pusers (pays s) !! uid);
  Ret (match u with
       | Some (Some u) => if pu_deleted u then Err RUser else Ok u
       | _ => Err RUser
       end).
Definition user_balance `{PgFloat} (u : PayUser) : f64 := scan (dec scale8 (pu_balance u)).

Section Refund.
Context `{GoText} `{PgFloat}.

Definition add_balance (amount : Q) (u : PayUser) : option PayUser :=
  b ← store scale8 (dec scale8 (pu_balance u) + amount)%Q;
  Some {| pu_balance := b; pu_recharged := pu_recharged u; pu_concurrency := pu_concurrency u;
          pu_deleted := pu_deleted u |}.
Definition update_user_row (uid : Z) (guard : PayUser → bool) (f : PayUser → option PayUser)
  : refund (res RErr bool) :=
  rcommit (λ _ s, match pusers (pays s) !! uid with
                  | Some u => if guard u
                              then match f u with
                                   | Some u' => Ok (true, set_pays (set_pusers <[uid := u']> (pays s)) s)
                                   | None => Err RDB
                                   end
                              else Ok (false, s)
                  | None => Ok (false, s)
                  end).

(** [userRepo.DeductBalance]: a balance that does not cover the amount goes
    below zero. *)
Definition DeductBalance (uid : Z) (amount : f64) : refund (res RErr unit) :=
  n <-p update_user_row uid (λ u, Qle_bool (num amount) (dec scale8 (pu_balance u))) (add_balance (- num amount));
  match n with
  | Err e => Ret (Err e)
  | Ok true => Ret (Ok ())
  | Ok false =>
      n <-p update_user_row uid (λ _, true) (add_balance (- num amount));
      Ret (match n with Err e => Err e | Ok true => Ok () | Ok false => Err RUser end)
  end.

(** [userRepo.UpdateBalance]: a positive amount counts as recharged. *)
Definition recharge (amount : f64) (u : PayUser) : option PayUser :=
  b ← store scale8 (dec scale8 (pu_balance u) + num amount)%Q;
  t ← (if f0 <ᶠ amount then store scale8 (dec scale8 (pu_recharged u) + num amount)%Q
       else Some (pu_recharged u));
  Some {| pu_balance := b; pu_recharged := t; pu_concurrency := pu_concurrency u;
          pu_deleted := pu_deleted u |}.
Definition UpdateBalance (uid : Z) (amount : f64) : refund (res RErr unit) :=
  n <-p update_user_row uid (λ _, true) (recharge amount);
  Ret (match n with Err e => Err e | Ok true => Ok () | Ok false => Err RUser end).

Definition sub_by_id (id : Z) (d : PayDB) : option ((Z * Z) * Subscription) :=
  List.find (λ e, sub_ID (snd e) =? id) (map_to_list (subs d)).
(** An update by id; a row deleted in between is updated unseen. *)
Definition update_sub (id : Z) (f : Subscription → Subscription) : refund (res RErr unit) :=
  rcommit (λ _ s, Ok ((), match sub_by_id id (pays s) with
                          | Some (k, sub) => set_pays (set_subs <[k := f sub]> (pays s)) s
                          | None => s
                          end)).
Definition with_expiry (t : time) (status : option string) (s : Subscription) : Subscription :=
  {| sub_ID := sub_ID s; sub_StartsAt := sub_StartsAt s; sub_ExpiresAt := t;
     sub_Status := default (sub_Status s) status; sub_DailyWindowStart := sub_DailyWindowStart s;
     sub_WeeklyWindowStart := sub_WeeklyWindowStart s; sub_MonthlyWindowStart := sub_MonthlyWindowStart s;
     sub_DailyUsage := sub_DailyUsage s; sub_WeeklyUsage := sub_WeeklyUsage s;
     sub_MonthlyUsage := sub_MonthlyUsage s; sub_Notes := sub_Notes s |}.

Definition get_sub (id : Z) : refund (res RErr Subscription) :=
  r <-p rquery (λ s, sub_by_id id (pays s));
  Ret (match r with Some (Some (_, sub)) => Ok sub | _ => Err RSubscription end).

Definition ExtendSubscription (id days : Z) : refund (res RErr unit) :=
  sub <-p get_sub id;
  match sub with
  | Err _ => Ret (Err RSubscription)
  | Ok sub =>
      let days := Z.max (- MaxValidityDays) (Z.min days MaxValidityDays) in
      now <-p lift clock;
      let isExpired := negb (time_After (sub_ExpiresAt sub) now) in
      if isExpired && (days <? 0) then Ret (Err RSubscription)
      else
        let newExpiresAt := cap_expiry (AddDays (if isExpired then now else sub_ExpiresAt sub) days) in
        if negb (time_After newExpiresAt now) then Ret (Err RWouldExpire)
        else
          extended <-p update_sub id (with_expiry newExpiresAt None);
          match extended with
          | Err e => Ret (Err e)
          | Ok _ =>
              activated <-p (if String.eqb (sub_Status sub) SubscriptionStatusExpired
                             then update_sub id (λ s, with_expiry (sub_ExpiresAt s) (Some SubscriptionStatusActive) s)
                             else Ret (Ok ()));
              match activated with
              | Err e => Ret (Err e)
              | Ok _ => again <-p get_sub id; Ret (match again with Err e => Err e | Ok _ => Ok () end)
              end
          end
  end.

Definition RevokeSubscription (id : Z) : refund (res RErr unit) :=
  sub <-p get_sub id;
  match sub with
  | Err e => Ret (Err e)
  | Ok _ =>
      gone <-p rcommit (λ _ s, Ok ((), match sub_by_id id (pays s) with
                                       | Some (k, _) => set_pays (set_subs (delete k) (pays s)) s
                                       | None => s
                                       end));
      match gone with
      | Err e => Ret (Err e)
      | Ok _ => r <-p lift invalidateSubscriptionCaches; Ret (match r with Ok _ => Ok () | Err _ => Err RSubscription end)
      end
  end.

(** ** The provider of an order *)

(** [getRefundOrderProviderInstance]: a refund is pinned to an instance the
    order names; [Err] for an error, [Ok None] for none. *)
Definition getRefundOrderProviderInstance (o : Order) : refund (res RErr (option ProviderInstance)) :=
  let lookup (f : gmap Z ProviderInstance → option ProviderInstance) :=
    inst <-p rquery (λ s, f (instances (pays s)));
    Ret (match inst with Some (Some i) => Ok (Some i) | _ => Err RProvider end) in
  match psOrderProviderSnapshot o with
  | Some snap => lookup (λ m, resolveSnapshotOrderProviderInstance m o snap)
  | None =>
      let id := TrimSpace (psStringValue (o_provider_instance_id o)) in
      if String.eqb id "" then Ret (Ok None)
      else match Atoi id with
           | Some n => lookup (λ m, m !! n)
           | None => Ret (Err RProvider)
           end
  end.

(** [getRefundProvider]: the key and the merchant identity of the provider. *)
Definition getRefundProvider (o : Order) : refund (res RErr (string * gmap string string)) :=
  inst <-p getRefundOrderProviderInstance o;
  match inst with
  | Err e => Ret (Err e)
  | Ok None => Ret (Err RProvider)
  | Ok (Some _) =>
      prov <-p outside r_provider;
      Ret (match prov with Some p => Ok p | None => Err RProvider end)
  end.

(** ** The user's request *)

Definition refund_requested (uid : Z) (amount : f64) (reason : string) (at_ : time) (now : time) (o : Order)
    (c : RefundCols) : option (Order * RefundCols) :=
  a ← store scale2 (num amount);
  Some (with_status RefundRequested now o,
        {| rf_Amount := a; rf_Reason := rf_Reason c; rf_At := rf_At c; rf_Force := rf_Force c;
           rf_RequestedAt := Some at_; rf_RequestReason := Some reason;
           rf_RequestedBy := Some (pretty uid) |}).

Definition validateRefundRequest (oid uid : Z) : refund (res RErr Order) :=
  r <-p find_order oid;
  match r with
  | Some (Some o) =>
      if negb (o_user o =? uid) then Ret (Err RForbidden)
      else if negb (String.eqb (o_order_type o) OrderTypeBalance) then Ret (Err RInvalidOrderType)
      else if negb (bool_decide (o_status o = Completed)) then Ret (Err RInvalidStatus)
      else
        inst <-p getRefundOrderProviderInstance o;
        Ret (match inst with
             | Ok (Some i) => if pi_AllowUserRefund i then Ok o else Err RUserRefundDisabled
             | _ => Err RUserRefundDisabled
             end)
  | _ => Ret (Err RNotFound)
  end.

Definition requestable (uid : Z) (o : Order) : bool :=
  (o_user o =? uid) && bool_decide (o_status o = Completed) && String.eqb (o_order_type o) OrderTypeBalance.
Definition RequestRefund (oid uid : Z) (reason : string) : refund (res RErr unit) :=
  v <-p validateRefundRequest oid uid;
  match v with
  | Err e => Ret (Err e)
  | Ok o =>
      u <-p GetUser (o_user o);
      match u with
      | Err e => Ret (Err e)
      | Ok u =>
          if user_balance u <ᶠ order_amount o then Ret (Err RBalanceNotEnough)
          else
            now <-p lift clock;
            c <-p update_refund oid (requestable uid) (refund_requested uid (order_amount o) (TrimSpace reason) now);
            match c with
            | Err e => Ret (Err e)
            | Ok false => Ret (Err RConflict)
            | Ok true => _ <-p audit_log oid "REFUND_REQUESTED"; Ret (Ok ())
            end
      end
  end.

(** ** The plan of a refund *)

Definition DeductionTypeBalance : string := "balance".
Definition DeductionTypeSubscription : string := "subscription".
Definition DeductionTypeNone : string := "none".

Record RefundPlan := {
  p_OrderID : Z;
  p_Order : Order;
  RefundAmount : f64;
  GatewayAmount : f64;
  Reason : string;
  Force : bool;
  DeductionType : string;
  BalanceToDeduct : f64;
  SubDaysToDeduct : Z;
  SubscriptionID : Z;
}.
Definition plan_balance (p : RefundPlan) (type : string) (x : f64) : RefundPlan :=
  {| p_OrderID := p_OrderID p; p_Order := p_Order p; RefundAmount := RefundAmount p;
     GatewayAmount := GatewayAmount p; Reason := Reason p; Force := Force p; DeductionType := type;
     BalanceToDeduct := x; SubDaysToDeduct := SubDaysToDeduct p; SubscriptionID := SubscriptionID p |}.
Definition plan_days (p : RefundPlan) (type : string) (days id : Z) : RefundPlan :=
  {| p_OrderID := p_OrderID p; p_Order := p_Order p; RefundAmount := RefundAmount p;
     GatewayAmount := GatewayAmount p; Reason := Reason p; Force := Force p; DeductionType := type;
     BalanceToDeduct := BalanceToDeduct p; SubDaysToDeduct := days; SubscriptionID := id |}.
Record RefundResult := { Success : bool; RequireForce : bool; BalanceDeducted : f64; SubDaysDeducted : Z }.
Definition warning (force : bool) : RefundResult :=
  {| Success := false; RequireForce := force; BalanceDeducted := f0; SubDaysDeducted := 0 |}.

(** [calculateGatewayRefundAmount]; its arithmetic on decimals is outside. *)
Context (decimal_round : f64 → Z → f64) (decimal_prorate : f64 → f64 → f64 → Z → f64).
Definition calculateGatewayRefundAmount (orderAmount payAmount refundAmount : f64) (currency : string) : f64 :=
  if (orderAmount ≤ᶠ f0) || (payAmount ≤ᶠ f0) || (refundAmount ≤ᶠ f0) then f0
  else
    let digits := CurrencyMaxFractionDigits currency in
    if fabs (refundAmount -ᶠ orderAmount) ≤ᶠ paymentAmountToleranceForCurrency currency
    then decimal_round payAmount digits
    else decimal_prorate payAmount refundAmount orderAmount digits.

Definition GetActiveSubscription : refund (option Z) := outside r_active.

(** [prepDeduct]: the plan, or the result it ends with. *)
Definition prepDeduct (o : Order) (p : RefundPlan) (force : bool) : refund (RefundPlan + RefundResult) :=
  if String.eqb (o_order_type o) OrderTypeSubscription then
    match o_sub_group o, o_sub_days o with
    | Some _, Some days =>
        sub <-p GetActiveSubscription;
        match sub with
        | Some id => Ret (inl (plan_days p DeductionTypeSubscription days id))
        | None => if force then Ret (inl (plan_days p DeductionTypeSubscription days (SubscriptionID p)))
                  else Ret (inr (warning true))
        end
    | _, _ => Ret (inl (plan_days p DeductionTypeSubscription (SubDaysToDeduct p) (SubscriptionID p)))
    end
  else
    u <-p GetUser (o_user o);
    match u with
    | Err _ => if force then Ret (inl p) else Ret (inr (warning true))
    | Ok u => Ret (inl (plan_balance p DeductionTypeBalance (fmin (RefundAmount p) (user_balance u))))
    end.

Definition refundable (o : Order) : bool :=
  match o_status o with Completed | RefundRequested | RefundPending | RefundFailed => true | _ => false end.

Definition PrepareRefund (oid : Z) (amt : f64) (reason : string) (force deduct : bool)
  : refund (res RErr (RefundPlan + RefundResult)) :=
  r <-p rquery (λ s, match orders (pays s) !! oid with Some o => Some (o, refund_cols oid s) | None => None end);
  match r with
  | Some (Some (o, c)) =>
      if negb (refundable o) then Ret (Err RInvalidStatus)
      else
        inst <-p getRefundOrderProviderInstance o;
        match inst with
        | Err _ => Ret (Err RProviderLookupFailed)
        | Ok None => Ret (Err RRefundDisabled)
        | Ok (Some i) =>
            if negb (pi_RefundEnabled i) then Ret (Err RRefundDisabled)
            else if f_is_nan amt || f_is_inf amt then Ret (Err RInvalidAmount)
            else
              let amt := if amt ≤ᶠ f0 then order_amount o else amt in
              let currency := PaymentOrderCurrency o in
              if paymentAmountToleranceForCurrency currency <ᶠ (amt -ᶠ order_amount o)
              then Ret (Err RAmountExceeded)
              else
                let ga := calculateGatewayRefundAmount (order_amount o) (scan (dec scale2 (o_pay_amount o))) amt currency in
                let rr := TrimSpace reason in
                let rr := if String.eqb rr "" then default rr (rf_RequestReason c) else rr in
                let rr := if String.eqb rr "" then "refund order:" +:+ pretty oid else rr in
                let p := {| p_OrderID := oid; p_Order := o; RefundAmount := amt; GatewayAmount := ga;
                            Reason := rr; Force := force; DeductionType := DeductionTypeNone;
                            BalanceToDeduct := f0; SubDaysToDeduct := 0; SubscriptionID := 0 |} in
                if deduct then plan <-p prepDeduct o p force; Ret (Ok plan) else Ret (Ok (inl p))
        end
  | _ => Ret (Err RNotFound)
  end.

(** ** Execution *)

Definition restoreStatus (p : RefundPlan) : refund unit :=
  _ <-p update_one (p_OrderID p)
          (set_status (if decide (o_status (p_Order p) = RefundRequested) then RefundRequested else Completed));
  Ret ().

Definition failed_refund (at_ : time) (now : time) (o : Order) (c : RefundCols) : option (Order * RefundCols) :=
  let o := with_status RefundFailed now o in
  Some ({| o_user := o_user o; o_amount := o_amount o; o_pay_amount := o_pay_amount o;
           o_recharge_code := o_recharge_code o; o_out_trade_no := o_out_trade_no o;
           o_payment_type := o_payment_type o; o_trade_no := o_trade_no o; o_order_type := o_order_type o;
           o_sub_group := o_sub_group o; o_sub_days := o_sub_days o;
           o_provider_instance_id := o_provider_instance_id o; o_provider_key := o_provider_key o;
           o_snapshot := o_snapshot o; o_status := o_status o; o_paid_at := o_paid_at o;
           o_completed_at := o_completed_at o; o_failed_at := Some at_; o_failed_reason := Some "error";
           o_updated_at := o_updated_at o |}, c).

(** [RollbackRefund]: whether what was deducted is back. *)
Definition RollbackRefund (p : RefundPlan) : refund bool :=
  back <-p (if String.eqb (DeductionType p) DeductionTypeBalance && (f0 <ᶠ BalanceToDeduct p)
            then r <-p UpdateBalance (o_user (p_Order p)) (BalanceToDeduct p);
                 match r with Ok _ => Ret true | Err _ => _ <-p audit_log (p_OrderID p) "REFUND_ROLLBACK_FAILED"; Ret false end
            else Ret true);
  if negb back then Ret false
  else if String.eqb (DeductionType p) DeductionTypeSubscription && (0 <? SubDaysToDeduct p) && (0 <? SubscriptionID p)
  then r <-p ExtendSubscription (SubscriptionID p) (SubDaysToDeduct p);
       match r with Ok _ => Ret true | Err _ => _ <-p audit_log (p_OrderID p) "REFUND_ROLLBACK_FAILED"; Ret false end
  else Ret true.

Definition handleGwFail (p : RefundPlan) : refund (res RErr RefundResult) :=
  back <-p RollbackRefund p;
  if back : bool then
    _ <-p restoreStatus p; _ <-p audit_log (p_OrderID p) "REFUND_GATEWAY_FAILED"; Ret (Ok (warning false))
  else
    now <-p lift clock;
    _ <-p update_one (p_OrderID p) (failed_refund now);
    _ <-p audit_log (p_OrderID p) "REFUND_FAILED";
    Ret (Err RRefundFailed).

Definition valid_response (resp : option (string * string)) : bool :=
  match resp with
  | None => false
  | Some (status, _) =>
      let status := TrimSpace status in
      String.eqb status ProviderStatusSuccess || String.eqb status ProviderStatusRefunded
      || String.eqb status ProviderStatusPending
  end.
Definition response_pending (resp : option (string * string)) : bool :=
  match resp with Some (status, _) => String.eqb (TrimSpace status) ProviderStatusPending | None => false end.
(** [validateRefundProviderResponse] *)
Definition validateRefundProviderResponse (resp : option (string * string)) : res RErr (string * string) :=
  match resp with
  | Some r => if valid_response resp then Ok r else Err RProvider
  | None => Err RProvider
  end.

Definition call_gateway (oid : Z) (amount : f64) : refund GatewayAnswer :=
  act (λ o s, (r_gateway o,
               {| pays := pays s; rcols := rcols s; pending_rows := pending_rows s; dates := dates s;
                  gateway := {| gc_order := oid; gc_amount := amount; gc_answer := r_gateway o |} :: gateway s |})).

(** What the code takes an answer for. *)
Definition read_answer (a : GatewayAnswer) : res RErr (string * string) :=
  if ga_error a then
    match ga_response a with
    | Some r => if response_pending (Some r) then Ok r else Err RProvider
    | None => Err RProvider
    end
  else validateRefundProviderResponse (ga_response a).

Definition gwRefund (p : RefundPlan) : refund (res RErr (string * string)) :=
  if String.eqb (o_trade_no (p_Order p)) "" then
    _ <-p audit_log (p_OrderID p) "REFUND_NO_TRADE_NO"; Ret (Ok (ProviderStatusSuccess, ""))
  else
    prov <-p getRefundProvider (p_Order p);
    match prov with
    | Err e => Ret (Err e)
    | Ok (key, metadata) =>
        match validateProviderSnapshotMetadata (p_Order p) key metadata with
        | Err _ => _ <-p audit_log (p_OrderID p) "REFUND_PROVIDER_METADATA_MISMATCH"; Ret (Err RProvider)
        | Ok _ => a <-p call_gateway (p_OrderID p) (GatewayAmount p); Ret (read_answer a)
        end
    end.

Definition refunded_cols (p : RefundPlan) (amount : Z) (at_ : option time) (c : RefundCols) : RefundCols :=
  {| rf_Amount := amount; rf_Reason := Some (Reason p); rf_At := at_; rf_Force := Force p;
     rf_RequestedAt := rf_RequestedAt c; rf_RequestReason := rf_RequestReason c;
     rf_RequestedBy := rf_RequestedBy c |}.
Definition refunded_status (p : RefundPlan) : OrderStatus :=
  if RefundAmount p <ᶠ order_amount (p_Order p) then PartiallyRefunded else Refunded.

Definition markRefundOk (p : RefundPlan) : refund (res RErr RefundResult) :=
  now <-p lift clock;
  r <-p update_one (p_OrderID p) (λ t o c,
          a ← store scale2 (num (RefundAmount p));
          Some (with_status (refunded_status p) t o, refunded_cols p a (Some now) c));
  match r with
  | Err e => Ret (Err e)
  | Ok _ =>
      _ <-p audit_log (p_OrderID p) "REFUND_SUCCESS";
      Ret (Ok {| Success := true; RequireForce := false; BalanceDeducted := BalanceToDeduct p;
                 SubDaysDeducted := SubDaysToDeduct p |})
  end.

Definition without_failure (o : Order) : Order :=
  {| o_user := o_user o; o_amount := o_amount o; o_pay_amount := o_pay_amount o;
     o_recharge_code := o_recharge_code o; o_out_trade_no := o_out_trade_no o;
     o_payment_type := o_payment_type o; o_trade_no := o_trade_no o; o_order_type := o_order_type o;
     o_sub_group := o_sub_group o; o_sub_days := o_sub_days o;
     o_provider_instance_id := o_provider_instance_id o; o_provider_key := o_provider_key o;
     o_snapshot := o_snapshot o; o_status := o_status o; o_paid_at := o_paid_at o;
     o_completed_at := o_completed_at o; o_failed_at := None; o_failed_reason := None;
     o_updated_at := o_updated_at o |}.
Definition markRefundPending (p : RefundPlan) (refundID : string) : refund (res RErr RefundResult) :=
  back <-p RollbackRefund p;
  r <-p update_one (p_OrderID p) (λ t o c,
          a ← store scale2 (num (RefundAmount p));
          Some (without_failure (with_status RefundPending t o), refunded_cols p a None c));
  match r with
  | Err e => Ret (Err e)
  | Ok _ =>
      _ <-p audit_pending (p_OrderID p) {| RefundID := TrimSpace refundID; DeductionRollbackOK := back |};
      Ret (Ok (warning false))
  end.

Definition finishRefund (p : RefundPlan) (resp : string * string) : refund (res RErr RefundResult) :=
  match validateRefundProviderResponse (Some resp) with
  | Err _ => handleGwFail p
  | Ok _ => if response_pending (Some resp) then markRefundPending p (snd resp) else markRefundOk p
  end.

(** The deduction of [ExecuteRefund]: the plan to go on with, or the error. *)
Definition deduct_balance (p : RefundPlan) : refund (res RErr RefundPlan) :=
  if String.eqb (DeductionType p) DeductionTypeBalance && (f0 <ᶠ BalanceToDeduct p) then
    before <-p lift (hasAuditLog (p_OrderID p) "REFUND_ROLLBACK_FAILED");
    if before then Ret (Ok (plan_balance p (DeductionType p) f0))
    else
      r <-p DeductBalance (o_user (p_Order p)) (BalanceToDeduct p);
      match r with
      | Err _ => _ <-p restoreStatus p; Ret (Err RDeduction)
      | Ok _ => Ret (Ok p)
      end
  else Ret (Ok p).
Definition deduct_days (p : RefundPlan) : refund (res RErr RefundPlan) :=
  if String.eqb (DeductionType p) DeductionTypeSubscription && (0 <? SubDaysToDeduct p) && (0 <? SubscriptionID p) then
    before <-p lift (hasAuditLog (p_OrderID p) "REFUND_ROLLBACK_FAILED");
    if before then Ret (Ok (plan_days p (DeductionType p) 0 (SubscriptionID p)))
    else
      r <-p ExtendSubscription (SubscriptionID p) (- SubDaysToDeduct p);
      match r with
      | Ok _ => Ret (Ok p)
      | Err RWouldExpire =>
          gone <-p RevokeSubscription (SubscriptionID p);
          match gone with
          | Err _ => _ <-p restoreStatus p; Ret (Err RDeduction)
          | Ok _ => Ret (Ok p)
          end
      | Err _ => _ <-p restoreStatus p; Ret (Err RDeduction)
      end
  else Ret (Ok p).

Definition ExecuteRefund (p : RefundPlan) : refund (res RErr RefundResult) :=
  c <-p update_refund (p_OrderID p) refundable (set_status Refunding);
  match c with
  | Err e => Ret (Err e)
  | Ok false => Ret (Err RConflict)
  | Ok true =>
      d <-p deduct_balance p;
      match d with
      | Err e => Ret (Err e)
      | Ok p =>
          d <-p deduct_days p;
          match d with
          | Err e => Ret (Err e)
          | Ok p =>
              resp <-p gwRefund p;
              match resp with
              | Err _ => handleGwFail p
              | Ok resp => finishRefund p resp
              end
          end
      end
  end.

(** [ProcessRefund] of the administrator's handler. *)
Definition ProcessRefund (oid : Z) (amt : f64) (reason : string) (force deduct : bool)
  : refund (res RErr RefundResult) :=
  plan <-p PrepareRefund oid amt reason force deduct;
  match plan with
  | Err e => Ret (Err e)
  | Ok (inr early) => Ret (Ok early)
  | Ok (inl p) => ExecuteRefund p
  end.

(** ** Refunds the provider has left pending *)

(** [latestRefundPendingDetail]: when the row cannot be read the rollback is
    taken to have succeeded. *)
Definition latestRefundPendingDetail (oid : Z) : refund refundPendingAuditDetail :=
  r <-p rquery (λ s, pending_rows s !! oid);
  Ret (match r with
       | Some (Some d) => {| RefundID := TrimSpace (RefundID d); DeductionRollbackOK := DeductionRollbackOK d |}
       | _ => {| RefundID := ""; DeductionRollbackOK := true |}
       end).

Definition finalizeRefundFailed (oid : Z) : refund (res RErr RefundResult) :=
  now <-p lift clock;
  _ <-p update_one oid (failed_refund now);
  _ <-p audit_log oid "REFUND_FAILED";
  Ret (Ok (warning false)).

Definition refundFinalizePlan (oid : Z) (o : Order) (c : RefundCols) : RefundPlan :=
  let refundAmount := scan (dec scale2 (rf_Amount c)) in
  let reason := TrimSpace (default "" (rf_Reason c)) in
  {| p_OrderID := oid; p_Order := o; RefundAmount := refundAmount;
     GatewayAmount := calculateGatewayRefundAmount (order_amount o) (scan (dec scale2 (o_pay_amount o)))
                        refundAmount (PaymentOrderCurrency o);
     Reason := if String.eqb reason "" then "refund order:" +:+ pretty oid else reason;
     Force := rf_Force c; DeductionType := DeductionTypeBalance;
     BalanceToDeduct := if String.eqb (o_order_type o) OrderTypeBalance then refundAmount else f0;
     SubDaysToDeduct := 0; SubscriptionID := 0 |}.

Definition applyRefundFinalDeduction (p : RefundPlan) : refund (res RErr RefundPlan) :=
  before <-p lift (hasAuditLog (p_OrderID p) "REFUND_SUCCESS");
  if before then Ret (Ok (plan_balance (plan_days p (DeductionType p) 0 (SubscriptionID p)) (DeductionType p) f0))
  else
    paid <-p (if String.eqb (DeductionType p) DeductionTypeBalance && (f0 <ᶠ BalanceToDeduct p)
              then DeductBalance (o_user (p_Order p)) (BalanceToDeduct p) else Ret (Ok ()));
    match paid with
    | Err _ => Ret (Err RDeduction)
    | Ok _ =>
        if String.eqb (DeductionType p) DeductionTypeSubscription && (0 <? SubDaysToDeduct p) && (0 <? SubscriptionID p)
        then
          r <-p ExtendSubscription (SubscriptionID p) (- SubDaysToDeduct p);
          match r with
          | Ok _ => Ret (Ok p)
          | Err RWouldExpire =>
              gone <-p RevokeSubscription (SubscriptionID p);
              Ret (match gone with Ok _ => Ok p | Err _ => Err RDeduction end)
          | Err _ => Ret (Err RDeduction)
          end
        else Ret (Ok p)
    end.

(** From the provider's answer on. *)
Definition finalize_answer (oid : Z) (o : Order) (c : RefundCols) (detail : refundPendingAuditDetail)
    (resp : string * string) : refund (res RErr RefundResult) :=
  let plan := refundFinalizePlan oid o c in
  prepared <-p (if negb (DeductionRollbackOK detail)
                then Ret (inl (plan_balance (plan_days plan (DeductionType plan) 0 (SubscriptionID plan))
                                 (DeductionType plan) f0))
                else if String.eqb (o_order_type o) OrderTypeSubscription then prepDeduct o plan true
                else Ret (inl plan));
  match prepared with
  | inr early => Ret (Ok early)
  | inl plan =>
      if response_pending (Some resp) then _ <-p audit_log oid "REFUND_QUERY_PENDING"; Ret (Ok (warning false))
      else
        deducted <-p applyRefundFinalDeduction plan;
        match deducted with
        | Err e => Ret (Err e)
        | Ok plan => markRefundOk plan
        end
  end.

Definition QueryAndFinalizeRefund (oid : Z) : refund (res RErr RefundResult) :=
  r <-p rquery (λ s, match orders (pays s) !! oid with Some o => Some (o, refund_cols oid s) | None => None end);
  match r with
  | Some (Some (o, c)) =>
      if negb (bool_decide (o_status o = RefundPending)) then Ret (Err RInvalidStatus)
      else
        prov <-p getRefundProvider o;
        match prov with
        | Err e => Ret (Err e)
        | Ok _ =>
            can <-p outside r_queryable;
            if negb can then Ret (Err RQueryUnsupported)
            else
              detail <-p latestRefundPendingDetail oid;
              a <-p outside r_gateway;
              if ga_error a then Ret (Err RQueryFailed)
              else match validateRefundProviderResponse (ga_response a) with
                   | Err _ => finalizeRefundFailed oid
                   | Ok resp => finalize_answer oid o c detail resp
                   end
        end
  | _ => Ret (Err RNotFound)
  end.
End Refund.
