(* ===== verification/OrderLifecycle.v ===== *)
(** * Cancellation, expiry and verification of payment orders

    [src/backend/internal/service/payment_order_lifecycle.go], in the world of
    [Refund.v]: an order is asked for at the provider before it is cancelled or
    expired, and a payment found there is handled like a notification.

    The provider (its key, and its answer to a query) is part of the oracle, as
    is whether the registry may stand in for an order that names no instance.
    Cancelling at the provider has no effect on the tables.  The rate limit on
    cancellations is not modelled: it counts audit rows by operator and time. *)

From Stdlib Require Import ZArith Lia QArith Ascii String Bool.
From stdpp Require Import base numbers option list gmap strings sorting.
From S2P Require Import Prelude GoStrings GoFloat UsageDB PaymentOrder Proc Fulfillment Refund.

#[local] Open Scope Z_scope.

Definition pendingWxpayReconcileLimit : nat := 20.

(** What a check of the provider found. *)
Inductive CheckPaidResult := NotPaid | AlreadyPaid.
Inductive CancelResult := CancelAlreadyPaid | CancelDone.

Section Lifecycle.
Context `{GoText} `{PgFloat} `{Affiliate}.
Context (registry : string → string).

(** ** The provider of an order *)

Definition paymentOrderAllowsRegistryFallback (o : Order) : bool :=
  match psOrderProviderSnapshot o with
  | Some _ => false
  | None => String.eqb (TrimSpace (psStringValue (o_provider_instance_id o))) ""
            && String.eqb (TrimSpace (psStringValue (o_provider_key o))) ""
  end.
Definition paymentOrderFallbackProviderKey (o : Order) : string :=
  let key := TrimSpace (registry (o_payment_type o)) in
  if negb (String.eqb key "") then key
  else TrimSpace (GetBasePaymentType (TrimSpace (o_payment_type o))).

(** [getOrderProvider]: the key of the provider; the registry is asked only for
    an order that names no provider. *)
Definition getOrderProvider (o : Order) : refund (option string) :=
  inst <-p rquery (λ s, getOrderProviderInstance (instances (pays s)) o);
  match inst with
  | None => Ret None
  | Some (Some _) => prov <-p outside r_provider; Ret (fst <$> prov)
  | Some None =>
      if negb (paymentOrderAllowsRegistryFallback o) then Ret None
      else if String.eqb (paymentOrderFallbackProviderKey o) "" then Ret None
      else prov <-p outside r_provider; Ret (fst <$> prov)
  end.

Definition first_non_empty (l : list string) : string :=
  default "" (List.find (λ s, negb (String.eqb s "")) l).
Definition paymentOrderQueryReference (o : Order) (prov : string) : string :=
  let providerKey := first_non_empty
    [TrimSpace prov; match psOrderProviderSnapshot o with Some snap => TrimSpace (snap_ProviderKey snap) | None => "" end;
     TrimSpace (psStringValue (o_provider_key o)); TrimSpace (o_payment_type o)] in
  let base := GetBasePaymentType providerKey in
  if String.eqb base TypeAlipay || String.eqb base TypeEasyPay || String.eqb base TypeWxpay
  then TrimSpace (o_out_trade_no o)
  else first_non_empty [TrimSpace (o_trade_no o); TrimSpace (o_out_trade_no o)].

Definition paymentOrderShouldPersistUpstreamTradeNo (queryRef upstreamTradeNo currentTradeNo : string) : bool :=
  let upstreamTradeNo := TrimSpace upstreamTradeNo in
  negb (String.eqb upstreamTradeNo "") && negb (EqualFold upstreamTradeNo (TrimSpace currentTradeNo))
  && negb (EqualFold upstreamTradeNo (TrimSpace queryRef)).

(** ** The check *)

(** An answer to a query: status, amount, trade number, metadata. *)
Definition answer_status (r : string * f64 * string * gmap string string) : string := fst (fst (fst r)).
Definition answer_amount (r : string * f64 * string * gmap string string) : f64 := snd (fst (fst r)).
Definition answer_trade (r : string * f64 * string * gmap string string) : string := snd (fst r).

Definition requeryPaidOrderOnce (queryRef : string) : refund (option (string * f64 * string * gmap string string)) :=
  if String.eqb (TrimSpace queryRef) "" then Ret None
  else
    resp <-p outside r_found;
    Ret (match resp with
         | Some r => if String.eqb (answer_status r) ProviderStatusPaid && isValidProviderAmount (answer_amount r)
                     then Some r else None
         | None => None
         end).

Definition set_trade_no (tradeNo : string) (now : time) (o : Order) (c : RefundCols) : option (Order * RefundCols) :=
  if 128 <? str_len tradeNo then None
  else
    let o := with_status (o_status o) now o in
    Some ({| o_user := o_user o; o_amount := o_amount o; o_pay_amount := o_pay_amount o;
             o_recharge_code := o_recharge_code o; o_out_trade_no := o_out_trade_no o;
             o_payment_type := o_payment_type o; o_trade_no := tradeNo; o_order_type := o_order_type o;
             o_sub_group := o_sub_group o; o_sub_days := o_sub_days o;
             o_provider_instance_id := o_provider_instance_id o; o_provider_key := o_provider_key o;
             o_snapshot := o_snapshot o; o_status := o_status o; o_paid_at := o_paid_at o;
             o_completed_at := o_completed_at o; o_failed_at := o_failed_at o;
             o_failed_reason := o_failed_reason o; o_updated_at := o_updated_at o |}, c).

(** A paid answer is handled like a notification; its outcome does not matter. *)
Definition handle_paid (oid : Z) (o : Order) (key queryRef : string)
    (resp : string * f64 * string * gmap string string) : refund CheckPaidResult :=
  let upstream := TrimSpace (answer_trade resp) in
  tradeNo <-p (if paymentOrderShouldPersistUpstreamTradeNo queryRef upstream (o_trade_no o)
               then _ <-p update_refund oid (λ _, true) (set_trade_no upstream); Ret upstream
               else Ret (o_trade_no o));
  _ <-p lift (HandlePaymentNotification registry
                {| n_Success := true; n_OrderID := o_out_trade_no o; n_TradeNo := tradeNo;
                   n_Amount := answer_amount resp; n_Metadata := snd resp |} key);
  Ret AlreadyPaid.

(** [checkPaidWithOptions]; closing the unpaid trade at the provider has no
    effect here. *)
Definition checkPaid (oid : Z) (o : Order) : refund CheckPaidResult :=
  prov <-p getOrderProvider o;
  match prov with
  | None => Ret NotPaid
  | Some key =>
      let queryRef := paymentOrderQueryReference o key in
      if String.eqb queryRef "" then Ret NotPaid
      else
        resp <-p outside r_found;
        match resp with
        | None => Ret NotPaid
        | Some resp =>
            if negb (String.eqb (answer_status resp) ProviderStatusPaid) then Ret NotPaid
            else if isValidProviderAmount (answer_amount resp) then handle_paid oid o key queryRef resp
            else
              _ <-p audit_log oid "PAYMENT_INVALID_AMOUNT";
              again <-p requeryPaidOrderOnce queryRef;
              match again with
              | None => Ret NotPaid
              | Some resp => handle_paid oid o key queryRef resp
              end
        end
  end.

(** ** Cancellation and expiry *)

Definition is_pending (o : Order) : bool := bool_decide (o_status o = Pending).

Definition cancelCore (oid : Z) (o : Order) (final : OrderStatus) : refund (res RErr CancelResult) :=
  checked <-p (if negb (String.eqb (o_trade_no o) "") || negb (String.eqb (o_payment_type o) "")
               then checkPaid oid o else Ret NotPaid);
  match checked with
  | AlreadyPaid => Ret (Ok CancelAlreadyPaid)
  | NotPaid =>
      c <-p update_refund oid is_pending (set_status final);
      match c with
      | Err e => Ret (Err e)
      | Ok hit =>
          _ <-p (if hit : bool
                 then audit_log oid (if decide (final = Expired) then "ORDER_EXPIRED" else "ORDER_CANCELLED")
                 else Ret ());
          Ret (Ok CancelDone)
      end
  end.

Definition CancelOrder (oid uid : Z) : refund (res RErr CancelResult) :=
  r <-p find_order oid;
  match r with
  | Some (Some o) =>
      if negb (o_user o =? uid) then Ret (Err RForbidden)
      else if negb (is_pending o) then Ret (Err RInvalidStatus)
      else cancelCore oid o Cancelled
  | _ => Ret (Err RNotFound)
  end.
Definition AdminCancelOrder (oid : Z) : refund (res RErr CancelResult) :=
  r <-p find_order oid;
  match r with
  | Some (Some o) => if negb (is_pending o) then Ret (Err RInvalidStatus) else cancelCore oid o Cancelled
  | _ => Ret (Err RNotFound)
  end.

Fixpoint expire_orders (l : list (Z * Order)) (n : Z) : refund Z :=
  match l with
  | [] => Ret n
  | (oid, o) :: l =>
      outcome <-p cancelCore oid o Expired;
      match outcome with
      | Ok CancelDone => expire_orders l (n + 1)
      | _ => expire_orders l n
      end
  end.
Definition expires_at (oid : Z) (s : PayWorld) : time := default 0 (ExpiresAt <$> dates s !! oid).
Definition ExpireTimedOutOrders : refund (res RErr Z) :=
  now <-p lift clock;
  l <-p rquery (λ s, List.filter (λ e, is_pending (snd e) && (expires_at (fst e) s <=? now))
                       (map_to_list (orders (pays s))));
  match l with
  | None => Ret (Err RDB)
  | Some l => n <-p expire_orders l 0; Ret (Ok n)
  end.

(** ** Verification *)

Definition trade_no_byte (c : ascii) : bool :=
  let b := byte_of c in
  ((97 <=? b) && (b <=? 122)) || ((65 <=? b) && (b <=? 90)) || ((48 <=? b) && (b <=? 57))
  || (b =? 95) || (b =? 45).
Definition normalizeOrderLookupOutTradeNo (raw : string) : res RErr string :=
  let outTradeNo := TrimSpace raw in
  if String.eqb outTradeNo "" then Err ROutTradeNo
  else if 64 <? str_len outTradeNo then Err ROutTradeNo
  else if str_forallb trade_no_byte outTradeNo then Ok outTradeNo
  else Err ROutTradeNo.

Definition order_by_trade_no (outTradeNo : string) (s : PayWorld) : option (Z * Order) :=
  List.find (λ e, String.eqb (o_out_trade_no (snd e)) outTradeNo) (map_to_list (orders (pays s))).

Definition VerifyOrderByOutTradeNo (outTradeNo : string) (uid : Z) : refund (res RErr Order) :=
  match normalizeOrderLookupOutTradeNo outTradeNo with
  | Err e => Ret (Err e)
  | Ok outTradeNo =>
      r <-p rquery (order_by_trade_no outTradeNo);
      match r with
      | Some (Some (oid, o)) =>
          if negb (o_user o =? uid) then Ret (Err RForbidden)
          else
            match o_status o with
            | Pending | Expired =>
                paid <-p checkPaid oid o;
                match paid with
                | AlreadyPaid =>
                    again <-p find_order oid;
                    Ret (match again with Some (Some o) => Ok o | _ => Err RDB end)
                | NotPaid => Ret (Ok o)
                end
            | _ => Ret (Ok o)
            end
      | _ => Ret (Err RNotFound)
      end
  end.

Definition VerifyOrderPublic (outTradeNo : string) : refund (res RErr Order) :=
  match normalizeOrderLookupOutTradeNo outTradeNo with
  | Err e => Ret (Err e)
  | Ok outTradeNo =>
      r <-p rquery (order_by_trade_no outTradeNo);
      Ret (match r with Some (Some (_, o)) => Ok o | _ => Err RNotFound end)
  end.

Definition wxpay_order (o : Order) : bool :=
  let wx s := String.eqb s TypeWxpay || HasPrefix s (TypeWxpay +:+ "_") in
  wx (o_payment_type o) || match o_provider_key o with Some k => wx k | None => false end.
Definition by_creation (a b : time * (Z * Order)) : Prop := fst a ≤ fst b.
#[local] Instance by_creation_dec : RelDecision by_creation.
Proof. intros a b. unfold by_creation. apply _. Defined.

Fixpoint reconcile_orders (l : list (Z * Order)) (recovered : Z) : refund Z :=
  match l with
  | [] => Ret recovered
  | (oid, o) :: l =>
      paid <-p checkPaid oid o;
      reconcile_orders l (match paid with AlreadyPaid => recovered + 1 | NotPaid => recovered end)
  end.
Definition ReconcilePendingWxpayOrders : refund (res RErr Z) :=
  now <-p lift clock;
  l <-p rquery (λ s,
    take pendingWxpayReconcileLimit (snd <$> merge_sort by_creation
      ((λ e, (created_at (fst e) s, e)) <$>
         List.filter (λ e, is_pending (snd e) && (now <? expires_at (fst e) s) && wxpay_order (snd e))
           (map_to_list (orders (pays s))))));
  match l with
  | None => Ret (Err RDB)
  | Some l => n <-p reconcile_orders l 0; Ret (Ok n)
  end.
End Lifecycle.
