(* ===== verification/RefundProps.v ===== *)
(** * Properties of refunds

    Whatever requests run at once (refunds of the administrator, requests of the
    user, cancellations, expiry, verification, reconciliation, notifications,
    retries, redemptions), at most one call of the provider to refund an order is
    answered as done, and the status of an order moves along the edges of its life
    cycle, one at a time.

    The status [Refunding] is the lock: the update that sets it is guarded, so
    one process at a time holds it for an order.  The ghost state is who. *)

From Stdlib Require Import ZArith Lia QArith Ascii String Bool.
From stdpp Require Import base numbers option list relations gmap strings pretty.
From S2P Require Import Prelude GoStrings GoFloat UsageDB PaymentOrder Proc ProcGhost.
From S2P Require Import Fulfillment FulfillmentProps Refund OrderLifecycle.

#[local] Open Scope Z_scope.
#[local] Set Warnings "-clear-no-such-hyp".

Create HintDb moves.
#[local] Hint Extern 2 (_ ∈ _) => set_solver : moves.

(** ** What happens to an order *)

(** The moves outside a refund: those of fulfillment, of cancellation and
    expiry, and the user's request. *)
Inductive guarded_step : OrderStatus → OrderStatus → Prop :=
| guarded_pay st st' : status_step st st' → guarded_step st st'
| guarded_end st : st ∈ [Cancelled; Expired] → guarded_step Pending st
| guarded_request : guarded_step Completed RefundRequested.

(** The time stamps an order has in a status. *)
Definition is_paid (st : OrderStatus) : bool :=
  match st with Pending | Cancelled | Expired => false | _ => true end.
Definition is_delivered (st : OrderStatus) : bool :=
  match st with Paid | Recharging | Failed => false | _ => is_paid st end.
Definition is_failed (st : OrderStatus) : bool :=
  match st with Failed | RefundFailed => true | _ => false end.
Definition order_wf (o : Order) : Prop :=
  (is_paid (o_status o) = true → is_Some (o_paid_at o)) ∧
  (is_delivered (o_status o) = true → is_Some (o_completed_at o)) ∧
  (is_failed (o_status o) = true → is_Some (o_failed_at o) ∧ is_Some (o_failed_reason o)).

(** A step of an order: its status, and what else holds of the row. *)
Definition order_step (E : OrderStatus → OrderStatus → Prop) (o o' : Order) : Prop :=
  E (o_status o) (o_status o') ∧ static o' = static o ∧ (order_wf o → order_wf o').
Definition row_step (E : OrderStatus → OrderStatus → Prop) (m m' : option Order) : Prop :=
  match m, m' with
  | Some o, Some o' => order_step E o o'
  | None, None => True
  | _, _ => False
  end.
Abbreviation guarded_order := (order_step guarded_step).
Abbreviation row_moves := (row_step guarded_step).
Definition pays_move (d d' : PayDB) : Prop := ∀ oid, row_moves (orders d !! oid) (orders d' !! oid).
Definition guarded_move (s s' : PayWorld) : Prop := pays_move (pays s) (pays s') ∧ gateway s' = gateway s.
(** Not even that. *)
Definition orders_kept (s s' : PayWorld) : Prop :=
  orders (pays s') = orders (pays s) ∧ gateway s' = gateway s.

(** The edges of an order's life cycle. *)
Inductive order_edge : OrderStatus → OrderStatus → Prop :=
| edge_guarded st st' : guarded_step st st' → order_edge st st'
| edge_claim st : st ∈ [Completed; RefundRequested; RefundPending; RefundFailed] → order_edge st Refunding
| edge_settle st :
    st ∈ [Completed; RefundRequested; RefundPending; RefundFailed; PartiallyRefunded; Refunded] →
    order_edge Refunding st.
Abbreviation row_edge := (row_step order_edge).

Lemma order_row_refl (E : OrderStatus → OrderStatus → Prop) m : (∀ st, E st st) → row_step E m m.
Proof. intros HE. by destruct m. Qed.
Lemma row_moves_refl m : row_moves m m.
Proof. apply order_row_refl. intros st. apply guarded_pay, step_same. Qed.
Lemma row_edge_refl m : row_edge m m.
Proof. apply order_row_refl. intros st. apply edge_guarded, guarded_pay, step_same. Qed.

(** For a row whose old and new status are known. *)
Ltac order_wf :=
  unfold order_wf; simpl; intros [Hpaid [Hdone Hfail]]; split_and!; intros ?;
  solve [discriminate | by eexists | by apply Hpaid | by apply Hdone | by apply Hfail | by split; eexists].
Ltac order_step Hs :=
  split_and!; [simpl; rewrite Hs; auto with moves | reflexivity | unfold order_wf; rewrite Hs; order_wf].
Lemma pays_move_same d d' : orders d' = orders d → pays_move d d'.
Proof. intros E oid. rewrite E. apply row_moves_refl. Qed.
Lemma pays_move_row d d' oid o o' :
  orders d !! oid = Some o → orders d' = <[oid := o']> (orders d) →
  guarded_order o o' → pays_move d d'.
Proof.
  intros Ho E Hst oid'. rewrite E. destruct (decide (oid = oid')) as [<-|Hne].
  - by rewrite lookup_insert_eq, Ho.
  - rewrite lookup_insert_ne by done. apply row_moves_refl.
Qed.
Lemma kept_guarded s s' : orders_kept s s' → guarded_move s s'.
Proof. intros [E Hg]. split; [by apply pays_move_same|done]. Qed.

#[local] Hint Constructors status_step guarded_step order_edge : moves.
#[local] Hint Extern 1 (pays_move _ _) => apply pays_move_same; done : moves.

(** ** Processes of fulfillment *)

Abbreviation pacts := (acts (O := Oracle) pays_move).

Lemma pacts_query {B} (f : PayDB → B) : pacts (query f).
Proof. apply acts_act. intros o d. simpl. destruct (fate o); by apply pays_move_same. Qed.
Lemma pacts_clock : pacts clock.
Proof. apply acts_act. intros o d. by apply pays_move_same. Qed.
Lemma pacts_commit {A} (f : time → PayDB → res FErr (A * PayDB)) :
  (∀ now d a d', f now d = Ok (a, d') → pays_move d d') → pacts (commit f).
Proof.
  intros Hf. apply acts_act. intros o d. simpl.
  destruct (fate o), (f (o_now o) d) as [[a d']|e] eqn:E; simpl; solve [eauto | by apply pays_move_same].
Qed.
Lemma pacts_update_order oid guard f :
  (∀ now o o', guard o = true → f now o = Ok o' → guarded_order o o') →
  pacts (update_order oid guard f).
Proof.
  intros Hf. apply pacts_commit. intros now d a d'.
  destruct (orders d !! oid) as [o|] eqn:Ho; [|by intros [= _ <-]; apply pays_move_same].
  destruct (guard o) eqn:Hg; [|by intros [= _ <-]; apply pays_move_same].
  destruct (f now o) as [o'|] eqn:Ef; simpl; [|done]. intros [= _ <-].
  eapply pays_move_row; [done|done|eauto].
Qed.

(** Through binds, branches and the actions with lemmas of their own. *)
Ltac pacts_step :=
  match goal with
  | |- acts _ (proc_bind _ _) => apply acts_bind
  | |- acts _ (Ret _) => exact I
  | |- acts _ (query _) => apply pacts_query
  | |- acts _ clock => apply pacts_clock
  | |- acts _ (match ?x with _ => _ end) => destruct x
  | |- ∀ _, acts _ _ => intros ?
  | |- acts _ _ => solve [eauto with moves]
  end.
Ltac pacts := repeat pacts_step.

(** A commit that leaves the orders alone. *)
Lemma pacts_commit_aside {A} (f : time → PayDB → res FErr (A * PayDB)) :
  (∀ now d a d', f now d = Ok (a, d') → orders d' = orders d) → pacts (commit f).
Proof. intros Hf. apply pacts_commit. intros now d a d' E. by eapply pays_move_same, Hf. Qed.
Lemma pacts_audit oid action : pacts (writeAuditLog oid action).
Proof.
  unfold writeAuditLog. apply acts_bind; [|done]. apply pacts_commit_aside.
  intros now d a d'. case_decide; [done|]. by intros [= _ <-].
Qed.
#[local] Hint Resolve pacts_audit : moves.

Lemma apply_change_orders uid gid ch d d' : apply_change uid gid ch d = Ok d' → orders d' = orders d.
Proof.
  unfold apply_change. destruct ch, (subs d !! (uid, gid)); try done;
    try destruct (_ =? _); try done; by intros [= <-].
Qed.
Lemma mark_used_orders code id uid now d d' : mark_used code id uid now d = Ok d' → orders d' = orders d.
Proof. unfold mark_used. destruct (codes d !! code); [|done]. destruct (_ && _); [|done]. by intros [= <-]. Qed.
Lemma update_puser_orders uid f d d' : update_puser uid f d = Ok d' → orders d' = orders d.
Proof. unfold update_puser. destruct (pusers d !! uid); [|done]. destruct (f _); [|done]. by intros [= <-]. Qed.

Section Fulfillments.
Context `{GoText} `{PgFloat} `{Affiliate}.
Context (registry : string → string).

Lemma pacts_assignOrExtend uid gid days notes : pacts (assignOrExtendSubscription uid gid days notes).
Proof. unfold assignOrExtendSubscription. pacts. Qed.
Lemma pacts_reduce uid gid days code : pacts (reduceOrCancelSubscription uid gid days code).
Proof. unfold reduceOrCancelSubscription. pacts. Qed.
#[local] Hint Resolve pacts_assignOrExtend pacts_reduce : moves.

Lemma pacts_redeem_commit {A} code id uid (now : time) (f : PayDB → res FErr PayDB) (x : A) :
  (∀ d d', f d = Ok d' → orders d' = orders d) →
  pacts (commit (λ now d, d1 <-? mark_used code id uid now d; d2 <-? f d1; Ok (x, d2))).
Proof.
  intros Hf. apply pacts_commit_aside. intros now' d a d'.
  destruct (mark_used code id uid now' d) as [d1|] eqn:E1; [|done]. simpl.
  destruct (f d1) as [d2|] eqn:E2; [|done]. simpl. intros [= _ <-].
  rewrite (Hf _ _ E2). by eapply mark_used_orders.
Qed.
Lemma pacts_redeem_tx uid code r : pacts (redeem_tx uid code r).
Proof.
  unfold redeem_tx, redeem_subscription. pacts;
    (apply pacts_redeem_commit; [exact 0|]); intros; eauto using apply_change_orders, update_puser_orders.
Qed.
Lemma pacts_user_rebate skip uid amount : pacts (tryAccrueAffiliateRebateForRedeem skip uid amount).
Proof.
  unfold tryAccrueAffiliateRebateForRedeem. destruct (_ || _); [done|]. apply acts_bind; [|done].
  apply pacts_commit_aside. intros now d a d'. destruct (accrue _ _ _ _); [|done].
  intros [= _ <-]. by destruct (_ <ᶠ _).
Qed.
Lemma pacts_Redeem skip uid code : pacts (Redeem skip uid code).
Proof.
  unfold Redeem, checkRedeemRateLimit, acquireRedeemLock, releaseRedeemLock, redeem_locked,
    incrementRedeemErrorCount.
  pose proof (pacts_redeem_tx uid code). pose proof (pacts_user_rebate skip uid).
  pacts; apply pacts_commit_aside; intros now d x d'; try (by intros [= _ <-]).
  destruct (match locks d !! code with Some _ => _ | None => _ end); by intros [= _ <-].
Qed.
Lemma pacts_CreateCode code value : pacts (CreateCode code value).
Proof.
  unfold CreateCode. pacts. apply pacts_commit_aside. intros now d x d'.
  destruct (_ <? _); [done|]. destruct (codes d !! _); [done|]. destruct (store _ _); [|done].
  by intros [= _ <-].
Qed.
Lemma pacts_rebate oid o : pacts (applyAffiliateRebateForOrder oid o).
Proof.
  unfold applyAffiliateRebateForOrder. pacts. apply pacts_commit_aside. intros now d x d'. unfold rebate_tx.
  case_decide; [by intros [= _ <-]|]. destruct (accrue _ _ _ _); [|done]. simpl.
  destruct (_ ≤ᶠ _); by intros [= _ <-].
Qed.
Lemma pacts_markCompleted oid version action : pacts (markCompleted oid version action).
Proof.
  unfold markCompleted, get_order, hasAuditLog. pacts. apply pacts_update_order.
  unfold holds_lease. intros t o o' [Hs _]%andb_true_iff [= <-]. apply bool_decide_eq_true in Hs.
  order_step Hs.
Qed.
Lemma pacts_markFailed oid version reason : pacts (markFailed oid version reason).
Proof.
  unfold markFailed. pacts. apply pacts_update_order.
  unfold holds_lease. intros t o o' [Hs _]%andb_true_iff [= <-]. apply bool_decide_eq_true in Hs.
  order_step Hs.
Qed.
Lemma pacts_lease oid : pacts (acquirePaymentFulfillmentLease oid).
Proof.
  unfold acquirePaymentFulfillmentLease, get_order. pacts. apply pacts_update_order.
  unfold lease_available. intros t o o' Hl [= <-]. destruct (o_status o) eqn:Hs; try done; order_step Hs.
Qed.
#[local] Hint Resolve pacts_Redeem pacts_CreateCode pacts_rebate pacts_markCompleted pacts_markFailed
  pacts_lease : moves.
Lemma pacts_doBalance oid o version : pacts (doBalance oid o version).
Proof. unfold doBalance, redeem_and_finish, finish_balance. pacts. Qed.
Lemma pacts_invalidate : pacts invalidateSubscriptionCaches.
Proof. unfold invalidateSubscriptionCaches. pacts. Qed.
#[local] Hint Resolve pacts_doBalance pacts_invalidate : moves.
Lemma pacts_commit_assignment oid uid gid ch : pacts (commit_assignment oid uid gid ch).
Proof.
  unfold commit_assignment. pacts. apply pacts_commit_aside. intros now d x d'. unfold assignment_tx.
  destruct ch as [ch|]; simpl; [destruct (apply_change uid gid ch d) as [d1|] eqn:E; [|done]; simpl|];
    (case_decide; [done|]); intros [= _ <-]; [exact (apply_change_orders _ _ _ _ _ E)|done].
Qed.
#[local] Hint Resolve pacts_commit_assignment : moves.
Lemma pacts_doSub oid o gid days version : pacts (doSub oid o gid days version).
Proof. unfold doSub, ensurePaymentSubscriptionAssigned. pacts. Qed.
#[local] Hint Resolve pacts_doSub : moves.
Lemma pacts_execute oid : pacts (executeFulfillment oid).
Proof.
  unfold executeFulfillment, ExecuteSubscriptionFulfillment, ExecuteBalanceFulfillment, with_lease,
    get_order. pacts.
Qed.
#[local] Hint Resolve pacts_execute : moves.
Lemma pacts_toPaid oid o tradeNo paid : pacts (toPaid oid o tradeNo paid).
Proof.
  unfold toPaid, alreadyProcessed, get_order. pacts. apply pacts_update_order.
  unfold payable. intros t cur o' Hs. destruct (store _ _); [|done]. destruct (_ <? _); [done|].
  intros [= <-]. destruct (o_status cur) eqn:Hs'; try done; order_step Hs'.
Qed.
#[local] Hint Resolve pacts_toPaid : moves.
Lemma pacts_notify n pk : pacts (HandlePaymentNotification registry n pk).
Proof. unfold HandlePaymentNotification, confirmPayment, get_order. pacts. Qed.
Lemma pacts_serve r : pacts (FulfillmentProps.serve registry r).
Proof.
  destruct r as [n pk|oid|uid code]; [apply pacts_notify| |apply pacts_Redeem].
  unfold FulfillmentProps.serve, RetryFulfillment, get_order. pacts.
Qed.
End Fulfillments.

(** ** Processes of the lifecycle and of refunds outside the lock *)

Abbreviation racts := (acts (O := ROracle) guarded_move).

Lemma racts_lift {A} (p : pay A) : pacts p → racts (lift p).
Proof.
  induction p as [a|B f k IH]; [done|]. intros [Hf Hp]. split; [|intros b; apply IH, Hp].
  intros o s. specialize (Hf (r_base o) (pays s)). destruct (f (r_base o) (pays s)) as [b d]. by split.
Qed.
Lemma guarded_refl s : guarded_move s s.
Proof. by apply kept_guarded. Qed.
Lemma racts_outside {B} (f : ROracle → B) : racts (outside f).
Proof. apply acts_act. intros o s. apply guarded_refl. Qed.
Lemma racts_query {B} (f : PayWorld → B) : racts (rquery f).
Proof. apply acts_act. intros o s. simpl. destruct (fate (r_base o)); apply guarded_refl. Qed.
Lemma racts_commit {A} (f : time → PayWorld → res RErr (A * PayWorld)) :
  (∀ now s a s', f now s = Ok (a, s') → guarded_move s s') → racts (rcommit f).
Proof.
  intros Hf. apply acts_act. intros o s. simpl.
  destruct (fate (r_base o)), (f (o_now (r_base o)) s) as [[a s']|e] eqn:E; simpl;
    solve [eauto | apply guarded_refl].
Qed.
Lemma racts_update oid guard f :
  (∀ now o c o' c', guard o = true → f now o c = Some (o', c') → guarded_order o o') →
  racts (update_refund oid guard f).
Proof.
  intros Hf. apply racts_commit. intros now s a s'.
  destruct (orders (pays s) !! oid) as [o|] eqn:Ho; [|intros [= _ <-]; apply guarded_refl].
  destruct (guard o) eqn:Hg; [|intros [= _ <-]; apply guarded_refl].
  destruct (f now o _) as [[o' c']|] eqn:Ef; [|done]. intros [= _ <-].
  split; [|done]. eapply pays_move_row; [exact Ho|done|eauto].
Qed.
(** Everything but orders and the calls of the gateway. *)
Lemma racts_aside {A} (f : time → PayWorld → res RErr (A * PayWorld)) :
  (∀ now s a s', f now s = Ok (a, s') → orders_kept s s') → racts (rcommit f).
Proof. intros Hf. apply racts_commit. eauto using kept_guarded. Qed.
Lemma racts_audit oid action : racts (audit_log oid action).
Proof. apply racts_lift, pacts_audit. Qed.
Lemma racts_find oid : racts (find_order oid).
Proof. apply racts_lift, pacts_query. Qed.
Lemma racts_clock : racts (lift clock).
Proof. apply racts_lift, pacts_clock. Qed.
Lemma racts_audit_pending oid detail : racts (audit_pending oid detail).
Proof.
  apply acts_bind; [|done]. apply racts_aside. intros now s a s'. case_decide; [done|]. by intros [= _ <-].
Qed.
Lemma racts_invalidate : racts (lift invalidateSubscriptionCaches).
Proof. apply racts_lift, pacts_invalidate. Qed.
Lemma racts_has_audit oid action : racts (lift (hasAuditLog oid action)).
Proof. apply racts_lift. unfold hasAuditLog. pacts. Qed.
#[local] Hint Resolve racts_audit racts_audit_pending racts_find racts_clock racts_invalidate
  racts_has_audit : moves.

Ltac racts_step :=
  match goal with
  | |- acts _ (proc_bind _ _) => apply acts_bind
  | |- acts _ (Ret _) => exact I
  | |- acts _ (rquery _) => apply racts_query
  | |- acts _ (outside _) => apply racts_outside
  | |- acts _ (match ?x with _ => _ end) => destruct x
  | |- ∀ _, acts _ _ => intros ?
  | |- acts _ _ => solve [eauto with moves]
  end.
Ltac racts := repeat racts_step.

Section World.
Context `{GoText} `{PgFloat} `{Affiliate}.
Context (registry : string → string).
Context (decimal_round : f64 → Z → f64) (decimal_prorate : f64 → f64 → f64 → Z → f64).

Lemma racts_user_row uid guard f : racts (update_user_row uid guard f).
Proof.
  apply racts_aside. intros now s a s'. destruct (pusers (pays s) !! uid) as [u|]; [|by intros [= _ <-]].
  destruct (guard u); [|by intros [= _ <-]]. destruct (f u); [|done]. by intros [= _ <-].
Qed.
Lemma racts_sub id f : racts (update_sub id f).
Proof.
  apply racts_aside. intros now s a s' [= _ <-]. by destruct (sub_by_id id (pays s)) as [[k sub]|].
Qed.
#[local] Hint Resolve racts_user_row racts_sub : moves.
Lemma racts_GetUser uid : racts (GetUser uid).
Proof. unfold GetUser. racts. Qed.
Lemma racts_get_sub id : racts (get_sub id).
Proof. unfold get_sub. racts. Qed.
Lemma racts_deduct uid x : racts (DeductBalance uid x).
Proof. unfold DeductBalance. racts. Qed.
Lemma racts_update_balance uid x : racts (UpdateBalance uid x).
Proof. unfold UpdateBalance. racts. Qed.
#[local] Hint Resolve racts_GetUser racts_get_sub racts_deduct racts_update_balance : moves.
Lemma racts_extend id days : racts (ExtendSubscription id days).
Proof. unfold ExtendSubscription. racts. Qed.
Lemma racts_revoke id : racts (RevokeSubscription id).
Proof.
  unfold RevokeSubscription. racts. apply racts_aside. intros now s x s' [= _ <-].
  by destruct (sub_by_id id (pays s)) as [[k sub]|].
Qed.
Lemma racts_instance o : racts (getRefundOrderProviderInstance o).
Proof. unfold getRefundOrderProviderInstance. racts. Qed.
#[local] Hint Resolve racts_extend racts_revoke racts_instance : moves.
Lemma racts_provider o : racts (getRefundProvider o).
Proof. unfold getRefundProvider. racts. Qed.
Lemma racts_rollback p : racts (RollbackRefund p).
Proof. unfold RollbackRefund. racts. Qed.
#[local] Hint Resolve racts_provider racts_rollback : moves.
Lemma racts_prepare oid amt reason force deduct :
  racts (PrepareRefund decimal_round decimal_prorate oid amt reason force deduct).
Proof. unfold PrepareRefund, prepDeduct, GetActiveSubscription. racts. Qed.
Lemma racts_request oid uid reason : racts (RequestRefund oid uid reason).
Proof.
  unfold RequestRefund, validateRefundRequest. racts. apply racts_update. unfold requestable.
  intros now o c o' c' [[_ Hs%bool_decide_eq_true]%andb_true_iff _]%andb_true_iff. unfold refund_requested.
  destruct (store _ _); [|done]. intros [= <- _]. order_step Hs.
Qed.
Lemma racts_checkPaid oid o : racts (checkPaid registry oid o).
Proof.
  unfold checkPaid, getOrderProvider, requeryPaidOrderOnce, handle_paid.
  pose proof (λ n pk, racts_lift _ (pacts_notify registry n pk)).
  racts; apply racts_update; intros now o1 c o2 c' _; unfold set_trade_no;
    (destruct (_ <? _); [done|]); intros [= <- _]; split_and!; simpl; auto with moves.
Qed.
#[local] Hint Resolve racts_checkPaid : moves.
Lemma racts_cancelCore oid o final : final ∈ [Cancelled; Expired] → racts (cancelCore registry oid o final).
Proof.
  intros Hf. assert (final = Cancelled ∨ final = Expired) as Hfinal by set_solver.
  unfold cancelCore. racts. apply racts_update. unfold is_pending, set_status.
  intros now o1 c o' c' Hs%bool_decide_eq_true [= <- _].
  destruct Hfinal as [-> | ->]; order_step Hs.
Qed.
Lemma racts_cancel oid uid : racts (CancelOrder registry oid uid).
Proof. unfold CancelOrder. racts. apply racts_cancelCore. set_solver. Qed.
Lemma racts_admin_cancel oid : racts (AdminCancelOrder registry oid).
Proof. unfold AdminCancelOrder. racts. apply racts_cancelCore. set_solver. Qed.
Lemma racts_expire : racts (ExpireTimedOutOrders registry).
Proof.
  unfold ExpireTimedOutOrders. racts. generalize 0. induction l as [|[oid o] l IH]; intros n; [done|].
  cbn [expire_orders]. apply acts_bind; [apply racts_cancelCore; set_solver|]. intros [[]|]; apply IH.
Qed.
Lemma racts_verify outTradeNo uid : racts (VerifyOrderByOutTradeNo registry outTradeNo uid).
Proof. unfold VerifyOrderByOutTradeNo. racts. Qed.
Lemma racts_verify_public outTradeNo : racts (VerifyOrderPublic outTradeNo).
Proof. unfold VerifyOrderPublic. racts. Qed.
Lemma racts_reconcile : racts (ReconcilePendingWxpayOrders registry).
Proof.
  unfold ReconcilePendingWxpayOrders. racts. generalize 0. induction l as [|[oid o] l IH]; intros n; [done|].
  cbn [reconcile_orders]. apply acts_bind; [apply racts_checkPaid|]. intros [|]; apply IH.
Qed.
End World.

(** ** The lock *)

(** The provider has made the refund. *)
Definition refund_made (a : GatewayAnswer) : bool :=
  negb (ga_error a) && valid_response (ga_response a) && negb (response_pending (ga_response a)).
Definition refunds_made (oid : Z) (s : PayWorld) : nat :=
  length (List.filter (λ c, (gc_order c =? oid) && refund_made (gc_answer c)) (gateway s)).

Definition status (oid : Z) (s : PayWorld) : option OrderStatus := o_status <$> orders (pays s) !! oid.
Definition refunding_or_done : list OrderStatus := [Refunding; PartiallyRefunded; Refunded].
(** No order refunded twice, and none that is refunded open to another refund. *)
Definition refunds_ok (s : PayWorld) : Prop :=
  ∀ oid, (refunds_made oid s ≤ 1)%nat ∧
         (refunds_made oid s = 1%nat → ∃ st, status oid s = Some st ∧ st ∈ refunding_or_done).

(** The ghost state is the process that refunds an order. *)
Abbreviation world := (PayWorld * gmap Z nat)%type.
Definition locked (w : world) : Prop := ∀ oid i, w.2 !! oid = Some i → status oid w.1 = Some Refunding.
Definition inv (w : world) : Prop := refunds_ok w.1 ∧ locked w.
Definition held (i : nat) (oid : Z) (w : world) : Prop := inv w ∧ w.2 !! oid = Some i.
Definition fresh (i : nat) (oid : Z) (w : world) : Prop := held i oid w ∧ refunds_made oid w.1 = 0%nat.

Definition untouched (oid : Z) (i : nat) (w w' : world) : Prop :=
  w.2 !! oid = Some i → w'.2 !! oid = Some i ∧ refunds_made oid w'.1 = refunds_made oid w.1.
(** A refund is asked for only while the order is being refunded, and not after
    one was made. *)
Definition asks (s s' : PayWorld) : Prop :=
  gateway s' = gateway s ∨
  ∃ c, gateway s' = c :: gateway s ∧
       status (gc_order c) s = Some Refunding ∧ refunds_made (gc_order c) s = 0%nat.
Definition RG (i : nat) (w w' : world) : Prop :=
  (inv w' ∧ asks w.1 w'.1) ∧ (∀ oid, row_edge (orders (pays w.1) !! oid) (orders (pays w'.1) !! oid)) ∧
  ∀ oid j, j ≠ i → untouched oid j w w'.
Definition RR (i : nat) (w w' : world) : Prop := inv w' ∧ ∀ oid, untouched oid i w w'.

Lemma RG_RR i j w w' : i ≠ j → RG i w w' → RR j w w'.
Proof. intros Hne ([Hi _] & _ & Hu). split; [done|]. intros oid. by apply Hu. Qed.
Lemma inv_stable i : gstable (RR i) inv.
Proof. by intros w w' _ []. Qed.
Lemma held_stable i oid : gstable (RR i) (held i oid).
Proof. intros w w' [_ Ho] [Hi Hu]. split; [done|]. by apply Hu. Qed.
Lemma fresh_stable i oid : gstable (RR i) (fresh i oid).
Proof.
  intros w w' [Hh Hz] Hr. split; [by eapply held_stable|]. destruct Hh as [_ Ho], Hr as [_ Hu].
  destruct (Hu oid Ho) as [_ ->]. done.
Qed.

(** The guarded moves do not touch what is refunded or being refunded. *)
Lemma guarded_closed st st' : guarded_step st st' → st ∈ refunding_or_done → st' = st.
Proof. intros Hs Hc. destruct Hs as [st st' Hs|st Hs|]; [destruct Hs; set_solver|set_solver..]. Qed.
Lemma guarded_status s s' oid st :
  guarded_move s s' → st ∈ refunding_or_done → status oid s = Some st → status oid s' = Some st.
Proof.
  intros [Hm _] Hst. unfold status. specialize (Hm oid).
  destruct (orders (pays s) !! oid) as [o|]; [|done].
  destruct (orders (pays s') !! oid) as [o'|]; [|done]. simpl in *. intros [= <-].
  by rewrite (guarded_closed _ _ (proj1 Hm) Hst).
Qed.
Lemma guarded_made s s' oid : guarded_move s s' → refunds_made oid s' = refunds_made oid s.
Proof. intros [_ E]. unfold refunds_made. by rewrite E. Qed.

Lemma guarded_inv s s' γ : guarded_move s s' → inv (s, γ) → inv (s', γ).
Proof.
  intros Hm [Hr Hl]. split.
  - intros oid. simpl. rewrite (guarded_made _ _ _ Hm). destruct (Hr oid) as [Hle Hone]. split; [done|].
    intros (st & Hst & Hin)%Hone. exists st. split; [by eapply guarded_status|done].
  - intros oid i Ho. eapply guarded_status; [done|set_solver|]. by apply (Hl oid i).
Qed.
Lemma guarded_RG i s s' γ : guarded_move s s' → inv (s, γ) → RG i (s, γ) (s', γ).
Proof.
  intros Hm Hi. split; [split; [by eapply guarded_inv|left; apply Hm]|split].
  - intros oid. simpl. pose proof (proj1 Hm oid) as Ho.
    destruct (orders (pays s) !! oid), (orders (pays s') !! oid); simpl in *; try done.
    destruct Ho as (He & Hs & Hw). split_and!; auto using edge_guarded.
  - intros oid j _ Ho. split; [done|]. by apply guarded_made.
Qed.

Abbreviation rsafe i := (gsafe (λ _ : ROracle, True) (RR i) (RG i)).

(** A condition the guarded moves of this process keep as well. *)
Definition kept_cond (i : nat) (P : world → Prop) : Prop :=
  gstable (RR i) P ∧ (∀ w, P w → inv w) ∧ ∀ s s' γ, guarded_move s s' → P (s, γ) → P (s', γ).

Lemma kept_inv i : kept_cond i inv.
Proof. split_and!; [apply inv_stable|done|eauto using guarded_inv]. Qed.
Lemma kept_held i oid : kept_cond i (held i oid).
Proof.
  split_and!; [apply held_stable|by intros w []|]. intros s s' γ Hm [Hi Ho].
  split; [by eapply guarded_inv|done].
Qed.
Lemma kept_fresh i oid : kept_cond i (fresh i oid).
Proof.
  split_and!; [apply fresh_stable|by intros w [[]]|]. intros s s' γ Hm [Hh Hz].
  split; [by eapply kept_held|]. simpl. by rewrite (guarded_made _ _ _ Hm).
Qed.

Lemma rsafe_acts {A} i P (p : refund A) : kept_cond i P → racts p → rsafe i P p (λ _, P).
Proof.
  intros (Hst & Hinv & Hk). induction p as [a|B f k IH]; [by intros _ w|].
  intros [Hf Hp]. exists (λ _, P). split_and!; [|done|intros b; apply IH, Hp].
  intros o s γ _ HP. exists γ. split; [apply guarded_RG; eauto|eauto].
Qed.

(** ** Taking and giving up the lock *)

Definition with_row (oid : Z) (o : Order) (c : RefundCols) (s : PayWorld) : PayWorld :=
  set_rcols (<[oid := c]> (rcols s)) (set_pays (set_orders <[oid := o]> (pays s)) s).

Lemma status_with_row oid oid' o c s :
  status oid' (with_row oid o c s) = if decide (oid = oid') then Some (o_status o) else status oid' s.
Proof.
  unfold status, with_row. simpl. case_decide as Hne; [subst; by rewrite lookup_insert_eq|].
  by rewrite lookup_insert_ne.
Qed.
Lemma edge_with_row oid o o' c s :
  orders (pays s) !! oid = Some o → order_step order_edge o o' →
  ∀ oid', row_edge (orders (pays s) !! oid') (orders (pays (with_row oid o' c s)) !! oid').
Proof.
  intros Ho He oid'. simpl. destruct (decide (oid = oid')) as [<-|Hne].
  - by rewrite lookup_insert_eq, Ho.
  - rewrite lookup_insert_ne by done. apply row_edge_refl.
Qed.

Lemma claim_row i oid o o' c s γ :
  inv (s, γ) → orders (pays s) !! oid = Some o → refundable o = true → o_status o' = Refunding →
  order_step order_edge o o' →
  RG i (s, γ) (with_row oid o' c s, <[oid := i]> γ) ∧ fresh i oid (with_row oid o' c s, <[oid := i]> γ).
Proof.
  intros [Hr Hl] Ho Hg Hs Hstep.
  assert (o_status o ∉ refunding_or_done) as Hopen by (unfold refundable in Hg; destruct (o_status o); set_solver).
  assert (∀ j, γ !! oid ≠ Some j) as Hfree.
  { intros j Hj. specialize (Hl oid j Hj). unfold status in Hl. simpl in Hl. rewrite Ho in Hl.
    injection Hl as E. rewrite E in Hopen. set_solver. }
  assert (refunds_made oid s = 0%nat) as Hz.
  { destruct (Hr oid) as [Hle Hone]. simpl in Hle, Hone. destruct (refunds_made oid s) as [|n]; [done|].
    destruct Hone as (st & Hst & Hin); [simpl in *; lia|]. unfold status in Hst. simpl in Hst.
    rewrite Ho in Hst. injection Hst as <-. done. }
  assert (inv (with_row oid o' c s, <[oid := i]> γ)) as Hinv.
  { split.
    - intros oid'. change (refunds_made oid' _) with (refunds_made oid' s). destruct (Hr oid') as [Hle Hone].
      split; [done|]. intros H1. simpl. rewrite status_with_row. case_decide as Hc; [|by apply Hone].
      subst oid'. simpl in *. lia.
    - intros oid' j. simpl. rewrite status_with_row. intros Hj. case_decide as Hc; [by rewrite Hs|].
      apply (Hl oid' j). simpl. by rewrite lookup_insert_ne in Hj. }
  split; [|split; [split; [done|apply lookup_insert_eq]|done]]. split_and!; [done|by left| |].
  - by apply (edge_with_row oid o).
  - intros oid' j Hj Ho'. split; [|done]. simpl in *. rewrite lookup_insert_ne; [done|].
    intros <-. by destruct (Hfree j).
Qed.

Lemma settle_row i oid o o' c s γ :
  held i oid (s, γ) → orders (pays s) !! oid = Some o →
  (o_status o = Refunding → order_step order_edge o o') →
  (o_status o' ∈ refunding_or_done ∨ refunds_made oid s = 0%nat) →
  RG i (s, γ) (with_row oid o' c s, delete oid γ).
Proof.
  intros [[Hr Hl] Ho] Hrow Hs Hz. simpl in *.
  assert (o_status o = Refunding) as Hst.
  { specialize (Hl oid i Ho). unfold status in Hl. simpl in Hl. rewrite Hrow in Hl. by injection Hl. }
  split_and!.
  - split.
    + intros oid'. change (refunds_made oid' _) with (refunds_made oid' s). destruct (Hr oid') as [Hle Hone].
      split; [done|]. intros H1. simpl. rewrite status_with_row. case_decide as Hc; [|by apply Hone].
      subst oid'. destruct Hz as [Hz|Hz]; [eauto|simpl in *; lia].
    + intros oid' j. simpl. rewrite status_with_row. rewrite lookup_delete_Some. intros [Hne Hj].
      rewrite decide_False by done. by apply (Hl oid' j).
  - by left.
  - apply (edge_with_row oid o); [done|]. by apply Hs.
  - intros oid' j Hj Ho'. split; [|done]. simpl in *. rewrite lookup_delete_ne; [done|].
    intros <-. congruence.
Qed.

(** An update, by what it does when it takes effect. *)
Lemma rsafe_update i P oid guard f (M : res RErr bool → world → Prop) :
  (∀ w, P w → inv w) → (∀ r, gstable (RR i) (M r)) →
  (∀ r w, P w → r ≠ Ok true → M r w) →
  (∀ now s γ o c o' c', P (s, γ) → orders (pays s) !! oid = Some o → guard o = true →
     f now o c = Some (o', c') →
     ∃ γ', RG i (s, γ) (with_row oid o' c' s, γ') ∧ M (Ok true) (with_row oid o' c' s, γ') ∧
           M (Err RDB) (with_row oid o' c' s, γ')) →
  rsafe i P (update_refund oid guard f) M.
Proof.
  intros HP HM Hno Hyes. apply gsafe_act; [|done]. intros o s γ _ Hw.
  assert (∀ r, r ≠ Ok true → ∃ γ', RG i (s, γ) (s, γ') ∧ M r (s, γ')) as Hsame.
  { intros r Hr. exists γ. split; [apply guarded_RG; [apply guarded_refl|eauto]|eauto]. }
  cbv beta. destruct (orders (pays s) !! oid) as [row|] eqn:Ho;
    [destruct (guard row) eqn:Hg; [destruct (f (o_now (r_base o)) row _) as [[o' c']|] eqn:Ef|]|].
  1: destruct (Hyes _ _ _ _ _ _ _ Hw Ho Hg Ef) as (γ' & Hgo & Hok & Herr).
  all: destruct (fate (r_base o)); simpl; solve [eauto | by apply Hsame].
Qed.

Lemma rsafe_claim i oid :
  rsafe i inv (update_refund oid refundable (set_status Refunding))
    (λ r w, inv w ∧ (r = Ok true → fresh i oid w)).
Proof.
  apply rsafe_update; [done| | |].
  - intros r. apply gstable_and; [apply inv_stable|apply gstable_impl; intros _; apply fresh_stable].
  - by intros r w Hw.
  - intros now s γ o c o' c' Hw Ho Hg [= <- <-].
    assert (order_step order_edge o (with_status Refunding now o)) as Hstep.
    { unfold refundable in Hg. destruct (o_status o) eqn:Hs; try done; order_step Hs. }
    destruct (claim_row i oid o (with_status Refunding now o) c s γ Hw Ho Hg eq_refl Hstep) as [HG Hf].
    exists (<[oid := i]> γ). split_and!; [done|by apply HG|done|by apply HG|done].
Qed.

(** Whatever comes of it, the rest of the process has nothing of the order. *)
Lemma rsafe_settle i oid (P : world → Prop) f :
  (∀ w, P w → held i oid w) →
  (∀ now o c o' c' w, P w → f now o c = Some (o', c') →
     (o_status o = Refunding → order_step order_edge o o') ∧
     (o_status o' ∈ refunding_or_done ∨ refunds_made oid w.1 = 0%nat)) →
  rsafe i P (update_one oid f) (λ _, inv).
Proof.
  intros HP Hf. apply gsafe_bind with (λ _, inv); [|by intros r w].
  apply rsafe_update; [by intros w []%HP|intros r; apply inv_stable|by intros r w []%HP|].
  intros now s γ o c o' c' Hw Ho _ Ef. exists (delete oid γ).
  destruct (Hf _ _ _ _ _ _ Hw Ef) as [Hs Hz].
  assert (RG i (s, γ) (with_row oid o' c' s, delete oid γ)) as HG by (eapply settle_row; eauto).
  destruct HG as [[Hi Ha] He]. by split_and!.
Qed.

(** ** The execution of a refund *)

Lemma read_answer_err a e : read_answer a = Err e → refund_made a = false.
Proof.
  unfold read_answer, refund_made, validateRefundProviderResponse.
  destruct (ga_error a); [done|]. destruct (ga_response a) as [r|]; [|done].
  by destruct (valid_response (Some r)).
Qed.
Lemma pending_valid r : response_pending (Some r) = true → valid_response (Some r) = true.
Proof. destruct r as [status ?]. simpl. intros ->. by rewrite !orb_true_r. Qed.
Lemma read_answer_ok a r :
  read_answer a = Ok r →
  valid_response (Some r) = true ∧ (response_pending (Some r) = true → refund_made a = false).
Proof.
  unfold read_answer, refund_made, validateRefundProviderResponse.
  destruct (ga_error a).
  - destruct (ga_response a) as [r'|]; [|done]. destruct (response_pending (Some r')) eqn:Ep; [|done].
    intros [= ->]. split; [by apply pending_valid|done].
  - destruct (ga_response a) as [r'|]; [|done]. destruct (valid_response (Some r')) eqn:Ev; [|done].
    intros [= ->]. split; [done|]. intros ->. by rewrite andb_false_r.
Qed.

Lemma rsafe_call i oid x :
  rsafe i (fresh i oid) (call_gateway oid x) (λ a, if refund_made a then held i oid else fresh i oid).
Proof.
  apply gsafe_act.
  2: { intros a. destruct (refund_made a); [apply held_stable|apply fresh_stable]. }
  intros o s γ _ [[[Hr Hl] Ho] Hz]. exists γ. simpl in *. set (a := r_gateway o). set (s' := {| pays := _ |}).
  assert (∀ oid', refunds_made oid' s' =
            if (oid =? oid') && refund_made a then S (refunds_made oid' s) else refunds_made oid' s) as Hmade.
  { intros oid'. unfold refunds_made. simpl. by destruct (_ && _). }
  assert (inv (s', γ)) as Hinv.
  { split; [|done]. intros oid'. simpl. rewrite Hmade. destruct (Hr oid') as [Hle Hone].
    destruct (Z.eqb_spec oid oid') as [<-|Hne]; simpl; [|done]. destruct (refund_made a); [|done].
    rewrite Hz. split; [done|]. intros _. exists Refunding. split; [by apply (Hl oid i)|set_solver]. }
  split.
  - split; [split; [done|right; eexists; split; [done|split; [by apply (Hl oid i)|done]]]|].
    split; [intros oid'; apply row_edge_refl|]. intros oid' j Hj Ho'. split; [done|]. simpl in *.
    rewrite Hmade. destruct (Z.eqb_spec oid oid') as [<-|Hne]; [congruence|done].
  - pose proof (Hmade oid) as Hm. rewrite Z.eqb_refl in Hm. simpl in Hm.
    destruct (refund_made a); [by split|split; [by split|simpl; by rewrite Hm]].
Qed.

Section Execute.
Context `{GoText} `{PgFloat}.

Lemma rsafe_from {A} i (P P' : world → Prop) (p : refund A) (Q : A → world → Prop) :
  rsafe i P p Q → (∀ w, P' w → P w) → rsafe i P' p Q.
Proof. intros Hp HP. by eapply gsafe_weaken. Qed.
Lemma rsafe_drop {A B} i (p : refund A) (k : A → refund B) P Q :
  rsafe i P p (λ _, Q) → (∀ a, rsafe i Q (k a) (λ _, inv)) → rsafe i P (proc_bind p k) (λ _, inv).
Proof. apply gsafe_bind. Qed.
Lemma rsafe_kept {A B} i P (p : refund A) (k : A → refund B) Q :
  kept_cond i P → racts p → (∀ a, rsafe i P (k a) Q) → rsafe i P (proc_bind p k) Q.
Proof. intros HP Hp Hk. eapply gsafe_bind; [by apply rsafe_acts|exact Hk]. Qed.
Lemma rsafe_ret {A} i (P : world → Prop) (a : A) (Q : A → world → Prop) :
  (∀ w, P w → Q a w) → rsafe i P (Ret a) Q.
Proof. done. Qed.

Lemma fresh_inv i oid w : fresh i oid w → inv w.
Proof. by intros [[]]. Qed.
Lemma held_inv i oid w : held i oid w → inv w.
Proof. by intros []. Qed.

#[local] Hint Resolve racts_audit racts_audit_pending racts_find racts_clock racts_invalidate
  racts_has_audit racts_deduct racts_extend racts_revoke racts_provider racts_rollback : moves.

Lemma rsafe_restore i p : rsafe i (fresh i (p_OrderID p)) (restoreStatus p) (λ _, inv).
Proof.
  apply rsafe_drop with inv; [|by intros a; apply rsafe_ret]. apply rsafe_settle; [by intros w []|].
  intros now o c o' c' w [_ Hz] [= <- _]. split; [|by right]. intros Hs.
  case_decide; order_step Hs.
Qed.
Lemma rsafe_failed i oid at_ : rsafe i (fresh i oid) (update_one oid (failed_refund at_)) (λ _, inv).
Proof.
  apply rsafe_settle; [by intros w []|]. intros now o c o' c' w [_ Hz] [= <- _]. split; [|by right].
  intros Hs. order_step Hs.
Qed.

Lemma rsafe_tail {A} i (P : world → Prop) (p : refund A) (Q : A → world → Prop) :
  racts p → (∀ w, P w → inv w) → (∀ a w, inv w → Q a w) → rsafe i P p Q.
Proof.
  intros Hp HP HQ. eapply gsafe_weaken; [apply (rsafe_acts i inv); [apply kept_inv|exact Hp]|exact HP|exact HQ].
Qed.

Lemma rsafe_gwfail i p : rsafe i (fresh i (p_OrderID p)) (handleGwFail p) (λ _, inv).
Proof.
  apply rsafe_kept; [apply kept_fresh|auto with moves|]. intros [|].
  - apply rsafe_drop with inv; [apply rsafe_restore|]. intros ?. apply rsafe_tail; [racts|done|done].
  - apply rsafe_kept; [apply kept_fresh|apply racts_clock|]. intros now.
    apply rsafe_drop with inv; [apply rsafe_failed|]. intros ?. apply rsafe_tail; [racts|done|done].
Qed.

Lemma rsafe_markOk i p : rsafe i (held i (p_OrderID p)) (markRefundOk p) (λ _, inv).
Proof.
  apply rsafe_kept; [apply kept_held|apply racts_clock|]. intros now.
  apply rsafe_drop with inv; [|intros ?; apply rsafe_tail; [racts|done|done]].
  apply rsafe_settle; [done|]. intros t o c o' c' w _. destruct (store _ _); [|done]. intros [= <- _].
  unfold refunded_status. split; [intros Hs; destruct (_ <ᶠ _); order_step Hs|].
  left. destruct (_ <ᶠ _); simpl; set_solver.
Qed.

Lemma rsafe_markPending i p refundID :
  rsafe i (fresh i (p_OrderID p)) (markRefundPending p refundID) (λ _, inv).
Proof.
  apply rsafe_kept; [apply kept_fresh|auto with moves|]. intros back.
  apply rsafe_drop with inv; [|intros ?; apply rsafe_tail; [racts|done|done]].
  apply rsafe_settle; [by intros w []|]. intros t o c o' c' w [_ Hz]. destruct (store _ _); [|done].
  intros [= <- _]. split; [|by right]. intros Hs. order_step Hs.
Qed.

(** What the gateway step leaves. *)
Definition answered (i : nat) (oid : Z) (r : res RErr (string * string)) (w : world) : Prop :=
  match r with
  | Err _ => fresh i oid w
  | Ok resp => valid_response (Some resp) = true ∧ held i oid w ∧
               (response_pending (Some resp) = true → fresh i oid w)
  end.

Lemma rsafe_gateway i p : rsafe i (fresh i (p_OrderID p)) (gwRefund p) (answered i (p_OrderID p)).
Proof.
  unfold gwRefund. destruct (String.eqb (o_trade_no (p_Order p)) "").
  { apply rsafe_kept; [apply kept_fresh|auto with moves|]. intros ?. apply rsafe_ret. intros w Hw.
    split_and!; [reflexivity|apply Hw|done]. }
  apply rsafe_kept; [apply kept_fresh|auto with moves|]. intros [[key metadata]|e]; [|by apply rsafe_ret].
  destruct (validateProviderSnapshotMetadata _ _ _).
  - eapply gsafe_bind; [apply rsafe_call|]. intros ans. apply rsafe_ret. intros w Hw.
    destruct (read_answer ans) as [resp|e] eqn:Er; simpl.
    + destruct (read_answer_ok _ _ Er) as [Hv Hp]. split; [done|].
      destruct (refund_made ans) eqn:Em.
      * split; [done|]. intros Hpend. discriminate (Hp Hpend).
      * split; [apply Hw|done].
    + by rewrite (read_answer_err _ _ Er) in Hw.
  - apply rsafe_kept; [apply kept_fresh|auto with moves|]. by intros ?; apply rsafe_ret.
Qed.

Lemma rsafe_finish i p resp :
  rsafe i (answered i (p_OrderID p) (Ok resp)) (finishRefund p resp) (λ _, inv).
Proof.
  unfold finishRefund, validateRefundProviderResponse. destruct (valid_response (Some resp)) eqn:Ev.
  - destruct (response_pending (Some resp)) eqn:Ep.
    + eapply rsafe_from; [apply rsafe_markPending|]. intros w (_ & _ & Hw). by apply Hw.
    + eapply rsafe_from; [apply rsafe_markOk|]. by intros w (_ & Hw & _).
  - apply gsafe_absurd. intros w [Hv _]. congruence.
Qed.

(** The deductions go on with a plan for the same order, or have given it up. *)
Definition deducted (i : nat) (oid : Z) (r : res RErr RefundPlan) (w : world) : Prop :=
  match r with Ok p => p_OrderID p = oid ∧ fresh i oid w | Err _ => inv w end.

Lemma rsafe_give_up i p e :
  rsafe i (fresh i (p_OrderID p)) (proc_bind (restoreStatus p) (λ _, Ret (Err e))) (deducted i (p_OrderID p)).
Proof. eapply gsafe_bind; [apply rsafe_restore|]. by intros ?; apply rsafe_ret. Qed.

Lemma rsafe_deduct_balance i p : rsafe i (fresh i (p_OrderID p)) (deduct_balance p) (deducted i (p_OrderID p)).
Proof.
  unfold deduct_balance. destruct (_ && _); [|by apply rsafe_ret].
  apply rsafe_kept; [apply kept_fresh|auto with moves|]. intros [|]; [by apply rsafe_ret|].
  apply rsafe_kept; [apply kept_fresh|auto with moves|]. intros [|]; [by apply rsafe_ret|apply rsafe_give_up].
Qed.
Lemma rsafe_deduct_days i p : rsafe i (fresh i (p_OrderID p)) (deduct_days p) (deducted i (p_OrderID p)).
Proof.
  unfold deduct_days. destruct (_ && _); [|by apply rsafe_ret].
  apply rsafe_kept; [apply kept_fresh|auto with moves|]. intros [|]; [by apply rsafe_ret|].
  apply rsafe_kept; [apply kept_fresh|auto with moves|].
  intros [?|e]; [by apply rsafe_ret|]. destruct e; try apply rsafe_give_up.
  apply rsafe_kept; [apply kept_fresh|auto with moves|]. intros [|]; [by apply rsafe_ret|apply rsafe_give_up].
Qed.

Lemma rsafe_execute i p : rsafe i inv (ExecuteRefund p) (λ _, inv).
Proof.
  unfold ExecuteRefund. eapply gsafe_bind; [apply rsafe_claim|]. intros [[|]|e]; try (by apply rsafe_ret; intros w []).
  eapply rsafe_from with (fresh i (p_OrderID p)); [|intros w [_ Hw]; by apply Hw].
  eapply gsafe_bind; [apply rsafe_deduct_balance|]. intros [p1|e]; [|by apply rsafe_ret].
  destruct (decide (p_OrderID p1 = p_OrderID p)) as [<-|Hne]; [|by apply gsafe_absurd; intros w [? _]].
  eapply rsafe_from with (fresh i (p_OrderID p1)); [|by intros w [_ Hw]].
  eapply gsafe_bind; [apply rsafe_deduct_days|]. intros [p2|e]; [|by apply rsafe_ret].
  destruct (decide (p_OrderID p2 = p_OrderID p1)) as [<-|Hne]; [|by apply gsafe_absurd; intros w [? _]].
  eapply rsafe_from with (fresh i (p_OrderID p2)); [|by intros w [_ Hw]].
  eapply gsafe_bind; [apply rsafe_gateway|]. intros [resp|e]; [apply rsafe_finish|apply rsafe_gwfail].
Qed.
End Execute.

(** ** Requests *)

Inductive PayRequest :=
| ReqRefund (oid : Z) (amt : f64) (reason : string) (force deduct : bool)
| ReqRequestRefund (oid uid : Z) (reason : string)
| ReqCancel (oid uid : Z)
| ReqAdminCancel (oid : Z)
| ReqExpire
| ReqVerify (outTradeNo : string) (uid : Z)
| ReqVerifyPublic (outTradeNo : string)
| ReqReconcile
| ReqPay (r : Request).

Section Requests.
Context `{GoText} `{PgFloat} `{Affiliate}.
Context (registry : string → string).
Context (decimal_round : f64 → Z → f64) (decimal_prorate : f64 → f64 → f64 → Z → f64).

Definition forget {A} (p : refund A) : refund unit := _ <-p p; Ret ().
Definition serve_pay (r : PayRequest) : refund unit :=
  match r with
  | ReqRefund oid amt reason force deduct =>
      forget (ProcessRefund decimal_round decimal_prorate oid amt reason force deduct)
  | ReqRequestRefund oid uid reason => forget (RequestRefund oid uid reason)
  | ReqCancel oid uid => forget (CancelOrder registry oid uid)
  | ReqAdminCancel oid => forget (AdminCancelOrder registry oid)
  | ReqExpire => forget (ExpireTimedOutOrders registry)
  | ReqVerify outTradeNo uid => forget (VerifyOrderByOutTradeNo registry outTradeNo uid)
  | ReqVerifyPublic outTradeNo => forget (VerifyOrderPublic outTradeNo)
  | ReqReconcile => forget (ReconcilePendingWxpayOrders registry)
  | ReqPay r => forget (lift (serve registry r))
  end.

Lemma racts_forget {A} (p : refund A) : racts p → racts (forget p).
Proof. intros Hp. by apply acts_bind. Qed.

Lemma rsafe_serve i r : rsafe i inv (serve_pay r) (λ _, inv).
Proof.
  destruct r; [|apply rsafe_acts; [apply kept_inv|apply racts_forget]..].
  { apply gsafe_bind with (λ _, inv); [|by intros ?; apply rsafe_ret].
    apply rsafe_kept; [apply kept_inv|apply racts_prepare|].
    intros [[p|early]|e]; [apply rsafe_execute|by apply rsafe_ret..]. }
  - apply racts_request.
  - apply racts_cancel.
  - apply racts_admin_cancel.
  - apply racts_expire.
  - apply racts_verify.
  - apply racts_verify_public.
  - apply racts_reconcile.
  - apply racts_lift, pacts_serve.
Qed.

Abbreviation rtc_step := (rtc (some_step RG)).

Lemma run_refunds reqs sched s0 :
  refunds_ok s0 →
  ∃ γ, rtc_step (s0, ∅) ((run sched (s0, serve_pay <$> reqs)).1, γ).
Proof.
  intros Hok. destruct (run sched (s0, serve_pay <$> reqs)) as [s ps] eqn:Hr.
  edestruct (grun_safe (λ _ : ROracle, True) RR RG (λ (_ : nat) (_ : unit), inv)) as (γ & Hrtc & _); [| | |exact Hr|by exists γ].
  - intros i j w w'. apply RG_RR.
  - by apply Forall_true.
  - intros i p Hi. rewrite list_lookup_fmap in Hi. destruct (reqs !! i) as [r|]; [|done].
    injection Hi as <-. exists inv. split_and!; [apply inv_stable|by split|apply rsafe_serve].
Qed.

Lemma rtc_inv w w' : rtc_step w w' → inv w → inv w'.
Proof. intros Hr. induction Hr as [w|w1 w2 w3 [i ([Hi _] & _)] _ IH]; auto. Qed.

(** All that happens to an order in a run. *)
Lemma order_row_trans (E : OrderStatus → OrderStatus → Prop) m1 m2 m3 :
  row_step E m1 m2 → row_step (rtc E) m2 m3 → row_step (rtc E) m1 m3.
Proof.
  destruct m1 as [o1|], m2 as [o2|], m3 as [o3|]; simpl; try done.
  intros (He & Hs & Hw) (He' & Hs' & Hw'). split_and!; [by eapply rtc_l|congruence|auto].
Qed.
Lemma run_rows reqs sched s0 oid :
  refunds_ok s0 →
  row_step (rtc order_edge) (orders (pays s0) !! oid)
    (orders (pays (run sched (s0, serve_pay <$> reqs)).1) !! oid).
Proof.
  intros Hok. destruct (run_refunds reqs sched s0 Hok) as [γ Hr].
  destruct (run sched (s0, serve_pay <$> reqs)) as [s ps]. simpl in *.
  change s0 with ((s0, ∅ : gmap Z nat).1). change s with ((s, γ).1).
  induction Hr as [w|w1 w2 w3 [i (_ & He & _)] _ IH]; [by apply order_row_refl|].
  by eapply order_row_trans.
Qed.

(** The next move of a run: what it asks of the provider, and what it does to the
    orders. *)
Lemma run_refunds_step reqs sched m s0 :
  refunds_ok s0 →
  let (s, ps) := run sched (s0, serve_pay <$> reqs) in
  asks s (pool_step (s, ps) m).1 ∧
  ∀ oid, row_edge (orders (pays s) !! oid) (orders (pays (pool_step (s, ps) m).1) !! oid).
Proof.
  intros Hok. destruct (run sched (s0, serve_pay <$> reqs)) as [s ps] eqn:Hr.
  edestruct (grun_safe (λ _ : ROracle, True) RR RG (λ (_ : nat) (_ : unit), inv) sched s0 (∅ : gmap Z nat))
    as (γ & _ & Hps); [| | |exact Hr|].
  - intros i j w w'. apply RG_RR.
  - by apply Forall_true.
  - intros i p Hi. rewrite list_lookup_fmap in Hi. destruct (reqs !! i) as [r|]; [|done].
    injection Hi as <-. exists inv. split_and!; [apply (inv_stable i)|by split|apply rsafe_serve].
  - destruct (gstep_safe (λ _ : ROracle, True) RR RG (λ (_ : nat) (_ : unit), inv) m s γ ps I Hps)
      as [->|(γ' & i & [_ Ha] & He & _)]; [|done].
    split; [by left|]. intros oid. apply row_edge_refl.
Qed.

(** C7: whatever refunds, requests for refunds, cancellations, expiry runs,
    verifications, reconciliations, notifications, retries and redemptions run
    at once, and wherever they stop or fail: the provider is asked to refund an
    order only while the order is being refunded, at most one such call of an
    order is answered as done (without an error, and not as pending), after it
    the provider is not asked again, and the order stays refunded (or, where the
    process stopped there, being refunded).  A call that is answered by an error
    or as pending is not a refund here: the code takes the first for a refusal and
    leaves the second to be refunded again ([asked_again]), so that a provider that
    refunds nevertheless has refunded twice; and the query of a pending refund,
    which takes no lock, is not among the requests ([refunded_twice]). *)
Theorem refunded_once reqs sched m s0 :
  refunds_ok s0 →
  let (s, ps) := run sched (s0, serve_pay <$> reqs) in
  let (s', _) := pool_step (s, ps) m in
  (∀ oid, (refunds_made oid s ≤ 1)%nat ∧
          (refunds_made oid s = 1%nat →
           ∃ o, orders (pays s) !! oid = Some o ∧ o_status o ∈ [Refunding; PartiallyRefunded; Refunded])) ∧
  (gateway s' = gateway s ∨
   ∃ c o, gateway s' = c :: gateway s ∧ orders (pays s) !! gc_order c = Some o ∧
          o_status o = Refunding ∧ refunds_made (gc_order c) s = 0%nat).
Proof.
  intros Hok. destruct (run_refunds reqs sched s0 Hok) as [γ Hr].
  pose proof (run_refunds_step reqs sched m s0 Hok) as Hnext.
  destruct (rtc_inv _ _ Hr) as [Hend _]; [by split|].
  destruct (run sched (s0, serve_pay <$> reqs)) as [s ps]. destruct Hnext as [Ha _].
  destruct (pool_step (s, ps) m) as [s' ps']. simpl in *. split.
  - intros oid. destruct (Hend oid) as [Hle Hone]. split; [done|]. intros (st & Hst & Hin)%Hone.
    unfold status in Hst. destruct (orders (pays s) !! oid) as [o|]; [|done]. simplify_eq/=. eauto.
  - destruct Ha as [Ha|(c & Hc & Hst & Hz)]; [by left|right]. unfold status in Hst.
    destruct (orders (pays s) !! gc_order c) as [o|] eqn:Eo; [|done]. injection Hst as Hst. by exists c, o.
Qed.

(** C8: in any such run every move leaves what was ordered (by whom, which amount,
    code, type, group, days) as it was and takes the order along at most one edge of
    its life cycle: it is marked as paid from pending, cancelled or expired; leased
    for delivery from paid, failed or an earlier lease, and completed or failed from
    that lease only; claimed for a refund from completed or an earlier attempt, and
    refunded, or given back, from that claim only; cancelled or expired only
    while it is pending; and a refund is requested of a completed one only. *)
Theorem order_life_cycle reqs sched m s0 oid o0 :
  refunds_ok s0 → orders (pays s0) !! oid = Some o0 →
  let (s, ps) := run sched (s0, serve_pay <$> reqs) in
  let (s', _) := pool_step (s, ps) m in
  ∃ o o', orders (pays s) !! oid = Some o ∧ orders (pays s') !! oid = Some o' ∧
          static o = static o0 ∧ static o' = static o0 ∧ order_edge (o_status o) (o_status o').
Proof.
  intros Hok Ho. pose proof (run_rows reqs sched s0 oid Hok) as Hr.
  pose proof (run_refunds_step reqs sched m s0 Hok) as Hnext.
  destruct (run sched (s0, serve_pay <$> reqs)) as [s ps]. destruct Hnext as [_ He].
  specialize (He oid). destruct (pool_step (s, ps) m) as [s' ps']. simpl in *. rewrite Ho in Hr.
  destruct (orders (pays s) !! oid) as [o|]; [|done]. destruct Hr as (_ & Hs & _).
  destruct (orders (pays s') !! oid) as [o'|]; [|done]. destruct He as (He & Hs' & _).
  exists o, o'. split_and!; [done|done|done|congruence|done].
Qed.

(** C9: in any such run every order keeps the time stamps of its status: the
    time of payment once it is paid, of completion once it is delivered, and of
    failure, with a reason, where it has failed. *)
Theorem orders_well_formed reqs sched s0 :
  refunds_ok s0 → (∀ oid o, orders (pays s0) !! oid = Some o → order_wf o) →
  let (s, _) := run sched (s0, serve_pay <$> reqs) in
  ∀ oid o, orders (pays s) !! oid = Some o → order_wf o.
Proof.
  intros Hok Hwf. destruct (run sched (s0, serve_pay <$> reqs)) as [s ps] eqn:E. intros oid o Ho.
  pose proof (run_rows reqs sched s0 oid Hok) as Hr. rewrite E in Hr. simpl in Hr. rewrite Ho in Hr.
  destruct (orders (pays s0) !! oid) as [o0|] eqn:Ho0; [|done]. destruct Hr as (_ & _ & Hw). eauto.
Qed.
End Requests.

(** ** Concrete runs *)

Module RefundDemo.
#[local] Existing Instance PayDemo.demo_text.
#[local] Existing Instance PayDemo.demo_num.
#[local] Existing Instance PayDemo.demo_affiliate.

Definition paid_order (st : OrderStatus) : Order :=
  {| o_user := 7; o_amount := 1000; o_pay_amount := 1000; o_recharge_code := "PAY-1-5";
     o_out_trade_no := "sub2_a"; o_payment_type := "alipay"; o_trade_no := "T1"; o_order_type := "balance";
     o_sub_group := None; o_sub_days := None; o_provider_instance_id := Some "5";
     o_provider_key := None; o_snapshot := ∅; o_status := st; o_paid_at := Some 1; o_completed_at := Some 1;
     o_failed_at := None; o_failed_reason := None; o_updated_at := 1 |}.
Definition refund_world (st : OrderStatus) : PayWorld :=
  {| pays :=
       {| orders := {[1 := paid_order st]};
          instances := {[5 := {| pi_ProviderKey := "alipay"; pi_SupportedTypes := "alipay";
                                 pi_RefundEnabled := true; pi_AllowUserRefund := true |}]};
          codes := ∅;
          pusers := {[7 := {| pu_balance := 30 * 10 ^ 8; pu_recharged := 30 * 10 ^ 8; pu_concurrency := 5;
                              pu_deleted := false |}]};
          pgroups := ∅; subs := ∅; audit := ∅; rebates := []; attempts := ∅; locks := ∅; next_id := 100 |};
     rcols := ∅; pending_rows := ∅; dates := ∅; gateway := [] |}.
Definition answers (status : string) (err : bool) : GatewayAnswer :=
  {| ga_response := Some (status, "R1"); ga_error := err |}.
Definition at_once (f : Fate) (a : GatewayAnswer) : ROracle :=
  {| r_base := {| fate := f; o_now := PayDemo.t0 |}; r_active := None; r_provider := Some ("alipay", ∅);
     r_queryable := true; r_gateway := a; r_found := None |}.
Definition ok (i : nat) : nat * ROracle := (i, at_once Fine (answers "success" false)).
Definition prorate (a b c : f64) (_ : Z) : f64 := b.
Definition go_pay (reqs : list PayRequest) sched s :=
  run sched (s, serve_pay (λ _, "") (λ x _, x) prorate <$> reqs).
Definition admin_refund := ReqRefund 1 f0 "" false true.
Definition balance (s : PayWorld) : option Z := (λ u, pu_balance u / 10 ^ 8) <$> pusers (pays s) !! 7.
Definition both : list (nat * ROracle) := mjoin (repeat [ok 0; ok 1] 30).
Definition says (i : nat) (status : string) : nat * ROracle := (i, at_once Fine (answers status false)).

Lemma no_refund_yet st : refunds_ok (refund_world st).
Proof. intros oid. split; [apply Nat.le_0_l|discriminate]. Qed.

(** Two administrators at once: one refund. *)
Example refund_run :
  let s := fst (go_pay [admin_refund; admin_refund] both (refund_world Completed)) in
  balance s = Some 20 ∧ status 1 s = Some Refunded ∧ refunds_made 1 s = 1%nat.
Proof. vm_compute. split_and!; reflexivity. Qed.

Lemma refunded_once_witness :
  let w := go_pay [admin_refund; admin_refund] both (refund_world Completed) in
  refunds_made 1 (fst w) = 1%nat ∧ (refunds_made 1 (fst w) ≤ 1)%nat.
Proof.
  intros w. split; [vm_compute; reflexivity|].
  pose proof (refunded_once (λ _, "") (λ x _, x) prorate [admin_refund; admin_refund] both (ok 0)
                (refund_world Completed) (no_refund_yet _)) as Hone.
  unfold w, go_pay. destruct (run _ _) as [s ps]. destruct (pool_step (s, ps) (ok 0)) as [s' ps'].
  apply (proj1 (proj1 Hone 1)).
Defined.

Definition two_requests : list PayRequest := [admin_refund; ReqRequestRefund 1 7 ""].
(** The eighth action of the first refund: it was claimed. *)
Lemma order_life_cycle_witness :
  let w := go_pay two_requests (repeat (ok 0) 6) (refund_world Completed) in
  ∃ o o', orders (pays (fst w)) !! 1 = Some o ∧ orders (pays (fst (pool_step w (ok 0)))) !! 1 = Some o' ∧
          static o = static (paid_order Completed) ∧ static o' = static (paid_order Completed) ∧
          order_edge (o_status o) (o_status o').
Proof.
  pose proof (order_life_cycle (λ _, "") (λ x _, x) prorate two_requests (repeat (ok 0) 6) (ok 0)
                (refund_world Completed) 1 (paid_order Completed) (no_refund_yet _) eq_refl) as Hone.
  unfold go_pay. destruct (run _ _) as [s ps]. by destruct (pool_step (s, ps) (ok 0)) as [s' ps'].
Defined.

Lemma orders_well_formed_witness :
  let s := fst (go_pay two_requests both (refund_world Completed)) in
  ∃ o, orders (pays s) !! 1 = Some o ∧ order_wf o.
Proof.
  pose proof (orders_well_formed (λ _, "") (λ x _, x) prorate two_requests both
                (refund_world Completed) (no_refund_yet _)) as Hone.
  pose proof (run_rows (λ _, "") (λ x _, x) prorate two_requests both (refund_world Completed) 1
                (no_refund_yet _)) as Hrow.
  assert (orders (pays (refund_world Completed)) !! 1 = Some (paid_order Completed)) as Ho by reflexivity.
  rewrite Ho in Hrow. unfold go_pay. destruct (run _ _) as [s' ps]. unfold fst in *.
  destruct (orders (pays s') !! 1) as [o|] eqn:E; [|destruct Hrow].
  exists o. split; [reflexivity|]. revert E. apply Hone.
  intros oid o0. simpl. intros [<- <-]%lookup_singleton_Some. split_and!; intros Hst; by eexists.
Defined.

(** A call whose answer is lost is taken for a refusal, a pending one is left as
    it is: either can be refunded again, with a second call of the provider. *)
Example asked_again :
  let calls a := length (gateway (fst (go_pay [admin_refund; admin_refund]
    (repeat (0%nat, at_once Fine a) 40 ++ repeat (ok 1) 40) (refund_world Completed)))) in
  calls {| ga_response := None; ga_error := true |} = 2%nat ∧ calls (answers "pending" false) = 2%nat.
Proof. vm_compute. split; reflexivity. Qed.

(** A refund the gateway refuses gives the balance back, as a recharge. *)
Example refused_refund :
  let s := fst (go_pay [admin_refund] (repeat (says 0 "failed") 40) (refund_world Completed)) in
  balance s = Some 30 ∧ status 1 s = Some Completed ∧
  (λ u, pu_recharged u / 10 ^ 8) <$> pusers (pays s) !! 7 = Some 40.
Proof. vm_compute. split_and!; reflexivity. Qed.

(** A process that stops after the deduction: the money is gone, the order is
    being refunded for ever. *)
Example stopped_refund :
  let s := fst (go_pay [admin_refund; admin_refund] (repeat (ok 0) 6 ++ repeat (ok 1) 40)
                  (refund_world Completed)) in
  balance s = Some 20 ∧ status 1 s = Some Refunding ∧ refunds_made 1 s = 0%nat.
Proof. vm_compute. split_and!; reflexivity. Qed.

(** The query of a pending refund takes no lock: two of them deduct twice. *)
Definition pending_world : PayWorld :=
  fst (go_pay [admin_refund] (repeat (says 0 "pending") 40) (refund_world Completed)).
Abbreviation query_refund := (forget (QueryAndFinalizeRefund (λ x _, x) prorate 1)).
Example queried_twice :
  balance pending_world = Some 30 ∧
  let s := fst (run both (pending_world, [query_refund; query_refund])) in
  balance s = Some 10 ∧ status 1 s = Some Refunded.
Proof. vm_compute. split_and!; reflexivity. Qed.

(** And it writes whatever it finds over the status: a refund made in between is
    marked as failed, and another one is made. *)
Example refunded_twice :
  let refund := serve_pay (λ _, "") (λ x _, x) prorate admin_refund in
  let s := fst (run (repeat (says 0 "failed") 5 ++ repeat (ok 1) 40 ++ repeat (says 0 "failed") 20
                     ++ repeat (ok 2) 40) (pending_world, [query_refund; refund; refund])) in
  refunds_made 1 s = 2%nat.
Proof. vm_compute. reflexivity. Qed.

(** The second pending refund of an order leaves no detail of its own. *)
Example second_pending :
  let answer := says 0 "failed" in
  let r2 := (1%nat, at_once Fine {| ga_response := Some ("pending", "R2"); ga_error := false |}) in
  let refund := serve_pay (λ _, "") (λ x _, x) prorate admin_refund in
  let s := fst (run (repeat answer 40 ++ repeat r2 40) (pending_world, [query_refund; refund])) in
  status 1 s = Some RefundPending ∧ RefundID <$> pending_rows s !! 1 = Some "R1".
Proof. vm_compute. split; reflexivity. Qed.

End RefundDemo.
