(* ===== verification/InstanceSelection.v ===== *)
(** * The choice of a provider instance for an order

    [src/backend/internal/payment/load_balancer.go], the snapshot of the chosen
    instance that [payment_order.go] stores with the order, and of the providers
    of [src/backend/internal/payment/provider] the merchant a payment is requested
    with and the metadata a verified notification of it carries.

    Decoding of the JSON texts of an instance (its limits, its configuration, and
    the legacy ciphertext of the latter) and the start of the server's local day
    are an interface. *)

From Stdlib Require Import ZArith Lia QArith Ascii String Bool.
From stdpp Require Import base numbers option list gmap strings sorting pretty.
From S2P Require Import Prelude GoStrings GoFloat UsageDB PaymentOrder Proc Fulfillment Refund.

#[local] Open Scope Z_scope.

Definition StrategyRoundRobin : string := "round-robin".
Definition StrategyLeastAmount : string := "least-amount".

Record ChannelLimits := { DailyLimit : f64; SingleMin : f64; SingleMax : f64 }.
Definition no_limits : ChannelLimits := {| DailyLimit := f0; SingleMin := f0; SingleMax := f0 |}.

(** The columns of [payment_provider_instances] that only the choice reads. *)
Record InstanceRow := {
  in_Enabled : bool;
  in_SortOrder : Z;
  in_Config : string;
  in_Limits : string;
  in_PaymentMode : string;
}.
Record Instance := { inst_ID : Z; inst_Provider : ProviderInstance; inst_Row : InstanceRow }.

Record InstanceSelection := {
  InstanceID : string;
  ProviderKey : string;
  Config : gmap string string;
  SupportedTypes : string;
  sel_PaymentMode : string;
}.

Class InstanceTexts := {
  parse_limits : string → option (gmap string ChannelLimits);
  parse_config : string → option (gmap string string);
  decrypt : string → option string;
  start_of_day : time → time;
}.

(** ** Limits *)

Definition legacyVisibleMethodAlias (paymentType : string) : string :=
  let t := normalizeVisibleMethodSupportType paymentType in
  if String.eqb t TypeAlipay then TypeAlipayDirect
  else if String.eqb t TypeWxpay then TypeWxpayDirect
  else "".

Definition getInstanceChannelLimits `{InstanceTexts} (inst : Instance) (paymentType : string) : ChannelLimits :=
  if String.eqb (in_Limits (inst_Row inst)) "" then no_limits
  else
    match parse_limits (in_Limits (inst_Row inst)) with
    | None => no_limits
    | Some limits =>
        let lookupKey := if String.eqb (pi_ProviderKey (inst_Provider inst)) TypeStripe then TypeStripe
                         else paymentType in
        match limits !! lookupKey with
        | Some cl => cl
        | None =>
            let aliasKey := legacyVisibleMethodAlias lookupKey in
            if String.eqb aliasKey "" then no_limits else default no_limits (limits !! aliasKey)
        end
    end.

Record instanceCandidate := { c_inst : Instance; c_dailyUsed : f64 }.

(** Whether the order is within the limits of a candidate. *)
Definition within_limits (cl : ChannelLimits) (dailyUsed orderAmount : f64) : bool :=
  negb ((f0 <ᶠ SingleMin cl) && (orderAmount <ᶠ SingleMin cl))
  && negb ((f0 <ᶠ SingleMax cl) && (SingleMax cl <ᶠ orderAmount))
  && negb ((f0 <ᶠ DailyLimit cl) && (DailyLimit cl <ᶠ (dailyUsed +ᶠ orderAmount))).
Definition filterByLimits `{InstanceTexts} (candidates : list instanceCandidate) (paymentType : string)
    (orderAmount : f64) : list instanceCandidate :=
  List.filter (λ c, within_limits (getInstanceChannelLimits (c_inst c) paymentType) (c_dailyUsed c) orderAmount)
    candidates.

(** ** The pick *)

Definition pickLeastAmount (first : instanceCandidate) (rest : list instanceCandidate) : instanceCandidate :=
  foldl (λ best c, if c_dailyUsed c <ᶠ c_dailyUsed best then c else best) first rest.

(** [pickByStrategy] of a list that is not empty; the counter is a [uint64]. *)
Definition pickByStrategy (first : instanceCandidate) (rest : list instanceCandidate) (strategy : string)
    (counter : Z) : instanceCandidate * Z :=
  match rest with
  | _ :: _ => if String.eqb strategy StrategyLeastAmount then (pickLeastAmount first rest, counter)
              else let counter := (counter + 1) mod 2 ^ 64 in
                   (nth (Z.to_nat (counter mod Z.of_nat (S (length rest)))) (first :: rest) first, counter)
  | [] => (first, (counter + 1) mod 2 ^ 64)
  end.

Definition decryptConfig `{InstanceTexts} (stored : string) : option (gmap string string) :=
  if String.eqb stored "" then None
  else match parse_config stored with
       | Some config => Some config
       | None => plaintext ← decrypt stored; parse_config plaintext
       end.

Definition buildSelection `{InstanceTexts} (selected : Instance) : InstanceSelection :=
  let config := default ∅ (decryptConfig (in_Config (inst_Row selected))) in
  let mode := in_PaymentMode (inst_Row selected) in
  {| InstanceID := pretty (inst_ID selected);
     ProviderKey := pi_ProviderKey (inst_Provider selected);
     Config := if String.eqb mode "" then config else <["paymentMode" := mode]> config;
     SupportedTypes := pi_SupportedTypes (inst_Provider selected);
     sel_PaymentMode := mode |}.

(** ** The candidates *)

Definition ResolveWxpayJSAPIAppID (config : gmap string string) : string :=
  let appID := TrimSpace (default "" (config !! "mpAppId")) in
  if negb (String.eqb appID "") then appID else TrimSpace (default "" (config !! "appId")).

(** The filter of [queryEnabledInstances]; [expected] is the app id in the
    context, empty when there is none. *)
Definition instance_matches `{InstanceTexts} (expected paymentType : string) (inst : Instance) : bool :=
  let key := pi_ProviderKey (inst_Provider inst) in
  if String.eqb paymentType TypeStripe then String.eqb key TypeStripe
  else
    InstanceSupportsType (pi_SupportedTypes (inst_Provider inst)) paymentType
    && (if negb (String.eqb expected "") && String.eqb (normalizeVisibleMethodSupportType paymentType) TypeWxpay
           && String.eqb key TypeWxpay
        then String.eqb (ResolveWxpayJSAPIAppID (default ∅ (decryptConfig (in_Config (inst_Row inst))))) expected
        else true).

(** ** The world of order creation

    The payment tables, what is left of the instances, the plans on sale, and the
    counter of the load balancer. *)

Record Plan := {
  plan_Group : Z;
  plan_Price : f64;
  plan_ValidityDays : Z;
  plan_ValidityUnit : string;
  plan_ForSale : bool;
}.

Record CreateWorld := {
  cw_pay : PayWorld;
  cw_rows : gmap Z InstanceRow;
  cw_plans : gmap Z Plan;
  cw_counter : Z;
}.
Definition set_pay (s : PayWorld) (w : CreateWorld) : CreateWorld :=
  {| cw_pay := s; cw_rows := cw_rows w; cw_plans := cw_plans w; cw_counter := cw_counter w |}.
Definition set_counter (n : Z) (w : CreateWorld) : CreateWorld :=
  {| cw_pay := cw_pay w; cw_rows := cw_rows w; cw_plans := cw_plans w; cw_counter := n |}.

Definition by_sort_order (a b : Instance) : Prop := in_SortOrder (inst_Row a) ≤ in_SortOrder (inst_Row b).
#[export] Instance by_sort_order_dec : RelDecision by_sort_order.
Proof. intros a b. unfold by_sort_order. apply _. Defined.

(** The instances, joined from both maps. *)
Definition all_instances (w : CreateWorld) : list Instance :=
  omap (λ e : Z * ProviderInstance, (λ row, {| inst_ID := fst e; inst_Provider := snd e; inst_Row := row |})
                                      <$> cw_rows w !! fst e)
    (map_to_list (instances (pays (cw_pay w)))).
Definition enabled_instances `{InstanceTexts} (providerKey expected paymentType : string) (w : CreateWorld)
  : list Instance :=
  List.filter (instance_matches expected paymentType)
    (merge_sort by_sort_order
       (List.filter (λ i, in_Enabled (inst_Row i)
                          && (String.eqb providerKey "" || String.eqb (pi_ProviderKey (inst_Provider i)) providerKey))
          (all_instances w))).

(** [SUM(pay_amount)] over today's orders of an instance. *)
Definition counts_for_usage (id : string) (today : time) (created : time) (o : Order) : bool :=
  bool_decide (o_provider_instance_id o = Some id)
  && match o_status o with Pending | Paid | Completed | Recharging => true | _ => false end
  && (today <=? created).
Definition sum_pay_amount (l : list Order) : Z := foldr (λ o n, o_pay_amount o + n) 0 l.
Definition daily_usage `{PgFloat} (today : time) (w : CreateWorld) (inst : Instance) : f64 :=
  let l := List.filter (λ e, counts_for_usage (pretty (inst_ID inst)) today (created_at (fst e) (cw_pay w)) (snd e))
             (map_to_list (orders (pays (cw_pay w)))) in
  if decide (l = []) then f0 else scan (dec scale2 (sum_pay_amount (snd <$> l))).

(** ** The selection *)

Section Selection.
Context `{InstanceTexts} `{PgFloat} {COracle : Type} (base : COracle → Oracle).

Abbreviation create A := (proc CreateWorld COracle A).
Definition cquery {B} (f : CreateWorld → B) : create (option B) :=
  act (λ o w, match fate (base o) with Fine => (Some (f w), w) | _ => (None, w) end).
Definition coutside {B} (f : COracle → B) : create B := act (λ o w, (f o, w)).
Definition cclock : create time := act (λ o w, (o_now (base o), w)).

(** [attachDailyUsage]: when the query fails every usage counts as zero. *)
Definition attachDailyUsage (insts : list Instance) : create (list instanceCandidate) :=
  now <-p cclock;
  rows <-p cquery (λ w, daily_usage (start_of_day now) w);
  Ret (map (λ i, {| c_inst := i; c_dailyUsed := match rows with Some f => f i | None => f0 end |}) insts).

Definition add_counter (first : instanceCandidate) (rest : list instanceCandidate) (strategy : string)
  : create instanceCandidate :=
  act (λ _ w, let (c, n) := pickByStrategy first rest strategy (cw_counter w) in (c, set_counter n w)).

(** [SelectInstance]: [None] for an error. *)
Definition SelectInstance (expected providerKey paymentType strategy : string) (orderAmount : f64)
  : create (option InstanceSelection) :=
  insts <-p cquery (enabled_instances providerKey expected paymentType);
  match insts with
  | None | Some [] => Ret None
  | Some insts =>
      candidates <-p attachDailyUsage insts;
      let available := match filterByLimits candidates paymentType orderAmount with
                       | [] => candidates
                       | l => l
                       end in
      match available with
      | [] => Ret None
      | first :: rest =>
          selected <-p add_counter first rest strategy;
          Ret (Some (buildSelection (c_inst selected)))
      end
  end.
End Selection.

(** ** The snapshot of a selection *)

Definition config_value (sel : InstanceSelection) (k : string) : string :=
  TrimSpace (default "" (Config sel !! k)).
Definition paymentProviderConfigCurrency `{GoText} (providerKey : string) (cfg : gmap string string) : string :=
  let key := TrimSpace providerKey in
  if String.eqb key TypeStripe || String.eqb key TypeAirwallex
  then default DefaultPaymentCurrency (NormalizePaymentCurrency (default "" (cfg !! "currency")))
  else DefaultPaymentCurrency.

Definition paymentOrderSnapshotWxpayAppID (sel : InstanceSelection) (openID : string) : string :=
  if negb (String.eqb (TrimSpace (ProviderKey sel)) TypeWxpay) then ""
  else if negb (String.eqb (TrimSpace openID) "") then TrimSpace (ResolveWxpayJSAPIAppID (Config sel))
  else config_value sel "appId".

(** A text that is not empty is put in the snapshot. *)
Definition put_text (k v : string) (m : gmap string JVal) : gmap string JVal :=
  if String.eqb v "" then m else <[k := JStr v]> m.

(** [buildPaymentOrderProviderSnapshot]; a snapshot with nothing but its version
    is none at all. *)
Definition buildPaymentOrderProviderSnapshot `{GoText} (sel : InstanceSelection) (openID : string)
  : gmap string JVal :=
  let key := TrimSpace (ProviderKey sel) in
  let m := {["schema_version" := JNum (f_of_int 2)]} in
  let m := put_text "provider_instance_id" (TrimSpace (InstanceID sel)) m in
  let m := put_text "provider_key" key m in
  let m := put_text "payment_mode" (TrimSpace (sel_PaymentMode sel)) m in
  let m :=
    if String.eqb key TypeWxpay then
      <["currency" := JStr DefaultPaymentCurrency]>
        (put_text "merchant_id" (config_value sel "mchId")
           (put_text "merchant_app_id" (paymentOrderSnapshotWxpayAppID sel openID) m))
    else if String.eqb key TypeAlipay then put_text "merchant_app_id" (config_value sel "appId") m
    else if String.eqb key TypeEasyPay then put_text "merchant_id" (config_value sel "pid") m
    else if String.eqb key TypeStripe then
      <["currency" := JStr (paymentProviderConfigCurrency key (Config sel))]> m
    else if String.eqb key TypeAirwallex then
      <["currency" := JStr (paymentProviderConfigCurrency key (Config sel))]>
        (put_text "merchant_id" (config_value sel "accountId") m)
    else m in
  if decide (size m = 1%nat) then ∅ else m.

(** ** What a provider reports

    [MerchantIdentityMetadata] of the providers that have one, for the
    configuration they are made from; [Wxpay] has none. *)

Definition put_field (k v : string) (m : gmap string string) : gmap string string :=
  if String.eqb v "" then m else <[k := v]> m.
Definition configured_currency `{GoText} (cfg : gmap string string) : string :=
  default DefaultPaymentCurrency (NormalizePaymentCurrency (default "" (cfg !! "currency"))).

Definition MerchantIdentityMetadata `{GoText} (key : string) (cfg : gmap string string) : gmap string string :=
  let value k := TrimSpace (default "" (cfg !! k)) in
  if String.eqb key TypeAlipay then put_field "app_id" (value "appId") ∅
  else if String.eqb key TypeEasyPay then put_field "pid" (value "pid") ∅
  else if String.eqb key TypeStripe then {["currency" := configured_currency cfg]}
  else if String.eqb key TypeAirwallex
  then put_field "account_id" (value "accountId") {["currency" := configured_currency cfg]}
  else ∅.

(** What of a verified notification goes into its metadata: the transaction of
    WeChat Pay, with its optional fields, the app id of an Alipay notification,
    the [pid] parameter of an EasyPay one, the currency of a Stripe payment
    intent, and the payment intent of Airwallex with the account of its event. *)
Record Transaction := {
  tx_Appid : option string;
  tx_Mchid : option string;
  tx_TradeState : option string;
  tx_Amount : option (option string);   (* the currency of the amount *)
}.
Inductive Notified :=
| WxpayNotified (tx : Transaction)
| AlipayNotified (AppId : string)
| EasyPayNotified (pid : string)
| StripeNotified (Currency : string)
| AirwallexNotified (Currency Status accountID : string).

Definition wxSV (s : option string) : string := default "" s.
Definition buildWxpayTransactionMetadata (tx : Transaction) : gmap string string :=
  put_field "currency" (match tx_Amount tx with Some c => wxSV c | None => "" end)
    (put_field "trade_state" (wxSV (tx_TradeState tx))
       (put_field "mchid" (wxSV (tx_Mchid tx)) (put_field "appid" (wxSV (tx_Appid tx)) ∅))).

Definition stripeIntentCurrency `{GoText} (raw fallback : string) : string :=
  let or_fallback := default DefaultPaymentCurrency (NormalizePaymentCurrency fallback) in
  match NormalizePaymentCurrency raw with
  | None => or_fallback
  | Some currency =>
      if String.eqb currency DefaultPaymentCurrency && String.eqb (TrimSpace raw) "" then or_fallback else currency
  end.

Definition intentMetadata `{GoText} (cfg : gmap string string) (currency status accountID : string)
  : gmap string string :=
  let m := {["currency" := ToUpper (TrimSpace currency); "status" := ToUpper (TrimSpace status)]} in
  if negb (String.eqb (TrimSpace accountID) "") then <["account_id" := TrimSpace accountID]> m
  else put_field "account_id" (TrimSpace (default "" (cfg !! "accountId"))) m.

(** The metadata [VerifyNotification] answers with. *)
Definition notified_key (n : Notified) : string :=
  match n with
  | WxpayNotified _ => TypeWxpay | AlipayNotified _ => TypeAlipay | EasyPayNotified _ => TypeEasyPay
  | StripeNotified _ => TypeStripe | AirwallexNotified _ _ _ => TypeAirwallex
  end.
Definition NotificationMetadata `{GoText} (cfg : gmap string string) (n : Notified) : gmap string string :=
  match n with
  | WxpayNotified tx => buildWxpayTransactionMetadata tx
  | AlipayNotified AppId => put_field "app_id" (TrimSpace AppId) (MerchantIdentityMetadata TypeAlipay cfg)
  | EasyPayNotified pid => put_field "pid" (TrimSpace pid) (MerchantIdentityMetadata TypeEasyPay cfg)
  | StripeNotified currency => {["currency" := stripeIntentCurrency currency DefaultPaymentCurrency]}
  | AirwallexNotified currency status accountID => intentMetadata cfg currency status accountID
  end.

(** ** What a payment is requested with

    The merchant and the currency of the request [CreatePayment] makes of the
    provider. WeChat Pay's is a prepayment with the app id of its mode. *)
Definition wxpayModeNative : string := "native".
Definition wxpayModeH5 : string := "h5".
Definition wxpayModeJSAPI : string := "jsapi".
Definition resolveWxpayCreateMode (openID clientIP : string) (isMobile : bool) : option string :=
  if negb (String.eqb (TrimSpace openID) "") then Some wxpayModeJSAPI
  else if isMobile then if String.eqb (TrimSpace clientIP) "" then None else Some wxpayModeH5
  else Some wxpayModeNative.

Record PrepayRequest := { pre_Appid : string; pre_Mchid : string; pre_Currency : string }.
Definition wxpay_prepay (mode : string) (cfg : gmap string string) : PrepayRequest :=
  {| pre_Appid := if String.eqb mode wxpayModeJSAPI then ResolveWxpayJSAPIAppID cfg
                  else default "" (cfg !! "appId");
     pre_Mchid := default "" (cfg !! "mchId");
     pre_Currency := "CNY" |}.
