(* ===== verification/OrderCreation.v ===== *)
(** * Creation of payment orders

    [src/backend/internal/service/payment_order.go]: validation of a request,
    the amount to pay, the choice of an instance, the transaction that inserts
    the order under the limits on pending orders and on the day's amount, and
    the call that opens the payment.

    The settings, the user service, the WeChat credentials, the aggregation of
    the currencies of a payment method, the random part of a trade number and
    the provider are outside: what they answer is part of the oracle.  Decimal
    arithmetic (a third-party library) and the conversions of floats to and from
    texts are an interface. *)

From Stdlib Require Import ZArith Lia QArith Ascii String Bool.
From stdpp Require Import base numbers option list gmap strings pretty.
From S2P Require Import Prelude GoStrings GoFloat UsageDB PaymentOrder Proc Fulfillment Refund InstanceSelection.

#[local] Open Scope Z_scope.

(** [shopspring/decimal] and [strconv], as the code uses them. *)
Class Decimals := {
  mul_round : f64 → f64 → Z → f64;          (* product, rounded to so many digits *)
  fixed : f64 → Z → string;                 (* StringFixed *)
  with_fee : f64 → f64 → Z → string;        (* amount and its fee in percent, rounded up *)
  has_digits : string → Z → option bool;    (* at most so many decimal places; None: not a number *)
  format_float : f64 → string;
  parse_float : string → option f64;
}.

(** ** Requests and settings *)

Record PaymentConfig := {
  Enabled : bool;
  MinAmount : f64;
  MaxAmount : f64;
  cfg_DailyLimit : f64;
  OrderTimeoutMin : Z;
  MaxPendingOrders : Z;
  BalanceDisabled : bool;
  BalanceRechargeMultiplier : f64;
  SubscriptionUSDToCNYRate : f64;
  RechargeFeeRate : f64;
  LoadBalanceStrategy : string;
}.

Record CreateOrderRequest := {
  UserID : Z;
  Amount : f64;
  PaymentType : string;
  OpenID : string;
  IsWeChatBrowser : bool;
  req_OrderType : string;
  PlanID : Z;
}.
Definition with_types (orderType paymentType : string) (r : CreateOrderRequest) : CreateOrderRequest :=
  {| UserID := UserID r; Amount := Amount r; PaymentType := paymentType; OpenID := OpenID r;
     IsWeChatBrowser := IsWeChatBrowser r; req_OrderType := orderType; PlanID := PlanID r |}.

Record COracle := {
  c_base : Oracle;
  c_config : option PaymentConfig;
  c_user : option string;                   (* the status of the user *)
  c_cancels : bool;                         (* within the limit on cancellations *)
  c_currency : option string;               (* ValidateMethodCurrencyConsistency *)
  c_official : bool;                        (* usesOfficialWxpayVisibleMethod *)
  c_wechat : option string;                 (* getWeChatPaymentOAuthCredential *)
  c_signing : bool;                         (* the key that signs resume tokens *)
  c_candidate : string;                     (* date and random part of a trade number *)
  c_payment : option string;                (* the trade number of an opened payment *)
}.

Inductive CErr :=
| CDB
| CDisabled
| CBalanceDisabled
| CInvalidAmount
| CInvalidInput
| CPlan
| CGroup
| CCancelLimited
| CUser
| CCurrency
| CMethodNotConfigured
| CNoInstance
| CWeChat
| CTooManyPending
| CDailyLimit
| CTradeNo
| CProvider.

Inductive CreateOrderResponse := OAuthRequired | Created (oid : Z).

Definition NormalizeVisibleMethod (method : string) : string := GetBasePaymentType (TrimSpace method).

Definition defaultOrderTimeoutMin : Z := 30.
Definition defaultMaxPendingOrders : Z := 3.

(** ** Amounts *)

Section Amounts.
Context `{GoText} `{Decimals}.

Definition normalizeBalanceRechargeMultiplier (multiplier : f64) : f64 :=
  if f_is_nan multiplier || f_is_inf multiplier || (multiplier ≤ᶠ f0) then f1 else multiplier.
Definition normalizeSubscriptionUSDToCNYRate (rate : f64) : f64 :=
  if f_is_nan rate || f_is_inf rate || (rate <ᶠ f0) then f0 else rate.
Definition calculateCreditedBalance (paymentAmount multiplier : f64) : f64 :=
  mul_round paymentAmount (normalizeBalanceRechargeMultiplier multiplier) 2.

(** Whether [AmountToMinorUnit] succeeds; its value is not used here. *)
Definition AmountToMinorUnit (amountStr currency : string) : bool :=
  match NormalizePaymentCurrency currency with
  | Some c => default false (has_digits (TrimSpace amountStr) (CurrencyMaxFractionDigits c))
  | None => false
  end.
Definition CalculatePayAmountForCurrency (rechargeAmount feeRate : f64) (currency : string) : string :=
  let digits := CurrencyMaxFractionDigits currency in
  if feeRate ≤ᶠ f0 then fixed rechargeAmount digits else with_fee rechargeAmount feeRate digits.

Definition calculateSubscriptionGatewayBaseAmount (amount usdToCnyRate : f64) (currency : string) : f64 :=
  let rate := normalizeSubscriptionUSDToCNYRate usdToCnyRate in
  if (rate ≤ᶠ f0) || negb (String.eqb currency DefaultPaymentCurrency) then amount
  else mul_round amount rate (CurrencyMaxFractionDigits currency).

Definition calculateCreateOrderPayAmount (limitAmount feeRate : f64) (currency : string)
  : res CErr (string * f64) :=
  if negb (AmountToMinorUnit (format_float limitAmount) currency) then Err CInvalidAmount
  else
    let payAmountStr := CalculatePayAmountForCurrency limitAmount feeRate currency in
    if negb (AmountToMinorUnit payAmountStr currency) then Err CInvalidAmount
    else match parse_float payAmountStr with
         | Some payAmount => Ok (payAmountStr, payAmount)
         | None => Err CInvalidAmount
         end.
Definition calculateCreateOrderPayAmountForOrderType (limitAmount feeRate : f64) (currency orderType : string)
    (usdToCnyRate : f64) : res CErr (string * f64) :=
  calculateCreateOrderPayAmount
    (if String.eqb orderType OrderTypeSubscription
     then calculateSubscriptionGatewayBaseAmount limitAmount usdToCnyRate currency else limitAmount)
    feeRate currency.

Definition psComputeValidityDays (days : Z) (unit : string) : Z :=
  if String.eqb unit "week" || String.eqb unit "weeks" then wrap64 (days * 7)
  else if String.eqb unit "month" || String.eqb unit "months" then wrap64 (days * 30)
  else days.
End Amounts.

(** ** Actions *)

Abbreviation create A := (proc CreateWorld COracle A).
Abbreviation cread f := (cquery c_base f).
Abbreviation cask f := (coutside (COracle := COracle) f).
Definition ccommit {A} (f : time → CreateWorld → res CErr (A * CreateWorld)) : create (res CErr A) :=
  act (λ o w, match fate (c_base o), f (o_now (c_base o)) w with
              | Fail, _ => (Err CDB, w)
              | _, Err e => (Err e, w)
              | Fine, Ok (a, w') => (Ok a, w')
              | Lost, Ok (_, w') => (Err CDB, w')
              end).
(** A process of the payment tables, in this world. *)
Fixpoint clift {A} (p : pay A) : create A :=
  match p with
  | Ret a => Ret a
  | Act f k => Act (λ o w, let (b, d) := f (c_base o) (pays (cw_pay w)) in (b, set_pay (set_pays d (cw_pay w)) w))
                   (λ b, clift (k b))
  end.
Definition update_created (oid : Z) (f : time → Order → option Order) : create (res CErr unit) :=
  ccommit (λ now w,
    match orders (pays (cw_pay w)) !! oid with
    | Some o => match f now o with
                | Some o' => Ok ((), set_pay (set_pays (set_orders <[oid := o']> (pays (cw_pay w))) (cw_pay w)) w)
                | None => Err CDB
                end
    | None => Err CDB
    end).

Section Creation.
Context `{GoText} `{PgFloat} `{InstanceTexts} `{Decimals}.

(** ** Validation *)

Definition validateSubOrder (req : CreateOrderRequest) : create (res CErr (option (Z * Plan))) :=
  if PlanID req =? 0 then Ret (Err CInvalidInput)
  else
    plan <-p cread (λ w, cw_plans w !! PlanID req);
    match plan with
    | Some (Some plan) =>
        if negb (plan_ForSale plan) then Ret (Err CPlan)
        else
          group <-p cread (λ w, pgroups (pays (cw_pay w)) !! plan_Group plan);
          Ret (match group with
               | Some (Some g) =>
                   if negb (String.eqb (g_status g) EntityStatusActive) then Err CGroup
                   else if negb (g_subscription_type g) then Err CGroup
                   else Ok (Some (PlanID req, plan))
               | _ => Err CGroup
               end)
    | _ => Ret (Err CPlan)
    end.

Definition validateOrderInput (req : CreateOrderRequest) (cfg : PaymentConfig)
  : create (res CErr (option (Z * Plan))) :=
  if String.eqb (req_OrderType req) OrderTypeBalance && BalanceDisabled cfg then Ret (Err CBalanceDisabled)
  else if String.eqb (req_OrderType req) OrderTypeSubscription then validateSubOrder req
  else if f_is_nan (Amount req) || f_is_inf (Amount req) || (Amount req ≤ᶠ f0) then Ret (Err CInvalidAmount)
  else if ((f0 <ᶠ MinAmount cfg) && (Amount req <ᶠ MinAmount cfg))
          || ((f0 <ᶠ MaxAmount cfg) && (MaxAmount cfg <ᶠ Amount req)) then Ret (Err CInvalidAmount)
  else Ret (Ok None).

(** ** The transaction *)

Definition pending_of (uid : Z) (w : CreateWorld) : Z :=
  Z.of_nat (length (List.filter (λ e, (o_user (snd e) =? uid) && bool_decide (o_status (snd e) = Pending))
                      (map_to_list (orders (pays (cw_pay w)))))).
Definition checkPendingLimit (uid max : Z) : create (res CErr unit) :=
  let max := if max <=? 0 then defaultMaxPendingOrders else max in
  c <-p cread (pending_of uid);
  Ret (match c with
       | None => Err CDB
       | Some c => if max <=? c then Err CTooManyPending else Ok ()
       end).

Definition psStartOfDayUTC (t : time) : time := t / Day * Day.
Definition paid_today (uid : Z) (ts : time) (o : Order) : bool :=
  (o_user o =? uid) && match o_status o with Paid | Recharging | Completed => true | _ => false end
  && match o_paid_at o with Some t => ts <=? t | None => false end.
Definition used_amount (o : Order) : f64 :=
  if String.eqb (o_order_type o) OrderTypeBalance then scan (dec scale2 (o_pay_amount o)) else order_amount o.
Definition checkDailyLimit (uid : Z) (amount limit : f64) : create (res CErr unit) :=
  if limit ≤ᶠ f0 then Ret (Ok ())
  else
    now <-p cclock c_base;
    l <-p cread (λ w, List.filter (paid_today uid (psStartOfDayUTC now))
                        (snd <$> map_to_list (orders (pays (cw_pay w)))));
    Ret (match l with
         | None => Err CDB
         | Some l => let used := foldl (λ used o, used +ᶠ used_amount o) f0 l in
                     if limit <ᶠ (used +ᶠ amount) then Err CDailyLimit else Ok ()
         end).

Definition trade_no_taken (candidate : string) (w : CreateWorld) : bool :=
  existsb (λ e, String.eqb (o_out_trade_no (snd e)) candidate) (map_to_list (orders (pays (cw_pay w)))).
Fixpoint allocate (attempts : nat) : create (res CErr string) :=
  match attempts with
  | O => Ret (Err CTradeNo)
  | S attempts =>
      tail <-p cask c_candidate;
      let candidate := orderIDPrefix +:+ tail in
      exists_ <-p cread (trade_no_taken candidate);
      match exists_ with
      | None => Ret (Err CTradeNo)
      | Some true => allocate attempts
      | Some false => Ret (Ok candidate)
      end
  end.
Definition allocateOutTradeNo : create (res CErr string) := allocate 5.

Definition nil_if_empty (s : string) : option string := if String.eqb s "" then None else Some s.

(** The row of a new order; [None] for a value that does not fit its column. *)
Definition new_order (id : Z) (req : CreateOrderRequest) (plan : option (Z * Plan))
    (orderAmount payAmount : f64) (sel : InstanceSelection) (outTradeNo : string) (now : time) : option Order :=
  amount ← store scale2 (num orderAmount);
  pay ← store scale2 (num payAmount);
  if (64 <? str_len outTradeNo) || (30 <? str_len (PaymentType req)) || (20 <? str_len (req_OrderType req))
     || (64 <? str_len (TrimSpace (InstanceID sel))) || (30 <? str_len (TrimSpace (ProviderKey sel))) then None
  else
    Some {| o_user := UserID req; o_amount := amount; o_pay_amount := pay;
            o_recharge_code := "PAY-" +:+ pretty id +:+ "-" +:+ pretty (now mod 100000);
            o_out_trade_no := outTradeNo; o_payment_type := PaymentType req; o_trade_no := "";
            o_order_type := req_OrderType req; o_sub_group := (λ p, plan_Group (snd p)) <$> plan;
            o_sub_days := (λ p, psComputeValidityDays (plan_ValidityDays (snd p)) (plan_ValidityUnit (snd p))) <$> plan;
            o_provider_instance_id := nil_if_empty (TrimSpace (InstanceID sel));
            o_provider_key := nil_if_empty (TrimSpace (ProviderKey sel));
            o_snapshot := buildPaymentOrderProviderSnapshot sel (OpenID req);
            o_status := Pending; o_paid_at := None; o_completed_at := None; o_failed_at := None;
            o_failed_reason := None; o_updated_at := now |}.

Definition with_dates (m : gmap Z OrderDates) (s : PayWorld) : PayWorld :=
  {| pays := pays s; rcols := rcols s; pending_rows := pending_rows s; dates := m; gateway := gateway s |}.
Definition take_id (d : PayDB) : PayDB :=
  {| orders := orders d; instances := instances d; codes := codes d; pusers := pusers d; pgroups := pgroups d;
     subs := subs d; audit := audit d; rebates := rebates d; attempts := attempts d; locks := locks d;
     next_id := next_id d + 1 |}.
(** The insert; trade numbers are unique. *)
Definition insert_order (req : CreateOrderRequest) (plan : option (Z * Plan)) (orderAmount payAmount : f64)
    (sel : InstanceSelection) (outTradeNo : string) (exp now : time) (w : CreateWorld)
  : res CErr (Z * CreateWorld) :=
  let s := cw_pay w in
  let id := next_id (pays s) in
  if trade_no_taken outTradeNo w then Err CDB
  else
    match new_order id req plan orderAmount payAmount sel outTradeNo now with
    | None => Err CDB
    | Some o =>
        Ok (id, set_pay (with_dates (<[id := {| CreatedAt := now; ExpiresAt := exp |}]> (dates s))
                           (set_pays (take_id (set_orders <[id := o]> (pays s))) s)) w)
    end.

Definition createOrderInTx (req : CreateOrderRequest) (plan : option (Z * Plan)) (cfg : PaymentConfig)
    (orderAmount limitAmount payAmount : f64) (sel : InstanceSelection) : create (res CErr Z) :=
  pending <-p checkPendingLimit (UserID req) (MaxPendingOrders cfg);
  match pending with
  | Err e => Ret (Err e)
  | Ok _ =>
      daily <-p checkDailyLimit (UserID req) limitAmount (cfg_DailyLimit cfg);
      match daily with
      | Err e => Ret (Err e)
      | Ok _ =>
          let tm := if OrderTimeoutMin cfg <=? 0 then defaultOrderTimeoutMin else OrderTimeoutMin cfg in
          now <-p cclock c_base;
          let exp := time_Add now (tm * Minute) in
          outTradeNo <-p allocateOutTradeNo;
          match outTradeNo with
          | Err e => Ret (Err e)
          | Ok outTradeNo => ccommit (insert_order req plan orderAmount payAmount sel outTradeNo exp)
          end
      end
  end.

(** ** The provider *)

Definition requestNeedsWeChatJSAPICompatibility (req : CreateOrderRequest) : bool :=
  String.eqb (GetBasePaymentType (PaymentType req)) TypeWxpay
  && (IsWeChatBrowser req || negb (String.eqb (TrimSpace (OpenID req)) "")).
(** [prepareCreateOrderSelectionContext]: the app id the context carries. *)
Definition prepareCreateOrderSelectionContext (req : CreateOrderRequest) : create (res CErr string) :=
  if negb (requestNeedsWeChatJSAPICompatibility req) then Ret (Ok "")
  else
    official <-p cask c_official;
    if negb official then Ret (Ok "")
    else cred <-p cask c_wechat; Ret (match cred with Some appID => Ok (TrimSpace appID) | None => Err CWeChat end).
Definition selectCreateOrderInstance (req : CreateOrderRequest) (cfg : PaymentConfig) (payAmount : f64)
  : create (res CErr InstanceSelection) :=
  expected <-p prepareCreateOrderSelectionContext req;
  match expected with
  | Err e => Ret (Err e)
  | Ok expected =>
      sel <-p SelectInstance c_base expected "" (PaymentType req) (LoadBalanceStrategy cfg) payAmount;
      Ret (match sel with Some sel => Ok sel | None => Err CMethodNotConfigured end)
  end.

Definition requiresWeChatJSAPICompatibleSelection (req : CreateOrderRequest) (sel : InstanceSelection) : bool :=
  String.eqb (ProviderKey sel) TypeWxpay && requestNeedsWeChatJSAPICompatibility req.
Definition validateSelectedCreateOrderInstance (req : CreateOrderRequest) (sel : InstanceSelection)
  : create (res CErr unit) :=
  if negb (requiresWeChatJSAPICompatibleSelection req sel) then Ret (Ok ())
  else
    cred <-p cask c_wechat;
    Ret (match cred with
         | None => Err CWeChat
         | Some expectedAppID =>
             let selectedAppID := ResolveWxpayJSAPIAppID (Config sel) in
             if String.eqb selectedAppID "" || negb (String.eqb selectedAppID expectedAppID)
             then Err CNoInstance else Ok ()
         end).

(** [maybeBuildWeChatOAuthRequiredResponseForSelection]: whether the answer is
    to log in with WeChat first. *)
Definition maybeBuildWeChatOAuthRequiredResponse (req : CreateOrderRequest) (sel : InstanceSelection)
  : create (res CErr bool) :=
  if negb (String.eqb (ProviderKey sel) "") && negb (String.eqb (ProviderKey sel) TypeWxpay) then Ret (Ok false)
  else if negb (String.eqb (TrimSpace (OpenID req)) "") || negb (IsWeChatBrowser req)
          || negb (String.eqb (GetBasePaymentType (PaymentType req)) TypeWxpay) then Ret (Ok false)
  else
    cred <-p cask c_wechat;
    match cred with
    | None => Ret (Err CWeChat)
    | Some _ => signing <-p cask c_signing; Ret (if signing : bool then Ok true else Err CWeChat)
    end.

(** The row after the payment is opened. *)
Definition opened (tradeNo : string) (sel : InstanceSelection) (now : time) (o : Order) : option Order :=
  if 128 <? str_len tradeNo then None
  else
    let o := with_status (o_status o) now o in
    Some {| o_user := o_user o; o_amount := o_amount o; o_pay_amount := o_pay_amount o;
            o_recharge_code := o_recharge_code o; o_out_trade_no := o_out_trade_no o;
            o_payment_type := o_payment_type o;
            o_trade_no := default (o_trade_no o) (nil_if_empty tradeNo);
            o_order_type := o_order_type o; o_sub_group := o_sub_group o; o_sub_days := o_sub_days o;
            o_provider_instance_id := match nil_if_empty (InstanceID sel) with
                                      | Some id => Some id | None => o_provider_instance_id o end;
            o_provider_key := match nil_if_empty (ProviderKey sel) with
                              | Some k => Some k | None => o_provider_key o end;
            o_snapshot := o_snapshot o; o_status := o_status o; o_paid_at := o_paid_at o;
            o_completed_at := o_completed_at o; o_failed_at := o_failed_at o;
            o_failed_reason := o_failed_reason o; o_updated_at := o_updated_at o |}.
(** [removePostgresTextNUL] *)
Definition removePostgresTextNUL (value : string) : string :=
  ReplaceAll value (String (ascii_of_N 0) "") "".
Definition invokeProvider (oid : Z) (sel : InstanceSelection) : create (res CErr CreateOrderResponse) :=
  pr <-p cask c_payment;
  match pr with
  | None => Ret (Err CProvider)
  | Some tradeNo =>
      r <-p update_created oid (opened (removePostgresTextNUL tradeNo) sel);
      match r with
      | Err e => Ret (Err e)
      | Ok _ => _ <-p clift (writeAuditLog oid "ORDER_CREATED"); Ret (Ok (Created oid))
      end
  end.

(** ** [CreateOrder] *)

(** From the selection on. *)
Definition place_order (req : CreateOrderRequest) (plan : option (Z * Plan)) (cfg : PaymentConfig)
    (orderAmount limitAmount payAmount : f64) (sel : InstanceSelection) : create (res CErr CreateOrderResponse) :=
  oauth <-p maybeBuildWeChatOAuthRequiredResponse req sel;
  match oauth with
  | Err e => Ret (Err e)
  | Ok true => Ret (Ok OAuthRequired)
  | Ok false =>
      order <-p createOrderInTx req plan cfg orderAmount limitAmount payAmount sel;
      match order with
      | Err e => Ret (Err e)
      | Ok oid =>
          resp <-p invokeProvider oid sel;
          match resp with
          | Err e => _ <-p update_created oid (λ now o, Some (with_status Failed now o)); Ret (Err e)
          | Ok r => Ret (Ok r)
          end
      end
  end.

(** The amount the user is credited, and the one the limits count. *)
Definition order_amounts (req : CreateOrderRequest) (plan : option (Z * Plan)) (cfg : PaymentConfig) : f64 * f64 :=
  match plan with
  | Some (_, p) => (plan_Price p, plan_Price p)
  | None => (if String.eqb (req_OrderType req) OrderTypeBalance
             then calculateCreditedBalance (Amount req) (BalanceRechargeMultiplier cfg) else Amount req,
             Amount req)
  end.

Definition choose_and_place (req : CreateOrderRequest) (plan : option (Z * Plan)) (cfg : PaymentConfig)
  : create (res CErr CreateOrderResponse) :=
  let (orderAmount, limitAmount) := order_amounts req plan cfg in
  let pay currency := calculateCreateOrderPayAmountForOrderType limitAmount (RechargeFeeRate cfg) currency
                        (req_OrderType req) (SubscriptionUSDToCNYRate cfg) in
  currency <-p cask c_currency;
  match currency with
  | None => Ret (Err CCurrency)
  | Some methodCurrency =>
      match pay methodCurrency with
      | Err e => Ret (Err e)
      | Ok (payAmountStr, payAmount) =>
          sel <-p selectCreateOrderInstance req cfg payAmount;
          match sel with
          | Err e => Ret (Err e)
          | Ok sel =>
              valid <-p validateSelectedCreateOrderInstance req sel;
              match valid with
              | Err e => Ret (Err e)
              | Ok _ =>
                  let selectedCurrency := paymentProviderConfigCurrency (ProviderKey sel) (Config sel) in
                  match (if String.eqb selectedCurrency methodCurrency then Ok (payAmountStr, payAmount)
                         else pay selectedCurrency) with
                  | Err e => Ret (Err e)
                  | Ok (payAmountStr, payAmount) =>
                      if negb (AmountToMinorUnit payAmountStr selectedCurrency) then Ret (Err CInvalidAmount)
                      else place_order req plan cfg orderAmount limitAmount payAmount sel
                  end
              end
          end
      end
  end.

Definition CreateOrder (req : CreateOrderRequest) : create (res CErr CreateOrderResponse) :=
  let orderType := if String.eqb (req_OrderType req) "" then OrderTypeBalance else req_OrderType req in
  let normalized := NormalizeVisibleMethod (PaymentType req) in
  let req := with_types orderType (if String.eqb normalized "" then PaymentType req else normalized) req in
  cfg <-p cask c_config;
  match cfg with
  | None => Ret (Err CDB)
  | Some cfg =>
      if negb (Enabled cfg) then Ret (Err CDisabled)
      else
        plan <-p validateOrderInput req cfg;
        match plan with
        | Err e => Ret (Err e)
        | Ok plan =>
            allowed <-p cask c_cancels;
            if negb allowed then Ret (Err CCancelLimited)
            else
              user <-p cask c_user;
              match user with
              | Some status =>
                  if negb (String.eqb status EntityStatusActive) then Ret (Err CUser)
                  else choose_and_place req plan cfg
              | None => Ret (Err CUser)
              end
        end
  end.
End Creation.
