(* ===== verification/OrderCreationProps.v ===== *)
(** * Properties of the creation of orders

    The instance an order is placed with is one that is enabled and supports the
    payment type, within its limits whenever one is; the order remembers it, so
    that the notification of the payment that was opened is accepted; and in a
    run on its own the limit on pending orders holds. *)

From Stdlib Require Import ZArith Lia QArith Ascii String Bool SpecFloat.
From stdpp Require Import base numbers option list gmap strings sorting pretty.
From S2P Require Import Prelude GoStrings GoTrim GoFloat UsageDB PaymentOrder Proc Fulfillment Refund.
From S2P Require Import FulfillmentProps InstanceSelection OrderCreation.

#[local] Open Scope Z_scope.

(** ** The least amount *)

Lemma fcmp_lt s1 m1 e1 s2 m2 e2 :
  SFltb (S754_finite s1 m1 e1) (S754_finite s2 m2 e2) = true ↔
  (s1 = true ∧ s2 = false) ∨
  (s1 = false ∧ s2 = false ∧ (e1 < e2 ∨ (e1 = e2 ∧ (m1 < m2)%positive))) ∨
  (s1 = true ∧ s2 = true ∧ (e2 < e1 ∨ (e1 = e2 ∧ (m2 < m1)%positive))).
Proof.
  unfold SFltb, SFcompare. change (Pos.compare_cont Eq m1 m2) with (Pos.compare m1 m2).
  destruct s1, s2, (Z.compare_spec e1 e2), (Pos.compare_spec m1 m2); simpl; intuition (discriminate || lia).
Qed.
Lemma flt_trans x y z : (x <ᶠ y) = true → (y <ᶠ z) = true → (x <ᶠ z) = true.
Proof.
  unfold flt. destruct x as [s1|s1| |s1 m1 e1], y as [s2|s2| |s2 m2 e2], z as [s3|s3| |s3 m3 e3];
    repeat match goal with s : bool |- _ => destruct s end;
    try (intros; (reflexivity || discriminate)); rewrite !fcmp_lt; intuition (discriminate || lia).
Qed.

Lemma pickLeastAmount_below first rest :
  pickLeastAmount first rest = first ∨ (c_dailyUsed (pickLeastAmount first rest) <ᶠ c_dailyUsed first) = true.
Proof.
  unfold pickLeastAmount. revert first. induction rest as [|c rest IH]; intros first; simpl; [by left|].
  destruct (c_dailyUsed c <ᶠ c_dailyUsed first) eqn:E; [|apply IH].
  right. destruct (IH c) as [-> | Hlt]; [done|by eapply flt_trans].
Qed.
Lemma pickLeastAmount_spec first rest :
  pickLeastAmount first rest ∈ first :: rest ∧
  ∀ c, c ∈ first :: rest → (c_dailyUsed c <ᶠ c_dailyUsed (pickLeastAmount first rest)) = false.
Proof.
  revert first. induction rest as [|c rest IH]; intros first.
  { split; [by left|]. intros c ->%list_elem_of_singleton. apply flt_irrefl. }
  change (pickLeastAmount first (c :: rest))
    with (pickLeastAmount (if c_dailyUsed c <ᶠ c_dailyUsed first then c else first) rest).
  destruct (c_dailyUsed c <ᶠ c_dailyUsed first) eqn:E.
  - destruct (IH c) as [Hin Hmin]. split; [by right|]. intros d [->|Hd]%elem_of_cons; [|by apply Hmin].
    apply not_true_iff_false. intros Hlt.
    pose proof (Hmin c ltac:(by left)) as Hc. by rewrite (flt_trans _ _ _ E Hlt) in Hc.
  - destruct (IH first) as [Hin Hmin]. split.
    { apply elem_of_cons in Hin as [-> | Hin]; [left|by right; right]. }
    intros d [->|[->|Hd]%elem_of_cons]%elem_of_cons; [by apply Hmin; left| |by apply Hmin; right].
    apply not_true_iff_false. intros Hlt. destruct (pickLeastAmount_below first rest) as [Ef|Hb].
    + rewrite Ef in Hlt. congruence.
    + by rewrite (flt_trans _ _ _ Hlt Hb) in E.
Qed.

Lemma pickByStrategy_spec first rest strategy n :
  let c := fst (pickByStrategy first rest strategy n) in
  c ∈ first :: rest ∧
  (strategy = StrategyLeastAmount → ∀ d, d ∈ first :: rest → (c_dailyUsed d <ᶠ c_dailyUsed c) = false).
Proof.
  unfold pickByStrategy. destruct rest as [|c rest].
  { split; [by left|]. intros _ d ->%list_elem_of_singleton. apply flt_irrefl. }
  destruct (String.eqb_spec strategy StrategyLeastAmount) as [->|Hne].
  { destruct (pickLeastAmount_spec first (c :: rest)) as [Hin Hmin]. by split. }
  split; [|done]. cbn [fst]. apply list_elem_of_In, nth_In. simpl length.
  pose proof (Z.mod_pos_bound ((n + 1) mod 2 ^ 64) (Z.of_nat (S (S (length rest)))) ltac:(lia)). lia.
Qed.

(** ** The selection *)

Section Selections.
Context `{InstanceTexts} `{PgFloat} {COracle : Type} (base : COracle → Oracle).

(** The database answers, on the day that started at [today]. *)
Definition answering (today : time) (o : COracle) : Prop :=
  fate (base o) = Fine ∧ start_of_day (o_now (base o)) = today.

(** Whether an order is within the limits of an instance. *)
Definition accommodates (paymentType : string) (orderAmount : f64) (today : time) (w : CreateWorld)
    (i : Instance) : bool :=
  within_limits (getInstanceChannelLimits i paymentType) (daily_usage today w i) orderAmount.
Definition candidate_of (today : time) (w : CreateWorld) (i : Instance) : instanceCandidate :=
  {| c_inst := i; c_dailyUsed := daily_usage today w i |}.

Lemma filterByLimits_elem today w insts paymentType orderAmount c :
  c ∈ filterByLimits (map (candidate_of today w) insts) paymentType orderAmount ↔
  ∃ i, i ∈ insts ∧ c = candidate_of today w i ∧ accommodates paymentType orderAmount today w i = true.
Proof.
  unfold filterByLimits. rewrite list_elem_of_In, filter_In, in_map_iff. split.
  - intros [(i & <- & Hi) Hw]. exists i. by rewrite list_elem_of_In.
  - intros (i & Hi & -> & Hw). split; [exists i; by rewrite <-list_elem_of_In|done].
Qed.

(** The candidates the pick is made from. *)
Lemma available_spec today w i0 insts paymentType orderAmount :
  let candidates := map (candidate_of today w) (i0 :: insts) in
  ∃ first rest,
    match filterByLimits candidates paymentType orderAmount with [] => candidates | l => l end = first :: rest ∧
    (∀ c, c ∈ first :: rest → ∃ i, i ∈ i0 :: insts ∧ c = candidate_of today w i) ∧
    ∀ j, j ∈ i0 :: insts → accommodates paymentType orderAmount today w j = true →
      candidate_of today w j ∈ first :: rest ∧
      ∀ c, c ∈ first :: rest → accommodates paymentType orderAmount today w (c_inst c) = true.
Proof.
  intros candidates. pose proof (filterByLimits_elem today w (i0 :: insts) paymentType orderAmount) as Hel.
  fold candidates in Hel. destruct (filterByLimits candidates paymentType orderAmount) as [|c l] eqn:Ef.
  - eexists _, _. split; [reflexivity|]. split.
    + intros c Hc. change (c ∈ candidates) in Hc. apply list_elem_of_In, in_map_iff in Hc as (i & <- & Hi).
      exists i. by rewrite list_elem_of_In.
    + intros j Hj Hw. exfalso. eapply not_elem_of_nil, Hel. eauto.
  - exists c, l. split_and!; [done| |].
    + intros d (i & Hi & -> & _)%Hel. eauto.
    + intros j Hj Hw. split; [apply Hel; eauto|]. by intros d (i & Hi & -> & Hi')%Hel.
Qed.

(** C24: with the database answering, the selection ends, with an instance
    exactly when one is enabled for the payment type; the instance is one of
    those; when the order is within the limits of any of them it is within
    those of the one selected, and under the least-amount strategy no such
    instance has taken less today. *)
Theorem selection_respects_limits expected providerKey paymentType strategy orderAmount today w :
  ends (answering today) 4 (SelectInstance base expected providerKey paymentType strategy orderAmount) w
    (λ r _,
       let insts := enabled_instances providerKey expected paymentType w in
       let fits := accommodates paymentType orderAmount today w in
       match r with
       | None => insts = []
       | Some sel => ∃ i, i ∈ insts ∧ sel = buildSelection i ∧
           ∀ j, j ∈ insts → fits j = true →
             fits i = true ∧
             (strategy = StrategyLeastAmount → (daily_usage today w j <ᶠ daily_usage today w i) = false)
       end).
Proof.
  unfold SelectInstance. intros o1 [Hf1 _]. cbn [cquery act fst snd]. rewrite Hf1. cbn [fst snd].
  destruct (enabled_instances providerKey expected paymentType w) as [|i0 insts] eqn:Ei; [done|].
  intros o2 [_ Ht]. cbn [fst snd proc_bind]. rewrite Ht. intros o3 [Hf3 _]. cbn [fst snd]. rewrite Hf3. cbn [fst snd proc_bind].
  destruct (available_spec today w i0 insts paymentType orderAmount) as (first & rest & Eav & Hall & Hfit).
  unfold candidate_of in Eav. rewrite Eav. intros o4 _. cbn [fst snd].
  pose proof (pickByStrategy_spec first rest strategy (cw_counter w)) as [Hin Hmin].
  destruct (pickByStrategy first rest strategy (cw_counter w)) as [c n]. cbn [fst snd] in *.
  destruct (Hall c Hin) as (i & Hi & ->). exists i. split_and!; [done|done|].
  intros j Hj Hw. destruct (Hfit j Hj Hw) as [Hjin Hev]. split; [by apply (Hev _ Hin)|].
  intros ->. by apply (Hmin eq_refl _ Hjin).
Qed.
End Selections.

(** ** The snapshot *)

Section Snapshots.
Context `{GoText}.

Lemma lookup_put_text k v m k' :
  put_text k v m !! k' = if decide (k = k') then (if String.eqb v "" then m !! k' else Some (JStr v)) else m !! k'.
Proof.
  unfold put_text. destruct (String.eqb v ""); case_decide as Hk; subst;
    rewrite ?lookup_insert_eq, ?lookup_insert_ne by done; done.
Qed.

Definition currency_letter (c : ascii) : bool := (65 <=? byte_of c) && (byte_of c <=? 90).
Lemma letters_upper s : str_forallb currency_letter s = true → str_map ascii_upper s = s.
Proof.
  induction s as [|c s IH]; [done|]. simpl. intros [Hc Hs]%andb_true_iff. rewrite IH by done. f_equal.
  destruct c as [[] [] [] [] [] [] [] []]; (discriminate || reflexivity).
Qed.
Lemma letters_graphic s : str_forallb currency_letter s = true → str_forallb is_graphic s = true.
Proof.
  apply forallb_weaken. intros c. unfold currency_letter, is_graphic.
  rewrite !andb_true_iff, !Z.leb_le. lia.
Qed.
Lemma normalized_letters raw c :
  NormalizePaymentCurrency raw = Some c → str_forallb currency_letter c = true ∧ str_len c = 3.
Proof.
  unfold NormalizePaymentCurrency. destruct (String.eqb _ "") eqn:E; [by intros [= <-]|].
  destruct (str_len _ =? 3) eqn:El; [|done]. simpl.
  destruct (str_forallb _ _) eqn:Ef; [|done]. intros [= <-]. split; [done|by apply Z.eqb_eq].
Qed.
(** A currency stays as it is. *)
Definition is_currency (c : string) : Prop := str_forallb currency_letter c = true ∧ str_len c = 3.
Lemma currency_trim c : is_currency c → TrimSpace c = c.
Proof. intros [Hc _]. by apply trimmed_id, graphic_trimmed, letters_graphic. Qed.
Lemma currency_ascii c : is_currency c → is_ascii c = true.
Proof. intros [Hc _]. by apply graphic_ascii, letters_graphic. Qed.
Lemma currency_upper c : is_currency c → ToUpper c = c.
Proof. intros Hc. unfold ToUpper. rewrite currency_ascii by done. by apply letters_upper, Hc. Qed.
Lemma currency_normal c : is_currency c → NormalizePaymentCurrency c = Some c.
Proof.
  intros Hc. unfold NormalizePaymentCurrency. rewrite currency_trim, currency_upper by done.
  destruct Hc as [Hc Hl]. destruct c; [done|]. cbn [String.eqb]. rewrite Hl. simpl negb. cbv iota.
  unfold currency_letter in Hc. by rewrite Hc.
Qed.
Lemma config_currency key cfg : is_currency (paymentProviderConfigCurrency key cfg).
Proof.
  unfold paymentProviderConfigCurrency. destruct (_ || _); [|done].
  destruct (NormalizePaymentCurrency _) as [c|] eqn:E; [|done]. by apply normalized_letters in E.
Qed.

(** What the snapshot of a selection says. *)
Definition snapshot_app (sel : InstanceSelection) (openID : string) : string :=
  let key := TrimSpace (ProviderKey sel) in
  if String.eqb key TypeWxpay then paymentOrderSnapshotWxpayAppID sel openID
  else if String.eqb key TypeAlipay then config_value sel "appId" else "".
Definition snapshot_merchant (sel : InstanceSelection) : string :=
  let key := TrimSpace (ProviderKey sel) in
  if String.eqb key TypeWxpay then config_value sel "mchId"
  else if String.eqb key TypeEasyPay then config_value sel "pid"
  else if String.eqb key TypeAirwallex then config_value sel "accountId" else "".
Definition snapshot_currency (sel : InstanceSelection) : string :=
  let key := TrimSpace (ProviderKey sel) in
  if String.eqb key TypeWxpay then DefaultPaymentCurrency
  else if String.eqb key TypeStripe || String.eqb key TypeAirwallex
  then paymentProviderConfigCurrency key (Config sel) else "".
Definition snapshot_of (sel : InstanceSelection) (openID : string) : ProviderSnapshot :=
  {| SchemaVersion := 2; ProviderInstanceID := TrimSpace (InstanceID sel);
     snap_ProviderKey := TrimSpace (ProviderKey sel); PaymentMode := TrimSpace (sel_PaymentMode sel);
     MerchantAppID := snapshot_app sel openID; MerchantID := snapshot_merchant sel;
     snap_Currency := snapshot_currency sel |}.

Lemma wxpay_app_trimmed sel openID :
  TrimSpace (paymentOrderSnapshotWxpayAppID sel openID) = paymentOrderSnapshotWxpayAppID sel openID.
Proof.
  unfold paymentOrderSnapshotWxpayAppID, config_value. repeat case_match; try done; apply TrimSpace_idem.
Qed.

(** The value of a text field, whatever comes before it in the map. *)
Lemma text_field v (m : option JVal) :
  m = None → TrimSpace v = v → psSnapshotStringValue (if String.eqb v "" then m else Some (JStr v)) = v.
Proof. intros -> Hv. by destruct (String.eqb_spec v "") as [->|_]. Qed.

Lemma snapshot_size (m : gmap string JVal) k1 k2 v1 v2 :
  k1 ≠ k2 → m !! k1 = Some v1 → m !! k2 = Some v2 → size m ≠ 1%nat.
Proof.
  intros Hne H1 H2 Hs. pose proof (map_size_delete_Some (M:=gmap string) k1 m (mk_is_Some _ _ H1)) as Hd.
  rewrite Hs in Hd. apply map_size_empty_inv in Hd.
  assert (delete k1 m !! k2 = Some v2) as H3 by by rewrite lookup_delete_ne.
  by rewrite Hd, lookup_empty in H3.
Qed.

(** The lookups of a snapshot that is built. *)
Ltac snapshot_lookup :=
  repeat first [ rewrite lookup_put_text | rewrite lookup_insert_eq | rewrite lookup_insert_ne by discriminate
               | rewrite lookup_singleton_ne by discriminate | rewrite lookup_singleton_eq
               | rewrite decide_False by discriminate | rewrite decide_True by reflexivity ].

Lemma snapshot_fields sel openID (m : gmap string JVal) :
  TrimSpace (ProviderKey sel) ≠ "" → m = buildPaymentOrderProviderSnapshot sel openID →
  m !! "schema_version" = Some (JNum (f_of_int 2)) ∧
  psSnapshotStringValue (m !! "provider_instance_id") = TrimSpace (InstanceID sel) ∧
  psSnapshotStringValue (m !! "provider_key") = TrimSpace (ProviderKey sel) ∧
  psSnapshotStringValue (m !! "payment_mode") = TrimSpace (sel_PaymentMode sel) ∧
  psSnapshotStringValue (m !! "merchant_app_id") = snapshot_app sel openID ∧
  psSnapshotStringValue (m !! "merchant_id") = snapshot_merchant sel ∧
  psSnapshotStringValue (m !! "currency") = snapshot_currency sel.
Proof.
  intros Hkey ->. unfold buildPaymentOrderProviderSnapshot, snapshot_app, snapshot_merchant, snapshot_currency.
  pose proof (TrimSpace_idem (ProviderKey sel)) as Hk. pose proof (wxpay_app_trimmed sel openID) as Hw.
  set (key := TrimSpace (ProviderKey sel)) in *. apply String.eqb_neq in Hkey.
  rewrite decide_False.
  2: { apply (snapshot_size _ "schema_version" "provider_key" (JNum (f_of_int 2)) (JStr key)); [done| |];
       repeat case_match; snapshot_lookup; by rewrite ?Hkey. }
  assert (TrimSpace (paymentProviderConfigCurrency key (Config sel)) = paymentProviderConfigCurrency key (Config sel))
    as Hc by apply currency_trim, config_currency.
  destruct (String.eqb key TypeWxpay) eqn:E1; [|destruct (String.eqb key TypeAlipay) eqn:E2;
    [|destruct (String.eqb key TypeEasyPay) eqn:E3; [|destruct (String.eqb key TypeStripe) eqn:E4;
    [|destruct (String.eqb key TypeAirwallex) eqn:E5]]]]; cbn [orb];
  split_and!; snapshot_lookup; try (apply text_field; [by snapshot_lookup|]);
    first [done | apply TrimSpace_idem | by apply String.eqb_eq in E2 as -> | by apply String.eqb_eq in E3 as ->
          | by apply String.eqb_eq in E4 as ->].
Qed.

Lemma snapshot_read sel openID o :
  TrimSpace (ProviderKey sel) ≠ "" →
  o_snapshot o = buildPaymentOrderProviderSnapshot sel openID →
  psOrderProviderSnapshot o = Some (snapshot_of sel openID).
Proof.
  intros Hkey Ho. destruct (snapshot_fields sel openID (o_snapshot o) Hkey Ho) as (H1 & H2 & H3 & H4 & H5 & H6 & H7).
  unfold psOrderProviderSnapshot. rewrite bool_decide_eq_false_2.
  2: { intros E. by rewrite E, lookup_empty in H1. }
  by rewrite H1, H2, H3, H4, H5, H6, H7.
Qed.

(** The snapshot an order is created with says, when it is read again, what
    was selected: the instance, its provider and mode, and the merchant
    identity and currency its provider key calls for. *)
Theorem snapshot_roundtrip sel openID o :
  TrimSpace (ProviderKey sel) ≠ "" →
  o_snapshot o = buildPaymentOrderProviderSnapshot sel openID →
  psOrderProviderSnapshot o = Some (snapshot_of sel openID).
Proof. apply snapshot_read. Qed.
End Snapshots.

(** ** The notification of a payment that was opened *)

Lemma fsub_self x : f_finite x = true → fsub x x = S754_zero false ∨ ∃ s, fsub x x = S754_zero s.
Proof.
  destruct x as [s|s| |s m e]; try done; intros _; right; [by destruct s; eexists|].
  unfold fsub, SFsub. rewrite Z.sub_diag. by eexists.
Qed.
Lemma minor_unit_cases `{GoText} c : CurrencyMinorUnit c = 0 ∨ CurrencyMinorUnit c = 2 ∨ CurrencyMinorUnit c = 3.
Proof.
  unfold CurrencyMinorUnit, paymentCurrencyAmountUnitFor.
  destruct (NormalizePaymentCurrency c) as [n|]; [|by right; left].
  destruct (List.find _ _) as [e|] eqn:E; [|by right; left].
  apply find_some in E as [Hin _]. vm_compute in Hin.
  repeat destruct Hin as [<-|Hin]; try done; simpl; tauto.
Qed.
Lemma tolerance_zero `{GoText} c s : (paymentAmountToleranceForCurrency c <ᶠ S754_zero s) = false.
Proof.
  unfold paymentAmountToleranceForCurrency.
  destruct (minor_unit_cases c) as [-> | [-> | ->]]; destruct s; reflexivity.
Qed.
Lemma exact_amount_accepted `{GoText} c x :
  isValidProviderAmount x = true → (paymentAmountToleranceForCurrency c <ᶠ fabs (x -ᶠ x)) = false.
Proof.
  intros Hx. assert (f_finite x = true) as Hf.
  { unfold isValidProviderAmount in Hx. by destruct x as [[]|[]| |[]]. }
  destruct (fsub_self x Hf) as [-> | [s ->]]; apply tolerance_zero.
Qed.

Section Payable.
Context `{GoText} `{PgFloat} `{InstanceTexts}.
(** [strings.EqualFold] of a string and itself, where it is not ASCII. *)
Context (fold_refl : ∀ s, unicode_fold_eq s s = true).

Lemma EqualFold_refl s : EqualFold s s = true.
Proof. destruct (is_ascii s) eqn:Ha; [by apply EqualFold_ascii|]. unfold EqualFold. rewrite Ha. exact (fold_refl s). Qed.
Lemma require_same field s : s = "" ∨ require_field field s s = Ok ().
Proof.
  unfold require_field. destruct (String.eqb_spec s "") as [->|Hne]; [by left|right].
  by rewrite EqualFold_refl.
Qed.
Lemma require_equal field s t : s = t → require_field field s t = Ok ().
Proof. intros ->. destruct (require_same field t) as [-> | E]; done. Qed.

Lemma put_field_value k v (m : gmap string string) : m !! k = None → default "" (put_field k v m !! k) = v.
Proof. intros Hk. unfold put_field. destruct (String.eqb_spec v "") as [->|_]; [by rewrite Hk|by rewrite lookup_insert_eq]. Qed.
Lemma put_field_ne k k' v (m : gmap string string) : k ≠ k' → put_field k v m !! k' = m !! k'.
Proof. intros Hk. unfold put_field. destruct (String.eqb v ""); [done|by rewrite lookup_insert_ne]. Qed.

(** A field that is reported, or left to the configuration. *)
Lemma put_field_over k v v' (m : gmap string string) :
  m !! k = None → v = "" ∨ v = v' → default "" (put_field k v (put_field k v' m) !! k) = v'.
Proof.
  intros Hk Hv. unfold put_field at 1. destruct (String.eqb_spec v "") as [_|Hne]; [by apply put_field_value|].
  rewrite lookup_insert_eq. by destruct Hv.
Qed.
Ltac lookups :=
  repeat first [ rewrite put_field_value by (rewrite ?put_field_ne by discriminate; reflexivity) | rewrite put_field_ne by discriminate
               | rewrite lookup_insert_eq | rewrite lookup_insert_ne by discriminate
               | rewrite lookup_singleton_eq | rewrite lookup_singleton_ne by discriminate | rewrite lookup_empty ].

(** The currency of a payment intent. *)
Lemma letters_lower_upper s : str_forallb currency_letter s = true →
  str_map ascii_upper (str_map ascii_lower s) = s ∧ str_forallb is_graphic (str_map ascii_lower s) = true.
Proof.
  induction s as [|c s IH]; [done|]. simpl. intros [Hc Hs]%andb_true_iff. destruct (IH Hs) as [-> ->].
  destruct c as [[] [] [] [] [] [] [] []]; (discriminate || done).
Qed.
Lemma currency_lower c : is_currency c →
  NormalizePaymentCurrency (ToLower c) = Some c ∧ TrimSpace (ToLower c) ≠ "".
Proof.
  intros Hc. destruct (letters_lower_upper c (proj1 Hc)) as [Hu Hg].
  rewrite (ToLower_ascii c) by by apply currency_ascii.
  assert (TrimSpace (str_map ascii_lower c) = str_map ascii_lower c) as Ht by by apply trimmed_id, graphic_trimmed.
  split.
  - unfold NormalizePaymentCurrency. rewrite Ht. unfold ToUpper. rewrite graphic_ascii, Hu by done.
    destruct Hc as [Hc Hl]. destruct c; [done|]. cbn [String.eqb]. rewrite Hl. simpl negb. cbv iota.
    unfold currency_letter in Hc. by rewrite Hc.
  - rewrite Ht. destruct Hc as [_ Hl]. by destruct c.
Qed.
Lemma configured_is_currency cfg : is_currency (configured_currency cfg).
Proof.
  unfold configured_currency. destruct (NormalizePaymentCurrency _) as [c|] eqn:E; [|done]. by apply normalized_letters in E.
Qed.
Lemma intent_currency c fallback : is_currency c → stripeIntentCurrency (ToLower c) fallback = c.
Proof.
  intros Hc. destruct (currency_lower c Hc) as [E Hne%String.eqb_neq]. unfold stripeIntentCurrency.
  by rewrite E, Hne, andb_false_r.
Qed.

(** A notification of a payment that was made as it was requested: the merchant
    and the currency are those of the request, and it succeeded. Alipay, EasyPay
    and the account of Airwallex may leave the merchant out. *)
Definition of_payment (cfg : gmap string string) (openID clientIP : string) (isMobile : bool) (n : Notified) : Prop :=
  let same said v := TrimSpace said = "" ∨ TrimSpace said = TrimSpace (default "" (cfg !! v)) in
  match n with
  | WxpayNotified tx => ∃ mode, resolveWxpayCreateMode openID clientIP isMobile = Some mode ∧
      tx = {| tx_Appid := Some (pre_Appid (wxpay_prepay mode cfg)); tx_Mchid := Some (pre_Mchid (wxpay_prepay mode cfg));
              tx_TradeState := Some "SUCCESS"; tx_Amount := Some (Some (pre_Currency (wxpay_prepay mode cfg))) |}
  | AlipayNotified AppId => same AppId "appId"
  | EasyPayNotified pid => same pid "pid"
  | StripeNotified currency => currency = ToLower (configured_currency cfg)
  | AirwallexNotified currency status accountID =>
      currency = configured_currency cfg ∧ ToUpper (TrimSpace status) = "SUCCEEDED" ∧ same accountID "accountId"
  end.

(** The app id of the mode is the one the snapshot names. *)
Lemma prepaid_app sel openID clientIP isMobile mode :
  TrimSpace (ProviderKey sel) = TypeWxpay →
  resolveWxpayCreateMode (TrimSpace openID) clientIP isMobile = Some mode →
  TrimSpace (pre_Appid (wxpay_prepay mode (Config sel))) = TrimSpace (paymentOrderSnapshotWxpayAppID sel openID).
Proof.
  intros Hk. unfold resolveWxpayCreateMode, paymentOrderSnapshotWxpayAppID, config_value. rewrite TrimSpace_idem, Hk.
  change (String.eqb TypeWxpay TypeWxpay) with true. cbn [negb].
  destruct (negb _).
  - intros [= <-]. cbn. by rewrite TrimSpace_idem.
  - intros E. assert (mode ≠ wxpayModeJSAPI) as Hm by (destruct isMobile; [destruct (String.eqb _ _)|]; by inversion E).
    cbn [wxpay_prepay pre_Appid]. apply String.eqb_neq in Hm. rewrite Hm. by rewrite TrimSpace_idem.
Qed.

Ltac on_key :=
  repeat match goal with
    |- context [String.eqb ?a ?b] =>
        is_const a; is_const b; let r := eval vm_compute in (String.eqb a b) in change (String.eqb a b) with r
    end; cbv iota; cbn [orb].
Lemma require_trimmed field s t : TrimSpace s = TrimSpace t → require_field field (TrimSpace s) (TrimSpace t) = Ok ().
Proof. apply require_equal. Qed.
Lemma require_currency c actual : is_currency c → actual = c →
  require_field "currency" (TrimSpace c) (ToUpper (TrimSpace actual)) = Ok ().
Proof. intros Hc ->. apply require_equal. by rewrite !currency_trim, currency_upper by done. Qed.

Lemma metadata_accepted sel openID clientIP isMobile n o :
  psOrderProviderSnapshot o = Some (snapshot_of sel openID) →
  ProviderKey sel = notified_key n →
  of_payment (Config sel) (TrimSpace openID) clientIP isMobile n →
  validateProviderSnapshotMetadata o (ProviderKey sel) (NotificationMetadata (Config sel) n) = Ok ().
Proof.
  intros Ho Hkey Hn. unfold validateProviderSnapshotMetadata. case_bool_decide as Hm; [done|]. clear Hm. rewrite Ho.
  pose proof (configured_is_currency (Config sel)) as Hc.
  assert (TrimSpace (ProviderKey sel) = notified_key n) as Ht by (rewrite Hkey; by destruct n).
  unfold snapshot_of. cbn [MerchantAppID MerchantID snap_Currency].
  unfold snapshot_app, snapshot_merchant, snapshot_currency. cbv zeta. rewrite Ht.
  destruct n as [tx|AppId|pid|cur|cur st acc]; cbn [notified_key NotificationMetadata of_payment] in *; on_key.
  - destruct Hn as (mode & Hmode & ->). unfold buildWxpayTransactionMetadata, wxSV.
    cbn [tx_Appid tx_Mchid tx_TradeState tx_Amount from_option default id]. lookups.
    rewrite (require_trimmed "appid") by (symmetry; by eapply prepaid_app).
    rewrite (require_trimmed "mchid") by apply TrimSpace_idem. by rewrite (require_currency "CNY").
  - apply require_trimmed. unfold config_value. rewrite TrimSpace_idem. symmetry.
    change (MerchantIdentityMetadata TypeAlipay (Config sel))
      with (put_field "app_id" (TrimSpace (default "" (Config sel !! "appId"))) ∅).
    rewrite put_field_over by done. apply TrimSpace_idem.
  - apply require_trimmed. unfold config_value. rewrite TrimSpace_idem. symmetry.
    change (MerchantIdentityMetadata TypeEasyPay (Config sel))
      with (put_field "pid" (TrimSpace (default "" (Config sel !! "pid"))) ∅).
    rewrite put_field_over by done. apply TrimSpace_idem.
  - rewrite Hn, intent_currency by done. lookups. by apply require_currency.
  - destruct Hn as (-> & Hst & Hacc). unfold intentMetadata. rewrite Hst.
    rewrite (currency_trim (configured_currency _)), (currency_upper (configured_currency _)) by done.
    pose proof (TrimSpace_idem (default "" (Config sel !! "accountId"))) as Hid. unfold config_value.
    assert (require_field "currency" (TrimSpace (configured_currency (Config sel)))
              (ToUpper (TrimSpace (configured_currency (Config sel)))) = Ok ()) as Hcur by by apply require_currency.
    change (paymentProviderConfigCurrency TypeAirwallex (Config sel)) with (configured_currency (Config sel)).
    destruct (String.eqb_spec (TrimSpace acc) "") as [Ha|Ha]; cbn [negb]; lookups; cbn [from_option default id];
      rewrite Hcur, require_equal; [done..|].
    by destruct Hacc as [Hacc|Hacc]; [|rewrite Hacc].
Qed.

(** An order as it is once its payment was opened. *)
Lemma opened_order id req plan orderAmount payAmount sel outTradeNo tradeNo now now' o o' :
  new_order id req plan orderAmount payAmount sel outTradeNo now = Some o →
  opened tradeNo sel now' o = Some o' →
  InstanceID sel ≠ "" →
  o_snapshot o' = buildPaymentOrderProviderSnapshot sel (OpenID req) ∧
  o_provider_instance_id o' = Some (InstanceID sel).
Proof.
  unfold new_order, opened. intros Hn Ho Hne.
  apply bind_Some in Hn as (amount & _ & Hn). apply bind_Some in Hn as (pay & _ & Hn).
  destruct (_ || _) in Hn; [done|]. injection Hn as <-. destruct (128 <? _) in Ho; [done|]. injection Ho as <-. cbn [o_snapshot o_provider_instance_id].
  split; [done|]. unfold nil_if_empty. by destruct (String.eqb_spec (InstanceID sel) "").
Qed.

(** C23: when an order was inserted with the instance selected for it and its
    payment opened there, the notification of that payment passes every check of
    the order, whatever the registry of providers says. The notification is of
    that payment when its provider is the instance's, it carries the merchant and
    the currency the payment was requested with (a WeChat Pay transaction the app
    id of its mode, the merchant id, CNY and the state SUCCESS), and it reports
    the order's own pay amount as it is read back. Supposed is that this amount is
    a number a provider may report (finite and positive), that the instance is
    still there under a non-negative id, and that [strings.EqualFold] holds of a
    string and itself. *)
Theorem created_order_is_payable id req plan orderAmount payAmount i outTradeNo tradeNo now now' o o' insts registry
    clientIP isMobile n :
  let sel := buildSelection i in
  let paid := scan (dec scale2 (o_pay_amount o')) in
  new_order id req plan orderAmount payAmount sel outTradeNo now = Some o →
  opened tradeNo sel now' o = Some o' →
  insts !! inst_ID i = Some (inst_Provider i) →
  0 ≤ inst_ID i ≤ max_int64 →
  ProviderKey sel = notified_key n →
  of_payment (Config sel) (TrimSpace (OpenID req)) clientIP isMobile n →
  isValidProviderAmount paid = true →
  check_notification registry (getOrderProviderInstance insts o') o' paid (notified_key n)
    (NotificationMetadata (Config sel) n) = Ok ().
Proof.
  intros sel paid Hn Ho Hi Hid Hk Hof Hpaid. rewrite <-Hk.
  assert (TrimSpace (ProviderKey sel) = ProviderKey sel ∧ ProviderKey sel ≠ "") as [Htrim Hkey]
    by (rewrite Hk; by destruct n).
  assert (InstanceID sel = pretty (inst_ID i)) as Hsel by done.
  assert (TrimSpace (InstanceID sel) = InstanceID sel) as Hti by (rewrite Hsel; apply pretty_trimmed; lia).
  assert (InstanceID sel ≠ "") as Hne.
  { intros E. pose proof (Atoi_pretty (inst_ID i) Hid) as Ha. rewrite <-Hsel, E in Ha. done. }
  destruct (opened_order _ _ _ _ _ _ _ _ _ _ _ _ Hn Ho Hne) as [Hs Hp].
  pose proof (snapshot_read sel (OpenID req) o' ltac:(by rewrite Htrim) Hs) as Hsnap.
  assert (getOrderProviderInstance insts o' = Some (inst_Provider i)) as ->.
  { unfold getOrderProviderInstance. rewrite Hsnap. unfold resolveSnapshotOrderProviderInstance.
    rewrite Hp. change (psStringValue (Some (InstanceID sel))) with (InstanceID sel).
    cbn [ProviderInstanceID snap_ProviderKey snapshot_of].
    rewrite !Hti, EqualFold_refl, Htrim. apply String.eqb_neq in Hne. rewrite Hne. cbn [negb andb orb].
    rewrite Hsel, Atoi_pretty by done. cbn [mbind option_bind]. rewrite Hi. cbn [mbind option_bind].
    change (pi_ProviderKey (inst_Provider i)) with (ProviderKey sel). rewrite Htrim, EqualFold_refl, andb_false_r.
    rewrite <-Hsel. by rewrite Hne. }
  unfold check_notification. cbv zeta iota. change (pi_ProviderKey (inst_Provider i)) with (ProviderKey sel).
  unfold expectedNotificationProviderKeyForOrder, expectedNotificationProviderKey.
  apply String.eqb_neq in Hkey. rewrite Htrim, Hkey. cbn [negb]. rewrite EqualFold_refl, andb_false_r.
  rewrite (metadata_accepted sel (OpenID req) clientIP isMobile n) by done.
  fold paid. by rewrite Hpaid, exact_amount_accepted.
Qed.
End Payable.

(** ** An order that is created *)

Section Create.
Context `{GoText} `{PgFloat} `{InstanceTexts} `{Decimals}.
Context (cfg : PaymentConfig).

(** The settings do not change; anything may fail. *)
Definition configured (o : COracle) : Prop := ∀ c, c_config o = Some c → c = cfg.
Abbreviation runs := (ends configured).

Definition pending_limit : Z :=
  if MaxPendingOrders cfg <=? 0 then defaultMaxPendingOrders else MaxPendingOrders cfg.
(** The tables, at the time the order is inserted, are those of [w]. *)
Definition untouched (w w' : CreateWorld) : Prop := cw_pay w' = cw_pay w.
(** Everything but the orders, their dates and the audit log. *)
Definition money (w : CreateWorld) :=
  let d := pays (cw_pay w) in
  (codes d, pusers d, subs d, rebates d, attempts d, rcols (cw_pay w), pending_rows (cw_pay w), gateway (cw_pay w)).
(** One more order, in one of the states [sts], of the user who asked for it. *)
Definition one_more (req : CreateOrderRequest) (sts : list OrderStatus) (w w' : CreateWorld) : Prop :=
  money w' = money w ∧
  ∃ o, orders (pays (cw_pay w')) = <[next_id (pays (cw_pay w)) := o]> (orders (pays (cw_pay w))) ∧
    o_status o ∈ sts ∧ o_user o = UserID req ∧ o_paid_at o = None ∧
    pending_of (UserID req) w < pending_limit.

Lemma runs_quiet_bind {A B} n m (p : create A) (k : A → create B) (w : CreateWorld) Q :
  runs n p w (λ _ w', untouched w w') → (∀ a w', untouched w w' → runs m (k a) w' Q) →
  runs (n + m) (proc_bind p k) w Q.
Proof. intros Hp Hk. by eapply ends_bind. Qed.
Lemma cask_quiet {B} (f : COracle → B) w : runs 1 (cask f) w (λ _ w', untouched w w').
Proof. intros o _. reflexivity. Qed.
Lemma cclock_quiet w : runs 1 (cclock c_base) w (λ _ w', untouched w w').
Proof. intros o _. reflexivity. Qed.
Lemma cread_quiet {B} (f : CreateWorld → B) w : runs 1 (cread f) w (λ _ w', untouched w w').
Proof. intros o _. simpl. by destruct (fate _). Qed.

Lemma checkPendingLimit_runs uid w :
  runs 1 (checkPendingLimit uid (MaxPendingOrders cfg)) w
    (λ r w', untouched w w' ∧ (r = Ok () → pending_of uid w < pending_limit)).
Proof.
  intros o _. unfold pending_limit. cbn [proc_bind fst snd]. destruct (fate (c_base o)); cbn [fst snd]; try done.
  split; [done|]. set (max := if _ <=? 0 then _ else _). by destruct (Z.leb_spec max (pending_of uid w)).
Qed.
Lemma checkDailyLimit_quiet uid amount limit w :
  runs 2 (checkDailyLimit uid amount limit) w (λ _ w', untouched w w').
Proof.
  unfold checkDailyLimit. destruct (_ ≤ᶠ _); [done|]. intros o1 _ o2 _. simpl. by destruct (fate (c_base o2)).
Qed.
Lemma allocate_quiet n w : runs (2 * n) (allocate n) w (λ _ w', untouched w w').
Proof.
  revert w. induction n as [|n IH]; intros w; [done|]. replace (2 * S n)%nat with (S (S (2 * n))) by lia.
  intros o1 _ o2 _. cbn [fst snd proc_bind]. destruct (fate (c_base o2)); cbn [fst snd]; try (by destruct (2 * n)%nat).
  destruct (trade_no_taken _ _); [apply IH|by destruct (2 * n)%nat].
Qed.
Lemma validateOrderInput_quiet req w : runs 2 (validateOrderInput req cfg) w (λ _ w', untouched w w').
Proof.
  unfold validateOrderInput. repeat case_match; try done. unfold validateSubOrder. case_match; [done|].
  intros o1 _. cbn [fst snd proc_bind]. destruct (fate (c_base o1)); cbn [fst snd]; try done.
  destruct (cw_plans w !! PlanID req) as [plan|]; [|done]. destruct (negb _); [done|].
  intros o2 _. cbn [fst snd proc_bind]. by destruct (fate (c_base o2)).
Qed.
Lemma SelectInstance_quiet expected key paymentType strategy x w :
  runs 4 (SelectInstance c_base expected key paymentType strategy x) w (λ _ w', untouched w w').
Proof.
  intros o1 _. cbn [cquery act fst snd proc_bind]. destruct (fate (c_base o1)); cbn [fst snd]; try done.
  destruct (enabled_instances _ _ _ _) as [|i0 insts]; [done|].
  intros o2 _ o3 _. cbn [fst snd proc_bind]. set (cs := map _ _).
  set (av := match filterByLimits cs _ _ with [] => cs | l => l end). destruct (fate (c_base o3)); cbn [fst snd];
  (destruct av as [|c rest]; [done|]; intros o4 _; cbn [fst snd]; by destruct (pickByStrategy c rest strategy _)).
Qed.

(** What the other steps see of a world is what the tables are. *)
Lemma pending_of_untouched uid w w' : untouched w w' → pending_of uid w' = pending_of uid w.
Proof. unfold pending_of. by intros ->. Qed.
Lemma one_more_untouched req sts w w1 w' : untouched w w1 → one_more req sts w1 w' → one_more req sts w w'.
Proof.
  unfold one_more, money. intros Hu. rewrite Hu. rewrite (pending_of_untouched (UserID req) w w1) by done. done.
Qed.

Lemma new_order_spec id req plan orderAmount payAmount sel outTradeNo now o :
  new_order id req plan orderAmount payAmount sel outTradeNo now = Some o →
  o_status o = Pending ∧ o_user o = UserID req ∧ o_paid_at o = None.
Proof.
  unfold new_order. intros Hn. apply bind_Some in Hn as (amount & _ & Hn). apply bind_Some in Hn as (pay & _ & Hn).
  destruct (_ || _) in Hn; [done|]. by injection Hn as <-.
Qed.
Lemma insert_order_runs req plan x y sel outTradeNo exp w :
  pending_of (UserID req) w < pending_limit →
  runs 1 (ccommit (insert_order req plan x y sel outTradeNo exp)) w (λ r w', match r with
    | Ok id => id = next_id (pays (cw_pay w)) ∧ one_more req [Pending] w w'
    | Err _ => untouched w w' ∨ one_more req [Pending] w w'
    end).
Proof.
  intros Hp o _. cbn [ccommit act fst snd]. destruct (insert_order _ _ _ _ _ _ _ _ w) as [[id w']|e] eqn:E.
  2: { destruct (fate _); by left. }
  assert (id = next_id (pays (cw_pay w)) ∧ one_more req [Pending] w w') as [-> Hone].
  { unfold insert_order in E. destruct (trade_no_taken _ _); [done|].
    destruct (new_order _ _ _ _ _ _ _ _) as [row|] eqn:En; [|done]. injection E as <- <-.
    apply new_order_spec in En as (Hs & Hu & Ha). split; [done|]. split; [done|].
    exists row. split_and!; [done|by rewrite Hs; left|done|done|done]. }
  destruct (fate _); cbn [fst snd ends]; [by split|by left|by right].
Qed.
Lemma createOrderInTx_runs req plan x y z sel w :
  runs 15 (createOrderInTx req plan cfg x y z sel) w (λ r w', match r with
    | Ok id => id = next_id (pays (cw_pay w)) ∧ one_more req [Pending] w w'
    | Err _ => untouched w w' ∨ one_more req [Pending] w w'
    end).
Proof.
  unfold createOrderInTx. eapply (ends_bind _ 1 14); [apply checkPendingLimit_runs|].
  intros r w1 [Hu1 Hp]. destruct r as [u|e]; [|by left]. destruct u. specialize (Hp eq_refl).
  eapply (runs_quiet_bind 2 12); [apply checkDailyLimit_quiet|]. intros r w2 Hu2. destruct r as [u|e].
  2: { left. by etrans. }
  eapply (runs_quiet_bind 1 11); [apply cclock_quiet|]. intros now w3 Hu3.
  eapply (runs_quiet_bind 10 1); [apply (allocate_quiet 5)|]. intros r w4 Hu4.
  assert (untouched w w4) as Hu by (unfold untouched in *; congruence).
  destruct r as [tradeNo|e]; [|by left].
  eapply ends_weaken; [apply insert_order_runs| done |].
  { by rewrite (pending_of_untouched _ w). }
  intros r w5. destruct r as [id|e].
  - intros [-> Hone]. rewrite Hu. split; [done|]. by eapply one_more_untouched.
  - intros [Hs|Hone]; [left; by etrans|right; by eapply one_more_untouched].
Qed.

Lemma one_more_weaken req sts sts' w w' : sts ⊆ sts' → one_more req sts w w' → one_more req sts' w w'.
Proof. intros Hs (Hm & o & Ho & Hst & Hrest). split; [done|]. exists o. split_and!; try apply Hrest; auto. Qed.
Lemma update_created_runs req sts sts' f w0 w :
  (∀ now o o', f now o = Some o' → o_user o' = o_user o ∧ o_paid_at o' = o_paid_at o ∧
                 (o_status o ∈ sts → o_status o' ∈ sts')) →
  sts ⊆ sts' → one_more req sts w0 w →
  runs 1 (update_created (next_id (pays (cw_pay w0))) f) w (λ _ w', one_more req sts' w0 w').
Proof.
  intros Hf Hsub Hw ora _. pose proof (one_more_weaken _ _ sts' _ _ Hsub Hw) as Hw'.
  destruct Hw as (Hm & o & Ho & Hs & Hu & Ha & Hp).
  cbn [update_created ccommit act fst snd]. rewrite Ho, lookup_insert_eq.
  destruct (f _ o) as [o'|] eqn:Ef; [|by destruct (fate _)].
  destruct (Hf _ _ _ Ef) as (Hu' & Ha' & Hs').
  assert (one_more req sts' w0
            (set_pay (set_pays (set_orders <[next_id (pays (cw_pay w0)) := o']> (pays (cw_pay w))) (cw_pay w)) w)) as Hone.
  { split; [exact Hm|]. exists o'. cbn [set_pay cw_pay set_pays pays set_orders orders]. rewrite Ho, insert_insert_eq.
    split_and!; [done|auto|congruence|congruence|done]. }
  by destruct (fate _).
Qed.
Lemma audit_runs req sts oid action w0 w :
  one_more req sts w0 w → runs 1 (clift (writeAuditLog oid action)) w (λ _ w', one_more req sts w0 w').
Proof.
  intros (Hm & o & Ho & Hrest) ora _.
  assert (∀ d, orders d = orders (pays (cw_pay w)) → codes d = codes (pays (cw_pay w)) →
    pusers d = pusers (pays (cw_pay w)) → subs d = subs (pays (cw_pay w)) → rebates d = rebates (pays (cw_pay w)) →
    attempts d = attempts (pays (cw_pay w)) → one_more req sts w0 (set_pay (set_pays d (cw_pay w)) w)) as Hd.
  { intros d E1 E2 E3 E4 E5 E6. split; [by unfold money in *; cbn; rewrite E2, E3, E4, E5, E6|].
    exists o. split; [cbn; by rewrite E1|done]. }
  cbn [writeAuditLog clift fst snd]. case_decide; cbn [fst snd]; destruct (fate _); by apply Hd.
Qed.
Lemma invokeProvider_runs req sel w0 w :
  one_more req [Pending] w0 w →
  runs 3 (invokeProvider (next_id (pays (cw_pay w0))) sel) w
    (λ r w', one_more req [Pending] w0 w' ∧ (∀ r', r = Ok r' → r' = Created (next_id (pays (cw_pay w0))))).
Proof.
  intros Hw ora _. cbn [fst snd proc_bind]. destruct (c_payment ora) as [tradeNo|]; [|by split].
  eapply (ends_bind _ 1 1).
  { eapply (update_created_runs req [Pending]); [|done|exact Hw]. intros now o o' Ho. unfold opened in Ho.
    destruct (128 <? _) in Ho; [done|]. by injection Ho as <-. }
  intros r w1 Hw1. destruct r as [u|e]; [|by split].
  eapply (ends_bind _ 1 0); [by apply audit_runs|]. intros ? w2 Hw2. split; [done|]. by intros r' [= <-].
Qed.
Lemma oauth_quiet req sel w : runs 2 (maybeBuildWeChatOAuthRequiredResponse req sel) w (λ _ w', untouched w w').
Proof.
  unfold maybeBuildWeChatOAuthRequiredResponse. destruct (_ && _); [done|]. destruct (_ || _); [done|].
  intros o1 _. cbn [fst snd proc_bind]. destruct (c_wechat o1); [|done]. intros o2 _. simpl. by destruct (c_signing o2).
Qed.

(** How a run of [CreateOrder] ends. *)
Definition created_or_not (req : CreateOrderRequest) (w : CreateWorld) (r : res CErr CreateOrderResponse)
    (w' : CreateWorld) : Prop :=
  match r with
  | Ok (Created oid) => oid = next_id (pays (cw_pay w)) ∧ one_more req [Pending] w w'
  | Ok OAuthRequired => untouched w w'
  | Err _ => untouched w w' ∨ one_more req [Pending; Failed] w w'
  end.
Lemma place_order_runs req plan x y z sel w :
  runs 21 (place_order req plan cfg x y z sel) w (created_or_not req w).
Proof.
  eapply (runs_quiet_bind 2 19); [apply oauth_quiet|]. intros r w1 Hu. destruct r as [[]|e]; [done| |by left].
  eapply (ends_bind _ 15 4); [apply createOrderInTx_runs|]. intros r w2. destruct r as [id|e].
  2: { intros [Hq|Hone]; [left; by etrans|right].
       eapply one_more_weaken; [|by eapply one_more_untouched]. set_solver. }
  intros [-> Hone%(one_more_untouched _ _ w)]; [|done]. rewrite Hu.
  eapply (ends_bind _ 3 1); [by apply invokeProvider_runs|]. intros r w3 [Hone3 Hr]. destruct r as [r'|e].
  { by rewrite (Hr r' eq_refl). }
  eapply (ends_bind _ 1 0).
  { eapply (update_created_runs req [Pending] [Pending; Failed]); [|set_solver|exact Hone3].
    intros now o o' [= <-]. split_and!; [done|done|]. intros _. right. by left. }
  intros ? w4 Hone4. by right.
Qed.

Lemma created_or_not_untouched req w w1 r w' :
  untouched w w1 → created_or_not req w1 r w' → created_or_not req w r w'.
Proof.
  intros Hu. destruct r as [[|oid]|e]; simpl.
  - intros Hq. by etrans.
  - rewrite Hu. intros [-> Hone]. split; [done|]. by eapply one_more_untouched.
  - intros [Hq|Hone]; [left; by etrans|right; by eapply one_more_untouched].
Qed.
Lemma selectCreateOrderInstance_quiet req x w :
  runs 6 (selectCreateOrderInstance req cfg x) w (λ _ w', untouched w w').
Proof.
  unfold selectCreateOrderInstance. eapply (runs_quiet_bind 2 4).
  { unfold prepareCreateOrderSelectionContext. destruct (negb _); [done|].
    intros o1 _. cbn [fst snd proc_bind]. destruct (negb _); [done|]. intros o2 _. simpl. by destruct (c_wechat o2). }
  intros r w1 Hu. destruct r as [expected|e]; [|done].
  eapply (ends_bind _ 4 0); [apply SelectInstance_quiet|]. intros sel w2 Hu2. by transitivity (cw_pay w1).
Qed.
Lemma validateSelected_quiet req sel w :
  runs 1 (validateSelectedCreateOrderInstance req sel) w (λ _ w', untouched w w').
Proof.
  unfold validateSelectedCreateOrderInstance. destruct (negb _); [done|]. intros o _. simpl. by destruct (c_wechat o).
Qed.
Lemma choose_and_place_runs req plan w :
  runs 30 (choose_and_place req plan cfg) w (created_or_not req w).
Proof.
  unfold choose_and_place. destruct (order_amounts req plan cfg) as [x y].
  intros o _. cbn [fst snd proc_bind]. destruct (c_currency o) as [methodCurrency|]; [|by left].
  destruct (calculateCreateOrderPayAmountForOrderType _ _ _ _ _) as [[str z]|e]; [|by left].
  eapply (runs_quiet_bind 6 23); [apply selectCreateOrderInstance_quiet|]. intros sel w1 Hu1. destruct sel as [sel|e]; [|by left].
  eapply (runs_quiet_bind 1 22); [apply validateSelected_quiet|]. intros v w2 Hu2.
  assert (untouched w w2) as Hu by (unfold untouched in *; congruence). destruct v as [v|e]; [|by left].
  destruct (if String.eqb _ _ then _ else _) as [[str' z']|e]; [|by left]. destruct (negb _); [by left|].
  eapply ends_weaken; [apply place_order_runs|lia|]. intros r w3. by apply created_or_not_untouched.
Qed.

(** C22: whatever fails, [CreateOrder] ends, and on its own it adds at most one
    order, of the user who asked, not yet paid, and only when the user had
    fewer pending orders than the limit; every other order, the users, their
    codes and subscriptions stay as they are.  It answers that the order is
    created exactly with one that is pending. *)
Theorem CreateOrder_adds_one req w :
  ends configured 40 (CreateOrder req) w (λ r w', match r with
    | Ok (Created oid) => oid = next_id (pays (cw_pay w)) ∧ one_more req [Pending] w w'
    | Ok OAuthRequired => cw_pay w' = cw_pay w
    | Err _ => cw_pay w' = cw_pay w ∨ one_more req [Pending; Failed] w w'
    end).
Proof.
  change (runs 40 (CreateOrder req) w (created_or_not req w)). unfold CreateOrder.
  set (req' := with_types _ _ req). change (created_or_not req w) with (created_or_not req' w).
  intros o1 Hc. cbn [fst snd proc_bind]. destruct (c_config o1) as [c|] eqn:Ec; [|by left].
  apply Hc in Ec as ->. destruct (negb _); [by left|].
  eapply (runs_quiet_bind 2 37); [apply validateOrderInput_quiet|]. intros plan w1 Hu1. destruct plan as [plan|e]; [|by left].
  intros o2 _. cbn [fst snd proc_bind]. destruct (negb (c_cancels o2)); [by left|].
  intros o3 _. cbn [fst snd proc_bind]. destruct (c_user o3) as [st|]; [|by left]. destruct (negb _); [by left|].
  eapply ends_weaken; [apply choose_and_place_runs|lia|]. intros r w2. by apply created_or_not_untouched.
Qed.
End Create.

(** ** Runs *)

Module CreateDemo.
#[local] Existing Instance PayDemo.demo_text.
#[local] Existing Instance PayDemo.demo_num.
#[local] Existing Instance PayDemo.demo_affiliate.
(** Limits and configurations by name. *)
#[local] Instance demo_texts : InstanceTexts :=
  {| parse_limits := λ s, if String.eqb s "max5"
                          then Some {["alipay" := {| DailyLimit := f0; SingleMin := f0; SingleMax := f_of_int 5 |}]}
                          else None;
     parse_config := λ s, if String.eqb s "ali" then Some {["appId" := " 2021 "]}
                          else if String.eqb s "wx"
                          then Some {["appId" := "wx1"; "mpAppId" := " wxmp "; "mchId" := "1900 "]}
                          else if String.eqb s "kwd" then Some {["accountId" := "acct"; "currency" := "kwd"]} else None;
     decrypt := λ _, None; start_of_day := λ t, t / Day * Day |}.
#[local] Instance demo_decimals : Decimals :=
  {| mul_round := λ x y _, x *ᶠ y; fixed := λ _ _, "10"; with_fee := λ _ _ _, "10";
     has_digits := λ _ _, Some true; format_float := λ _, "10"; parse_float := λ _, Some (f_of_int 10) |}.

Definition instance (id : Z) (key config limits : string) (sort : Z) : Instance :=
  {| inst_ID := id;
     inst_Provider := {| pi_ProviderKey := key; pi_SupportedTypes := key; pi_RefundEnabled := true;
                         pi_AllowUserRefund := true |};
     inst_Row := {| in_Enabled := true; in_SortOrder := sort; in_Config := config; in_Limits := limits;
                    in_PaymentMode := "" |} |}.
Definition small := instance 4 "alipay" "ali" "max5" 1.
Definition large := instance 5 "alipay" "ali" "" 2.
Definition world (insts : list Instance) : CreateWorld :=
  {| cw_pay := {| pays :=
       {| orders := ∅; instances := list_to_map ((λ i, (inst_ID i, inst_Provider i)) <$> insts); codes := ∅;
          pusers := {[7 := PayDemo.demo_user]}; pgroups := ∅; subs := ∅; audit := ∅; rebates := [];
          attempts := ∅; locks := ∅; next_id := 100 |};
       rcols := ∅; pending_rows := ∅; dates := ∅; gateway := [] |};
     cw_rows := list_to_map ((λ i, (inst_ID i, inst_Row i)) <$> insts); cw_plans := ∅; cw_counter := 0 |}.
Definition settings : PaymentConfig :=
  {| Enabled := true; MinAmount := f0; MaxAmount := f0; cfg_DailyLimit := f0; OrderTimeoutMin := 30;
     MaxPendingOrders := 1; BalanceDisabled := true; BalanceRechargeMultiplier := f_of_int 3;
     SubscriptionUSDToCNYRate := f0; RechargeFeeRate := f0; LoadBalanceStrategy := StrategyLeastAmount |}.
Definition enabled : PaymentConfig :=
  {| Enabled := true; MinAmount := f0; MaxAmount := f0; cfg_DailyLimit := f0; OrderTimeoutMin := 30;
     MaxPendingOrders := 1; BalanceDisabled := false; BalanceRechargeMultiplier := f_of_int 3;
     SubscriptionUSDToCNYRate := f0; RechargeFeeRate := f0; LoadBalanceStrategy := StrategyLeastAmount |}.
Definition request (type : string) : CreateOrderRequest :=
  {| UserID := 7; Amount := f_of_int 10; PaymentType := "alipay"; OpenID := ""; IsWeChatBrowser := false;
     req_OrderType := type; PlanID := 0 |}.
Definition oracle (cfg : PaymentConfig) (tail : string) (payment : option string) : COracle :=
  {| c_base := {| fate := Fine; o_now := PayDemo.t0 |}; c_config := Some cfg; c_user := Some "active";
     c_cancels := true; c_currency := Some "CNY"; c_official := false; c_wechat := None; c_signing := false;
     c_candidate := tail; c_payment := payment |}.
Definition alone (cfg : PaymentConfig) (payment : option string) (type : string) (w : CreateWorld) :=
  run_alone (CreateOrder (request type)) (repeat (oracle cfg "x" payment) 40) w.
Definition order_of (w : CreateWorld) (id : Z) : option Order := orders (pays (cw_pay w)) !! id.

(** The instance that does not take the amount is passed over. *)
Example passed_over :
  let w := fst (alone enabled (Some "T1") "" (world [small; large])) in
  (λ o, (o_status o, o_amount o, o_pay_amount o, o_provider_instance_id o)) <$> order_of w 100
  = Some (Pending, 3000, 1000, Some "5").
Proof. vm_compute. reflexivity. Qed.

(** With recharging disabled, an order of a type nobody knows is a recharge,
    without the multiplier. *)
Example unknown_order_type :
  snd (alone settings (Some "T1") "balance" (world [large])) = Some (Err CBalanceDisabled) ∧
  let (w, r) := alone settings (Some "T1") "gift" (world [large]) in
  r = Some (Ok (Created 100)) ∧
  (λ o, (o_order_type o, o_amount o)) <$> order_of w 100 = Some ("gift", 1000) ∧
  let d := fst (run (PayDemo.steps 0 60)
                 (pays (cw_pay w), serve (λ _, "") <$> [PayDemo.notify "sub2_x"])) in
  pu_balance <$> pusers d !! 7 = Some (10 * 10 ^ 8) ∧ o_status <$> orders d !! 100 = Some Completed.
Proof. vm_compute. split_and!; reflexivity. Qed.

(** Two requests at once: both see no pending order, and both orders are
    inserted although the limit is one. *)
Definition two_at_once :=
  let ora tail := oracle enabled tail (Some "T1") in
  run (mjoin (repeat [(0%nat, ora "x"); (1%nat, ora "y")] 40))
    (world [large], [CreateOrder (request ""); CreateOrder (request "")]).
Example two_pending :
  let w := fst two_at_once in
  pending_of 7 w = 2 ∧ MaxPendingOrders enabled = 1 ∧
  snd two_at_once = [Ret (Ok (Created 100)); Ret (Ok (Created 101))].
Proof. vm_compute. split_and!; reflexivity. Qed.

(** A payment the provider did open, although the call failed: the order is
    failed; its notification still credits it, and it is completed without
    a time of payment. *)
Example paid_after_failed_creation :
  let w := fst (alone enabled None "balance" (world [large])) in
  (λ o, (o_status o, o_failed_at o)) <$> order_of w 100 = Some (Failed, None) ∧
  let d := fst (run (PayDemo.steps 0 80) (pays (cw_pay w), serve (λ _, "") <$> [PayDemo.notify "sub2_x"])) in
  pu_balance <$> pusers d !! 7 = Some (30 * 10 ^ 8) ∧
  (λ o, (o_status o, o_paid_at o)) <$> orders d !! 100 = Some (Completed, None) ∧
  List.filter (paid_today 7 0) (snd <$> map_to_list (orders d)) = [].
Proof. vm_compute. split_and!; reflexivity. Qed.

(** An order of 1.235 dinars is kept as 1.24, and its payment refused. *)
Definition dinars := instance 6 "airwallex" "kwd" "" 1.
Definition dinar_order : option Order :=
  new_order 100 (request "balance") None (f_dec 1235 3) (f_dec 1235 3) (buildSelection dinars) "sub2_x" PayDemo.t0.
Example dinar_payment :
  (λ o, (o_pay_amount o, PaymentOrderCurrency o,
         check_notification (λ _, "") (Some (inst_Provider dinars)) o (f_dec 1235 3) "airwallex" ∅)) <$> dinar_order
  = Some (124, "KWD", Err AmountMismatch).
Proof. vm_compute. reflexivity. Qed.

Lemma snapshot_roundtrip_witness :
  ∃ o, dinar_order = Some o ∧ psOrderProviderSnapshot o = Some (snapshot_of (buildSelection dinars) "") ∧
       MerchantID (snapshot_of (buildSelection dinars) "") = "acct" ∧
       snap_Currency (snapshot_of (buildSelection dinars) "") = "KWD".
Proof.
  assert (∃ o, dinar_order = Some o ∧ o_snapshot o = buildPaymentOrderProviderSnapshot (buildSelection dinars) "")
    as (o & E & Ho) by (eexists; split; vm_compute; reflexivity).
  exists o. split; [exact E|]. split; [|split; vm_compute; reflexivity].
  apply (snapshot_roundtrip (buildSelection dinars) "" o); [discriminate|exact Ho].
Defined.

(** A WeChat Pay order paid inside WeChat: its notification names the official
    account's app id, not the merchant's. *)
Definition wechat := instance 7 "wxpay" "wx" "" 1.
Definition in_wechat : CreateOrderRequest :=
  {| UserID := 1; Amount := f_of_int 10; PaymentType := "wxpay"; OpenID := " oUser "; IsWeChatBrowser := true;
     req_OrderType := "balance"; PlanID := 0 |}.
Definition wx_order : option Order :=
  new_order 100 in_wechat None (f_of_int 30) (f_of_int 10) (buildSelection wechat) "sub2_x" PayDemo.t0.
Definition wx_transaction (app mch state : string) : Notified :=
  WxpayNotified {| tx_Appid := Some app; tx_Mchid := Some mch; tx_TradeState := Some state; tx_Amount := Some (Some "CNY") |}.
Lemma wx_orders : ∃ o o', wx_order = Some o ∧ opened "T1" (buildSelection wechat) PayDemo.t0 o = Some o' ∧
  o_pay_amount o' = 1000 ∧
  of_payment (Config (buildSelection wechat)) "oUser" "" false (wx_transaction "wxmp" "1900 " "SUCCESS").
Proof.
  eexists _, _. split_and!; [vm_compute; reflexivity..|].
  exists wxpayModeJSAPI. split; vm_compute; reflexivity.
Qed.
Lemma created_order_is_payable_witness :
  ∃ o', check_notification (λ _, "") (getOrderProviderInstance {[7 := inst_Provider wechat]} o') o' (f_of_int 10)
          "wxpay" (NotificationMetadata (Config (buildSelection wechat)) (wx_transaction "wxmp" "1900 " "SUCCESS")) = Ok ()
        ∧ o_pay_amount o' = 1000.
Proof.
  destruct wx_orders as (o & o' & Ho & Ho' & Hp & Hof). exists o'. split; [|exact Hp].
  pose proof (created_order_is_payable (λ s, String.eqb_refl s) 100 in_wechat None (f_of_int 30)
    (f_of_int 10) wechat "sub2_x" "T1" PayDemo.t0 PayDemo.t0 o o' {[7 := inst_Provider wechat]} (λ _, "") "" false
    (wx_transaction "wxmp" "1900 " "SUCCESS") Ho Ho') as Hok.
  cbv zeta in Hok. rewrite Hp in Hok.
  apply Hok; [reflexivity|split; discriminate|reflexivity|exact Hof|reflexivity].
Defined.

(** The checks do look: another app id, another merchant, and a state that is
    not SUCCESS are turned down. *)
Example wx_rejected :
  (λ o, map (λ n, check_notification (λ _, "") (Some (inst_Provider wechat)) o (f_of_int 10) "wxpay"
                    (NotificationMetadata (Config (buildSelection wechat)) n))
          [wx_transaction "wx1" "1900" "SUCCESS"; wx_transaction "wxmp" "1901" "SUCCESS";
           wx_transaction "wxmp" "1900" "REFUND"]) <$> wx_order
  = Some [Err (MetadataRejected (MetadataMismatch "appid")); Err (MetadataRejected (MetadataMismatch "mchid"));
          Err (MetadataRejected (MetadataMismatch "trade_state"))].
Proof. vm_compute. reflexivity. Qed.
End CreateDemo.
