(* ===== verification/RedisStore.v ===== *)
(** * Redis, as the caches of the program use it

    Sorted sets and counters under string keys, with expiry.  Instants are
    milliseconds on Redis' own clock, scores are integers (a float64 holds them
    exactly).  A key is a sorted set or a counter, never both: the program gives
    each kind its own prefixes.  A sorted set without members does not exist. *)

From Stdlib Require Import ZArith Lia Ascii String Bool.
From stdpp Require Import base numbers option list gmap strings sorting.
From S2P Require Import Prelude GoStrings.

#[local] Open Scope Z_scope.

(** A key expires once its instant is past, on Redis' clock. *)
Definition key_alive (now expiry : Z) : bool := now <=? expiry.

Definition by_score (a b : string * Z) : Prop := snd a < snd b ∨ snd a = snd b ∧ string_le (fst a) (fst b).
#[global] Instance by_score_dec : RelDecision by_score.
Proof. intros a b. unfold by_score. apply _. Defined.

(** [ZRANGEBYSCORE z -inf max LIMIT 0 limit] *)
Definition ZRANGEBYSCORE (z : gmap string Z) (max limit : Z) : list string :=
  take (Z.to_nat limit)
    (fst <$> merge_sort by_score (List.filter (λ p, snd p <=? max) (map_to_list z))).

(** ** The store *)

Record Store := {
  zsets : gmap string (gmap string Z);
  counters : gmap string Z;
  expiry : gmap string Z;
}.

Definition alive (now : Z) (s : Store) (k : string) : Prop :=
  match expiry s !! k with Some e => now ≤ e | None => True end.
#[export] Instance alive_dec now s k : Decision (alive now s k).
Proof. unfold alive. destruct (expiry s !! k); apply _. Defined.

(** What is left at an instant: the keys that have not expired. *)
Definition live (now : Z) (s : Store) : Store :=
  {| zsets := filter (λ e, alive now s (fst e)) (zsets s);
     counters := filter (λ e, alive now s (fst e)) (counters s);
     expiry := filter (λ e, alive now s (fst e)) (expiry s) |}.

Definition zset (k : string) (s : Store) : gmap string Z := default ∅ (zsets s !! k).

Definition DEL (k : string) (s : Store) : Store :=
  {| zsets := delete k (zsets s); counters := delete k (counters s); expiry := delete k (expiry s) |}.
Definition put_zset (k : string) (z : gmap string Z) (s : Store) : Store :=
  if decide (z = ∅) then DEL k s
  else {| zsets := <[k := z]> (zsets s); counters := counters s; expiry := expiry s |}.

Definition ZREMRANGEBYSCORE (k : string) (max : Z) (s : Store) : Store :=
  put_zset k (filter (λ e, max < snd e) (zset k s)) s.
Definition ZCARD (k : string) (s : Store) : Z := Z.of_nat (size (zset k s)).
Definition ZSCORE (k m : string) (s : Store) : option Z := zset k s !! m.
Definition ZADD (k : string) (score : Z) (m : string) (s : Store) : Store :=
  put_zset k (<[m := score]> (zset k s)) s.
Definition ZREM (k m : string) (s : Store) : Store := put_zset k (delete m (zset k s)) s.
(** [ZRANGE k 0 -1] *)
Definition ZRANGE (k : string) (s : Store) : list string :=
  fst <$> merge_sort by_score (map_to_list (zset k s)).

Definition exists_key (k : string) (s : Store) : bool :=
  bool_decide (is_Some (zsets s !! k)) || bool_decide (is_Some (counters s !! k)).
(** [EXPIRE], in seconds. *)
Definition EXPIRE (now : Z) (k : string) (ttl : Z) (s : Store) : Store :=
  if negb (exists_key k s) then s
  else if ttl <=? 0 then DEL k s
  else {| zsets := zsets s; counters := counters s; expiry := <[k := now + ttl * 1000]> (expiry s) |}.

Definition GET (k : string) (s : Store) : option Z := counters s !! k.
(** [SET] without a lifetime. *)
Definition SET (k : string) (v : Z) (s : Store) : Store :=
  {| zsets := delete k (zsets s); counters := <[k := v]> (counters s); expiry := delete k (expiry s) |}.
Definition INCRBY (k : string) (d : Z) (s : Store) : Store :=
  {| zsets := zsets s; counters := <[k := default 0 (counters s !! k) + d]> (counters s); expiry := expiry s |}.

(** ** Lemmas *)

Lemma zset_live now k s : zset k (live now s) = if decide (alive now s k) then zset k s else ∅.
Proof.
  unfold zset, live. simpl. rewrite map_lookup_filter. destruct (zsets s !! k) as [z|]; simpl;
    [|by destruct (decide _)]. case_decide as Ha; case_guard as Hg; simpl in *; tauto.
Qed.
Lemma zset_live_subseteq now k s : zset k (live now s) ⊆ zset k s.
Proof. rewrite zset_live. case_decide; [done|apply map_empty_subseteq]. Qed.
Lemma zset_DEL k k' s : zset k (DEL k' s) = if decide (k = k') then ∅ else zset k s.
Proof.
  unfold zset, DEL. simpl. case_decide as Hk; subst; [by rewrite lookup_delete_eq|by rewrite lookup_delete_ne].
Qed.
Lemma zset_put k k' z s : zset k (put_zset k' z s) = if decide (k = k') then z else zset k s.
Proof.
  unfold put_zset. case_decide as Hz.
  - rewrite zset_DEL, Hz. done.
  - unfold zset. simpl. case_decide as Hk; subst; [by rewrite lookup_insert_eq|by rewrite lookup_insert_ne].
Qed.
Lemma zset_ZADD k k' sc m s :
  zset k (ZADD k' sc m s) = if decide (k = k') then <[m := sc]> (zset k s) else zset k s.
Proof. unfold ZADD. rewrite zset_put. case_decide; by subst. Qed.
Lemma zset_ZREM k k' m s : zset k (ZREM k' m s) = if decide (k = k') then delete m (zset k s) else zset k s.
Proof. unfold ZREM. rewrite zset_put. case_decide; by subst. Qed.
Lemma zset_ZREMRANGEBYSCORE k k' max s :
  zset k (ZREMRANGEBYSCORE k' max s) =
  if decide (k = k') then filter (λ e, max < snd e) (zset k s) else zset k s.
Proof. unfold ZREMRANGEBYSCORE. rewrite zset_put. case_decide; by subst. Qed.
Lemma zset_EXPIRE k now k' ttl s :
  zset k (EXPIRE now k' ttl s) = if decide (k = k' ∧ ttl ≤ 0) then ∅ else zset k s.
Proof.
  unfold EXPIRE. destruct (exists_key k' s) eqn:Ee; simpl.
  - destruct (Z.leb_spec ttl 0).
    + rewrite zset_DEL. repeat case_decide; tauto.
    + case_decide; [lia|done].
  - case_decide as Hk; [|done]. destruct Hk as [-> _]. unfold zset, exists_key in *.
    apply orb_false_iff in Ee as [Ee _]. apply bool_decide_eq_false in Ee.
    destruct (zsets s !! k') eqn:E; [exfalso; eauto|done].
Qed.
Lemma zset_SET k k' v s : zset k (SET k' v s) = if decide (k = k') then ∅ else zset k s.
Proof.
  unfold zset, SET. simpl. case_decide as Hk; subst; [by rewrite lookup_delete_eq|by rewrite lookup_delete_ne].
Qed.
Lemma zset_INCRBY k k' d s : zset k (INCRBY k' d s) = zset k s.
Proof. done. Qed.
Create HintDb redis.
#[export] Hint Rewrite zset_DEL zset_put zset_ZADD zset_ZREM zset_ZREMRANGEBYSCORE zset_EXPIRE zset_SET
  zset_INCRBY : redis.

(** Fewer members than elements inserted. *)
Lemma size_insert_le (m : gmap string Z) k v : (size (<[k := v]> m) ≤ S (size m))%nat.
Proof. rewrite map_size_insert. destruct (m !! k); simpl; lia. Qed.
Lemma size_filter_le (P : string * Z → Prop) `{∀ x, Decision (P x)} (m : gmap string Z) :
  (size (filter P m) ≤ size m)%nat.
Proof. apply map_subseteq_size, map_filter_subseteq. Qed.
