(* ===== verification/BatchImage.v ===== *)
(** * Batch-image jobs

    A batch-image job reserves an amount of the user's balance, is submitted to
    a provider, polled by a worker until it ends, indexed, and settled: the
    cost of the images is captured from the hold, or the hold is released.

    [src/backend/internal/service/batch_image.go] (statuses),
    [batch_image_billing_hold.go], [batch_image_settlement.go],
    [batch_image_processor.go], [batch_image_billing_recovery.go], [Submit] and
    [Cancel] of [batch_image_public.go], and the statements of
    [src/backend/internal/repository/batch_image_repo.go], as processes that
    share the job table, the item table and the billing tables of [UsageDB.v].

    The provider, the queue and the account lookup are outside: what they
    answer to an action is part of its oracle value.  Events, error messages
    and the columns [version], [submitted_at], [started_at],
    [gcs_*_uri], [provider_input_ref], [task_name] and [parent_batch_id] are left out. *)

From Stdlib Require Import ZArith Lia QArith Ascii String Bool.
From stdpp Require Import base numbers option list gmap strings pretty sorting.
From S2P Require Import Prelude GoStrings GoUTF8 GoFloat Channel Resolver UsageDB UsageBilling Redact Proc.

#[local] Open Scope Z_scope.

(** ** Statuses *)

Definition BatchImageJobStatusCreated : string := "created".
Definition BatchImageJobStatusUploading : string := "uploading".
Definition BatchImageJobStatusSubmitted : string := "submitted".
Definition BatchImageJobStatusRunning : string := "running".
Definition BatchImageJobStatusIndexing : string := "indexing".
Definition BatchImageJobStatusSettling : string := "settling".
Definition BatchImageJobStatusCompleted : string := "completed".
Definition BatchImageJobStatusFailed : string := "failed".
Definition BatchImageJobStatusCancelled : string := "cancelled".
Definition BatchImageJobStatusOutputDeleted : string := "output_deleted".

Definition one_of_status (l : list string) (s : string) : bool := existsb (String.eqb s) l.

Definition IsTerminalBatchImageJobStatus (status : string) : bool :=
  one_of_status [BatchImageJobStatusCompleted; BatchImageJobStatusFailed; BatchImageJobStatusCancelled;
                 BatchImageJobStatusOutputDeleted] status.

Definition allowed_transitions (from : string) : list string :=
  if String.eqb from BatchImageJobStatusCreated then
    [BatchImageJobStatusUploading; BatchImageJobStatusSubmitted; BatchImageJobStatusCancelled]
  else if String.eqb from BatchImageJobStatusUploading then
    [BatchImageJobStatusSubmitted; BatchImageJobStatusCancelled]
  else if String.eqb from BatchImageJobStatusSubmitted then
    [BatchImageJobStatusRunning; BatchImageJobStatusIndexing; BatchImageJobStatusFailed;
     BatchImageJobStatusCancelled]
  else if String.eqb from BatchImageJobStatusRunning then
    [BatchImageJobStatusRunning; BatchImageJobStatusIndexing; BatchImageJobStatusFailed;
     BatchImageJobStatusCancelled]
  else if String.eqb from BatchImageJobStatusIndexing then
    [BatchImageJobStatusSettling; BatchImageJobStatusFailed]
  else if String.eqb from BatchImageJobStatusSettling then [BatchImageJobStatusCompleted]
  else [].

Definition CanTransitionBatchImageJob (from to : string) : bool :=
  if String.eqb from "" || String.eqb to "" then false
  else if IsTerminalBatchImageJobStatus from then
    String.eqb to BatchImageJobStatusOutputDeleted
    && negb (String.eqb from BatchImageJobStatusOutputDeleted)
    && one_of_status [BatchImageJobStatusCompleted; BatchImageJobStatusFailed;
                      BatchImageJobStatusCancelled] from
  else if String.eqb to BatchImageJobStatusFailed then true
  else one_of_status (allowed_transitions from) to.

(** ** Jobs *)

(** What is fixed when the job is created. *)
Record JobSpec := {
  BatchID : string;
  job_UserID : Z;
  job_APIKeyID : option Z;
  job_AccountID : option Z;
  Provider : string;
  job_Model : string;
  ItemCount : Z;
  EstimatedCost : f64;
  HoldAmount : option f64;
  BillableUnitPrice : f64;
  PricingSnapshotVersion : Z;
  RequestHash : option string;
  job_IdempotencyKey : option string;
}.

Record BatchImageJob := {
  spec : JobSpec;
  Status : string;
  ProviderJobName : option string;
  ProviderOutputRef : option string;
  SuccessCount : Z;
  FailCount : Z;
  ActualCost : option f64;
  ManifestHash : option string;
  RetryCount : Z;
  LastErrorCode : option string;
  UpdatedAt : time;
  FinishedAt : option time;
  SettledAt : option time;
  OutputExpiresAt : option time;
  OutputDeletedAt : option time;
  InputDeletedAt : option time;
  UserDeletedAt : option time;
  JobID : Z;
}.

Record BatchImageItem := {
  CustomID : string;
  it_Status : string;
  it_MimeType : option string;
  it_FileExtension : option string;
  it_ImageCount : Z;
  it_ErrorCode : option string;
  it_SourceLineNumber : option Z;
}.

Record BatchDB := {
  bjobs : gmap string BatchImageJob;
  next_job : Z;
  bitems : gmap string (list BatchImageItem);
  billing : DB;
}.

Definition set_jobs (f : gmap string BatchImageJob → gmap string BatchImageJob) (d : BatchDB) : BatchDB :=
  {| bjobs := f (bjobs d); next_job := next_job d; bitems := bitems d; billing := billing d |}.
Definition set_items (f : gmap string (list BatchImageItem) → gmap string (list BatchImageItem))
    (d : BatchDB) : BatchDB :=
  {| bjobs := bjobs d; next_job := next_job d; bitems := f (bitems d); billing := billing d |}.
Definition set_billing (b : DB) (d : BatchDB) : BatchDB :=
  {| bjobs := bjobs d; next_job := next_job d; bitems := bitems d; billing := b |}.

(** ** The world outside *)

Record BatchProviderJob := { pj_JobName : string; pj_OutputRef : string }.
Inductive ProviderState := PQueued | PRunning | PSucceeded | PFailed | PExpired | PCancelled | POther.
Record BatchProviderStatus := {
  InternalState : ProviderState;
  st_ProviderOutputRef : string;
  st_ErrorCode : string;
  SuggestedRequeueAfter : duration;
}.

Inductive BErr :=
| EBDB
| EBatchImageJobNotFound
| EBatchImageJobExists
| EBatchImageInvalidProvider
| EBatchImageIdempotencyConflict
| EBatchImageProviderUnsupportedAccount
| EBatchImageOutputDeleteNotReady
| EBatchImageCleanupFailed
| EBatchImageProviderCleanupFailed
| EBatchImageCleanupUnsafePath
| EBatchImageVertexGCSBucketMissing
| EBatchImageProviderMissingAPIKey
| EBatchImageProviderMissingServiceAccount
| EBatchImageInvalidTransition
| EBatchImageIndexStateConflict
| EBatchImageIndexParseFailed
| EBatchImageIndexRead
| EBatchImageIndexNoResultLines
| EBatchImageDuplicateCustomID
| EBatchImageIndexOutputMissing
| EBatchImageAlreadySettled
| EBatchImageSettlementInvalidStatus
| EBatchImageSettlementManifestConflict
| EBatchImageSettlementMissingAPIKeyID
| EBatchImageSettlementMissingAccountID
| EBatchImageSettlementInvalidCounts
| EBatchImageSettlementPricingMissing
| EBatchImageSettlementCostExceedsHold
| EBatchImageSettlementBillingFailed
| EBatchImageBillingHoldFailed
| EBatchImageInsufficientBalance
| EBatchImageUnsupportedProvider
| EBatchImageMissingAccountID
| EBatchImageMissingProviderJobName
| EBatchImageProviderSubmitFailed
| EBatchImageQueueFailed
| EBatchImageCancelFailed
| EAccount.

(** A result as it is read: its lines, and the error that ends the reading
    before the end of the file, after which the rest of a line counts as one. *)
Inductive ScanError := ErrTooLong | ErrUnexpectedEOF | ErrRead.
Record ResultFile := { rf_lines : list string; rf_error : option ScanError }.

(** What happens to an action: the fate of a statement, the time, the faults
    of a billing transaction, and what the outside answers: whether it is
    willing, the reason of its error, the provider's job (or the reason of its
    error), its status, its result, and the price of a model. *)
Record BOracle := {
  b_fate : Fate;
  b_now : time;
  b_faults : Faults;
  b_ok : bool;
  b_error : option string;
  b_submit : res string (option BatchProviderJob);
  b_status : option (option BatchProviderStatus);
  b_result : option ResultFile;
  b_pricing : option ResolvedPricing;
}.

Abbreviation batch A := (proc BatchDB BOracle A).

Definition bread {B} (f : BatchDB → B) : batch (option B) :=
  act (λ o d, match b_fate o with Fine => (Some (f d), d) | _ => (None, d) end).
Definition bnow : batch time := act (λ o d, (b_now o, d)).
Definition ask {B} (f : BOracle → B) : batch B := act (λ o d, (f o, d)).
Definition bwrite {A} (f : time → BatchDB → res BErr (A * BatchDB)) : batch (res BErr A) :=
  act (λ o d, match b_fate o, f (b_now o) d with
              | Fail, _ => (Err EBDB, d)
              | _, Err e => (Err e, d)
              | Fine, Ok (a, d') => (Ok a, d')
              | Lost, Ok (_, d') => (Err EBDB, d')
              end).
(** A billing transaction. *)
Definition bill {A} (f : Faults → DB → DB * res UBError A) : batch (res UBError A) :=
  act (λ o d, let (b, r) := f (b_faults o) (billing d) in (r, set_billing b d)).

(** ** The repository *)

Definition GetBatchImageJobByBatchID (id : string) : batch (res BErr BatchImageJob) :=
  j <-p bread (λ d, bjobs d !! id);
  Ret (match j with
       | None => Err EBDB
       | Some None => Err EBatchImageJobNotFound
       | Some (Some j) => Ok j
       end).

(** [... WHERE batch_id = $1 AND user_id = $2 AND api_key_id = $3 AND
    user_deleted_at IS NULL] *)
Definition GetBatchImageJobByBatchIDForOwner (userID apiKeyID : Z) (id : string) : batch (res BErr BatchImageJob) :=
  j <-p bread (λ d, bjobs d !! id);
  Ret (match j with
       | None => Err EBDB
       | Some None => Err EBatchImageJobNotFound
       | Some (Some j) =>
           if (job_UserID (spec j) =? userID) && bool_decide (job_APIKeyID (spec j) = Some apiKeyID)
              && bool_decide (UserDeletedAt j = None)
           then Ok j else Err EBatchImageJobNotFound
       end).

(** The job with the key created last. *)
Definition newer (a b : BatchImageJob) : BatchImageJob := if JobID a <? JobID b then b else a.
Definition GetBatchImageJobByIdempotencyKey (userID apiKeyID : Z) (key : string) : batch (res BErr BatchImageJob) :=
  j <-p bread (λ d,
    let found := List.filter (λ j, (job_UserID (spec j) =? userID)
                   && bool_decide (job_APIKeyID (spec j) = Some apiKeyID)
                   && bool_decide (job_IdempotencyKey (spec j) = Some key)) (snd <$> map_to_list (bjobs d)) in
    match found with [] => None | j :: js => Some (foldl newer j js) end);
  Ret (match j with
       | None => Err EBDB
       | Some None => Err EBatchImageJobNotFound
       | Some (Some j) => Ok j
       end).

Definition BatchImageProviderGeminiAPI : string := "gemini_api".
Definition BatchImageProviderVertex : string := "vertex".
Definition IsSupportedBatchImageProvider (provider : string) : bool :=
  one_of_status [BatchImageProviderGeminiAPI; BatchImageProviderVertex] provider.

Definition new_job (s : JobSpec) (id : Z) (now : time) : BatchImageJob :=
  {| spec := s; Status := BatchImageJobStatusCreated; ProviderJobName := None; ProviderOutputRef := None;
     SuccessCount := 0; FailCount := 0; ActualCost := None; ManifestHash := None; RetryCount := 0;
     LastErrorCode := None; UpdatedAt := now; FinishedAt := None; SettledAt := None;
     OutputExpiresAt := None; OutputDeletedAt := None; InputDeletedAt := None; UserDeletedAt := None;
     JobID := id |}.
Definition CreateBatchImageJob (s : JobSpec) : batch (res BErr BatchImageJob) :=
  if negb (IsSupportedBatchImageProvider (Provider s)) then Ret (Err EBatchImageInvalidProvider)
  else
    bwrite (λ now d,
      match bjobs d !! BatchID s with
      | Some _ => Err EBatchImageJobExists
      | None => let j := new_job s (next_job d) now in
                Ok (j, {| bjobs := <[BatchID s := j]> (bjobs d); next_job := next_job d + 1;
                          bitems := bitems d; billing := billing d |})
      end).

(** [UPDATE batch_image_jobs SET f WHERE batch_id = id AND guard]: whether a
    row was hit. *)
Definition update_job (id : string) (guard : BatchImageJob → bool) (f : time → BatchImageJob → BatchImageJob)
  : batch (res BErr bool) :=
  bwrite (λ now d, match bjobs d !! id with
                   | Some j => if guard j then Ok (true, set_jobs <[id := f now j]> d) else Ok (false, d)
                   | None => Ok (false, d)
                   end).

Definition first_time {A} (old : option A) (new : A) : option A :=
  match old with Some a => Some a | None => Some new end.

Definition transitioned (to : string) (code : option string) (now : time) (j : BatchImageJob)
  : BatchImageJob :=
  {| spec := spec j; Status := to; ProviderJobName := ProviderJobName j;
     ProviderOutputRef := ProviderOutputRef j; SuccessCount := SuccessCount j;
     FailCount := FailCount j; ActualCost := ActualCost j; ManifestHash := ManifestHash j;
     RetryCount := RetryCount j;
     LastErrorCode := if String.eqb to BatchImageJobStatusFailed then code else LastErrorCode j;
     UpdatedAt := now;
     FinishedAt := if one_of_status [BatchImageJobStatusCompleted; BatchImageJobStatusFailed;
                                     BatchImageJobStatusCancelled] to
                   then first_time (FinishedAt j) now else FinishedAt j;
     SettledAt := if String.eqb to BatchImageJobStatusCompleted
                  then first_time (SettledAt j) now else SettledAt j;
     OutputExpiresAt := OutputExpiresAt j;
     OutputDeletedAt := if String.eqb to BatchImageJobStatusOutputDeleted
                        then first_time (OutputDeletedAt j) now else OutputDeletedAt j;
     InputDeletedAt := InputDeletedAt j; UserDeletedAt := UserDeletedAt j; JobID := JobID j |}.

Definition TransitionBatchImageJobStatus (id to : string) (code : option string) : batch (res BErr unit) :=
  bwrite (λ now d,
    match bjobs d !! id with
    | None => Err EBatchImageJobNotFound
    | Some j =>
        if CanTransitionBatchImageJob (Status j) to
        then Ok ((), set_jobs <[id := transitioned to code now j]> d)
        else Err EBatchImageInvalidTransition
    end).

(** The heartbeat of a slow submission. *)
Definition submitting (j : BatchImageJob) : bool :=
  one_of_status [BatchImageJobStatusCreated; BatchImageJobStatusUploading] (Status j).
Definition touched (now : time) (j : BatchImageJob) : BatchImageJob :=
  Build_BatchImageJob (spec j) (Status j) (ProviderJobName j) (ProviderOutputRef j) (SuccessCount j)
    (FailCount j) (ActualCost j) (ManifestHash j) (RetryCount j) (LastErrorCode j) now (FinishedAt j)
    (SettledAt j) (OutputExpiresAt j) (OutputDeletedAt j) (InputDeletedAt j)
    (UserDeletedAt j) (JobID j).
Definition TouchBatchImageJobSubmitting (id : string) : batch (res BErr bool) :=
  update_job id submitting touched.

(** A job that failed now, or keeps its status. *)
Definition failed_with (code : string) (status : string) (now : time) (j : BatchImageJob) : BatchImageJob :=
  Build_BatchImageJob (spec j) status (ProviderJobName j) (ProviderOutputRef j) (SuccessCount j)
    (FailCount j) (ActualCost j) (ManifestHash j) (RetryCount j) (Some code) now
    (if String.eqb status BatchImageJobStatusFailed then first_time (FinishedAt j) now else FinishedAt j)
    (SettledAt j) (OutputExpiresAt j) (OutputDeletedAt j) (InputDeletedAt j)
    (UserDeletedAt j) (JobID j).

Definition stale_unsubmitted (cutoff : time) (j : BatchImageJob) : bool :=
  submitting j && match ProviderJobName j with None => true | Some _ => false end
  && (UpdatedAt j <=? cutoff).
(** [FailStaleUnsubmittedBatchImageJob]: whether the job was failed, and whether
    an error is returned; the event that follows the update can fail alone. *)
Definition FailStaleUnsubmittedBatchImageJob (id : string) (cutoff : time) (code : string)
  : batch (bool * bool) :=
  r <-p update_job id (stale_unsubmitted cutoff) (failed_with code BatchImageJobStatusFailed);
  match r with
  | Err _ => Ret (false, true)
  | Ok false => Ret (false, false)
  | Ok true => event <-p ask b_ok; Ret (true, negb event)
  end.

Definition RecordBatchImageJobSubmitFailure (id code : string) (markFailed : bool) : batch (res BErr bool) :=
  update_job id (λ _, true)
    (λ now j, failed_with code (if markFailed then BatchImageJobStatusFailed else Status j) now j).

Definition UpdateBatchImageJobProviderOutputRef (id ref : string) : batch (res BErr unit) :=
  r <-p update_job id (λ _, true)
    (λ now j, Build_BatchImageJob (spec j) (Status j) (ProviderJobName j) (Some ref) (SuccessCount j)
       (FailCount j) (ActualCost j) (ManifestHash j) (RetryCount j) (LastErrorCode j) now (FinishedAt j)
       (SettledAt j) (OutputExpiresAt j) (OutputDeletedAt j)
    (InputDeletedAt j) (UserDeletedAt j) (JobID j));
  Ret (match r with Err e => Err e | Ok false => Err EBatchImageJobNotFound | Ok true => Ok () end).

Definition null_if_empty (s : string) : option string := if String.eqb s "" then None else Some s.
Definition UpdateBatchImageJobProviderSubmit (id : string) (p : BatchProviderJob) : batch (res BErr unit) :=
  bwrite (λ now d,
    match bjobs d !! id with
    | None => Err EBatchImageJobNotFound
    | Some j =>
        if negb (CanTransitionBatchImageJob (Status j) BatchImageJobStatusSubmitted)
        then Err EBatchImageInvalidTransition
        else Ok ((), set_jobs <[id :=
               Build_BatchImageJob (spec j) BatchImageJobStatusSubmitted (Some (pj_JobName p))
                 (null_if_empty (pj_OutputRef p)) (SuccessCount j) (FailCount j) (ActualCost j)
                 (ManifestHash j) (RetryCount j) (LastErrorCode j) now (FinishedAt j) (SettledAt j)
                 (OutputExpiresAt j) (OutputDeletedAt j) (InputDeletedAt j) (UserDeletedAt j) (JobID j)]> d)
    end).

Definition settled (actualCost : f64) (manifest : string) (outputExpiresAt now : time) (j : BatchImageJob)
  : BatchImageJob :=
  Build_BatchImageJob (spec j) BatchImageJobStatusCompleted (ProviderJobName j) (ProviderOutputRef j)
    (SuccessCount j) (FailCount j) (Some actualCost) (Some manifest) (RetryCount j) (LastErrorCode j) now
    (first_time (FinishedAt j) now) (first_time (SettledAt j) now)
    (first_time (OutputExpiresAt j) outputExpiresAt) (OutputDeletedAt j) (InputDeletedAt j)
    (UserDeletedAt j) (JobID j).
Definition MarkBatchImageJobSettled (id : string) (actualCost : f64) (manifest : string)
    (now outputExpiresAt : time) : batch (res BErr unit) :=
  bwrite (λ _ d,
    match bjobs d !! id with
    | None => Err EBatchImageJobNotFound
    | Some j =>
        if negb (String.eqb (Status j) BatchImageJobStatusSettling) then
          Err (if String.eqb (Status j) BatchImageJobStatusCompleted then EBatchImageAlreadySettled
               else EBatchImageSettlementInvalidStatus)
        else if match ManifestHash j with
                | None => true
                | Some h => String.eqb h "" || String.eqb h manifest
                end
        then Ok ((), set_jobs <[id := settled actualCost manifest outputExpiresAt now j]> d)
        else Err EBatchImageSettlementManifestConflict
    end).

Definition retried (code : string) (now : time) (j : BatchImageJob) : BatchImageJob :=
  Build_BatchImageJob (spec j) (Status j) (ProviderJobName j) (ProviderOutputRef j) (SuccessCount j)
    (FailCount j) (ActualCost j) (ManifestHash j) (RetryCount j + 1) (Some code) now (FinishedAt j)
    (SettledAt j) (OutputExpiresAt j) (OutputDeletedAt j) (InputDeletedAt j)
    (UserDeletedAt j) (JobID j).
(** [SetBatchImageJobSettlementFailed]: the new retry count. *)
Definition SetBatchImageJobSettlementFailed (id code : string) : batch (res BErr Z) :=
  bwrite (λ now d,
    match bjobs d !! id with
    | None => Err EBatchImageJobNotFound
    | Some j => Ok (RetryCount j + 1, set_jobs <[id := retried code now j]> d)
    end).

Definition MarkBatchImageOutputDeleted (id : string) (deletedAt : time) : batch (res BErr unit) :=
  r <-p update_job id (λ _, true)
    (λ _ j,
       let done := String.eqb (Status j) BatchImageJobStatusCompleted in
       Build_BatchImageJob (spec j) (if done then BatchImageJobStatusOutputDeleted else Status j)
         (ProviderJobName j) (ProviderOutputRef j) (SuccessCount j) (FailCount j) (ActualCost j)
         (ManifestHash j) (RetryCount j) (LastErrorCode j) deletedAt
         (if done then first_time (FinishedAt j) deletedAt else FinishedAt j)
         (SettledAt j) (OutputExpiresAt j) (first_time (OutputDeletedAt j) deletedAt)
         (InputDeletedAt j) (UserDeletedAt j) (JobID j));
  Ret (match r with Err e => Err e | Ok false => Err EBatchImageJobNotFound | Ok true => Ok () end).

Definition MarkBatchImageInputDeleted (id : string) (deletedAt : time) : batch (res BErr unit) :=
  r <-p update_job id (λ _, true)
    (λ _ j, Build_BatchImageJob (spec j) (Status j) (ProviderJobName j) (ProviderOutputRef j) (SuccessCount j)
       (FailCount j) (ActualCost j) (ManifestHash j) (RetryCount j) (LastErrorCode j) deletedAt (FinishedAt j)
       (SettledAt j) (OutputExpiresAt j) (OutputDeletedAt j) (first_time (InputDeletedAt j) deletedAt)
       (UserDeletedAt j) (JobID j));
  Ret (match r with Err e => Err e | Ok false => Err EBatchImageJobNotFound | Ok true => Ok () end).

(** [MarkBatchImageJobUserDeleted]; its callers drop the answer or report it. *)
Definition user_deleted (deletedAt now : time) (j : BatchImageJob) : BatchImageJob :=
  Build_BatchImageJob (spec j) (Status j) (ProviderJobName j) (ProviderOutputRef j) (SuccessCount j)
    (FailCount j) (ActualCost j) (ManifestHash j) (RetryCount j) (LastErrorCode j) deletedAt (FinishedAt j)
    (SettledAt j) (OutputExpiresAt j) (OutputDeletedAt j) (InputDeletedAt j) (Some deletedAt) (JobID j).
Definition MarkBatchImageJobUserDeleted (userID apiKeyID : Z) (id : string) (deletedAt : time)
  : batch (res BErr bool) :=
  update_job id
    (λ j, (job_UserID (spec j) =? userID) && bool_decide (job_APIKeyID (spec j) = Some apiKeyID)
          && bool_decide (UserDeletedAt j = None) && IsTerminalBatchImageJobStatus (Status j))
    (user_deleted deletedAt).

Definition RecordBatchImageCleanupFailure (id code : string) : batch (res BErr bool) :=
  update_job id (λ _, true) (retried code).

Definition ListBatchImageItems (id : string) : batch (option (list BatchImageItem)) :=
  bread (λ d, default [] (bitems d !! id)).
Definition BulkCreateBatchImageItems (id : string) (items : list BatchImageItem) : batch (res BErr unit) :=
  bwrite (λ _ d,
    let all := default [] (bitems d !! id) ++ items in
    if decide (NoDup (CustomID <$> all)) then Ok ((), set_items <[id := all]> d) else Err EBDB).
Definition ReplaceBatchImageItemsForJob (id : string) (items : list BatchImageItem) (ok fail : Z)
  : batch (res BErr unit) :=
  bwrite (λ now d,
    match bjobs d !! id with
    | None => Err EBatchImageJobNotFound
    | Some j =>
        if negb (String.eqb (Status j) BatchImageJobStatusIndexing) then Err EBatchImageIndexStateConflict
        else if decide (NoDup (CustomID <$> items)) then
          Ok ((), set_jobs <[id :=
                    Build_BatchImageJob (spec j) (Status j) (ProviderJobName j) (ProviderOutputRef j) ok fail
                      (ActualCost j) (ManifestHash j) (RetryCount j) (LastErrorCode j) now (FinishedAt j)
                      (SettledAt j) (OutputExpiresAt j) (OutputDeletedAt j) (InputDeletedAt j) (UserDeletedAt j) (JobID j)]>
                    (set_items <[id := items]> d))
        else Err EBDB
    end).

(** ** The lines of a result file *)

Definition BatchImageItemStatusPending : string := "pending".
Definition BatchImageItemStatusSuccess : string := "success".
Definition BatchImageItemStatusFailed : string := "failed".

Definition batchImageDerefString (v : option string) : string :=
  match v with None => "" | Some s => TrimSpace s end.
Definition batchImageOptionalStringPtr (v : string) : option string :=
  let v := TrimSpace v in if String.eqb v "" then None else Some v.

(** A byte slice: the end may fall inside a UTF-8 sequence. *)
Definition truncateBatchImageMessage (message : string) (limit : Z) : string :=
  let message := TrimSpace message in
  if (limit <=? 0) || (str_len message <=? limit) then message
  else str_take (Z.to_nat limit) message.

Definition batchImageFirstNonEmptyString (values : list string) : string :=
  match List.find (λ v, negb (String.eqb (TrimSpace v) "")) values with
  | Some v => TrimSpace v
  | None => ""
  end.

(** [m\[key\]] of a Go map; [None] is the nil interface of a missing key. *)
Definition jget (m : list (string * Json)) (key : string) : option Json :=
  snd <$> List.find (λ kv, String.eqb (fst kv) key) m.
Definition as_map (v : option Json) : option (list (string * Json)) :=
  match v with Some (JObj m) => Some m | _ => None end.
Definition as_list (v : option Json) : option (list Json) :=
  match v with Some (JArr l) => Some l | _ => None end.

Fixpoint batchImageNestedAny (current : option Json) (keys : list string) : option Json :=
  match keys with
  | [] => current
  | key :: keys => match as_map current with
                   | None => None
                   | Some m => batchImageNestedAny (jget m key) keys
                   end
  end.

Definition firstMap (values : list (option Json)) : option (list (string * Json)) :=
  head (omap as_map values).

Record ParsedBatchImageResult := {
  pr_CustomID : string;
  pr_Succeeded : bool;
  pr_MimeType : string;
  pr_FileExtension : string;
  pr_ImageCount : Z;
  pr_ErrorCode : string;
  pr_SourceLineNumber : Z;
}.

Section Parsing.
Context `{GoText} `{GoJSON}.

Definition batchImageMapString (m : list (string * Json)) (key : string) : string :=
  match jget m key with
  | Some (JStr v) => TrimSpace v
  | Some (JNum n) => pretty (json_int64 n)
  | _ => ""
  end.
Definition batchImageNestedString (m : list (string * Json)) (keys : list string) : string :=
  match batchImageNestedAny (Some (JObj m)) keys with Some (JStr s) => TrimSpace s | _ => "" end.

(** The mime type of a part that holds an image. *)
Definition image_part (part : Json) : option string :=
  part ← as_map (Some part);
  inline ← firstMap [jget part "inlineData"; jget part "inline_data"];
  let data := TrimSpace (batchImageMapString inline "data") in
  let mime := batchImageFirstNonEmptyString
                [batchImageMapString inline "mimeType"; batchImageMapString inline "mime_type"] in
  if String.eqb data "" || negb (HasPrefix (ToLower (TrimSpace mime)) "image/") then None
  else Some (TrimSpace mime).
Definition candidate_parts (candidate : Json) : list Json :=
  match as_map (Some candidate) with
  | None => []
  | Some c => default [] (as_list (batchImageNestedAny (Some (JObj c)) ["content"; "parts"]))
  end.
(** [batchImageFindImagePartsInCandidates]: how many images, and the first
    mime type that is not empty. *)
Definition batchImageFindImagePartsInCandidates (raw : option Json) : Z * string :=
  match as_list raw with
  | None => (0, "")
  | Some candidates =>
      let images := omap image_part (candidates ≫= candidate_parts) in
      (Z.of_nat (length images), default "" (List.find (λ m, negb (String.eqb m "")) images))
  end.
Definition batchImageFindImageParts (obj : list (string * Json)) : Z * string :=
  let r := batchImageFindImagePartsInCandidates
             (batchImageNestedAny (Some (JObj obj)) ["response"; "candidates"]) in
  if 0 <? fst r then r else batchImageFindImagePartsInCandidates (jget obj "candidates").

Definition contains_any (text : string) (subs : list string) : bool := existsb (Contains text) subs.
Definition batchImageMapFailureCode (code message : string) : string :=
  let text := ToLower (TrimSpace (code +:+ " " +:+ message)) in
  if contains_any text ["safety"; "policy"; "blocked"; "prohibited"] then "SAFETY_BLOCKED"
  else if contains_any text ["invalid_argument"; "invalid argument"; "bad request"]
  then "INVALID_ARGUMENT"
  else if contains_any text ["quota"; "rate"; "resource_exhausted"; "too many requests"]
  then "PROVIDER_RATE_LIMITED"
  else "PROVIDER_ITEM_FAILED".

Definition failure_fields (m : list (string * Json)) : string :=
  let message := batchImageFirstNonEmptyString [batchImageMapString m "message"; batchImageMapString m "details"] in
  let code := batchImageFirstNonEmptyString [batchImageMapString m "code"; batchImageMapString m "status"] in
  batchImageMapFailureCode code message.
(** [batchImageFailureFromProviderFields]: the code; messages are left out. *)
Definition batchImageFailureFromProviderFields (obj : list (string * Json)) : option string :=
  match as_map (jget obj "status"), as_map (jget obj "error") with
  | Some status, _ => Some (failure_fields status)
  | None, Some err => Some (failure_fields err)
  | None, None => None
  end.

Definition batchImageFileExtension (mimeType : string) : string :=
  let m := ToLower (TrimSpace mimeType) in
  if String.eqb m "image/png" then "png"
  else if String.eqb m "image/jpeg" || String.eqb m "image/jpg" then "jpg"
  else if String.eqb m "image/webp" then "webp"
  else "".

Definition batchImageHasCandidates (obj : list (string * Json)) : bool :=
  match jget obj "candidates" with
  | Some _ => true
  | None => match as_list (batchImageNestedAny (Some (JObj obj)) ["response"; "candidates"]) with
            | Some _ => true | None => false
            end
  end.

Definition ParseBatchImageResultLine (line : string) (lineNumber : Z) : res BErr ParsedBatchImageResult :=
  match json_Unmarshal line with
  | Some (JObj obj) =>
      let customID := batchImageFirstNonEmptyString
        [batchImageMapString obj "key"; batchImageMapString obj "custom_id";
         batchImageMapString obj "customId"; batchImageNestedString obj ["request"; "key"]] in
      if String.eqb customID "" then Err EBatchImageIndexParseFailed
      else
        let images := batchImageFindImageParts obj in
        let failed code :=
          {| pr_CustomID := customID; pr_Succeeded := false; pr_MimeType := ""; pr_FileExtension := "";
             pr_ImageCount := 0; pr_ErrorCode := code; pr_SourceLineNumber := lineNumber |} in
        Ok (if 0 <? fst images then
              {| pr_CustomID := customID; pr_Succeeded := true; pr_MimeType := snd images;
                 pr_FileExtension := batchImageFileExtension (snd images); pr_ImageCount := fst images;
                 pr_ErrorCode := ""; pr_SourceLineNumber := lineNumber |}
            else match batchImageFailureFromProviderFields obj with
                 | Some code => failed code
                 | None =>
                     if match jget obj "response" with Some _ => true | None => false end
                        || batchImageHasCandidates obj
                     then failed "EMPTY_IMAGE_OUTPUT" else failed "PROVIDER_ITEM_FAILED"
                 end)
  | _ => Err EBatchImageIndexParseFailed
  end.

(** ** The index of a job's results *)

Record BatchImageIndexResult := { ix_SuccessCount : Z; ix_FailCount : Z; ix_TotalCount : Z }.

Definition result_item (parsed : ParsedBatchImageResult) : BatchImageItem :=
  if pr_Succeeded parsed then
    {| CustomID := pr_CustomID parsed; it_Status := BatchImageItemStatusSuccess;
       it_MimeType := batchImageOptionalStringPtr (pr_MimeType parsed);
       it_FileExtension := batchImageOptionalStringPtr (pr_FileExtension parsed);
       it_ImageCount := pr_ImageCount parsed; it_ErrorCode := None;
       it_SourceLineNumber := Some (pr_SourceLineNumber parsed) |}
  else
    {| CustomID := pr_CustomID parsed; it_Status := BatchImageItemStatusFailed;
       it_MimeType := None; it_FileExtension := None; it_ImageCount := pr_ImageCount parsed;
       it_ErrorCode := batchImageOptionalStringPtr (pr_ErrorCode parsed);
       it_SourceLineNumber := Some (pr_SourceLineNumber parsed) |}.
Definition missing_item (customID : string) : BatchImageItem :=
  {| CustomID := customID; it_Status := BatchImageItemStatusFailed; it_MimeType := None;
     it_FileExtension := None; it_ImageCount := 0; it_ErrorCode := Some "PROVIDER_RESULT_MISSING";
     it_SourceLineNumber := None |}.

(** The loop over the lines: the items so far, in order; a line whose id was
    not submitted is skipped, unless nothing was. *)
Fixpoint index_lines (expected : list string) (lineNumber : Z) (items : list BatchImageItem)
    (lines : list string) : res BErr (list BatchImageItem) :=
  match lines with
  | [] => Ok items
  | raw :: lines =>
      let lineNumber := lineNumber + 1 in
      let line := TrimSpace raw in
      if String.eqb line "" then index_lines expected lineNumber items lines
      else
        parsed <-? ParseBatchImageResultLine line lineNumber;
        let id := pr_CustomID parsed in
        if negb (bool_decide (expected = [])) && negb (bool_decide (id ∈ expected))
        then index_lines expected lineNumber items lines
        else if bool_decide (id ∈ CustomID <$> items) then Err EBatchImageDuplicateCustomID
        else index_lines expected lineNumber (items ++ [result_item parsed]) lines
  end.
Definition success_count (items : list BatchImageItem) : Z :=
  Z.of_nat (length (List.filter (λ i, String.eqb (it_Status i) BatchImageItemStatusSuccess) items)).

(** The lines that [bufio.Scanner] gives, and its error: with a buffer of 16 MB, a
    line that fills it ends the reading. *)
Definition maxTokenSize : Z := 16 * 1024 * 1024.
Fixpoint scan (lines : list string) (err : option ScanError) : list string * option ScanError :=
  match lines with
  | [] => ([], err)
  | line :: lines =>
      if maxTokenSize <=? Z.of_nat (String.length line) then ([], Some ErrTooLong)
      else let (read, e) := scan lines err in (line :: read, e)
  end.
Definition scan_error (e : ScanError) : BErr :=
  match e with ErrUnexpectedEOF => EBatchImageIndexParseFailed | _ => EBatchImageIndexRead end.

(** The rows and the counts of [Index]. *)
Definition index_results (expected : list string) (file : ResultFile)
  : res BErr (list BatchImageItem * BatchImageIndexResult) :=
  let (lines, err) := scan (rf_lines file) (rf_error file) in
  found <-? index_lines expected 0 [] lines;
  match err with
  | Some e => Err (scan_error e)
  | None =>
      let missing := merge_sort string_le
                       (List.filter (λ id, negb (bool_decide (id ∈ CustomID <$> found))) expected) in
      let items := found ++ (missing_item <$> missing) in
      let total := Z.of_nat (length items) in
      if total =? 0 then Err EBatchImageIndexNoResultLines
      else Ok (items, {| ix_SuccessCount := success_count items;
                         ix_FailCount := total - success_count items; ix_TotalCount := total |})
  end.

(** [BatchImageResultIndexer.Index]; [listExpectedCustomIDs] reads all pages of
    the item table. *)
Definition Index (j : BatchImageJob) : batch (res BErr BatchImageIndexResult) :=
  let id := BatchID (spec j) in
  expected <-p ListBatchImageItems id;
  match expected with
  | None => Ret (Err EBDB)
  | Some expected =>
      output <-p ask b_result;
      match output with
      | None => Ret (Err EBatchImageIndexOutputMissing)
      | Some file =>
          match index_results (remove_dups (CustomID <$> expected)) file with
          | Err e => Ret (Err e)
          | Ok (items, r) =>
              saved <-p ReplaceBatchImageItemsForJob id items (ix_SuccessCount r) (ix_FailCount r);
              Ret (match saved with Err e => Err e | Ok _ => Ok r end)
          end
      end
  end.
End Parsing.
