(* ===== verification/BatchPipeline.v ===== *)
(** * The life of a batch-image job

    Holds, settlement, the processor the worker calls, submission,
    cancellation, recovery and cleanup: the services of
    [src/backend/internal/service/batch_image_billing_hold.go],
    [batch_image_settlement.go], [batch_image_processor.go],
    [batch_image_public.go], [batch_image_billing_recovery.go] and
    [batch_image_cleanup.go] over the repository of [BatchImage.v] and the
    billing transactions of [UsageBilling.v].

    Logs, usage logs, events whose failure is ignored and the invalidation of
    caches are left out.  [Submit] starts after the validation of the request
    and the choice of provider, account and price, which are its arguments. *)

From Stdlib Require Import ZArith Lia QArith Ascii String Bool.
From stdpp Require Import base numbers option list gmap strings pretty sorting.
From S2P Require Import Prelude GoStrings GoUTF8 GoFloat Pricing Channel Resolver.
From S2P Require Import UsageDB UsageBilling Redact Proc BatchImage.

#[local] Open Scope Z_scope.

Record BatchImageProcessResult := { RequeueAfter : duration; Terminal : bool }.
Definition requeue (d : duration) : res BErr BatchImageProcessResult :=
  Ok {| RequeueAfter := d; Terminal := false |}.
Definition terminal : res BErr BatchImageProcessResult := Ok {| RequeueAfter := 0; Terminal := true |}.

Record BatchImageSettlementResult := {
  sr_SuccessCount : Z;
  sr_FailCount : Z;
  sr_ActualCost : f64;
  sr_ManifestHash : string;
  sr_RequestID : string;
  AlreadySettled : bool;
}.

Section Pipeline.
Context `{GoText} `{GoJSON} `{GoHash} `{PgFloat} `{PgClock}.

(** ** Holds *)

Definition held_amount (s : JobSpec) : f64 := default (EstimatedCost s) (HoldAmount s).
Definition floor0 (x : f64) : f64 := if x <ᶠ f0 then f0 else x.

Definition buildBatchImageHoldCommand (s : JobSpec) (requestID : string) (actualAmount : f64)
    (payloadHash : string) : res BErr BatchImageBalanceHoldCommand :=
  match job_APIKeyID s with
  | Some k =>
      if k <=? 0 then Err EBatchImageSettlementMissingAPIKeyID
      else Ok {| h_RequestID := requestID; h_APIKeyID := k; h_RequestFingerprint := "";
                 h_RequestPayloadHash := TrimSpace payloadHash; h_UserID := job_UserID s;
                 h_BatchID := BatchID s; h_HoldAmount := floor0 (held_amount s);
                 h_ActualAmount := floor0 actualAmount |}
  | None => Err EBatchImageSettlementMissingAPIKeyID
  end.

Definition reserveBatchImageBalanceHold (s : JobSpec) (payloadHash : string) : batch (res BErr unit) :=
  match buildBatchImageHoldCommand s (BatchImageHoldRequestID (BatchID s)) f0 payloadHash with
  | Err e => Ret (Err e)
  | Ok cmd =>
      if h_HoldAmount cmd ≤ᶠ f0 then Ret (Ok ())
      else
        r <-p bill (ReserveBatchImageBalance cmd);
        Ret (match r with
             | Ok _ => Ok ()
             | Err ErrBatchImageInsufficientBalance => Err EBatchImageInsufficientBalance
             | Err _ => Err EBatchImageBillingHoldFailed
             end)
  end.

Definition captureBatchImageBalanceHold (s : JobSpec) (actualAmount : f64) (payloadHash : string)
  : batch (res BErr unit) :=
  match buildBatchImageHoldCommand s (BatchImageCaptureRequestID (BatchID s)) actualAmount payloadHash with
  | Err e => Ret (Err e)
  | Ok cmd =>
      r <-p bill (CaptureBatchImageBalance cmd);
      Ret (match r with Ok _ => Ok () | Err _ => Err EBatchImageSettlementBillingFailed end)
  end.

(** A release that finds its request id taken with another fingerprint counts
    as done. *)
Definition releaseBatchImageBalanceHold (s : JobSpec) (payloadHash : string) : batch (res BErr unit) :=
  match buildBatchImageHoldCommand s (BatchImageReleaseRequestID (BatchID s)) f0 payloadHash with
  | Err e => Ret (Err e)
  | Ok cmd =>
      if h_HoldAmount cmd ≤ᶠ f0 then Ret (Ok ())
      else
        r <-p bill (ReleaseBatchImageBalance cmd);
        Ret (match r with
             | Ok _ | Err ErrUsageBillingRequestConflict => Ok ()
             | Err _ => Err EBatchImageBillingHoldFailed
             end)
  end.
Definition release_hold (s : JobSpec) : batch (res BErr unit) :=
  releaseBatchImageBalanceHold s (batchImageDerefString (RequestHash s)).

(** ** Settlement *)

Definition batchImageSettlementMaxRetries : Z := 5.
Definition batchImageSettlementRetryDelay : duration := Minute.
Definition batchImageCostEpsilon : f64 := f_dec 1 8.

Definition BatchImageUnitPrice (resolved : option ResolvedPricing) (model : string) : res BErr f64 :=
  if String.eqb (TrimSpace model) "" then Err EBatchImageSettlementPricingMissing
  else
    match resolved with
    | None => Err EBatchImageSettlementPricingMissing
    | Some r =>
        if String.eqb (rp_Mode r) BillingModeImage || String.eqb (rp_Mode r) BillingModePerRequest then
          if f0 <ᶠ rp_DefaultPerRequestPrice r then Ok (rp_DefaultPerRequestPrice r)
          else match rp_RequestTiers r with
               | [tier] => match iv_PerRequestPrice tier with
                           | Some p => if f0 ≤ᶠ p then Ok p else Err EBatchImageSettlementPricingMissing
                           | None => Err EBatchImageSettlementPricingMissing
                           end
               | _ => Err EBatchImageSettlementPricingMissing
               end
        else if String.eqb (rp_Mode r) BillingModeToken then
          match rp_BasePricing r with
          | Some b => if ImageOutputPriceExplicit b || (f0 <ᶠ ImageOutputPricePerToken b)
                      then Ok (ImageOutputPricePerToken b) else Err EBatchImageSettlementPricingMissing
          | None => Err EBatchImageSettlementPricingMissing
          end
        else Err EBatchImageSettlementPricingMissing
    end.

Definition settlementUnitPrice (s : JobSpec) : batch (res BErr f64) :=
  if 1 <=? PricingSnapshotVersion s then
    Ret (if BillableUnitPrice s <ᶠ f0 then Err EBatchImageSettlementPricingMissing
         else Ok (BillableUnitPrice s))
  else resolved <-p ask b_pricing; Ret (BatchImageUnitPrice resolved (job_Model s)).

Definition nul : string := String (ascii_of_N 0) "".
Definition BuildBatchImageSettlementManifestHash (j : BatchImageJob) : string :=
  sha256_hex (Join [TrimSpace (BatchID (spec j)); TrimSpace (Provider (spec j)); TrimSpace (job_Model (spec j));
                    batchImageDerefString (ProviderJobName j); batchImageDerefString (ProviderOutputRef j);
                    pretty (SuccessCount j); pretty (FailCount j); pretty (ItemCount (spec j))] nul).

Definition isBatchImageSettlementRetryExhausted (j : BatchImageJob) : bool :=
  String.eqb (Status j) BatchImageJobStatusSettling && (batchImageSettlementMaxRetries <=? RetryCount j)
  && HasPrefix (batchImageDerefString (LastErrorCode j)) "SETTLEMENT_".

(** [failExhaustedSettlement]: the error it returns, always one. *)
Definition failExhaustedSettlement (s : JobSpec) : batch BErr :=
  released <-p release_hold s;
  match released with
  | Err _ =>
      _ <-p SetBatchImageJobSettlementFailed (BatchID s) "SETTLEMENT_RELEASE_FAILED";
      Ret EBatchImageSettlementBillingFailed
  | Ok _ =>
      moved <-p TransitionBatchImageJobStatus (BatchID s) BatchImageJobStatusFailed
                  (Some "SETTLEMENT_BILLING_RETRY_EXHAUSTED");
      Ret (match moved with Err e => e | Ok _ => EBatchImageSettlementBillingFailed end)
  end.

Definition recordSettlementFailure (s : JobSpec) (code : string) : batch (option BErr) :=
  retries <-p SetBatchImageJobSettlementFailed (BatchID s) code;
  match retries with
  | Err _ => Ret None
  | Ok n => if batchImageSettlementMaxRetries <=? n
            then e <-p failExhaustedSettlement s; Ret (Some e)
            else Ret None
  end.
Definition fail_settlement {A : Type} (s : JobSpec) (code : string) (e : BErr) : batch (res BErr A) :=
  failed <-p recordSettlementFailure s code;
  Ret (Err (default e failed)).

Definition invalid_counts (j : BatchImageJob) : bool :=
  (SuccessCount j <? 0) || (FailCount j <? 0) || (ItemCount (spec j) <? 0)
  || (ItemCount (spec j) <? SuccessCount j + FailCount j).

Context (retention : duration).

(** The part of [Settle] that follows the checks. *)
Definition settle_at_price (j : BatchImageJob) (unitPrice : f64) : batch (res BErr BatchImageSettlementResult) :=
  let s := spec j in
  let manifestHash := BuildBatchImageSettlementManifestHash j in
  let actualCost := f_of_int (SuccessCount j) *ᶠ unitPrice in
  if batchImageCostEpsilon <ᶠ (actualCost -ᶠ held_amount s) then
    fail_settlement s "SETTLEMENT_COST_EXCEEDS_HOLD" EBatchImageSettlementCostExceedsHold
  else
    captured <-p captureBatchImageBalanceHold s actualCost manifestHash;
    match captured with
    | Err e => fail_settlement s "SETTLEMENT_BILLING_FAILED" e
    | Ok _ =>
        now <-p bnow;
        marked <-p MarkBatchImageJobSettled (BatchID s) actualCost manifestHash now (time_Add now retention);
        Ret (match marked with
             | Err e => Err e
             | Ok _ => Ok {| sr_SuccessCount := SuccessCount j; sr_FailCount := FailCount j;
                             sr_ActualCost := actualCost; sr_ManifestHash := manifestHash;
                             sr_RequestID := BatchImageCaptureRequestID (BatchID s);
                             AlreadySettled := false |}
             end)
    end.

(** [Settle] of a job that is settling. *)
Definition settle_job (j : BatchImageJob) : batch (res BErr BatchImageSettlementResult) :=
  let s := spec j in
  if default 0 (job_APIKeyID s) <=? 0 then Ret (Err EBatchImageSettlementMissingAPIKeyID)
  else if default 0 (job_AccountID s) <=? 0 then Ret (Err EBatchImageSettlementMissingAccountID)
  else if isBatchImageSettlementRetryExhausted j then e <-p failExhaustedSettlement s; Ret (Err e)
  else if invalid_counts j
  then fail_settlement s "SETTLEMENT_INVALID_COUNTS" EBatchImageSettlementInvalidCounts
  else if negb (String.eqb (batchImageDerefString (ManifestHash j)) "")
          && negb (String.eqb (batchImageDerefString (ManifestHash j))
                     (BuildBatchImageSettlementManifestHash j))
  then fail_settlement s "SETTLEMENT_MANIFEST_CONFLICT" EBatchImageSettlementManifestConflict
  else
    price <-p settlementUnitPrice s;
    match price with
    | Err e => fail_settlement s "SETTLEMENT_PRICING_MISSING" e
    | Ok p => if p <ᶠ f0
              then fail_settlement s "SETTLEMENT_PRICING_MISSING" EBatchImageSettlementPricingMissing
              else settle_at_price j p
    end.

Definition Settle (id : string) : batch (res BErr BatchImageSettlementResult) :=
  job <-p GetBatchImageJobByBatchID id;
  match job with
  | Err e => Ret (Err e)
  | Ok j =>
      if String.eqb (Status j) BatchImageJobStatusCompleted then
        Ret (Ok {| sr_SuccessCount := SuccessCount j; sr_FailCount := FailCount j;
                   sr_ActualCost := default f0 (ActualCost j);
                   sr_ManifestHash := BuildBatchImageSettlementManifestHash j;
                   sr_RequestID := BatchImageCaptureRequestID (BatchID (spec j)); AlreadySettled := true |})
      else if negb (String.eqb (Status j) BatchImageJobStatusSettling)
      then Ret (Err EBatchImageSettlementInvalidStatus)
      else settle_job j
  end.

(** ** The processor *)

Definition isBatchImageProcessorDoneStatus (status : string) : bool :=
  String.eqb status BatchImageJobStatusSettling || IsTerminalBatchImageJobStatus status.

Definition releaseTerminalHold (s : JobSpec) (status : string) : batch (res BErr unit) :=
  if negb (String.eqb status BatchImageJobStatusFailed) && negb (String.eqb status BatchImageJobStatusCancelled)
  then Ret (Ok ())
  else release_hold s.
Definition release_and_stop (s : JobSpec) (status : string) : batch (res BErr BatchImageProcessResult) :=
  r <-p releaseTerminalHold s status;
  Ret (match r with Err e => Err e | Ok _ => terminal end).

Definition defaultBatchImageProcessorRequeue : duration := 30 * Second.
Definition batchImageProviderErrorRequeue : duration := Minute.
Context (DefaultRequeue : duration).
Definition requeueDelay (suggested : duration) : duration :=
  if 0 <? suggested then suggested
  else if 0 <? DefaultRequeue then DefaultRequeue else defaultBatchImageProcessorRequeue.

Definition persistProviderOutputRef (j : BatchImageJob) (ref : string) : batch (res BErr unit) :=
  let ref := TrimSpace ref in
  if String.eqb ref "" || String.eqb (batchImageDerefString (ProviderOutputRef j)) ref then Ret (Ok ())
  else UpdateBatchImageJobProviderOutputRef (BatchID (spec j)) ref.

(** A transition that ends the job, and the release of its hold. *)
Definition end_job (s : JobSpec) (status : string) (code : option string)
  : batch (res BErr BatchImageProcessResult) :=
  moved <-p TransitionBatchImageJobStatus (BatchID s) status code;
  match moved with
  | Err e => Ret (Err e)
  | Ok _ => release_and_stop s status
  end.

Definition indexAndSettle (j : BatchImageJob) : batch (res BErr BatchImageProcessResult) :=
  r <-p Index j;
  match r with
  | Err EBatchImageIndexOutputMissing => Ret (Err EBatchImageIndexOutputMissing)
  | Err EBatchImageIndexStateConflict => Ret (requeue Millisecond)
  | Err e =>
      end_job (spec j) BatchImageJobStatusFailed
        (Some (match e with
               | EBatchImageDuplicateCustomID => "DUPLICATE_CUSTOM_ID_IN_OUTPUT"
               | _ => "INDEX_PARSE_FAILED"
               end))
  | Ok _ =>
      moved <-p TransitionBatchImageJobStatus (BatchID (spec j)) BatchImageJobStatusSettling None;
      Ret (match moved with Err e => Err e | Ok _ => requeue Millisecond end)
  end.

Definition failure_code (st : BatchProviderStatus) : string :=
  let code := TrimSpace (st_ErrorCode st) in
  if negb (String.eqb code "") then code
  else match InternalState st with PExpired => "PROVIDER_BATCH_EXPIRED" | _ => "PROVIDER_BATCH_FAILED" end.

(** The [switch] on the state the provider reports. *)
Definition by_provider_state (j : BatchImageJob) (st : BatchProviderStatus)
  : batch (res BErr BatchImageProcessResult) :=
  let id := BatchID (spec j) in
  let later := Ret (requeue (requeueDelay (SuggestedRequeueAfter st))) in
  match InternalState st with
  | PRunning =>
      if String.eqb (Status j) BatchImageJobStatusRunning then later
      else
        moved <-p TransitionBatchImageJobStatus id BatchImageJobStatusRunning None;
        match moved with Err e => Ret (Err e) | Ok _ => later end
  | PSucceeded =>
      if String.eqb (Status j) BatchImageJobStatusIndexing then indexAndSettle j
      else
        moved <-p TransitionBatchImageJobStatus id BatchImageJobStatusIndexing None;
        match moved with Err e => Ret (Err e) | Ok _ => indexAndSettle j end
  | PFailed | PExpired => end_job (spec j) BatchImageJobStatusFailed (Some (failure_code st))
  | PCancelled => end_job (spec j) BatchImageJobStatusCancelled None
  | PQueued | POther => later
  end.

(** [BatchImageProviderProcessor.Process] *)
Definition provider_Process (id : string) : batch (res BErr BatchImageProcessResult) :=
  job <-p GetBatchImageJobByBatchID id;
  match job with
  | Err e => Ret (Err e)
  | Ok j =>
      if isBatchImageProcessorDoneStatus (Status j) then release_and_stop (spec j) (Status j)
      else
        known <-p ask b_ok;
        if negb known then Ret (Err EBatchImageUnsupportedProvider)
        else if default 0 (job_AccountID (spec j)) <=? 0 then Ret (Err EBatchImageMissingAccountID)
        else
          account <-p ask b_ok;
          if negb account then Ret (Err EAccount)
          else
            supported <-p ask b_ok;
            if negb supported then Ret (Err EBatchImageProviderUnsupportedAccount)
            else if String.eqb (batchImageDerefString (ProviderJobName j)) ""
            then Ret (Err EBatchImageMissingProviderJobName)
            else if String.eqb (Status j) BatchImageJobStatusIndexing then indexAndSettle j
            else
              status <-p ask b_status;
              match status with
              | None => Ret (requeue batchImageProviderErrorRequeue)
              | Some None => Ret (requeue (requeueDelay 0))
              | Some (Some st) =>
                  kept <-p persistProviderOutputRef j (st_ProviderOutputRef st);
                  match kept with
                  | Err e => Ret (Err e)
                  | Ok _ => by_provider_state j st
                  end
              end
  end.

(** [BatchImagePipelineProcessor.Process] *)
Context (RetryDelay : duration).
Definition settle_and_report (id : string) : batch (res BErr BatchImageProcessResult) :=
  settled <-p Settle id;
  match settled with
  | Ok _ => Ret terminal
  | Err EBatchImageSettlementBillingFailed =>
      updated <-p GetBatchImageJobByBatchID id;
      Ret (match updated with
           | Ok u => if IsTerminalBatchImageJobStatus (Status u) then terminal
                     else requeue (if RetryDelay <=? 0 then batchImageSettlementRetryDelay else RetryDelay)
           | Err _ => requeue (if RetryDelay <=? 0 then batchImageSettlementRetryDelay else RetryDelay)
           end)
  | Err e => Ret (Err e)
  end.
Definition Process (id : string) : batch (res BErr BatchImageProcessResult) :=
  job <-p GetBatchImageJobByBatchID id;
  match job with
  | Err e => Ret (Err e)
  | Ok j => if String.eqb (Status j) BatchImageJobStatusSettling then settle_and_report id
            else provider_Process id
  end.

(** ** Submission *)

Definition hidePreUpstreamSubmitFailure (userID apiKeyID : Z) (j : BatchImageJob) : batch unit :=
  match ProviderJobName j with
  | Some _ => Ret ()
  | None => t <-p bnow; _ <-p MarkBatchImageJobUserDeleted userID apiKeyID (BatchID (spec j)) t; Ret ()
  end.

(** [RecordBatchImageJobSubmitFailure] with [markFailed], and the hiding of the job. *)
Definition fail_submit (userID apiKeyID : Z) (j : BatchImageJob) (code : string) : batch unit :=
  _ <-p RecordBatchImageJobSubmitFailure (BatchID (spec j)) code true;
  hidePreUpstreamSubmitFailure userID apiKeyID j.

(** The retry it enqueues ([enqueueBillingRetry]) has no effect on the tables. *)
Definition releaseFailedSubmitHold (s : JobSpec) (requestHash : string) : batch (res BErr unit) :=
  r <-p releaseBatchImageBalanceHold s requestHash;
  match r with
  | Err _ =>
      _ <-p RecordBatchImageJobSubmitFailure (BatchID s) "BILLING_RELEASE_FAILED" true;
      Ret (Err EBatchImageBillingHoldFailed)
  | Ok _ => Ret (Ok ())
  end.

(** A failure after the hold: release, then record. *)
Definition undo_submit {A : Type} (userID apiKeyID : Z) (j : BatchImageJob) (requestHash : string)
    (record : batch unit) (e : BErr) : batch (res BErr A) :=
  released <-p releaseFailedSubmitHold (spec j) requestHash;
  match released with
  | Err e' => Ret (Err e')
  | Ok _ => _ <-p record; Ret (Err e)
  end.

(** The ticks of [runSubmitHeartbeat] while the provider works. *)
Fixpoint runSubmitHeartbeat (ticks : nat) (id : string) : batch unit :=
  match ticks with
  | O => Ret ()
  | S n => _ <-p TouchBatchImageJobSubmitting id; runSubmitHeartbeat n id
  end.

Definition enqueue_submitted (id : string) : batch (res BErr unit) :=
  queued <-p ask b_ok;
  if queued then Ret (Ok ())
  else _ <-p RecordBatchImageJobSubmitFailure id "QUEUE_FAILED" false; Ret (Err EBatchImageQueueFailed).

Definition pending_item (id : string) : BatchImageItem :=
  {| CustomID := id; it_Status := BatchImageItemStatusPending; it_MimeType := None;
     it_FileExtension := None; it_ImageCount := 0; it_ErrorCode := None; it_SourceLineNumber := None |}.

(** What is reported and recorded of a provider's error, by its reason. *)
Definition batchImageProviderSubmitPublicError (reason : string) : BErr :=
  let reason := TrimSpace reason in
  if String.eqb reason "VERTEX_MANAGED_GCS_BUCKET_MISSING" then EBatchImageVertexGCSBucketMissing
  else if String.eqb reason "BATCH_IMAGE_PROVIDER_MISSING_API_KEY" then EBatchImageProviderMissingAPIKey
  else if String.eqb reason "BATCH_IMAGE_PROVIDER_MISSING_SERVICE_ACCOUNT"
  then EBatchImageProviderMissingServiceAccount
  else if String.eqb reason "BATCH_IMAGE_PROVIDER_UNSUPPORTED_ACCOUNT"
  then EBatchImageProviderUnsupportedAccount
  else EBatchImageProviderSubmitFailed.
Definition batchImageProviderSubmitRecordCode (reason : string) : string :=
  match batchImageProviderSubmitPublicError reason with
  | EBatchImageVertexGCSBucketMissing => "BATCH_IMAGE_VERTEX_GCS_BUCKET_MISSING"
  | EBatchImageProviderMissingAPIKey => "BATCH_IMAGE_PROVIDER_MISSING_API_KEY"
  | EBatchImageProviderMissingServiceAccount => "BATCH_IMAGE_PROVIDER_MISSING_SERVICE_ACCOUNT"
  | EBatchImageProviderUnsupportedAccount => "BATCH_IMAGE_PROVIDER_UNSUPPORTED_ACCOUNT"
  | _ => "PROVIDER_SUBMIT_FAILED"
  end.

(** From the call of the provider on.  An orphan at the provider is cancelled
    there ([abortOrphanProviderJob]), which has no effect on the tables. *)
Definition no_provider_job : BatchProviderJob := {| pj_JobName := ""; pj_OutputRef := "" |}.
Definition submit_to_provider (userID apiKeyID : Z) (j : BatchImageJob) (requestHash : string) (ticks : nat)
  : batch (res BErr BatchImageJob) :=
  let id := BatchID (spec j) in
  _ <-p runSubmitHeartbeat ticks id;
  sent <-p ask b_submit;
  match sent with
  | Err reason =>
      undo_submit userID apiKeyID j requestHash
        (fail_submit userID apiKeyID j (batchImageProviderSubmitRecordCode reason))
        (batchImageProviderSubmitPublicError reason)
  | Ok p =>
      if String.eqb (TrimSpace (default "" (pj_JobName <$> p))) "" then
        undo_submit userID apiKeyID j requestHash
          (fail_submit userID apiKeyID j "PROVIDER_SUBMIT_FAILED") EBatchImageProviderSubmitFailed
      else
        stored <-p UpdateBatchImageJobProviderSubmit id (default no_provider_job p);
        match stored with
        | Err e => Ret (Err e)
        | Ok _ =>
            queued <-p enqueue_submitted id;
            match queued with
            | Err e => Ret (Err e)
            | Ok _ => GetBatchImageJobByBatchID id
            end
        end
  end.

(** From the creation of the job on. *)
Definition submit_job (userID apiKeyID : Z) (s : JobSpec) (requestHash : string) (customIDs : list string)
    (ticks : nat) : batch (res BErr BatchImageJob) :=
  created <-p CreateBatchImageJob s;
  match created with
  | Err e => Ret (Err e)
  | Ok j =>
      reserved <-p reserveBatchImageBalanceHold s requestHash;
      match reserved with
      | Err e =>
          _ <-p fail_submit userID apiKeyID j
                  (match e with EBatchImageInsufficientBalance => "INSUFFICIENT_BALANCE"
                              | _ => "BILLING_HOLD_FAILED" end);
          Ret (Err e)
      | Ok _ =>
          items <-p BulkCreateBatchImageItems (BatchID s) (pending_item <$> customIDs);
          match items with
          | Err _ => undo_submit userID apiKeyID j requestHash
                       (fail_submit userID apiKeyID j "ITEM_CREATE_FAILED") EBatchImageQueueFailed
          | Ok _ =>
              moved <-p TransitionBatchImageJobStatus (BatchID s) BatchImageJobStatusUploading None;
              match moved with
              | Err EBatchImageInvalidTransition =>
                  undo_submit userID apiKeyID j requestHash (Ret ()) EBatchImageInvalidTransition
              | Err e => undo_submit userID apiKeyID j requestHash
                           (fail_submit userID apiKeyID j "UPLOAD_TRANSITION_FAILED") e
              | Ok _ => submit_to_provider userID apiKeyID j requestHash ticks
              end
          end
      end
  end.

(** [Submit] by the owner [(userID, apiKeyID)]; the job is created with the
    specification [s] and the hash of the request in it. *)
Definition Submit (userID apiKeyID : Z) (s : JobSpec) (requestHash : string) (customIDs : list string)
    (idempotencyKey : string) (ticks : nat) : batch (res BErr BatchImageJob) :=
  let key := TrimSpace idempotencyKey in
  if String.eqb key "" then submit_job userID apiKeyID s requestHash customIDs ticks
  else
    existing <-p GetBatchImageJobByIdempotencyKey userID apiKeyID key;
    match existing with
    | Ok j =>
        if negb (String.eqb (batchImageDerefString (RequestHash (spec j))) requestHash)
        then Ret (Err EBatchImageIdempotencyConflict)
        else if String.eqb (Status j) BatchImageJobStatusSubmitted then
          queued <-p enqueue_submitted (BatchID (spec j));
          Ret (match queued with Err e => Err e | Ok _ => Ok j end)
        else Ret (Ok j)
    | Err EBatchImageJobNotFound => submit_job userID apiKeyID s requestHash customIDs ticks
    | Err e => Ret (Err e)
    end.

(** ** Cancellation *)

Definition Cancel (userID apiKeyID : Z) (id : string) : batch (res BErr BatchImageJob) :=
  job <-p GetBatchImageJobByBatchIDForOwner userID apiKeyID id;
  match job with
  | Err e => Ret (Err e)
  | Ok j =>
      if isBatchImageProcessorDoneStatus (Status j) then
        released <-p releaseTerminalHold (spec j) (Status j);
        Ret (match released with Err _ => Err EBatchImageCancelFailed | Ok _ => Ok j end)
      else if negb (String.eqb (batchImageDerefString (ProviderJobName j)) "") then
        known <-p ask b_ok;
        if negb known then Ret (Err EBatchImageUnsupportedProvider)
        else
          match job_AccountID (spec j) with
          | None => Ret (Err EBatchImageCancelFailed)
          | Some _ =>
              cancelled <-p ask b_ok;
              if negb cancelled then Ret (Err EBatchImageCancelFailed)
              else
                queued <-p ask b_ok;
                if negb queued then Ret (Err EBatchImageCancelFailed)
                else GetBatchImageJobByBatchIDForOwner userID apiKeyID id
          end
      else
        moved <-p TransitionBatchImageJobStatus (BatchID (spec j)) BatchImageJobStatusCancelled None;
        match moved with
        | Err e => Ret (Err e)
        | Ok _ =>
            released <-p release_hold (spec j);
            match released with
            | Err _ => Ret (Err EBatchImageCancelFailed)
            | Ok _ => GetBatchImageJobByBatchIDForOwner userID apiKeyID id
            end
        end
  end.

(** ** Recovery of jobs that never reached the provider *)

Definition stale_listed (cutoff : time) (j : BatchImageJob) : bool :=
  stale_unsubmitted cutoff j && (f0 <ᶠ held_amount (spec j)).
Definition oldest_first (a b : BatchImageJob) : Prop :=
  UpdatedAt a < UpdatedAt b ∨ UpdatedAt a = UpdatedAt b ∧ JobID a ≤ JobID b.
#[global] Instance oldest_first_dec : RelDecision oldest_first.
Proof. intros a b. unfold oldest_first. apply _. Defined.
Definition ListStaleUnsubmittedBatchImageJobs (cutoff : time) (limit : Z)
  : batch (option (list BatchImageJob)) :=
  let limit := if (limit <=? 0) || (1000 <? limit) then 100 else limit in
  bread (λ d, take (Z.to_nat limit)
                (merge_sort oldest_first
                   (List.filter (stale_listed cutoff) (snd <$> map_to_list (bjobs d))))).

Fixpoint recover_jobs (cutoff : time) (jobs : list BatchImageJob) (released : Z) (failed : bool)
  : batch (Z * bool) :=
  match jobs with
  | [] => Ret (released, failed)
  | j :: jobs =>
      r <-p FailStaleUnsubmittedBatchImageJob (BatchID (spec j)) cutoff "SUBMIT_STALE_BEFORE_PROVIDER";
      let (applied, err) := (r : bool * bool) in
      if negb applied then recover_jobs cutoff jobs released (err || failed)
      else
        back <-p release_hold (spec j);
        match back with
        | Err _ => recover_jobs cutoff jobs released true
        | Ok _ => recover_jobs cutoff jobs (released + 1) failed
        end
  end.

(** How many holds were released, and whether an error is returned. *)
Definition ReleaseStaleUnsubmittedOnce (staleAfter : duration) (limit : Z) : batch (Z * bool) :=
  let staleAfter := if staleAfter <=? 0 then 10 * Minute else staleAfter in
  let limit := if limit <=? 0 then 100 else limit in
  t <-p bnow;
  jobs <-p ListStaleUnsubmittedBatchImageJobs (time_Add t (- staleAfter)) limit;
  match jobs with
  | None => Ret (0, true)
  | Some jobs => recover_jobs (time_Add t (- staleAfter)) jobs 0 false
  end.

(** ** Cleanup of inputs and outputs *)

Inductive CleanupTarget := CleanupTargetInput | CleanupTargetOutput.

(** [callProviderCleanup]: the reason of the error it returns.  What the
    account lookup or the provider answers is part of the oracle; a file that is
    not there is no error. *)
Definition callProviderCleanup (s : JobSpec) : batch (option string) :=
  known <-p ask b_ok;
  if negb known then Ret (Some "BATCH_IMAGE_UNSUPPORTED_PROVIDER")
  else if default 0 (job_AccountID s) <=? 0 then Ret (Some "BATCH_IMAGE_MISSING_ACCOUNT_ID")
  else
    account <-p ask b_error;
    match account with
    | Some e => Ret (Some e)
    | None => ask b_error
    end.

Definition unsafe_path : string := "VERTEX_UNSAFE_CLEANUP_PATH".
Definition cleanupFailureCode (reason : string) : string :=
  if String.eqb reason unsafe_path then "BATCH_IMAGE_CLEANUP_UNSAFE_PATH"
  else if negb (String.eqb (TrimSpace reason) "") then TrimSpace reason
  else "BATCH_IMAGE_PROVIDER_CLEANUP_FAILED".

(** [cleanupJob] from the call of the provider on. *)
Definition cleanup_files (j : BatchImageJob) (target : CleanupTarget) : batch (res BErr unit) :=
  let id := BatchID (spec j) in
  failed <-p callProviderCleanup (spec j);
  match failed with
  | Some reason =>
      _ <-p RecordBatchImageCleanupFailure id (cleanupFailureCode reason);
      Ret (Err (if String.eqb reason unsafe_path then EBatchImageCleanupUnsafePath
                else EBatchImageProviderCleanupFailed))
  | None =>
      t <-p bnow;
      match target with
      | CleanupTargetInput => MarkBatchImageInputDeleted id t
      | CleanupTargetOutput => MarkBatchImageOutputDeleted id t
      end
  end.

Definition cleanupJob (j : BatchImageJob) (target : CleanupTarget) : batch (res BErr unit) :=
  match target with
  | CleanupTargetInput =>
      match InputDeletedAt j with
      | Some _ => Ret (Ok ())
      | None => if negb (IsTerminalBatchImageJobStatus (Status j)) then Ret (Err EBatchImageCleanupFailed)
                else cleanup_files j target
      end
  | CleanupTargetOutput =>
      if negb (bool_decide (OutputDeletedAt j = None)) || String.eqb (Status j) BatchImageJobStatusOutputDeleted
      then Ret (Ok ())
      else if negb (one_of_status [BatchImageJobStatusCompleted; BatchImageJobStatusFailed;
                                   BatchImageJobStatusCancelled] (Status j))
      then Ret (Err EBatchImageOutputDeleteNotReady)
      else cleanup_files j target
  end.

Definition CleanupInput (id : string) : batch (res BErr unit) :=
  job <-p GetBatchImageJobByBatchID id;
  match job with Err e => Ret (Err e) | Ok j => cleanupJob j CleanupTargetInput end.
Definition CleanupOutput (id : string) : batch (res BErr unit) :=
  job <-p GetBatchImageJobByBatchID id;
  match job with Err e => Ret (Err e) | Ok j => cleanupJob j CleanupTargetOutput end.

Definition DeleteOutputsForOwner (userID apiKeyID : Z) (id : string) : batch (res BErr BatchImageJob) :=
  job <-p GetBatchImageJobByBatchIDForOwner userID apiKeyID id;
  match job with
  | Err e => Ret (Err e)
  | Ok j =>
      if String.eqb (Status j) BatchImageJobStatusOutputDeleted || negb (bool_decide (OutputDeletedAt j = None))
      then Ret (Ok j)
      else if negb (String.eqb (Status j) BatchImageJobStatusCompleted)
      then Ret (Err EBatchImageOutputDeleteNotReady)
      else
        cleaned <-p cleanupJob j CleanupTargetOutput;
        match cleaned with
        | Err e => Ret (Err e)
        | Ok _ => GetBatchImageJobByBatchIDForOwner userID apiKeyID id
        end
  end.
End Pipeline.
