(* ===== verification/BatchProps.v ===== *)
(** * Properties of batch-image jobs

    Rely-guarantee reasoning ([ProcGhost.v]) about any number of workers,
    submissions, cancellations, recoveries, cleanups and other billing
    operations on the same tables; the termination of settlement; and the index
    of a job's results. *)

From Stdlib Require Import ZArith Lia QArith Ascii String Bool.
From stdpp Require Import base numbers option list relations gmap strings pretty sorting.
From S2P Require Import Prelude GoStrings GoUTF8 GoFloat Channel Resolver UsageDB UsageBilling.
From S2P Require Import UsageBillingProps Redact Proc ProcGhost BatchImage BatchPipeline.

#[local] Open Scope Z_scope.

(** ** The claims of hold operations *)

Section Claims.
Context `{GoText} `{GoHash} `{PgFloat} `{PgClock}.

(** A transaction body that never fails with a conflict of its own. *)
Definition no_conflict {A} (m : tx A) : Prop := ∀ s, m s ≠ Err ErrUsageBillingRequestConflict.

Lemma no_conflict_bind {A B} (m : tx A) (k : A → tx B) :
  no_conflict m → (∀ a, no_conflict (k a)) → no_conflict (tx_bind m k).
Proof.
  intros Hm Hk s. unfold tx_bind. pose proof (Hm s). destruct (m s) as [[a s']|e]; [apply Hk|congruence].
Qed.
Lemma no_conflict_query {A} (f : DB → A) : no_conflict (query f).
Proof. intros [d [|[] fs]]; by unfold query, stmt. Qed.
Lemma no_conflict_update_user id g f : no_conflict (update_user id g f).
Proof.
  intros [d fs]. unfold update_user, stmt. simpl.
  destruct fs as [|[] fs]; try done;
    (destruct (users d !! id) as [u|]; [|done]; destruct (_ || _); [done|]; by destruct (f u)).
Qed.
Lemma no_conflict_missing id e : e ≠ ErrUsageBillingRequestConflict → no_conflict (missing_user id e).
Proof.
  intros He. apply no_conflict_bind; [apply no_conflict_query|].
  intros [] s; unfold tx_fail; simpl; congruence.
Qed.

Lemma release_no_conflict cmd : no_conflict (releaseUsageBillingBatchImageBalance cmd).
Proof.
  unfold releaseUsageBillingBatchImageBalance, batchImageHoldClaimExists.
  destruct (_ ≤ᶠ _); [by intros s|]. apply no_conflict_bind.
  - apply no_conflict_bind; [apply no_conflict_query|]. intros [e|]; [by intros s|].
    apply no_conflict_bind; [apply no_conflict_query|]. by intros a s.
  - intros []; [|by intros s]. apply no_conflict_bind; [apply no_conflict_update_user|].
    intros [u|]; [by intros s|]. by apply no_conflict_missing.
Qed.

(** The claim that answers no, or refuses, has found the key. *)
Lemma claim_false rid ak fp d fs s' :
  claimUsageBillingRequest rid ak fp (d, fs) = Ok (false, s') → claimed d (rid, ak).
Proof.
  unfold claimUsageBillingRequest, claimed, tx_bind, stmt, query. simpl.
  destruct fs as [|[] fs]; try done; simpl;
    (destruct (dedup d !! (rid, ak)) as [e|] eqn:E; simpl; [eauto|]);
    [|destruct fs as [|[] fs]; try done; simpl];
    (destruct (archive d !! (rid, ak)) as [e|] eqn:Ea; simpl; [eauto|done]).
Qed.
Lemma claim_conflict rid ak fp d fs :
  claimUsageBillingRequest rid ak fp (d, fs) = Err ErrUsageBillingRequestConflict → claimed d (rid, ak).
Proof.
  unfold claimUsageBillingRequest, claimed, tx_bind, stmt, query. simpl.
  destruct fs as [|[] fs]; try done; simpl;
    (destruct (dedup d !! (rid, ak)) as [e|] eqn:E; simpl; [eauto|]);
    [|destruct fs as [|[] fs]; try done; simpl];
    (destruct (archive d !! (rid, ak)) as [e|] eqn:Ea; simpl; [eauto|done]).
Qed.

Definition hold_key (cmd : BatchImageBalanceHoldCommand) : dedup_key :=
  (TrimSpace (h_RequestID cmd), h_APIKeyID cmd).

(** An operation that answers without an error has its request claimed. *)
Lemma hold_ok_claimed hold cmd fl d d' a :
  keeps same_claims (hold (hold_Normalize cmd)) →
  applyBatchImageBalanceHold hold cmd fl d = (d', Ok a) → claimed d' (hold_key cmd).
Proof.
  intros Hk. unfold applyBatchImageBalanceHold. cbv zeta.
  assert (hold_key cmd = (h_RequestID (hold_Normalize cmd), h_APIKeyID (hold_Normalize cmd))) as ->.
  { rewrite hold_Normalize_key. unfold hold_key, hold_Normalize. simpl. by destruct (String.eqb _ _). }
  destruct (String.eqb _ _); [done|]. unfold run_tx. destruct (fault_begin fl); [done|].
  match goal with |- context [match ?m with _ => _ end = _] => destruct m as [[r [d1 fs]]|e] eqn:E; [|done] end.
  destruct r as [r|r].
  - apply (claimed_body_commit (h_RequestID (hold_Normalize cmd), h_APIKeyID (hold_Normalize cmd))
             _ no_hold (hold (hold_Normalize cmd)) _ _ _ _ _ _ Hk) in E as (_ & Hc & _).
    destruct (fault_commit fl); intros [= <- _]; apply Hc; by right.
  - intros [= <- _]. unfold tx_bind at 1 in E.
    destruct (claimUsageBillingRequest _ _ _ _) as [[[] s1]|e] eqn:Ec; simpl in E; [|by eapply claim_false|done].
    unfold tx_bind in E. by destruct (hold _ _) as [[? ?]|].
Qed.

Lemma hold_conflict_claimed hold cmd fl d d' :
  no_conflict (hold (hold_Normalize cmd)) →
  applyBatchImageBalanceHold hold cmd fl d = (d', Err ErrUsageBillingRequestConflict) →
  claimed d' (hold_key cmd).
Proof.
  intros Hk. unfold applyBatchImageBalanceHold. cbv zeta.
  assert (hold_key cmd = (h_RequestID (hold_Normalize cmd), h_APIKeyID (hold_Normalize cmd))) as ->.
  { rewrite hold_Normalize_key. unfold hold_key, hold_Normalize. simpl. by destruct (String.eqb _ _). }
  destruct (String.eqb _ _); [done|]. unfold run_tx. destruct (fault_begin fl); [done|].
  match goal with |- context [match ?m with _ => _ end = _] => destruct m as [[r [d1 fs]]|e] eqn:E end.
  { destruct r; [|done]. by destruct (fault_commit fl). }
  intros [= <- ->]. unfold tx_bind at 1 in E.
  destruct (claimUsageBillingRequest _ _ _ _) as [[[] s1]|e] eqn:Ec; simpl in E; [|done|].
  - unfold tx_bind in E. pose proof (Hk s1). destruct (hold _ _) as [[? ?]|]; simplify_eq/=.
  - injection E as ->. by eapply claim_conflict.
Qed.
End Claims.

(** ** Who may change what

    The worker that holds a batch's lock is the only one to process it, and a
    batch id is submitted once. *)

Inductive role := RWorker (id : string) | RSubmit (id : string) | ROther.
#[global] Instance role_eq_dec : EqDecision role.
Proof. solve_decision. Defined.

#[global] Instance f64_eq_dec : EqDecision f64.
Proof. unfold f64. solve_decision. Defined.
#[global] Instance JobSpec_eq_dec : EqDecision JobSpec.
Proof. solve_decision. Defined.

Definition is_done (st : string) : Prop :=
  st = BatchImageJobStatusCompleted ∨ st = BatchImageJobStatusOutputDeleted.
Definition is_settling (st : string) : Prop := st = BatchImageJobStatusSettling.

Section Batch.
Context `{GoText} `{GoJSON} `{GoHash} `{PgFloat} `{PgClock}.
Context (retention DefaultRequeue RetryDelay : duration).

(** The capture, or the release, of a job's hold is recorded. *)
Definition captured (s : JobSpec) (b : DB) : Prop :=
  ∃ k, job_APIKeyID s = Some k ∧ claimed b (TrimSpace (BatchImageCaptureRequestID (BatchID s)), k).
Definition released (s : JobSpec) (b : DB) : Prop :=
  ∃ k, job_APIKeyID s = Some k ∧ claimed b (TrimSpace (BatchImageReleaseRequestID (BatchID s)), k).
Definition nothing_held (s : JobSpec) : Prop := (floor0 (held_amount s) ≤ᶠ f0) = true.
Definition returned (s : JobSpec) (b : DB) : Prop := nothing_held s ∨ released s b.

Definition more_claims (b b' : DB) : Prop := ∀ k, claimed b k → claimed b' k.

Lemma captured_mono s b b' : more_claims b b' → captured s b → captured s b'.
Proof. intros Hb (k & Hk & Hc). exists k. auto. Qed.
Lemma returned_mono s b b' : more_claims b b' → returned s b → returned s b'.
Proof. intros Hb [?|(k & Hk & Hc)]; [by left|]. right. exists k. auto. Qed.

(** A job on which the tables agree with what its status says. *)
Definition consistent (d : BatchDB) : Prop :=
  ∀ id j, bjobs d !! id = Some j →
    BatchID (spec j) = id ∧
    (is_done (Status j) → captured (spec j) (billing d)) ∧
    (is_settling (Status j) → ProviderJobName j ≠ None).

(** What a step of a process with role [r] may do to a job. *)
Definition row_step (r : role) (b : DB) (j j' : BatchImageJob) : Prop :=
  spec j' = spec j ∧
  (is_done (Status j') → is_done (Status j) ∨ captured (spec j) b) ∧
  (is_settling (Status j') →
     is_settling (Status j) ∨ r = RWorker (BatchID (spec j)) ∧ ProviderJobName j ≠ None) ∧
  (is_settling (Status j) → is_settling (Status j') ∨ r = RWorker (BatchID (spec j))) ∧
  (ProviderJobName j' = ProviderJobName j ∨ r = RSubmit (BatchID (spec j)) ∧ ProviderJobName j' ≠ None).

Definition fresh_row (id : string) (j : BatchImageJob) : Prop :=
  BatchID (spec j) = id ∧ ¬ is_done (Status j) ∧ ¬ is_settling (Status j).

Definition step (r : role) (d d' : BatchDB) : Prop :=
  more_claims (billing d) (billing d') ∧
  (∀ id j, bjobs d !! id = Some j →
     ∃ j', bjobs d' !! id = Some j' ∧ row_step r (billing d) j j') ∧
  (∀ id j', bjobs d' !! id = Some j' → bjobs d !! id = None → fresh_row id j').

Lemma row_step_refl r b j : row_step r b j j.
Proof. unfold row_step. tauto. Qed.
Lemma step_refl r d : step r d d.
Proof.
  split_and!; [by intros k|intros id j Hj; exists j; split; [done|apply row_step_refl]|].
  intros id j' Hj' Hn. congruence.
Qed.

Lemma step_consistent r d d' : step r d d' → consistent d → consistent d'.
Proof.
  intros (Hb & Hrows & Hnew) Hc id j' Hj'. destruct (bjobs d !! id) as [j|] eqn:Hj.
  - destruct (Hrows _ _ Hj) as (j1 & Hj1 & Hs & Hd & Hset & _ & Hname). simplify_eq.
    destruct (Hc _ _ Hj) as (Hid & Hdone & Hst). rewrite Hs. split_and!; [done| |].
    + intros [Hd'|Hd']%Hd; apply (captured_mono _ _ _ Hb); auto.
    + intros Hst'. destruct Hname as [->|[_ Hne]]; [|done].
      destruct (Hset Hst') as [Ho|[_ Ho]]; auto.
  - destruct (Hnew _ _ Hj' Hj) as (Hid & Hnd & Hns). split_and!; [done|tauto|tauto].
Qed.

(** A change of one row, and one that leaves the jobs alone. *)
Lemma step_row r d id j j' :
  bjobs d !! id = Some j → row_step r (billing d) j j' → step r d (set_jobs <[id := j']> d).
Proof.
  intros Hj Hrow. split_and!; [by intros k| |]; simpl.
  - intros i j0 Hi. destruct (decide (i = id)) as [->|Hne].
    + rewrite lookup_insert_eq. simplify_eq. eauto.
    + rewrite lookup_insert_ne by done. exists j0. split; [done|apply row_step_refl].
  - intros i j0. destruct (decide (i = id)) as [->|Hne]; [congruence|].
    rewrite lookup_insert_ne by done. congruence.
Qed.
Lemma step_jobs_same r d d' :
  bjobs d' = bjobs d → more_claims (billing d) (billing d') → step r d d'.
Proof.
  intros Hj Hb. split_and!; [done| |]; rewrite Hj; [|congruence].
  intros id j Hlk. exists j. split; [done|apply row_step_refl].
Qed.

(** ** What a process knows of a job *)

Definition job_is (id : string) (s : JobSpec) (φ : string → option string → Prop) (d : BatchDB) : Prop :=
  ∃ j, bjobs d !! id = Some j ∧ spec j = s ∧ φ (Status j) (ProviderJobName j).

Definition settling (st : string) (_ : option string) : Prop := is_settling st.
Definition not_settling (st : string) (_ : option string) : Prop := ¬ is_settling st.
Definition named (_ : string) (n : option string) : Prop := n ≠ None.
Definition unnamed (_ : string) (n : option string) : Prop := n = None.
Definition exists_ (_ : string) (_ : option string) : Prop := True.

(** The steps of the others. *)
Definition others (r : role) (w w' : BatchDB * unit) : Prop :=
  consistent (fst w) ∧ ∃ r', (r' ≠ r ∨ r' = ROther) ∧ step r' (fst w) (fst w').
Definition own (r : role) (w w' : BatchDB * unit) : Prop := consistent (fst w) ∧ step r (fst w) (fst w').

Definition kept (r : role) (P : BatchDB → Prop) : Prop :=
  ∀ d d' r', consistent d → (r' ≠ r ∨ r' = ROther) → step r' d d' → P d → P d'.

Definition triple {A} (r : role) (P : BatchDB → Prop) (p : batch A) (Q : A → BatchDB → Prop) : Prop :=
  gsafe (Γ := unit) (λ _, True) (others r) (own r)
    (λ w, P (fst w) ∧ consistent (fst w)) p (λ a w, Q a (fst w) ∧ consistent (fst w)).

Lemma job_kept r id s (φ : string → option string → Prop) :
  (∀ r' b j j', (r' ≠ r ∨ r' = ROther) → BatchID (spec j) = id → row_step r' b j j' →
     (is_settling (Status j) → ProviderJobName j ≠ None) →
     φ (Status j) (ProviderJobName j) → φ (Status j') (ProviderJobName j')) →
  kept r (job_is id s φ).
Proof.
  intros Hφ d d' r' Hc Hr (_ & Hrows & _) (j & Hj & Hs & HP).
  destruct (Hrows _ _ Hj) as (j' & Hj' & Hrow). exists j'. destruct (Hc _ _ Hj) as (Hid & _ & Hst).
  split_and!; [done|by rewrite (proj1 Hrow)|]. by eapply Hφ.
Qed.
Lemma exists_kept r id s : kept r (job_is id s exists_).
Proof. by apply job_kept. Qed.
Lemma named_kept r id s : kept r (job_is id s named).
Proof.
  apply job_kept. intros r' b j j' _ _ (_ & _ & _ & _ & Hn) _. unfold named.
  destruct Hn as [->|[_ Hn]]; auto.
Qed.
Lemma settling_kept id s : kept (RWorker id) (job_is id s settling).
Proof.
  apply job_kept. intros r' b j j' Hr Hid (_ & _ & _ & Hs & _) _ Hst.
  destruct (Hs Hst) as [?| ->]; [done|]. rewrite Hid in Hr. by destruct Hr.
Qed.
Lemma not_settling_kept id s : kept (RWorker id) (job_is id s not_settling).
Proof.
  apply job_kept. intros r' b j j' Hr Hid (_ & _ & Hs & _) _ Hst Hst'.
  destruct (Hs Hst') as [?|[-> _]]; [done|]. rewrite Hid in Hr. by destruct Hr.
Qed.
Lemma unnamed_kept id s : kept (RSubmit id) (job_is id s unnamed).
Proof.
  apply job_kept. intros r' b j j' Hr Hid (_ & _ & _ & _ & Hn) _ Hu. unfold unnamed in *.
  destruct Hn as [->|[-> _]]; [done|]. rewrite Hid in Hr. by destruct Hr.
Qed.
Lemma captured_kept r s : kept r (λ d, captured s (billing d)).
Proof. intros d d' r' _ _ (Hb & _). by apply captured_mono. Qed.
Lemma returned_kept r s : kept r (λ d, returned s (billing d)).
Proof. intros d d' r' _ _ (Hb & _). by apply returned_mono. Qed.
Lemma kept_and r P Q : kept r P → kept r Q → kept r (λ d, P d ∧ Q d).
Proof. intros HP HQ d d' r' Hc Hr Hs [? ?]. split; eauto. Qed.
Lemma kept_or r P Q : kept r P → kept r Q → kept r (λ d, P d ∨ Q d).
Proof. intros HP HQ d d' r' Hc Hr Hs [?|?]; [left|right]; eauto. Qed.
Lemma kept_const r (φ : Prop) : kept r (λ _, φ).
Proof. by intros d d' r' _ _ _. Qed.
Lemma kept_impl r (φ : Prop) P : kept r P → kept r (λ d, φ → P d).
Proof. intros HP d d' r' Hc Hr Hs HI Hφ. eauto. Qed.

Lemma kept_gstable r P :
  kept r P → gstable (others r) (λ w : BatchDB * unit, P (fst w) ∧ consistent (fst w)).
Proof.
  intros HP w w' [Hw Hc] [_ (r' & Hr & Hs)]. split; [by eapply HP|by eapply step_consistent].
Qed.

Lemma triple_ret {A} r (P : BatchDB → Prop) (a : A) Q :
  (∀ d, P d → consistent d → Q a d) → triple r P (Ret a) Q.
Proof. intros HQ [d u] [HP Hc]. split; [by apply HQ|done]. Qed.
Lemma triple_weaken {A} r (P P' : BatchDB → Prop) (p : batch A) (Q Q' : A → BatchDB → Prop) :
  triple r P p Q → (∀ d, P' d → consistent d → P d) → (∀ a d, Q a d → consistent d → Q' a d) →
  triple r P' p Q'.
Proof.
  intros Hp HP HQ. eapply gsafe_weaken; [exact Hp| |].
  - intros w [? ?]. split; auto.
  - intros a w [? ?]. split; auto.
Qed.
Lemma triple_pre {A} r (P P' : BatchDB → Prop) (p : batch A) (Q : A → BatchDB → Prop) :
  triple r P p Q → (∀ d, P' d → consistent d → P d) → triple r P' p Q.
Proof. intros Hp HP. by eapply triple_weaken. Qed.
Lemma triple_bind {A B} r P (p : batch A) (k : A → batch B) Q Q' :
  triple r P p Q → (∀ a, triple r (Q a) (k a) Q') → triple r P (proc_bind p k) Q'.
Proof. intros Hp Hk. by eapply gsafe_bind. Qed.
Lemma triple_absurd {A} r (P : BatchDB → Prop) (p : batch A) Q : (∀ d, ¬ P d) → triple r P p Q.
Proof. intros HP. apply gsafe_absurd. by intros w [?%HP _]. Qed.

Lemma triple_act {B} r (P : BatchDB → Prop) (f : BOracle → BatchDB → B * BatchDB) M :
  (∀ o d, P d → consistent d → step r d (snd (f o d)) ∧ M (fst (f o d)) (snd (f o d))) →
  (∀ b, kept r (M b)) → triple r P (act f) M.
Proof.
  intros Hf HM. apply gsafe_act; [|intros b; by apply kept_gstable].
  intros o d u _ [HP Hc]. destruct (Hf o d HP Hc) as [Hs HMb]. exists tt. simpl in *.
  split_and!; [by split|done|by eapply step_consistent].
Qed.

Lemma triple_read {B} r (P : BatchDB → Prop) (f : BatchDB → B) (M : option B → BatchDB → Prop) :
  (∀ d, P d → consistent d → M (Some (f d)) d ∧ M None d) → (∀ b, kept r (M b)) →
  triple r P (bread f) M.
Proof.
  intros Hf HM. apply triple_act; [|done]. intros o d HP Hc. destruct (Hf d HP Hc).
  destruct (b_fate o); simpl; (split; [apply step_refl|done]).
Qed.
Lemma triple_outside {B} r (P : BatchDB → Prop) (f : BOracle → B) : kept r P → triple r P (ask f) (λ _, P).
Proof. intros HP. apply triple_act; [|done]. intros o d HPd _. split; [apply step_refl|done]. Qed.
Lemma triple_now r (P : BatchDB → Prop) : kept r P → triple r P bnow (λ _, P).
Proof. apply (triple_outside r P b_now). Qed.

Lemma triple_write {A} r (P : BatchDB → Prop) (f : time → BatchDB → res BErr (A * BatchDB)) M :
  (∀ now d, P d → consistent d →
     M (Err EBDB) d ∧
     match f now d with
     | Ok (a, d') => step r d d' ∧ M (Ok a) d' ∧ M (Err EBDB) d'
     | Err e => M (Err e) d
     end) →
  (∀ b, kept r (M b)) → triple r P (bwrite f) M.
Proof.
  intros Hf HM. apply triple_act; [|done]. intros o d HP Hc.
  destruct (Hf (b_now o) d HP Hc) as [He Hok].
  destruct (b_fate o), (f (b_now o) d) as [[a d']|e]; simpl; try (by destruct_and!; split_and!);
    (split; [apply step_refl|done]).
Qed.

(** Facts that no step undoes can be carried along. *)
Definition lasting (F : BatchDB → Prop) : Prop :=
  ∀ r d d', consistent d → step r d d' → F d → F d'.
Lemma lasting_kept r F : lasting F → kept r F.
Proof. intros HF d d' r' Hc _. by apply HF. Qed.

Lemma triple_frame {A} r (F P : BatchDB → Prop) (p : batch A) (Q : A → BatchDB → Prop) :
  lasting F → triple r P p Q → triple r (λ d, P d ∧ F d) p (λ a d, Q a d ∧ F d).
Proof.
  intros HF Hp.
  eapply gsafe_weaken; [eapply (gsafe_frame _ _ _ (λ w : BatchDB * unit, F (fst w))); [| |exact Hp]|..].
  - intros w w' (Hc & r' & _ & Hs). by eapply HF.
  - intros w w' (Hc & Hs). by eapply HF.
  - simpl. tauto.
  - simpl. tauto.
Qed.

(** ** Statements that leave status and provider job alone *)

Definition row_view (j : BatchImageJob) := (spec j, Status j, ProviderJobName j).
Definition quiet_step (d d' : BatchDB) : Prop :=
  more_claims (billing d) (billing d') ∧
  ∀ id, row_view <$> bjobs d' !! id = row_view <$> bjobs d !! id.
Definition quiet (P : BatchDB → Prop) : Prop := ∀ d d', quiet_step d d' → P d → P d'.

Lemma row_view_step r b j j' : row_view j' = row_view j → row_step r b j j'.
Proof. unfold row_view, row_step. intros [= -> -> ->]. tauto. Qed.
Lemma quiet_step_step r d d' : quiet_step d d' → step r d d'.
Proof.
  intros [Hb Hv]. split_and!; [done| |].
  - intros id j Hj. specialize (Hv id). rewrite Hj in Hv. destruct (bjobs d' !! id) as [j'|]; [|done].
    exists j'. split; [done|]. apply row_view_step, (inj Some), Hv.
  - intros id j' Hj' Hn. specialize (Hv id). by rewrite Hj', Hn in Hv.
Qed.
Lemma quiet_refl d : quiet_step d d.
Proof. split; [by intros k|done]. Qed.
Lemma quiet_row d id j j' :
  bjobs d !! id = Some j → row_view j' = row_view j → quiet_step d (set_jobs <[id := j']> d).
Proof.
  intros Hj Hv. split; [by intros k|]. intros i. simpl. destruct (decide (i = id)) as [->|Hne].
  - rewrite lookup_insert_eq, Hj. simpl. by rewrite Hv.
  - by rewrite lookup_insert_ne.
Qed.

Lemma quiet_job_is id s φ : quiet (job_is id s φ).
Proof.
  intros d d' [_ Hv] (j & Hj & Hs & Hφ). specialize (Hv id). rewrite Hj in Hv.
  destruct (bjobs d' !! id) as [j'|] eqn:Hj'; [|done]. injection Hv as Hs' Hst Hn.
  exists j'. by rewrite Hs', Hst, Hn.
Qed.
Lemma quiet_const (φ : Prop) : quiet (λ _, φ).
Proof. by intros d d' _. Qed.

Lemma triple_quiet {A} r (P : BatchDB → Prop) (f : time → BatchDB → res BErr (A * BatchDB)) :
  kept r P → quiet P → (∀ now d a d', f now d = Ok (a, d') → quiet_step d d') →
  triple r P (bwrite f) (λ _, P).
Proof.
  intros HP Hq Hf. apply triple_write; [|done]. intros now d HPd Hc. split; [done|].
  destruct (f now d) as [[a d']|e] eqn:E; [|done]. apply Hf in E.
  split_and!; [by apply quiet_step_step|by eapply Hq|by eapply Hq].
Qed.

Lemma triple_update_quiet r (P : BatchDB → Prop) id g f :
  kept r P → quiet P → (∀ now j, g j = true → row_view (f now j) = row_view j) →
  triple r P (update_job id g f) (λ _, P).
Proof.
  intros HP Hq Hf. apply triple_quiet; [done|done|]. intros now d a d'.
  destruct (bjobs d !! id) as [j|] eqn:Hj; [|intros [= <- <-]; apply quiet_refl].
  destruct (g j) eqn:Hg; intros [= <- <-]; [|apply quiet_refl].
  by eapply quiet_row; [|apply Hf].
Qed.

Lemma triple_bill {A} r (P : BatchDB → Prop) (f : Faults → DB → DB * res UBError A)
    (C : res UBError A → DB → Prop) :
  kept r P → quiet P →
  (∀ fl b, more_claims b (fst (f fl b)) ∧ C (snd (f fl b)) (fst (f fl b))) →
  (∀ a b b', more_claims b b' → C a b → C a b') →
  triple r P (bill f) (λ a d, P d ∧ C a (billing d)).
Proof.
  intros HP Hq Hf HC. apply triple_act.
  - intros o d HPd Hc. destruct (Hf (b_faults o) (billing d)) as [Hm HCb].
    destruct (f (b_faults o) (billing d)) as [b res0]. simpl in *.
    assert (quiet_step d (set_billing b d)) as Hs by (by split).
    split_and!; [by apply quiet_step_step|by eapply Hq|done].
  - intros a. apply kept_and; [done|]. intros d d' r' _ _ (Hm & _). by apply HC.
Qed.

(** A statement that changes one row and keeps what is known. *)
Lemma triple_update {A} r (P : BatchDB → Prop) id (h : time → BatchImageJob → res BErr (A * BatchImageJob))
    (missing : res BErr A) :
  kept r P →
  (∀ now d j a j', P d → consistent d → bjobs d !! id = Some j → h now j = Ok (a, j') →
     row_step r (billing d) j j' ∧ P (set_jobs <[id := j']> d)) →
  triple r P
    (bwrite (λ now d, match bjobs d !! id with
                      | None => match missing with Ok a => Ok (a, d) | Err e => Err e end
                      | Some j => match h now j with
                                  | Ok (a, j') => Ok (a, set_jobs <[id := j']> d)
                                  | Err e => Err e
                                  end
                      end)) (λ _, P).
Proof.
  intros HP Hh. apply triple_write; [|done]. intros now d HPd Hc. split; [done|].
  destruct (bjobs d !! id) as [j|] eqn:Hj.
  - destruct (h now j) as [[a j']|e] eqn:E; [|done]. destruct (Hh _ _ _ _ _ HPd Hc Hj E) as [Hr HP'].
    split_and!; [by eapply step_row|done|done].
  - destruct missing; [|done]. split_and!; [apply step_refl|done|done].
Qed.

(** ** The statements *)

Lemma job_is_insert i s φ d id j j' :
  bjobs d !! id = Some j → spec j' = spec j →
  (φ (Status j) (ProviderJobName j) → φ (Status j') (ProviderJobName j')) →
  job_is i s φ d → job_is i s φ (set_jobs <[id := j']> d).
Proof.
  intros Hj Hs Hφ (j0 & Hj0 & Hs0 & HP). unfold job_is. simpl. destruct (decide (i = id)) as [->|Hne].
  - rewrite lookup_insert_eq. simplify_eq. exists j'. auto.
  - rewrite lookup_insert_ne by done. eauto.
Qed.

Lemma can_leave_settling to :
  CanTransitionBatchImageJob BatchImageJobStatusSettling to = true →
  to = BatchImageJobStatusCompleted ∨ to = BatchImageJobStatusFailed.
Proof.
  unfold CanTransitionBatchImageJob. destruct (_ || _); [done|].
  change (IsTerminalBatchImageJobStatus BatchImageJobStatusSettling) with false.
  change (allowed_transitions BatchImageJobStatusSettling) with [BatchImageJobStatusCompleted].
  cbv iota. unfold one_of_status, existsb.
  destruct (String.eqb_spec to BatchImageJobStatusFailed); [auto|].
  destruct (String.eqb_spec to BatchImageJobStatusCompleted); auto; done.
Qed.

Lemma triple_transition r id to code (P : BatchDB → Prop) :
  kept r P → ¬ is_done to →
  (to = BatchImageJobStatusFailed → r = RWorker id) →
  (is_settling to → r = RWorker id ∧
     ∀ d j, P d → consistent d → bjobs d !! id = Some j → ProviderJobName j ≠ None) →
  (∀ now d j, P d → bjobs d !! id = Some j → P (set_jobs <[id := transitioned to code now j]> d)) →
  triple r P (TransitionBatchImageJobStatus id to code) (λ _, P).
Proof.
  intros HP Hnd Hf Hs HPt. apply triple_write; [|done]. intros now d HPd Hc. split; [done|].
  destruct (bjobs d !! id) as [j|] eqn:Hj; [|done].
  destruct (CanTransitionBatchImageJob _ _) eqn:Hcan; [|done].
  split_and!; [|by apply HPt|by apply HPt]. eapply step_row; [done|].
  destruct (Hc _ _ Hj) as (Hid & _). unfold row_step, transitioned. cbn -[one_of_status].
  split_and!; [done|tauto| | |by left].
  - intros Ht. destruct (Hs Ht) as [-> Hn]. right. rewrite Hid. split; [done|by eapply Hn].
  - intros Hst. unfold is_settling in Hst. rewrite Hst in Hcan. rewrite Hid. right. apply Hf.
    destruct (can_leave_settling _ Hcan) as [->|]; [|done]. destruct Hnd. by left.
Qed.

Lemma claims_mono_reserve cmd fl b : more_claims b (fst (ReserveBatchImageBalance cmd fl b)).
Proof. intros k. apply (run_op_claimed (OpReserve cmd fl)). Qed.
Lemma claims_mono_capture cmd fl b : more_claims b (fst (CaptureBatchImageBalance cmd fl b)).
Proof. intros k. apply (run_op_claimed (OpCapture cmd fl)). Qed.
Lemma claims_mono_release cmd fl b : more_claims b (fst (ReleaseBatchImageBalance cmd fl b)).
Proof. intros k. apply (run_op_claimed (OpRelease cmd fl)). Qed.

Lemma build_hold_Ok s rid amount h cmd :
  buildBatchImageHoldCommand s rid amount h = Ok cmd →
  ∃ k, job_APIKeyID s = Some k ∧ hold_key cmd = (TrimSpace rid, k) ∧
       h_HoldAmount cmd = floor0 (held_amount s).
Proof.
  unfold buildBatchImageHoldCommand. destruct (job_APIKeyID s) as [k|]; [|done].
  destruct (k <=? 0); [done|]. intros [= <-]. by exists k.
Qed.

Lemma triple_reserve r (P : BatchDB → Prop) s h :
  kept r P → quiet P → triple r P (reserveBatchImageBalanceHold s h) (λ _, P).
Proof.
  intros HP Hq. unfold reserveBatchImageBalanceHold.
  destruct (buildBatchImageHoldCommand _ _ _ _) as [cmd|e]; [|by apply triple_ret].
  destruct (_ ≤ᶠ _); [by apply triple_ret|].
  eapply triple_bind; [apply (triple_bill _ P _ (λ _ _, True)); [done|done| |done]|].
  - intros fl b. split; [apply claims_mono_reserve|done].
  - intros a. apply triple_ret. by intros d [? _].
Qed.

Lemma triple_capture r (P : BatchDB → Prop) s amount h :
  kept r P → quiet P →
  triple r P (captureBatchImageBalanceHold s amount h)
    (λ a d, P d ∧ (a = Ok () → captured s (billing d))).
Proof.
  intros HP Hq. unfold captureBatchImageBalanceHold.
  destruct (buildBatchImageHoldCommand _ _ _ _) as [cmd|e] eqn:E; [|by apply triple_ret].
  destruct (build_hold_Ok _ _ _ _ _ E) as (k & Hk & Hkey & _).
  eapply triple_bind; [apply (triple_bill _ P _ (λ a b, is_ok a = true → claimed b (hold_key cmd)));
    [done|done| |]|].
  - intros fl b. split; [apply claims_mono_capture|].
    destruct (CaptureBatchImageBalance cmd fl b) as [b' [a|e]] eqn:Ec; [|done]. intros _.
    eapply (hold_ok_claimed captureUsageBillingBatchImageBalance); [apply hold_effects_claims|exact Ec].
  - intros a b b' Hb HC Ha. auto.
  - intros a. apply triple_ret. intros d [HPd Hc] _. split; [done|].
    destruct a; [|done]. intros _. exists k. rewrite Hkey in Hc. auto.
Qed.

Lemma triple_release r (P : BatchDB → Prop) s h :
  kept r P → quiet P →
  triple r P (releaseBatchImageBalanceHold s h)
    (λ a d, P d ∧ (a = Ok () → returned s (billing d))).
Proof.
  intros HP Hq. unfold releaseBatchImageBalanceHold.
  destruct (buildBatchImageHoldCommand _ _ _ _) as [cmd|e] eqn:E; [|by apply triple_ret].
  destruct (build_hold_Ok _ _ _ _ _ E) as (k & Hk & Hkey & Hamount).
  destruct (_ ≤ᶠ _) eqn:Hle.
  { apply triple_ret. intros d HPd _. split; [done|]. intros _. left. unfold nothing_held. congruence. }
  eapply triple_bind; [apply (triple_bill _ P _ (λ a b,
     is_ok a = true ∨ a = Err ErrUsageBillingRequestConflict → claimed b (hold_key cmd)));
    [done|done| |]|].
  - intros fl b. split; [apply claims_mono_release|].
    destruct (ReleaseBatchImageBalance cmd fl b) as [b' [a|e]] eqn:Ec; intros Ha.
    + eapply (hold_ok_claimed releaseUsageBillingBatchImageBalance); [apply hold_effects_claims|exact Ec].
    + destruct Ha as [?|Ha]; [done|]. simpl in Ha. injection Ha as ->.
      eapply (hold_conflict_claimed releaseUsageBillingBatchImageBalance); [apply release_no_conflict|exact Ec].
  - intros a b b' Hb HC Ha. auto.
  - intros a. apply triple_ret. intros d [HPd Hc] _. split; [done|]. intros Ha. right. exists k.
    split; [done|]. rewrite Hkey in Hc. apply Hc.
    destruct a as [a|[]]; try done; [by left|by right].
Qed.

Lemma triple_retry_count r (P : BatchDB → Prop) id code :
  kept r P → quiet P → triple r P (SetBatchImageJobSettlementFailed id code) (λ _, P).
Proof.
  intros HP Hq. apply triple_quiet; [done|done|]. intros now d a d'.
  destruct (bjobs d !! id) as [j|] eqn:Hj; [|done]. intros [= <- <-]. by eapply quiet_row.
Qed.

Lemma lasting_captured s : lasting (λ d, captured s (billing d)).
Proof. intros r d d' _ (Hb & _). by apply captured_mono. Qed.
Lemma lasting_returned s : lasting (λ d, returned s (billing d)).
Proof. intros r d d' _ (Hb & _). by apply returned_mono. Qed.
Lemma lasting_named id s : lasting (job_is id s named).
Proof.
  intros r d d' Hc (_ & Hrows & _) (j & Hj & Hs & Hn).
  destruct (Hrows _ _ Hj) as (j' & Hj' & Hsp & _ & _ & _ & Hname). exists j'.
  split_and!; [done|by rewrite Hsp|]. unfold named in *. destruct Hname as [->|[_ ?]]; auto.
Qed.
Lemma lasting_exists id s : lasting (job_is id s exists_).
Proof.
  intros r d d' Hc (_ & Hrows & _) (j & Hj & Hs & _).
  destruct (Hrows _ _ Hj) as (j' & Hj' & Hsp & _). exists j'. by rewrite Hsp.
Qed.

(** ** Settlement by the worker *)

Section Worker.
Context (s : JobSpec).
Let id := BatchID s.
Let W := RWorker id.
Let S_ := job_is id s settling.

(** What the worker knows when settlement answers [res]. *)
Definition settle_post {A : Type} (res0 : res BErr A) (d : BatchDB) : Prop :=
  match res0 with
  | Ok _ => captured s (billing d)
  | Err EBatchImageSettlementBillingFailed => job_is (BatchID s) s settling d ∨ returned s (billing d)
  | Err _ => True
  end.
Lemma settling_post {A : Type} (e : BErr) d : job_is (BatchID s) s settling d → settle_post (A := A) (Err e) d.
Proof. intros Hd. unfold settle_post. destruct e; try done. by left. Qed.

Lemma settling_kept_quiet : kept W S_ ∧ quiet S_.
Proof. split; [apply settling_kept|apply quiet_job_is]. Qed.

Lemma triple_failExhausted :
  triple W S_ (failExhaustedSettlement s) (λ e, settle_post (A := unit) (Err e)).
Proof.
  destruct settling_kept_quiet as [HK HQ].
  eapply triple_bind; [by apply triple_release|]. intros [a|e].
  - eapply triple_bind.
    + apply (triple_pre _ (λ d, returned s (billing d)) _ _ (λ _ d, returned s (billing d)));
        [|intros d [_ Hd] _; by destruct a; apply Hd].
      apply triple_transition; [apply returned_kept|by intros [?|?]|reflexivity|done|done].
    + intros [u|e]; apply triple_ret; intros d Hd _; [by right|].
      destruct e; simpl; auto.
  - eapply triple_bind.
    + apply (triple_pre _ S_ _ _ (λ _, S_)); [by apply triple_retry_count|by intros d [? _]].
    + intros u. apply triple_ret. intros d Hd _. by left.
Qed.

Lemma triple_fail_settlement {A : Type} code e :
  triple W S_ (fail_settlement (A := A) s code e) settle_post.
Proof.
  destruct settling_kept_quiet as [HK HQ]. eapply triple_bind; [eapply triple_bind|].
  - by apply triple_retry_count.
  - intros [n|e']; [|apply (triple_ret _ _ None (λ o, match o with
                       | Some e => settle_post (A := A) (Err e) | None => S_ end)); by intros d Hd _].
    destruct (_ <=? n); [|by apply triple_ret].
    eapply triple_bind; [apply triple_failExhausted|]. intros e'. apply triple_ret. by intros d Hd _.
  - intros [e'|]; apply triple_ret; intros d Hd _; [done|by apply (settling_post (A := A))].
Qed.

Lemma triple_settle_at_price j p :
  spec j = s → triple W S_ (settle_at_price retention j p) settle_post.
Proof.
  intros Hs. destruct settling_kept_quiet as [HK HQ]. unfold settle_at_price. rewrite Hs.
  destruct (_ <ᶠ _); [apply triple_fail_settlement|].
  eapply triple_bind; [by apply triple_capture|]. intros [a|e].
  - eapply triple_bind; [apply triple_now, kept_and; [done|apply kept_impl, captured_kept]|].
    intros now. cbv beta. eapply triple_bind.
    + apply (triple_write _ _ _ (λ a d, captured s (billing d)
                                   ∧ a ≠ Err EBatchImageSettlementBillingFailed)).
      2:{ intros b. apply kept_and; [apply captured_kept|apply kept_const]. }
      intros t d [(j0 & Hj & Hs0 & _) Hcap] Hc. destruct a. specialize (Hcap eq_refl).
      split; [done|]. change (bjobs d !! BatchID s = Some j0) in Hj. rewrite Hj. destruct (negb _); [by destruct (String.eqb _ _)|].
      destruct (match ManifestHash j0 with None => _ | _ => _ end); [|done].
      split_and!; [|done..]. eapply step_row; [done|]. unfold row_step. rewrite Hs0. simpl.
      split_and!; [done| |by intros ?|by right|by left].
      intros _. by right.
    + intros [u|e]; apply triple_ret; intros d [Hd Hne] _; [done|]. by destruct e.
  - eapply triple_pre; [apply (triple_fail_settlement (A := BatchImageSettlementResult))|].
    by intros d [? _].
Qed.

Lemma triple_get {r P} i (M : BatchImageJob → BatchDB → Prop) :
  kept r P → (∀ j, kept r (M j)) →
  (∀ d j, P d → consistent d → bjobs d !! i = Some j → M j d) →
  triple r P (GetBatchImageJobByBatchID i) (λ a d, P d ∧ ∀ j, a = Ok j → M j d).
Proof.
  intros HP HM Hread. eapply triple_bind.
  - apply (triple_read _ _ _ (λ a d, P d ∧ ∀ j, a = Some (Some j) → M j d)).
    + intros d HPd Hc. split; [|by split]. split; [done|]. intros j [= Hj]. by apply Hread.
    + intros b d d' r' Hc Hr Hs [HPd HMd]. split; [by eapply HP|]. intros j Hj. eapply HM; eauto.
  - intros [[j|]|]; apply triple_ret; intros d [HPd HMd] _; (split; [done|]); [|done..].
    intros j' [= <-]. by apply HMd.
Qed.

Lemma triple_settle_job j :
  spec j = s → triple W S_ (settle_job retention j) settle_post.
Proof.
  intros Hs. unfold settle_job. rewrite Hs. pose proof (@triple_fail_settlement) as Hfail.
  destruct (_ <=? 0); [by apply triple_ret|]. destruct (_ <=? 0); [by apply triple_ret|].
  destruct (isBatchImageSettlementRetryExhausted j).
  { eapply triple_bind; [apply triple_failExhausted|]. intros e. apply triple_ret. by intros d Hd _. }
  destruct (invalid_counts j); [apply Hfail|]. destruct (_ && _); [apply Hfail|].
  destruct settling_kept_quiet as [HK HQ].
  eapply (triple_bind _ _ _ _ (λ _, S_)).
  - unfold settlementUnitPrice. destruct (1 <=? _); [by apply triple_ret|].
    eapply triple_bind; [by apply triple_outside|]. intros a. by apply triple_ret.
  - intros [p|e]; [|apply Hfail]. destruct (p <ᶠ f0); [apply Hfail|]. by apply triple_settle_at_price.
Qed.

Lemma triple_Settle : triple W S_ (Settle retention id) settle_post.
Proof.
  destruct settling_kept_quiet as [HK HQ]. eapply triple_bind.
  { apply (triple_get id (λ j _, spec j = s ∧ Status j = BatchImageJobStatusSettling)); [done| |].
    - intros j. apply kept_const.
    - intros d j (j0 & Hj0 & Hs & Hst) _ Hj. unfold S_ in *. by simplify_eq. }
  intros [j|e].
  - destruct (decide (spec j = s ∧ Status j = BatchImageJobStatusSettling)) as [[Hs Hst]|Hn].
    + rewrite Hst. change (String.eqb BatchImageJobStatusSettling BatchImageJobStatusCompleted) with false.
      rewrite String.eqb_refl. cbv iota. simpl negb. cbv iota. eapply triple_pre; [by apply triple_settle_job|]. by intros d [? _].
    + apply triple_absurd. intros d [_ Hd]. by apply Hn, Hd.
  - apply triple_ret. intros d [Hd _] _. by apply (settling_post (A := BatchImageSettlementResult)).
Qed.

(** What holds when a call answers that the job needs no more work. *)
Definition settled_up (b : DB) : Prop := captured s b ∨ returned s b.
Definition process_post (a : res BErr BatchImageProcessResult) (d : BatchDB) : Prop :=
  ∀ p, a = Ok p → Terminal p = true → settled_up (billing d).

Lemma triple_settle_and_report :
  triple W S_ (settle_and_report retention RetryDelay id) process_post.
Proof.
  eapply triple_bind; [apply triple_Settle|]. intros [a|e].
  { apply triple_ret. intros d Hd _ p _ _. by left. }
  destruct e; try (apply triple_ret; intros d _ _ p Hp; done). cbv iota.
  eapply triple_bind.
  { apply (triple_get id (λ j d, is_settling (Status j) ∨ returned s (billing d))).
    - apply kept_or; [apply settling_kept|apply returned_kept].
    - intros j. apply kept_or; [apply kept_const|apply returned_kept].
    - intros d j [(j0 & Hj0 & _ & Hst)|?] _ Hj; [|by right]. left.
      change (bjobs d !! id = Some j0) in Hj0. by simplify_eq. }
  intros [u|e]; apply triple_ret; intros d [_ Hd] _ p Hp Ht.
  - destruct (Hd u eq_refl) as [Hst|Hr]; [|by right]. unfold is_settling in Hst. rewrite Hst in Hp.
    cbn in Hp. injection Hp as <-. by destruct (_ <=? 0).
  - injection Hp as <-. by destruct (_ <=? 0).
Qed.

Lemma triple_release_and_stop st P :
  kept W P → quiet P → st = BatchImageJobStatusFailed ∨ st = BatchImageJobStatusCancelled →
  triple W P (release_and_stop s st) process_post.
Proof.
  intros HK HQ Hst. eapply triple_bind.
  - unfold releaseTerminalHold.
    destruct (_ && _) eqn:E; [exfalso; by destruct Hst; subst|]. by apply triple_release.
  - intros [u|e]; apply triple_ret; intros d [_ Hd] _ p Hp _; [|done]. right. apply Hd. by destruct u.
Qed.

Lemma triple_end_job st code :
  st = BatchImageJobStatusFailed ∨ st = BatchImageJobStatusCancelled →
  triple W (λ _, True) (end_job s st code) process_post.
Proof.
  intros Hst. eapply triple_bind.
  - apply triple_transition; [apply kept_const| |by intros _| |done].
    + intros [?|?]; destruct Hst; by subst.
    + unfold is_settling. destruct Hst; by subst.
  - intros [u|e]; [|by apply triple_ret].
    apply triple_release_and_stop; [apply kept_const|apply quiet_const|done].
Qed.

Lemma triple_Index r P j : kept r P → quiet P → triple r P (Index j) (λ _, P).
Proof.
  intros HK HQ. eapply triple_bind; [by apply (triple_read _ _ _ (λ _, P))|].
  intros [expected|]; [|by apply triple_ret].
  eapply triple_bind; [by apply triple_outside|]. intros [lines|]; [|by apply triple_ret].
  destruct (index_results _ _) as [[items c]|e]; [|by apply triple_ret].
  eapply (triple_bind _ _ _ _ (λ _, P)); [|intros a; by apply triple_ret].
  apply triple_quiet; [done|done|]. intros now d a d'.
  destruct (bjobs d !! _) as [j0|] eqn:Hj; [|done]. destruct (negb _); [done|].
  destruct (decide _); [|done]. intros [= <- <-]. split; [by intros k|]. intros i. simpl.
  destruct (decide (i = BatchID (spec j))) as [->|Hne];
    [by rewrite lookup_insert_eq, Hj|by rewrite lookup_insert_ne].
Qed.

(** The job of the batch has a provider job, or is known to exist. *)
Let N_ := job_is id s named.
Lemma named_kept_quiet : kept W N_ ∧ quiet N_.
Proof. split; [apply named_kept|apply quiet_job_is]. Qed.

Lemma triple_not_terminal P (a : res BErr BatchImageProcessResult) :
  (∀ p, a = Ok p → Terminal p = false) → triple W P (Ret a) process_post.
Proof. intros Ha. apply triple_ret. intros d _ _ p Hp Ht. rewrite (Ha p Hp) in Ht. done. Qed.

Lemma triple_move to code :
  to = BatchImageJobStatusRunning ∨ to = BatchImageJobStatusIndexing ∨ to = BatchImageJobStatusSettling →
  triple W N_ (TransitionBatchImageJobStatus id to code) (λ _, N_).
Proof.
  intros Hto. apply triple_transition; [apply named_kept| |done| |].
  - intros [?|?]; destruct Hto as [?|[?|?]]; by subst.
  - intros _. split; [done|]. intros d j (j0 & Hj0 & _ & Hn) _ Hj.
    change (bjobs d !! id = Some j0) in Hj0. by simplify_eq.
  - intros now d j Hd Hj. by eapply (job_is_insert _ _ _ _ _ j).
Qed.

Lemma triple_indexAndSettle j :
  spec j = s → triple W N_ (indexAndSettle j) process_post.
Proof.
  intros Hs. destruct named_kept_quiet as [HK HQ]. unfold indexAndSettle. rewrite Hs.
  eapply triple_bind; [by apply triple_Index|]. intros [c|e].
  - eapply triple_bind; [apply triple_move; auto|].
    intros [u|e]; by apply triple_not_terminal; intros p [= <-].
  - destruct e; try (by apply triple_not_terminal; intros p [= <-]);
      (eapply triple_pre; [apply triple_end_job; by left|done]).
Qed.

Lemma triple_persist j ref P :
  kept W P → quiet P → triple W P (persistProviderOutputRef j ref) (λ _, P).
Proof.
  intros HK HQ. unfold persistProviderOutputRef. destruct (_ || _); [by apply triple_ret|].
  eapply (triple_bind _ _ _ _ (λ _, P)); [by apply triple_update_quiet|].
  intros [[]|]; by apply triple_ret.
Qed.

Lemma triple_by_provider_state j st :
  spec j = s → triple W N_ (by_provider_state DefaultRequeue j st) process_post.
Proof.
  intros Hs. unfold by_provider_state. rewrite Hs.
  assert (∀ d, triple W N_ (Ret (requeue d)) process_post) as Hlater.
  { intros d. by apply triple_not_terminal; intros p [= <-]. }
  assert (∀ e, triple W N_ (Ret (Err e)) process_post) as Herr.
  { intros e. by apply triple_not_terminal; intros p Hp. }
  destruct (InternalState st); try apply Hlater;
    try (eapply triple_pre; [apply triple_end_job; auto|done]).
  - destruct (String.eqb _ _); [apply Hlater|].
    eapply triple_bind; [apply triple_move; auto|]. intros [u|e]; [apply Hlater|apply Herr].
  - destruct (String.eqb _ _); [by apply triple_indexAndSettle|].
    eapply triple_bind; [apply triple_move; auto|]. intros [u|e]; [by apply triple_indexAndSettle|apply Herr].
Qed.

(** [provider_Process] from its checks on. *)
Definition read_post (j : BatchImageJob) (d : BatchDB) : Prop :=
  ¬ is_settling (Status j) ∧ (is_done (Status j) → captured s (billing d)) ∧
  (ProviderJobName j ≠ None → job_is (BatchID s) s named d).
Lemma read_post_kept j : kept W (read_post j).
Proof.
  apply kept_and; [apply kept_const|]. apply kept_and; apply kept_impl; [apply captured_kept|apply named_kept].
Qed.

Lemma derefs j : String.eqb (batchImageDerefString (ProviderJobName j)) "" = false → ProviderJobName j ≠ None.
Proof. intros Hn Hnone. by rewrite Hnone in Hn. Qed.

Lemma terminal_cases st :
  isBatchImageProcessorDoneStatus st = true → ¬ is_settling st →
  is_done st ∨ st = BatchImageJobStatusFailed ∨ st = BatchImageJobStatusCancelled.
Proof.
  unfold isBatchImageProcessorDoneStatus, IsTerminalBatchImageJobStatus, one_of_status, is_settling, is_done.
  simpl existsb. destruct (String.eqb_spec st BatchImageJobStatusSettling); [done|].
  repeat (match goal with |- context [String.eqb st ?x] => destruct (String.eqb_spec st x); [auto|] end).
  done.
Qed.

Lemma triple_provider_Process :
  triple W (job_is id s not_settling) (provider_Process DefaultRequeue id) process_post.
Proof.
  eapply triple_bind.
  { apply (triple_get id (λ j d, spec j = s ∧ read_post j d)); [apply not_settling_kept| |].
    - intros j. apply kept_and; [apply kept_const|apply read_post_kept].
    - intros d j (j0 & Hj0 & Hs & Hst) Hc Hj. assert (j0 = j) as -> by (unfold id in *; congruence).
      split; [done|]. destruct (Hc _ _ Hj) as (_ & Hd & _). rewrite Hs in Hd.
      split_and!; [done|done|]. intros Hn. by exists j. }
  intros [j|e]; [|by apply triple_not_terminal; intros p Hp].
  destruct (decide (spec j = s)) as [Hs|Hs]; [|apply triple_absurd; intros d [_ Hd]; by apply Hs, (Hd j)].
  eapply (triple_pre _ (read_post j)); [|intros d [_ Hd] _; by apply Hd].
  rewrite Hs. pose proof (read_post_kept j) as HK.
  destruct (isBatchImageProcessorDoneStatus (Status j)) eqn:Hdone.
  { destruct (decide (is_settling (Status j))) as [Hst|Hst].
    { apply triple_absurd. intros d (Hn & _). done. }
    destruct (terminal_cases _ Hdone Hst) as [Hd|Hfc].
    - unfold release_and_stop, releaseTerminalHold.
      assert (negb (String.eqb (Status j) BatchImageJobStatusFailed)
              && negb (String.eqb (Status j) BatchImageJobStatusCancelled) = true) as ->
        by (by destruct Hd as [-> | ->]).
      apply triple_ret. intros d (_ & Hcap & _) _ p _ _. left. by apply Hcap.
    - eapply triple_pre; [apply (triple_release_and_stop _ (λ _, True)); [apply kept_const|apply quiet_const|done]|done]. }
  assert (∀ e, triple W (read_post j) (Ret (Err e)) process_post) as Herr.
  { intros e. by apply triple_not_terminal; intros p Hp. }
  eapply triple_bind; [by apply triple_outside|]. intros []; [|apply Herr]. cbn [negb].
  destruct (_ <=? 0); [apply Herr|].
  eapply triple_bind; [by apply triple_outside|]. intros []; [|apply Herr]. cbn [negb].
  eapply triple_bind; [by apply triple_outside|]. intros []; [|apply Herr]. cbn [negb].
  destruct (String.eqb (batchImageDerefString (ProviderJobName j)) "") eqn:Hname; [apply Herr|].
  eapply (triple_pre _ N_); [|intros d (_ & _ & Hn) _; by apply Hn, derefs].
  destruct named_kept_quiet as [HKN HQN].
  destruct (String.eqb (Status j) BatchImageJobStatusIndexing); [by apply triple_indexAndSettle|].
  eapply triple_bind; [by apply triple_outside|].
  intros [[st|]|]; [|by apply triple_not_terminal; intros p [= <-]..].
  eapply triple_bind; [by apply triple_persist|].
  intros [u|e]; [by apply triple_by_provider_state|by apply triple_not_terminal; intros p Hp].
Qed.
End Worker.

(** ** The worker *)

(** The worker calls [Process] until it answers that the job is at its end. *)
Fixpoint work (calls : nat) (id : string) : batch bool :=
  match calls with
  | O => Ret false
  | S n => r <-p Process retention DefaultRequeue RetryDelay id;
           match r with
           | Ok p => if Terminal p then Ret true else work n id
           | Err _ => work n id
           end
  end.

Definition acked (id : string) (d : BatchDB) : Prop :=
  ∃ s, BatchID s = id ∧ job_is id s exists_ d ∧ settled_up s (billing d).
Lemma acked_lasting id : lasting (acked id).
Proof.
  intros r d d' Hc Hs (s & Hid & Hj & Hb). exists s. split_and!; [done|by eapply lasting_exists|].
  destruct Hb as [Hb|Hb]; [left; by eapply lasting_captured|right; by eapply (lasting_returned s)].
Qed.

Lemma triple_Process id :
  triple (RWorker id) (λ _, True) (Process retention DefaultRequeue RetryDelay id)
    (λ a d, ∀ p, a = Ok p → Terminal p = true → acked id d).
Proof.
  eapply triple_bind.
  { apply (triple_get (r := RWorker id) id (λ j d, BatchID (spec j) = id ∧
      (is_settling (Status j) → job_is id (spec j) settling d) ∧
      (¬ is_settling (Status j) → job_is id (spec j) not_settling d) ∧ job_is id (spec j) exists_ d)).
    - apply kept_const.
    - intros j. repeat apply kept_and; [apply kept_const| | |apply exists_kept]; apply kept_impl;
        [apply settling_kept|apply not_settling_kept].
    - intros d j _ Hc Hj. destruct (Hc _ _ Hj) as [Hid _].
      split_and!; [done| | |]; intros; by exists j. }
  intros [j|e]; [|by apply triple_ret].
  destruct (decide (BatchID (spec j) = id)) as [Hid|Hid];
    [|apply triple_absurd; intros d [_ Hd]; by apply Hid, (Hd j)].
  assert (∀ K p, triple (RWorker id) (job_is id (spec j) K) p (process_post (spec j)) →
    triple (RWorker id) (λ d, job_is id (spec j) K d ∧ job_is id (spec j) exists_ d) p
      (λ a d, ∀ p, a = Ok p → Terminal p = true → acked id d)) as Hframe.
  { intros K p Hp. eapply triple_weaken; [apply (triple_frame _ (job_is id (spec j) exists_)); [apply lasting_exists|exact Hp]|done|].
    intros a d [Ha He] _ p' Hp' Ht. exists (spec j). split_and!; [done|done|by eapply Ha]. }
  destruct (String.eqb_spec (Status j) BatchImageJobStatusSettling) as [Hst|Hst].
  - eapply triple_pre; [apply (Hframe settling)|].
    + rewrite <-Hid. apply triple_settle_and_report.
    + intros d [_ Hd] _. destruct (Hd j eq_refl) as (_ & Hs & _ & He). auto.
  - eapply triple_pre; [apply (Hframe not_settling)|].
    + rewrite <-Hid. apply triple_provider_Process.
    + intros d [_ Hd] _. destruct (Hd j eq_refl) as (_ & _ & Hs & He). auto.
Qed.

Lemma triple_work n id : triple (RWorker id) (λ _, True) (work n id) (λ a d, a = true → acked id d).
Proof.
  induction n as [|n IH]; [by apply triple_ret|].
  eapply triple_bind; [apply triple_Process|]. intros [p|e].
  - destruct (Terminal p) eqn:Ht; [apply triple_ret; eauto|]. by eapply triple_pre.
  - by eapply triple_pre.
Qed.

(** ** Submission, cancellation, recovery and cleanup *)

Abbreviation any := (λ _ : BatchDB, True).
Abbreviation nothing := (λ _ (_ : BatchDB), True).
Lemma any_kept r : kept r any. Proof. by apply kept_const. Qed.
Lemma any_quiet : quiet any. Proof. by apply quiet_const. Qed.
Hint Resolve any_kept any_quiet : core.

(** An update of one row that may change its status. *)
Lemma triple_update_row r (P : BatchDB → Prop) id g f :
  kept r P →
  (∀ now d j, P d → consistent d → bjobs d !! id = Some j → g j = true →
     row_step r (billing d) j (f now j) ∧ P (set_jobs <[id := f now j]> d)) →
  triple r P (update_job id g f) (λ _, P).
Proof.
  intros HP Hf. apply triple_write; [|done]. intros now d HPd Hc. split; [done|].
  destruct (bjobs d !! id) as [j|] eqn:Hj; [|split_and!; [apply step_refl|done..]].
  destruct (g j) eqn:Hg; [|split_and!; [apply step_refl|done..]].
  destruct (Hf now d j HPd Hc Hj Hg). split_and!; [by eapply step_row|done|done].
Qed.

Lemma triple_release_any r s : triple r any (release_hold s) nothing.
Proof. eapply triple_weaken; [apply (triple_release r any)|done|done]; done. Qed.
Lemma triple_get_any r id : triple r any (GetBatchImageJobByBatchID id) nothing.
Proof. eapply triple_weaken; [apply (triple_get (r := r) (P := any) id (λ _, any))|done|done]; done. Qed.

Section Submitter.
Context (s : JobSpec) (userID apiKeyID : Z).
Let id := BatchID s.
Let U := RSubmit id.
Let P_ := job_is id s unnamed.

Lemma unnamed_kept_quiet : kept U P_ ∧ quiet P_.
Proof. split; [apply unnamed_kept|apply quiet_job_is]. Qed.

(** A job that has no provider job is not settling. *)
Lemma triple_record_failure code :
  triple U P_ (RecordBatchImageJobSubmitFailure id code true) (λ _, P_).
Proof.
  destruct unnamed_kept_quiet as [HK HQ]. apply triple_update_row; [done|].
  intros now d j HPd Hc Hj _. assert (ProviderJobName j = None) as Hn.
  { destruct HPd as (j0 & Hj0 & _ & Hn). unfold id in *. by simplify_eq. }
  split; [|by eapply job_is_insert].
  destruct (Hc _ _ Hj) as (_ & _ & Hst). unfold row_step, failed_with. simpl.
  split_and!; [done|intros [?|?]; done|by intros ?|by intros ?%Hst|by left].
Qed.

Lemma triple_fail_submit j code :
  BatchID (spec j) = id → triple U P_ (fail_submit userID apiKeyID j code) (λ _, P_).
Proof.
  intros Hid. destruct unnamed_kept_quiet as [HK HQ]. unfold fail_submit, hidePreUpstreamSubmitFailure.
  rewrite Hid. eapply triple_bind; [apply triple_record_failure|]. intros ?.
  destruct (ProviderJobName j); [by apply triple_ret|].
  eapply triple_bind; [by apply triple_now|]. intros now.
  eapply (triple_bind _ _ _ _ (λ _, P_)); [by apply triple_update_quiet|]. intros ?. by apply triple_ret.
Qed.

Lemma triple_undo {A : Type} j h rec e :
  BatchID (spec j) = id → triple U P_ rec (λ _, P_) →
  triple U P_ (undo_submit (A := A) userID apiKeyID j h rec e) nothing.
Proof.
  intros Hid Hrec. destruct unnamed_kept_quiet as [HK HQ]. unfold undo_submit, releaseFailedSubmitHold.
  rewrite Hid. eapply (triple_bind _ _ _ _ (λ _, P_)).
  - eapply triple_bind; [by apply triple_release|]. intros [u|e'].
    + apply triple_ret. by intros d [? _].
    + eapply (triple_bind _ _ _ _ (λ _, P_)); [|intros a; by apply triple_ret].
      eapply triple_pre; [apply triple_record_failure|]. by intros d [? _].
  - intros [u|e']; [|by apply triple_ret]. eapply triple_bind; [done|]. intros ?. by apply triple_ret.
Qed.

Lemma triple_heartbeat n : triple U P_ (runSubmitHeartbeat n id) (λ _, P_).
Proof.
  destruct unnamed_kept_quiet as [HK HQ].
  induction n as [|n IH]; [by apply triple_ret|]. eapply triple_bind; [by apply triple_update_quiet|]. done.
Qed.

Lemma triple_enqueue r i : triple r any (enqueue_submitted i) nothing.
Proof.
  eapply triple_bind; [by apply triple_outside|]. intros []; [by apply triple_ret|].
  eapply (triple_bind _ _ _ _ nothing); [by apply triple_update_quiet|]. intros ?. by apply triple_ret.
Qed.

Lemma cannot_resubmit_settling :
  CanTransitionBatchImageJob BatchImageJobStatusSettling BatchImageJobStatusSubmitted = false.
Proof. done. Qed.

Lemma triple_provider_submit p : triple U any (UpdateBatchImageJobProviderSubmit id p) nothing.
Proof.
  apply triple_write; [|done]. intros now d _ Hc. split; [done|].
  destruct (bjobs d !! id) as [j|] eqn:Hj; [|done].
  destruct (negb _) eqn:Hcan; [done|]. split_and!; [|done|done]. eapply step_row; [done|].
  destruct (Hc _ _ Hj) as (Hid & _). unfold row_step. rewrite Hid. simpl.
  split_and!; [done|by intros [?|?]|by intros ?| |by right].
  intros Hst. unfold is_settling in Hst. by rewrite Hst, cannot_resubmit_settling in Hcan.
Qed.

Lemma triple_submit_to_provider j h n :
  BatchID (spec j) = id → triple U P_ (submit_to_provider userID apiKeyID j h n) nothing.
Proof.
  intros Hid. destruct unnamed_kept_quiet as [HK HQ]. unfold submit_to_provider. rewrite Hid.
  eapply triple_bind; [apply triple_heartbeat|]. intros ?.
  eapply triple_bind; [by apply triple_outside|].
  intros [p|reason]; [|by apply triple_undo; [|apply triple_fail_submit]].
  destruct (String.eqb _ _); [by apply triple_undo; [|apply triple_fail_submit]|].
  eapply (triple_pre _ any); [|done].
  eapply triple_bind; [apply triple_provider_submit|]. intros [u|e]; [|by apply triple_ret].
  eapply triple_bind; [apply triple_enqueue|]. intros [v|e]; [|by apply triple_ret]. apply triple_get_any.
Qed.

Lemma triple_create :
  triple U any (CreateBatchImageJob s) (λ a d, ∀ j, a = Ok j → spec j = s ∧ P_ d).
Proof.
  unfold CreateBatchImageJob. destruct (negb _); [by apply triple_ret|].
  apply triple_write.
  - intros now d _ Hc. split; [done|]. destruct (bjobs d !! BatchID s) as [j|] eqn:Hj; [done|].
    split_and!; [|intros j [= <-]; split; [done|]|done].
    + split_and!; [by intros k| |]; simpl.
      * intros i j Hi. exists j. split; [|apply row_step_refl].
        rewrite lookup_insert_ne; [done|congruence].
      * intros i j' Hi Hn. destruct (decide (i = BatchID s)) as [->|Hne].
        { rewrite lookup_insert_eq in Hi. injection Hi as <-.
          split_and!; [done|by intros [?|?]|done]. }
        rewrite lookup_insert_ne in Hi by done. congruence.
    + exists (new_job s (next_job d) now). split; [by simpl; rewrite lookup_insert_eq|done].
  - intros b d d' r' Hc Hr Hs Hb j Hj. destruct (Hb j Hj) as [? HP]. split; [done|].
    by eapply unnamed_kept.
Qed.

Lemma triple_bulk_create r P i l : kept r P → quiet P → triple r P (BulkCreateBatchImageItems i l) (λ _, P).
Proof.
  intros HK HQ. apply triple_quiet; [done|done|]. intros now d a d'.
  cbv beta zeta. case_decide; [|done]. intros [= _ <-]. split; [by intros k|done].
Qed.

Lemma triple_submit_job h ids n : triple U any (submit_job userID apiKeyID s h ids n) nothing.
Proof.
  destruct unnamed_kept_quiet as [HK HQ]. eapply triple_bind; [apply triple_create|].
  intros [j|e]; [|by apply triple_ret].
  destruct (decide (spec j = s)) as [Hs|Hs]; [|apply triple_absurd; intros d Hd; by apply Hs, (Hd j)].
  assert (BatchID (spec j) = id) as Hid by (by rewrite Hs).
  eapply (triple_pre _ P_); [|intros d Hd _; by apply (Hd j)].
  eapply triple_bind; [by apply triple_reserve|]. intros [u|e].
  2:{ eapply triple_bind; [by apply triple_fail_submit|]. intros ?. by apply triple_ret. }
  eapply triple_bind; [by apply triple_bulk_create|].
  intros [v|e]; [|by apply triple_undo; [|apply triple_fail_submit]].
  eapply triple_bind.
  { apply triple_transition; [done|by intros [?|?]|done|done|].
    intros now d j0 HPd Hj. by eapply (job_is_insert _ _ _ _ _ j0). }
  intros [w|e]; [by apply triple_submit_to_provider|].
  destruct e; apply triple_undo; try done; try (by apply triple_fail_submit). by apply triple_ret.
Qed.

Lemma triple_Submit h ids key n : triple U any (Submit userID apiKeyID s h ids key n) nothing.
Proof.
  unfold Submit. destruct (String.eqb _ _); [apply triple_submit_job|].
  eapply (triple_bind _ _ _ _ nothing).
  { eapply (triple_bind _ _ _ _ nothing); [by apply triple_read|]. intros a. by apply triple_ret. }
  intros [j|e].
  - destruct (negb _); [by apply triple_ret|]. destruct (String.eqb _ _); [|by apply triple_ret].
    eapply triple_bind; [apply triple_enqueue|]. intros a. by apply triple_ret.
  - destruct e; try (by apply triple_ret). apply triple_submit_job.
Qed.
End Submitter.

Section Others.
Context (r : role).

Lemma triple_get_owned u k i : triple r any (GetBatchImageJobByBatchIDForOwner u k i) nothing.
Proof.
  eapply (triple_bind _ _ _ _ nothing); [by apply triple_read|]. intros a. by apply triple_ret.
Qed.

Lemma triple_cancel_status i :
  triple r any (TransitionBatchImageJobStatus i BatchImageJobStatusCancelled None) nothing.
Proof. by apply triple_transition; [|intros [?|?]|..]. Qed.

Lemma triple_Cancel u k i : triple r any (Cancel u k i) nothing.
Proof.
  eapply triple_bind; [apply triple_get_owned|]. intros [j|e]; [|by apply triple_ret].
  destruct (isBatchImageProcessorDoneStatus _).
  { unfold releaseTerminalHold. eapply (triple_bind _ _ _ _ nothing); [|intros a; by apply triple_ret].
    destruct (_ && _); [by apply triple_ret|apply triple_release_any]. }
  destruct (negb _).
  - eapply triple_bind; [by apply triple_outside|]. intros b1. destruct (negb b1); [by apply triple_ret|].
    destruct (job_AccountID _); [|by apply triple_ret].
    eapply triple_bind; [by apply triple_outside|]. intros b2. destruct (negb b2); [by apply triple_ret|].
    eapply triple_bind; [by apply triple_outside|]. intros b3. destruct (negb b3); [by apply triple_ret|].
    apply triple_get_owned.
  - eapply triple_bind; [apply triple_cancel_status|]. intros [v|e]; [|by apply triple_ret].
    eapply triple_bind; [apply triple_release_any|]. intros [w|e]; [|by apply triple_ret].
    apply triple_get_owned.
Qed.

Lemma submitting_not_settling j : submitting j = true → ¬ is_settling (Status j).
Proof. unfold submitting, is_settling. intros Hs Hst. by rewrite Hst in Hs. Qed.

Lemma triple_fail_stale i cutoff code : triple r any (FailStaleUnsubmittedBatchImageJob i cutoff code) nothing.
Proof.
  eapply (triple_bind _ _ _ _ nothing).
  - apply triple_update_row; [done|]. intros now d j _ Hc Hj Hg. split; [|done].
    unfold stale_unsubmitted in Hg. apply andb_prop in Hg as [[Hg _]%andb_prop _].
    pose proof (submitting_not_settling j Hg) as Hn. unfold row_step, failed_with. simpl.
    split_and!; [done|by intros [?|?]|by intros ?|done|by left].
  - intros [[]|e]; try (by apply triple_ret).
    eapply triple_bind; [by apply triple_outside|]. intros b. by apply triple_ret.
Qed.

Lemma triple_recover cutoff jobs n b : triple r any (recover_jobs cutoff jobs n b) nothing.
Proof.
  revert n b. induction jobs as [|j jobs IH]; intros n b; [by apply triple_ret|].
  eapply triple_bind; [apply triple_fail_stale|]. intros [applied err].
  destruct (negb applied); [apply IH|].
  eapply triple_bind; [apply triple_release_any|]. intros [u|e]; apply IH.
Qed.

Lemma triple_Release a l : triple r any (ReleaseStaleUnsubmittedOnce a l) nothing.
Proof.
  eapply triple_bind; [by apply triple_now|]. intros t.
  eapply (triple_bind _ _ _ _ nothing); [by apply triple_read|].
  intros [jobs|]; [apply triple_recover|by apply triple_ret].
Qed.

Lemma triple_marked i f (g : res BErr bool → res BErr unit) :
  (∀ now d j, consistent d → bjobs d !! i = Some j → row_step r (billing d) j (f now j)) →
  triple r any (x <-p update_job i (λ _, true) f; Ret (g x)) nothing.
Proof.
  intros Hf. eapply (triple_bind _ _ _ _ nothing); [|intros a; by apply triple_ret].
  apply triple_update_row; [done|]. intros now d j _ Hc Hj _. split; [by apply Hf|done].
Qed.

Lemma output_deleted_step t b j :
  row_step r b j
    (let done := String.eqb (Status j) BatchImageJobStatusCompleted in
     Build_BatchImageJob (spec j) (if done then BatchImageJobStatusOutputDeleted else Status j)
       (ProviderJobName j) (ProviderOutputRef j) (SuccessCount j) (FailCount j) (ActualCost j)
       (ManifestHash j) (RetryCount j) (LastErrorCode j) t
       (if done then first_time (FinishedAt j) t else FinishedAt j)
       (SettledAt j) (OutputExpiresAt j) (first_time (OutputDeletedAt j) t) (InputDeletedAt j)
       (UserDeletedAt j) (JobID j)).
Proof.
  unfold row_step. cbv zeta. simpl.
  destruct (String.eqb_spec (Status j) BatchImageJobStatusCompleted) as [Hst|Hst]; [|tauto].
  split_and!; [done| |by intros ?| |by left].
  - intros _. left. by left.
  - intros Hs. unfold is_settling in Hs. by rewrite Hs in Hst.
Qed.

Lemma triple_cleanup_files j target : triple r any (cleanup_files j target) nothing.
Proof.
  eapply (triple_bind _ _ _ _ nothing).
  - eapply triple_bind; [by apply triple_outside|]. intros b. destruct (negb b); [by apply triple_ret|].
    destruct (_ <=? 0); [by apply triple_ret|].
    eapply triple_bind; [by apply triple_outside|]. intros [e|]; [by apply triple_ret|].
    by apply triple_outside.
  - intros [reason|].
    + eapply (triple_bind _ _ _ _ nothing); [by apply triple_update_quiet|]. intros a. by apply triple_ret.
    + eapply triple_bind; [by apply triple_now|]. intros t. destruct target; apply triple_marked.
      * intros now d j0 _ _. by apply row_view_step.
      * intros now d j0 _ _. apply output_deleted_step.
Qed.
Lemma triple_cleanupJob j target : triple r any (cleanupJob j target) nothing.
Proof.
  unfold cleanupJob. destruct target.
  - destruct (InputDeletedAt j); [by apply triple_ret|].
    destruct (negb _); [by apply triple_ret|apply triple_cleanup_files].
  - destruct (_ || _); [by apply triple_ret|].
    destruct (negb _); [by apply triple_ret|apply triple_cleanup_files].
Qed.

Lemma triple_CleanupInput i : triple r any (CleanupInput i) nothing.
Proof.
  eapply triple_bind; [apply triple_get_any|]. intros [j|e]; [apply triple_cleanupJob|by apply triple_ret].
Qed.
Lemma triple_CleanupOutput i : triple r any (CleanupOutput i) nothing.
Proof.
  eapply triple_bind; [apply triple_get_any|]. intros [j|e]; [apply triple_cleanupJob|by apply triple_ret].
Qed.
Lemma triple_DeleteOutputs u k i : triple r any (DeleteOutputsForOwner u k i) nothing.
Proof.
  eapply triple_bind; [apply triple_get_owned|]. intros [j|e]; [|by apply triple_ret].
  destruct (_ || _); [by apply triple_ret|]. destruct (negb _); [by apply triple_ret|].
  eapply triple_bind; [apply triple_cleanupJob|]. intros [v|e]; [apply triple_get_owned|by apply triple_ret].
Qed.

(** Any other operation on the billing tables. *)
Definition billing_op (o : op) : batch unit := act (λ _ d, ((), set_billing (run_op o (billing d)) d)).
Lemma triple_billing o : triple r any (billing_op o) nothing.
Proof.
  apply triple_act; [|done]. intros o' d _ _. split; [|done]. apply step_jobs_same; [done|].
  intros k. apply run_op_claimed.
Qed.
End Others.

(** ** All together *)

Inductive request :=
| Worker (id : string) (calls : nat)
| Submitting (s : JobSpec) (userID apiKeyID : Z) (requestHash : string) (customIDs : list string)
    (idempotencyKey : string) (ticks : nat)
| Cancelling (userID apiKeyID : Z) (id : string)
| Recovering (staleAfter : duration) (limit : Z)
| CleaningInput (id : string)
| CleaningOutput (id : string)
| DeletingOutputs (userID apiKeyID : Z) (id : string)
| Billing (o : op).

Definition role_of (q : request) : role :=
  match q with
  | Worker id _ => RWorker id
  | Submitting s _ _ _ _ _ _ => RSubmit (BatchID s)
  | _ => ROther
  end.

(** A request as a process, whose answer says whether a worker is done with its
    batch. *)
Definition quietly {A} (p : batch A) : batch bool := _ <-p p; Ret false.
Definition serve (q : request) : batch bool :=
  match q with
  | Worker id n => work n id
  | Submitting s u k h ids key n => quietly (Submit u k s h ids key n)
  | Cancelling u k id => quietly (Cancel u k id)
  | Recovering a l => quietly (ReleaseStaleUnsubmittedOnce a l)
  | CleaningInput id => quietly (CleanupInput id)
  | CleaningOutput id => quietly (CleanupOutput id)
  | DeletingOutputs u k id => quietly (DeleteOutputsForOwner u k id)
  | Billing o => quietly (billing_op o)
  end.

(** What is promised when the process of [q] ends with [acknowledged]. *)
Definition served (q : request) (acknowledged : bool) (d : BatchDB) : Prop :=
  acknowledged = true → match q with Worker id _ => acked id d | _ => False end.

Lemma triple_quietly {A} r (p : batch A) q :
  triple r any p nothing → triple r any (quietly p) (served q).
Proof. intros Hp. eapply triple_bind; [exact Hp|]. intros a. apply triple_ret. by intros d _ _. Qed.

Lemma triple_serve q : triple (role_of q) any (serve q) (served q).
Proof.
  destruct q; simpl role_of; unfold serve; try apply triple_quietly.
  - apply triple_work.
  - apply triple_Submit.
  - apply triple_Cancel.
  - apply triple_Release.
  - apply triple_CleanupInput.
  - apply triple_CleanupOutput.
  - apply triple_DeleteOutputs.
  - apply triple_billing.
Qed.

(** A batch has one worker at a time, which its lock sees to, and its id, which
    is random, is submitted once. *)
Definition separate (reqs : list request) : Prop :=
  ∀ i j q q', reqs !! i = Some q → reqs !! j = Some q' → i ≠ j → role_of q = role_of q' →
    role_of q = ROther.

Lemma run_requests reqs d0 sched d ps :
  consistent d0 → separate reqs → run sched (d0, serve <$> reqs) = (d, ps) →
  consistent d ∧ ∀ i q a, reqs !! i = Some q → ps !! i = Some (Ret a) → served q a d.
Proof.
  intros Hc0 Hsep Hrun.
  set (role_at := λ i, from_option role_of ROther (reqs !! i)).
  set (Q := λ i a (w : BatchDB * unit), (∀ q, reqs !! i = Some q → served q a (fst w))
                                         ∧ consistent (fst w)).
  destruct (grun_safe (λ _, True) (λ i, others (role_at i)) (λ i, own (role_at i)) Q sched d0 tt
              (serve <$> reqs) d ps) as (γ & Hsteps & Hend); [| | |done|].
  - intros i j w w' Hij [Hc Hs]. split; [done|]. exists (role_at i). split; [|done].
    destruct (decide (role_at i = role_at j)) as [Heq|]; [right|by left].
    unfold role_at in *. destruct (reqs !! i) as [q|] eqn:Hi; [|done].
    destruct (reqs !! j) as [q'|] eqn:Hj; [|done]. by eapply (Hsep i j).
  - by apply Forall_true.
  - intros i p. rewrite list_lookup_fmap. destruct (reqs !! i) as [q|] eqn:Hi; [|done].
    intros [= <-]. exists (λ w, any (fst w) ∧ consistent (fst w)).
    split; [apply (kept_gstable _ any), any_kept|]. split; [done|]. unfold role_at, Q. rewrite Hi. simpl.
    eapply gsafe_weaken; [apply (triple_serve q)|done|].
    intros a w [Ha Hc]. split; [|done]. by intros q' [= <-].
  - split.
    + change (consistent (fst (d, γ))). revert Hc0. change d0 with (fst (d0, tt)). revert Hsteps.
      generalize (d0, tt) (d, γ). clear. intros w w' Hsteps.
      induction Hsteps as [w|w1 w2 w3 [i [_ Hs]] _ IH]; [done|]. intros Hc. by eapply IH, step_consistent.
    + intros i q a Hi Ha. by apply (proc_ok_result _ _ _ _ _ _ _ (Hend _ _ Ha)).
Qed.

(** C6: As long as a batch has one worker at a time (its lock sees to that until it
    lapses) and a batch id, which is random, is submitted once: in any run of
    workers, submissions, cancellations, recoveries, cleanups and other billing
    operations, whatever the interleaving, whatever statements and transactions
    fail or lose their answer and whatever processes stop, a job is completed, or
    its outputs deleted afterwards, only once the capture of its hold is committed;
    and when the worker of a batch is told that the job needs no more work, which
    takes the job off the queue, the capture of the hold or its release is
    committed under the request id of the batch, or there was nothing to hold.
    A release that is committed before the hold is reserved counts as one, though
    it gave nothing back ([cancel_before_reserve]); and a second worker, after the
    lock has lapsed, can be told so while the first is still settling
    ([lock_lapsed]). *)
Theorem batch_settled_before_acked reqs d0 sched d ps :
  consistent d0 → separate reqs → run sched (d0, serve <$> reqs) = (d, ps) →
  (∀ id j, bjobs d !! id = Some j → is_done (Status j) → captured (spec j) (billing d)) ∧
  (∀ i id n, reqs !! i = Some (Worker id n) → ps !! i = Some (Ret true) → acked id d).
Proof.
  intros Hc0 Hsep Hrun. destruct (run_requests _ _ _ _ _ Hc0 Hsep Hrun) as [Hc Hserved]. split.
  - intros id j Hj. by apply (Hc _ _ Hj).
  - intros i id n Hi Ha. by apply (Hserved _ _ _ Hi Ha).
Qed.

(** ** Settlement ends *)

Definition responsive (o : BOracle) : Prop := b_fate o = Fine.
Abbreviation concludes := (ends responsive).

Lemma concludes_read {A B} n (f : BatchDB → B) (k : option B → batch A) d Q :
  concludes n (k (Some (f d))) d Q → concludes (S n) (proc_bind (bread f) k) d Q.
Proof. intros Hk o Ho. unfold responsive in Ho. simpl. by rewrite Ho. Qed.
Lemma concludes_ask {A B} n (f : BOracle → B) (k : B → batch A) d Q :
  (∀ b, concludes n (k b) d Q) → concludes (S n) (proc_bind (ask f) k) d Q.
Proof. intros Hk o Ho. apply Hk. Qed.
Lemma concludes_write {A B} n (f : time → BatchDB → res BErr (B * BatchDB)) (k : res BErr B → batch A) d Q :
  (∀ now, match f now d with
          | Ok (a, d') => concludes n (k (Ok a)) d' Q
          | Err e => concludes n (k (Err e)) d Q
          end) → concludes (S n) (proc_bind (bwrite f) k) d Q.
Proof.
  intros Hk o Ho. unfold responsive in Ho. simpl. rewrite Ho. specialize (Hk (b_now o)).
  by destruct (f (b_now o) d) as [[a d']|e].
Qed.
Lemma concludes_bill {A B} n (f : Faults → DB → DB * res UBError B) (k : res UBError B → batch A) d Q :
  (∀ r b, concludes n (k r) (set_billing b d) Q) → concludes (S n) (proc_bind (bill f) k) d Q.
Proof. intros Hk o Ho. simpl. destruct (f _ _) as [b r]. apply Hk. Qed.
Lemma concludes_ret {A} n (a : A) d (Q : A → BatchDB → Prop) : Q a d → concludes n (Ret a) d Q.
Proof. by destruct n. Qed.

Section Settling.
Context (s : JobSpec).
Let id := BatchID s.

Definition settling_at (k : Z) (code : option string) (d : BatchDB) : Prop :=
  ∃ j, bjobs d !! BatchID s = Some j ∧ spec j = s ∧ is_settling (Status j) ∧ RetryCount j = k ∧
       ManifestHash j = None ∧ LastErrorCode j = code.
Definition ended (d : BatchDB) : Prop :=
  ∃ j, bjobs d !! BatchID s = Some j ∧ IsTerminalBatchImageJobStatus (Status j) = true.
(** The release of the hold was refused. *)
Definition refused (d : BatchDB) : Prop :=
  ∃ k, 5 ≤ k ∧ settling_at k (Some "SETTLEMENT_RELEASE_FAILED") d.

Lemma settling_at_billing k c b d : settling_at k c d → settling_at k c (set_billing b d).
Proof. done. Qed.

Lemma set_failed_ends {A} n k c code d (q : res BErr Z → batch A) Q :
  settling_at k c d →
  (∀ d', settling_at (k + 1) (Some code) d' → concludes n (q (Ok (k + 1))) d' Q) →
  concludes (S n) (proc_bind (SetBatchImageJobSettlementFailed (BatchID s) code) q) d Q.
Proof.
  intros (j & Hj & Hs & Hst & Hk & Hm & Hc) Hq. apply concludes_write. intros now. rewrite Hj, Hk.
  apply Hq. exists (retried code now j). unfold retried. simpl. rewrite lookup_insert_eq, Hk.
  by split_and!.
Qed.

Definition exhausted_post (e : BErr) (d : BatchDB) : Prop :=
  e = EBatchImageSettlementBillingFailed ∧ ended d ∨ refused d.

Lemma exhausted_ends k c d :
  5 ≤ k → settling_at k c d → concludes 3 (failExhaustedSettlement s) d exhausted_post.
Proof.
  intros Hk Hd. apply (ends_bind _ 1 2 _ _ _ (λ a d', settling_at k c d')).
  - unfold release_hold, releaseBatchImageBalanceHold.
    destruct (buildBatchImageHoldCommand _ _ _ _) as [cmd|e]; [|done]. destruct (_ ≤ᶠ _); [done|].
    apply concludes_bill. intros r b. by apply concludes_ret.
  - intros [u|e] d' Hd'.
    + destruct Hd' as (j & Hj & Hs & Hst & _). apply concludes_write. intros now. rewrite Hj.
      unfold is_settling in Hst. rewrite Hst.
      change (CanTransitionBatchImageJob BatchImageJobStatusSettling BatchImageJobStatusFailed) with true.
      cbv iota. apply concludes_ret. left. split; [done|]. eexists. simpl. by rewrite lookup_insert_eq.
    + eapply set_failed_ends; [done|]. intros d2 Hd2. apply concludes_ret. right. exists (k + 1).
      split; [lia|done].
Qed.

(** Where a call of [Settle] on a settling job leaves it. *)
Definition settle_out {A : Type} (k : Z) (a : res BErr A) (d : BatchDB) : Prop :=
  match a with
  | Ok _ => ended d
  | Err e => exhausted_post e d ∨ k + 1 < 5 ∧ ∃ c, settling_at (k + 1) c d
  end.

Lemma fail_ends {A : Type} k c d code e :
  settling_at k c d → concludes 4 (fail_settlement (A := A) s code e) d (settle_out k).
Proof.
  intros Hd. apply (ends_bind _ 4 0 _ _ _ (λ o d', match o with
    | Some e => exhausted_post e d' | None => k + 1 < 5 ∧ ∃ c, settling_at (k + 1) c d' end)).
  - eapply set_failed_ends; [done|]. intros d' Hd'.
    destruct (Z.leb_spec batchImageSettlementMaxRetries (k + 1)) as [Hk|Hk].
    + eapply (ends_bind _ 3 0); [by eapply exhausted_ends|].
      intros e' d2 He. by apply (concludes_ret _ (Some e')).
    + apply concludes_ret. split; [done|]. eauto.
  - intros [e'|] d' Hd'; apply concludes_ret; [by left|by right].
Qed.

Lemma settle_at_price_ends k c d j p :
  spec j = s → settling_at k c d → concludes 6 (settle_at_price retention j p) d (settle_out k).
Proof.
  intros Hs Hd. unfold settle_at_price. rewrite Hs. cbv zeta.
  destruct (_ <ᶠ _); [eapply ends_le; [by eapply fail_ends|lia]|].
  apply (ends_bind _ 1 5 _ _ _ (λ _ d', settling_at k c d')).
  - unfold captureBatchImageBalanceHold.
    destruct (buildBatchImageHoldCommand _ _ _ _) as [cmd|e]; [|done].
    apply concludes_bill. intros r b. by apply concludes_ret.
  - intros [u|e] d' Hd'; [|eapply ends_le; [by eapply fail_ends|lia]].
    apply concludes_ask. intros now. cbv beta. apply (ends_le _ 1); [|lia].
    destruct Hd' as (j0 & Hj0 & Hs0 & Hst & _ & Hm & _).
    apply concludes_write. intros t. rewrite Hj0, Hm. unfold is_settling in Hst. rewrite Hst, String.eqb_refl.
    cbn [negb]. cbv iota. apply concludes_ret. eexists. simpl. by rewrite lookup_insert_eq.
Qed.

Lemma settle_job_ends k c d j :
  0 < default 0 (job_APIKeyID s) → 0 < default 0 (job_AccountID s) →
  bjobs d !! BatchID s = Some j → settling_at k c d →
  concludes 7 (settle_job retention j) d (settle_out k).
Proof.
  intros Hkey Hacc Hj Hd. destruct Hd as (j0 & Hj0 & Hs & Hst & Hk & Hm & Hc).
  assert (j0 = j) as -> by congruence.
  assert (settling_at k c d) as Hd by (by exists j).
  assert (∀ code e, concludes 7 (fail_settlement (A := BatchImageSettlementResult) s code e) d (settle_out k)) as Hfail.
  { intros code e. eapply ends_le; [by eapply fail_ends|lia]. }
  unfold settle_job. rewrite Hs. cbv zeta.
  rewrite (proj2 (Z.leb_gt _ _) Hkey), (proj2 (Z.leb_gt _ _) Hacc).
  destruct (isBatchImageSettlementRetryExhausted j) eqn:Hex.
  { apply (ends_le _ 3); [|lia]. eapply (ends_bind _ 3 0).
    - eapply (exhausted_ends k); [|done]. unfold isBatchImageSettlementRetryExhausted in Hex.
      apply andb_prop in Hex as [[_ Hr%Z.leb_le]%andb_prop _].
      change batchImageSettlementMaxRetries with 5 in Hr. lia.
    - intros e d' He. apply concludes_ret. by left. }
  destruct (invalid_counts j); [apply Hfail|]. destruct (_ && _); [apply Hfail|].
  apply (ends_bind _ 1 6 _ _ _ (λ _ d', settling_at k c d')).
  - unfold settlementUnitPrice. destruct (1 <=? _); [done|].
    apply concludes_ask. intros b. by apply concludes_ret.
  - intros [p|e] d' Hd'; [|eapply ends_le; [by eapply fail_ends|lia]].
    destruct (p <ᶠ f0); [eapply ends_le; [by eapply fail_ends|lia]|].
    by eapply settle_at_price_ends.
Qed.

(** One call of [Process] on a settling job. *)
Definition process_out (k : Z) (a : res BErr BatchImageProcessResult) (d : BatchDB) : Prop :=
  a = terminal ∧ ended d ∨
  (∀ p, a = Ok p → Terminal p = false) ∧ (refused d ∨ k + 1 < 5 ∧ ∃ c, settling_at (k + 1) c d).

Lemma get_ends {A} n i d (q : res BErr BatchImageJob → batch A) Q j :
  bjobs d !! i = Some j → concludes n (q (Ok j)) d Q →
  concludes (S n) (proc_bind (GetBatchImageJobByBatchID i) q) d Q.
Proof.
  intros Hj Hq. apply (ends_bind _ 1 n _ _ _ (λ a d', a = Ok j ∧ d' = d)).
  - apply concludes_read. rewrite Hj. by apply concludes_ret.
  - by intros a d' [-> ->].
Qed.

Lemma Process_ends k c d :
  0 < default 0 (job_APIKeyID s) → 0 < default 0 (job_AccountID s) → settling_at k c d →
  concludes 10 (Process retention DefaultRequeue RetryDelay (BatchID s)) d (process_out k).
Proof.
  intros Hkey Hacc Hd. pose proof Hd as (j & Hj & Hs & Hst & _).
  eapply get_ends; [done|]. unfold is_settling in Hst. rewrite Hst, String.eqb_refl.
  apply (ends_bind _ 8 1 _ _ _ (settle_out k)).
  - eapply get_ends; [done|]. rewrite Hst, String.eqb_refl.
    change (String.eqb BatchImageJobStatusSettling BatchImageJobStatusCompleted) with false.
    cbn [negb]. cbv iota. by eapply settle_job_ends.
  - intros [a|e] d' Hd'; [by apply concludes_ret; left|].
    assert (e ≠ EBatchImageSettlementBillingFailed →
      concludes 1 (Ret (Err e : res BErr BatchImageProcessResult)) d' (process_out k)) as Hother.
    { intros Hne. apply concludes_ret. right. split; [done|]. destruct Hd' as [[[? _]|?]|?]; auto; done. }
    destruct e; try (by apply Hother).
    assert (∃ j', bjobs d' !! BatchID s = Some j' ∧
      (IsTerminalBatchImageJobStatus (Status j') = true ∨
       refused d' ∨ k + 1 < 5 ∧ ∃ c, settling_at (k + 1) c d')) as (j' & Hj' & Hcase).
    { destruct Hd' as [[[_ (j' & Hj' & Ht)]|Hr]|Hr].
      - eauto.
      - pose proof Hr as (k' & _ & j' & Hj' & _). eauto.
      - pose proof Hr as (_ & c' & j' & Hj' & _). eauto. }
    eapply get_ends; [done|]. apply concludes_ret.
    destruct (IsTerminalBatchImageJobStatus (Status j')) eqn:Ht; [by left; split; [|exists j']|]. right.
    split; [by intros p [= <-]|]. by destruct Hcase.
Qed.

Lemma refused_work n d :
  0 < default 0 (job_APIKeyID s) → 0 < default 0 (job_AccountID s) → refused d →
  concludes (n * 10) (work n (BatchID s)) d (λ b d', b = true ∧ ended d' ∨ refused d').
Proof.
  intros Hkey Hacc. revert d. induction n as [|n IH]; intros d Hd; [by right|].
  destruct Hd as (k & Hk & Hd). eapply (ends_bind _ 10 (n * 10)); [by eapply Process_ends|].
  intros a d' [[-> He]|[Ht [Hr|[? _]]]]; [apply concludes_ret; by left| |lia].
  destruct a as [p|e]; [rewrite (Ht p eq_refl)|]; by apply IH.
Qed.

Lemma settling_work n k c d :
  0 < default 0 (job_APIKeyID s) → 0 < default 0 (job_AccountID s) → settling_at k c d →
  5 - k ≤ Z.of_nat n → (0 < n)%nat →
  concludes (n * 10) (work n (BatchID s)) d (λ b d', b = true ∧ ended d' ∨ refused d').
Proof.
  intros Hkey Hacc. revert k c d. induction n as [|n IH]; intros k c d Hd Hk Hn; [lia|].
  eapply (ends_bind _ 10 (n * 10)); [by eapply Process_ends|].
  intros a d' [[-> He]|[Ht Hd']]; [apply concludes_ret; by left|].
  assert (concludes (n * 10) (work n (BatchID s)) d' (λ b d', b = true ∧ ended d' ∨ refused d')) as Hrest.
  { destruct Hd' as [Hr|[Hk' (c' & Hd')]]; [by apply refused_work|]. eapply IH; [done|lia|lia]. }
  destruct a as [p|e]; [by rewrite (Ht p eq_refl)|done].
Qed.
End Settling.

(** C34: Settlement does not go on forever: for a settling job with an API key and
    an account, while the job table answers and nobody else works on the job,
    five calls of the worker end with the job completed or failed and taken off
    the queue, or with the release of its hold refused, whatever the billing
    transactions and the price lookup answer. *)
Theorem settlement_ends id d j os :
  bjobs d !! id = Some j → BatchID (spec j) = id → is_settling (Status j) →
  ManifestHash j = None → 0 ≤ RetryCount j →
  0 < default 0 (job_APIKeyID (spec j)) → 0 < default 0 (job_AccountID (spec j)) →
  Forall responsive os → (50 ≤ length os)%nat →
  ∃ d' b, run_alone (work 5 id) os d = (d', Some b) ∧
    ∃ j', bjobs d' !! id = Some j' ∧
      (b = true ∧ IsTerminalBatchImageJobStatus (Status j') = true ∨
       LastErrorCode j' = Some "SETTLEMENT_RELEASE_FAILED").
Proof.
  intros Hj Hid Hst Hm Hk Hkey Hacc Hos Hlen. subst id.
  destruct (ends_run responsive 50 (work 5 (BatchID (spec j))) os d
              (λ b d', b = true ∧ ended (spec j) d' ∨ refused (spec j) d')) as (d' & b & Hrun & Hout).
  - eapply (settling_work (spec j) 5 (RetryCount j)); [done|done| |lia|lia].
    exists j. by split_and!.
  - done.
  - done.
  - exists d', b. split; [done|]. destruct Hout as [[-> (j' & Hj' & Ht)]|(k & _ & j' & Hj' & _ & _ & _ & _ & Hc)].
    + exists j'. auto.
    + exists j'. auto.
Qed.
End Batch.

(** ** The index *)

Section Index.
Context `{GoText} `{GoJSON}.

Lemma elem_of_List_filter {A : Type} (f : A → bool) l x : x ∈ List.filter f l ↔ x ∈ l ∧ f x = true.
Proof. by rewrite !list_elem_of_In, List.filter_In. Qed.
Lemma NoDup_List_filter {A : Type} (f : A → bool) (l : list A) : NoDup l → NoDup (List.filter f l).
Proof. rewrite !NoDup_ListNoDup. apply List.NoDup_filter. Qed.

Abbreviation ids := (fmap CustomID).

Definition from_submission (expected : list string) (items : list BatchImageItem) : Prop :=
  NoDup (ids items) ∧ (expected ≠ [] → ids items ⊆ expected).

Lemma result_item_id parsed : CustomID (result_item parsed) = pr_CustomID parsed.
Proof. unfold result_item. by destruct (pr_Succeeded parsed). Qed.

Lemma index_lines_from expected n items lines out :
  from_submission expected items → index_lines expected n items lines = Ok out →
  from_submission expected out.
Proof.
  revert n items. induction lines as [|raw lines IH]; intros n items Hitems; simpl; [by intros [= <-]|].
  destruct (String.eqb _ _); [by apply IH|].
  destruct (ParseBatchImageResultLine _ _) as [parsed|e]; [|done]. simpl.
  destruct (_ && _) eqn:Hknown; [by apply IH|].
  destruct (bool_decide (pr_CustomID parsed ∈ ids items)) eqn:Hdup; [by intros [=]|].
  apply bool_decide_eq_false_1 in Hdup. apply IH. destruct Hitems as [Hnd Hsub]. split.
  - rewrite fmap_app. simpl. rewrite result_item_id. apply NoDup_app. split; [done|].
    split; [|apply NoDup_singleton]. intros x Hx ->%list_elem_of_singleton. done.
  - intros Hne x. rewrite fmap_app, elem_of_app. intros [Hx|Hx]; [by apply Hsub|].
    apply list_elem_of_singleton in Hx as ->. rewrite result_item_id.
    apply andb_false_iff in Hknown as [Hk|Hk]; apply negb_false_iff, bool_decide_eq_true_1 in Hk; done.
Qed.

Lemma missing_ids (l : list string) : ids (missing_item <$> l) = l.
Proof. rewrite <-list_fmap_compose. apply list_fmap_id. Qed.

Lemma success_count_bounds items : 0 ≤ success_count items ≤ Z.of_nat (length items).
Proof.
  unfold success_count.
  pose proof (List.filter_length_le (λ i, String.eqb (it_Status i) BatchImageItemStatusSuccess) items). lia.
Qed.

(** A row made of one of the lines, the [n]-th of the file coming first. *)
Definition row_of_line (n : Z) (lines : list string) (it : BatchImageItem) : Prop :=
  ∃ k raw parsed, lines !! k = Some raw ∧ TrimSpace raw ≠ "" ∧
    ParseBatchImageResultLine (TrimSpace raw) (n + Z.of_nat k) = Ok parsed ∧ it = result_item parsed.

Lemma row_of_line_cons n raw lines it : row_of_line (n + 1) lines it → row_of_line n (raw :: lines) it.
Proof.
  intros (k & raw' & parsed & Hk & Hne & Hp & ->).
  exists (Datatypes.S k), raw', parsed. split_and!; [done|done| |done].
  by replace (n + Z.of_nat (Datatypes.S k)) with (n + 1 + Z.of_nat k) by lia.
Qed.

(** Every row of the loop was there or is one of a line, and no id is lost. *)
Lemma index_lines_rows expected n items lines out :
  index_lines expected n items lines = Ok out →
  (∀ it, it ∈ out → it ∈ items ∨ row_of_line (n + 1) lines it) ∧ items ⊆ out.
Proof.
  revert n items. induction lines as [|raw lines IH]; intros n items; simpl; [intros [= <-]; auto|].
  destruct (String.eqb_spec (TrimSpace raw) "") as [Hraw|Hraw].
  { intros [Hrow Hsub]%IH. split; [|done]. intros it [Hit|Hit]%Hrow; [by left|right]. by apply row_of_line_cons. }
  destruct (ParseBatchImageResultLine _ _) as [parsed|e] eqn:Hp; [|done]. simpl.
  destruct (_ && _).
  { intros [Hrow Hsub]%IH. split; [|done]. intros it [Hit|Hit]%Hrow; [by left|right]. by apply row_of_line_cons. }
  destruct (bool_decide _); [by intros [=]|]. intros [Hrow Hsub]%IH. split; [|set_solver].
  intros it [[Hit|Hit%list_elem_of_singleton]%elem_of_app|Hit]%Hrow; [by left| |right; by apply row_of_line_cons].
  right. exists 0%nat, raw, parsed. split_and!; [done|done| |done]. by rewrite Z.add_0_r.
Qed.

Lemma parsed_line line n parsed :
  ParseBatchImageResultLine line n = Ok parsed →
  pr_SourceLineNumber parsed = n ∧ pr_Succeeded parsed = (0 <? pr_ImageCount parsed).
Proof.
  unfold ParseBatchImageResultLine. destruct (json_Unmarshal line) as [[]|]; try done.
  destruct (String.eqb _ _); [done|]. cbv zeta.
  destruct (0 <? fst _) eqn:Hi; [by intros [= <-]; simpl; rewrite Hi|].
  destruct (batchImageFailureFromProviderFields _); [by intros [= <-]|]. by destruct (_ || _); intros [= <-].
Qed.

(** The image of a line that can be read and was submitted has a row. *)
Lemma index_lines_found expected n items lines out k raw parsed :
  index_lines expected n items lines = Ok out → lines !! k = Some raw → TrimSpace raw ≠ "" →
  ParseBatchImageResultLine (TrimSpace raw) (n + 1 + Z.of_nat k) = Ok parsed →
  pr_CustomID parsed ∈ expected → pr_CustomID parsed ∈ ids out.
Proof.
  intros Hout Hk Hraw Hp Hin. revert n items k Hk Hout Hp.
  induction lines as [|raw' lines IH]; intros n items k Hk Hout Hp; [done|].
  destruct k as [|k]; simpl in Hout.
  - injection Hk as ->. rewrite Z.add_0_r in Hp. rewrite (proj2 (String.eqb_neq _ _) Hraw), Hp in Hout.
    simpl in Hout. rewrite (bool_decide_eq_true_2 _ Hin), andb_false_r in Hout.
    destruct (bool_decide (_ ∈ ids items)) eqn:Hd; [by discriminate Hout|].
    apply index_lines_rows in Hout as [_ Hsub]. rewrite <-result_item_id.
    apply list_elem_of_fmap_2, Hsub. set_solver.
  - replace (n + 1 + Z.of_nat (Datatypes.S k)) with (n + 1 + 1 + Z.of_nat k) in Hp by lia.
    destruct (String.eqb _ _); [by eapply IH|].
    destruct (ParseBatchImageResultLine (TrimSpace raw') _) as [parsed'|e]; [|done]. simpl in Hout.
    destruct (_ && _); [by eapply IH|]. destruct (bool_decide _); [by discriminate Hout|by eapply IH].
Qed.

Lemma scan_all lines err read : scan lines err = (read, None) → read = lines.
Proof.
  revert read. induction lines as [|line lines IH]; intros read; simpl; [by intros [= <-]|].
  destruct (_ <=? _); [done|]. destruct (scan lines err) as [r e]. intros [= <- ->]. by rewrite (IH r).
Qed.

(** The rows and the counts are those of the lines that were found and of the
    images that are missing. *)
Lemma index_results_ok expected file items r :
  index_results expected file = Ok (items, r) →
  ∃ found missing,
    index_lines expected 0 [] (rf_lines file) = Ok found ∧
    missing ≡ₚ List.filter (λ id, negb (bool_decide (id ∈ ids found))) expected ∧
    items = found ++ (missing_item <$> missing) ∧ ix_SuccessCount r = success_count items ∧
    ix_FailCount r = Z.of_nat (length items) - success_count items.
Proof.
  unfold index_results. destruct (scan _ _) as [lines err] eqn:Es.
  destruct (index_lines expected 0 [] lines) as [found|e] eqn:E; [|done]. simpl.
  destruct err; [done|]. apply scan_all in Es as ->. destruct (_ =? 0); [done|]. intros [= <- <-].
  eexists found, _. split_and!; [done|apply (merge_sort_Permutation string_le)|done..].
Qed.

(** C35: When a result file is indexed without an error (the images of the batch
    are distinct, and there is at least one), every image that was submitted gets
    exactly one row, and lines for other images get none.  The row of an image
    with a result line carries the number of that line and is a success exactly if
    the line has an image; an image without a result line has a failed row, which
    says that its result is missing.  The counts of successes and failures are
    those of the rows, not negative, and add up to the number of images submitted,
    so that settlement does not refuse them as invalid. *)
Theorem index_accounts_for_all expected file items r :
  NoDup expected → expected ≠ [] → index_results expected file = Ok (items, r) →
  CustomID <$> items ≡ₚ expected ∧
  (∀ it, it ∈ items →
     (∃ k raw parsed,
        rf_lines file !! k = Some raw ∧ TrimSpace raw ≠ "" ∧
        ParseBatchImageResultLine (TrimSpace raw) (1 + Z.of_nat k) = Ok parsed ∧
        CustomID it = pr_CustomID parsed ∧ it_SourceLineNumber it = Some (1 + Z.of_nat k) ∧
        it_Status it = (if 0 <? pr_ImageCount parsed then "success" else "failed")) ∨
     (it_Status it = "failed" ∧ it_ErrorCode it = Some "PROVIDER_RESULT_MISSING" ∧
      ∀ k raw parsed, rf_lines file !! k = Some raw → TrimSpace raw ≠ "" →
        ParseBatchImageResultLine (TrimSpace raw) (1 + Z.of_nat k) = Ok parsed →
        pr_CustomID parsed ≠ CustomID it)) ∧
  ix_SuccessCount r = Z.of_nat (length (List.filter (λ it, String.eqb (it_Status it) "success") items)) ∧
  0 ≤ ix_FailCount r ∧ ix_SuccessCount r + ix_FailCount r = Z.of_nat (length expected) ∧
  ∀ j, SuccessCount j = ix_SuccessCount r → FailCount j = ix_FailCount r →
       ItemCount (spec j) = Z.of_nat (length expected) → invalid_counts j = false.
Proof.
  intros Hnd Hne (found & missing & E & Hmiss & -> & Hs & Hf)%index_results_ok.
  pose proof (index_lines_rows _ _ _ _ _ E) as [Hrow _].
  assert (from_submission expected []) as Hnone by (split; [constructor|intros _ x []%not_elem_of_nil]).
  destruct (index_lines_from _ _ _ _ _ Hnone E) as [Hfound Hsub].
  assert (∀ x, x ∈ missing ↔ x ∈ expected ∧ x ∉ ids found) as Hin.
  { intros x. rewrite Hmiss, elem_of_List_filter, negb_true_iff. by rewrite bool_decide_eq_false. }
  assert (ids (found ++ (missing_item <$> missing)) ≡ₚ expected) as Hperm.
  { rewrite fmap_app, missing_ids. apply NoDup_Permutation; [|done|].
    - apply NoDup_app. split_and!; [done|by intros x Hx [_ []]%Hin|].
      rewrite Hmiss. by apply NoDup_List_filter.
    - intros x. rewrite elem_of_app, Hin. destruct (decide (x ∈ ids found)); set_solver. }
  assert (length (found ++ (missing_item <$> missing)) = length expected) as Hlen
    by (by rewrite <-Hperm, length_fmap).
  pose proof (success_count_bounds (found ++ (missing_item <$> missing))) as Hb.
  rewrite Hlen in *. split_and!; [done| |done|lia|lia|].
  - intros it [Hit|(x & -> & [Hx Hno]%Hin)%list_elem_of_fmap]%elem_of_app; [left|right].
    + destruct (Hrow _ Hit) as [[]%not_elem_of_nil|(k & raw & parsed & Hk & Hraw & Hp & ->)].
      exists k, raw, parsed. destruct (parsed_line _ _ _ Hp) as [Hline Hsucc].
      split_and!; [done..|apply result_item_id| |].
      * unfold result_item. destruct (pr_Succeeded parsed); simpl; by rewrite Hline.
      * rewrite <-Hsucc. unfold result_item. by destruct (pr_Succeeded parsed).
    + split_and!; [done|done|]. intros k raw parsed Hk Hraw Hp Heq. apply Hno.
      simpl in Heq. subst x. by eapply index_lines_found.
  - intros j Hsj Hfj Hi. unfold invalid_counts. rewrite Hsj, Hfj, Hi, !orb_false_iff, !Z.ltb_ge. lia.
Qed.
End Index.

(** ** Concrete runs *)

Module BatchDemo.
#[local] Existing Instance UsageDemo.demo_text.
#[local] Existing Instance UsageDemo.demo_hash.
#[local] Existing Instance UsageDemo.demo_num.
#[local] Existing Instance UsageDemo.demo_clock.

Definition lines_of (lines : list string) : ResultFile := {| rf_lines := lines; rf_error := None |}.
Definition image : Json :=
  JObj [("inlineData", JObj [("data", JStr "x"); ("mimeType", JStr "image/png")])].
(** A result line is a key, and an exclamation mark when it has an image. *)
#[local] Instance demo_json : GoJSON :=
  {| json_Marshal := λ _, None;
     json_Unmarshal raw :=
       Some (JObj (if HasSuffix raw "!"
                   then [("key", JStr (TrimSuffix raw "!"));
                         ("candidates", JArr [JObj [("content", JObj [("parts", JArr [image])])]])]
                   else [("key", JStr raw); ("error", JObj [("code", JStr "SAFETY")])]));
     json_int64 := λ _, 0; redact_patterns := id |}.

(** Three images at one dollar each; the hold covers all. *)
Definition job (id : string) : JobSpec :=
  {| BatchID := id; job_UserID := 7; job_APIKeyID := Some 1; job_AccountID := Some 2;
     Provider := BatchImageProviderVertex; job_Model := "m"; ItemCount := 3; EstimatedCost := f_of_int 3;
     HoldAmount := Some (f_of_int 3); BillableUnitPrice := f1; PricingSnapshotVersion := 1;
     RequestHash := Some "h"; job_IdempotencyKey := Some "k" |}.
Definition empty_tables : BatchDB :=
  {| bjobs := ∅; next_job := 1; bitems := ∅; billing := UsageDemo.db_with (10 * 10 ^ 8) 0 |}.

Definition good : BOracle :=
  {| b_fate := Fine; b_now := 1; b_faults := no_faults; b_ok := true; b_error := None;
     b_submit := Ok (Some {| pj_JobName := "p"; pj_OutputRef := "" |});
     b_status := Some (Some {| InternalState := PSucceeded; st_ProviderOutputRef := ""; st_ErrorCode := "";
                               SuggestedRequeueAfter := 0 |});
     b_result := Some (lines_of ["c!"; "zzz!"; "a"]); b_pricing := None |}.
Definition with_fate (f : Fate) : BOracle :=
  {| b_fate := f; b_now := 1; b_faults := no_faults; b_ok := true; b_error := None;
     b_submit := b_submit good; b_status := b_status good; b_result := b_result good; b_pricing := None |}.
Definition with_faults (f : Faults) : BOracle :=
  {| b_fate := Fine; b_now := 1; b_faults := f; b_ok := true; b_error := None;
     b_submit := b_submit good; b_status := b_status good; b_result := b_result good; b_pricing := None |}.
Definition steps (i n : nat) : list (nat * BOracle) := repeat (i, good) n.

Definition outcome (reqs : list request) (sched : list (nat * BOracle)) :=
  let w := run sched (empty_tables, serve Hour 0 0 <$> reqs) in
  ((λ j, (Status j, SuccessCount j, FailCount j)) <$> bjobs (fst w) !! "b",
   UsageDemo.balances (billing (fst w)), result <$> snd w).

Definition submit : request := Submitting (job "b") 7 1 "h" ["a"; "b"; "c"] "" 0.

Example index_three :
  match index_results ["a"; "b"; "c"] (lines_of ["c!"; "zzz!"; "a"]) with
  | Ok (items, r) => CustomID <$> items = ["c"; "a"; "b"] ∧ (ix_SuccessCount r, ix_FailCount r) = (1, 2)
  | Err _ => False
  end.
Proof. vm_compute. by split. Qed.

(** A read that breaks off has no rows, whatever was read before. *)
Example index_broken :
  index_results ["a"; "b"; "c"] {| rf_lines := ["c!"; "a"]; rf_error := Some ErrRead |} =
  Err EBatchImageIndexRead.
Proof. reflexivity. Qed.

(** One image of three succeeds: one dollar of the three held is charged. *)
Example settled_run :
  outcome [submit; Worker "b" 9] (steps 0 20 ++ steps 1 40) =
  (Some (BatchImageJobStatusCompleted, 1, 2), Some (9 * 10 ^ 8, 0), [Some false; Some true]).
Proof. vm_compute. reflexivity. Qed.

(** A job that is cancelled after it is created and before its hold is reserved:
    the release finds nothing held and is recorded all the same, then the
    submission reserves the hold, and nothing releases it any more. *)
Example cancel_before_reserve :
  outcome [submit; Cancelling 7 1 "b"; Worker "b" 9] (steps 0 1 ++ steps 1 9 ++ steps 0 20 ++ steps 2 40) =
  (Some (BatchImageJobStatusCancelled, 0, 0), Some (7 * 10 ^ 8, 3 * 10 ^ 8),
   [Some false; Some false; Some true]).
Proof. vm_compute. reflexivity. Qed.

(** Two workers of one batch, as when the lock of the first has lapsed: the second
    finds the job settling and takes it off the queue, before anything is
    captured; if the first stops there, the job stays as it is. *)
Example lock_lapsed :
  outcome [submit; Worker "b" 9; Worker "b" 9] (steps 0 20 ++ steps 1 10 ++ steps 2 1 ++ steps 1 1 ++ steps 2 40) =
  (Some (BatchImageJobStatusSettling, 1, 2), Some (7 * 10 ^ 8, 3 * 10 ^ 8),
   [Some false; None; Some true]).
Proof. vm_compute. reflexivity. Qed.

(** The capture commits but the job cannot be marked settled; when five further
    captures fail, the job is failed and the hold that was captured is released,
    out of what another batch has frozen: the user ends with two dollars more
    than at the start. *)
Definition other_batch_frozen : BatchDB := set_billing (UsageDemo.db_with (10 * 10 ^ 8) (4 * 10 ^ 8)) empty_tables.
Definition no_begin : Faults := {| fault_begin := true; fault_stmts := []; fault_commit := CommitOk |}.
Definition failing_captures : list (nat * BOracle) :=
  steps 1 15 ++ [(1%nat, with_fate Fail)]
  ++ concat (repeat (steps 1 2 ++ [(1%nat, with_faults no_begin)] ++ steps 1 2) 4)
  ++ steps 1 2 ++ [(1%nat, with_faults no_begin)] ++ steps 1 20.
Example released_after_capture :
  let w := run (steps 0 20 ++ failing_captures) (other_batch_frozen, serve Hour 0 0 <$> [submit; Worker "b" 9]) in
  ((λ j, (Status j, LastErrorCode j)) <$> bjobs (fst w) !! "b", UsageDemo.balances (billing (fst w))) =
  (Some (BatchImageJobStatusFailed, Some "SETTLEMENT_BILLING_RETRY_EXHAUSTED"), Some (12 * 10 ^ 8, 1 * 10 ^ 8)).
Proof. vm_compute. reflexivity. Qed.

(** One read that fails while the results are indexed fails the whole job. *)
Example failed_by_one_read :
  outcome [submit; Worker "b" 9] (steps 0 20 ++ steps 1 7 ++ [(1%nat, with_fate Fail)] ++ steps 1 20) =
  (Some (BatchImageJobStatusFailed, 0, 0), Some (10 * 10 ^ 8, 0), [Some false; Some true]).
Proof. vm_compute. reflexivity. Qed.

(** Two submissions with one idempotency key at the same time. *)
Example submitted_twice :
  let w := run (steps 0 1 ++ steps 1 1 ++ steps 0 20 ++ steps 1 20)
             (empty_tables, serve Hour 0 0 <$>
                [Submitting (job "b") 7 1 "h" ["a"] "k" 0; Submitting (job "c") 7 1 "h" ["a"] "k" 0]) in
  (Status <$> bjobs (fst w) !! "b", Status <$> bjobs (fst w) !! "c", UsageDemo.balances (billing (fst w))) =
  (Some BatchImageJobStatusSubmitted, Some BatchImageJobStatusSubmitted, Some (4 * 10 ^ 8, 6 * 10 ^ 8)).
Proof. vm_compute. reflexivity. Qed.

Definition demo_requests : list request := [submit; Worker "b" 9].
Definition demo_end := run (steps 0 20 ++ steps 1 40) (empty_tables, serve Hour 0 0 <$> demo_requests).
Lemma empty_consistent : consistent empty_tables.
Proof. intros id j Hj. done. Qed.
Lemma demo_separate : separate demo_requests.
Proof. intros [|[|i]] [|[|k]] q q' Hq Hq' Hne Hr; simplify_eq/=; done. Qed.

Lemma batch_settled_before_acked_witness :
  (∀ j, bjobs (fst demo_end) !! "b" = Some j → is_done (Status j) → captured (spec j) (billing (fst demo_end))) ∧
  acked "b" (fst demo_end).
Proof.
  destruct (batch_settled_before_acked Hour 0 0 demo_requests empty_tables (steps 0 20 ++ steps 1 40)
              (fst demo_end) (snd demo_end) empty_consistent demo_separate (surjective_pairing _)) as [Hdone Hack].
  split; [intros j; apply Hdone|]. apply (Hack 1%nat "b" 9%nat); [reflexivity|]. vm_compute. reflexivity.
Defined.

(** A settling job whose captures all fail. *)
Definition settling_tables : BatchDB :=
  fst (run (steps 0 20 ++ steps 1 11) (empty_tables, serve Hour 0 0 <$> demo_requests)).
Definition settling_job : BatchImageJob :=
  default (new_job (job "b") 0 0) (bjobs settling_tables !! "b").
Lemma settlement_ends_witness :
  ∃ d' b, run_alone (work Hour 0 0 5 "b") (repeat (with_faults no_begin) 50) settling_tables = (d', Some b) ∧
    ∃ j', bjobs d' !! "b" = Some j' ∧
      (b = true ∧ IsTerminalBatchImageJobStatus (Status j') = true ∨
       LastErrorCode j' = Some "SETTLEMENT_RELEASE_FAILED").
Proof.
  apply (settlement_ends Hour 0 0 "b" settling_tables settling_job).
  - vm_compute. reflexivity.
  - vm_compute. reflexivity.
  - vm_compute. reflexivity.
  - vm_compute. reflexivity.
  - vm_compute. discriminate.
  - vm_compute. reflexivity.
  - vm_compute. reflexivity.
  - apply Forall_forall. intros o Ho. apply list_elem_of_In, List.repeat_spec in Ho. by subst.
  - rewrite List.repeat_length. lia.
Defined.

Definition three_items : list BatchImageItem * BatchImageIndexResult :=
  match index_results ["a"; "b"; "c"] (lines_of ["c!"; "zzz!"; "a"]) with
  | Ok r => r
  | Err _ => ([], {| ix_SuccessCount := 0; ix_FailCount := 0; ix_TotalCount := 0 |})
  end.
Lemma index_accounts_for_all_witness :
  CustomID <$> fst three_items ≡ₚ ["a"; "b"; "c"] ∧
  ix_SuccessCount (snd three_items) + ix_FailCount (snd three_items) = 3.
Proof.
  destruct (index_accounts_for_all ["a"; "b"; "c"] (lines_of ["c!"; "zzz!"; "a"]) (fst three_items) (snd three_items))
    as (Hp & _ & _ & _ & Hsum & _).
  - repeat constructor; set_solver.
  - discriminate.
  - vm_compute. reflexivity.
  - split; [exact Hp|exact Hsum].
Defined.
End BatchDemo.
