(* ===== verification/BatchQueue.v ===== *)
(** * The queue of batch-image jobs and its worker

    [src/backend/internal/repository/batch_image_queue.go] (Lua scripts and
    MULTI/EXEC pipelines on one Redis), [service/batch_image_queue.go] and the
    loops of [service/batch_image_worker.go]: workers, the mover of delayed jobs
    and the recovery of jobs whose worker died.

    A script or pipeline is one atomic command; a command may fail, or take
    effect and lose its answer.  What [Process] answers is part of the oracle
    ([BatchPipeline.v] models it), and every answer is kept in a list.  The
    ready, delayed and active keys and the two prefixes are taken to be
    different, as their defaults are; scores are milliseconds, which a float64
    holds exactly.  Cancelling the context stops a process. *)

From Stdlib Require Import ZArith Lia Ascii String Bool.
From stdpp Require Import base numbers option list gmap strings sorting.
From S2P Require Import Prelude GoStrings UsageBilling Proc RedisStore BatchImage BatchPipeline.

#[local] Open Scope Z_scope.

(** ** The data in Redis *)

Record Queue := {
  q_ready : list string;
  q_delayed : gmap string Z;
  q_active : gmap string Z;
  q_inflight : gmap string Z;
  q_locks : gmap string (string * Z);
}.

Definition with_ready (l : list string) (q : Queue) : Queue :=
  {| q_ready := l; q_delayed := q_delayed q; q_active := q_active q; q_inflight := q_inflight q;
     q_locks := q_locks q |}.
Definition with_delayed (m : gmap string Z) (q : Queue) : Queue :=
  {| q_ready := q_ready q; q_delayed := m; q_active := q_active q; q_inflight := q_inflight q;
     q_locks := q_locks q |}.
Definition with_active (m : gmap string Z) (q : Queue) : Queue :=
  {| q_ready := q_ready q; q_delayed := q_delayed q; q_active := m; q_inflight := q_inflight q;
     q_locks := q_locks q |}.
Definition with_inflight (m : gmap string Z) (q : Queue) : Queue :=
  {| q_ready := q_ready q; q_delayed := q_delayed q; q_active := q_active q; q_inflight := m;
     q_locks := q_locks q |}.
Definition with_locks (m : gmap string (string * Z)) (q : Queue) : Queue :=
  {| q_ready := q_ready q; q_delayed := q_delayed q; q_active := q_active q;
     q_inflight := q_inflight q; q_locks := m |}.

(** The loop of the two moving scripts: [ZREM] then [LPUSH], job by job. *)
Definition move_job (s : gmap string Z * list string) (job : string) : gmap string Z * list string :=
  (delete job (fst s), job :: snd s).
Definition move_jobs (z : gmap string Z) (ready jobs : list string) : gmap string Z * list string :=
  foldl move_job (z, ready) jobs.

(** ** Commands *)

Inductive command :=
| EnqueueScript (id : string) (ttl : Z)
| ReserveScript (score : Z)
| RemoveActive (id : string)
| RequeuePipeline (id : string) (score : option Z)
| AckPipeline (id : string)
| HeartbeatXX (id : string) (score : Z)
| MoveDueDelayedScript (max limit : Z)
| RecoverStaleActiveScript (cutoff limit : Z)
| SetLockNX (id token : string) (ttl : Z)
| ReleaseLockScript (id token : string)
| RefreshLockScript (id token : string) (ttl : Z).

Inductive reply := RError | RNil | RInt (n : Z) | RStr (s : string).

Definition enqueue_script (now : Z) (id : string) (ttl : Z) (q : Queue) : Queue * reply :=
  if ttl <=? 0 then (q, RError)
  else
    match q_inflight q !! id with
    | Some expiry => if key_alive now expiry then (q, RInt 0)
                     else (with_inflight (<[id := now + ttl]> (q_inflight q)) (with_ready (id :: q_ready q) q), RInt 1)
    | None => (with_inflight (<[id := now + ttl]> (q_inflight q)) (with_ready (id :: q_ready q) q), RInt 1)
    end.

Definition reserve_script (score : Z) (q : Queue) : Queue * reply :=
  match last (q_ready q) with
  | None => (q, RNil)
  | Some job => (with_active (<[job := score]> (q_active q)) (with_ready (removelast (q_ready q)) q), RStr job)
  end.

Definition requeue_pipeline (id : string) (score : option Z) (q : Queue) : Queue :=
  let q := with_delayed (delete id (q_delayed q)) (with_active (delete id (q_active q)) q) in
  match score with
  | None => with_ready (id :: q_ready q) q
  | Some s => with_delayed (<[id := s]> (q_delayed q)) q
  end.

Definition ack_pipeline (id : string) (q : Queue) : Queue :=
  with_inflight (delete id (q_inflight q))
    (with_delayed (delete id (q_delayed q)) (with_active (delete id (q_active q)) q)).

Definition move_due_delayed_script (max limit : Z) (q : Queue) : Queue * reply :=
  let jobs := ZRANGEBYSCORE (q_delayed q) max limit in
  let (z, ready) := move_jobs (q_delayed q) (q_ready q) jobs in
  (with_delayed z (with_ready ready q), RInt (Z.of_nat (length jobs))).
Definition recover_stale_active_script (cutoff limit : Z) (q : Queue) : Queue * reply :=
  let jobs := ZRANGEBYSCORE (q_active q) cutoff limit in
  let (z, ready) := move_jobs (q_active q) (q_ready q) jobs in
  (with_active z (with_ready ready q), RInt (Z.of_nat (length jobs))).

(** The holder of a lock now. *)
Definition lock_holder (now : Z) (id : string) (q : Queue) : option string :=
  match q_locks q !! id with
  | Some (token, expiry) => if key_alive now expiry then Some token else None
  | None => None
  end.
Definition holds_lock (now : Z) (id token : string) (q : Queue) : bool :=
  bool_decide (lock_holder now id q = Some token).

Definition set_lock_nx (now : Z) (id token : string) (ttl : Z) (q : Queue) : Queue * reply :=
  match lock_holder now id q with
  | Some _ => (q, RInt 0)
  | None => (with_locks (<[id := (token, now + ttl)]> (q_locks q)) q, RInt 1)
  end.
Definition release_lock_script (now : Z) (id token : string) (q : Queue) : Queue * reply :=
  if holds_lock now id token q then (with_locks (delete id (q_locks q)) q, RInt 1) else (q, RInt 0).
(** [PEXPIRE] with a time that is not positive deletes the key. *)
Definition refresh_lock_script (now : Z) (id token : string) (ttl : Z) (q : Queue) : Queue * reply :=
  if holds_lock now id token q then
    (with_locks (if ttl <=? 0 then delete id (q_locks q) else <[id := (token, now + ttl)]> (q_locks q)) q, RInt 1)
  else (q, RInt 0).

Definition exec (now : Z) (c : command) (q : Queue) : Queue * reply :=
  match c with
  | EnqueueScript id ttl => enqueue_script now id ttl q
  | ReserveScript score => reserve_script score q
  | RemoveActive id => (with_active (delete id (q_active q)) q, RInt (if q_active q !! id then 1 else 0))
  | RequeuePipeline id score => (requeue_pipeline id score q, RInt 1)
  | AckPipeline id => (ack_pipeline id q, RInt 1)
  | HeartbeatXX id score =>
      (match q_active q !! id with
       | Some _ => with_active (<[id := score]> (q_active q)) q
       | None => q
       end, RInt 0)
  | MoveDueDelayedScript max limit => move_due_delayed_script max limit q
  | RecoverStaleActiveScript cutoff limit => recover_stale_active_script cutoff limit q
  | SetLockNX id token ttl => set_lock_nx now id token ttl q
  | ReleaseLockScript id token => release_lock_script now id token q
  | RefreshLockScript id token ttl => refresh_lock_script now id token ttl q
  end.

(** ** Processes *)

Record QState := {
  queue : Queue;
  calls : list (string * option BatchImageProcessResult);
}.

(** The fate of a command, Go's clock, Redis' clock in milliseconds, the answer
    of [Process], whether a job is found, and the random bytes. *)
Record QOracle := {
  q_fate : Fate;
  q_now : time;
  q_redis : Z;
  q_processed : option BatchImageProcessResult;
  q_found : option bool;
  q_random : option string;
}.

Inductive QErr :=
| EQRedis
| EQDB
| EQRandom
| EBatchImageQueueEmpty
| EBatchImageAlreadyQueued
| EInvalidBatchImageQueuePayload
| EQJobNotFound.

Abbreviation qproc A := (proc QState QOracle A).

Definition set_queue (q : Queue) (s : QState) : QState := {| queue := q; calls := calls s |}.
Definition qask {B} (f : QOracle → B) : qproc B := act (λ o s, (f o, s)).
Definition qcmd (c : command) : qproc (option reply) :=
  act (λ o s,
    let (q, r) := exec (q_redis o) c (queue s) in
    match q_fate o, r with
    | Fail, _ => (None, s)
    | _, RError => (None, s)
    | Fine, _ => (Some r, set_queue q s)
    | Lost, _ => (None, set_queue q s)
    end).
(** [processor.Process]: an error is [None]. *)
Definition process (id : string) : qproc (option BatchImageProcessResult) :=
  act (λ o s, (q_processed o, {| queue := queue s; calls := (id, q_processed o) :: calls s |})).

Definition UnixMilli (t : time) : Z := (t - unix_epoch) / 1000000.
Definition Milliseconds (d : duration) : Z := Z.quot d 1000000.
Definition done_by (r : option reply) : res QErr unit :=
  match r with None => Err EQRedis | Some _ => Ok () end.

Definition IsValidBatchImageID (batchID : string) : bool :=
  HasPrefix batchID "imgbatch_" && (str_len "imgbatch_" <? str_len batchID).

Section BatchImageQueue.
(** [newBatchImageQueueWithOptions]: both are positive. *)
Context (inflightTTL lockTTL : duration).

Definition Enqueue (batchID : string) : qproc (res QErr unit) :=
  if negb (IsValidBatchImageID batchID) then Ret (Err EInvalidBatchImageQueuePayload)
  else
    applied <-p qcmd (EnqueueScript batchID (Milliseconds inflightTTL));
    Ret (match applied with
         | None => Err EQRedis
         | Some (RInt 0) => Err EBatchImageAlreadyQueued
         | Some _ => Ok ()
         end).

Definition reserveOnce : qproc (res QErr string) :=
  t <-p qask q_now;
  raw <-p qcmd (ReserveScript (UnixMilli t));
  match raw with
  | None => Ret (Err EQRedis)
  | Some (RStr batchID) =>
      if IsValidBatchImageID batchID then Ret (Ok batchID)
      else if String.eqb batchID "" then Ret (Err EInvalidBatchImageQueuePayload)
      else _ <-p qcmd (RemoveActive batchID); Ret (Err EInvalidBatchImageQueuePayload)
  | Some RNil => Ret (Err EBatchImageQueueEmpty)
  | Some _ => Ret (Err EInvalidBatchImageQueuePayload)
  end.

(** The polls of [Reserve], of which the deadline allows at most [polls]. *)
Fixpoint reserve_polls (polls : nat) (deadline : time) : qproc (res QErr string) :=
  r <-p reserveOnce;
  match r with
  | Err EBatchImageQueueEmpty =>
      t <-p qask q_now;
      if time_Sub deadline t <=? 0 then Ret (Err EBatchImageQueueEmpty)
      else match polls with
           | O => Ret (Err EBatchImageQueueEmpty)
           | S n => reserve_polls n deadline
           end
  | _ => Ret r
  end.
Definition Reserve (polls : nat) (blockTimeout : duration) : qproc (res QErr string) :=
  t <-p qask q_now; reserve_polls polls (time_Add t blockTimeout).

Definition queue_RequeueAfter (batchID : string) (delay : duration) : qproc (res QErr unit) :=
  if negb (IsValidBatchImageID batchID) then Ret (Err EInvalidBatchImageQueuePayload)
  else if delay <=? 0 then r <-p qcmd (RequeuePipeline batchID None); Ret (done_by r)
  else
    t <-p qask q_now;
    r <-p qcmd (RequeuePipeline batchID (Some (UnixMilli (time_Add t delay)))); Ret (done_by r).

Definition Ack (batchID : string) : qproc (res QErr unit) :=
  if negb (IsValidBatchImageID batchID) then Ret (Err EInvalidBatchImageQueuePayload)
  else r <-p qcmd (AckPipeline batchID); Ret (done_by r).

Definition Heartbeat (batchID : string) : qproc (res QErr unit) :=
  if negb (IsValidBatchImageID batchID) then Ret (Err EInvalidBatchImageQueuePayload)
  else t <-p qask q_now; r <-p qcmd (HeartbeatXX batchID (UnixMilli t)); Ret (done_by r).

Definition int_reply (r : option reply) : res QErr Z :=
  match r with Some (RInt n) => Ok n | _ => Err EQRedis end.
Definition MoveDueDelayedToReady (limit : Z) : qproc (res QErr Z) :=
  let limit := if limit <=? 0 then 100 else limit in
  t <-p qask q_now; r <-p qcmd (MoveDueDelayedScript (UnixMilli t) limit); Ret (int_reply r).
Definition RecoverStaleActive (staleAfter : duration) (limit : Z) : qproc (res QErr Z) :=
  if staleAfter <=? 0 then Ret (Err EInvalidBatchImageQueuePayload)
  else
    let limit := if limit <=? 0 then 100 else limit in
    t <-p qask q_now;
    r <-p qcmd (RecoverStaleActiveScript (UnixMilli (time_Add t (- staleAfter))) limit); Ret (int_reply r).

(** The lock's token, or [None] when another holds the lock. *)
Definition TryAcquireJobLock (batchID : string) (ttl : duration) : qproc (res QErr (option string)) :=
  if negb (IsValidBatchImageID batchID) then Ret (Err EInvalidBatchImageQueuePayload)
  else
    let ttl := if ttl <=? 0 then lockTTL else ttl in
    token <-p qask q_random;
    match token with
    | None => Ret (Err EQRandom)
    | Some token =>
        ok <-p qcmd (SetLockNX batchID token (Z.max 1 (Milliseconds ttl)));
        Ret (match ok with
             | None => Err EQRedis
             | Some (RInt 0) => Ok None
             | Some _ => Ok (Some token)
             end)
    end.
Definition lock_Release (batchID token : string) : qproc (res QErr unit) :=
  if String.eqb token "" then Ret (Ok ())
  else r <-p qcmd (ReleaseLockScript batchID token); Ret (done_by r).
Definition defaultBatchImageJobLockTTL : duration := 5 * Minute.
Definition lock_Refresh (batchID token : string) (ttl : duration) : qproc (res QErr unit) :=
  if String.eqb token "" then Ret (Ok ())
  else
    let ttl := if ttl <=? 0 then defaultBatchImageJobLockTTL else ttl in
    r <-p qcmd (RefreshLockScript batchID token (Milliseconds ttl)); Ret (done_by r).

(** [BatchImageService.EnqueueBatchImageJob] *)
Definition EnqueueBatchImageJob (batchID : string) : qproc (res QErr unit) :=
  if negb (IsValidBatchImageID batchID) then Ret (Err EInvalidBatchImageQueuePayload)
  else
    job <-p qask q_found;
    match job with
    | None => Ret (Err EQDB)
    | Some false => Ret (Err EQJobNotFound)
    | Some true => Enqueue batchID
    end.

(** ** The worker *)

Record BatchImageWorkerOptions := {
  ReserveBlockTimeout : duration;
  JobLockTTL : duration;
  LockConflictDelay : duration;
  DefaultRequeueDelay : duration;
  ErrorRetryDelay : duration;
  ErrorBackoff : duration;
  DelayedPollInterval : duration;
  RecoveryInterval : duration;
  StaleActiveAfter : duration;
  DelayedMoveLimit : Z;
  RecoverLimit : Z;
}.

Definition or_default (x default : Z) : Z := if x <=? 0 then default else x.
Definition normalizeBatchImageWorkerOptions (opts : BatchImageWorkerOptions) : BatchImageWorkerOptions :=
  {| ReserveBlockTimeout := or_default (ReserveBlockTimeout opts) (5 * Second);
     JobLockTTL := or_default (JobLockTTL opts) (5 * Minute);
     LockConflictDelay := or_default (LockConflictDelay opts) (5 * Second);
     DefaultRequeueDelay := or_default (DefaultRequeueDelay opts) (30 * Second);
     ErrorRetryDelay := or_default (ErrorRetryDelay opts) Minute;
     ErrorBackoff := or_default (ErrorBackoff opts) Second;
     DelayedPollInterval := or_default (DelayedPollInterval opts) (5 * Second);
     RecoveryInterval := or_default (RecoveryInterval opts) (5 * Minute);
     StaleActiveAfter := or_default (StaleActiveAfter opts) (10 * Minute);
     DelayedMoveLimit := or_default (DelayedMoveLimit opts) 100;
     RecoverLimit := or_default (RecoverLimit opts) 100 |}.

Context (opts : BatchImageWorkerOptions).

Definition heartbeatInterval : duration :=
  let interval := if StaleActiveAfter opts <? JobLockTTL opts then StaleActiveAfter opts else JobLockTTL opts in
  let interval := Z.quot interval 3 in
  if interval <? Second then Second else interval.

(** The ticks of [runJobHeartbeat]; [Process] does not touch the queue, so they
    come before its answer or after it. *)
Fixpoint runJobHeartbeat (ticks : nat) (batchID token : string) : qproc unit :=
  match ticks with
  | O => Ret ()
  | S n => _ <-p Heartbeat batchID; _ <-p lock_Refresh batchID token (JobLockTTL opts);
           runJobHeartbeat n batchID token
  end.

(** What the worker does with the answer of [Process]. *)
Definition settle_reserved (batchID : string) (result : option BatchImageProcessResult) : qproc (res QErr unit) :=
  match result with
  | None => queue_RequeueAfter batchID (ErrorRetryDelay opts)
  | Some r =>
      if Terminal r then Ack batchID
      else queue_RequeueAfter batchID (if RequeueAfter r <=? 0 then DefaultRequeueDelay opts else RequeueAfter r)
  end.

Record Pace := { polls : nat; ticks : nat; late_ticks : nat }.
Definition process_locked (p : Pace) (batchID token : string) : qproc (res QErr unit) :=
  _ <-p runJobHeartbeat (ticks p) batchID token;
  result <-p process batchID;
  _ <-p runJobHeartbeat (late_ticks p) batchID token;
  ended <-p settle_reserved batchID result;
  _ <-p lock_Release batchID token;
  Ret ended.

Definition RunOnce (p : Pace) : qproc (res QErr unit) :=
  reserved <-p Reserve (polls p) (ReserveBlockTimeout opts);
  match reserved with
  | Err EBatchImageQueueEmpty => Ret (Ok ())
  | Err e => Ret (Err e)
  | Ok batchID =>
      lock <-p TryAcquireJobLock batchID (JobLockTTL opts);
      match lock with
      | Err e =>
          requeued <-p queue_RequeueAfter batchID (LockConflictDelay opts);
          Ret (match requeued with Err e' => Err e' | Ok _ => Err e end)
      | Ok None => queue_RequeueAfter batchID (LockConflictDelay opts)
      | Ok (Some token) => process_locked p batchID token
      end
  end.

(** The loops, which a cancelled context ends after some rounds. *)
Fixpoint worker_Run (rounds : list Pace) : qproc unit :=
  match rounds with
  | [] => Ret ()
  | p :: rounds => _ <-p RunOnce p; worker_Run rounds
  end.
Fixpoint RunDelayedMover (rounds : nat) : qproc unit :=
  match rounds with
  | O => Ret ()
  | S n => _ <-p MoveDueDelayedToReady (DelayedMoveLimit opts); RunDelayedMover n
  end.
Fixpoint RunStaleActiveRecovery (rounds : nat) : qproc unit :=
  match rounds with
  | O => Ret ()
  | S n => _ <-p RecoverStaleActive (StaleActiveAfter opts) (RecoverLimit opts); RunStaleActiveRecovery n
  end.
End BatchImageQueue.
