(* ===== verification/BatchQueueProps.v ===== *)
(** * Properties of the queue of batch-image jobs

    A job that is queued stays queued until [Process] has answered that it is at
    its end; a queued job is reserved after as many reservations as there are
    jobs; and a lock keeps everyone else out until it expires. *)

From Stdlib Require Import ZArith Lia Ascii String Bool.
From stdpp Require Import base numbers option list relations gmap strings sorting.
From S2P Require Import Prelude GoStrings Proc RedisStore BatchImage BatchPipeline BatchQueue.

#[local] Open Scope Z_scope.

(** ** Moving jobs *)

Lemma move_jobs_cons z ready j jobs : move_jobs z ready (j :: jobs) = move_jobs (delete j z) (j :: ready) jobs.
Proof. done. Qed.
Lemma move_jobs_ready z ready jobs : snd (move_jobs z ready jobs) = reverse jobs ++ ready.
Proof.
  revert z ready. induction jobs as [|j jobs IH]; intros z ready; [done|].
  rewrite move_jobs_cons, IH, reverse_cons. by rewrite <-(assoc_L (++)).
Qed.
Lemma move_jobs_rest z ready jobs id :
  fst (move_jobs z ready jobs) !! id = if bool_decide (id ∈ jobs) then None else z !! id.
Proof.
  revert z ready. induction jobs as [|j jobs IH]; intros z ready; [done|].
  rewrite move_jobs_cons, IH. destruct (decide (id = j)) as [->|Hne].
  - rewrite lookup_delete_eq. rewrite (bool_decide_eq_true_2 (j ∈ j :: jobs)) by left.
    by destruct (bool_decide _).
  - rewrite lookup_delete_ne by done.
    assert (bool_decide (id ∈ j :: jobs) = bool_decide (id ∈ jobs)) as ->; [|done].
    apply bool_decide_ext. rewrite elem_of_cons. naive_solver.
Qed.

(** ** Nothing is dropped *)

Definition queued (id : string) (q : Queue) : Prop :=
  id ∈ q_ready q ∨ is_Some (q_delayed q !! id) ∨ is_Some (q_active q !! id).
Definition marked (id : string) (q : Queue) : Prop := is_Some (q_inflight q !! id).

(** The commands that take a job off the queue. *)
Definition removes (id : string) (c : command) : Prop := c = AckPipeline id ∨ c = RemoveActive id.

Lemma exec_keeps now c q id : ¬ removes id c → queued id q → queued id (fst (exec now c q)).
Proof.
  unfold queued. intros Hc Hq. destruct c; simpl.
  - unfold enqueue_script. destruct (ttl <=? 0); [done|].
    destruct (q_inflight q !! id0); [destruct (key_alive _ _)|]; simpl; [done|..];
      rewrite elem_of_cons; tauto.
  - unfold reserve_script. destruct (last (q_ready q)) as [job|] eqn:Hl; [|done].
    apply last_Some in Hl as [l Hl]. simpl. rewrite Hl, removelast_last.
    rewrite Hl, elem_of_app, list_elem_of_singleton in Hq.
    destruct (decide (id = job)) as [->|Hne]; [right; right; by rewrite lookup_insert_eq|].
    rewrite lookup_insert_ne by done. tauto.
  - assert (id ≠ id0) by (intros ->; apply Hc; by right). by rewrite lookup_delete_ne.
  - destruct (decide (id = id0)) as [->|Hne].
    + destruct score; simpl; [right; left; by rewrite lookup_insert_eq|left; left].
    + destruct score; simpl; rewrite ?elem_of_cons, ?lookup_insert_ne, !lookup_delete_ne by done; tauto.
  - assert (id ≠ id0) by (intros ->; apply Hc; by left). by rewrite !lookup_delete_ne.
  - destruct (q_active q !! id0) eqn:E; [|done]. simpl. destruct (decide (id = id0)) as [->|Hne].
    + right; right. by rewrite lookup_insert_eq.
    + by rewrite lookup_insert_ne.
  - unfold move_due_delayed_script. destruct (move_jobs _ _ _) as [z ready] eqn:E. simpl.
    pose proof (move_jobs_ready (q_delayed q) (q_ready q) (ZRANGEBYSCORE (q_delayed q) max limit)) as Hr.
    pose proof (move_jobs_rest (q_delayed q) (q_ready q) (ZRANGEBYSCORE (q_delayed q) max limit) id) as Hz.
    rewrite E in Hr, Hz. simpl in *. rewrite Hr, Hz, elem_of_app, elem_of_reverse.
    case_bool_decide; tauto.
  - unfold recover_stale_active_script. destruct (move_jobs _ _ _) as [z ready] eqn:E. simpl.
    pose proof (move_jobs_ready (q_active q) (q_ready q) (ZRANGEBYSCORE (q_active q) cutoff limit)) as Hr.
    pose proof (move_jobs_rest (q_active q) (q_ready q) (ZRANGEBYSCORE (q_active q) cutoff limit) id) as Hz.
    rewrite E in Hr, Hz. simpl in *. rewrite Hr, Hz, elem_of_app, elem_of_reverse.
    case_bool_decide; tauto.
  - unfold set_lock_nx. by destruct (lock_holder _ _ _).
  - unfold release_lock_script. by destruct (holds_lock _ _ _ _).
  - unfold refresh_lock_script. by destruct (holds_lock _ _ _ _).
Qed.

(** The mark of a job is set only by the script that queues it. *)
Lemma exec_marks now c q id :
  marked id (fst (exec now c q)) → marked id q ∨ queued id (fst (exec now c q)).
Proof.
  unfold marked, queued. destruct c; simpl; try tauto.
  - unfold enqueue_script. destruct (ttl <=? 0); [tauto|].
    destruct (q_inflight q !! id0) eqn:E; [destruct (key_alive _ _); [tauto|]|]; simpl;
      (destruct (decide (id = id0)) as [->|Hne];
       [intros _; right; left; left|rewrite lookup_insert_ne by done; tauto]).
  - unfold reserve_script. destruct (last _); simpl; tauto.
  - destruct score; simpl; tauto.
  - destruct (decide (id = id0)) as [->|Hne]; [|rewrite lookup_delete_ne by done; tauto].
    rewrite lookup_delete_eq. by intros [].
  - destruct (q_active q !! id0); simpl; tauto.
  - unfold move_due_delayed_script. destruct (move_jobs _ _ _). simpl. tauto.
  - unfold recover_stale_active_script. destruct (move_jobs _ _ _). simpl. tauto.
  - unfold set_lock_nx. destruct (lock_holder _ _ _); simpl; tauto.
  - unfold release_lock_script. destruct (holds_lock _ _ _ _); simpl; tauto.
  - unfold refresh_lock_script. destruct (holds_lock _ _ _ _); simpl; tauto.
Qed.

(** [Process] has answered that the job is at its end. *)
Definition finished (id : string) (s : QState) : Prop :=
  ∃ r, (id, Some r) ∈ calls s ∧ Terminal r = true.
Definition tracked (id : string) (s : QState) : Prop := queued id (queue s) ∨ finished id s.

(** Every id that is marked is queued, so that refusing to queue it again is
    right. *)
Definition well_marked (s : QState) : Prop :=
  ∀ id, IsValidBatchImageID id = true → marked id (queue s) → tracked id s.

Definition qstep (s s' : QState) : Prop :=
  calls s ⊆ calls s' ∧
  (∀ id, IsValidBatchImageID id = true → tracked id s → tracked id s') ∧
  (∀ id, IsValidBatchImageID id = true → marked id (queue s') → marked id (queue s) ∨ tracked id s').

Definition qtriple {A} (P : QState → Prop) (p : qproc A) (Q : A → QState → Prop) : Prop :=
  safe qstep (λ s, well_marked s ∧ P s) p (λ a s, well_marked s ∧ Q a s).

Lemma qstep_refl s : qstep s s.
Proof. split_and!; [done|done|tauto]. Qed.
Lemma well_marked_stable : stable qstep well_marked.
Proof. intros s s' Hw (_ & Ht & Hm) id Hv Hid. destruct (Hm id Hv Hid); [|done]. auto. Qed.
Lemma call_finished_stable id : stable qstep (finished id).
Proof. intros s s' (r & Hr & Ht) (Hc & _). exists r. split; [|done]. by apply Hc. Qed.
Lemma tracked_stable id : IsValidBatchImageID id = true → stable qstep (tracked id).
Proof. intros Hv s s' Hs (_ & Ht & _). auto. Qed.

Lemma qstep_exec now c s :
  (∀ id, IsValidBatchImageID id = true → removes id c → finished id s) →
  qstep s (set_queue (fst (exec now c (queue s))) s).
Proof.
  intros Hc. split_and!; [done| |].
  - intros id Hv [Hq|Hf]; [|by right].
    assert (removes id c ∨ ¬ removes id c) as [Hr|Hr].
    { unfold removes. destruct c; try (right; intros []; congruence);
        (destruct (decide (id = id0)) as [->|]; [auto|right; intros []; congruence]). }
    + right. by apply (Hc id Hv Hr).
    + left. by apply exec_keeps.
  - intros id Hv Hm. apply exec_marks in Hm as [Hm|Hm]; [by left|right; by left].
Qed.

(** A command, by what it does when it takes effect. *)
Lemma qtriple_cmd (P : QState → Prop) c (M : option reply → QState → Prop) :
  (∀ s id, P s → IsValidBatchImageID id = true → removes id c → finished id s) →
  (∀ now s, P s → well_marked s →
     M None s ∧ let w := exec now c (queue s) in
                M None (set_queue (fst w) s) ∧ (snd w ≠ RError → M (Some (snd w)) (set_queue (fst w) s))) →
  (∀ b, stable qstep (M b)) → qtriple P (qcmd c) M.
Proof.
  intros Hr HM Hst. apply safe_act.
  - intros o s [Hw HP]. destruct (HM (q_redis o) s HP Hw) as (H1 & H2 & H3).
    pose proof (qstep_exec (q_redis o) c s (λ id, Hr s id HP)) as Hs.
    destruct (exec (q_redis o) c (queue s)) as [q r]. simpl in *.
    assert (well_marked (set_queue q s)) by (by eapply well_marked_stable).
    pose proof (qstep_refl s).
    destruct (q_fate o), r; simpl; (split; [done|]); (split; [done|]); auto.
  - intros b. by apply stable_and; [apply well_marked_stable|].
Qed.

Lemma qtriple_ask {B} (P : QState → Prop) (f : QOracle → B) :
  stable qstep P → qtriple P (qask f) (λ _, P).
Proof.
  intros HP. apply safe_act; [intros o s Hs; split; [apply qstep_refl|done]|].
  intros b. by apply stable_and; [apply well_marked_stable|].
Qed.
Lemma qtriple_ret {A} (P : QState → Prop) (a : A) Q :
  (∀ s, P s → Q a s) → qtriple P (Ret a) Q.
Proof. intros HQ s [Hw HP]. auto. Qed.
Lemma qtriple_bind {A B} (P : QState → Prop) (p : qproc A) (k : A → qproc B) Q Q' :
  qtriple P p Q → (∀ a, qtriple (Q a) (k a) Q') → qtriple P (proc_bind p k) Q'.
Proof. intros Hp Hk. by eapply safe_bind. Qed.
Lemma qtriple_weaken {A} (P P' : QState → Prop) (p : qproc A) (Q Q' : A → QState → Prop) :
  qtriple P p Q → (∀ s, P' s → P s) → (∀ a s, Q a s → Q' a s) → qtriple P' p Q'.
Proof.
  intros Hp HP HQ. eapply safe_weaken; [exact Hp| |].
  - intros s [? ?]. auto.
  - intros a s [? ?]. auto.
Qed.

(** A command that takes nothing off the queue. *)
Lemma qtriple_harmless (P : QState → Prop) c :
  stable qstep P → (∀ id, IsValidBatchImageID id = true → ¬ removes id c) →
  (∀ s now, P s → P (set_queue (fst (exec now c (queue s))) s)) → qtriple P (qcmd c) (λ _, P).
Proof. intros HP Hc Hq. apply qtriple_cmd; [by intros s id _ Hv Hr; destruct (Hc id Hv)|naive_solver|done]. Qed.

(** ** The processes *)

Section Processes.
Context (inflightTTL lockTTL : duration) (opts : BatchImageWorkerOptions).

(** What is known of the answers of [Process] only, and no step undoes. *)
Definition of_calls (P : QState → Prop) : Prop := stable qstep P ∧ ∀ q s, P s → P (set_queue q s).
Lemma of_calls_any : of_calls (λ _, True).
Proof. by split. Qed.
Lemma of_calls_finished id : of_calls (finished id).
Proof. split; [apply call_finished_stable|done]. Qed.
Hint Resolve of_calls_any of_calls_finished : core.

Lemma keep_ask {B} P (f : QOracle → B) : of_calls P → qtriple P (qask f) (λ _, P).
Proof. intros [HP _]. by apply qtriple_ask. Qed.
Lemma keep_ret {A} P (a : A) : qtriple P (Ret a) (λ _, P).
Proof. by apply qtriple_ret. Qed.
Lemma keep_cmd P c :
  of_calls P → (∀ id, IsValidBatchImageID id = true → ¬ removes id c) → qtriple P (qcmd c) (λ _, P).
Proof. intros [HP Hq] Hc. apply qtriple_harmless; [done|done|]. intros s now. apply Hq. Qed.

(** Closes or splits a triple whose condition is about calls only. *)
Ltac keep :=
  match goal with
  | |- qtriple _ (Ret _) _ => apply keep_ret
  | |- qtriple _ (proc_bind _ _) _ => eapply qtriple_bind; [keep|intros ?; keep]
  | |- qtriple _ (qask _) _ => by apply keep_ask
  | |- qtriple _ (qcmd _) _ => apply keep_cmd; [done|unfold removes; by intros ? ? []]
  | |- qtriple _ (if ?b then _ else _) _ => destruct b; keep
  | |- qtriple _ (match ?x with _ => _ end) _ => destruct x; keep
  | |- _ => done
  end.

Lemma triple_Enqueue id :
  qtriple (λ _, True) (Enqueue inflightTTL id)
    (λ a s, (a = Ok () ∨ a = Err EBatchImageAlreadyQueued) → tracked id s).
Proof.
  unfold Enqueue. destruct (IsValidBatchImageID id) eqn:Hv; [|apply qtriple_ret; by intros s _ [|]].
  cbn [negb]. eapply qtriple_bind.
  - apply (qtriple_cmd _ _ (λ r s, r ≠ None → tracked id s)).
    + by intros s i _ _ [|].
    + intros now s _ Hw. split; [done|]. simpl. unfold enqueue_script.
      destruct (_ <=? 0); [done|].
      destruct (q_inflight (queue s) !! id) as [e|] eqn:He; [destruct (key_alive now e)|]; simpl;
        (split; [done|]); intros _ _; [|left; left; simpl; left..].
      apply Hw; [done|]. unfold marked. by rewrite He.
    + intros r. apply stable_impl. intros _. by apply tracked_stable.
  - intros [r|]; apply qtriple_ret; [by auto|by intros s _ [|]].
Qed.

Lemma keep_reserveOnce : qtriple (λ _, True) reserveOnce
  (λ a _, ∀ id, a = Ok id → IsValidBatchImageID id = true).
Proof.
  unfold reserveOnce. eapply qtriple_bind; [keep|intros t].
  eapply qtriple_bind; [keep|intros [[| |n|id]|]]; try (apply qtriple_ret; naive_solver).
  destruct (IsValidBatchImageID id) eqn:Hv; [apply qtriple_ret; naive_solver|].
  destruct (String.eqb id ""); [apply qtriple_ret; naive_solver|].
  eapply qtriple_bind; [|intros ?; apply qtriple_ret; naive_solver].
  apply keep_cmd; [done|]. intros i Hi [?|[= ->]]; congruence.
Qed.

Lemma keep_Reserve polls block : qtriple (λ _, True) (Reserve polls block)
  (λ a _, ∀ id, a = Ok id → IsValidBatchImageID id = true).
Proof.
  unfold Reserve. eapply qtriple_bind; [keep|intros t].
  generalize (time_Add t block). intros deadline.
  induction polls as [|n IH]; (eapply qtriple_bind; [apply keep_reserveOnce|]);
    (intros [id|[]]; try (apply qtriple_ret; naive_solver));
    (eapply qtriple_bind; [eapply qtriple_weaken; [apply (keep_ask (λ _, True) q_now)|..]; done|intros u]);
    (destruct (_ <=? 0); [apply qtriple_ret; naive_solver|]).
  - apply qtriple_ret; naive_solver.
  - exact IH.
Qed.

Lemma keep_RequeueAfter P id d : of_calls P → qtriple P (queue_RequeueAfter id d) (λ _, P).
Proof. intros HP. unfold queue_RequeueAfter. keep. Qed.

Lemma triple_Ack id :
  IsValidBatchImageID id = true → qtriple (finished id) (Ack id) (λ _ _, True).
Proof.
  intros Hv. unfold Ack. rewrite Hv. cbn [negb]. eapply qtriple_bind.
  - apply (qtriple_cmd _ _ (λ _ _, True)); [|done|done]. by intros s i Hf _ [[= ->]|].
  - intros ?. by apply qtriple_ret.
Qed.

Lemma keep_heartbeat P n id token :
  of_calls P → qtriple P (runJobHeartbeat opts n id token) (λ _, P).
Proof.
  intros HP. induction n as [|n IH]; [apply keep_ret|]. simpl. unfold Heartbeat, lock_Refresh.
  eapply qtriple_bind; [keep|intros ?]. eapply qtriple_bind; [keep|intros ?]. exact IH.
Qed.

Lemma keep_TryAcquire id ttl : qtriple (λ _, True) (TryAcquireJobLock lockTTL id ttl) (λ _ _, True).
Proof. unfold TryAcquireJobLock. cbv zeta. keep. Qed.

Lemma triple_process id :
  qtriple (λ _, True) (process id) (λ a s, ∀ r, a = Some r → Terminal r = true → finished id s).
Proof.
  apply safe_act.
  - intros o s [Hw _]. simpl.
    assert (calls s ⊆ (id, q_processed o) :: calls s) as Hc by (intros x Hx; by right).
    assert (qstep s {| queue := queue s; calls := (id, q_processed o) :: calls s |}) as Hs.
    { split_and!; [done| |by left]. intros i _ [Hq|(r & Hr & Ht)]; [by left|]. right. exists r. auto. }
    split; [done|]. split; [by eapply well_marked_stable|].
    intros r Hr Ht. exists r. split; [rewrite Hr; simpl; left|done].
  - intros a. apply stable_and; [apply well_marked_stable|].
    intros s s' Hf Hs r Hr Ht. by eapply call_finished_stable; [eapply Hf|].
Qed.

Lemma triple_settle_reserved id result :
  IsValidBatchImageID id = true →
  qtriple (λ s, ∀ r, result = Some r → Terminal r = true → finished id s)
    (settle_reserved opts id result) (λ _ _, True).
Proof.
  intros Hv. unfold settle_reserved. destruct result as [r|].
  - destruct (Terminal r) eqn:Ht.
    + eapply qtriple_weaken; [by apply triple_Ack|naive_solver|done].
    + eapply qtriple_weaken; [by apply (keep_RequeueAfter (λ _, True))|done|done].
  - eapply qtriple_weaken; [by apply (keep_RequeueAfter (λ _, True))|done|done].
Qed.

Lemma keep_process_locked p id token :
  IsValidBatchImageID id = true →
  qtriple (λ _, True) (process_locked opts p id token) (λ _ _, True).
Proof.
  intros Hv. unfold process_locked. eapply qtriple_bind; [by apply keep_heartbeat|intros ?].
  eapply qtriple_bind; [apply triple_process|intros result].
  eapply qtriple_bind.
  { apply (keep_heartbeat (λ s, ∀ r, result = Some r → Terminal r = true → finished id s)). split.
    - intros s s' Hf Hs r Hr Ht. by eapply call_finished_stable; [eapply Hf|].
    - intros q s Hf r Hr Ht. exact (Hf r Hr Ht). }
  intros ?. eapply qtriple_bind; [by apply triple_settle_reserved|intros ?].
  unfold lock_Release. eapply qtriple_bind; [keep|intros ?]. by apply qtriple_ret.
Qed.

Lemma keep_RunOnce p : qtriple (λ _, True) (RunOnce lockTTL opts p) (λ _ _, True).
Proof.
  unfold RunOnce. eapply qtriple_bind; [apply keep_Reserve|].
  intros [id|e]; [|destruct e; by apply qtriple_ret].
  eapply (qtriple_weaken (λ _, True)); [|done|done].
  destruct (IsValidBatchImageID id) eqn:Hv.
  - eapply qtriple_bind; [apply keep_TryAcquire|]. intros [[token|]|e].
    + by apply keep_process_locked.
    + by apply keep_RequeueAfter.
    + eapply qtriple_bind; [by apply keep_RequeueAfter|]. intros ?. by apply qtriple_ret.
  - unfold TryAcquireJobLock, queue_RequeueAfter. rewrite Hv. by apply qtriple_ret.
Qed.

Lemma keep_worker_Run rounds : qtriple (λ _, True) (worker_Run lockTTL opts rounds) (λ _ _, True).
Proof.
  induction rounds as [|p rounds IH]; [by apply qtriple_ret|].
  eapply qtriple_bind; [apply keep_RunOnce|]. intros ?. exact IH.
Qed.
Lemma keep_move limit : qtriple (λ _, True) (MoveDueDelayedToReady limit) (λ _ _, True).
Proof. unfold MoveDueDelayedToReady. cbv zeta. keep. Qed.
Lemma keep_recover d limit : qtriple (λ _, True) (RecoverStaleActive d limit) (λ _ _, True).
Proof. unfold RecoverStaleActive. cbv zeta. keep. Qed.
Lemma keep_Mover n : qtriple (λ _, True) (RunDelayedMover opts n) (λ _ _, True).
Proof.
  induction n as [|n IH]; [by apply qtriple_ret|].
  eapply qtriple_bind; [apply keep_move|]. intros ?. exact IH.
Qed.
Lemma keep_Recovery n : qtriple (λ _, True) (RunStaleActiveRecovery opts n) (λ _ _, True).
Proof.
  induction n as [|n IH]; [by apply qtriple_ret|].
  eapply qtriple_bind; [apply keep_recover|]. intros ?. exact IH.
Qed.

(** ** All together *)

Inductive qrequest :=
| WorkerLoop (rounds : list Pace)
| MoverLoop (rounds : nat)
| RecoveryLoop (rounds : nat)
| Enqueueing (id : string)
| EnqueueingJob (id : string).

Definition then_ok {A} (p : qproc A) : qproc (res QErr unit) := _ <-p p; Ret (Ok ()).
Definition qserve (q : qrequest) : qproc (res QErr unit) :=
  match q with
  | WorkerLoop rounds => then_ok (worker_Run lockTTL opts rounds)
  | MoverLoop n => then_ok (RunDelayedMover opts n)
  | RecoveryLoop n => then_ok (RunStaleActiveRecovery opts n)
  | Enqueueing id => Enqueue inflightTTL id
  | EnqueueingJob id => EnqueueBatchImageJob inflightTTL id
  end.

(** The id that a request has put on the queue, when it answers [a]. *)
Definition accepted (q : qrequest) (a : res QErr unit) (id : string) : Prop :=
  (q = Enqueueing id ∨ q = EnqueueingJob id) ∧ (a = Ok () ∨ a = Err EBatchImageAlreadyQueued).

Definition qserved (q : qrequest) (a : res QErr unit) (s : QState) : Prop :=
  ∀ id, accepted q a id → IsValidBatchImageID id = true → tracked id s.

Lemma qserved_stable q a : stable qstep (qserved q a).
Proof. intros s s' Hq Hs id Ha Hv. eapply tracked_stable; eauto. Qed.

Lemma triple_qserve q : qtriple (λ _, True) (qserve q) (qserved q).
Proof.
  assert (∀ A (p : qproc A), qtriple (λ _, True) p (λ _ _, True) →
    (∀ id, q ≠ Enqueueing id ∧ q ≠ EnqueueingJob id) → qtriple (λ _, True) (then_ok p) (qserved q)) as Hloop.
  { intros A p Hp Hq. eapply qtriple_bind; [exact Hp|]. intros ?. apply qtriple_ret.
    intros s _ id [Hid _]. destruct (Hq id). tauto. }
  assert (∀ id a s, ((a = Ok () ∨ a = Err EBatchImageAlreadyQueued) → tracked id s) →
    qserved (Enqueueing id) a s ∧ qserved (EnqueueingJob id) a s) as Hid.
  { intros id a s Ht. split; intros i [[Hi|Hi] Ha] _; simplify_eq; auto. }
  destruct q; simpl.
  - by apply Hloop; [apply keep_worker_Run|].
  - by apply Hloop; [apply keep_Mover|].
  - by apply Hloop; [apply keep_Recovery|].
  - eapply qtriple_weaken; [apply triple_Enqueue|done|]. intros a s Ha. by apply Hid.
  - eapply (qtriple_weaken (λ _, True)); [|done|intros a s Ha; by apply (Hid id a s Ha)].
    unfold EnqueueBatchImageJob. destruct (IsValidBatchImageID id); [|apply qtriple_ret; by intros s _ [|]].
    cbn [negb]. eapply qtriple_bind; [by apply (keep_ask (λ _, True))|].
    intros [[]|]; [apply triple_Enqueue|apply qtriple_ret; by intros s _ [|]..].
Qed.

(** C36: In any run of workers, movers, recoveries and enqueuings on one Redis,
    whatever the interleaving, whatever commands fail or lose their answer and
    whatever processes stop in the middle: a job that was on the queue, or whose
    enqueuing was answered with success or with "already queued", is ready,
    delayed or active in Redis, unless [Process] has answered that it is at its
    end. *)
Theorem no_job_lost reqs s0 sched s ps id :
  well_marked s0 → IsValidBatchImageID id = true → run sched (s0, qserve <$> reqs) = (s, ps) →
  (tracked id s0 ∨ ∃ i q a, reqs !! i = Some q ∧ ps !! i = Some (Ret a) ∧ accepted q a id) →
  tracked id s.
Proof.
  intros Hw Hv Hrun Hin.
  set (Q := λ i a s, well_marked s ∧ ∀ q, reqs !! i = Some q → qserved q a s).
  pose proof (run_safe qstep Q sched s0 (qserve <$> reqs) qstep_refl) as Hsafe. rewrite Hrun in Hsafe.
  destruct Hsafe as [Hsteps Hend].
  - intros i a. apply stable_and; [apply well_marked_stable|].
    intros s1 s2 Hq Hs q Hi. by eapply qserved_stable; [apply Hq|].
  - intros i p. rewrite list_lookup_fmap. destruct (reqs !! i) as [q|] eqn:Hi; [|done]. intros [= <-].
    exists (λ s, well_marked s ∧ True). split_and!; [apply stable_and; [apply well_marked_stable|done]|done|done|].
    eapply safe_weaken; [apply (triple_qserve q)|done|]. intros a s1 [? ?]. split; [done|]. intros q' Hq'. by simplify_eq.
  - destruct Hin as [Ht|(i & q & a & Hi & Ha & Hacc)].
    + eapply stable_rtc; [by apply tracked_stable|done|done].
    + destruct (Hend _ _ Ha) as (P & _ & HP & Hret). by eapply (proj2 (Hret s HP)).
Qed.
End Processes.

(** ** Every queued job is reserved *)

(** The state after the commands, each with Redis' clock, and what the
    reservations among them answered. *)
Fixpoint exec_all (cmds : list (Z * command)) (q : Queue) : Queue :=
  match cmds with
  | [] => q
  | (now, c) :: cmds => exec_all cmds (fst (exec now c q))
  end.
Definition reservation (c : command) (r : reply) : list string :=
  match c, r with ReserveScript _, RStr id => [id] | _, _ => [] end.
Fixpoint reserved (cmds : list (Z * command)) (q : Queue) : list string :=
  match cmds with
  | [] => []
  | (now, c) :: cmds => reservation c (snd (exec now c q)) ++ reserved cmds (fst (exec now c q))
  end.
Definition is_reserve (c : command) : bool := match c with ReserveScript _ => true | _ => false end.
Definition reservations (cmds : list (Z * command)) : nat :=
  length (List.filter (λ m, is_reserve (snd m)) cmds).

Lemma reserved_app cs cs' q : reserved (cs ++ cs') q = reserved cs q ++ reserved cs' (exec_all cs q).
Proof.
  revert q. induction cs as [|[now c] cs IH]; intros q; [done|]. simpl. by rewrite IH, (assoc_L (++)).
Qed.

Lemma moved_ready z ready max limit :
  snd (move_jobs z ready (ZRANGEBYSCORE z max limit)) = reverse (ZRANGEBYSCORE z max limit) ++ ready.
Proof. apply move_jobs_ready. Qed.

(** Only a reservation takes jobs from the ready list; the others push. *)
Lemma exec_pushes now c q :
  is_reserve c = false → ∃ l, q_ready (fst (exec now c q)) = l ++ q_ready q.
Proof.
  intros Hc. destruct c; try discriminate Hc; simpl.
  - unfold enqueue_script. destruct (ttl <=? 0); [by exists []|].
    destruct (q_inflight q !! id); [destruct (key_alive _ _)|]; simpl; [by exists []|by exists [id]..].
  - by exists [].
  - destruct score; [by exists []|by exists [id]].
  - by exists [].
  - exists []. by destruct (q_active q !! id).
  - pose proof (moved_ready (q_delayed q) (q_ready q) max limit) as Hm.
    unfold move_due_delayed_script. destruct (move_jobs _ _ _) as [z ready]. simpl in *. eauto.
  - pose proof (moved_ready (q_active q) (q_ready q) cutoff limit) as Hm.
    unfold recover_stale_active_script. destruct (move_jobs _ _ _) as [z ready]. simpl in *. eauto.
  - exists []. unfold set_lock_nx. by destruct (lock_holder _ _ _).
  - exists []. unfold release_lock_script. by destruct (holds_lock _ _ _ _).
  - exists []. unfold refresh_lock_script. by destruct (holds_lock _ _ _ _).
Qed.

(** First in, first out: a job with [r] to its right waits for that many reservations. *)
Lemma ready_in_turn cmds q l id r :
  q_ready q = l ++ id :: r → (length r < reservations cmds)%nat → id ∈ reserved cmds q.
Proof.
  revert q l r. induction cmds as [|[now c] cmds IH]; intros q l r Hq Hn;
    [unfold reservations in Hn; simpl in Hn; lia|].
  change (reservations ((now, c) :: cmds)) with
    (length (if is_reserve c then (now, c) :: List.filter (λ m, is_reserve (snd m)) cmds
             else List.filter (λ m, is_reserve (snd m)) cmds)) in Hn.
  simpl. destruct (is_reserve c) eqn:Hc.
  - destruct c; try discriminate Hc. simpl. unfold reserve_script.
    destruct r as [|x r _] using rev_ind.
    + rewrite Hq, last_snoc. simpl. left.
    + rewrite Hq, app_comm_cons, (assoc_L (++)), last_snoc, removelast_last. simpl. right.
      eapply (IH _ l r); [done|]. rewrite length_app in Hn. unfold reservations. simpl in Hn. lia.
  - apply elem_of_app. right. destruct (exec_pushes now c q Hc) as [l' Hl'].
    eapply (IH _ (l' ++ l) r); [|exact Hn]. by rewrite Hl', Hq, (assoc_L (++)).
Qed.

(** *** The movers *)

Lemma due_elem z max id :
  id ∈ fst <$> merge_sort by_score (List.filter (λ p, snd p <=? max) (map_to_list z)) ↔
  ∃ s, z !! id = Some s ∧ s ≤ max.
Proof.
  rewrite list_elem_of_fmap. split.
  - intros ([i s] & -> & Hp). rewrite merge_sort_Permutation in Hp.
    apply list_elem_of_In, filter_In in Hp as [Hp Hs]. apply list_elem_of_In, elem_of_map_to_list in Hp.
    exists s. split; [done|]. simpl in Hs. lia.
  - intros (s & Hs & Hm). exists (id, s). split; [done|]. rewrite merge_sort_Permutation.
    apply list_elem_of_In, filter_In. split; [by apply list_elem_of_In, elem_of_map_to_list|]. simpl. lia.
Qed.
Lemma range_NoDup z max limit : NoDup (ZRANGEBYSCORE z max limit).
Proof.
  unfold ZRANGEBYSCORE. eapply sublist_NoDup; [|apply sublist_take].
  rewrite merge_sort_Permutation.
  generalize (NoDup_fst_map_to_list z). induction (map_to_list z) as [|[i s] l IH]; [done|].
  rewrite fmap_cons, NoDup_cons. simpl. intros [Hi Hl]. destruct (s <=? max); [|by apply IH].
  apply NoDup_cons. split; [|by apply IH]. intros Hin. apply Hi.
  apply list_elem_of_fmap in Hin as (p & Hip & Hp). apply list_elem_of_In, filter_In in Hp as [Hp _].
  apply list_elem_of_fmap. exists p. split; [exact Hip|]. by apply list_elem_of_In.
Qed.
Lemma range_in z max limit id : id ∈ ZRANGEBYSCORE z max limit → is_Some (z !! id).
Proof.
  intros Hi. unfold ZRANGEBYSCORE in Hi. apply elem_of_take in Hi as (i & Hi & _).
  apply list_elem_of_lookup_2, due_elem in Hi as (s & Hs & _). eauto.
Qed.
(** A due job is among those taken, or as many as allowed were. *)
Lemma range_full z max limit id s :
  z !! id = Some s → s ≤ max →
  id ∈ ZRANGEBYSCORE z max limit ∨ length (ZRANGEBYSCORE z max limit) = Z.to_nat limit.
Proof.
  intros Hz Hs. unfold ZRANGEBYSCORE.
  assert (id ∈ fst <$> merge_sort by_score (List.filter (λ p, snd p <=? max) (map_to_list z))) as Hid
    by (apply due_elem; eauto).
  revert Hid. generalize (fst <$> merge_sort by_score (List.filter (λ p, snd p <=? max) (map_to_list z))).
  intros l Hid. destruct (decide (length l ≤ Z.to_nat limit)%nat).
  - left. by rewrite take_ge.
  - right. rewrite length_take. lia.
Qed.

Lemma move_jobs_size z ready jobs :
  NoDup jobs → (∀ id, id ∈ jobs → is_Some (z !! id)) →
  (size (fst (move_jobs z ready jobs)) + length jobs = size z)%nat.
Proof.
  revert z ready. induction jobs as [|j jobs IH]; intros z ready Hn Hin; [simpl; lia|].
  rewrite move_jobs_cons. apply NoDup_cons in Hn as [Hj Hn].
  assert (is_Some (z !! j)) as Hs by (apply Hin; by left).
  pose proof (map_size_delete_Some _ _ Hs) as Hd.
  assert (size z ≠ 0%nat) by (intros Hz%map_size_empty_inv; rewrite Hz, lookup_empty in Hs; by destruct Hs).
  simpl. rewrite <-plus_n_Sm, IH; [lia|done|].
  intros id Hid. rewrite lookup_delete_ne by (intros ->; done). apply Hin. by right.
Qed.

(** One moving script, and [m] of them. *)
Definition move_round (max limit : Z) (s : gmap string Z * list string) : gmap string Z * list string :=
  move_jobs (fst s) (snd s) (ZRANGEBYSCORE (fst s) max limit).
Definition pending (s : gmap string Z * list string) : nat := (size (fst s) + length (snd s))%nat.

Lemma round_pending max limit s : pending (move_round max limit s) = pending s.
Proof.
  unfold pending, move_round. rewrite moved_ready, length_app, length_reverse.
  pose proof (move_jobs_size (fst s) (snd s) _ (range_NoDup (fst s) max limit) (range_in (fst s) max limit)).
  lia.
Qed.
Lemma iter_pending m max limit s : pending (Nat.iter m (move_round max limit) s) = pending s.
Proof. induction m as [|m IH]; [done|]. simpl. by rewrite round_pending. Qed.

Lemma round_ready max limit s id : id ∈ snd s → id ∈ snd (move_round max limit s).
Proof. unfold move_round. rewrite moved_ready, elem_of_app. auto. Qed.

Lemma drained m max limit s id v :
  0 < limit → fst s !! id = Some v → v ≤ max → (size (fst s) ≤ m * Z.to_nat limit)%nat →
  id ∈ snd (Nat.iter m (move_round max limit) s).
Proof.
  intros Hl. revert s. induction m as [|m IH]; intros s Hs Hv Hm.
  { assert (size (fst s) = 0%nat) as Hz%map_size_empty_inv by lia. by rewrite Hz, lookup_empty in Hs. }
  rewrite Nat.iter_succ_r.
  assert (id ∈ snd (move_round max limit s) →
          id ∈ snd (Nat.iter m (move_round max limit) (move_round max limit s))) as Hstay.
  { generalize (move_round max limit s). intros s' Hid. clear IH Hm. induction m as [|m IHm]; [done|].
    simpl. apply round_ready, IHm. }
  destruct (decide (id ∈ ZRANGEBYSCORE (fst s) max limit)) as [Hid|Hid].
  - apply Hstay. unfold move_round. rewrite moved_ready. apply elem_of_app. left. by apply elem_of_reverse.
  - apply IH; [|done|].
    + unfold move_round. by rewrite move_jobs_rest, bool_decide_eq_false_2.
    + destruct (range_full (fst s) max limit id v Hs Hv) as [?|Hfull]; [done|].
      pose proof (move_jobs_size (fst s) (snd s) _ (range_NoDup (fst s) max limit) (range_in (fst s) max limit)).
      unfold move_round. lia.
Qed.

Lemma exec_due now t limit q :
  let s := move_round t limit (q_delayed q, q_ready q) in
  fst (exec now (MoveDueDelayedScript t limit) q) = with_delayed (fst s) (with_ready (snd s) q).
Proof. simpl. unfold move_due_delayed_script, move_round. simpl. by destruct (move_jobs _ _ _). Qed.
Lemma exec_stale now t limit q :
  let s := move_round t limit (q_active q, q_ready q) in
  fst (exec now (RecoverStaleActiveScript t limit) q) = with_active (fst s) (with_ready (snd s) q).
Proof. simpl. unfold recover_stale_active_script, move_round. simpl. by destruct (move_jobs _ _ _). Qed.

Lemma iter_due now t limit m q :
  let s := Nat.iter m (move_round t limit) (q_delayed q, q_ready q) in
  exec_all (repeat (now, MoveDueDelayedScript t limit) m) q = with_delayed (fst s) (with_ready (snd s) q).
Proof.
  revert q. induction m as [|m IH]; intros q; [by destruct q|]. rewrite Nat.iter_succ_r.
  change (exec_all (repeat (now, MoveDueDelayedScript t limit) (S m)) q) with
    (exec_all (repeat (now, MoveDueDelayedScript t limit) m) (fst (exec now (MoveDueDelayedScript t limit) q))).
  rewrite exec_due, IH. by destruct (move_round t limit _).
Qed.
Lemma iter_stale now t limit m q :
  let s := Nat.iter m (move_round t limit) (q_active q, q_ready q) in
  exec_all (repeat (now, RecoverStaleActiveScript t limit) m) q = with_active (fst s) (with_ready (snd s) q).
Proof.
  revert q. induction m as [|m IH]; intros q; [by destruct q|]. rewrite Nat.iter_succ_r.
  change (exec_all (repeat (now, RecoverStaleActiveScript t limit) (S m)) q) with
    (exec_all (repeat (now, RecoverStaleActiveScript t limit) m) (fst (exec now (RecoverStaleActiveScript t limit) q))).
  rewrite exec_stale, IH. by destruct (move_round t limit _).
Qed.

(** How many places of the queue are taken. *)
Definition waiting (q : Queue) : nat := (length (q_ready q) + size (q_delayed q) + size (q_active q))%nat.

(** After the movers have run, a job that is due is ready. *)
Lemma all_moved now t cutoff limit m q id :
  let q' := exec_all (repeat (now, RecoverStaleActiveScript cutoff limit) m)
              (exec_all (repeat (now, MoveDueDelayedScript t limit) m) q) in
  queued id q → 0 < limit → (waiting q ≤ m * Z.to_nat limit)%nat →
  (∀ s, q_delayed q !! id = Some s → s ≤ t) → (∀ s, q_active q !! id = Some s → s ≤ cutoff) →
  id ∈ q_ready q' ∧ (length (q_ready q') ≤ waiting q)%nat.
Proof.
  intros q' Hq Hl Hm Hd Ha. subst q'. rewrite iter_due, iter_stale.
  set (s1 := Nat.iter m (move_round t limit) (q_delayed q, q_ready q)).
  set (s2 := Nat.iter m (move_round cutoff limit) (q_active q, snd s1)). simpl.
  change (snd (Nat.iter m (move_round cutoff limit) (q_active q, snd s1))) with (snd s2).
  assert (pending s1 = size (q_delayed q) + length (q_ready q))%nat as H1 by apply iter_pending.
  assert (pending s2 = size (q_active q) + length (snd s1))%nat as H2 by apply iter_pending.
  unfold waiting, pending in *. split; [|lia].
  assert (∀ max l s, id ∈ snd s → id ∈ snd (Nat.iter l (move_round max limit) s)) as Hstay.
  { intros max l s Hs. induction l as [|l IH]; [done|]. by apply round_ready. }
  destruct Hq as [Hq|[[v Hq]|[v Hq]]].
  - by apply Hstay, Hstay.
  - apply Hstay. eapply drained; [done|exact Hq|by apply Hd|simpl; lia].
  - eapply drained; [done|exact Hq|by apply Ha|simpl; lia].
Qed.

(** C37: No queued job waits for ever: once the movers have run over a queue on
    which a job is ready, or delayed and due, or active and stale, that job is
    reserved by the time as many reservations have been made as the queue held
    jobs, whatever else is enqueued, requeued, acknowledged or moved between
    them. *)
Theorem queued_job_is_reserved q id now t cutoff limit m cmds :
  queued id q → 0 < limit → (waiting q ≤ m * Z.to_nat limit)%nat →
  (∀ s, q_delayed q !! id = Some s → s ≤ t) → (∀ s, q_active q !! id = Some s → s ≤ cutoff) →
  (waiting q ≤ reservations cmds)%nat →
  id ∈ reserved (repeat (now, MoveDueDelayedScript t limit) m
                 ++ repeat (now, RecoverStaleActiveScript cutoff limit) m ++ cmds) q.
Proof.
  intros Hq Hl Hm Hd Ha Hn. rewrite !reserved_app, !elem_of_app. right. right.
  destruct (all_moved now t cutoff limit m q id Hq Hl Hm Hd Ha) as [Hid Hlen].
  apply list_elem_of_split in Hid as (l & r & Hready). eapply ready_in_turn; [exact Hready|].
  rewrite Hready, length_app in Hlen. simpl in Hlen. lia.
Qed.

(** ** The lock *)

Definition locked_until (id token : string) (t : Z) (q : Queue) : Prop :=
  ∃ e, q_locks q !! id = Some (token, e) ∧ t ≤ e.

(** What the holder must not do, and the interval the commands run in. *)
Definition undisturbed (id token : string) (t0 t1 ttl : Z) (m : Z * command) : Prop :=
  t0 ≤ fst m ≤ t1 ∧ snd m ≠ ReleaseLockScript id token ∧
  ∀ ttl', snd m = RefreshLockScript id token ttl' → ttl ≤ ttl'.

Lemma locked_holder id token t now q :
  locked_until id token t q → now ≤ t → lock_holder now id q = Some token.
Proof.
  intros (e & He & Hte) Hnow. unfold lock_holder, key_alive. rewrite He.
  destruct (Z.leb_spec now e); [done|lia].
Qed.

Lemma locked_exec id token t0 ttl m q :
  0 < ttl → undisturbed id token t0 (t0 + ttl) ttl m → locked_until id token (t0 + ttl) q →
  locked_until id token (t0 + ttl) (fst (exec (fst m) (snd m) q)).
Proof.
  destruct m as [now c]. intros Httl (Ht & Hrel & Href) Hl. simpl in *.
  pose proof (locked_holder _ _ _ now _ Hl) as Hh. assert (now ≤ t0 + ttl) as Hnow by lia.
  specialize (Hh Hnow). destruct Hl as (e & He & Hte).
  destruct c; simpl; try (by exists e).
  - unfold enqueue_script. destruct (_ <=? 0); [by exists e|].
    destruct (q_inflight q !! id0); [destruct (key_alive _ _)|]; by exists e.
  - unfold reserve_script. destruct (last _); by exists e.
  - destruct score; by exists e.
  - destruct (q_active q !! id0); by exists e.
  - unfold move_due_delayed_script. destruct (move_jobs _ _ _). by exists e.
  - unfold recover_stale_active_script. destruct (move_jobs _ _ _). by exists e.
  - unfold set_lock_nx. destruct (lock_holder now id0 q) eqn:Hh0; [by exists e|].
    exists e. simpl. rewrite lookup_insert_ne; [done|]. intros ->. congruence.
  - unfold release_lock_script, holds_lock. case_bool_decide as Hd; [|by exists e].
    exists e. simpl. rewrite lookup_delete_ne; [done|]. intros ->. congruence.
  - unfold refresh_lock_script, holds_lock. case_bool_decide as Hd; [|by exists e]. simpl.
    destruct (decide (id0 = id)) as [->|Hne].
    + assert (token0 = token) as -> by congruence. specialize (Href ttl0 eq_refl).
      destruct (Z.leb_spec ttl0 0); [lia|]. exists (now + ttl0). simpl. rewrite lookup_insert_eq.
      split; [done|lia].
    + exists e. destruct (ttl0 <=? 0); simpl; by rewrite ?lookup_delete_ne, ?lookup_insert_ne.
Qed.

Lemma locked_exec_all id token t0 ttl cmds q :
  0 < ttl → Forall (undisturbed id token t0 (t0 + ttl) ttl) cmds → locked_until id token (t0 + ttl) q →
  locked_until id token (t0 + ttl) (exec_all cmds q).
Proof.
  intros Httl Hc. revert q. induction Hc as [|[now c] cmds Hm Hc IH]; intros q Hl; [done|]. simpl.
  apply IH. by apply (locked_exec _ _ _ _ (now, c)).
Qed.

(** The holder has just taken the lock, or refreshed it. *)
Lemma lock_taken now id token ttl c q :
  0 < ttl → c = SetLockNX id token ttl ∨ c = RefreshLockScript id token ttl →
  snd (exec now c q) = RInt 1 → locked_until id token (now + ttl) (fst (exec now c q)).
Proof.
  intros Httl Hc Hr. exists (now + ttl). revert Hr. destruct Hc as [-> | ->]; simpl.
  - unfold set_lock_nx. destruct (lock_holder now id q); simpl; [done|]. by rewrite lookup_insert_eq.
  - unfold refresh_lock_script. destruct (holds_lock _ _ _ _); simpl; [|done].
    destruct (Z.leb_spec ttl 0); [lia|]. by rewrite lookup_insert_eq.
Qed.

(** Once a worker has taken the lock of a job, or has refreshed it, every
    other attempt to take it is refused for the time to live of the lock, unless
    the worker gives it up; releases and refreshes by workers that lost the lock
    earlier do not disturb it. *)
Theorem lock_exclusive q now id token ttl c cmds now' other ttl' :
  0 < ttl → c = SetLockNX id token ttl ∨ c = RefreshLockScript id token ttl →
  snd (exec now c q) = RInt 1 →
  Forall (undisturbed id token now (now + ttl) ttl) cmds → now ≤ now' ≤ now + ttl →
  exec now' (SetLockNX id other ttl') (exec_all cmds (fst (exec now c q))) =
    (exec_all cmds (fst (exec now c q)), RInt 0).
Proof.
  intros Httl Hc Hr Hcmds Hnow. simpl. unfold set_lock_nx.
  by rewrite (locked_holder id token (now + ttl)); [|apply locked_exec_all; [..|apply lock_taken]|lia].
Qed.

(** ** Concrete runs *)

Module QueueDemo.
Definition empty_queue : Queue :=
  {| q_ready := []; q_delayed := ∅; q_active := ∅; q_inflight := ∅; q_locks := ∅ |}.
Definition nothing_queued : QState := {| queue := empty_queue; calls := [] |}.
Definition demo_options : BatchImageWorkerOptions :=
  normalizeBatchImageWorkerOptions
    {| ReserveBlockTimeout := 0; JobLockTTL := 0; LockConflictDelay := 0; DefaultRequeueDelay := 0;
       ErrorRetryDelay := 0; ErrorBackoff := 0; DelayedPollInterval := 0; RecoveryInterval := 0;
       StaleActiveAfter := 0; DelayedMoveLimit := 0; RecoverLimit := 0 |}.
(** [m] minutes after the start, with the answer [r] of [Process] and the token [k]. *)
Definition at_minute (m : Z) (k : string) (r : option BatchImageProcessResult) : QOracle :=
  {| q_fate := Fine; q_now := UsageBilling.unix_epoch + m * Minute; q_redis := m * 60000; q_processed := r;
     q_found := Some true; q_random := Some k |}.
Definition at_end : option BatchImageProcessResult := Some {| BatchPipeline.RequeueAfter := 0; Terminal := true |}.
Definition qsteps (i n : nat) (o : QOracle) : list (nat * QOracle) := repeat (i, o) n.
Definition one_round : list Pace := [{| polls := 1; ticks := 1; late_ticks := 0 |}].
Definition demo_qrequests : list qrequest :=
  [Enqueueing "imgbatch_a"; WorkerLoop one_round; RecoveryLoop 1; WorkerLoop one_round].
Definition qrun (sched : list (nat * QOracle)) :=
  run sched (nothing_queued, qserve (7 * 24 * Hour) (5 * Minute) demo_options <$> demo_qrequests).

(** The first worker stops while it processes the job; the recovery puts it back
    and the second worker takes it to its end. *)
Definition stopped_worker : list (nat * QOracle) :=
  qsteps 0 2 (at_minute 0 "" None) ++ qsteps 1 5 (at_minute 0 "t" None)
  ++ qsteps 2 2 (at_minute 11 "" None) ++ qsteps 3 20 (at_minute 11 "u" at_end).
Example stopped_worker_run :
  (q_ready (queue (fst (qrun (firstn 7 stopped_worker)))),
   map_to_list (q_active (queue (fst (qrun (firstn 7 stopped_worker))))),
   q_ready (queue (fst (qrun (firstn 9 stopped_worker)))),
   calls (fst (qrun stopped_worker)), queue (fst (qrun stopped_worker))) =
  ([], [("imgbatch_a", 0)], ["imgbatch_a"], [("imgbatch_a", at_end)], empty_queue).
Proof. vm_compute. reflexivity. Qed.

Lemma nothing_marked : well_marked nothing_queued.
Proof. intros id _ [e He]. discriminate He. Qed.

Lemma no_job_lost_witness : tracked "imgbatch_a" (fst (qrun (firstn 9 stopped_worker))).
Proof.
  apply (no_job_lost (7 * 24 * Hour) (5 * Minute) demo_options demo_qrequests nothing_queued
           (firstn 9 stopped_worker) _ (snd (qrun (firstn 9 stopped_worker)))).
  - exact nothing_marked.
  - reflexivity.
  - apply surjective_pairing.
  - right. exists 0%nat, (Enqueueing "imgbatch_a"), (Ok ()).
    split; [reflexivity|]. split; [vm_compute; reflexivity|]. split; [by left|by left].
Defined.

(** Two jobs are ready; a third is delayed, and behind them. *)
Definition three_queued : Queue :=
  {| q_ready := ["imgbatch_b"; "imgbatch_a"]; q_delayed := {["imgbatch_c" := 5]}; q_active := ∅;
     q_inflight := ∅; q_locks := ∅ |}.
Definition later_commands : list (Z * command) :=
  [(9, ReserveScript 9); (9, EnqueueScript "imgbatch_d" 1); (9, ReserveScript 9);
   (9, AckPipeline "imgbatch_a"); (9, ReserveScript 9)].
Lemma queued_job_is_reserved_witness :
  "imgbatch_c" ∈ reserved (repeat (9, MoveDueDelayedScript 9 1) 3
                           ++ repeat (9, RecoverStaleActiveScript 9 1) 3 ++ later_commands) three_queued.
Proof.
  apply queued_job_is_reserved.
  - right. left. exists 5. reflexivity.
  - lia.
  - vm_compute. repeat constructor.
  - intros s Hs. assert (s = 5) as -> by (vm_compute in Hs; congruence). lia.
  - intros s Hs. discriminate Hs.
  - vm_compute. repeat constructor.
Defined.

(** A worker that lost the lock at 5 tries to release and to refresh it, and a
    third to take it, while the second holds it. *)
Lemma lock_exclusive_witness :
  exec 90 (SetLockNX "imgbatch_a" "w" 100)
    (exec_all [(20, ReleaseLockScript "imgbatch_a" "t"); (30, RefreshLockScript "imgbatch_a" "t" 100)]
       (fst (exec 10 (SetLockNX "imgbatch_a" "u" 100)
               (fst (exec 0 (SetLockNX "imgbatch_a" "t" 5) empty_queue))))) =
  (exec_all [(20, ReleaseLockScript "imgbatch_a" "t"); (30, RefreshLockScript "imgbatch_a" "t" 100)]
     (fst (exec 10 (SetLockNX "imgbatch_a" "u" 100)
             (fst (exec 0 (SetLockNX "imgbatch_a" "t" 5) empty_queue)))), RInt 0).
Proof.
  apply (lock_exclusive _ 10 "imgbatch_a" "u" 100 (SetLockNX "imgbatch_a" "u" 100)).
  - lia.
  - by left.
  - vm_compute. reflexivity.
  - repeat constructor; simpl; try lia; try discriminate.
  - lia.
Defined.
End QueueDemo.
