(* ===== verification/ConcurrencySlots.v ===== *)
(** * Concurrency slots

    [src/backend/internal/repository/concurrency_cache.go] (Lua scripts and
    pipelines on one Redis), [service/concurrency_service.go], the part of
    [service/openai_live.go] that takes and keeps leases, and the waiting for a
    slot of [handler/gateway_helper.go].

    A script is one atomic command, and so is every command of a pipeline; each
    may fail, or take effect and lose its answer.  Redis' clock, which all
    scripts read, does not go back.  The world keeps two things that are only
    observed: what every request or lease was last granted, and which of them are
    relied upon: from the answer that grants them to the call that gives them
    back, which a client that disconnects brings forward. *)

From Stdlib Require Import ZArith Lia Ascii String Bool SpecFloat.
From stdpp Require Import base numbers option list gmap strings sorting pretty.
From S2P Require Import Prelude GoStrings GoFloat Proc RedisStore.

#[local] Open Scope Z_scope.

(** ** Keys *)

Definition accountSlotKeyPrefix : string := "concurrency:account:".
Definition userSlotKeyPrefix : string := "concurrency:user:".
Definition apiKeySlotKeyPrefix : string := "concurrency:api_key:".
Definition liveAccountSlotKeyPrefix : string := "concurrency:live:account:".
Definition liveUserSlotKeyPrefix : string := "concurrency:live:user:".
Definition liveAPIKeySlotKeyPrefix : string := "concurrency:live:api_key:".
Definition openAIWSIngressLeaseKeyPrefix : string := "concurrency:openai_ws_ingress:api_key:".
Definition openAIWSIngressLeaseTTLSeconds : Z := 60.
Definition liveLeaseTTLSeconds : Z := 60.
Definition waitQueueKeyPrefix : string := "concurrency:wait:".
Definition accountWaitKeyPrefix : string := "wait:account:".
Definition defaultSlotTTLMinutes : Z := 15.
Definition accountActiveIndexKey : string := "concurrency:account:active_index".
Definition userActiveIndexKey : string := "concurrency:user:active_index".
Definition activeIndexCleanupBatchSize : Z := 1000.
Definition activeIndexPipelineChunkSize : nat := 500.
Definition legacyWaitSweepMarkerKey : string := "concurrency:startup:legacy_wait_sweep:v1".

Definition accountSlotKey (accountID : Z) : string := accountSlotKeyPrefix +:+ pretty accountID.
Definition userSlotKey (userID : Z) : string := userSlotKeyPrefix +:+ pretty userID.
Definition apiKeySlotKey (apiKeyID : Z) : string := apiKeySlotKeyPrefix +:+ pretty apiKeyID.
Definition liveAccountSlotKey (accountID : Z) : string := liveAccountSlotKeyPrefix +:+ pretty accountID.
Definition liveUserSlotKey (userID : Z) : string := liveUserSlotKeyPrefix +:+ pretty userID.
Definition liveAPIKeySlotKey (apiKeyID : Z) : string := liveAPIKeySlotKeyPrefix +:+ pretty apiKeyID.
Definition openAIWSIngressLeaseKey (apiKeyID : Z) : string := openAIWSIngressLeaseKeyPrefix +:+ pretty apiKeyID.
Definition waitQueueKey (userID : Z) : string := waitQueueKeyPrefix +:+ pretty userID.
Definition accountWaitKey (accountID : Z) : string := accountWaitKeyPrefix +:+ pretty accountID.

Record slotIndexSpec := { indexKey : string; slotKey : Z → string; waitKey : Z → string }.
Definition accountSlotIndex : slotIndexSpec :=
  {| indexKey := accountActiveIndexKey; slotKey := accountSlotKey; waitKey := accountWaitKey |}.
Definition userSlotIndex : slotIndexSpec :=
  {| indexKey := userActiveIndexKey; slotKey := userSlotKey; waitKey := waitQueueKey |}.

(** ** Request ids *)

Definition digit36 (d : Z) : ascii :=
  ascii_of_nat (Z.to_nat (if d <? 10 then 48 + d else 87 + d)).
(** [strconv.FormatUint] in base 36: 13 digits hold a [uint64]. *)
Fixpoint digits36 (fuel : nat) (n : Z) (acc : string) : string :=
  match fuel with
  | O => acc
  | S fuel => let acc := String (digit36 (n mod 36)) acc in
              if n <? 36 then acc else digits36 fuel (n / 36) acc
  end.
Definition FormatUint36 (n : Z) : string := digits36 13 n "".
(** The prefix of a process, from its random bytes. *)
Definition initRequestIDPrefix (random : Z) : string := "r" +:+ FormatUint36 random.
Definition generateRequestID (requestIDPrefix : string) (seq : Z) : string :=
  requestIDPrefix +:+ "-" +:+ FormatUint36 seq.

(** ** The scripts

    [now] is Redis' clock in milliseconds; [TIME] gives seconds. *)

Definition TIME (now : Z) : Z := now / 1000.

Definition acquireScript (key liveKey : string) (maxConcurrency ttl : Z) (requestID : string) (now : Z) (s : Store)
  : (Z * Z) * Store :=
  let t := TIME now in
  let s := ZREMRANGEBYSCORE key (t - ttl) s in
  let s := ZREMRANGEBYSCORE liveKey (t - 60) s in
  match ZSCORE key requestID s with
  | Some _ => ((1, t), EXPIRE now key ttl (ZADD key t requestID s))
  | None => if ZCARD key s + ZCARD liveKey s <? maxConcurrency
            then ((1, t), EXPIRE now key ttl (ZADD key t requestID s))
            else ((0, t), s)
  end.

Definition getCountScript (key liveKey : string) (ttl now : Z) (s : Store) : Z * Store :=
  let t := TIME now in
  let s := ZREMRANGEBYSCORE key (t - ttl) s in
  let s := ZREMRANGEBYSCORE liveKey (t - 60) s in
  (ZCARD key s + ZCARD liveKey s, s).

Definition acquireLiveLeaseScript (accountRegular accountLive userRegular userLive apiLive : string)
    (accountMax userMax ttl : Z) (leaseID : string) (replacing now : Z) (s : Store) : Z * Store :=
  let t := TIME now in
  let s := ZREMRANGEBYSCORE accountLive (t - ttl) s in
  let s := ZREMRANGEBYSCORE userLive (t - ttl) s in
  let s := ZREMRANGEBYSCORE apiLive (t - ttl) s in
  match ZSCORE accountLive leaseID s with
  | Some _ => (1, s)
  | None =>
      let accountCount := ZCARD accountRegular s + ZCARD accountLive s in
      let userCount := ZCARD userRegular s + ZCARD userLive s in
      let allowance := if replacing =? 1 then 1 else 0 in
      if (0 <? accountMax) && (accountMax + allowance <=? accountCount) then (0, s)
      else if (0 <? userMax) && (userMax + allowance <=? userCount) then (0, s)
      else
        let s := ZADD apiLive t leaseID (ZADD userLive t leaseID (ZADD accountLive t leaseID s)) in
        (1, EXPIRE now apiLive ttl (EXPIRE now userLive ttl (EXPIRE now accountLive ttl s)))
  end.

(** The first loop: [None] when a set does not have the lease. *)
Fixpoint live_held (keys : list string) (expireBefore : Z) (leaseID : string) (s : Store) : bool * Store :=
  match keys with
  | [] => (true, s)
  | key :: keys =>
      let s := ZREMRANGEBYSCORE key expireBefore s in
      match ZSCORE key leaseID s with
      | None => (false, s)
      | Some _ => live_held keys expireBefore leaseID s
      end
  end.
Definition refreshLiveLeaseScript (keys : list string) (ttl : Z) (leaseID : string) (now : Z) (s : Store)
  : Z * Store :=
  let t := TIME now in
  let (held, s) := live_held keys (t - ttl) leaseID s in
  if held then (1, foldl (λ s key, EXPIRE now key ttl (ZADD key t leaseID s)) s keys) else (0, s).

Definition trackSlotScript (key : string) (ttl : Z) (requestID : string) (now : Z) (s : Store) : Z * Store :=
  let t := TIME now in
  (1, EXPIRE now key ttl (ZADD key t requestID (ZREMRANGEBYSCORE key (t - ttl) s))).

Definition acquireOpenAIWSIngressLeaseScript (key : string) (maxConnections ttl : Z) (leaseID : string)
    (now : Z) (s : Store) : Z * Store :=
  let t := TIME now in
  let s := ZREMRANGEBYSCORE key (t - ttl) s in
  match ZSCORE key leaseID s with
  | Some _ => (1, EXPIRE now key ttl (ZADD key t leaseID s))
  | None => if ZCARD key s <? maxConnections then (1, EXPIRE now key ttl (ZADD key t leaseID s)) else (0, s)
  end.
Definition refreshOpenAIWSIngressLeaseScript (key : string) (ttl : Z) (leaseID : string) (now : Z) (s : Store)
  : Z * Store :=
  let t := TIME now in
  let s := ZREMRANGEBYSCORE key (t - ttl) s in
  match ZSCORE key leaseID s with
  | None => (0, s)
  | Some _ => (1, EXPIRE now key ttl (ZADD key t leaseID s))
  end.

(** [incrementWaitScript] and [incrementAccountWaitScript], which are the same. *)
Definition incrementWaitScript (key : string) (maxWait ttl now : Z) (s : Store) : (Z * Z) * Store :=
  let current := default 0 (GET key s) in
  let t := TIME now in
  if maxWait <=? current then ((0, t), s)
  else ((1, t), EXPIRE now key ttl (INCRBY key 1 s)).
Definition decrementWaitScript (key : string) (_ : Z) (s : Store) : Z * Store :=
  (1, match GET key s with Some current => if 0 <? current then INCRBY key (-1) s else s | None => s end).

Definition cleanupExpiredSlotsScript (key : string) (ttl now : Z) (s : Store) : Z * Store :=
  let s := ZREMRANGEBYSCORE key (TIME now - ttl) s in
  (1, if ZCARD key s =? 0 then DEL key s else EXPIRE now key ttl s).

Definition startupCleanupSlotScript (key activePrefix : string) (slotTTL now : Z) (s : Store) : (Z * Z) * Store :=
  let stale := List.filter (λ m, negb (HasPrefix m activePrefix)) (ZRANGE key s) in
  let s := foldl (λ s m, ZREM key m s) s stale in
  let remaining := ZCARD key s in
  ((Z.of_nat (length stale), remaining), if remaining =? 0 then DEL key s else EXPIRE now key slotTTL s).

(** ** The world *)

(** What is limited: the concurrent requests of an account or of a user, and the
    WebSocket connections of an API key.  Each is counted in one or two sets.
    The requests of an API key are counted as well, without a limit. *)
Inductive resource := OfAccount (id : Z) | OfUser (id : Z) | Ingress (id : Z).
Inductive slot_class := Regular (r : resource) | LiveOf (r : resource) | KeyUse (apiKeyID : Z).
#[global] Instance resource_eq_dec : EqDecision resource.
Proof. solve_decision. Defined.
#[global] Instance slot_class_eq_dec : EqDecision slot_class.
Proof. solve_decision. Defined.

Record SlotWorld := {
  store : Store;
  clock : Z;
  grants : gmap string (slot_class * Z);
  holding : gset string;
}.
Definition set_holding (f : gset string → gset string) (w : SlotWorld) : SlotWorld :=
  {| store := store w; clock := clock w; grants := grants w; holding := f (holding w) |}.

(** The fate of a command, Redis' clock in milliseconds, the keys of a page of
    [SCAN] and whether it is the last, what a [select] finds ready, Go's clock,
    and whether an upstream call succeeds, or may be tried elsewhere. *)
Inductive ready := TimerFired | PingDue (sent : bool) | Done | Stopped.
Record SlotOracle := {
  so_fate : Fate;
  so_now : Z;
  so_page : list string * bool;
  so_ready : ready;
  so_local : time;
  so_upstream : bool;
  so_failover : bool;
  so_random : f64;
}.
Abbreviation slot A := (proc SlotWorld SlotOracle A).

Definition ask {B} (f : SlotOracle → B) : slot B := act (λ o w, (f o, w)).
(** A command; [granted] says what its answer grants, to whom. *)
Definition redis_granting {B} (granted : B → option (string * slot_class)) (f : Z → Store → B * Store)
  : slot (option B) :=
  act (λ o w,
    match so_fate o with
    | Fail => (None, w)
    | fate =>
        let now := Z.max (clock w) (so_now o) in
        let (b, s) := f now (live now (store w)) in
        (match fate with Fine => Some b | _ => None end,
         {| store := s; clock := now;
            grants := match granted b with
                      | Some (id, c) => <[id := (c, TIME now)]> (grants w)
                      | None => grants w
                      end;
            holding := holding w |})
    end).
Definition redis {B} (f : Z → Store → B * Store) : slot (option B) := redis_granting (λ _, None) f.
Definition command (f : Store → Store) : slot (option ()) := redis (λ _ s, ((), f s)).
Definition lookup {B} (f : Store → B) : slot (option B) := redis (λ _ s, (f s, s)).

(** A grant begins, and ends, to be relied upon. *)
Definition hold (id : string) : slot () := act (λ _ w, ((), set_holding (λ r, {[id]} ∪ r) w)).
Definition let_go (id : string) : slot () := act (λ _ w, ((), set_holding (λ r, r ∖ {[id]}) w)).

(** An error is [None]. *)
Definition redisUnixSeconds : slot (option Z) := redis (λ now s, (TIME now, s)).

Record AccountLoadInfo := { AccountID : Z; CurrentConcurrency : Z; WaitingCount : Z; LoadRate : Z }.
Record activeIndexLoad := { load_id : Z; load_member : string; slotCount : Z; waitCount : Z }.

Section ConcurrencyCache.
Context (slotTTLSeconds waitQueueTTLSeconds : Z).

(** ** The active index *)

Definition touchActiveIndexAt (index : string) (id expireAt : Z) : slot () :=
  if (id <=? 0) || (expireAt <=? 0) then Ret ()
  else _ <-p command (ZADD index expireAt (pretty id)); Ret ().

Definition activeIndexTTL (slots waits : Z) : Z :=
  let ttl := if 0 <? slots then slotTTLSeconds else 0 in
  if (0 <? waits) && (ttl <? waitQueueTTLSeconds) then waitQueueTTLSeconds else ttl.

(** [ZREMRANGEBYSCORE], [ZCARD] and [GET] of a pipeline. *)
Definition read_load (id : Z) (member slots waits : string) (now : Z) : slot (option activeIndexLoad) :=
  a <-p command (ZREMRANGEBYSCORE slots (now - slotTTLSeconds));
  n <-p lookup (ZCARD slots);
  v <-p lookup (GET waits);
  Ret (match a, n, v with
       | Some _, Some n, Some v =>
           Some {| load_id := id; load_member := member; slotCount := n;
                   waitCount := match v with Some v => if 0 <? v then v else 0 | None => 0 end |}
       | _, _, _ => None
       end).
Definition readActiveLoadForKey (id : Z) (slots waits : string) (now : Z) : slot (option activeIndexLoad) :=
  read_load id (pretty id) slots waits now.

Definition refreshActiveIndex (index : string) (id : Z) (slots waits : string) : slot () :=
  if id <=? 0 then Ret ()
  else
    now <-p redisUnixSeconds;
    match now with
    | None => Ret ()
    | Some now =>
        l <-p readActiveLoadForKey id slots waits now;
        match l with
        | None => Ret ()
        | Some l =>
            if (slotCount l =? 0) && (waitCount l <=? 0)
            then _ <-p command (ZREM index (pretty id)); Ret ()
            else
              let ttl := activeIndexTTL (slotCount l) (waitCount l) in
              if ttl <=? 0 then Ret () else touchActiveIndexAt index id (now + ttl)
        end
    end.
Definition refreshAccountActiveIndex (accountID : Z) : slot () :=
  refreshActiveIndex accountActiveIndexKey accountID (accountSlotKey accountID) (accountWaitKey accountID).
Definition refreshUserActiveIndex (userID : Z) : slot () :=
  refreshActiveIndex userActiveIndexKey userID (userSlotKey userID) (waitQueueKey userID).

(** The reads of one pipeline; it fails when any of them does. *)
Fixpoint read_chunk (spec : slotIndexSpec) (now : Z) (chunk : list (Z * string)) : slot (option (list activeIndexLoad)) :=
  match chunk with
  | [] => Ret (Some [])
  | (id, member) :: chunk =>
      l <-p read_load id member (slotKey spec id) (waitKey spec id) now;
      rest <-p read_chunk spec now chunk;
      Ret (l ← l; rest ← rest; Some (l :: rest))
  end.
Fixpoint read_chunks (fuel : nat) (spec : slotIndexSpec) (now : Z) (candidates : list (Z * string))
  : slot (option (list activeIndexLoad)) :=
  match fuel, candidates with
  | S fuel, _ :: _ =>
      c <-p read_chunk spec now (take activeIndexPipelineChunkSize candidates);
      match c with
      | None => Ret None
      | Some c =>
          rest <-p read_chunks fuel spec now (drop activeIndexPipelineChunkSize candidates);
          Ret (rest ← rest; Some (c ++ rest))
      end
  | _, _ => Ret (Some [])
  end.
Definition index_id (member : string) : option Z :=
  id ← Atoi member; if id <=? 0 then None else Some id.
Definition readIndexLoads (spec : slotIndexSpec) (members : list string) (now : Z)
  : slot (option (list activeIndexLoad * list string)) :=
  let candidates := omap (λ m, (λ id, (id, m)) <$> index_id m) members in
  let stale := List.filter (λ m, match index_id m with Some _ => false | None => true end) members in
  loads <-p read_chunks (length candidates) spec now candidates;
  Ret ((λ l, (l, stale)) <$> loads).

Definition removeActiveIndexMembers (index : string) (members : list string) : slot () :=
  match members with
  | [] => Ret ()
  | _ => _ <-p command (λ s, foldl (λ s m, ZREM index m s) s members); Ret ()
  end.
Definition add_index_members (index : string) (scores : list (string * Z)) : slot () :=
  match scores with
  | [] => Ret ()
  | _ => _ <-p command (λ s, foldl (λ s e, ZADD index (snd e) (fst e) s) s scores); Ret ()
  end.

(** ** Slots of accounts and users *)

Definition granted_to {B} (id : string) (c : slot_class) (ok : B → bool) (b : B) : option (string * slot_class) :=
  if ok b then Some (id, c) else None.
Definition fst_is_1 (p : Z * Z) : bool := fst p =? 1.

Definition cache_AcquireAccountSlot (accountID maxConcurrency : Z) (requestID : string) : slot (res () bool) :=
  r <-p redis_granting (granted_to requestID (Regular (OfAccount accountID)) fst_is_1)
          (acquireScript (accountSlotKey accountID) (liveAccountSlotKey accountID) maxConcurrency slotTTLSeconds requestID);
  match r with
  | None => Ret (Err ())
  | Some (result, now) =>
      _ <-p (if result =? 1 then touchActiveIndexAt accountActiveIndexKey accountID (now + slotTTLSeconds) else Ret ());
      Ret (Ok (result =? 1))
  end.
Definition cache_ReleaseAccountSlot (accountID : Z) (requestID : string) : slot (res () ()) :=
  r <-p command (ZREM (accountSlotKey accountID) requestID);
  match r with
  | None => Ret (Err ())
  | Some _ => _ <-p refreshAccountActiveIndex accountID; Ret (Ok ())
  end.
Definition cache_AcquireUserSlot (userID maxConcurrency : Z) (requestID : string) : slot (res () bool) :=
  r <-p redis_granting (granted_to requestID (Regular (OfUser userID)) fst_is_1)
          (acquireScript (userSlotKey userID) (liveUserSlotKey userID) maxConcurrency slotTTLSeconds requestID);
  match r with
  | None => Ret (Err ())
  | Some (result, now) =>
      _ <-p (if result =? 1 then touchActiveIndexAt userActiveIndexKey userID (now + slotTTLSeconds) else Ret ());
      Ret (Ok (result =? 1))
  end.
Definition cache_ReleaseUserSlot (userID : Z) (requestID : string) : slot (res () ()) :=
  r <-p command (ZREM (userSlotKey userID) requestID);
  match r with
  | None => Ret (Err ())
  | Some _ => _ <-p refreshUserActiveIndex userID; Ret (Ok ())
  end.
Definition GetAccountConcurrency (accountID : Z) : slot (option Z) :=
  redis (getCountScript (accountSlotKey accountID) (liveAccountSlotKey accountID) slotTTLSeconds).
Definition GetUserConcurrency (userID : Z) : slot (option Z) :=
  redis (getCountScript (userSlotKey userID) (liveUserSlotKey userID) slotTTLSeconds).

(** The commands of the batch queries for one id, and their total. *)
Definition count_one (slots live : string) (now : Z) : slot (option Z) :=
  a <-p command (ZREMRANGEBYSCORE slots (now - slotTTLSeconds));
  b <-p command (ZREMRANGEBYSCORE live (now - liveLeaseTTLSeconds));
  n <-p lookup (ZCARD slots);
  m <-p lookup (ZCARD live);
  Ret (match a, b, n, m with Some _, Some _, Some n, Some m => Some (n + m) | _, _, _, _ => None end).
Fixpoint count_all (slots live : Z → string) (now : Z) (ids : list Z) : slot (option (gmap Z Z)) :=
  match ids with
  | [] => Ret (Some ∅)
  | id :: ids =>
      n <-p count_one (slots id) (live id) now;
      rest <-p count_all slots live now ids;
      Ret (n ← n; rest ← rest; Some (if bool_decide (id ∈ dom rest) then rest else <[id := n]> rest))
  end.
Definition count_batch (slots live : Z → string) (ids : list Z) : slot (option (gmap Z Z)) :=
  match ids with
  | [] => Ret (Some ∅)
  | _ => now <-p redisUnixSeconds;
         match now with None => Ret None | Some now => count_all slots live now ids end
  end.
Definition cache_GetAccountConcurrencyBatch : list Z → slot (option (gmap Z Z)) :=
  count_batch accountSlotKey liveAccountSlotKey.
Definition cache_GetAPIKeyConcurrencyBatch : list Z → slot (option (gmap Z Z)) :=
  count_batch apiKeySlotKey liveAPIKeySlotKey.

(** [GetAccountsLoadBatch] and [GetUsersLoadBatch]: ids with their limits. *)
Definition load_one (slots live waits : string) (now id max : Z) : slot (option AccountLoadInfo) :=
  n <-p count_one slots live now;
  v <-p lookup (GET waits);
  Ret (match n, v with
       | Some n, Some v =>
           let waiting := default 0 v in
           Some {| AccountID := id; CurrentConcurrency := n; WaitingCount := waiting;
                   LoadRate := if 0 <? max then Z.quot ((n +ᵢ waiting) *ᵢ 100) max else 0 |}
       | _, _ => None
       end).
Fixpoint load_all (slots live waits : Z → string) (now : Z) (l : list (Z * Z)) : slot (option (list AccountLoadInfo)) :=
  match l with
  | [] => Ret (Some [])
  | (id, max) :: l =>
      i <-p load_one (slots id) (live id) (waits id) now id max;
      rest <-p load_all slots live waits now l;
      Ret (i ← i; rest ← rest; Some (i :: rest))
  end.
Definition load_batch (slots live waits : Z → string) (l : list (Z * Z)) : slot (option (list AccountLoadInfo)) :=
  match l with
  | [] => Ret (Some [])
  | _ => now <-p redisUnixSeconds;
         match now with None => Ret None | Some now => load_all slots live waits now l end
  end.
Definition cache_GetAccountsLoadBatch : list (Z * Z) → slot (option (list AccountLoadInfo)) :=
  load_batch accountSlotKey liveAccountSlotKey accountWaitKey.
Definition cache_GetUsersLoadBatch : list (Z * Z) → slot (option (list AccountLoadInfo)) :=
  load_batch userSlotKey liveUserSlotKey waitQueueKey.

(** ** API keys, ingress leases and live leases *)

Definition cache_TrackAPIKeySlot (apiKeyID : Z) (requestID : string) : slot (option Z) :=
  redis_granting (granted_to requestID (KeyUse apiKeyID) (λ _, true))
    (trackSlotScript (apiKeySlotKey apiKeyID) slotTTLSeconds requestID).
Definition cache_ReleaseAPIKeySlot (apiKeyID : Z) (requestID : string) : slot (option ()) :=
  command (ZREM (apiKeySlotKey apiKeyID) requestID).

Definition is_1 (n : Z) : bool := n =? 1.
Definition answers_1 (r : option Z) : res () bool :=
  match r with None => Err () | Some n => Ok (n =? 1) end.
Definition cache_AcquireOpenAIWSIngressLease (apiKeyID maxConnections : Z) (leaseID : string) : slot (res () bool) :=
  if (apiKeyID <=? 0) || (maxConnections <=? 0) || String.eqb leaseID "" then Ret (Ok false)
  else
    r <-p redis_granting (granted_to leaseID (Regular (Ingress apiKeyID)) is_1)
            (acquireOpenAIWSIngressLeaseScript (openAIWSIngressLeaseKey apiKeyID) maxConnections
               openAIWSIngressLeaseTTLSeconds leaseID);
    Ret (answers_1 r).
Definition cache_RefreshOpenAIWSIngressLease (apiKeyID : Z) (leaseID : string) : slot (res () bool) :=
  if (apiKeyID <=? 0) || String.eqb leaseID "" then Ret (Ok false)
  else
    r <-p redis_granting (granted_to leaseID (Regular (Ingress apiKeyID)) is_1)
            (refreshOpenAIWSIngressLeaseScript (openAIWSIngressLeaseKey apiKeyID) openAIWSIngressLeaseTTLSeconds leaseID);
    Ret (answers_1 r).
Definition cache_ReleaseOpenAIWSIngressLease (apiKeyID : Z) (leaseID : string) : slot (res () ()) :=
  if (apiKeyID <=? 0) || String.eqb leaseID "" then Ret (Ok ())
  else r <-p command (ZREM (openAIWSIngressLeaseKey apiKeyID) leaseID);
       Ret (match r with None => Err () | Some _ => Ok () end).

(** What is granted is kept for the account. *)
Definition AcquireLiveLease (accountID accountMax userID userMax apiKeyID : Z) (leaseID : string)
    (replacingRegularSlots : bool) : slot (res () bool) :=
  if (accountID <=? 0) || (userID <=? 0) || (apiKeyID <=? 0) || String.eqb leaseID "" then Ret (Ok false)
  else
    r <-p redis_granting (granted_to leaseID (LiveOf (OfAccount accountID)) is_1)
            (acquireLiveLeaseScript (accountSlotKey accountID) (liveAccountSlotKey accountID) (userSlotKey userID)
               (liveUserSlotKey userID) (liveAPIKeySlotKey apiKeyID) accountMax userMax liveLeaseTTLSeconds leaseID
               (if replacingRegularSlots then 1 else 0));
    Ret (answers_1 r).
Definition live_keys (accountID userID apiKeyID : Z) : list string :=
  [liveAccountSlotKey accountID; liveUserSlotKey userID; liveAPIKeySlotKey apiKeyID].
Definition RefreshLiveLease (accountID userID apiKeyID : Z) (leaseID : string) : slot (res () bool) :=
  if String.eqb leaseID "" then Ret (Ok false)
  else
    r <-p redis_granting (granted_to leaseID (LiveOf (OfAccount accountID)) is_1)
            (refreshLiveLeaseScript (live_keys accountID userID apiKeyID) liveLeaseTTLSeconds leaseID);
    Ret (answers_1 r).
(** One transaction. *)
Definition ReleaseLiveLease (accountID userID apiKeyID : Z) (leaseID : string) : slot (res () ()) :=
  if String.eqb leaseID "" then Ret (Ok ())
  else
    r <-p command (λ s, foldl (λ s key, ZREM key leaseID s) s (live_keys accountID userID apiKeyID));
    Ret (match r with None => Err () | Some _ => Ok () end).

(** ** Waiting *)

Definition increment_wait (key index : string) (id maxWait : Z) : slot (res () bool) :=
  r <-p redis (incrementWaitScript key maxWait waitQueueTTLSeconds);
  match r with
  | None => Ret (Err ())
  | Some (result, now) =>
      _ <-p (if result =? 1 then touchActiveIndexAt index id (now + waitQueueTTLSeconds) else Ret ());
      Ret (Ok (result =? 1))
  end.
Definition cache_IncrementWaitCount (userID maxWait : Z) : slot (res () bool) :=
  increment_wait (waitQueueKey userID) userActiveIndexKey userID maxWait.
Definition cache_IncrementAccountWaitCount (accountID maxWait : Z) : slot (res () bool) :=
  increment_wait (accountWaitKey accountID) accountActiveIndexKey accountID maxWait.
Definition cache_DecrementWaitCount (userID : Z) : slot (res () ()) :=
  r <-p redis (decrementWaitScript (waitQueueKey userID));
  match r with None => Ret (Err ()) | Some _ => _ <-p refreshUserActiveIndex userID; Ret (Ok ()) end.
Definition cache_DecrementAccountWaitCount (accountID : Z) : slot (res () ()) :=
  r <-p redis (decrementWaitScript (accountWaitKey accountID));
  match r with None => Ret (Err ()) | Some _ => _ <-p refreshAccountActiveIndex accountID; Ret (Ok ()) end.
Definition cache_GetAccountWaitingCount (accountID : Z) : slot (option Z) :=
  v <-p lookup (GET (accountWaitKey accountID)); Ret (default 0 <$> v).

(** ** Cleaning up *)

Definition cache_CleanupExpiredAccountSlots (accountID : Z) : slot (res () ()) :=
  r <-p redis (cleanupExpiredSlotsScript (accountSlotKey accountID) slotTTLSeconds);
  match r with None => Ret (Err ()) | Some _ => _ <-p refreshAccountActiveIndex accountID; Ret (Ok ()) end.

Definition is_idle (l : activeIndexLoad) : bool := (slotCount l =? 0) && (waitCount l <=? 0).
Definition reconcileExpiredIndexCandidates (spec : slotIndexSpec) : slot (res () ()) :=
  now <-p redisUnixSeconds;
  match now with
  | None => Ret (Err ())
  | Some now =>
      members <-p lookup (λ s, ZRANGEBYSCORE (zset (indexKey spec) s) now activeIndexCleanupBatchSize);
      match members with
      | None => Ret (Err ())
      | Some members =>
          loads <-p readIndexLoads spec members now;
          match loads with
          | None => Ret (Err ())
          | Some (loads, stale) =>
              let idle := load_member <$> List.filter is_idle loads in
              let refreshed := (λ l, (load_member l, now + activeIndexTTL (slotCount l) (waitCount l))) <$>
                                 List.filter (λ l, negb (is_idle l)) loads in
              _ <-p add_index_members (indexKey spec) refreshed;
              _ <-p removeActiveIndexMembers (indexKey spec) (stale ++ idle);
              Ret (Ok ())
          end
      end
  end.
Definition CleanupExpiredAccountSlotKeys : slot (res () ()) :=
  r <-p reconcileExpiredIndexCandidates accountSlotIndex;
  match r with Err e => Ret (Err e) | Ok _ => reconcileExpiredIndexCandidates userSlotIndex end.

(** A page of [SCAN]: keys of the pattern that exist. *)
Definition scan_page (prefix : string) : slot (option (list string) * bool) :=
  page <-p ask so_page;
  keys <-p lookup (λ s, List.filter (λ k, HasPrefix k prefix && exists_key k s) (fst page));
  Ret (keys, snd page).
Fixpoint sweep (pages : nat) (prefix : string) : slot (res () ()) :=
  match pages with
  | O => Ret (Err ())
  | S pages =>
      r <-p scan_page prefix;
      match r with
      | (None, _) => Ret (Err ())
      | (Some keys, last) =>
          d <-p match keys with [] => Ret (Some ()) | _ => command (λ s, foldl (λ s k, DEL k s) s keys) end;
          match d with
          | None => Ret (Err ())
          | Some _ => if last : bool then Ret (Ok ()) else sweep pages prefix
          end
      end
  end.
(** [pages] bounds the pages of a scan. *)
Definition sweepLegacyWaitKeysOnce (pages : nat) : slot (res () ()) :=
  marker <-p lookup (exists_key legacyWaitSweepMarkerKey);
  match marker with
  | None => Ret (Err ())
  | Some true => Ret (Ok ())
  | Some false =>
      a <-p sweep pages accountWaitKeyPrefix;
      match a with
      | Err e => Ret (Err e)
      | Ok _ =>
          b <-p sweep pages waitQueueKeyPrefix;
          match b with
          | Err e => Ret (Err e)
          | Ok _ => r <-p command (SET legacyWaitSweepMarkerKey 1);
                    Ret (match r with None => Err () | Some _ => Ok () end)
          end
      end
  end.

Definition allIndexMembers (index : string) : slot (option (list string)) := lookup (ZRANGE index).

(** The loop: which members to refresh and which to remove. *)
Fixpoint clean_members (spec : slotIndexSpec) (members : list string) (prefix : string)
  : slot (option (list string * list string)) :=
  match members with
  | [] => Ret (Some ([], []))
  | m :: members =>
      match index_id m with
      | None =>
          rest <-p clean_members spec members prefix;
          Ret ((λ r, (fst r, m :: snd r)) <$> rest)
      | Some id =>
          r <-p redis (startupCleanupSlotScript (slotKey spec id) prefix slotTTLSeconds);
          match r with
          | None => Ret None
          | Some (_, remaining) =>
              d <-p command (DEL (waitKey spec id));
              match d with
              | None => Ret None
              | Some _ =>
                  rest <-p clean_members spec members prefix;
                  Ret ((λ r, if 0 <? remaining then (m :: fst r, snd r) else (fst r, m :: snd r)) <$> rest)
              end
          end
      end
  end.
Definition cleanupStaleProcessSlotsForIndex (spec : slotIndexSpec) (members : list string) (prefix : string) (now : Z)
  : slot (res () ()) :=
  r <-p clean_members spec members prefix;
  match r with
  | None => Ret (Err ())
  | Some (refreshed, stale) =>
      _ <-p add_index_members (indexKey spec) ((λ m, (m, now + slotTTLSeconds)) <$> refreshed);
      _ <-p removeActiveIndexMembers (indexKey spec) stale;
      Ret (Ok ())
  end.
Definition CleanupStaleProcessSlots (pages : nat) (prefix : string) : slot (res () ()) :=
  if String.eqb prefix "" then Ret (Ok ())
  else
    swept <-p sweepLegacyWaitKeysOnce pages;
    now <-p match swept with Err _ => Ret None | Ok _ => redisUnixSeconds end;
    match now with
    | None => Ret (Err ())
    | Some now =>
        accounts <-p allIndexMembers accountActiveIndexKey;
        match accounts with
        | None => Ret (Err ())
        | Some accounts =>
            r <-p cleanupStaleProcessSlotsForIndex accountSlotIndex accounts prefix now;
            match r with
            | Err e => Ret (Err e)
            | Ok _ =>
                users <-p allIndexMembers userActiveIndexKey;
                match users with
                | None => Ret (Err ())
                | Some users => cleanupStaleProcessSlotsForIndex userSlotIndex users prefix now
                end
            end
        end
    end.

(** ** [ConcurrencyService]

    A [ReleaseFunc] is the id it releases; [None] does nothing.  The ids a
    request generates are given: [ids 0], [ids 1], and so on. *)

Record AcquireResult := { Acquired : bool; ReleaseFunc : option string }.

(** What is acquired is held, until its [ReleaseFunc] is called. *)
Definition acquired_as (id : string) (acquired : bool) : slot (res () AcquireResult) :=
  if acquired then _ <-p hold id; Ret (Ok {| Acquired := true; ReleaseFunc := Some id |})
  else Ret (Ok {| Acquired := false; ReleaseFunc := None |}).
Definition AcquireAccountSlot (accountID maxConcurrency : Z) (requestID : string) : slot (res () AcquireResult) :=
  if maxConcurrency <=? 0 then Ret (Ok {| Acquired := true; ReleaseFunc := None |})
  else
    acquired <-p cache_AcquireAccountSlot accountID maxConcurrency requestID;
    match acquired with
    | Err e => Ret (Err e)
    | Ok acquired => acquired_as requestID acquired
    end.
Definition AcquireUserSlot (userID maxConcurrency : Z) (requestID : string) : slot (res () AcquireResult) :=
  if maxConcurrency <=? 0 then Ret (Ok {| Acquired := true; ReleaseFunc := None |})
  else
    acquired <-p cache_AcquireUserSlot userID maxConcurrency requestID;
    match acquired with
    | Err e => Ret (Err e)
    | Ok acquired => acquired_as requestID acquired
    end.
Definition release_account (accountID : Z) (f : option string) : slot () :=
  match f with
  | None => Ret ()
  | Some requestID => _ <-p let_go requestID; _ <-p cache_ReleaseAccountSlot accountID requestID; Ret ()
  end.
Definition release_user (userID : Z) (f : option string) : slot () :=
  match f with
  | None => Ret ()
  | Some requestID => _ <-p let_go requestID; _ <-p cache_ReleaseUserSlot userID requestID; Ret ()
  end.

(** The function it returns. *)
Definition TrackAPIKeySlot (apiKeyID : Z) (requestID : string) : slot (option string) :=
  if apiKeyID <=? 0 then Ret None
  else
    r <-p cache_TrackAPIKeySlot apiKeyID requestID;
    Ret (match r with None => None | Some _ => Some requestID end).
Definition release_api_key (apiKeyID : Z) (f : option string) : slot () :=
  match f with
  | None => Ret ()
  | Some requestID => _ <-p cache_ReleaseAPIKeySlot apiKeyID requestID; Ret ()
  end.
Definition zeroAPIKeyConcurrencyMap (ids : list Z) : gmap Z Z := list_to_map ((λ id, (id, 0)) <$> ids).
Definition GetAPIKeyConcurrencyBatch (ids : list Z) : slot (gmap Z Z) :=
  match ids with
  | [] => Ret ∅
  | _ => counts <-p cache_GetAPIKeyConcurrencyBatch ids;
         Ret (match counts with
              | None => zeroAPIKeyConcurrencyMap ids
              | Some counts => list_to_map ((λ id, (id, default 0 (counts !! id))) <$> ids)
              end)
  end.

(** An error of Redis lets the request wait. *)
Definition fail_open (r : res () bool) : bool := match r with Err _ => true | Ok b => b end.
Definition IncrementWaitCount (userID maxWait : Z) : slot bool :=
  r <-p cache_IncrementWaitCount userID maxWait; Ret (fail_open r).
Definition IncrementAccountWaitCount (accountID maxWait : Z) : slot bool :=
  r <-p cache_IncrementAccountWaitCount accountID maxWait; Ret (fail_open r).
Definition DecrementWaitCount (userID : Z) : slot () := _ <-p cache_DecrementWaitCount userID; Ret ().
Definition DecrementAccountWaitCount (accountID : Z) : slot () :=
  _ <-p cache_DecrementAccountWaitCount accountID; Ret ().

Definition defaultExtraWaitSlots : Z := 20.
Definition CalculateMaxWait (userConcurrency : Z) : Z :=
  (if userConcurrency <=? 0 then 1 else userConcurrency) +ᵢ defaultExtraWaitSlots.

(** *** Ingress leases *)

Definition openAIWSIngressLeaseTTL : duration := 60 * Second.

(** [refresh]: when ownership was last confirmed, and whether it is lost. *)
Definition refresh (apiKeyID : Z) (leaseID : string) (lastConfirmedAt : time) : slot (time * bool) :=
  r <-p cache_RefreshOpenAIWSIngressLease apiKeyID leaseID;
  now <-p ask so_local;
  match r with
  | Ok true => Ret (now, false)
  | Ok false => Ret (lastConfirmedAt, true)
  | Err _ => Ret (lastConfirmedAt, openAIWSIngressLeaseTTL <=? time_Sub now lastConfirmedAt)
  end.
(** [refreshLoop] for at most so many ticks; the connection relies on the lease
    until the loop ends. *)
Fixpoint refresh_ticks (ticks : nat) (apiKeyID : Z) (leaseID : string) (lastConfirmedAt : time) : slot () :=
  match ticks with
  | O => Ret ()
  | S ticks =>
      r <-p ask so_ready;
      match r with
      | TimerFired =>
          r <-p refresh apiKeyID leaseID lastConfirmedAt;
          if snd r : bool then Ret () else refresh_ticks ticks apiKeyID leaseID (fst r)
      | _ => Ret ()
      end
  end.
(** A connection: [AcquireOpenAIWSIngressLease], the loop, [Release]. *)
Definition ingress_connection (ticks : nat) (apiKeyID maxConnections : Z) (leaseID : string) : slot (res () bool) :=
  if maxConnections <=? 0 then Ret (Ok true)
  else if apiKeyID <=? 0 then Ret (Err ())
  else
    acquired <-p cache_AcquireOpenAIWSIngressLease apiKeyID maxConnections leaseID;
    match acquired with
    | Ok true =>
        _ <-p hold leaseID;
        now <-p ask so_local;
        _ <-p refresh_ticks ticks apiKeyID leaseID now;
        _ <-p let_go leaseID;
        _ <-p cache_ReleaseOpenAIWSIngressLease apiKeyID leaseID;
        Ret (Ok true)
    | r => Ret r
    end.
End ConcurrencyCache.

(** ** Waiting for a slot *)

Definition maxConcurrencyWait : duration := 30 * Second.
Definition initialBackoff : duration := 100 * Millisecond.
Definition backoffMultiplier : f64 := f_dec 15 1.
Definition maxBackoff : duration := 2 * Second.
(** [nextBackoff], for the number that [rand.Float64] gives. *)
Definition nextBackoff (random : f64) (current : duration) : duration :=
  let next := f_to_int (f_of_int current *ᶠ backoffMultiplier) in
  let next := if maxBackoff <? next then maxBackoff else next in
  let jitter := f_dec 8 1 +ᶠ (random *ᶠ f_dec 4 1) in
  let jittered := f_to_int (f_of_int next *ᶠ jitter) in
  if jittered <? initialBackoff then initialBackoff
  else if maxBackoff <? jittered then maxBackoff
  else jittered.

Inductive HelperErr := EAcquire | ETimeout | EWaitQueueFull | EPing | ELiveConcurrencyFull.

Section ConcurrencyHelper.
Context (slotTTLSeconds waitQueueTTLSeconds : Z).
Abbreviation cache f := (f slotTTLSeconds waitQueueTTLSeconds).

Inductive slot_type := UserSlot | AccountSlot.
Definition acquireSlot (slotType : slot_type) (id maxConcurrency : Z) (requestID : string) : slot (res () AcquireResult) :=
  match slotType with
  | UserSlot => AcquireUserSlot slotTTLSeconds id maxConcurrency requestID
  | AccountSlot => AcquireAccountSlot slotTTLSeconds id maxConcurrency requestID
  end.

(** The loop of [waitForSlotWithPingTimeout], which the timeout ends after at
    most [polls] rounds. *)
Fixpoint wait_for_slot (polls : nat) (slotType : slot_type) (id maxConcurrency : Z) (ids : nat → string)
  : slot (res HelperErr (option string)) :=
  match polls with
  | O => Ret (Err ETimeout)
  | S polls =>
      r <-p ask so_ready;
      match r with
      | Done | Stopped => Ret (Err ETimeout)
      | PingDue sent => if sent then wait_for_slot polls slotType id maxConcurrency ids else Ret (Err EPing)
      | TimerFired =>
          result <-p acquireSlot slotType id maxConcurrency (ids polls);
          match result with
          | Err _ => Ret (Err EAcquire)
          | Ok result => if Acquired result then Ret (Ok (ReleaseFunc result))
                         else wait_for_slot polls slotType id maxConcurrency ids
          end
      end
  end.
Definition waitForSlotWithPingTimeout (polls : nat) (slotType : slot_type) (id maxConcurrency : Z)
    (ids : nat → string) (tryImmediate : bool) : slot (res HelperErr (option string)) :=
  if tryImmediate then
    result <-p acquireSlot slotType id maxConcurrency (ids polls);
    match result with
    | Err _ => Ret (Err EAcquire)
    | Ok result => if Acquired result then Ret (Ok (ReleaseFunc result))
                   else wait_for_slot polls slotType id maxConcurrency ids
    end
  else wait_for_slot polls slotType id maxConcurrency ids.

(** The user's slot, and its use of the API key. *)
Definition acquireUserSlotWithWaitTimeout (polls : nat) (userID maxConcurrency : Z) (ids : nat → string)
  : slot (res HelperErr (option string)) :=
  result <-p AcquireUserSlot slotTTLSeconds userID maxConcurrency (ids (S polls));
  match result with
  | Err _ => Ret (Err EAcquire)
  | Ok result =>
      if Acquired result then Ret (Ok (ReleaseFunc result))
      else
        let limit := CalculateMaxWait maxConcurrency -ᵢ maxConcurrency in
        canWait <-p IncrementWaitCount waitQueueTTLSeconds userID (if limit <? 1 then 1 else limit);
        if negb canWait then Ret (Err EWaitQueueFull)
        else
          r <-p waitForSlotWithPingTimeout polls UserSlot userID maxConcurrency ids false;
          _ <-p cache DecrementWaitCount userID;
          Ret r
  end.
Definition withAPIKeySlot (apiKeyID : Z) (requestID : string) : slot (option string) :=
  TrackAPIKeySlot slotTTLSeconds apiKeyID requestID.

(** The account slot of a request, as the handlers take it when the scheduler
    has chosen to wait. *)
Definition acquire_account_with_wait (polls : nat) (accountID maxConcurrency maxWaiting : Z) (ids : nat → string)
  : slot (res HelperErr (option string)) :=
  canWait <-p IncrementAccountWaitCount waitQueueTTLSeconds accountID maxWaiting;
  if negb canWait then Ret (Err EWaitQueueFull)
  else
    r <-p waitForSlotWithPingTimeout polls AccountSlot accountID maxConcurrency ids true;
    _ <-p cache DecrementAccountWaitCount accountID;
    Ret r.

(** A request on one account: [user_ids], [key_id] and [account_ids] are the ids
    it generates. *)
Definition forward_request (polls : nat) (userID userMax apiKeyID accountID accountMax maxWaiting : Z)
    (user_ids account_ids : nat → string) (key_id : string) : slot (res HelperErr ()) :=
  user <-p acquireUserSlotWithWaitTimeout polls userID userMax user_ids;
  match user with
  | Err e => Ret (Err e)
  | Ok user =>
      key <-p withAPIKeySlot apiKeyID key_id;
      account <-p acquire_account_with_wait polls accountID accountMax maxWaiting account_ids;
      r <-p match account with
            | Err e => Ret (Err e)
            | Ok account =>
                _ <-p ask so_upstream;
                _ <-p release_account slotTTLSeconds waitQueueTTLSeconds accountID account;
                Ret (Ok ())
            end;
      _ <-p release_user slotTTLSeconds waitQueueTTLSeconds userID user;
      _ <-p release_api_key apiKeyID key;
      Ret r
  end.

(** ** Live calls *)

Definition refreshLiveLease (accountID userID apiKeyID : Z) (leaseID : string) : slot bool :=
  r <-p RefreshLiveLease accountID userID apiKeyID leaseID;
  Ret (match r with Ok b => b | Err _ => false end).
Definition releaseLiveLease (accountID userID apiKeyID : Z) (leaseID : string) : slot () :=
  _ <-p ReleaseLiveLease accountID userID apiKeyID leaseID; Ret ().

(** [runLiveController] for at most so many ticks of its timers. *)
Fixpoint runLiveController (ticks : nat) (accountID userID apiKeyID : Z) (leaseID : string) : slot () :=
  match ticks with
  | O => Ret ()
  | S ticks =>
      r <-p ask so_ready;
      match r with
      | TimerFired =>
          refreshed <-p refreshLiveLease accountID userID apiKeyID leaseID;
          if refreshed : bool then runLiveController ticks accountID userID apiKeyID leaseID else Ret ()
      | _ => Ret ()
      end
  end.

(** [CreateLiveCall], for the accounts that the scheduler chooses: the lease takes
    over the ordinary slot of the scheduler.  What it returns is the account and
    the lease. *)
Fixpoint create_live_call (accounts : list (Z * Z)) (userID userMax apiKeyID : Z) (ids : nat → string)
  : slot (res HelperErr (Z * string)) :=
  match accounts with
  | [] => Ret (Err EAcquire)
  | (accountID, accountMax) :: accounts =>
      let requestID := ids (2 * length accounts)%nat in
      let leaseID := ids (2 * length accounts + 1)%nat in
      selection <-p AcquireAccountSlot slotTTLSeconds accountID accountMax requestID;
      match selection with
      | Err _ => Ret (Err EAcquire)
      | Ok selection =>
          if negb (Acquired selection) then Ret (Err ELiveConcurrencyFull)
          else
            let release := release_account slotTTLSeconds waitQueueTTLSeconds accountID (ReleaseFunc selection) in
            acquired <-p AcquireLiveLease accountID accountMax userID userMax apiKeyID leaseID true;
            match acquired with
            | Ok true =>
                _ <-p hold leaseID;
                created <-p ask (λ o, (so_upstream o, so_failover o));
                _ <-p release;
                if fst created : bool then
                  saved <-p ask so_upstream;
                  if saved : bool then Ret (Ok (accountID, leaseID))
                  else
                    _ <-p let_go leaseID;
                    _ <-p releaseLiveLease accountID userID apiKeyID leaseID;
                    Ret (Err EAcquire)
                else
                  _ <-p let_go leaseID;
                  _ <-p releaseLiveLease accountID userID apiKeyID leaseID;
                  if snd created : bool then create_live_call accounts userID userMax apiKeyID ids
                  else Ret (Err EAcquire)
            | Ok false => _ <-p release; Ret (Err ELiveConcurrencyFull)
            | Err _ => _ <-p release; Ret (Err EAcquire)
            end
      end
  end.
Definition CreateLiveCall (accounts : list (Z * Z)) (userID userMax apiKeyID : Z) (ids : nat → string)
  : slot (res HelperErr (Z * string)) :=
  create_live_call (take 4 accounts) userID userMax apiKeyID ids.

(** The handler [Live], which holds a slot of the user while it creates the call,
    and the session it leaves behind, until its end. *)
Definition live_call (ticks : nat) (accounts : list (Z * Z)) (userID userMax apiKeyID : Z) (ids : nat → string)
  : slot (res HelperErr ()) :=
  user <-p AcquireUserSlot slotTTLSeconds userID userMax (ids O);
  match user with
  | Err _ => Ret (Err EAcquire)
  | Ok user =>
      if negb (Acquired user) then Ret (Err ELiveConcurrencyFull)
      else
        created <-p CreateLiveCall accounts userID userMax apiKeyID (λ n, ids (S n));
        _ <-p release_user slotTTLSeconds waitQueueTTLSeconds userID (ReleaseFunc user);
        match created with
        | Err e => Ret (Err e)
        | Ok (accountID, leaseID) =>
            _ <-p runLiveController ticks accountID userID apiKeyID leaseID;
            _ <-p let_go leaseID;
            _ <-p releaseLiveLease accountID userID apiKeyID leaseID;
            Ret (Ok ())
        end
  end.

(** ** Everything that runs

    The processes of all instances of the server. *)
Inductive SlotRequest :=
| Forward (polls : nat) (userID userMax apiKeyID accountID accountMax maxWaiting : Z)
| LiveCall (ticks : nat) (accounts : list (Z * Z)) (userID userMax apiKeyID : Z)
| IngressConnection (ticks : nat) (apiKeyID maxConnections : Z)
| LoadsOf (accounts users : list (Z * Z)) (accountIDs keyIDs : list Z)
| CountsOf (accountID userID : Z)
| CleanupWorker
| CleanupAccount (accountID : Z)
| Startup (pages : nat) (prefix : string).

Definition forget {A} (p : slot A) : slot () := _ <-p p; Ret ().
Definition serve_slots (req : SlotRequest) (ids : nat → string) : slot () :=
  match req with
  | Forward polls userID userMax apiKeyID accountID accountMax maxWaiting =>
      forget (forward_request polls userID userMax apiKeyID accountID accountMax maxWaiting
                (λ n, ids (2 * n + 1)%nat) (λ n, ids (2 * n + 2)%nat) (ids O))
  | LiveCall ticks accounts userID userMax apiKeyID =>
      forget (live_call ticks accounts userID userMax apiKeyID ids)
  | IngressConnection ticks apiKeyID maxConnections =>
      forget (ingress_connection ticks apiKeyID maxConnections (ids O))
  | LoadsOf accounts users accountIDs keyIDs =>
      _ <-p cache_GetAccountsLoadBatch slotTTLSeconds accounts;
      _ <-p cache_GetUsersLoadBatch slotTTLSeconds users;
      _ <-p cache_GetAccountConcurrencyBatch slotTTLSeconds accountIDs;
      _ <-p GetAPIKeyConcurrencyBatch slotTTLSeconds keyIDs; Ret ()
  | CountsOf accountID userID =>
      _ <-p GetAccountConcurrency slotTTLSeconds accountID;
      _ <-p GetUserConcurrency slotTTLSeconds userID;
      _ <-p cache_GetAccountWaitingCount accountID; Ret ()
  | CleanupWorker => forget (cache CleanupExpiredAccountSlotKeys)
  | CleanupAccount accountID => forget (cache cache_CleanupExpiredAccountSlots accountID)
  | Startup pages prefix => forget (CleanupStaleProcessSlots slotTTLSeconds pages prefix)
  end.
End ConcurrencyHelper.
