(* ===== verification/ConcurrencySteps.v ===== *)
(** * Steps of the concurrency slots

    What the scripts of [ConcurrencySlots.v] do to the sets that count: the keys
    of different accounts, users and API keys are different; a command leaves
    every resource within its bound, takes nothing away before its time, and
    puts in only the id it acts for.  Only the sweep of an instance that starts
    takes away slots of others; [calm] says that there is none. *)

From Stdlib Require Import ZArith Lia Ascii String Bool.
From stdpp Require Import base numbers option list gmap strings sorting pretty.
From S2P Require Import Prelude GoStrings GoTrim RedisStore ConcurrencySlots.

#[local] Open Scope Z_scope.
#[local] Set Warnings "-clear-no-such-hyp".

(** ** Keys *)

Definition class_key (c : slot_class) : string :=
  match c with
  | Regular (OfAccount id) => accountSlotKey id
  | Regular (OfUser id) => userSlotKey id
  | Regular (Ingress id) => openAIWSIngressLeaseKey id
  | LiveOf (OfAccount id) => liveAccountSlotKey id
  | LiveOf (OfUser id) => liveUserSlotKey id
  | LiveOf (Ingress id) => liveAPIKeySlotKey id
  | KeyUse id => apiKeySlotKey id
  end.

Lemma pretty_head (z : Z) : ∃ c s, pretty z = String c s ∧ (is_digit c = true ∨ c = "-"%char).
Proof.
  destruct (Z_lt_le_dec z 0) as [Hz|Hz].
  - destruct z as [| |p]; [lia|lia|]. exists "-"%char, (pretty (N.pos p)). split; [reflexivity|by right].
  - rewrite pretty_Z_nonneg by done. destruct (pretty_N_digits (Z.to_N z)) as [Hd Hne].
    destruct (pretty (Z.to_N z)) as [|c s]; [done|]. exists c, s. split; [done|left].
    simpl in Hd. by apply andb_true_iff in Hd as [? _].
Qed.
Lemma pretty_not_index (z : Z) s : pretty z ≠ String "a" s.
Proof. destruct (pretty_head z) as (c & s' & -> & [Hc|Hc]); intros [= -> _]; discriminate. Qed.

Lemma class_key_inj c c' : class_key c = class_key c' → c = c'.
Proof.
  destruct c as [[]|[]|], c' as [[]|[]|]; intros E; try discriminate E;
    apply (inj (String.append _)), (inj pretty) in E; by subst.
Qed.

(** The keys of no class. *)
Definition foreign (k : string) : Prop := ∀ c, class_key c ≠ k.
Lemma foreign_wait id : foreign (waitQueueKey id).
Proof. intros [[]|[]|]; discriminate. Qed.
Lemma foreign_account_wait id : foreign (accountWaitKey id).
Proof. intros [[]|[]|]; discriminate. Qed.
Lemma foreign_account_index : foreign accountActiveIndexKey.
Proof. intros [[]|[]|]; try discriminate. intros E.
  change (accountSlotKeyPrefix +:+ pretty id = accountSlotKeyPrefix +:+ "active_index") in E.
  apply (inj (String.append _)) in E. by apply pretty_not_index in E. Qed.
Lemma foreign_user_index : foreign userActiveIndexKey.
Proof. intros [[]|[]|]; try discriminate. intros E.
  change (userSlotKeyPrefix +:+ pretty id = userSlotKeyPrefix +:+ "active_index") in E.
  apply (inj (String.append _)) in E. by apply pretty_not_index in E. Qed.
Lemma foreign_marker : foreign legacyWaitSweepMarkerKey.
Proof. intros [[]|[]|]; discriminate. Qed.
Lemma foreign_swept k : HasPrefix k accountWaitKeyPrefix = true ∨ HasPrefix k waitQueueKeyPrefix = true → foreign k.
Proof. intros Hp c <-. destruct c as [[]|[]|], Hp as [E|E]; discriminate E. Qed.
Create HintDb slots.
#[export] Hint Resolve foreign_wait foreign_account_wait foreign_account_index foreign_user_index
  foreign_marker : slots.

(** ** Steps of the store *)

Section Slots.
Context (slotTTLSeconds waitQueueTTLSeconds : Z) (Httl : 0 < slotTTLSeconds).
Context (bound : resource → Z).
(** No instance starts and takes the slots of the others away. *)
Context (calm : Prop).

Definition ttl_of (c : slot_class) : Z :=
  match c with
  | Regular (Ingress _) => openAIWSIngressLeaseTTLSeconds
  | Regular _ => slotTTLSeconds
  | LiveOf _ => liveLeaseTTLSeconds
  | KeyUse _ => slotTTLSeconds
  end.
Definition members (c : slot_class) (s : Store) : gmap string Z := zset (class_key c) s.
(** How many count for a resource. *)
Definition load (r : resource) (s : Store) : Z :=
  match r with
  | Ingress _ => ZCARD (class_key (Regular r)) s
  | _ => ZCARD (class_key (Regular r)) s + ZCARD (class_key (LiveOf r)) s
  end.

(** A member is not younger than the clock, and outlived by its key. *)
Definition wf (now : Z) (s : Store) : Prop :=
  ∀ c id sc, members c s !! id = Some sc →
    sc ≤ TIME now ∧ ∀ e, expiry s !! class_key c = Some e → (sc + ttl_of c) * 1000 ≤ e.

(** What a command does: no resource beyond its bound, and of the ids that are
    kept nothing is lost before its time, and nothing comes to be. *)
Record sstep (now : Z) (keep : string → Prop) (s s' : Store) : Prop := {
  step_load : ∀ r, load r s' ≤ Z.max (load r s) (bound r);
  step_kept : ∀ c id sc, calm → keep id → members c s !! id = Some sc →
    sc + ttl_of c ≤ TIME now ∨ ∃ sc', sc ≤ sc' ∧ members c s' !! id = Some sc';
  step_absent : ∀ c id, keep id → members c s !! id = None → members c s' !! id = None;
  step_wf : wf now s → wf now s';
}.

Lemma ttl_pos c : 0 < ttl_of c.
Proof. destruct c as [[]| |]; simpl; (exact Httl || done). Qed.
Lemma TIME_le now : TIME now * 1000 ≤ now.
Proof. unfold TIME. pose proof (Z.mul_div_le now 1000). lia. Qed.
Lemma TIME_mono now now' : now ≤ now' → TIME now ≤ TIME now'.
Proof. intros. unfold TIME. by apply Z.div_le_mono. Qed.

Lemma sstep_trans now keep s1 s2 s3 : sstep now keep s1 s2 → sstep now keep s2 s3 → sstep now keep s1 s3.
Proof.
  intros [L1 K1 A1 W1] [L2 K2 A2 W2]. split; [|intros c id sc Hc Hk H|eauto..].
  - intros r. specialize (L1 r). specialize (L2 r). lia.
  - destruct (K1 c id sc Hc Hk H) as [?|(sc' & Hle & H')]; [by left|].
    destruct (K2 c id sc' Hc Hk H') as [?|(sc'' & Hle' & H'')]; [left; lia|right]. exists sc''. split; [lia|done].
Qed.
Lemma sstep_weaken now (keep keep' : string → Prop) s s' :
  (∀ id, keep' id → keep id) → sstep now keep s s' → sstep now keep' s s'.
Proof. intros Hk [L K A W]. split; eauto. Qed.

Lemma members_load r s s' : (∀ c, members c s' ⊆ members c s) → load r s' ≤ load r s.
Proof.
  intros Hs. assert (∀ c, ZCARD (class_key c) s' ≤ ZCARD (class_key c) s) as Hc.
  { intros c. unfold ZCARD. apply inj_le, map_subseteq_size, Hs. }
  unfold load. destruct r; [| |apply Hc]; apply Z.add_le_mono; apply Hc.
Qed.
(** Removing what is not kept, or what is over. *)
Lemma sstep_shrink now (keep : string → Prop) s s' :
  (∀ c, members c s' ⊆ members c s) →
  (∀ c id sc, calm → keep id → members c s !! id = Some sc → members c s' !! id = None → sc + ttl_of c ≤ TIME now) →
  (∀ c e, expiry s' !! class_key c = Some e →
     expiry s !! class_key c = Some e ∨ e = now + ttl_of c * 1000) →
  sstep now keep s s'.
Proof.
  intros Hsub Hlost He. split.
  - intros r. pose proof (members_load r s s' Hsub). lia.
  - intros c id sc Hc Hk H. destruct (members c s' !! id) as [sc'|] eqn:E; [|left; eauto].
    right. exists sc'. split; [|done]. pose proof (lookup_weaken _ _ _ _ E (Hsub c)) as H'.
    rewrite H in H'. injection H' as ->. lia.
  - intros c id Hk H. destruct (members c s' !! id) as [sc'|] eqn:E; [|done].
    by rewrite (lookup_weaken _ _ _ _ E (Hsub c)) in H.
  - intros Hw c id sc H. destruct (Hw c id sc (lookup_weaken _ _ _ _ H (Hsub c))) as [Hsc He'].
    split; [done|]. intros e [E| ->]%He; [by apply He'|]. pose proof (TIME_le now). lia.
Qed.

(** Keys that only come to expire earlier, or never. *)
Definition same_expiry (s s' : Store) : Prop := ∀ k e, expiry s' !! k = Some e → expiry s !! k = Some e.
Lemma expiry_DEL k s : same_expiry s (DEL k s).
Proof. intros k' e. unfold DEL. simpl. by intros [_ ?]%lookup_delete_Some. Qed.
Lemma expiry_put k z s : same_expiry s (put_zset k z s).
Proof. unfold put_zset. case_decide; [apply expiry_DEL|by intros ??]. Qed.
Lemma expiry_live now s : same_expiry s (live now s).
Proof. intros k e. unfold live. simpl. by intros [? _]%map_lookup_filter_Some. Qed.
Lemma same_expiry_trans s1 s2 s3 : same_expiry s1 s2 → same_expiry s2 s3 → same_expiry s1 s3.
Proof. unfold same_expiry. eauto. Qed.

Lemma sstep_refl now keep s : sstep now keep s s.
Proof. apply sstep_shrink; [done|intros c id sc _ _ H1 H2; congruence|auto]. Qed.
Lemma sstep_eq now keep s s' :
  (∀ c, members c s' = members c s) → same_expiry s s' → sstep now keep s s'.
Proof.
  intros Hm He. apply sstep_shrink; [by intros c; rewrite Hm| |auto].
  intros c id sc _ _ H1 H2. rewrite Hm in H2. congruence.
Qed.

Lemma live_step now keep s : wf now s → sstep now keep s (live now s).
Proof.
  intros Hw. apply sstep_shrink; [intros c; apply zset_live_subseteq| |intros c e He; left; by apply expiry_live in He].
  intros c id sc _ _ H Hn. unfold members in *. rewrite zset_live in Hn. case_decide as Ha; [congruence|].
  destruct (Hw c id sc H) as [_ He]. unfold alive in Ha. destruct (expiry s !! class_key c) as [e|] eqn:E; [|done].
  specialize (He e eq_refl). unfold TIME. apply Z.div_le_lower_bound; lia.
Qed.
Lemma expired_step_from t now keep c s :
  t ≤ TIME now → sstep now keep s (ZREMRANGEBYSCORE (class_key c) (t - ttl_of c) s).
Proof.
  intros Ht. apply sstep_shrink; unfold members.
  - intros c'. rewrite zset_ZREMRANGEBYSCORE. case_decide; [apply map_filter_subseteq|done].
  - intros c' id sc _ _ H. rewrite zset_ZREMRANGEBYSCORE. case_decide as Hc; [|congruence].
    apply class_key_inj in Hc as ->. intros Hn. rewrite map_lookup_filter_None in Hn.
    destruct Hn as [Hn|Hn]; [congruence|]. specialize (Hn sc H). simpl in Hn. lia.
  - intros c' e He. left. revert He. apply expiry_put.
Qed.
Lemma expired_step now keep c s :
  sstep now keep s (ZREMRANGEBYSCORE (class_key c) (TIME now - ttl_of c) s).
Proof. by apply expired_step_from. Qed.
(** Commands on one key. *)
Definition touches (k : string) (s s' : Store) : Prop :=
  ∀ k', k' ≠ k → zset k' s' = zset k' s ∧ ∀ e, expiry s' !! k' = Some e → expiry s !! k' = Some e.
Lemma touches_trans k s1 s2 s3 : touches k s1 s2 → touches k s2 s3 → touches k s1 s3.
Proof.
  intros H1 H2 k' Hk. destruct (H1 k' Hk) as [Z1 E1], (H2 k' Hk) as [Z2 E2].
  split; [congruence|eauto].
Qed.
Lemma touches_put k z s : touches k s (put_zset k z s).
Proof. intros k' Hk. rewrite zset_put, decide_False by done. split; [done|apply expiry_put]. Qed.
Lemma touches_DEL k s : touches k s (DEL k s).
Proof. intros k' Hk. rewrite zset_DEL, decide_False by done. split; [done|apply expiry_DEL]. Qed.
Lemma touches_EXPIRE now k ttl s : touches k s (EXPIRE now k ttl s).
Proof.
  unfold EXPIRE. destruct (negb _); [by intros k' Hk|]. destruct (_ <=? _); [apply touches_DEL|].
  intros k' Hk. split; [done|]. intros e. simpl. by rewrite lookup_insert_ne.
Qed.
Lemma touches_SET k v s : touches k s (SET k v s).
Proof.
  intros k' Hk. rewrite zset_SET, decide_False by done. split; [done|]. intros e. simpl.
  by rewrite lookup_delete_ne.
Qed.
Lemma touches_INCRBY k d s : touches k s (INCRBY k d s).
Proof. by intros k' Hk. Qed.
Lemma touches_refl k s : touches k s s.
Proof. by intros k' Hk. Qed.
Lemma touches_fold {X} k (f : Store → X → Store) l s :
  (∀ s x, touches k s (f s x)) → touches k s (foldl f s l).
Proof.
  intros Hf. revert s. induction l as [|x l IH]; intros s; simpl; [apply touches_refl|].
  eapply touches_trans; [apply Hf|apply IH].
Qed.

Lemma foreign_step now keep k s s' : foreign k → touches k s s' → sstep now keep s s'.
Proof.
  intros Hf Ht. apply sstep_shrink; unfold members.
  - intros c. by destruct (Ht (class_key c) (Hf c)) as [-> _].
  - intros c id sc _ _ H. destruct (Ht (class_key c) (Hf c)) as [-> _]. congruence.
  - intros c e He. left. by apply (Ht (class_key c) (Hf c)).
Qed.

Lemma foreign_fold {X} now keep (k : X → string) (f : Store → X → Store) l s :
  (∀ x, x ∈ l → foreign (k x)) → (∀ s x, touches (k x) s (f s x)) → sstep now keep s (foldl f s l).
Proof.
  intros Hk Hf. revert s. induction l as [|x l IH]; intros s; simpl; [apply sstep_refl|].
  eapply sstep_trans; [eapply (foreign_step _ _ (k x)); [apply Hk; by left|apply Hf]|].
  apply IH. intros y Hy. apply Hk. by right.
Qed.

(** Keys that are swept at an age: what is removed from them is over. *)
Definition swept_at (ttl : Z) (k : string) : Prop := foreign k ∨ ∃ c, k = class_key c ∧ ttl_of c = ttl.
Lemma swept_step t ttl k now keep s :
  swept_at ttl k → t ≤ TIME now → sstep now keep s (ZREMRANGEBYSCORE k (t - ttl) s).
Proof.
  intros [Hf|(c & -> & <-)] Ht; [|by apply expired_step_from].
  eapply foreign_step; [exact Hf|apply touches_put].
Qed.
Lemma swept_account id : swept_at slotTTLSeconds (accountSlotKey id).
Proof. right. by exists (Regular (OfAccount id)). Qed.
Lemma swept_user id : swept_at slotTTLSeconds (userSlotKey id).
Proof. right. by exists (Regular (OfUser id)). Qed.
Lemma swept_api_key id : swept_at slotTTLSeconds (apiKeySlotKey id).
Proof. right. by exists (KeyUse id). Qed.
Lemma swept_live r : swept_at liveLeaseTTLSeconds (class_key (LiveOf r)).
Proof. right. by exists (LiveOf r). Qed.

Lemma expire_step now keep c s : sstep now keep s (EXPIRE now (class_key c) (ttl_of c) s).
Proof.
  pose proof (ttl_pos c) as Hp. apply sstep_shrink; unfold members.
  - intros c'. rewrite zset_EXPIRE, decide_False; [done|lia].
  - intros c' id sc _ _ H. rewrite zset_EXPIRE, decide_False; [congruence|lia].
  - intros c' e. unfold EXPIRE. destruct (negb _); [by left|]. destruct (Z.leb_spec (ttl_of c) 0); [lia|].
    simpl. intros [[Hc <-]|[_ He]]%lookup_insert_Some; [right|by left]. apply class_key_inj in Hc. by subst.
Qed.
Lemma remove_step now (keep : string → Prop) c m s : (calm → ¬ keep m) → sstep now keep s (ZREM (class_key c) m s).
Proof.
  intros Hm. apply sstep_shrink; unfold members.
  - intros c'. rewrite zset_ZREM. case_decide; [apply delete_subseteq|done].
  - intros c' id sc Hcalm Hk H. rewrite zset_ZREM. case_decide as Hc; [|congruence].
    rewrite lookup_delete_ne by (by intros <-; destruct (Hm Hcalm)). congruence.
  - intros c' e He. left. revert He. apply expiry_put.
Qed.
Lemma del_empty_step now keep c s :
  sstep now keep s (if ZCARD (class_key c) s =? 0 then DEL (class_key c) s
                    else EXPIRE now (class_key c) (ttl_of c) s).
Proof.
  destruct (Z.eqb_spec (ZCARD (class_key c) s) 0) as [Hz|_]; [|apply expire_step].
  assert (zset (class_key c) s = ∅) as He.
  { apply map_size_empty_inv. unfold ZCARD in Hz. lia. }
  apply sstep_eq; [|apply expiry_DEL]. intros c'. unfold members. rewrite zset_DEL.
  case_decide as Hc; [|done]. by apply class_key_inj in Hc as ->.
Qed.

(** An id is put into the sets of the classes [cs], as the scripts do. *)
Record updates (now : Z) (cs : list slot_class) (m : string) (s s' : Store) : Prop := {
  up_in : ∀ c, c ∈ cs → members c s' = <[m := TIME now]> (members c s) ∧
                        expiry s' !! class_key c = Some (now + ttl_of c * 1000);
  up_out : ∀ c, c ∉ cs → members c s' = members c s ∧
                         ∀ e, expiry s' !! class_key c = Some e → expiry s !! class_key c = Some e;
}.
Lemma updates_step now (keep : string → Prop) cs m s s' :
  updates now cs m s s' → (keep m → ∀ c, c ∈ cs → is_Some (members c s !! m)) → wf now s →
  (∀ r, load r s' ≤ Z.max (load r s) (bound r)) →
  sstep now keep s s'.
Proof.
  intros [Hin Hout] Hm Hw Hload. split; [done|..].
  - intros c id sc _ Hk H. right. destruct (decide (c ∈ cs)) as [Hc|Hc].
    2: { destruct (Hout c Hc) as [E _]. exists sc. split; [lia|by rewrite E]. }
    destruct (Hin c Hc) as [E _]. rewrite E. destruct (Hw c id sc H) as [Hsc _].
    destruct (decide (id = m)) as [->|Hne].
    + rewrite lookup_insert_eq. eauto.
    + rewrite lookup_insert_ne by done. exists sc. split; [lia|done].
  - intros c id Hk H. destruct (decide (c ∈ cs)) as [Hc|Hc].
    2: { destruct (Hout c Hc) as [E _]. by rewrite E. }
    destruct (Hin c Hc) as [E _]. rewrite E. rewrite lookup_insert_ne; [done|].
    intros <-. destruct (Hm Hk c Hc) as [? Hs]. congruence.
  - intros _ c id sc H. destruct (decide (c ∈ cs)) as [Hc|Hc].
    2: { destruct (Hout c Hc) as [E He]. rewrite E in H. destruct (Hw c id sc H) as [Hsc Hexp].
         split; [done|]. intros e E'. by apply Hexp, He. }
    destruct (Hin c Hc) as [E Ee]. rewrite E in H. rewrite Ee. pose proof (TIME_le now).
    assert (sc ≤ TIME now) as Hsc.
    { apply lookup_insert_Some in H as [[_ <-]|[_ H]]; [lia|]. by apply (Hw c id sc H). }
    split; [done|]. intros e [= <-]. lia.
Qed.

(** [ZADD] and [EXPIRE] on one set. *)
Lemma add_updates now c m s :
  updates now [c] m s (EXPIRE now (class_key c) (ttl_of c) (ZADD (class_key c) (TIME now) m s)).
Proof.
  pose proof (ttl_pos c) as Hp. assert (¬ (ttl_of c ≤ 0)) as Hn by lia. split.
  - intros c' ->%list_elem_of_singleton. unfold members. rewrite zset_EXPIRE, decide_False by tauto.
    rewrite zset_ZADD, decide_True by done. split; [done|]. unfold EXPIRE.
    assert (exists_key (class_key c) (ZADD (class_key c) (TIME now) m s) = true) as ->.
    { unfold exists_key, ZADD, put_zset. rewrite decide_False by apply insert_non_empty. simpl.
      rewrite lookup_insert_eq. by rewrite bool_decide_eq_true_2. }
    simpl. destruct (Z.leb_spec (ttl_of c) 0); [lia|]. simpl. by rewrite lookup_insert_eq.
  - intros c' Hc. assert (class_key c' ≠ class_key c) as Hk.
    { intros E%class_key_inj. subst. apply Hc. by left. }
    destruct (touches_trans _ _ _ _ (touches_put (class_key c) (<[m := TIME now]> (zset (class_key c) s)) s)
                (touches_EXPIRE now (class_key c) (ttl_of c) _) (class_key c') Hk) as [Hz He].
    by split.
Qed.
Lemma updates_load_one now c m s s' :
  updates now [c] m s s' → ∀ r, load r s' ≤ load r s + (if decide (members c s !! m = None) then 1 else 0).
Proof.
  intros [Hin Hout]. destruct (Hin c ltac:(by left)) as [E _].
  assert (∀ c', ZCARD (class_key c') s' ≤ ZCARD (class_key c') s
                + (if decide (c' = c) then if decide (members c s !! m = None) then 1 else 0 else 0)) as Hc.
  { intros c'. unfold ZCARD. case_decide as Hcc; [subst c'|].
    - fold (members c s') (members c s). rewrite E, map_size_insert. destruct (members c s !! m); simpl; lia.
    - fold (members c' s') (members c' s). destruct (Hout c') as [-> _]; [|lia].
      by intros ->%list_elem_of_singleton. }
  intros r. unfold load. pose proof (Hc (Regular r)). pose proof (Hc (LiveOf r)).
  destruct r; repeat case_decide; simplify_eq; lia.
Qed.
Lemma updates_load_other now cs m s s' r :
  updates now cs m s s' → Regular r ∉ cs → LiveOf r ∉ cs → load r s' = load r s.
Proof.
  intros [_ Hout] H1 H2. destruct (Hout _ H1) as [E1 _], (Hout _ H2) as [E2 _].
  unfold load, ZCARD. unfold members in *. by destruct r; rewrite E1, ?E2.
Qed.

(** ** The scripts *)

(** An id and its classes after an update. *)
Lemma updates_absent now cs m s s' c : updates now cs m s s' → c ∉ cs → members c s !! m = None → members c s' !! m = None.
Proof. intros [_ Hout] Hc. by destruct (Hout c Hc) as [-> _]. Qed.
Lemma updates_in now cs m s s' c : updates now cs m s s' → c ∈ cs → members c s' !! m = Some (TIME now).
Proof. intros [Hin _] Hc. destruct (Hin c Hc) as [-> _]. by rewrite lookup_insert_eq. Qed.

Lemma updates_out now cs m s s' :
  updates now cs m s s' →
  ∀ c, members c s !! m = None → (true = true ∧ c ∈ cs) ∨ members c s' !! m = None.
Proof.
  intros Hup c Hn. destruct (decide (c ∈ cs)); [by left|right]. by eapply updates_absent.
Qed.

Definition is_shared (r : resource) : bool := match r with Ingress _ => false | _ => true end.
Lemma shared_ttl r : is_shared r = true → ttl_of (Regular r) = slotTTLSeconds.
Proof. by destruct r. Qed.

Lemma clean_step now keep r s :
  sstep now keep s (ZREMRANGEBYSCORE (class_key (LiveOf r)) (TIME now - 60)
                      (ZREMRANGEBYSCORE (class_key (Regular r)) (TIME now - ttl_of (Regular r)) s)).
Proof.
  eapply sstep_trans; [apply expired_step|]. apply (expired_step now keep (LiveOf r)).
Qed.

Record acquires (now : Z) (cs : list slot_class) (m : string) (granted : bool) (s s' : Store) : Prop := {
  acq_step : sstep now (λ id, id ≠ m) s s';
  acq_in : granted = true → ∀ c, c ∈ cs → members c s' !! m = Some (TIME now);
  acq_out : ∀ c, members c s !! m = None → (granted = true ∧ c ∈ cs) ∨ members c s' !! m = None;
}.
Lemma acquires_after now cs m granted s1 s2 s3 :
  (∀ keep, sstep now keep s1 s2) → acquires now cs m granted s2 s3 → acquires now cs m granted s1 s3.
Proof.
  intros H1 [H2 Hin Hout]. split; [eapply sstep_trans; [apply H1|done]|done|].
  intros c' Hn. apply Hout. by apply (step_absent _ _ _ _ (H1 (λ _, True)) c' m I).
Qed.
Lemma refused_acquires now cs m s : acquires now cs m false s s.
Proof. split; [apply sstep_refl|done|by right]. Qed.
Lemma one_acquires now c m s :
  wf now s → (members c s !! m = None → ∀ r, c = Regular r → load r s + 1 ≤ Z.max (load r s) (bound r)) →
  (∃ r, c = Regular r) →
  acquires now [c] m true s (EXPIRE now (class_key c) (ttl_of c) (ZADD (class_key c) (TIME now) m s)).
Proof.
  intros Hw Hb [r ->]. pose proof (add_updates now (Regular r) m s) as Hup. split.
  - eapply updates_step; [exact Hup|by intros []|done|]. intros r'.
    destruct (decide (r' = r)) as [->|Hne].
    + pose proof (updates_load_one now (Regular r) m s _ Hup r). case_decide as Hn; [|lia].
      specialize (Hb Hn r eq_refl). lia.
    + rewrite (updates_load_other _ _ _ _ _ r' Hup); [lia|..]; intros E%list_elem_of_singleton; congruence.
  - intros _ c ->%list_elem_of_singleton. eapply updates_in; [exact Hup|by left].
  - by apply (updates_out _ _ _ _ _ Hup).
Qed.

Lemma acquireScript_acquires r max m now s :
  is_shared r = true → wf now s → max ≤ bound r →
  let res := acquireScript (class_key (Regular r)) (class_key (LiveOf r)) max slotTTLSeconds m now s in
  acquires now [Regular r] m (fst_is_1 (fst res)) s (snd res).
Proof.
  intros Hr Hw Hb. unfold acquireScript. rewrite <-(shared_ttl r Hr).
  set (s1 := ZREMRANGEBYSCORE (class_key (LiveOf r)) _ _).
  assert (∀ keep, sstep now keep s s1) as H1 by (intros keep; apply clean_step).
  pose proof (step_wf _ _ _ _ (H1 (λ _, True)) Hw) as Hw1.
  assert (load r s1 = ZCARD (class_key (Regular r)) s1 + ZCARD (class_key (LiveOf r)) s1) as Hl.
  { by destruct r. }
  unfold ZSCORE. fold (members (Regular r) s1).
  destruct (members (Regular r) s1 !! m) as [sc|] eqn:Em; [|destruct (Z.ltb_spec (ZCARD (class_key (Regular r)) s1 + ZCARD (class_key (LiveOf r)) s1) max)];
    cbn [fst snd fst_is_1 Z.eqb Pos.eqb]; (eapply acquires_after; [exact H1|]).
  - apply one_acquires; [done|congruence|eauto].
  - apply one_acquires; [done| |eauto]. intros _ r' [= <-]. lia.
  - apply refused_acquires.
Qed.

Lemma ingress_acquires id max m now s :
  wf now s → max ≤ bound (Ingress id) →
  let res := acquireOpenAIWSIngressLeaseScript (openAIWSIngressLeaseKey id) max openAIWSIngressLeaseTTLSeconds m now s in
  acquires now [Regular (Ingress id)] m (is_1 (fst res)) s (snd res).
Proof.
  intros Hw Hb. unfold acquireOpenAIWSIngressLeaseScript.
  change (openAIWSIngressLeaseKey id) with (class_key (Regular (Ingress id))).
  change openAIWSIngressLeaseTTLSeconds with (ttl_of (Regular (Ingress id))).
  set (s1 := ZREMRANGEBYSCORE _ _ _).
  assert (∀ keep, sstep now keep s s1) as H1 by (intros keep; apply expired_step).
  pose proof (step_wf _ _ _ _ (H1 (λ _, True)) Hw) as Hw1.
  unfold ZSCORE. fold (members (Regular (Ingress id)) s1).
  destruct (members (Regular (Ingress id)) s1 !! m) as [sc|] eqn:Em; [|destruct (Z.ltb_spec (ZCARD (class_key (Regular (Ingress id))) s1) max)];
    cbn [fst snd is_1 Z.eqb Pos.eqb]; (eapply acquires_after; [exact H1|]).
  - apply one_acquires; [done|congruence|eauto].
  - apply one_acquires; [done| |eauto]. intros _ r' [= <-]. unfold load. lia.
  - apply refused_acquires.
Qed.

(** A refresh keeps everything. *)
Record refreshes (now : Z) (c : slot_class) (m : string) (granted : bool) (s s' : Store) : Prop := {
  ref_step : sstep now (λ _, True) s s';
  ref_in : granted = true → members c s' !! m = Some (TIME now);
}.
Lemma ingress_refreshes id m now s :
  wf now s →
  let res := refreshOpenAIWSIngressLeaseScript (openAIWSIngressLeaseKey id) openAIWSIngressLeaseTTLSeconds m now s in
  refreshes now (Regular (Ingress id)) m (is_1 (fst res)) s (snd res).
Proof.
  intros Hw. unfold refreshOpenAIWSIngressLeaseScript.
  change (openAIWSIngressLeaseKey id) with (class_key (Regular (Ingress id))).
  change openAIWSIngressLeaseTTLSeconds with (ttl_of (Regular (Ingress id))).
  set (s1 := ZREMRANGEBYSCORE _ _ _).
  assert (sstep now (λ _, True) s s1) as H1 by apply expired_step.
  pose proof (step_wf _ _ _ _ H1 Hw) as Hw1.
  unfold ZSCORE. fold (members (Regular (Ingress id)) s1).
  destruct (members (Regular (Ingress id)) s1 !! m) as [sc|] eqn:Em; cbn [fst snd is_1 Z.eqb Pos.eqb].
  2: { split; done. }
  pose proof (add_updates now (Regular (Ingress id)) m s1) as Hup. split.
  - eapply sstep_trans; [exact H1|]. eapply updates_step; [exact Hup| |done|].
    + intros _ c ->%list_elem_of_singleton. eauto.
    + intros r. pose proof (updates_load_one now _ m s1 _ Hup r). rewrite Em in *. case_decide; [done|lia].
  - intros _. eapply updates_in; [exact Hup|by left].
Qed.

(** *** Live leases *)

Lemma expiry_EXPIRE now c k s :
  expiry (EXPIRE now (class_key c) (ttl_of c) s) !! k =
  if decide (k = class_key c ∧ exists_key k s = true) then Some (now + ttl_of c * 1000) else expiry s !! k.
Proof.
  pose proof (ttl_pos c) as Hp. unfold EXPIRE. destruct (exists_key (class_key c) s) eqn:E; simpl.
  - destruct (Z.leb_spec (ttl_of c) 0); [lia|]. simpl. case_decide as Hk.
    + destruct Hk as [-> _]. by rewrite lookup_insert_eq.
    + rewrite lookup_insert_ne; [done|]. intros <-. tauto.
  - case_decide as Hk; [|done]. destruct Hk as [-> Hk]. congruence.
Qed.
Lemma expiry_ZADD k sc m s k' : expiry (ZADD k sc m s) !! k' = expiry s !! k'.
Proof. unfold ZADD, put_zset. by rewrite decide_False by apply insert_non_empty. Qed.
Lemma exists_ZADD k sc m s k' : exists_key k' (ZADD k sc m s) = bool_decide (k' = k) || exists_key k' s.
Proof.
  unfold exists_key, ZADD, put_zset. rewrite decide_False by apply insert_non_empty. simpl.
  destruct (decide (k' = k)) as [->|Hne].
  - by rewrite lookup_insert_eq, (bool_decide_eq_true_2 (k = k)), (bool_decide_eq_true_2 (is_Some (Some _))) by eauto.
  - by rewrite lookup_insert_ne, (bool_decide_eq_false_2 (k' = k)) by congruence.
Qed.
Lemma exists_EXPIRE now c k s : exists_key k (EXPIRE now (class_key c) (ttl_of c) s) = exists_key k s.
Proof.
  pose proof (ttl_pos c) as Hp. unfold EXPIRE. destruct (negb _); [done|].
  destruct (Z.leb_spec (ttl_of c) 0); [lia|done].
Qed.
Lemma members_EXPIRE now c c' s : members c' (EXPIRE now (class_key c) (ttl_of c) s) = members c' s.
Proof. pose proof (ttl_pos c). unfold members. rewrite zset_EXPIRE, decide_False; [done|lia]. Qed.
Lemma members_ZADD c c' sc m s :
  members c' (ZADD (class_key c) sc m s) = if decide (c' = c) then <[m := sc]> (members c' s) else members c' s.
Proof.
  unfold members. rewrite zset_ZADD. repeat case_decide; try done; [|congruence].
  exfalso. by eapply (H0), class_key_inj.
Qed.

Definition live_classes (accountID userID apiKeyID : Z) : list slot_class :=
  [LiveOf (OfAccount accountID); LiveOf (OfUser userID); LiveOf (Ingress apiKeyID)].
Lemma live_updates now a u k m s :
  let t := TIME now in
  let A := LiveOf (OfAccount a) in let U := LiveOf (OfUser u) in let K := LiveOf (Ingress k) in
  let expire c s := EXPIRE now (class_key c) (ttl_of c) s in
  let add c s := ZADD (class_key c) t m s in
  updates now (live_classes a u k) m s (expire K (expire U (expire A (add K (add U (add A s)))))).
Proof.
  intros t A U K expire add. unfold live_classes. fold A U K.
  assert (A ≠ U ∧ A ≠ K ∧ U ≠ K) as (H1 & H2 & H3) by done.
  assert (class_key A ≠ class_key U ∧ class_key A ≠ class_key K ∧ class_key U ≠ class_key K) as (K1 & K2 & K3).
  { by split_and!; intros E%class_key_inj. }
  split; intros c Hc; unfold expire, add; rewrite !members_EXPIRE, !members_ZADD.
  - rewrite !expiry_EXPIRE, !exists_EXPIRE, !exists_ZADD, !expiry_ZADD. unfold t.
    apply elem_of_cons in Hc as [->|[->|[->|[]%not_elem_of_nil]%elem_of_cons]%elem_of_cons];
      repeat first [rewrite decide_True by done | rewrite decide_False by tauto
                   | rewrite (bool_decide_eq_true_2 (_ = _)) by done | rewrite orb_true_r | rewrite orb_true_l];
      (split; [done|]);
      repeat first [rewrite decide_True by (split; [done|]; rewrite ?(bool_decide_eq_true_2 (class_key A = class_key A)),
                       ?(bool_decide_eq_true_2 (class_key U = class_key U)) by done; by rewrite ?orb_true_r)
                   | rewrite decide_False by (intros [? _]; congruence)]; done.
  - apply not_elem_of_cons in Hc as [HA Hc]. apply not_elem_of_cons in Hc as [HU Hc].
    apply not_elem_of_cons in Hc as [HK _]. rewrite !decide_False by done. split; [done|].
    intros e. rewrite !expiry_EXPIRE, !expiry_ZADD.
    rewrite !decide_False; [done|..]; intros [E%class_key_inj _]; congruence.
Qed.

Lemma live_load now a u k m s s' :
  updates now (live_classes a u k) m s s' →
  members (LiveOf (OfAccount a)) s !! m = None →
  load (OfAccount a) s' ≤ load (OfAccount a) s + 1 ∧ load (OfUser u) s' ≤ load (OfUser u) s + 1 ∧
  ∀ r, r ≠ OfAccount a → r ≠ OfUser u → load r s' = load r s.
Proof.
  intros [Hin Hout] _. unfold live_classes in *.
  assert (∀ r, ZCARD (class_key (Regular r)) s' = ZCARD (class_key (Regular r)) s) as Hr.
  { intros r. unfold ZCARD. fold (members (Regular r) s') (members (Regular r) s).
    destruct (Hout (Regular r)) as [-> _]; [|done]. rewrite !not_elem_of_cons. split_and!; [done..|apply not_elem_of_nil]. }
  assert (∀ r, ZCARD (class_key (LiveOf r)) s' ≤ ZCARD (class_key (LiveOf r)) s + 1) as Hl.
  { intros r. unfold ZCARD. fold (members (LiveOf r) s') (members (LiveOf r) s).
    destruct (decide (LiveOf r ∈ live_classes a u k)) as [Hc|Hc].
    - destruct (Hin _ Hc) as [-> _]. pose proof (size_insert_le (members (LiveOf r) s) m (TIME now)). lia.
    - destruct (Hout _ Hc) as [-> _]. lia. }
  unfold load. split_and!.
  - rewrite Hr. pose proof (Hl (OfAccount a)). lia.
  - rewrite Hr. pose proof (Hl (OfUser u)). lia.
  - intros r Ha Hu. rewrite Hr. destruct r as [a'|u'|k']; [| |done]; f_equal; unfold ZCARD; f_equal; f_equal;
      apply Hout; rewrite !not_elem_of_cons; split_and!; try apply not_elem_of_nil; congruence.
Qed.

Lemma live_acquires a amax u umax k m (replacing now : Z) s :
  wf now s → members (LiveOf (OfAccount a)) s !! m = None →
  0 < amax → amax + 1 ≤ bound (OfAccount a) → 0 < umax → umax + 1 ≤ bound (OfUser u) →
  let res := acquireLiveLeaseScript (accountSlotKey a) (liveAccountSlotKey a) (userSlotKey u) (liveUserSlotKey u)
               (liveAPIKeySlotKey k) amax umax liveLeaseTTLSeconds m replacing now s in
  acquires now (live_classes a u k) m (is_1 (fst res)) s (snd res).
Proof.
  intros Hw Hm Ha Hab Hu Hub. unfold acquireLiveLeaseScript.
  change (liveAccountSlotKey a) with (class_key (LiveOf (OfAccount a))).
  change (liveUserSlotKey u) with (class_key (LiveOf (OfUser u))).
  change (liveAPIKeySlotKey k) with (class_key (LiveOf (Ingress k))).
  set (s1 := ZREMRANGEBYSCORE (class_key (LiveOf (Ingress k))) _ _).
  assert (∀ keep, sstep now keep s s1) as H1.
  { intros keep. eapply sstep_trans; [apply (expired_step now keep (LiveOf (OfAccount a)))|].
    eapply sstep_trans; [apply (expired_step now keep (LiveOf (OfUser u)))|].
    apply (expired_step now keep (LiveOf (Ingress k))). }
  pose proof (step_wf _ _ _ _ (H1 (λ _, True)) Hw) as Hw1.
  pose proof (step_absent _ _ _ _ (H1 (λ _, True)) _ _ I Hm) as Hm1.
  unfold ZSCORE. fold (members (LiveOf (OfAccount a)) s1). rewrite Hm1. cbv zeta.
  set (allow := if replacing =? 1 then 1 else 0). assert (allow ≤ 1) as Hal by (unfold allow; destruct (_ =? _); lia).
  destruct (Z.ltb_spec 0 amax); [|lia]. destruct (Z.ltb_spec 0 umax); [|lia]. cbn [andb].
  assert (load (OfAccount a) s1 = ZCARD (accountSlotKey a) s1 + ZCARD (class_key (LiveOf (OfAccount a))) s1) as La by done.
  assert (load (OfUser u) s1 = ZCARD (userSlotKey u) s1 + ZCARD (class_key (LiveOf (OfUser u))) s1) as Lu by done.
  destruct (Z.leb_spec (amax + allow) (ZCARD (accountSlotKey a) s1 + ZCARD (class_key (LiveOf (OfAccount a))) s1));
    [eapply acquires_after; [exact H1|apply refused_acquires]|].
  destruct (Z.leb_spec (umax + allow) (ZCARD (userSlotKey u) s1 + ZCARD (class_key (LiveOf (OfUser u))) s1));
    [eapply acquires_after; [exact H1|apply refused_acquires]|].
  cbn [fst snd is_1 Z.eqb Pos.eqb]. eapply acquires_after; [exact H1|].
  set (s2 := EXPIRE _ _ _ _). assert (updates now (live_classes a u k) m s1 s2) as Hup by apply live_updates.
  split; [| |by apply (updates_out _ _ _ _ _ Hup)].
  - eapply updates_step; [exact Hup|by intros []|done|]. intros r.
    destruct (live_load _ _ _ _ _ _ _ Hup Hm1) as (L1 & L2 & L3).
    destruct (decide (r = OfAccount a)) as [->|Hra]; [lia|]. destruct (decide (r = OfUser u)) as [->|Hru]; [lia|].
    rewrite (L3 r Hra Hru). lia.
  - intros _ c Hc. by eapply updates_in.
Qed.

(** *** Refreshing a live lease *)

Lemma updates_nil now m s : updates now [] m s s.
Proof. split; [by intros c []%not_elem_of_nil|done]. Qed.
(** The loop of the second half: [ZADD] and [EXPIRE], set by set. *)
Lemma updates_cons now c cs m s1 s3 :
  let s2 := EXPIRE now (class_key c) (ttl_of c) (ZADD (class_key c) (TIME now) m s1) in
  c ∉ cs → updates now cs m s2 s3 →
  (∀ e, expiry s2 !! class_key c = Some e → expiry s3 !! class_key c = Some e) →
  updates now (c :: cs) m s1 s3.
Proof.
  intros s2 Hc [I2 O2] He. destruct (add_updates now c m s1) as [I1 O1]. fold s2 in I1, O1. split; intros c'.
  - intros [->|Hc']%elem_of_cons.
    + destruct (I1 c ltac:(by left)) as [E1 X1], (O2 c Hc) as [E2 _]. split; [congruence|by apply He].
    + assert (c' ∉ [c]) as Hn by (intros ->%list_elem_of_singleton; done).
      destruct (O1 c' Hn) as [E1 _], (I2 c' Hc') as [E2 X2]. split; [congruence|done].
  - intros [Hne Hc']%not_elem_of_cons.
    assert (c' ∉ [c]) as Hn by by intros ->%list_elem_of_singleton.
    destruct (O1 c' Hn) as [E1 X1], (O2 c' Hc') as [E2 X2]. split; [congruence|auto].
Qed.
Lemma touch_expiry now c c' m s :
  c' ≠ c → expiry (EXPIRE now (class_key c) (ttl_of c) (ZADD (class_key c) (TIME now) m s)) !! class_key c'
           = expiry s !! class_key c'.
Proof.
  intros Hne. rewrite expiry_EXPIRE, decide_False, expiry_ZADD; [done|]. intros [E%class_key_inj _]. congruence.
Qed.
Lemma refresh_updates now a u k m s :
  updates now (live_classes a u k) m s
    (foldl (λ s key, EXPIRE now key liveLeaseTTLSeconds (ZADD key (TIME now) m s)) s (live_keys a u k)).
Proof.
  unfold live_classes, live_keys. simpl foldl.
  apply updates_cons; [rewrite !not_elem_of_cons; split_and!; try apply not_elem_of_nil; congruence| |].
  2: { intros e. rewrite (touch_expiry now (LiveOf (Ingress k))), (touch_expiry now (LiveOf (OfUser u))); done. }
  apply updates_cons; [rewrite !not_elem_of_cons; split_and!; try apply not_elem_of_nil; congruence| |].
  2: { intros e. by rewrite (touch_expiry now (LiveOf (Ingress k))). }
  apply (add_updates now (LiveOf (Ingress k))).
Qed.

Lemma live_held_spec now (keep : string → Prop) m cs s :
  (∀ c, c ∈ cs → ttl_of c = liveLeaseTTLSeconds) →
  let r := live_held (class_key <$> cs) (TIME now - liveLeaseTTLSeconds) m s in
  sstep now keep s (snd r) ∧ (fst r = true → NoDup cs → ∀ c, c ∈ cs → is_Some (members c (snd r) !! m)).
Proof.
  revert s. induction cs as [|c cs IH]; intros s Ht; simpl.
  { split; [apply sstep_refl|by intros _ _ c []%not_elem_of_nil]. }
  assert (sstep now keep s (ZREMRANGEBYSCORE (class_key c) (TIME now - liveLeaseTTLSeconds) s)) as H1.
  { rewrite <-(Ht c) by (by left). apply expired_step. }
  destruct (ZSCORE (class_key c) m _) as [sc|] eqn:Em; [|by split].
  destruct (IH (ZREMRANGEBYSCORE (class_key c) (TIME now - liveLeaseTTLSeconds) s)) as [H2 Hin].
  { intros c' Hc'. apply Ht. by right. }
  split; [by eapply sstep_trans|]. intros Hr [Hc Hnd]%NoDup_cons c' [->|Hc']%elem_of_cons; [|by apply Hin].
  clear - Em Hc. unfold ZSCORE in Em. fold (members c (ZREMRANGEBYSCORE (class_key c) (TIME now - liveLeaseTTLSeconds) s)) in Em.
  revert Em. generalize (ZREMRANGEBYSCORE (class_key c) (TIME now - liveLeaseTTLSeconds) s). clear s.
  induction cs as [|d cs IH]; intros s Hs; simpl; [eauto|]. apply not_elem_of_cons in Hc as [Hcd Hc].
  assert (members c (ZREMRANGEBYSCORE (class_key d) (TIME now - liveLeaseTTLSeconds) s) !! m = Some sc) as H.
  { unfold members. rewrite zset_ZREMRANGEBYSCORE, decide_False; [done|]. by intros E%class_key_inj. }
  destruct (ZSCORE _ _ _); [by apply IH|simpl; eauto].
Qed.
Lemma live_refreshes a u k m now s :
  wf now s →
  let res := refreshLiveLeaseScript (live_keys a u k) liveLeaseTTLSeconds m now s in
  refreshes now (LiveOf (OfAccount a)) m (is_1 (fst res)) s (snd res).
Proof.
  intros Hw. unfold refreshLiveLeaseScript.
  destruct (live_held_spec now (λ _, True) m (live_classes a u k) s) as [H1 Hin].
  { intros c. unfold live_classes. rewrite !elem_of_cons. by intros [->|[->|[->|[]%not_elem_of_nil]]]. }
  change (class_key <$> live_classes a u k) with (live_keys a u k) in H1, Hin.
  destruct (live_held (live_keys a u k) (TIME now - liveLeaseTTLSeconds) m s) as [held s1] eqn:Eh.
  cbn [fst snd] in *. destruct held; cbn [fst snd is_1 Z.eqb Pos.eqb]; [|by split].
  pose proof (step_wf _ _ _ _ H1 Hw) as Hw1. pose proof (refresh_updates now a u k m s1) as Hup.
  assert (NoDup (live_classes a u k)) as Hnd.
  { unfold live_classes. apply NoDup_cons. split; [rewrite !not_elem_of_cons; split_and!; try apply not_elem_of_nil; congruence|].
    apply NoDup_cons. split; [rewrite not_elem_of_cons; split; [congruence|apply not_elem_of_nil]|]. apply NoDup_singleton. }
  specialize (Hin eq_refl Hnd). split.
  - eapply sstep_trans; [exact H1|]. eapply updates_step; [exact Hup|by intros _|done|]. intros r.
    assert (load r (foldl (λ s key, EXPIRE now key liveLeaseTTLSeconds (ZADD key (TIME now) m s)) s1 (live_keys a u k)) ≤ load r s1); [|lia].
    destruct Hup as [I O].
    assert (∀ c, ZCARD (class_key c) (foldl (λ s key, EXPIRE now key liveLeaseTTLSeconds (ZADD key (TIME now) m s)) s1 (live_keys a u k))
                 = ZCARD (class_key c) s1) as Hc.
    { intros c. unfold ZCARD. f_equal. fold (members c s1).
      destruct (decide (c ∈ live_classes a u k)) as [Hc|Hc].
      - destruct (I c Hc) as [E _]. unfold members in E at 1. rewrite E, map_size_insert.
        destruct (Hin c Hc) as [sc ->]. done.
      - destruct (O c Hc) as [E _]. unfold members in E at 1. by rewrite E. }
    unfold load. destruct r; rewrite !Hc; lia.
  - intros _. eapply updates_in; [exact Hup|by left].
Qed.

(** *** The other scripts *)

Lemma count_step now keep r s :
  is_shared r = true →
  sstep now keep s (snd (getCountScript (class_key (Regular r)) (class_key (LiveOf r)) slotTTLSeconds now s)).
Proof. intros Hr. unfold getCountScript. rewrite <-(shared_ttl r Hr). apply clean_step. Qed.
Lemma cleanup_step now keep id s :
  sstep now keep s (snd (cleanupExpiredSlotsScript (accountSlotKey id) slotTTLSeconds now s)).
Proof.
  unfold cleanupExpiredSlotsScript. change (accountSlotKey id) with (class_key (Regular (OfAccount id))).
  change slotTTLSeconds with (ttl_of (Regular (OfAccount id))).
  eapply sstep_trans; [apply expired_step|apply del_empty_step].
Qed.
Lemma remove_steps now (keep : string → Prop) c l s :
  (∀ m, m ∈ l → calm → ¬ keep m) → sstep now keep s (foldl (λ s m, ZREM (class_key c) m s) s l).
Proof.
  revert s. induction l as [|m l IH]; intros s Hl; simpl; [apply sstep_refl|].
  eapply sstep_trans; [apply (remove_step now keep c m); apply Hl; by left|].
  apply IH. intros m' Hm'. apply Hl. by right.
Qed.
Lemma startup_step now prefix r s :
  is_shared r = true →
  sstep now (λ id, calm → HasPrefix id prefix = true) s
    (snd (startupCleanupSlotScript (class_key (Regular r)) prefix slotTTLSeconds now s)).
Proof.
  intros Hr. unfold startupCleanupSlotScript. rewrite <-(shared_ttl r Hr).
  eapply sstep_trans; [|apply del_empty_step].
  apply remove_steps. intros m [_ Hm]%list_elem_of_In%filter_In Hc Hk.
  apply negb_true_iff, not_true_iff_false in Hm. auto.
Qed.
Lemma wait_step now keep k max ttl s :
  foreign k → sstep now keep s (snd (incrementWaitScript k max ttl now s)).
Proof.
  intros Hk. unfold incrementWaitScript. destruct (_ <=? _); [apply sstep_refl|].
  eapply foreign_step; [exact Hk|]. eapply touches_trans; [apply touches_INCRBY|apply touches_EXPIRE].
Qed.
Lemma decrement_step now keep k s : foreign k → sstep now keep s (snd (decrementWaitScript k now s)).
Proof.
  intros Hk. unfold decrementWaitScript. destruct (GET k s) as [v|]; [|apply sstep_refl].
  simpl. destruct (0 <? v); [|apply sstep_refl]. eapply foreign_step; [exact Hk|apply touches_INCRBY].
Qed.
Lemma key_acquires now id m s :
  wf now s →
  let res := trackSlotScript (apiKeySlotKey id) slotTTLSeconds m now s in
  acquires now [KeyUse id] m true s (snd res).
Proof.
  intros Hw. unfold trackSlotScript. cbn [snd]. change (apiKeySlotKey id) with (class_key (KeyUse id)).
  change slotTTLSeconds with (ttl_of (KeyUse id)). set (s1 := ZREMRANGEBYSCORE _ _ _).
  assert (∀ keep, sstep now keep s s1) as H1 by (intros keep; apply expired_step).
  eapply acquires_after; [exact H1|]. pose proof (add_updates now (KeyUse id) m s1) as Hup. split.
  - eapply updates_step; [exact Hup|by intros []|eapply step_wf; [apply (H1 (λ _, True))|done]|].
    intros r. rewrite (updates_load_other _ _ _ _ _ r Hup); [lia|..]; by intros E%list_elem_of_singleton.
  - intros _ c ->%list_elem_of_singleton. eapply updates_in; [exact Hup|by left].
  - by apply (updates_out _ _ _ _ _ Hup).
Qed.
End Slots.
