(* ===== verification/ConcurrencyProps.v ===== *)
(** * Properties of the concurrency slots

    However many instances of the server run, whatever commands fail and however
    their commands interleave, an account, a user and the connections of an API
    key stay within their bounds; what is relied upon is counted, as long as no
    instance that starts sweeps it away; and when nothing fails everything is
    given back, the use of the API key included. *)

From Stdlib Require Import ZArith Lia Ascii String Bool.
From stdpp Require Import base numbers option list gmap strings sorting pretty.
From S2P Require Import Prelude GoStrings GoTrim GoFloat Proc ProcGhost RedisStore ConcurrencySlots ConcurrencySteps.

#[local] Open Scope Z_scope.
#[local] Set Warnings "-clear-no-such-hyp".

Lemma size_dom_union (m1 m2 : gmap string Z) (X : list string) :
  NoDup X → (∀ id, id ∈ X → is_Some (m1 !! id) ∨ is_Some (m2 !! id)) → (length X ≤ size m1 + size m2)%nat.
Proof.
  intros Hnd HX. rewrite <-(size_list_to_set (C := gset string) X) by done.
  etrans; [apply subseteq_size with (Y := dom m1 ∪ dom m2)|].
  - intros id Hid%elem_of_list_to_set. rewrite elem_of_union, !elem_of_dom. auto.
  - rewrite size_union_alt, !size_dom.
    assert (size (dom m2 ∖ dom m1) ≤ size (dom m2))%nat as Hd by (apply subseteq_size; set_solver).
    rewrite size_dom in Hd. lia.
Qed.

Section Slots.
Context (slotTTLSeconds waitQueueTTLSeconds : Z) (Httl : 0 < slotTTLSeconds).
Context (bound : resource → Z) (calm : Prop).
Abbreviation wf := (wf slotTTLSeconds).
Abbreviation sstep := (sstep slotTTLSeconds bound calm).
Abbreviation ttl_of := (ttl_of slotTTLSeconds).
Abbreviation acquires := (acquires slotTTLSeconds bound calm).
Abbreviation refreshes := (refreshes slotTTLSeconds bound calm).

(** ** Steps of the world *)

(** A grant of time [g] counts: it is over, or its id is a member. *)
Definition counted (c : slot_class) (id : string) (g : Z) (w : SlotWorld) : Prop :=
  g + ttl_of c ≤ TIME (clock w) ∨ ∃ sc, g ≤ sc ∧ members c (store w) !! id = Some sc.
Definition absent (c : slot_class) (id : string) (w : SlotWorld) : Prop := members c (store w) !! id = None.

Record wstep (keep : string → Prop) (w w' : SlotWorld) : Prop := {
  ws_clock : clock w ≤ clock w';
  ws_load : ∀ r, load r (store w') ≤ Z.max (load r (store w)) (bound r);
  ws_wf : wf (clock w') (store w');
  ws_holding : ∀ id, keep id → id ∈ holding w' ↔ id ∈ holding w;
  ws_grants : ∀ id, keep id → grants w' !! id = grants w !! id;
  ws_counted : ∀ id c g, calm → keep id → counted c id g w → counted c id g w';
  ws_absent : ∀ id c, keep id → absent c id w → absent c id w';
}.
Lemma wstep_weaken (keep keep' : string → Prop) w w' :
  (∀ id, keep' id → keep id) → wstep keep w w' → wstep keep' w w'.
Proof. intros Hk []. split; eauto. Qed.
Lemma wstep_refl keep w : wf (clock w) (store w) → wstep keep w w.
Proof. intros Hw. split; [lia|lia|done..]. Qed.
Lemma wstep_trans keep w1 w2 w3 : wstep keep w1 w2 → wstep keep w2 w3 → wstep keep w1 w3.
Proof.
  intros [C1 L1 W1 H1 G1 K1 A1] [C2 L2 W2 H2 G2 K2 A2]. split; [lia| |done|..].
  - intros r. specialize (L1 r). specialize (L2 r). lia.
  - intros id Hk. rewrite H2 by done. by apply H1.
  - intros id Hk. rewrite G2 by done. by apply G1.
  - eauto.
  - eauto.
Qed.

Lemma wf_mono now now' s : now ≤ now' → wf now s → wf now' s.
Proof.
  intros Hn Hw c id sc H. destruct (Hw c id sc H) as [Hsc He]. split; [|done].
  pose proof (TIME_mono now now' Hn). lia.
Qed.

(** The store at the time of a command, and after it. *)
Definition at_time (now : Z) (s : Store) (g : gmap string (slot_class * Z)) (w : SlotWorld) : SlotWorld :=
  {| store := s; clock := now; grants := g; holding := holding w |}.
Lemma command_wstep (keep : string → Prop) now s g w :
  clock w ≤ now → wf (clock w) (store w) →
  sstep now keep (live now (store w)) s →
  (∀ id, keep id → g !! id = grants w !! id) →
  wstep keep w (at_time now s g w).
Proof.
  intros Hn Hw Hs Hg. pose proof (wf_mono _ now _ Hn Hw) as Hw'.
  pose proof (sstep_trans _ _ _ _ _ _ _ _ (live_step _ bound calm _ keep _ Hw') Hs) as [L K A W].
  split; simpl; [done|done|by apply W|done|done| |].
  - intros id c g0 Hcalm Hk [Ho|(sc & Hle & Hm)].
    + left. simpl. pose proof (TIME_mono (clock w) now Hn). lia.
    + destruct (K c id sc Hcalm Hk Hm) as [Ho|(sc' & Hle' & Hm')]; [left; simpl; lia|right].
      exists sc'. split; [lia|done].
  - intros id c Hk Ha. by apply A.
Qed.

(** ** Triples

    A process generates ids, [mine], which no other process acts for; [real] are
    the ids of all processes.  Its state: it holds at most the ids [H], each with
    a grant that counts; of its ids only those in [U] have been used; and when
    nothing fails ([fine]) nothing but what [A] lists is in the sets. *)
Definition granted_now (c : slot_class) (id : string) (w : SlotWorld) : Prop :=
  ∃ g, grants w !! id = Some (c, g) ∧ (calm → counted c id g w).

Section Process.
Context (mine real : string → Prop) (fine : Prop) (Hreal : ∀ id, mine id → real id).

Definition Held (w : SlotWorld) : Prop := ∀ id, mine id → id ∈ holding w → ∃ c, granted_now c id w.
Definition not_mine (id : string) : Prop := ¬ mine id ∧ real id.
Definition OK (o : SlotOracle) : Prop := fine → so_fate o = Fine.
Definition own_step (w w' : SlotWorld * ()) : Prop := wstep not_mine (fst w) (fst w') ∧ Held (fst w').
Definition other_step (w w' : SlotWorld * ()) : Prop := wstep mine (fst w) (fst w').
Definition triple {A} (P : SlotWorld → Prop) (p : slot A) (Q : A → SlotWorld → Prop) : Prop :=
  gsafe OK other_step own_step (λ w, P (fst w)) p (λ a w, Q a (fst w)).

Record St (H : list string) (A : list (string * slot_class)) (U : list string) (w : SlotWorld) : Prop := {
  st_wf : wf (clock w) (store w);
  st_held : ∀ id, mine id → id ∈ holding w → id ∈ H ∧ ∃ c, granted_now c id w;
  st_fresh : ∀ id c, mine id → id ∉ U → absent c id w;
  st_clean : ∀ id c, fine → mine id → ¬ absent c id w → (id, c) ∈ A;
}.
Definition steady (P : SlotWorld → Prop) : Prop := ∀ w w', P w → wstep mine w w' → P w'.

Lemma granted_kept c id w w' : mine id → wstep mine w w' → granted_now c id w → granted_now c id w'.
Proof. intros Hm [] (g & Hg & Hc). exists g. split; [by rewrite ws_grants0|eauto]. Qed.
Lemma Held_kept w w' : Held w → wstep mine w w' → Held w'.
Proof.
  intros HH Hs id Hm Hin. pose proof Hs as []. apply ws_holding0 in Hin; [|done].
  destruct (HH id Hm Hin) as [c Hc]. exists c. by eapply granted_kept.
Qed.
Lemma St_Held H A U w : St H A U w → Held w.
Proof. intros [_ HH _ _] id Hm Hin. by destruct (HH id Hm Hin). Qed.
Lemma St_kept H A U w w' : St H A U w → wstep mine w w' → St H A U w'.
Proof.
  intros [W HH HF HA] Hs. pose proof Hs as []. split; [done|..].
  - intros id Hm Hin. apply ws_holding0 in Hin; [|done]. destruct (HH id Hm Hin) as [Hi [c Hc]].
    split; [done|]. exists c. by eapply granted_kept.
  - eauto.
  - intros id c Hf Hm Hn. apply HA; [done|done|]. intros Ha. apply Hn. eauto.
Qed.
Lemma St_steady H A U : steady (St H A U).
Proof. intros w w'. apply St_kept. Qed.
Lemma granted_steady c id : mine id → steady (granted_now c id).
Proof. intros Hm w w' Hg Hs. by eapply granted_kept. Qed.
Lemma steady_and P Q : steady P → steady Q → steady (λ w, P w ∧ Q w).
Proof. intros HP HQ w w' [? ?] Hs. split; eauto. Qed.
Lemma steady_const (φ : Prop) : steady (λ _, φ).
Proof. by intros w w'. Qed.
Lemma clock_steady t : steady (λ w, t ≤ TIME (clock w)).
Proof. intros w w' Ht []. pose proof (TIME_mono (clock w) (clock w') ws_clock0). lia. Qed.
Lemma all_kept (keep : string → Prop) w w' : (∀ id, keep id → real id) → wstep real w w' → wstep keep w w'.
Proof. intros Hk Hs. by eapply wstep_weaken, Hs. Qed.
Lemma own_kept w w' : wstep real w w' → wstep mine w w' ∧ wstep not_mine w w'.
Proof. intros Hs. split; (eapply all_kept; [|exact Hs]); [exact Hreal|by intros id []]. Qed.

Lemma slot_bind {A B} P (p : slot A) Q (k : A → slot B) Q' :
  triple P p Q → (∀ a, triple (Q a) (k a) Q') → triple P (proc_bind p k) Q'.
Proof. intros Hp Hk. by apply (gsafe_bind _ _ _ _ _ _ _ _ Hp). Qed.
Lemma slot_weaken {A} P P' (p : slot A) Q Q' :
  triple P p Q → (∀ w, P' w → P w) → (∀ a w, Q a w → Q' a w) → triple P' p Q'.
Proof. intros Hp H1 H2. eapply gsafe_weaken; [exact Hp|intros w; apply H1|intros a w; apply H2]. Qed.
Lemma slot_pre {A} P P' (p : slot A) Q : (∀ w, P' w → P w) → triple P p Q → triple P' p Q.
Proof. intros H1 Hp. eapply slot_weaken; [exact Hp|exact H1|done]. Qed.
Lemma slot_post {A} P (p : slot A) Q Q' : triple P p Q → (∀ a w, Q a w → Q' a w) → triple P p Q'.
Proof. intros Hp H2. eapply slot_weaken; [exact Hp|done|exact H2]. Qed.
Lemma slot_ret {A} P (a : A) Q : (∀ w, P w → Q a w) → triple P (Ret a) Q.
Proof. intros HP w. apply HP. Qed.
(** One action. *)
Lemma slot_act {B} P (f : SlotOracle → SlotWorld → B * SlotWorld) Q :
  (∀ b, steady (Q b)) →
  (∀ o w, OK o → P w →
     wstep not_mine w (snd (f o w)) ∧ Held (snd (f o w)) ∧ Q (fst (f o w)) (snd (f o w))) →
  triple P (act f) Q.
Proof.
  intros HQ Hf. apply gsafe_act.
  - intros o s [] Ho HP. exists (). destruct (Hf o s Ho HP) as (Hs & Hh & Hq). by split.
  - intros b [w []] [w' []]. apply HQ.
Qed.
Lemma slot_absurd {A} (P : SlotWorld → Prop) (p : slot A) Q : (∀ w, ¬ P w) → triple P p Q.
Proof. intros HP. apply gsafe_absurd. by intros w ?%HP. Qed.
Lemma slot_pure {A} (φ : Prop) `{!Decision φ} P (p : slot A) Q :
  (φ → triple P p Q) → triple (λ w, φ ∧ P w) p Q.
Proof.
  intros Hp. destruct (decide φ) as [Hφ|Hφ].
  - eapply slot_pre; [by intros w [_ Hw]; exact Hw|by apply Hp].
  - apply slot_absurd. by intros w [].
Qed.

Lemma St_weaken (H H' : list string) (A A' : list (string * slot_class)) (U U' : list string) w :
  H ⊆ H' → A ⊆ A' → U ⊆ U' → St H A U w → St H' A' U' w.
Proof.
  intros HH HA HU [W h f a]. split; [done|..].
  - intros id Hm Hin. destruct (h id Hm Hin). split; auto.
  - eauto.
  - eauto.
Qed.

(** *** Actions that leave everything as it is *)

Record sound (P : SlotWorld → Prop) : Prop := {
  sound_steady : steady P;
  sound_wf : ∀ w, P w → wf (clock w) (store w);
  sound_held : ∀ w, P w → Held w;
}.
Lemma St_sound H A U : sound (St H A U).
Proof. split; [apply St_steady|by intros w []|intros w; apply St_Held]. Qed.
Lemma sound_and P Q : sound P → steady Q → sound (λ w, P w ∧ Q w).
Proof. intros [? ? ?] HQ. split; [by apply steady_and|intros w []; auto..]. Qed.

Lemma sound_idle P w : sound P → P w → wf (clock w) (store w) ∧ Held w ∧ P w.
Proof. intros [? HW HH] Hw. split_and!; [by apply HW|by apply HH|done]. Qed.

Definition mild {A} (p : slot A) : Prop := ∀ P, sound P → triple P p (λ _, P).
(** What is mild from an instant on. *)
Definition mild_from (t : Z) {A} (p : slot A) : Prop :=
  ∀ P, sound P → (∀ w, P w → t ≤ TIME (clock w)) → triple P p (λ _, P).

Lemma mild_bind {A B} (p : slot A) (k : A → slot B) : mild p → (∀ a, mild (k a)) → mild (proc_bind p k).
Proof. intros Hp Hk P HP. eapply slot_bind; [by apply Hp|]. intros a. by apply Hk. Qed.
Lemma mild_ret {A} (a : A) : mild (Ret a).
Proof. intros P HP. by apply slot_ret. Qed.
Lemma mild_ask {B} (f : SlotOracle → B) : mild (ask f).
Proof.
  intros P HP. apply slot_act; [intros _; apply HP|]. intros o w _ Hw.
  split_and!; [apply wstep_refl; by apply HP|by apply HP|exact Hw].
Qed.
Lemma mild_from_mild t {A} (p : slot A) : mild p → mild_from t p.
Proof. intros Hp P HP _. by apply Hp. Qed.
Lemma mild_from_bind t {A B} (p : slot A) (k : A → slot B) :
  mild_from t p → (∀ a, mild_from t (k a)) → mild_from t (proc_bind p k).
Proof. intros Hp Hk P HP Ht. eapply slot_bind; [by apply Hp|]. intros a. by apply Hk. Qed.

Lemma wf_later w now : clock w ≤ now → wf (clock w) (store w) → wf now (live now (store w)).
Proof.
  intros Hn Hw. pose proof (wf_mono _ now _ Hn Hw) as Hw'.
  eapply (step_wf _ _ _ _ _ _ _ (live_step _ bound calm now (λ _, True) (store w) Hw')), Hw'.
Qed.
Lemma redis_step {B} (granted : B → option (string * slot_class)) (f : Z → Store → B * Store)
    (P : SlotWorld → Prop) Q :
  (∀ b, steady (Q b)) →
  (∀ w, P w → ¬ fine → wf (clock w) (store w) ∧ Held w ∧ Q None w) →
  (∀ w now, P w → clock w ≤ now →
     let res := f now (live now (store w)) in
     let w' := at_time now (snd res) (match granted (fst res) with
                                      | Some (id, c) => <[id := (c, TIME now)]> (grants w)
                                      | None => grants w
                                      end) w in
     wstep not_mine w w' ∧ Held w' ∧ (¬ fine → Q None w') ∧ Q (Some (fst res)) w') →
  triple P (redis_granting granted f) Q.
Proof.
  intros HQ Hfail Hok. apply slot_act; [done|]. intros o w Ho HP. cbv beta zeta.
  specialize (Hok w (Z.max (clock w) (so_now o)) HP (Z.le_max_l _ _)). cbv zeta in Hok.
  destruct (so_fate o) eqn:Eo.
  - destruct (f _ _) as [b s]. by destruct Hok as (? & ? & ? & ?).
  - assert (¬ fine) as Hf by (intros Hf; specialize (Ho Hf); congruence).
    destruct (Hfail w HP Hf) as (? & ? & ?). split_and!; [by apply wstep_refl|done..].
  - assert (¬ fine) as Hf by (intros Hf; specialize (Ho Hf); congruence).
    destruct (f _ _) as [b s]. destruct Hok as (? & ? & ? & ?). split_and!; auto.
Qed.

(** Commands that spare everybody's ids, and what their answers satisfy. *)
Lemma redis_answers {B} P (f : Z → Store → B * Store) (φ : option B → Prop) :
  sound P →
  (∀ w now, P w → clock w ≤ now → wf now (live now (store w)) →
     sstep now real (live now (store w)) (snd (f now (live now (store w))))) →
  φ None → (∀ now s, φ (Some (fst (f now s)))) →
  triple P (redis f) (λ r w, φ r ∧ P w).
Proof.
  intros HP Hf Hnone Hsome.
  apply redis_step; [intros b; apply steady_and; [apply steady_const|apply (sound_steady P HP)]| |].
  { intros w Hw _. destruct (sound_idle P w HP Hw) as (? & ? & ?). by split_and!. }
  intros w now Hw Hn. cbv zeta.
  assert (wstep real w (at_time now (snd (f now (live now (store w)))) (grants w) w)) as Hs.
  { apply command_wstep; [done|by apply (sound_wf P HP)| |done].
    apply Hf; [done..|]. apply wf_later; [done|by apply (sound_wf P HP)]. }
  apply own_kept in Hs as [Hm Ho]. assert (P (at_time now (snd (f now (live now (store w)))) (grants w) w)) as Hp.
  { by eapply (sound_steady P HP). }
  split_and!; [done|by apply (sound_held P HP)|done|apply Hsome|done].
Qed.
Lemma redis_spares {B} P (f : Z → Store → B * Store) :
  sound P →
  (∀ w now, P w → clock w ≤ now → wf now (live now (store w)) →
     sstep now real (live now (store w)) (snd (f now (live now (store w))))) →
  triple P (redis f) (λ _, P).
Proof.
  intros HP Hf. eapply slot_post; [apply (redis_answers P f (λ _, True)); done|]. by intros r w [_ Hw].
Qed.
Lemma mild_redis {B} (f : Z → Store → B * Store) :
  (∀ now s, wf now s → sstep now real s (snd (f now s))) → mild (redis f).
Proof. intros Hf P HP. apply redis_spares; [done|auto]. Qed.
Lemma mild_redis_from t {B} (f : Z → Store → B * Store) :
  (∀ now s, t ≤ TIME now → wf now s → sstep now real s (snd (f now s))) → mild_from t (redis f).
Proof.
  intros Hf P HP Ht. apply redis_spares; [done|]. intros w now Hw Hn. apply Hf.
  pose proof (TIME_mono _ _ Hn). specialize (Ht w Hw). lia.
Qed.
(** The clock, as it is read. *)
Lemma redisUnixSeconds_triple P :
  sound P → triple P redisUnixSeconds (λ r w, P w ∧ ∀ t, r = Some t → t ≤ TIME (clock w)).
Proof.
  intros HP. apply redis_step.
  - intros b w w' [Hw Ht] Hs. split; [by eapply (sound_steady P HP)|]. intros t E. specialize (Ht t E).
    pose proof (TIME_mono _ _ (ws_clock _ _ _ Hs)). lia.
  - intros w Hw _. split_and!; [by apply (sound_wf P HP)|by apply (sound_held P HP)|done|done].
  - intros w now Hw Hn. cbv zeta. simpl.
    assert (wstep real w (at_time now (live now (store w)) (grants w) w)) as Hs.
    { apply command_wstep; [done|by apply (sound_wf P HP)|apply sstep_refl|done]. }
    apply own_kept in Hs as [Hm Ho]. assert (P (at_time now (live now (store w)) (grants w) w)) as Hp.
    { by eapply (sound_steady P HP). }
    split_and!; try done; [by apply (sound_held P HP)|]. intros t [= <-]. done.
Qed.

(** *** Granting, holding and giving back *)

Definition fresh (U : list string) (x : string) : Prop := mine x ∧ x ∉ U.

Lemma acquire_triple {B} cs x main (ok : B → bool) f H A U :
  fresh U x → x ∉ H → main ∈ cs →
  (∀ now s, wf now s → (∀ c, members c s !! x = None) →
     acquires now cs x (ok (fst (f now s))) s (snd (f now s))) →
  triple (St H A U) (redis_granting (granted_to x main ok) f)
    (λ r w, match r with
            | Some b => if ok b then St H (((x,.) <$> cs) ++ A) (x :: U) w ∧ granted_now main x w
                        else St H A (x :: U) w
            | None => St H A (x :: U) w
            end).
Proof.
  intros [Hx HU] HH Hmain Hf. apply redis_step.
  - intros [b|]; [destruct (ok b)|]; [apply steady_and|..]; by first [apply St_steady|apply granted_steady].
  - intros w Hw _. split_and!; [apply Hw|by eapply St_Held|]. eapply St_weaken; [..|exact Hw]; try done. by right.
  - intros w now Hw Hn. cbv zeta. set (s := live now (store w)).
    assert (∀ c, members c s !! x = None) as Habs.
    { intros c. pose proof (st_fresh _ _ _ _ Hw x c Hx HU) as Hc.
      destruct (members c s !! x) eqn:E; [|done].
      pose proof (lookup_weaken _ _ _ _ E (zset_live_subseteq now (class_key c) (store w))) as E'.
      unfold absent, members in Hc. congruence. }
    specialize (Hf now s (wf_later w now Hn (st_wf _ _ _ _ Hw)) Habs).
    unfold granted_to. destruct (f now s) as [b s'] eqn:Ef. cbn [fst snd] in *.
    set (g := if ok b then <[x := (main, TIME now)]> (grants w) else grants w).
    replace (match (if ok b then Some (x, main) else None) with
             | Some (id, c) => <[id := (c, TIME now)]> (grants w) | None => grants w end) with g
      by (unfold g; by destruct (ok b)).
    set (w' := at_time now s' g w).
    assert (wstep (λ id, id ≠ x) w w') as Hs.
    { apply command_wstep; [done|apply Hw|by destruct Hf|]. intros id Hne. unfold g.
      destruct (ok b); [|done]. by rewrite lookup_insert_ne. }
    assert (∀ id, mine id → id ≠ x → id ∉ (x :: U) ∨ id ∈ U) as Hdec.
    { intros id _ Hne. destruct (decide (id ∈ U)); [by right|left]. by rewrite not_elem_of_cons. }
    assert (ok b = true → granted_now main x w') as Hg.
    { intros Hb. exists (TIME now). split; [unfold w', at_time, g; rewrite Hb; simpl; by rewrite lookup_insert_eq|].
      right. exists (TIME now). split; [lia|]. by apply Hf. }
    assert (∀ A', A ⊆ A' → (fine → ∀ c, ok b = true → c ∈ cs → (x, c) ∈ A') → St H A' (x :: U) w') as HSt.
    { intros A' HA HA'. split.
      - apply Hs.
      - intros id Hm Hin. assert (id ≠ x) as Hne.
        { intros ->. apply HH. by eapply (st_held _ _ _ _ Hw). }
        apply (ws_holding _ _ _ Hs) in Hin; [|done]. destruct (st_held _ _ _ _ Hw id Hm Hin) as [Hi [c [g0 [Eg Hc]]]].
        split; [done|]. exists c, g0. split; [by rewrite (ws_grants _ _ _ Hs)|intros Hcalm; apply (ws_counted _ _ _ Hs); auto].
      - intros id c Hm [Hne Hi]%not_elem_of_cons. apply (ws_absent _ _ _ Hs); [done|]. by apply (st_fresh _ _ _ _ Hw).
      - intros id c Hfi Hm Hn'. destruct (decide (id = x)) as [->|Hne].
        + destruct (acq_out _ _ _ _ _ _ _ _ _ Hf c (Habs c)) as [[Hb Hc]|Hno]; [by apply HA'|]. by destruct Hn'.
        + apply HA, (st_clean _ _ _ _ Hw); [done|done|]. intros Ha. apply Hn'. by apply (ws_absent _ _ _ Hs). }
    assert (wstep not_mine w w') as Ho.
    { eapply wstep_weaken; [|exact Hs]. by intros id [Hn' _] ->. }
    assert (∀ c, c ∈ cs → (x, c) ∈ ((x,.) <$> cs) ++ A) as Hcs.
    { intros c Hc. apply elem_of_app. left. apply list_elem_of_fmap. eauto. }
    assert (A ⊆ ((x,.) <$> cs) ++ A) as HA by (intros y ?; apply elem_of_app; by right).
    assert (St H (((x,.) <$> cs) ++ A) (x :: U) w') as Hst by (apply HSt; auto).
    split_and!; [done|by eapply St_Held|intros Hnf; apply HSt; naive_solver|].
    destruct (ok b) eqn:Hb; [by auto|]. apply HSt; naive_solver.
Qed.

Lemma holding_wstep (keep : string → Prop) f w :
  wf (clock w) (store w) → (∀ id, keep id → id ∈ f (holding w) ↔ id ∈ holding w) → wstep keep w (set_holding f w).
Proof. intros Hw Hf. split; simpl; [lia|lia|done|done|done|done|done]. Qed.
Lemma hold_triple c x H A U :
  mine x → triple (λ w, St H A U w ∧ granted_now c x w) (hold x) (λ _, St (x :: H) A U).
Proof.
  intros Hx. apply slot_act; [intros _; apply St_steady|]. intros o w _ [Hw Hg]. cbn [fst snd].
  set (w' := set_holding _ w).
  assert (St (x :: H) A U w') as Hw'.
  { destruct Hw as [W HH HF HA]. split; [done| |done|done].
    intros id Hm Hin. apply elem_of_union in Hin as [->%elem_of_singleton|Hin].
    - split; [by left|]. by exists c.
    - destruct (HH id Hm Hin) as [Hi Hc]. split; [by right|done]. }
  split_and!; [|by eapply St_Held|done]. apply holding_wstep; [apply Hw|].
  intros id [Hn _]. rewrite elem_of_union, elem_of_singleton. split; [|tauto]. by intros [->|?].
Qed.
Lemma let_go_triple x H H' A U :
  mine x → H ⊆ x :: H' → triple (St H A U) (let_go x) (λ _, St H' A U).
Proof.
  intros Hx HH'. apply slot_act; [intros _; apply St_steady|]. intros o w _ Hw. cbn [fst snd].
  set (w' := set_holding _ w).
  assert (St H' A U w') as Hw'.
  { destruct Hw as [W HH HF HA]. split; [done| |done|done].
    intros id Hm [Hin Hne%not_elem_of_singleton]%elem_of_difference. destruct (HH id Hm Hin) as [Hi Hc].
    apply HH', elem_of_cons in Hi as [?|?]; [done|by split]. }
  split_and!; [|by eapply St_Held|done]. apply holding_wstep; [apply Hw|].
  intros id [Hn _]. rewrite elem_of_difference, elem_of_singleton. split; [tauto|]. intros ?. split; [done|]. by intros ->.
Qed.

(** Giving back: [x] leaves the sets of the classes [cs]. *)
Lemma release_triple cs x (f : Store → Store) H A A' U :
  mine x → x ∉ H → x ∈ U → A ⊆ ((x,.) <$> cs) ++ A' →
  (∀ now s, wf now s → sstep now (λ id, id ≠ x) s (f s)) →
  (∀ s c, c ∈ cs → members c (f s) !! x = None) →
  (∀ s c, members c s !! x = None → members c (f s) !! x = None) →
  triple (St H A U) (command f) (λ _, St H A' U).
Proof.
  intros Hx HH HU HA Hf Hcs Habs. apply redis_step; [intros _; apply St_steady|..].
  - intros w Hw Hnf. split_and!; [apply Hw|by eapply St_Held|]. by destruct Hw as [W h F _].
  - intros w now Hw Hn. cbv zeta. simpl. set (s := live now (store w)). set (w' := at_time now (f s) (grants w) w).
    assert (wstep (λ id, id ≠ x) w w') as Hs.
    { apply command_wstep; [done|apply Hw| |done]. apply Hf, wf_later; [done|apply Hw]. }
    assert (wstep not_mine w w') as Ho.
    { eapply wstep_weaken; [|exact Hs]. by intros id [Hn' _] ->. }
    assert (St H A' U w') as Hw'.
    { split; [apply Hs|..].
      - intros id Hm Hin. assert (id ≠ x) as Hne.
        { intros ->. apply HH. by eapply (st_held _ _ _ _ Hw). }
        apply (ws_holding _ _ _ Hs) in Hin; [|done]. destruct (st_held _ _ _ _ Hw id Hm Hin) as [Hi [c [g0 [Eg Hc]]]].
        split; [done|]. exists c, g0. split; [by rewrite (ws_grants _ _ _ Hs)|intros Hcalm; apply (ws_counted _ _ _ Hs); auto].
      - intros id c Hm Hi. apply (ws_absent _ _ _ Hs); [by intros ->|]. by apply (st_fresh _ _ _ _ Hw).
      - intros id c Hfi Hm Hn'. destruct (decide ((id, c) ∈ A)) as [Hi|Hi].
        + apply HA, elem_of_app in Hi as [(c' & [= -> ->] & Hc)%list_elem_of_fmap|Hi]; [|done].
          destruct Hn'. by apply Hcs.
        + destruct (decide (id = x)) as [->|Hne].
          * exfalso. apply Hn'. apply Habs. destruct (members c s !! x) eqn:E; [|done].
            pose proof (lookup_weaken _ _ _ _ E (zset_live_subseteq now (class_key c) (store w))) as E'.
            destruct Hi. apply (st_clean _ _ _ _ Hw); [done..|]. unfold absent, members. congruence.
          * destruct Hi. apply (st_clean _ _ _ _ Hw); [done..|]. intros Ha. apply Hn'. by apply (ws_absent _ _ _ Hs). }
    split_and!; [done|by eapply St_Held|done|done].
Qed.
(** One [ZREM]. *)
Lemma ZREM_triple c x H A A' U :
  mine x → x ∉ H → x ∈ U → A ⊆ (x, c) :: A' →
  triple (St H A U) (command (ZREM (class_key c) x)) (λ _, St H A' U).
Proof.
  intros Hx HH HU HA. apply (release_triple [c] x); try done.
  - intros now s _. apply remove_step. by intros _ [].
  - intros s c' ->%list_elem_of_singleton. unfold members. rewrite zset_ZREM, decide_True by done.
    apply lookup_delete_eq.
  - intros s c' Hn. unfold members. rewrite zset_ZREM. case_decide; [|done].
    rewrite lookup_delete_None. by right.
Qed.

(** Renewing a grant. *)
Lemma refresh_triple {B} c x (ok : B → bool) f H A U :
  mine x → x ∈ U →
  (∀ now s, wf now s → refreshes now c x (ok (fst (f now s))) s (snd (f now s))) →
  triple (St H A U) (redis_granting (granted_to x c ok) f) (λ _, St H A U).
Proof.
  intros Hx HU Hf. apply redis_step; [intros _; apply St_steady|intros w Hw _; split_and!; [apply Hw|by eapply St_Held|done]|].
  intros w now Hw Hn. cbv zeta. set (s := live now (store w)).
  specialize (Hf now s (wf_later w now Hn (st_wf _ _ _ _ Hw))).
  destruct (f now s) as [b s'] eqn:Ef. cbn [fst snd] in *.
  set (g := match granted_to x c ok b with Some (id, c) => _ | None => _ end). set (w' := at_time now s' g w).
  assert (wstep (λ _, True) w (at_time now s' (grants w) w)) as Hs.
  { apply command_wstep; [done|apply Hw|by destruct Hf|done]. }
  assert (∀ id, id ≠ x → g !! id = grants w !! id) as Hg.
  { intros id Hne. unfold g, granted_to. destruct (ok b); [|done]. by rewrite lookup_insert_ne. }
  assert (wstep not_mine w w') as Ho.
  { apply command_wstep; [done|apply Hw|destruct Hf as [Hst _]; revert Hst; by apply sstep_weaken|].
    intros id [Hn' _]. apply Hg. by intros ->. }
  assert (St H A U w') as Hw'.
  { pose proof Hs as []. cbn [clock store grants holding at_time] in *. destruct Hw as [W HH HF HA]. split.
    - done.
    - intros id Hm Hin. destruct (HH id Hm Hin) as [Hi [c0 Hc0]]. split; [done|].
      destruct (decide (id = x)) as [->|Hne].
      + destruct (ok b) eqn:Hb.
        * exists c, (TIME now). split; [unfold w', g, granted_to; rewrite Hb; simpl; by rewrite lookup_insert_eq|].
          right. exists (TIME now). split; [lia|]. by apply Hf.
        * exists c0. destruct Hc0 as (g0 & Eg & Hc). exists g0.
          split; [unfold w', g, granted_to; by rewrite Hb|intros Hcalm; apply (ws_counted0 _ _ _ Hcalm I), Hc, Hcalm].
      + exists c0. destruct Hc0 as (g0 & Eg & Hc). exists g0.
        split; [simpl; by rewrite Hg|intros Hcalm; apply (ws_counted0 _ _ _ Hcalm I), Hc, Hcalm].
    - intros id c' Hm Hi. apply (ws_absent0 _ _ I). by apply HF.
    - intros id c' Hfi Hm Hn'. apply HA; [done..|]. intros Ha. apply Hn'. by apply (ws_absent0 _ _ I). }
  split_and!; [done|by eapply St_Held|done|done].
Qed.

(** *** What only reads, and maintains the indexes *)

Lemma mild_lookup {B} (f : Store → B) : mild (lookup f).
Proof. apply mild_redis. intros. apply sstep_refl. Qed.
Lemma mild_command k f : foreign k → (∀ s, touches k s (f s)) → mild (command f).
Proof. intros Hk Hf. apply mild_redis. intros now s _. by eapply foreign_step. Qed.
Lemma mild_clock {A} (k : option Z → slot A) :
  mild (k None) → (∀ t, mild_from t (k (Some t))) → mild (proc_bind redisUnixSeconds k).
Proof.
  intros Hn Hs P HP. eapply slot_bind; [by apply redisUnixSeconds_triple|]. intros [t|].
  - assert (sound (λ w, P w ∧ t ≤ TIME (clock w))) as HP'.
    { apply sound_and; [done|apply clock_steady]. }
    eapply slot_weaken; [apply (Hs t _ HP'); by intros w []| |by intros a w []].
    intros w [Hw Ht]. by split; [|apply Ht].
  - eapply slot_pre; [|by apply Hn]. by intros w [].
Qed.

Ltac mild_step :=
  match goal with
  | |- mild (Ret _) => apply mild_ret
  | |- mild (ask _) => apply mild_ask
  | |- mild (lookup _) => apply mild_lookup
  | |- mild (proc_bind redisUnixSeconds _) => apply mild_clock; [|intros ?]
  | |- mild (proc_bind _ _) => apply mild_bind; [|intros ?]
  | |- mild (match ?x with _ => _ end) => destruct x
  | |- mild_from _ (proc_bind _ _) => apply mild_from_bind; [|intros ?]
  | |- mild_from _ (Ret _) => apply mild_from_mild, mild_ret
  | |- mild_from _ (match ?x with _ => _ end) => destruct x
  end.
Ltac mild_auto := cbv zeta; repeat mild_step; try solve [eauto with slots | apply mild_from_mild; repeat mild_step; eauto with slots].

Lemma mild_now : mild redisUnixSeconds.
Proof. apply mild_redis. intros. apply sstep_refl. Qed.
Lemma mild_sweep_from t ttl k : swept_at slotTTLSeconds ttl k → mild_from t (command (ZREMRANGEBYSCORE k (t - ttl))).
Proof. intros Hk. apply mild_redis_from. intros now s Ht _. by apply swept_step. Qed.
Lemma mild_touch index id e : foreign index → mild (touchActiveIndexAt index id e).
Proof. intros Hi. unfold touchActiveIndexAt. mild_auto. eapply mild_command; [done|]. intros s. apply touches_put. Qed.
Lemma mild_unindex index m : foreign index → mild (command (ZREM index m)).
Proof. intros Hi. eapply mild_command; [done|]. intros s. apply touches_put. Qed.
#[local] Hint Resolve mild_touch mild_unindex mild_now mild_sweep_from mild_lookup mild_ret : slots.
Lemma mild_read_load t id m slots waits :
  swept_at slotTTLSeconds slotTTLSeconds slots → mild_from t (read_load slotTTLSeconds id m slots waits t).
Proof. intros Hs. unfold read_load. mild_auto. Qed.
#[local] Hint Resolve mild_read_load : slots.
Lemma mild_refresh_index index id slots waits :
  foreign index → swept_at slotTTLSeconds slotTTLSeconds slots →
  mild (refreshActiveIndex slotTTLSeconds waitQueueTTLSeconds index id slots waits).
Proof. intros Hi Hs. unfold refreshActiveIndex, readActiveLoadForKey. mild_auto. Qed.
#[local] Hint Resolve mild_refresh_index swept_account swept_user swept_api_key : slots.
Lemma mild_refresh_account id : mild (refreshAccountActiveIndex slotTTLSeconds waitQueueTTLSeconds id).
Proof. unfold refreshAccountActiveIndex. auto with slots. Qed.
Lemma mild_refresh_user id : mild (refreshUserActiveIndex slotTTLSeconds waitQueueTTLSeconds id).
Proof. unfold refreshUserActiveIndex. auto with slots. Qed.
#[local] Hint Resolve mild_refresh_account mild_refresh_user : slots.

Lemma mild_increment key index id max :
  foreign key → foreign index → mild (increment_wait waitQueueTTLSeconds key index id max).
Proof.
  intros Hk Hi. unfold increment_wait. mild_auto.
  apply mild_redis. intros now s _. by apply wait_step.
Qed.
Lemma mild_IncrementWaitCount id max : mild (IncrementWaitCount waitQueueTTLSeconds id max).
Proof. unfold IncrementWaitCount, cache_IncrementWaitCount. mild_auto. apply mild_increment; auto with slots. Qed.
Lemma mild_IncrementAccountWaitCount id max : mild (IncrementAccountWaitCount waitQueueTTLSeconds id max).
Proof. unfold IncrementAccountWaitCount, cache_IncrementAccountWaitCount. mild_auto. apply mild_increment; auto with slots. Qed.
Lemma mild_DecrementWaitCount id : mild (DecrementWaitCount slotTTLSeconds waitQueueTTLSeconds id).
Proof.
  unfold DecrementWaitCount, cache_DecrementWaitCount. mild_auto.
  apply mild_redis. intros now s _. apply decrement_step; auto with slots.
Qed.
Lemma mild_DecrementAccountWaitCount id : mild (DecrementAccountWaitCount slotTTLSeconds waitQueueTTLSeconds id).
Proof.
  unfold DecrementAccountWaitCount, cache_DecrementAccountWaitCount. mild_auto.
  apply mild_redis. intros now s _. apply decrement_step; auto with slots.
Qed.
#[local] Hint Resolve mild_IncrementWaitCount mild_IncrementAccountWaitCount mild_DecrementWaitCount
  mild_DecrementAccountWaitCount mild_ask : slots.

(** The batch queries. *)
Lemma mild_count_one slots live t :
  swept_at slotTTLSeconds slotTTLSeconds slots → swept_at slotTTLSeconds liveLeaseTTLSeconds live →
  mild_from t (count_one slotTTLSeconds slots live t).
Proof. intros Hs Hl. unfold count_one. mild_auto. Qed.
#[local] Hint Resolve mild_count_one : slots.
Lemma mild_load_batch slots live waits l :
  (∀ id, swept_at slotTTLSeconds slotTTLSeconds (slots id)) →
  (∀ id, swept_at slotTTLSeconds liveLeaseTTLSeconds (live id)) →
  mild (load_batch slotTTLSeconds slots live waits l).
Proof.
  intros Hs Hl. unfold load_batch. destruct l as [|e l]; [apply mild_ret|]. apply mild_clock; [apply mild_ret|].
  intros t. generalize (e :: l). clear e l. intros l. induction l as [|[id max] l IH]; cbn [load_all]; [mild_auto|].
  unfold load_one. mild_auto.
Qed.
Lemma mild_count_batch slots live l :
  (∀ id, swept_at slotTTLSeconds slotTTLSeconds (slots id)) →
  (∀ id, swept_at slotTTLSeconds liveLeaseTTLSeconds (live id)) →
  mild (count_batch slotTTLSeconds slots live l).
Proof.
  intros Hs Hl. unfold count_batch. destruct l as [|id l]; [apply mild_ret|]. apply mild_clock; [apply mild_ret|].
  intros t. generalize (id :: l). clear id l. intros l. induction l as [|id l IH]; cbn [count_all]; [mild_auto|].
  mild_auto.
Qed.
Lemma swept_live_account id : swept_at slotTTLSeconds liveLeaseTTLSeconds (liveAccountSlotKey id).
Proof. apply (swept_live _ (OfAccount id)). Qed.
Lemma swept_live_user id : swept_at slotTTLSeconds liveLeaseTTLSeconds (liveUserSlotKey id).
Proof. apply (swept_live _ (OfUser id)). Qed.
Lemma swept_live_api_key id : swept_at slotTTLSeconds liveLeaseTTLSeconds (liveAPIKeySlotKey id).
Proof. apply (swept_live _ (Ingress id)). Qed.
#[local] Hint Resolve swept_live_account swept_live_user swept_live_api_key mild_load_batch mild_count_batch : slots.
Lemma mild_loads accounts users accountIDs keyIDs ids :
  mild (serve_slots slotTTLSeconds waitQueueTTLSeconds (LoadsOf accounts users accountIDs keyIDs) ids).
Proof.
  cbn [serve_slots]. unfold cache_GetAccountsLoadBatch, cache_GetUsersLoadBatch, cache_GetAccountConcurrencyBatch,
    GetAPIKeyConcurrencyBatch, cache_GetAPIKeyConcurrencyBatch. mild_auto.
Qed.
Lemma mild_counts accountID userID ids :
  mild (serve_slots slotTTLSeconds waitQueueTTLSeconds (CountsOf accountID userID) ids).
Proof.
  cbn [serve_slots]. unfold GetAccountConcurrency, GetUserConcurrency, cache_GetAccountWaitingCount. mild_auto;
    apply mild_redis; intros now s _.
  - by apply (count_step _ bound calm _ _ (OfAccount accountID)).
  - by apply (count_step _ bound calm _ _ (OfUser userID)).
Qed.

(** Cleaning up. *)
Record good_spec (spec : slotIndexSpec) : Prop := {
  good_index : foreign (indexKey spec);
  good_slots : ∀ id, ∃ r, is_shared r = true ∧ slotKey spec id = class_key (Regular r);
  good_waits : ∀ id, foreign (waitKey spec id);
}.
Lemma good_accounts : good_spec accountSlotIndex.
Proof. split; simpl; auto with slots. intros id. by exists (OfAccount id). Qed.
Lemma good_users : good_spec userSlotIndex.
Proof. split; simpl; auto with slots. intros id. by exists (OfUser id). Qed.
#[local] Hint Resolve good_accounts good_users good_index good_waits : slots.
Lemma swept_spec spec id : good_spec spec → swept_at slotTTLSeconds slotTTLSeconds (slotKey spec id).
Proof. intros [_ Hs _]. destruct (Hs id) as (r & Hr & ->). right. exists (Regular r). by rewrite (shared_ttl _ r Hr). Qed.
#[local] Hint Resolve swept_spec : slots.

Lemma mild_read_chunks fuel spec t l : good_spec spec → mild_from t (read_chunks slotTTLSeconds fuel spec t l).
Proof.
  intros Hs. revert l. induction fuel as [|fuel IH]; intros l; [apply mild_from_mild, mild_ret|].
  cbn [read_chunks]. destruct l as [|e l]; [apply mild_from_mild, mild_ret|]. apply mild_from_bind.
  - generalize (take activeIndexPipelineChunkSize (e :: l)). intros l1.
    induction l1 as [|[id m] l1 IHl]; cbn [read_chunk]; [apply mild_from_mild, mild_ret|].
    apply mild_from_bind; [auto with slots|]. intros x. apply mild_from_bind; [exact IHl|]. intros y.
    apply mild_from_mild, mild_ret.
  - intros [c|]; [|apply mild_from_mild, mild_ret]. apply mild_from_bind; [apply IH|].
    intros y. apply mild_from_mild, mild_ret.
Qed.
Lemma mild_add_members index l : foreign index → mild (add_index_members index l).
Proof.
  intros Hi. unfold add_index_members. mild_auto. eapply mild_command; [done|]. intros st.
  apply (touches_fold index). intros st' x. apply touches_put.
Qed.
Lemma mild_remove_members index l : foreign index → mild (removeActiveIndexMembers index l).
Proof.
  intros Hi. unfold removeActiveIndexMembers. mild_auto. eapply mild_command; [done|]. intros st.
  apply (touches_fold index). intros st' x. apply touches_put.
Qed.
#[local] Hint Resolve mild_read_chunks mild_add_members mild_remove_members : slots.
Lemma mild_reconcile spec :
  good_spec spec → mild (reconcileExpiredIndexCandidates slotTTLSeconds waitQueueTTLSeconds spec).
Proof. intros Hs. unfold reconcileExpiredIndexCandidates, readIndexLoads. mild_auto. Qed.
#[local] Hint Resolve mild_reconcile : slots.
Lemma mild_worker ids : mild (serve_slots slotTTLSeconds waitQueueTTLSeconds CleanupWorker ids).
Proof. cbn [serve_slots]. unfold forget, CleanupExpiredAccountSlotKeys. mild_auto. Qed.
Lemma mild_cleanup_account id ids :
  mild (serve_slots slotTTLSeconds waitQueueTTLSeconds (CleanupAccount id) ids).
Proof.
  cbn [serve_slots]. unfold forget, cache_CleanupExpiredAccountSlots. mild_auto.
  apply mild_redis. intros now s _. by apply cleanup_step.
Qed.

(** At startup, of the wait counters of old and of the slots without the prefix. *)
Lemma scan_page_triple P prefix :
  sound P → triple P (scan_page prefix)
    (λ r w, from_option (Forall (λ k, HasPrefix k prefix = true)) True (fst r) ∧ P w).
Proof.
  intros HP. unfold scan_page. eapply slot_bind; [by apply mild_ask|]. intros page. cbv beta.
  eapply slot_bind.
  - apply (redis_answers P _ (λ r, from_option (Forall (λ k, HasPrefix k prefix = true)) True r)); [done|..].
    + intros. apply sstep_refl.
    + done.
    + intros now s. simpl. apply Forall_forall. intros k [_ Hk]%list_elem_of_In%filter_In.
      by apply andb_true_iff in Hk as [? _].
  - intros keys. apply slot_ret. done.
Qed.
Lemma mild_sweep pages prefix :
  prefix = accountWaitKeyPrefix ∨ prefix = waitQueueKeyPrefix → mild (sweep pages prefix).
Proof.
  intros Hp. induction pages as [|pages IH]; [apply mild_ret|]. intros P HP. cbn [sweep].
  eapply slot_bind; [by apply scan_page_triple|]. intros [[keys|] last]; cbn [fst from_option].
  2: { eapply slot_pre; [|by apply mild_ret]. by intros w []. }
  apply (slot_pure _). intros Hk.
  assert (mild (match keys with [] => Ret (Some ()) | _ => command (λ s, foldl (λ s k, DEL k s) s keys) end)) as Hdel.
  { destruct keys as [|k keys]; [apply mild_ret|]. apply mild_redis. intros now s _.
    apply (foreign_fold _ _ _ _ _ id); [|intros s' x; apply touches_DEL].
    intros x Hx. apply foreign_swept. rewrite Forall_forall in Hk. destruct Hp as [-> | ->]; auto. }
  eapply slot_bind; [by apply Hdel|]. intros [[]|]; [|by apply mild_ret].
  destruct last; [by apply mild_ret|by apply IH].
Qed.
#[local] Hint Resolve mild_sweep foreign_marker : slots.
Lemma mild_sweep_once pages : mild (sweepLegacyWaitKeysOnce pages).
Proof.
  unfold sweepLegacyWaitKeysOnce. mild_auto.
  eapply mild_command; [apply foreign_marker|]. intros st. apply touches_SET.
Qed.
#[local] Hint Resolve mild_sweep_once : slots.

Lemma mild_clean_members spec l prefix :
  good_spec spec → (calm → ∀ id, real id → HasPrefix id prefix = true) →
  mild (clean_members slotTTLSeconds spec l prefix).
Proof.
  intros Hs Hp. induction l as [|m l IH]; cbn [clean_members]; [apply mild_ret|].
  destruct (index_id m) as [id|]; [|apply mild_bind; [done|intros; apply mild_ret]].
  apply mild_bind.
  - apply mild_redis. intros now s _. destruct (good_slots _ Hs id) as (r & Hr & ->).
    eapply sstep_weaken; [|by apply startup_step]. intros x Hx Hcalm. by apply Hp.
  - intros [[n remaining]|]; [|apply mild_ret]. apply mild_bind.
    + eapply mild_command; [by apply good_waits|]. intros s. apply touches_DEL.
    + intros [[]|]; [|apply mild_ret]. apply mild_bind; [done|]. intros. apply mild_ret.
Qed.
Lemma mild_startup pages prefix ids :
  (calm → ∀ id, real id → HasPrefix id prefix = true) →
  mild (serve_slots slotTTLSeconds waitQueueTTLSeconds (Startup pages prefix) ids).
Proof.
  intros Hp. cbn [serve_slots].
  unfold forget, CleanupStaleProcessSlots, cleanupStaleProcessSlotsForIndex, allIndexMembers.
  repeat first [apply mild_clean_members; [auto with slots|done] | mild_step]; auto with slots.
Qed.

(** *** Acquiring *)

Definition held (f : option string) : list string := option_list f.
Definition owned (c : slot_class) (f : option string) : list (string * slot_class) := (λ x, (x, c)) <$> option_list f.
(** What [AcquireAccountSlot] and [AcquireUserSlot] leave. *)
Definition got (c : slot_class) (x : string) H A U (r : res () AcquireResult) (w : SlotWorld) : Prop :=
  match r with
  | Ok res => (ReleaseFunc res = None ∨ Acquired res = true ∧ ReleaseFunc res = Some x) ∧
              St (held (ReleaseFunc res) ++ H) (owned c (ReleaseFunc res) ++ A) (x :: U) w
  | Err _ => St H A (x :: U) w
  end.

Lemma acquired_triple c x H A U (b : bool) :
  mine x →
  triple (λ w, if b then St H ((x, c) :: A) (x :: U) w ∧ granted_now c x w else St H A (x :: U) w)
    (acquired_as x b) (got c x H A U).
Proof.
  intros Hx. unfold acquired_as. destruct b.
  - eapply slot_bind; [by apply hold_triple|]. intros []. apply slot_ret. intros w Hw. split; [by right|done].
  - apply slot_ret. intros w Hw. split; [by left|done].
Qed.
Definition granted_or_not (c : slot_class) x H A U (r : res () bool) (w : SlotWorld) : Prop :=
  match r with
  | Ok true => St H ((x, c) :: A) (x :: U) w ∧ granted_now c x w
  | _ => St H A (x :: U) w
  end.
(** [cache_AcquireAccountSlot] and [cache_AcquireUserSlot]. *)
Lemma cache_slot_triple r index id max x H A U :
  is_shared r = true → foreign index → fresh U x → x ∉ H → max ≤ bound r →
  triple (St H A U)
    (r <-p redis_granting (granted_to x (Regular r) fst_is_1)
             (acquireScript (class_key (Regular r)) (class_key (LiveOf r)) max slotTTLSeconds x);
     match r with
     | None => Ret (Err ())
     | Some (result, now) =>
         _ <-p (if result =? 1 then touchActiveIndexAt index id (now + slotTTLSeconds) else Ret ());
         Ret (Ok (result =? 1))
     end)
    (granted_or_not (Regular r) x H A U).
Proof.
  intros Hr Hi Hx HH Hb. eapply slot_bind.
  { apply (acquire_triple [Regular r] x (Regular r)); [done|done|by left|].
    intros now s Hw _. by apply acquireScript_acquires. }
  intros [[result now]|]; [|by apply slot_ret]. unfold fst_is_1. cbn [fst].
  destruct (result =? 1); cbn [fmap list_fmap app].
  - assert (sound (λ w, St H ((x, Regular r) :: A) (x :: U) w ∧ granted_now (Regular r) x w)) as HP.
    { apply sound_and; [apply St_sound|apply granted_steady, Hx]. }
    eapply slot_bind; [by apply mild_touch|]. intros []. by apply slot_ret.
  - eapply slot_bind; [apply mild_ret, St_sound|]. intros []. by apply slot_ret.
Qed.
Lemma AcquireAccountSlot_triple a max x H A U :
  fresh U x → x ∉ H → max ≤ bound (OfAccount a) →
  triple (St H A U) (AcquireAccountSlot slotTTLSeconds a max x) (got (Regular (OfAccount a)) x H A U).
Proof.
  intros Hx HH Hb. unfold AcquireAccountSlot. destruct (max <=? 0).
  { apply slot_ret. intros w Hw. split; [by left|]. eapply St_weaken; [..|exact Hw]; try done. by right. }
  eapply slot_bind.
  { unfold cache_AcquireAccountSlot. apply (cache_slot_triple (OfAccount a)); auto with slots. }
  intros [b|e]; [|by apply slot_ret]. eapply slot_pre; [|apply acquired_triple, Hx]. by destruct b.
Qed.
Lemma AcquireUserSlot_triple u max x H A U :
  fresh U x → x ∉ H → max ≤ bound (OfUser u) →
  triple (St H A U) (AcquireUserSlot slotTTLSeconds u max x) (got (Regular (OfUser u)) x H A U).
Proof.
  intros Hx HH Hb. unfold AcquireUserSlot. destruct (max <=? 0).
  { apply slot_ret. intros w Hw. split; [by left|]. eapply St_weaken; [..|exact Hw]; try done. by right. }
  eapply slot_bind.
  { unfold cache_AcquireUserSlot. apply (cache_slot_triple (OfUser u)); auto with slots. }
  intros [b|e]; [|by apply slot_ret]. eapply slot_pre; [|apply acquired_triple, Hx]. by destruct b.
Qed.

(** The release functions. *)
Lemma release_slot_triple r x H A U (p : slot ()) :
  mine x → x ∈ U → x ∉ H → mild p →
  triple (St (x :: H) ((x, Regular r) :: A) U)
    (_ <-p let_go x;
     _ <-p (r <-p command (ZREM (class_key (Regular r)) x);
            match r with None => Ret (Err ()) | Some _ => _ <-p p; Ret (Ok ()) end : slot (res () ()));
     Ret ())
    (λ _, St H A U).
Proof.
  intros Hx HU HH Hp. eapply slot_bind; [by apply (let_go_triple x _ H)|]. intros [].
  eapply slot_bind.
  - eapply slot_bind; [by apply (ZREM_triple (Regular r) x H _ A)|]. intros [[]|].
    + eapply slot_bind; [apply Hp, St_sound|]. intros []. apply (slot_ret _ _ (λ _, St H A U)). done.
    + by apply slot_ret.
  - intros r'. by apply slot_ret.
Qed.
Lemma release_account_triple a f H A U :
  (∀ x, f = Some x → mine x ∧ x ∈ U ∧ x ∉ H) →
  triple (St (held f ++ H) (owned (Regular (OfAccount a)) f ++ A) U)
    (release_account slotTTLSeconds waitQueueTTLSeconds a f) (λ _, St H A U).
Proof.
  intros Hf. destruct f as [x|]; [|by apply slot_ret]. destruct (Hf x eq_refl) as (Hx & HU & HH).
  apply (release_slot_triple (OfAccount a)); auto with slots.
Qed.
Lemma release_user_triple u f H A U :
  (∀ x, f = Some x → mine x ∧ x ∈ U ∧ x ∉ H) →
  triple (St (held f ++ H) (owned (Regular (OfUser u)) f ++ A) U)
    (release_user slotTTLSeconds waitQueueTTLSeconds u f) (λ _, St H A U).
Proof.
  intros Hf. destruct f as [x|]; [|by apply slot_ret]. destruct (Hf x eq_refl) as (Hx & HU & HH).
  apply (release_slot_triple (OfUser u)); auto with slots.
Qed.

(** The use of an API key. *)
Lemma TrackAPIKeySlot_triple k x H A U :
  fresh U x → x ∉ H →
  triple (St H A U) (TrackAPIKeySlot slotTTLSeconds k x)
    (λ f w, (f = None ∨ f = Some x) ∧ St H (owned (KeyUse k) f ++ A) (x :: U) w).
Proof.
  intros Hx HH. unfold TrackAPIKeySlot. destruct (k <=? 0).
  { apply slot_ret. intros w Hw. split; [by left|]. eapply St_weaken; [..|exact Hw]; try done. by right. }
  eapply slot_bind.
  { unfold cache_TrackAPIKeySlot. apply (acquire_triple [KeyUse k] x (KeyUse k)); [done|done|by left|].
    intros now s Hw _. by apply key_acquires. }
  intros [n|]; apply slot_ret; intros w Hw; [|split; [by left|done]]. split; [by right|]. by destruct Hw.
Qed.
Lemma release_api_key_triple k f H A U :
  (∀ x, f = Some x → mine x ∧ x ∈ U ∧ x ∉ H) →
  triple (St H (owned (KeyUse k) f ++ A) U) (release_api_key k f) (λ _, St H A U).
Proof.
  intros Hf. destruct f as [x|]; [|by apply slot_ret]. destruct (Hf x eq_refl) as (Hx & HU & HH).
  eapply slot_bind; [by apply (ZREM_triple (KeyUse k) x H _ A)|]. intros r. by apply slot_ret.
Qed.

(** *** Waiting *)

Definition type_resource (slotType : slot_type) (id : Z) : resource :=
  match slotType with UserSlot => OfUser id | AccountSlot => OfAccount id end.
Lemma acquireSlot_triple slotType id max x H A U :
  fresh U x → x ∉ H → max ≤ bound (type_resource slotType id) →
  triple (St H A U) (acquireSlot slotTTLSeconds slotType id max x)
    (got (Regular (type_resource slotType id)) x H A U).
Proof. destruct slotType; [apply AcquireUserSlot_triple|apply AcquireAccountSlot_triple]. Qed.

Definition among (l : list string) (f : option string) : Prop :=
  match f with Some x => x ∈ l | None => True end.
#[local] Instance among_dec l f : Decision (among l f).
Proof. unfold among. destruct f; apply _. Defined.
(** What waiting leaves, when it has used the ids [l]. *)
Definition waited (c : slot_class) (l : list string) H A U (r : res HelperErr (option string)) (w : SlotWorld) : Prop :=
  match r with
  | Ok f => among l f ∧ St (held f ++ H) (owned c f ++ A) (l ++ U) w
  | Err _ => St H A (l ++ U) w
  end.
Lemma waited_weaken c l l' H A U U' r w :
  l ⊆ l' → l ++ U ⊆ l' ++ U' → waited c l H A U r w → waited c l' H A U' r w.
Proof.
  intros Hl HU. destruct r as [f|e]; simpl; [|by apply St_weaken].
  intros [Hf Hw]. split; [destruct f; simpl in *; auto|]. revert Hw. by apply St_weaken.
Qed.

Lemma not_waited c l H A U e w : St H A U w → waited c l H A U (Err e) w.
Proof. apply St_weaken; [done..|]. by apply list_subseteq_app_r. Qed.

Section Ids.
Context (ids : nat → string) (Hids : Inj (=) (=) ids) (Hmine : ∀ n, mine (ids n)).
Definition used (n : nat) : list string := ids <$> seq 0 n.
Definition unused (U : list string) (n : nat) : Prop := ∀ k, (k < n)%nat → ids k ∉ U.
Lemma elem_of_used n x : x ∈ used n ↔ ∃ k, x = ids k ∧ (k < n)%nat.
Proof.
  unfold used. rewrite list_elem_of_fmap. apply exist_proper. intros k. rewrite elem_of_seq. intuition lia.
Qed.
Lemma used_cons n U : used n ++ ids n :: U ⊆ used (S n) ++ U.
Proof.
  intros x. rewrite !elem_of_app, elem_of_cons, !elem_of_used. intros [(k & -> & ?)|[->|?]]; [|left; eauto with lia|by right].
  left. exists k. split; [done|lia].
Qed.
Lemma used_mono n m : (n ≤ m)%nat → used n ⊆ used m.
Proof. intros Hn x. rewrite !elem_of_used. intros (k & -> & ?). exists k. split; [done|lia]. Qed.
Lemma unused_cons U n : unused U (S n) → unused (ids n :: U) n.
Proof.
  intros Hu k Hk [E|Hk']%elem_of_cons; [apply Hids in E; lia|]. apply (Hu k); [lia|done].
Qed.
Lemma unused_fresh U n : unused U (S n) → fresh U (ids n).
Proof. intros Hu. split; [done|]. apply Hu. lia. Qed.

(** Acquire, and go on when refused. *)
Lemma acquire_or_else n slotType id max H A U (p : slot (res HelperErr (option string))) :
  unused U (S n) → ids n ∉ H → max ≤ bound (type_resource slotType id) →
  triple (St H A (ids n :: U)) p (waited (Regular (type_resource slotType id)) (used n) H A (ids n :: U)) →
  triple (St H A U)
    (result <-p acquireSlot slotTTLSeconds slotType id max (ids n);
     match result with
     | Err _ => Ret (Err EAcquire)
     | Ok result => if Acquired result then Ret (Ok (ReleaseFunc result)) else p
     end)
    (waited (Regular (type_resource slotType id)) (used (S n)) H A U).
Proof.
  intros Hu HH Hb Hp. eapply slot_bind; [apply acquireSlot_triple; [by apply unused_fresh|done|done]|].
  assert (ids n :: U ⊆ used (S n) ++ U) as Hsub by (etrans; [|apply used_cons]; by apply list_subseteq_app_r).
  intros [result|e]; cbn [got].
  2: { apply slot_ret. intros w Hw. eapply St_weaken; [..|exact Hw]; done. }
  destruct (Acquired result) eqn:Ea.
  - apply slot_ret. intros w [Hf Hw]. split.
    + destruct Hf as [-> |[_ ->]]; [done|]. apply elem_of_used. exists n. split; [done|lia].
    + eapply St_weaken; [..|exact Hw]; done.
  - eapply slot_weaken; [exact Hp| |].
    + intros w [Hf Hw]. destruct Hf as [E|[? _]]; [by rewrite E in Hw|congruence].
    + intros r w. apply waited_weaken; [apply used_mono; lia|apply used_cons].
Qed.
Lemma wait_for_slot_triple polls slotType id max H A U :
  unused U polls → (∀ n, (n < polls)%nat → ids n ∉ H) → max ≤ bound (type_resource slotType id) →
  triple (St H A U) (wait_for_slot slotTTLSeconds polls slotType id max ids)
    (waited (Regular (type_resource slotType id)) (used polls) H A U).
Proof.
  intros Hu HH Hb. revert U Hu. induction polls as [|n IH]; intros U Hu; cbn [wait_for_slot].
  { apply slot_ret. intros w Hw. exact Hw. }
  assert (∀ e, triple (St H A U) (Ret (Err e)) (waited (Regular (type_resource slotType id)) (used (S n)) H A U)) as Herr.
  { intros e. apply slot_ret. intros w. apply not_waited. }
  eapply slot_bind; [apply mild_ask, St_sound|]. intros [|[]| |]; [| |apply Herr..].
  - apply acquire_or_else; [done|apply HH; lia|done|]. apply IH; [intros k Hk; apply HH; lia|]. by apply unused_cons.
  - eapply slot_post; [apply IH; [intros k Hk; apply HH; lia|]; intros k Hk; apply Hu; lia|].
    intros r w. apply waited_weaken; [apply used_mono; lia|]. intros x.
    rewrite !elem_of_app. intros [Hx|?]; [left; revert Hx; apply used_mono; lia|by right].
Qed.
Lemma waitForSlot_triple polls slotType id max immediate H A U :
  unused U (S polls) → (∀ n, (n ≤ polls)%nat → ids n ∉ H) → max ≤ bound (type_resource slotType id) →
  triple (St H A U) (waitForSlotWithPingTimeout slotTTLSeconds polls slotType id max ids immediate)
    (waited (Regular (type_resource slotType id)) (used (S polls)) H A U).
Proof.
  intros Hu HH Hb. unfold waitForSlotWithPingTimeout. destruct immediate.
  - apply acquire_or_else; [done|apply HH; lia|done|].
    apply wait_for_slot_triple; [by apply unused_cons|intros n Hn; apply HH; lia|done].
  - eapply slot_post; [apply wait_for_slot_triple; [intros k Hk; apply Hu; lia|intros n Hn; apply HH; lia|done]|].
    intros r w. apply waited_weaken; [apply used_mono; lia|]. intros x.
    rewrite !elem_of_app. intros [Hx|?]; [left; revert Hx; apply used_mono; lia|by right].
Qed.
Lemma waited_sound c l H A U r : sound (waited c l H A U r).
Proof.
  destruct r as [f|e]; simpl; [|apply St_sound]. destruct (St_sound (held f ++ H) (owned c f ++ A) (l ++ U)) as [S1 S2 S3].
  split; [apply steady_and; [apply steady_const|done]|intros w []; auto..].
Qed.
Lemma acquireUser_triple polls u max H A U :
  unused U (S (S polls)) → (∀ n, (n ≤ S polls)%nat → ids n ∉ H) → max ≤ bound (OfUser u) →
  triple (St H A U) (acquireUserSlotWithWaitTimeout slotTTLSeconds waitQueueTTLSeconds polls u max ids)
    (waited (Regular (OfUser u)) (used (S (S polls))) H A U).
Proof.
  intros Hu HH Hb. unfold acquireUserSlotWithWaitTimeout.
  apply (acquire_or_else (S polls) UserSlot); [done|apply HH; lia|done|].
  eapply slot_bind; [apply mild_IncrementWaitCount, St_sound|]. intros [|]; cbn [negb].
  2: { apply slot_ret. intros w. apply not_waited. }
  eapply slot_bind.
  { apply (waitForSlot_triple polls UserSlot); [by apply unused_cons|intros n Hn; apply HH; lia|done]. }
  intros r. eapply slot_bind; [apply mild_DecrementWaitCount, waited_sound|]. intros []. by apply slot_ret.
Qed.
Lemma acquire_account_triple polls a max maxWaiting H A U :
  unused U (S polls) → (∀ n, (n ≤ polls)%nat → ids n ∉ H) → max ≤ bound (OfAccount a) →
  triple (St H A U) (acquire_account_with_wait slotTTLSeconds waitQueueTTLSeconds polls a max maxWaiting ids)
    (waited (Regular (OfAccount a)) (used (S polls)) H A U).
Proof.
  intros Hu HH Hb. unfold acquire_account_with_wait.
  eapply slot_bind; [apply mild_IncrementAccountWaitCount, St_sound|]. intros [|]; cbn [negb].
  2: { apply slot_ret. intros w. apply not_waited. }
  eapply slot_bind; [by apply (waitForSlot_triple polls AccountSlot)|].
  intros r. eapply slot_bind; [apply mild_DecrementAccountWaitCount, waited_sound|]. intros []. by apply slot_ret.
Qed.
End Ids.

(** *** A request *)

Definition done_with_all (w : SlotWorld) : Prop := ∃ U, St [] [] U w.

Section Requests.
Context (ids : nat → string) (Hids : Inj (=) (=) ids) (Hmine : ∀ n, mine (ids n)).

Lemma forward_triple polls u umax k a amax maxWaiting :
  umax ≤ bound (OfUser u) → amax ≤ bound (OfAccount a) →
  triple (St [] [] [])
    (forward_request slotTTLSeconds waitQueueTTLSeconds polls u umax k a amax maxWaiting
       (λ n, ids (2 * n + 1)%nat) (λ n, ids (2 * n + 2)%nat) (ids O))
    (λ _, done_with_all).
Proof.
  intros Hu Ha. set (user_ids := λ n, ids (2 * n + 1)%nat). set (account_ids := λ n, ids (2 * n + 2)%nat).
  assert (Inj (=) (=) user_ids) as Hui by (intros n m E%Hids; lia).
  assert (Inj (=) (=) account_ids) as Hai by (intros n m E%Hids; lia).
  unfold forward_request. eapply slot_bind.
  { apply acquireUser_triple; [done|intros n; apply Hmine|by intros n _ ?%not_elem_of_nil|by intros n _ ?%not_elem_of_nil|done]. }
  set (lu := used user_ids _). intros [f|e]; [|apply slot_ret; intros w Hw; by exists (lu ++ [])].
  cbn [waited]. apply (slot_pure _). intros Hf.
  assert (∀ n, account_ids n ∉ lu) as Hdis.
  { intros n (m & E & _)%elem_of_used. apply Hids in E. lia. }
  assert (ids O ∉ lu) as Hkl by (intros (m & E & _)%elem_of_used; apply Hids in E; lia).
  assert (∀ x, f = Some x → x ∈ lu) as Hfl by (intros x ->; exact Hf).
  eapply slot_bind.
  { apply (TrackAPIKeySlot_triple k (ids O)); [split; [apply Hmine|by rewrite app_nil_r]|].
    rewrite app_nil_r. destruct f as [x|]; [|apply not_elem_of_nil].
    intros E%list_elem_of_singleton. apply Hkl. rewrite E. by apply Hfl. }
  intros key. cbv beta. apply (slot_pure _). intros Hkey.
  set (A := owned (KeyUse k) key ++ owned (Regular (OfUser u)) f ++ []).
  set (U := ids O :: lu ++ []).
  assert (∀ n, account_ids n ∉ held f) as Hdisf.
  { intros n. destruct f as [x|]; [|apply not_elem_of_nil]. intros E%list_elem_of_singleton.
    apply (Hdis n). rewrite E. by apply Hfl. }
  eapply slot_bind.
  { apply acquire_account_triple; [done|intros n; apply Hmine|..|done]; intros n _.
    - unfold U. rewrite app_nil_r. intros [E%Hids|?%Hdis]%elem_of_cons; [lia|done].
    - rewrite app_nil_r. apply Hdisf. }
  intros account. set (la := used account_ids _). eapply (slot_bind _ _ (λ _, St (held f ++ []) A (la ++ U))).
  - destruct account as [g|e]; [|apply slot_ret; done]. cbn [waited]. apply (slot_pure _). intros Hg.
    eapply slot_bind; [apply mild_ask, St_sound|]. intros upstream.
    eapply (slot_bind _ _ (λ _, St (held f ++ []) A (la ++ U))); [|intros []; by apply slot_ret].
    apply release_account_triple. intros y ->. pose proof Hg as (n & -> & _)%elem_of_used. split_and!.
    + apply Hmine.
    + apply elem_of_app. by left.
    + rewrite app_nil_r. apply Hdisf.
  - intros r. eapply slot_bind.
    + eapply slot_pre; [intros w; apply (St_weaken _ (held f ++ []) A (owned (Regular (OfUser u)) f ++ owned (KeyUse k) key ++ []) _ (la ++ U)); [done| |done]|].
      { intros z. unfold A. rewrite !app_nil_r, !elem_of_app. tauto. }
      apply release_user_triple. intros x E%Hfl. pose proof E as (n & -> & _)%elem_of_used.
      split_and!; [apply Hmine| |apply not_elem_of_nil]. unfold U. rewrite elem_of_app, elem_of_cons, elem_of_app. auto.
    + intros []. eapply slot_bind.
      { apply release_api_key_triple. intros x E. assert (x = ids O) as -> by (destruct Hkey; congruence).
        split_and!; [apply Hmine| |apply not_elem_of_nil]. apply elem_of_app. right. by left. }
      intros []. apply slot_ret. intros w Hw. by eexists.
Qed.

(** A connection. *)
Lemma refresh_ticks_triple ticks k x last H A U :
  mine x → x ∈ U → triple (St H A U) (refresh_ticks ticks k x last) (λ _, St H A U).
Proof.
  intros Hx HU. revert last. induction ticks as [|ticks IH]; intros last; cbn [refresh_ticks]; [by apply slot_ret|].
  eapply slot_bind; [apply mild_ask, St_sound|]. intros [| | |]; try by apply slot_ret.
  eapply (slot_bind _ _ (λ _, St H A U)).
  - unfold refresh. eapply (slot_bind _ _ (λ _, St H A U)).
    + unfold cache_RefreshOpenAIWSIngressLease. destruct (_ || _); [by apply slot_ret|].
      eapply (slot_bind _ _ (λ _, St H A U)); [|intros r; by apply slot_ret].
      apply refresh_triple; [done|done|]. intros now s Hw. by apply ingress_refreshes.
    + intros r. eapply slot_bind; [apply mild_ask, St_sound|]. intros now. destruct r as [[|]|]; by apply slot_ret.
  - intros [t lost]. cbn [fst snd]. destruct lost; [by apply slot_ret|apply IH].
Qed.
Lemma ingress_release_triple k x (U : list string) :
  (k <=? 0) = false → x ≠ "" → mine x → x ∈ U →
  triple (St [] [(x, Regular (Ingress k))] U) (cache_ReleaseOpenAIWSIngressLease k x) (λ _, St [] [] U).
Proof.
  intros Hk Hne Hx HU. unfold cache_ReleaseOpenAIWSIngressLease.
  rewrite Hk, (proj2 (String.eqb_neq x "") Hne). cbn [orb].
  eapply (slot_bind _ _ (λ _, St [] [] U)); [|intros r; by apply slot_ret].
  apply (ZREM_triple (Regular (Ingress k)) x); [done|apply not_elem_of_nil|done|done].
Qed.
Lemma ingress_triple ticks k max :
  max ≤ bound (Ingress k) → ids O ≠ "" →
  triple (St [] [] []) (ingress_connection ticks k max (ids O)) (λ _, done_with_all).
Proof.
  intros Hb Hne. unfold ingress_connection. set (x := ids O) in *. assert (mine x) as Hx by apply Hmine.
  assert (∀ U (r : res () bool), triple (St [] [] U) (Ret r) (λ _, done_with_all)) as Hret.
  { intros U r. apply slot_ret. intros w Hw. by eexists. }
  destruct (max <=? 0); [apply Hret|]. destruct (k <=? 0) eqn:Ek; [apply Hret|].
  eapply (slot_bind _ _ (granted_or_not (Regular (Ingress k)) x [] [] [])).
  - unfold cache_AcquireOpenAIWSIngressLease. destruct (_ || _).
    { apply slot_ret. intros w Hw. eapply St_weaken; [..|exact Hw]; try done. apply list_subseteq_nil. }
    eapply slot_bind.
    { apply (acquire_triple [Regular (Ingress k)] x (Regular (Ingress k)));
        [split; [apply Hmine|apply not_elem_of_nil]|apply not_elem_of_nil|by left|].
      intros now s Hw _. by apply ingress_acquires. }
    intros [n|]; apply slot_ret; [|done]. intros w Hw. cbn [answers_1]. unfold is_1 in Hw. by destruct (n =? 1).
  - assert (x ∈ [x]) as HU by by left. intros [[|]|e]; [|apply Hret..].
    eapply slot_bind; [apply hold_triple, Hmine|intros []].
    eapply slot_bind; [apply mild_ask, St_sound|intros now].
    eapply slot_bind; [by apply refresh_ticks_triple|]. intros [].
    eapply slot_bind; [by apply (let_go_triple x _ [])|]. intros [].
    eapply slot_bind; [by apply (ingress_release_triple k x [x])|]. intros r. apply Hret.
Qed.
End Requests.

(** *** Live calls *)

Section Lives.
Context (a u k : Z).
Definition leased (x : string) : list (string * slot_class) := (x,.) <$> live_classes a u k.

Lemma AcquireLiveLease_triple amax umax x replacing H A U :
  fresh U x → x ∉ H → 0 < amax → amax + 1 ≤ bound (OfAccount a) → 0 < umax → umax + 1 ≤ bound (OfUser u) →
  triple (St H A U) (AcquireLiveLease a amax u umax k x replacing)
    (λ r w, match r with
            | Ok true => St H (leased x ++ A) (x :: U) w ∧ granted_now (LiveOf (OfAccount a)) x w
            | _ => St H A (x :: U) w
            end).
Proof.
  intros Hx HH Ha Hab Hu Hub. unfold AcquireLiveLease. destruct (_ || _).
  { apply slot_ret. intros w. apply St_weaken; try done. by right. }
  eapply slot_bind.
  { apply (acquire_triple (live_classes a u k) x (LiveOf (OfAccount a))); [done|done|by left|].
    intros now s Hw Habs. by apply live_acquires. }
  intros [n|]; apply slot_ret; [|done]. intros w Hw. cbn [answers_1]. unfold is_1 in Hw. by destruct (n =? 1).
Qed.

Lemma members_release x c cs s :
  members c (foldl (λ s key, ZREM key x s) s (class_key <$> cs)) =
  if decide (c ∈ cs) then delete x (members c s) else members c s.
Proof.
  revert s. induction cs as [|c' cs IH]; intros s; cbn [fmap list_fmap foldl].
  { rewrite decide_False by apply not_elem_of_nil. done. }
  rewrite IH. unfold members. rewrite zset_ZREM. destruct (decide (c = c')) as [->|Hne].
  - rewrite (decide_True (P := class_key c' = class_key c')) by done.
    rewrite (decide_True (P := c' ∈ c' :: cs)) by by left. case_decide; [apply delete_delete_eq|done].
  - rewrite (decide_False (P := class_key c = class_key c')) by by intros ?%class_key_inj.
    destruct (decide (c ∈ cs)), (decide (c ∈ c' :: cs)) as [Hc|Hc]; try done.
    + destruct Hc. by right.
    + apply elem_of_cons in Hc as [?|?]; done.
Qed.
Lemma release_step now (keep : string → Prop) x cs s :
  ¬ keep x → sstep now keep s (foldl (λ s key, ZREM key x s) s (class_key <$> cs)).
Proof.
  intros Hx. revert s. induction cs as [|c cs IH]; intros s; cbn [fmap list_fmap foldl]; [apply sstep_refl|].
  eapply sstep_trans; [by apply remove_step|apply IH].
Qed.
Lemma releaseLiveLease_triple x H A U :
  x ≠ "" → mine x → x ∈ U → x ∉ H →
  triple (St H (leased x ++ A) U) (releaseLiveLease a u k x) (λ _, St H A U).
Proof.
  intros Hne Hx HU HH. unfold releaseLiveLease, ReleaseLiveLease.
  rewrite (proj2 (String.eqb_neq x "") Hne).
  eapply (slot_bind _ _ (λ _, St H A U)); [|intros r; by apply slot_ret].
  eapply (slot_bind _ _ (λ _, St H A U)); [|intros r; by apply slot_ret].
  change (live_keys a u k) with (class_key <$> live_classes a u k).
  apply (release_triple (live_classes a u k) x); [done|done|done|done|..].
  - intros now s _. apply release_step. by intros [].
  - intros s c Hc. rewrite members_release, decide_True by done. apply lookup_delete_eq.
  - intros s c Hn. rewrite members_release. case_decide; [|done]. rewrite lookup_delete_None. by right.
Qed.
Lemma controller_triple ticks x H A U :
  mine x → x ∈ U → triple (St H A U) (runLiveController ticks a u k x) (λ _, St H A U).
Proof.
  intros Hx HU. induction ticks as [|ticks IH]; cbn [runLiveController]; [by apply slot_ret|].
  eapply slot_bind; [apply mild_ask, St_sound|]. intros [| | |]; try by apply slot_ret.
  eapply (slot_bind _ _ (λ _, St H A U)); [|intros [|]; [done|by apply slot_ret]].
  unfold refreshLiveLease. eapply (slot_bind _ _ (λ _, St H A U)); [|intros r; by apply slot_ret].
  unfold RefreshLiveLease. destruct (String.eqb x ""); [by apply slot_ret|].
  eapply (slot_bind _ _ (λ _, St H A U)); [|intros r; by apply slot_ret].
  apply refresh_triple; [done|done|]. intros now s Hw. by apply live_refreshes.
Qed.
End Lives.

Definition created_call (u k : Z) (l : list string) H A U (r : res HelperErr (Z * string)) (w : SlotWorld) : Prop :=
  match r with
  | Ok (a, x) => x ∈ l ∧ St (x :: H) (leased a u k x ++ A) (l ++ U) w
  | Err _ => St H A (l ++ U) w
  end.
Lemma not_created u k l H A U U' e w : U ⊆ l ++ U' → St H A U w → created_call u k l H A U' (Err e) w.
Proof. intros HU. by apply St_weaken. Qed.

Section Creating.
Context (ids : nat → string) (Hids : Inj (=) (=) ids) (Hmine : ∀ n, mine (ids n)) (Hne : ∀ n, ids n ≠ "").
Context (u umax k : Z) (Hu0 : 0 < umax) (Hub : umax + 1 ≤ bound (OfUser u)).

Lemma used_two n U : used ids (2 * n) ++ ids (2 * n + 1)%nat :: ids (2 * n)%nat :: U ⊆ used ids (2 * S n) ++ U.
Proof.
  replace (2 * S n)%nat with (S (S (2 * n))) by lia. replace (2 * n + 1)%nat with (S (2 * n)) by lia.
  intros x. rewrite !elem_of_app, !elem_of_cons, !elem_of_used.
  intros [(j & -> & ?)|[->|[->|?]]]; [left..|by right]; eexists; (split; [done|lia]).
Qed.
Lemma now_used n U : ids (2 * n + 1)%nat :: ids (2 * n)%nat :: U ⊆ used ids (2 * S n) ++ U.
Proof. etrans; [|apply used_two]. by apply list_subseteq_app_r. Qed.

Lemma create_live_call_triple accounts H A U :
  Forall (λ e, 0 < snd e ∧ snd e + 1 ≤ bound (OfAccount (fst e))) accounts →
  unused ids U (2 * length accounts) → (∀ n, ids n ∉ H) →
  triple (St H A U) (create_live_call slotTTLSeconds waitQueueTTLSeconds accounts u umax k ids)
    (created_call u k (used ids (2 * length accounts)) H A U).
Proof.
  intros Hacc Hun HH. revert U Hun. induction Hacc as [|[a amax] accounts [Ha0 Hab] _ IH]; intros U Hun;
    cbn [create_live_call].
  { apply slot_ret. intros w. by apply not_created, list_subseteq_app_r. }
  cbn [length fst snd] in *. set (n := length accounts) in *.
  set (x := ids (2 * n)%nat). set (y := ids (2 * n + 1)%nat).
  assert (x ≠ y) as Hxy by (intros E%Hids; lia).
  assert (∀ e U', U' ⊆ y :: x :: U →
    triple (St H A U') (Ret (Err e)) (created_call u k (used ids (2 * S n)) H A U)) as Herr.
  { intros e U' HU'. apply slot_ret. intros w. apply not_created. etrans; [done|apply now_used]. }
  assert (fresh U x) as Hx by (split; [apply Hmine|apply Hun; lia]).
  assert (fresh (x :: U) y) as Hy.
  { split; [apply Hmine|]. rewrite not_elem_of_cons. split; [done|]. apply Hun. lia. }
  assert (x :: U ⊆ y :: x :: U) as Hs1 by (intros ? ?; by right).
  eapply slot_bind; [apply AcquireAccountSlot_triple; [done|apply HH|lia]|].
  intros [sel|e]; cbn [got]; [|by apply Herr].
  apply (slot_pure _). intros Hsel. destruct (Acquired sel) eqn:Eacq; cbn [negb].
  2: { destruct Hsel as [-> |[? _]]; [|done]. by apply Herr. }
  set (f := ReleaseFunc sel) in *. set (Af := owned (Regular (OfAccount a)) f).
  assert (∀ z, f = Some z → z = x) as Hfx by (intros z E; destruct Hsel as [?|[_ ?]]; congruence).
  assert (∀ z, z ≠ x → z ∉ H → z ∉ held f ++ H) as Hfresh.
  { intros z Hz HzH [Hz'|?]%elem_of_app; [|done]. destruct f as [z'|]; [|by apply not_elem_of_nil in Hz'].
    apply list_elem_of_singleton in Hz' as ->. by rewrite (Hfx z' eq_refl) in Hz. }
  assert (∀ H' A' U', x ∈ U' → x ∉ H' → triple (St (held f ++ H') (Af ++ A') U')
    (release_account slotTTLSeconds waitQueueTTLSeconds a f) (λ _, St H' A' U')) as Hrel.
  { intros H' A' U' HU' HH'. apply release_account_triple. intros z E%Hfx. subst z. by split_and!; [apply Hmine|..]. }
  assert (x ∈ y :: x :: U) as HxU by (right; by left). assert (y ∈ y :: x :: U) as HyU by by left.
  eapply slot_bind.
  { apply AcquireLiveLease_triple; [done|apply Hfresh; [by apply not_eq_sym|apply HH]|done..]. }
  assert (triple (St (held f ++ H) (Af ++ A) (y :: x :: U))
    (release_account slotTTLSeconds waitQueueTTLSeconds a f) (λ _, St H A (y :: x :: U))) as Hrel0 by (apply Hrel; [done|apply HH]).
  intros [[|]|e]; [|eapply slot_bind; [exact Hrel0|]; intros []; by apply Herr..].
  eapply slot_bind; [apply hold_triple, Hmine|]. intros [].
  eapply slot_bind; [apply mild_ask, St_sound|]. intros [created failover]. cbn [fst snd].
  eapply (slot_bind _ _ (λ _, St (y :: H) (leased a u k y ++ A) (y :: x :: U))).
  { eapply slot_pre; [|apply (Hrel (y :: H) (leased a u k y ++ A)); [done|]].
    - intros w. apply St_weaken; [|rewrite !app_assoc; intros z; rewrite !elem_of_app; tauto|done].
      intros z. rewrite elem_of_cons, !elem_of_app, elem_of_cons. tauto.
    - rewrite not_elem_of_cons. split; [done|apply HH]. }
  intros []. set (giveback := λ (p : slot (res HelperErr (Z * string))),
    _ <-p let_go y; _ <-p releaseLiveLease a u k y; p).
  assert (∀ p, triple (St H A (y :: x :: U)) p (created_call u k (used ids (2 * S n)) H A U) →
    triple (St (y :: H) (leased a u k y ++ A) (y :: x :: U)) (giveback p) (created_call u k (used ids (2 * S n)) H A U)) as Hgive.
  { intros p Hp. eapply slot_bind; [apply (let_go_triple y _ H); [apply Hmine|done]|]. intros [].
    eapply slot_bind; [by apply releaseLiveLease_triple; [apply Hne|apply Hmine|done|apply HH]|]. by intros []. }
  destruct created.
  - eapply slot_bind; [apply mild_ask, St_sound|]. intros [|].
    + apply slot_ret. intros w Hw. split; [apply elem_of_used; exists (2 * n + 1)%nat; split; [done|lia]|].
      revert Hw. apply St_weaken; [done|done|apply now_used].
    + apply (Hgive (Ret (Err EAcquire))). by apply Herr.
  - destruct failover; [|apply (Hgive (Ret (Err EAcquire))); by apply Herr].
    apply Hgive. eapply slot_post.
    + apply IH. intros j Hj [E|[E|Hj']%elem_of_cons]%elem_of_cons.
      * apply Hids in E. lia.
      * apply Hids in E. lia.
      * revert Hj'. apply Hun. lia.
    + intros [[a' z]|e] w; cbn [created_call].
      * intros [Hz Hw]. split; [revert Hz; apply used_mono; lia|]. revert Hw. apply St_weaken; [done|done|apply used_two].
      * apply St_weaken; [done|done|apply used_two].
Qed.
End Creating.

Section Serving.
Context (ids : nat → string) (Hids : Inj (=) (=) ids) (Hmine : ∀ n, mine (ids n)) (Hne : ∀ n, ids n ≠ "").

Lemma live_call_triple ticks accounts u umax k :
  0 < umax → umax + 1 ≤ bound (OfUser u) →
  Forall (λ e, 0 < snd e ∧ snd e + 1 ≤ bound (OfAccount (fst e))) accounts →
  triple (St [] [] [])
    (live_call slotTTLSeconds waitQueueTTLSeconds ticks accounts u umax k ids) (λ _, done_with_all).
Proof.
  intros Hu0 Hub Hacc. unfold live_call. set (x := ids O). set (ids' := λ n, ids (S n)).
  assert (Inj (=) (=) ids') as Hi by (intros n m E%Hids; lia).
  assert (∀ U (r : res HelperErr ()), triple (St [] [] U) (Ret r) (λ _, done_with_all)) as Hret.
  { intros U r. apply slot_ret. intros w Hw. by exists U. }
  assert (∀ n, ids' n ≠ x) as Hx by (intros n E%Hids; lia).
  eapply slot_bind.
  { apply AcquireUserSlot_triple; [split; [apply Hmine|apply not_elem_of_nil]|apply not_elem_of_nil|lia]. }
  intros [user|e]; cbn [got]; [|apply Hret]. apply (slot_pure _). intros Huser.
  destruct (Acquired user) eqn:Ea; cbn [negb].
  2: { destruct Huser as [-> |[? _]]; [apply Hret|done]. }
  set (f := ReleaseFunc user) in *.
  assert (∀ z, f = Some z → z = x) as Hfx by (intros z E; destruct Huser as [?|[_ ?]]; congruence).
  eapply slot_bind.
  { unfold CreateLiveCall. apply create_live_call_triple; [done|intros n; apply Hmine|intros n; apply Hne|done|done|..].
    - by apply Forall_take.
    - intros n _ E%list_elem_of_singleton. by apply (Hx n).
    - intros n. rewrite app_nil_r. destruct f as [z|]; [|apply not_elem_of_nil].
      intros E%list_elem_of_singleton. apply (Hx n). by rewrite <-(Hfx z eq_refl). }
  set (l := used ids' _). intros created.
  eapply (slot_bind _ _ (λ _, created_call u k l [] [] [x] created)).
  { assert (∀ H' A', x ∉ H' → triple (St (held f ++ H') (owned (Regular (OfUser u)) f ++ A') (l ++ [x]))
      (release_user slotTTLSeconds waitQueueTTLSeconds u f) (λ _, St H' A' (l ++ [x]))) as Hrel.
    { intros H' A' HH'. apply release_user_triple. intros z E%Hfx. subst z.
      split_and!; [apply Hmine|apply elem_of_app; right; by left|done]. }
    destruct created as [[a y]|e]; cbn [created_call]; [|apply Hrel, not_elem_of_nil].
    apply (slot_pure _). intros Hy. pose proof Hy as (n & Ey & _)%elem_of_used.
    eapply slot_weaken; [apply (Hrel [y] (leased a u k y))|..].
    - intros E%list_elem_of_singleton. by apply (Hx n); rewrite <-Ey.
    - intros w. apply St_weaken; [|rewrite !app_nil_r; intros z; rewrite !elem_of_app; tauto|done].
      intros z. rewrite app_nil_r, elem_of_cons, elem_of_app, elem_of_cons. tauto.
    - intros [] w Hw. by split; [|rewrite app_nil_r]. }
  intros []. destruct created as [[a y]|e]; cbn [created_call]; [|apply Hret].
  apply (slot_pure _). intros Hy. pose proof Hy as (n & Ey & _)%elem_of_used.
  assert (mine y) as Hmy by (rewrite Ey; apply Hmine).
  assert (y ∈ l ++ [x]) as HyU by (apply elem_of_app; by left).
  eapply slot_bind; [by apply controller_triple|]. intros [].
  eapply slot_bind; [by apply (let_go_triple y _ [])|]. intros [].
  eapply (slot_bind _ _ (λ _, St [] [] (l ++ [x]))); [|intros []; apply Hret].
  eapply slot_pre; [|apply (releaseLiveLease_triple a u k y [] [])]; [|rewrite Ey; apply Hne|done|done|apply not_elem_of_nil].
  intros w Hw. exact Hw.
Qed.

(** Every limit is within the bound of what it limits, with room for one more of
    the account and the user of a live call, whose lease is granted while the slot
    it replaces is still taken; and when it is [calm], no id of anybody lacks the
    prefix of an instance that starts. *)
Definition within (req : SlotRequest) : Prop :=
  match req with
  | Forward _ u umax _ a amax _ => umax ≤ bound (OfUser u) ∧ amax ≤ bound (OfAccount a)
  | LiveCall _ accounts u umax _ =>
      0 < umax ∧ umax + 1 ≤ bound (OfUser u) ∧
      Forall (λ e, 0 < snd e ∧ snd e + 1 ≤ bound (OfAccount (fst e))) accounts
  | IngressConnection _ k max => max ≤ bound (Ingress k)
  | Startup _ prefix => calm → ∀ id, real id → HasPrefix id prefix = true
  | _ => True
  end.
Lemma forget_triple {B} P (p : slot B) Q : triple P p (λ _, Q) → triple P (forget p) (λ _, Q).
Proof. intros Hp. eapply slot_bind; [exact Hp|]. intros a. by apply slot_ret. Qed.
Lemma mild_serve req :
  mild (serve_slots slotTTLSeconds waitQueueTTLSeconds req ids) →
  triple (St [] [] []) (serve_slots slotTTLSeconds waitQueueTTLSeconds req ids) (λ _, done_with_all).
Proof. intros Hm. eapply slot_post; [apply Hm, St_sound|]. intros [] w Hw. by exists []. Qed.
Lemma serve_triple req :
  within req → triple (St [] [] []) (serve_slots slotTTLSeconds waitQueueTTLSeconds req ids) (λ _, done_with_all).
Proof.
  destruct req; simpl within; intros Hw.
  - apply forget_triple, forward_triple; tauto.
  - apply forget_triple, live_call_triple; tauto.
  - by apply forget_triple, ingress_triple.
  - apply mild_serve, mild_loads.
  - apply mild_serve, mild_counts.
  - apply mild_serve, mild_worker.
  - apply mild_serve, mild_cleanup_account.
  - by apply mild_serve, mild_startup.
Qed.
End Serving.
End Process.

(** ** All requests of all instances *)

(** The sets that are counted for a resource. *)
Definition classes_of (r : resource) : list slot_class :=
  match r with Ingress _ => [Regular r] | _ => [Regular r; LiveOf r] end.
(** A request or a connection relies on its grant, which is not over. *)
Definition in_use (r : resource) (w : SlotWorld) (id : string) : Prop :=
  id ∈ holding w ∧
  ∃ c g, grants w !! id = Some (c, g) ∧ c ∈ classes_of r ∧ TIME (clock w) < g + ttl_of c.

Section Pool.
Context (ids : nat → nat → string).
Context (Hids : ∀ i j n m, ids i n = ids j m → i = j ∧ n = m) (Hne : ∀ i n, ids i n ≠ "").

Definition ids_of (i : nat) (id : string) : Prop := ∃ n, id = ids i n.
Definition all_ids (id : string) : Prop := ∃ i n, id = ids i n.
Definition serve_all (reqs : list SlotRequest) : list (slot ()) :=
  imap (λ i req, serve_slots slotTTLSeconds waitQueueTTLSeconds req (ids i)) reqs.
(** A start: what the sets have is of others. *)
Record idle (w : SlotWorld) : Prop := {
  idle_wf : wf (clock w) (store w);
  idle_holding : holding w = ∅;
  idle_absent : ∀ i n c, absent c (ids i n) w;
}.

Lemma ids_of_inj i : Inj (=) (=) (ids i).
Proof. intros n m E. by destruct (Hids i i n m E). Qed.
Lemma others i j w w' :
  i ≠ j → own_step (ids_of i) all_ids w w' → other_step (ids_of j) w w'.
Proof.
  intros Hij [Hs _]. eapply wstep_weaken; [|exact Hs]. intros id [n ->]. split; [|by exists j, n].
  intros [m E]. by destruct (Hids _ _ _ _ E).
Qed.
Lemma serve_all_safe (fine : Prop) (sched : list (nat * SlotOracle)) reqs w0 w ps :
  idle w0 → Forall (within all_ids) reqs → Forall (λ m, fine → so_fate (snd m) = Fine) sched →
  run sched (w0, serve_all reqs) = (w, ps) →
  rtc (some_step (λ i, own_step (ids_of i) all_ids)) (w0, ()) (w, ()) ∧
  ∀ i, ps !! i = Some (Ret ()) → ∃ U, St (ids_of i) fine [] [] U w.
Proof.
  intros [Hwf Hh Ha] Hreqs Hsched Hrun.
  destruct (grun_safe (OK fine) (λ i, other_step (ids_of i)) (λ i, own_step (ids_of i) all_ids)
              (λ i _ w, done_with_all (ids_of i) fine (fst w)) sched w0 () (serve_all reqs) w ps) as ([] & Hr & Hend).
  - intros i j w1 w2. by apply others.
  - done.
  - intros i p Hp. unfold serve_all in Hp. rewrite list_lookup_imap in Hp.
    apply fmap_Some in Hp as (req & Hreq & ->). exists (λ w, St (ids_of i) fine [] [] [] (fst w)). split_and!.
    + intros w1 w2 Hw Hs. by eapply St_steady.
    + split; simpl; [done|by intros id _; rewrite Hh|by intros id c [n ->] _|].
      intros id c _ [n ->] Hn. by destruct Hn.
    + apply serve_triple; [intros id [n ->]; by exists i, n|apply ids_of_inj|intros n; by exists n|apply Hne|].
      rewrite Forall_lookup in Hreqs. by eapply Hreqs.
  - done.
  - split; [exact Hr|]. intros i Hi. exact (proc_ok_result _ _ _ _ _ _ _ (Hend i _ Hi)).
Qed.

Lemma steps_wstep w w' :
  wf (clock w) (store w) → (∀ i, Held (ids_of i) w) →
  rtc (some_step (λ i, own_step (ids_of i) all_ids)) (w, ()) (w', ()) →
  wstep (λ _, False) w w' ∧ ∀ i, Held (ids_of i) w'.
Proof.
  intros Hwf HH Hr. remember (w, ()) as s eqn:Es. remember (w', ()) as s' eqn:Es'. revert w Hwf HH Es.
  induction Hr as [s|s s1 s' [i Hi] _ IH]; intros w Hwf HH ->.
  - injection Es' as <-. split; [by apply wstep_refl|done].
  - destruct s1 as [w1 []]. pose proof Hi as [Hs Hown]. simpl in Hs, Hown.
    destruct (IH Es' w1) as [Hs' HH']; [apply Hs| |done|].
    + intros j. destruct (decide (i = j)) as [<-|Hij]; [done|]. eapply Held_kept; [apply HH|].
      by apply (others i j (w, ()) (w1, ())).
    + split; [|done]. eapply wstep_trans; [|exact Hs']. by eapply wstep_weaken, Hs.
Qed.
End Pool.
End Slots.

(** The hypotheses of the theorems: distinct ids, and a start. *)
Record distinct_ids (ids : nat → nat → string) : Prop := {
  ids_inj : ∀ i j n m, ids i n = ids j m → i = j ∧ n = m;
  ids_named : ∀ i n, ids i n ≠ "";
}.




(** ** Request ids *)

(** A number in base 36, read on from [n]. *)
Definition value36 (c : ascii) : Z :=
  let n := Z.of_nat (nat_of_ascii c) in if n <? 58 then n - 48 else n - 87.
Fixpoint read36 (n : Z) (s : string) : Z :=
  match s with "" => n | String c s => read36 (36 * n + value36 c) s end.
Definition no_dash (s : string) : bool := str_forallb (λ c, negb (Ascii.eqb c "-")) s.

Lemma digit36_spec d : 0 ≤ d < 36 → value36 (digit36 d) = d ∧ Ascii.eqb (digit36 d) "-" = false.
Proof.
  intros Hd. assert (∃ n : nat, d = Z.of_nat n ∧ (n < 36)%nat) as (n & -> & Hn) by (exists (Z.to_nat d); lia).
  do 36 (destruct n as [|n]; [by split; vm_compute|]). lia.
Qed.
Lemma digits36_spec fuel n acc :
  0 ≤ n < 36 ^ Z.of_nat fuel → (0 < fuel)%nat →
  read36 0 (digits36 fuel n acc) = read36 n acc ∧ (no_dash acc = true → no_dash (digits36 fuel n acc) = true).
Proof.
  revert n acc. induction fuel as [|fuel IH]; intros n acc Hn Hf; [lia|]. cbn [digits36].
  pose proof (Z.mod_pos_bound n 36 eq_refl). pose proof (Z.div_mod n 36 ltac:(done)).
  destruct (digit36_spec (n mod 36)) as [Hv Hd]; [lia|].
  destruct (Z.ltb_spec n 36).
  - unfold no_dash. cbn [read36 str_forallb]. rewrite Hv, Hd. cbn [negb andb]. rewrite Z.mod_small by lia. done.
  - assert (0 < fuel)%nat as Hf' by (destruct fuel; [simpl in Hn|]; lia).
    assert (0 ≤ n / 36 < 36 ^ Z.of_nat fuel) as Hn'.
    { split; [apply Z.div_pos; lia|]. apply Z.div_lt_upper_bound; [lia|].
      rewrite Nat2Z.inj_succ, Z.pow_succ_r in Hn by lia. lia. }
    destruct (IH (n / 36) (String (digit36 (n mod 36)) acc) Hn' Hf') as [-> Hn'']. unfold no_dash in *.
    cbn [read36 str_forallb] in *. rewrite Hv. split; [f_equal; lia|]. intros Hacc. apply Hn''. by rewrite Hd, Hacc.
Qed.
Lemma FormatUint36_inj n m : 0 ≤ n < 2 ^ 64 → 0 ≤ m < 2 ^ 64 → FormatUint36 n = FormatUint36 m → n = m.
Proof.
  intros Hn Hm E. assert (2 ^ 64 ≤ 36 ^ Z.of_nat 13) as Hb by (vm_compute; discriminate).
  destruct (digits36_spec 13 n "") as [En _]; [lia|lia|].
  destruct (digits36_spec 13 m "") as [Em _]; [lia|lia|].
  fold (FormatUint36 n) in En. fold (FormatUint36 m) in Em. rewrite E, Em in En. by simpl in En.
Qed.
Lemma FormatUint36_no_dash n : 0 ≤ n < 2 ^ 64 → no_dash (FormatUint36 n) = true.
Proof.
  intros Hn. assert (2 ^ 64 ≤ 36 ^ Z.of_nat 13) as Hb by (vm_compute; discriminate).
  apply (digits36_spec 13 n ""); [lia|lia|done].
Qed.
Lemma dash_inj a a' b b' :
  no_dash a = true → no_dash a' = true → a +:+ "-" +:+ b = a' +:+ "-" +:+ b' → a = a' ∧ b = b'.
Proof.
  revert a'. induction a as [|c a IH]; intros [|c' a'] Ha Ha' E.
  - by injection E.
  - injection E as <- _. discriminate Ha'.
  - injection E as -> _. discriminate Ha.
  - apply andb_true_iff in Ha as [_ Ha]. apply andb_true_iff in Ha' as [_ Ha'].
    injection E as -> E. by destruct (IH a' Ha Ha' E) as [-> ->].
Qed.

(** Two requests never get the same id: not within a process, whose sequence
    numbers differ, and not in processes with different random bytes. *)
Theorem request_ids_differ random random' seq seq' :
  0 ≤ random < 2 ^ 64 → 0 ≤ random' < 2 ^ 64 → 0 ≤ seq < 2 ^ 64 → 0 ≤ seq' < 2 ^ 64 →
  generateRequestID (initRequestIDPrefix random) seq = generateRequestID (initRequestIDPrefix random') seq' →
  random = random' ∧ seq = seq'.
Proof.
  intros Hr Hr' Hs Hs' E. unfold generateRequestID, initRequestIDPrefix in E. cbn [String.append] in E.
  injection E as E. apply dash_inj in E as [E1 E2]; [|by apply FormatUint36_no_dash..].
  by split; apply FormatUint36_inj.
Qed.
Lemma request_ids_differ_witness :
  generateRequestID (initRequestIDPrefix 123456789) 35 = "r21i3v9-z" ∧
  (generateRequestID (initRequestIDPrefix 123456789) 35 = generateRequestID (initRequestIDPrefix 123456789) 35 →
   123456789 = 123456789 ∧ 35 = 35).
Proof. split; [reflexivity|]. apply request_ids_differ; lia. Defined.

(** ** Concrete runs *)

Module SlotDemo.
Definition at_ms (t : Z) : SlotOracle :=
  {| so_fate := Fine; so_now := t; so_page := ([], true); so_ready := TimerFired; so_local := 0;
     so_upstream := true; so_failover := false; so_random := f_of_int 0 |}.
Definition failing (t : Z) : SlotOracle :=
  {| so_fate := Fail; so_now := t; so_page := ([], true); so_ready := TimerFired; so_local := 0;
     so_upstream := true; so_failover := false; so_random := f_of_int 0 |}.
Definition ids (i n : nat) : string := "r" +:+ pretty (N.of_nat i) +:+ "-" +:+ pretty (N.of_nat n).
Definition nothing : SlotWorld :=
  {| store := {| zsets := ∅; counters := ∅; expiry := ∅ |}; clock := 1000000000; grants := ∅; holding := ∅ |}.
Definition turns (n i : nat) (t : Z) : list (nat * SlotOracle) := replicate n (i, at_ms t).
Definition play (reqs : list SlotRequest) (sched : list (nat * SlotOracle)) : SlotWorld * list (slot ()) :=
  run sched (nothing, serve_all 900 900 ids reqs).
Lemma play_run reqs sched :
  run sched (nothing, serve_all 900 900 ids reqs) = (fst (play reqs sched), snd (play reqs sched)).
Proof. unfold play. apply surjective_pairing. Qed.
Definition ended (r : SlotWorld * list (slot ())) : list bool :=
  (λ p, match p with Ret _ => true | _ => false end) <$> snd r.

Lemma digits_no_dash s : str_forallb is_digit s = true → no_dash s = true.
Proof.
  induction s as [|c s IH]; [done|]. unfold no_dash in *. cbn [str_forallb].
  intros [Hc Hs]%andb_true_iff. rewrite (IH Hs), andb_true_r. by destruct (Ascii.eqb_spec c "-") as [->|].
Qed.
Lemma ids_distinct : distinct_ids ids.
Proof.
  split; [|done]. intros i j n m E. unfold ids in E. apply (inj (String.append "r")), dash_inj in E as [E1 E2];
    [|apply digits_no_dash, pretty_N_digits..].
  apply (inj pretty) in E1. apply (inj pretty) in E2. lia.
Qed.
Lemma nothing_idle : idle 900 ids nothing.
Proof. split; [|done|done]. intros c id sc H. discriminate H. Qed.

(** Two requests on account 9, which takes one at a time: while the first is on
    its way the second waits for a slot; then both get their turn. *)
Definition two : list SlotRequest := [Forward 2 7 1 3 9 1 5; Forward 3 8 1 4 9 1 5].
Definition first_on_its_way : list (nat * SlotOracle) := turns 10 0 1000000000 ++ turns 8 1 1000001000.
Definition both_served : list (nat * SlotOracle) :=
  first_on_its_way ++ turns 40 0 1000002000 ++ turns 40 1 1000003000.
Example one_waits :
  let w := fst (play two first_on_its_way) in
  "r0-6" ∈ holding w ∧ ZRANGE (accountSlotKey 9) (store w) = ["r0-6"] ∧
  GET (accountWaitKey 9) (store w) = Some 1 ∧ ended (play two first_on_its_way) = [false; false].
Proof. split_and!; vm_compute; done. Qed.
Example then_both_are_served : ended (play two both_served) = [true; true].
Proof. reflexivity. Qed.

Lemma two_within calm : Forall (within (λ _, 1) calm (all_ids ids)) two.
Proof. repeat constructor; done. Qed.
Lemma first_in_use : in_use 900 (OfAccount 9) (fst (play two first_on_its_way)) "r0-6".
Proof.
  split; [by vm_compute|]. exists (Regular (OfAccount 9)), 1000000.
  split_and!; [reflexivity|by left|by vm_compute].
Qed.
Lemma all_fine n i t : Forall (λ m, so_fate (snd m) = Fine) (turns n i t).
Proof. apply Forall_replicate. done. Qed.
Lemma both_fine : Forall (λ m, so_fate (snd m) = Fine) both_served.
Proof. unfold both_served, first_on_its_way. rewrite !Forall_app. split_and!; apply all_fine. Qed.


(** *** What the theorems leave out *)

(** Another instance starts: it takes the slots without its own prefix to be
    left behind, and the account serves two requests at a time. *)
Definition with_startup : list SlotRequest := [Forward 2 7 1 3 9 1 5; Startup 3 "x"; Forward 2 8 1 4 9 1 5].
Example startup_frees_others :
  let w := fst (play with_startup (turns 10 0 1000000000 ++ turns 40 1 1000001000 ++ turns 10 2 1000002000)) in
  in_use 900 (OfAccount 9) w "r0-6" ∧ in_use 900 (OfAccount 9) w "r2-6".
Proof.
  split; (split; [by vm_compute|]).
  - exists (Regular (OfAccount 9)), 1000000. split_and!; [reflexivity|by left|by vm_compute].
  - exists (Regular (OfAccount 9)), 1000002. split_and!; [reflexivity|by left|by vm_compute].
Qed.

(** A request that takes longer than a slot lives is not counted any more. *)
Example long_request_is_forgotten :
  let w := fst (play two (turns 10 0 1000000000 ++ turns 10 1 1000902000)) in
  "r0-6" ∈ holding w ∧ "r1-8" ∈ holding w ∧ ZRANGE (accountSlotKey 9) (store w) = ["r1-8"].
Proof. split_and!; by vm_compute. Qed.

(** A request whose wait could not be counted waits all the same, and takes back
    the wait of another when it gives up: the second request still waits, and no
    wait is counted. *)
Definition three : list SlotRequest :=
  [Forward 2 7 1 3 9 1 5; Forward 9 8 1 4 9 1 5; Forward 0 6 1 5 9 1 5].
Definition one_uncounted : list (nat * SlotOracle) :=
  turns 10 0 1000000000 ++ turns 8 1 1000001000 ++ turns 4 2 1000001500 ++ [(2%nat, failing 1000002000)].
Example uncounted_wait :
  GET (accountWaitKey 9) (store (fst (play three one_uncounted))) = Some 1 ∧
  let r := play three (one_uncounted ++ turns 20 2 1000003000) in
  GET (accountWaitKey 9) (store (fst r)) = Some 0 ∧ ended r = [false; false; true] ∧
  ZRANGE (accountSlotKey 9) (store (fst r)) = ["r0-6"].
Proof. split; [reflexivity|]. cbv zeta. split_and!; reflexivity. Qed.
End SlotDemo.
