(* ===== verification/StreamCircuit.v ===== *)
(** * Circuit breaker of the proxies of OpenAI streams

    [src/backend/internal/service/openai_proxy_stream_circuit.go], and the
    fail-open pass of [selectAccountWithScheduler]
    ([service/openai_account_scheduler.go]).  Every operation runs under one
    mutex, so it is a function from the map of entries to the map; [rank] stands
    for the order in which Go iterates over a map, which may be any order. *)

From Stdlib Require Import ZArith Lia Ascii String Bool.
From stdpp Require Import base numbers option list gmap sorting.
From S2P Require Import Prelude.

#[local] Open Scope Z_scope.

Definition defaultOpenAIProxyStreamFailureThreshold : Z := 2.
Definition defaultOpenAIProxyStreamFailureWindow : duration := Minute.
Definition defaultOpenAIProxyStreamQuarantineTTL : duration := 10 * Minute.
Definition defaultOpenAIProxyStreamCircuitMaxEntries : Z := 4096.
Definition defaultOpenAIProxyStreamFailureCollapse : duration := 3 * Second.
Definition openAIProxyStreamFailOpenLogInterval : duration := 5 * Second.

Record openAIProxyStreamCircuitSettings := {
  disabled : bool;
  failureThreshold : Z;
  failureWindow : duration;
  quarantineTTL : duration;
  collapseInterval : duration;
  maxEntries : Z;
}.
Record openAIProxyStreamCircuitEntry := {
  failureCount : Z;
  windowStart : time;
  lastFailureAt : time;
  blockedUntil : time;
  lastTouched : time;
}.
Abbreviation circuit := (gmap Z openAIProxyStreamCircuitEntry).

Record GatewayOpenAIProxyStreamCircuitConfig := {
  cfg_Disabled : bool;
  FailureThreshold : Z;
  WindowSeconds : Z;
  TTLSeconds : Z;
}.
Definition resolveOpenAIProxyStreamCircuitSettings (cfg : option GatewayOpenAIProxyStreamCircuitConfig)
  : openAIProxyStreamCircuitSettings :=
  let choose (n : Z) (x : Z) (d : Z) := if 0 <? n then x else d in
  match cfg with
  | None =>
      {| disabled := false; failureThreshold := defaultOpenAIProxyStreamFailureThreshold;
         failureWindow := defaultOpenAIProxyStreamFailureWindow;
         quarantineTTL := defaultOpenAIProxyStreamQuarantineTTL;
         collapseInterval := defaultOpenAIProxyStreamFailureCollapse;
         maxEntries := defaultOpenAIProxyStreamCircuitMaxEntries |}
  | Some cfg =>
      {| disabled := cfg_Disabled cfg;
         failureThreshold := choose (FailureThreshold cfg) (FailureThreshold cfg) defaultOpenAIProxyStreamFailureThreshold;
         failureWindow := choose (WindowSeconds cfg) (WindowSeconds cfg *ᵢ Second) defaultOpenAIProxyStreamFailureWindow;
         quarantineTTL := choose (TTLSeconds cfg) (TTLSeconds cfg *ᵢ Second) defaultOpenAIProxyStreamQuarantineTTL;
         collapseInterval := defaultOpenAIProxyStreamFailureCollapse;
         maxEntries := defaultOpenAIProxyStreamCircuitMaxEntries |}
  end.
(** The settings of the circuit it returns; it starts without entries. *)
Definition newOpenAIProxyStreamCircuit (s : openAIProxyStreamCircuitSettings) : openAIProxyStreamCircuitSettings :=
  let positive (x d : Z) := if x <=? 0 then d else x in
  {| disabled := disabled s;
     failureThreshold := positive (failureThreshold s) defaultOpenAIProxyStreamFailureThreshold;
     failureWindow := positive (failureWindow s) defaultOpenAIProxyStreamFailureWindow;
     quarantineTTL := positive (quarantineTTL s) defaultOpenAIProxyStreamQuarantineTTL;
     collapseInterval := if collapseInterval s <? 0 then 0 else collapseInterval s;
     maxEntries := positive (maxEntries s) defaultOpenAIProxyStreamCircuitMaxEntries |}.

(** The keys in the order of an iteration. *)
Definition by_rank (rank : Z → Z) (a b : Z) : Prop := rank a ≤ rank b.
#[global] Instance by_rank_dec rank : RelDecision (by_rank rank).
Proof. intros a b. unfold by_rank. apply _. Defined.
Definition iteration (rank : Z → Z) (c : circuit) : list Z := merge_sort (by_rank rank) (elements (dom c)).

Section Circuit.
Context (settings : openAIProxyStreamCircuitSettings).

Definition stale_entry (now : time) (e : openAIProxyStreamCircuitEntry) : bool :=
  let staleObservation :=
    time_IsZero (blockedUntil e) && (failureWindow settings <? time_Sub now (lastTouched e)) in
  let expiredQuarantine := negb (time_IsZero (blockedUntil e)) && negb (time_Before now (blockedUntil e)) in
  staleObservation || expiredQuarantine.
(** The last loop: the id and the instant it was touched. *)
Definition oldest_step (c : circuit) (acc : Z * time) (proxyID : Z) : Z * time :=
  match c !! proxyID with
  | None => acc
  | Some e => if (fst acc =? 0) || time_Before (lastTouched e) (snd acc) then (proxyID, lastTouched e) else acc
  end.
Definition ensureCapacityLocked (rank : Z → Z) (now : time) (c : circuit) : circuit :=
  if Z.of_nat (size c) <? maxEntries settings then c
  else
    let c := filter (λ kv, stale_entry now (snd kv) = false) c in
    if Z.of_nat (size c) <? maxEntries settings then c
    else
      let (oldestProxyID, _) := foldl (oldest_step c) (0, 0) (iteration rank c) in
      if 0 <? oldestProxyID then delete oldestProxyID c else c.

Definition new_entry : openAIProxyStreamCircuitEntry :=
  {| failureCount := 0; windowStart := 0; lastFailureAt := 0; blockedUntil := 0; lastTouched := 0 |}.
Definition touched (now : time) (e : openAIProxyStreamCircuitEntry) : openAIProxyStreamCircuitEntry :=
  {| failureCount := failureCount e; windowStart := windowStart e; lastFailureAt := lastFailureAt e;
     blockedUntil := blockedUntil e; lastTouched := now |}.
(** A new window, when there is none or it is over. *)
Definition open_window (now : time) (e : openAIProxyStreamCircuitEntry) : openAIProxyStreamCircuitEntry :=
  if time_IsZero (windowStart e) || time_Before now (windowStart e)
     || (failureWindow settings <? time_Sub now (windowStart e))
  then {| failureCount := 0; windowStart := now; lastFailureAt := lastFailureAt e; blockedUntil := 0;
          lastTouched := lastTouched e |}
  else e.
Definition collapses (now : time) (e : openAIProxyStreamCircuitEntry) : bool :=
  (0 <? collapseInterval settings) && negb (time_IsZero (lastFailureAt e))
  && (0 <=? time_Sub now (lastFailureAt e)) && (time_Sub now (lastFailureAt e) <? collapseInterval settings).
Definition count_failure (now : time) (e : openAIProxyStreamCircuitEntry)
  : bool * openAIProxyStreamCircuitEntry :=
  let tripped := failureThreshold settings <=? failureCount e + 1 in
  (tripped,
   {| failureCount := failureCount e + 1; windowStart := windowStart e; lastFailureAt := now;
      blockedUntil := if tripped then time_Add now (quarantineTTL settings) else blockedUntil e;
      lastTouched := now |}).
Definition recordFailure (rank : Z → Z) (proxyID : Z) (now : time) (c : circuit) : (bool * time) * circuit :=
  if disabled settings || (proxyID <=? 0) then ((false, 0), c)
  else
    match c !! proxyID with
    | Some e =>
        if time_Before now (blockedUntil e) then ((false, blockedUntil e), <[proxyID := touched now e]> c)
        else
          let e := open_window now e in
          if collapses now e then ((false, 0), <[proxyID := touched now e]> c)
          else let (tripped, e) := count_failure now e in ((tripped, blockedUntil e), <[proxyID := e]> c)
    | None =>
        let c := ensureCapacityLocked rank now c in
        let e := open_window now new_entry in
        if collapses now e then ((false, 0), <[proxyID := touched now e]> c)
        else let (tripped, e) := count_failure now e in ((tripped, blockedUntil e), <[proxyID := e]> c)
    end.
Definition recordSuccess (proxyID : Z) (c : circuit) : bool * circuit :=
  if proxyID <=? 0 then (false, c)
  else match c !! proxyID with None => (false, c) | Some _ => (true, delete proxyID c) end.
Definition isBlocked (proxyID : Z) (now : time) (c : circuit) : bool * circuit :=
  if disabled settings || (proxyID <=? 0) then (false, c)
  else
    match c !! proxyID with
    | None => (false, c)
    | Some e =>
        if time_IsZero (blockedUntil e) then (false, c)
        else if negb (time_Before now (blockedUntil e)) then (false, delete proxyID c)
        else (true, c)
    end.
Definition activeBlockCount (now : time) (c : circuit) : Z :=
  if disabled settings then 0
  else Z.of_nat (size (filter (λ kv, negb (time_IsZero (blockedUntil (snd kv)))
                                     && time_Before now (blockedUntil (snd kv)) = true) c)).

(** ** The service *)

Record StreamAccount := { on_openai : bool; ProxyID : option Z }.
Definition openAIProxyStreamCircuitProxyID (account : option StreamAccount) : option Z :=
  match account with
  | None => None
  | Some a =>
      if negb (on_openai a) then None
      else match ProxyID a with None => None | Some p => if p <=? 0 then None else Some p end
  end.
Inductive StreamErr := NoStreamErr | ContextCanceled | ContextDeadlineExceeded | OtherStreamErr.
Definition counted_err (err : StreamErr) : bool := match err with OtherStreamErr => true | _ => false end.

(** Whether the disconnect is logged as a quarantine, and until when. *)
Definition recordOpenAIProxyStreamDisconnect (rank : Z → Z) (account : option StreamAccount) (err : StreamErr)
    (now : time) (c : circuit) : option time * circuit :=
  match openAIProxyStreamCircuitProxyID account with
  | None => (None, c)
  | Some proxyID =>
      if negb (counted_err err) then (None, c)
      else let '((tripped, until), c) := recordFailure rank proxyID now c in
           (if tripped : bool then Some until else None, c)
  end.
Definition clearOpenAIProxyStreamDisconnect (account : option StreamAccount) (c : circuit) : circuit :=
  match openAIProxyStreamCircuitProxyID account with
  | None => c
  | Some proxyID => snd (recordSuccess proxyID c)
  end.
Definition isOpenAIProxyStreamQuarantined (bypassed : bool) (account : option StreamAccount) (now : time) (c : circuit)
  : bool * circuit :=
  match openAIProxyStreamCircuitProxyID account with
  | None => (false, c)
  | Some proxyID => if bypassed then (false, c) else isBlocked proxyID now c
  end.
(** Whether it logs, and when it last did, in nanoseconds of the epoch. *)
Definition logOpenAIProxyStreamQuarantineFailOpen (now last : Z) : bool * Z :=
  if now -ᵢ last <? openAIProxyStreamFailOpenLogInterval then (false, last) else (true, now).

(** [selectAccountWithScheduler]: a second pass, without the quarantine, when the
    first finds no account and some proxy is withheld.  [once] is one pass. *)
Inductive SelectErr := ErrNoAvailableAccounts | ErrNoAvailableCompactAccounts | OtherSelectErr.
Definition selectAccountWithScheduler {A} (once : bool → circuit → res SelectErr A * circuit)
    (bypassed openai : bool) (now : time) (c : circuit) : res SelectErr A * circuit :=
  let (r, c) := once bypassed c in
  match r with
  | Ok _ => (r, c)
  | Err e =>
      if bypassed || (match e with OtherSelectErr => true | _ => false end) || negb openai then (r, c)
      else if activeBlockCount now c =? 0 then (r, c)
      else once true c
  end.

(** What happens to the circuit, in the order in which the calls take the mutex;
    each is given the instant that its caller read from the clock before that,
    so the instants need not be in order. *)
Inductive CircuitCall :=
| Disconnect (account : option StreamAccount) (err : StreamErr) (rank : Z → Z)
| Completed (account : option StreamAccount)
| AskQuarantined (bypassed : bool) (account : option StreamAccount).
Definition circuit_step (c : circuit) (call : time * CircuitCall) : circuit :=
  match snd call with
  | Disconnect account err rank => snd (recordOpenAIProxyStreamDisconnect rank account err (fst call) c)
  | Completed account => clearOpenAIProxyStreamDisconnect account c
  | AskQuarantined bypassed account => snd (isOpenAIProxyStreamQuarantined bypassed account (fst call) c)
  end.
Definition circuit_run (calls : list (time * CircuitCall)) : circuit := foldl circuit_step ∅ calls.
End Circuit.

(** ** The map stays bounded *)

Section Bounded.
Context (s : openAIProxyStreamCircuitSettings).

Definition positive_keys (c : circuit) : Prop := ∀ p e, c !! p = Some e → 0 < p.
Record bounded (c : circuit) : Prop := {
  bounded_size : Z.of_nat (size c) ≤ maxEntries s;
  bounded_keys : positive_keys c;
}.

Lemma positive_keys_sub c c' : c' ⊆ c → positive_keys c → positive_keys c'.
Proof. intros Hs Hc p e H. eapply Hc, lookup_weaken; eauto. Qed.
Lemma bounded_sub c c' : c' ⊆ c → bounded c → bounded c'.
Proof.
  intros Hs [H1 H2]. split; [|by eapply positive_keys_sub].
  etrans; [|exact H1]. apply inj_le. by apply map_subseteq_size.
Qed.
Lemma iteration_elem rank c p : p ∈ iteration rank c ↔ p ∈ dom c.
Proof. unfold iteration. rewrite (merge_sort_Permutation (by_rank rank) (elements (dom c))). apply elem_of_elements. Qed.

Lemma oldest_found c l acc :
  positive_keys c → (∀ p, p ∈ l → p ∈ dom c) → (fst acc = 0 ∨ fst acc ∈ dom c) →
  let r := fst (foldl (oldest_step c) acc l) in (r ∈ dom c) ∨ (l = [] ∧ r = fst acc).
Proof.
  intros Hc. revert acc. induction l as [|p l IH]; intros acc Hl Hacc; simpl; [by right|left].
  assert (p ∈ dom c) as Hp by (apply Hl; by left). pose proof Hp as [e He]%elem_of_dom.
  assert (fst (oldest_step c acc p) ∈ dom c) as Hnext.
  { unfold oldest_step. rewrite He. destruct Hacc as [-> |Hacc]; [done|]. by destruct (_ || _). }
  destruct (IH (oldest_step c acc p)) as [?|[-> ->]]; [by intros; apply Hl; right|by right|done|done].
Qed.
Lemma ensureCapacity_sub rank now c : ensureCapacityLocked s rank now c ⊆ c.
Proof.
  unfold ensureCapacityLocked. destruct (_ <? _); [done|]. set (c' := filter _ c).
  assert (c' ⊆ c) as Hs by apply map_filter_subseteq. destruct (_ <? _); [done|].
  destruct (foldl _ _ _) as [p t]. destruct (0 <? p); [|done]. etrans; [apply delete_subseteq|done].
Qed.
Lemma ensureCapacity_room rank now c :
  0 < maxEntries s → bounded c → Z.of_nat (size (ensureCapacityLocked s rank now c)) < maxEntries s.
Proof.
  intros Hmax Hb. unfold ensureCapacityLocked. destruct (Z.ltb_spec (Z.of_nat (size c)) (maxEntries s)); [done|].
  set (c' := filter _ c). assert (bounded c') as [Hsz Hk] by (eapply bounded_sub; [apply map_filter_subseteq|done]).
  destruct (Z.ltb_spec (Z.of_nat (size c')) (maxEntries s)) as [|Hfull]; [done|].
  pose proof (oldest_found c' (iteration rank c') (0, 0) Hk) as Ho. cbv zeta in Ho.
  destruct (foldl (oldest_step c') (0, 0) (iteration rank c')) as [p t]. cbn [fst] in Ho.
  destruct Ho as [Hp|[Hnil _]]; [intros q; apply iteration_elem|by left| |].
  - pose proof Hp as [e He]%elem_of_dom. pose proof (Hk p e He). destruct (Z.ltb_spec 0 p); [|lia].
    pose proof (map_size_delete_Some p c' (mk_is_Some _ _ He)) as Hd.
    assert (size c' ≠ 0%nat) by (intros E; apply map_size_empty_inv in E; rewrite E in He; done).
    rewrite Hd. lia.
  - assert (size c' ≠ 0%nat) as Hne by lia. exfalso. apply Hne, map_size_empty_iff, map_eq. intros q.
    rewrite lookup_empty. destruct (c' !! q) eqn:E; [|done]. exfalso. apply (not_elem_of_nil q).
    rewrite <-Hnil. apply iteration_elem, elem_of_dom. by rewrite E.
Qed.

Lemma bounded_insert c p e : bounded c → 0 < p → is_Some (c !! p) ∨ Z.of_nat (size c) < maxEntries s → bounded (<[p := e]> c).
Proof.
  intros [Hs Hk] Hp Hroom. split.
  - rewrite map_size_insert. destruct (c !! p) eqn:E; simpl; [lia|]. destruct Hroom as [[? ?]|?]; [done|lia].
  - intros q e' [[<- _]|[_ H]]%lookup_insert_Some; eauto.
Qed.
Lemma bounded_recordFailure rank p now c :
  0 < maxEntries s → bounded c → bounded (snd (recordFailure s rank p now c)).
Proof.
  intros Hmax Hb. unfold recordFailure. destruct (disabled s); [done|]. destruct (Z.leb_spec p 0); [done|].
  cbn [orb]. destruct (c !! p) as [e|] eqn:Ep.
  - destruct (time_Before _ _); [|destruct (collapses _ _ _); [|unfold count_failure]]; simpl;
      (apply bounded_insert; [done|done|left; by rewrite Ep]).
  - pose proof (ensureCapacity_room rank now c Hmax Hb).
    assert (bounded (ensureCapacityLocked s rank now c)) by (eapply bounded_sub, Hb; apply ensureCapacity_sub).
    destruct (collapses _ _ _); [|unfold count_failure]; simpl; (apply bounded_insert; [done|done|by right]).
Qed.
Lemma bounded_step c call : 0 < maxEntries s → bounded c → bounded (circuit_step s c call).
Proof.
  intros Hmax Hb. destruct call as [now [account err rank|account|bypassed account]]; unfold circuit_step; simpl.
  - unfold recordOpenAIProxyStreamDisconnect. destruct (openAIProxyStreamCircuitProxyID account) as [p|]; [|done].
    destruct (negb _); [done|]. pose proof (bounded_recordFailure rank p now c Hmax Hb) as Hr.
    by destruct (recordFailure s rank p now c) as [[tripped until] c'].
  - unfold clearOpenAIProxyStreamDisconnect, recordSuccess.
    destruct (openAIProxyStreamCircuitProxyID account) as [p|]; [|done]. destruct (p <=? 0); [done|].
    destruct (c !! p); [|done]. simpl. eapply bounded_sub, Hb. apply delete_subseteq.
  - unfold isOpenAIProxyStreamQuarantined, isBlocked.
    destruct (openAIProxyStreamCircuitProxyID account) as [p|]; [|done]. destruct bypassed; [done|].
    destruct (_ || _); [done|]. destruct (c !! p) as [e|]; [|done]. destruct (time_IsZero _); [done|].
    destruct (negb _); [|done]. simpl. eapply bounded_sub, Hb. apply delete_subseteq.
Qed.
End Bounded.

(** C40: Whatever happens, the circuit breaker never remembers more proxies than
    its limit: it makes room before it adds one. *)
Theorem circuit_bounded s calls :
  0 < maxEntries s → Z.of_nat (size (circuit_run s calls)) ≤ maxEntries s.
Proof.
  intros Hmax. assert (bounded s (circuit_run s calls)) as [? _]; [|done].
  unfold circuit_run. assert (bounded s ∅) as Hb by (split; [rewrite map_size_empty; lia|done]).
  revert Hb. generalize (∅ : circuit). induction calls as [|call calls IH]; intros c Hb; simpl; [done|].
  by apply IH, bounded_step.
Qed.

(** ** A quarantine is earned *)

(** The disconnects of a proxy since a stream was last completed through it. *)
Definition disconnects_step (p : Z) (ts : list time) (call : time * CircuitCall) : list time :=
  match snd call with
  | Disconnect account err _ =>
      if decide (openAIProxyStreamCircuitProxyID account = Some p) then
        if counted_err err then ts ++ [fst call] else ts
      else ts
  | Completed account => if decide (openAIProxyStreamCircuitProxyID account = Some p) then [] else ts
  | AskQuarantined _ _ => ts
  end.
Definition disconnects (p : Z) (calls : list (time * CircuitCall)) : list time :=
  foldl (disconnects_step p) [] calls.

Lemma pairwise_snoc {A} (R : A → A → Prop) l x :
  pairwise R (l ++ [x]) ↔ pairwise R l ∧ Forall (λ y, R y x) l.
Proof.
  induction l as [|y l IH]; simpl; [split; [by intros|by split]|].
  rewrite IH, !Forall_app, !Forall_cons. naive_solver.
Qed.

Lemma Forall_of_sublist {A} (P : A → Prop) (l k : list A) : sublist l k → Forall P k → Forall P l.
Proof. rewrite !Forall_forall. intros Hs H x Hx. by eapply H, elem_of_sublist. Qed.
Lemma pairwise_sublist {A} (R : A → A → Prop) l k : sublist l k → pairwise R k → pairwise R l.
Proof.
  induction 1 as [|x l k Hs IH|x l k Hs IH]; simpl; [done|intros [Hx Hk]..]; [|by apply IH].
  split; [by eapply Forall_of_sublist|by apply IH].
Qed.
Lemma pairwise_last ts latest t : pairwise Z.le ts → list.last ts = Some latest → t ∈ ts → t ≤ latest.
Proof.
  destruct ts as [|x ts] using rev_ind; [done|]. rewrite last_snoc. intros [_ Hl]%pairwise_snoc [= ->].
  rewrite Forall_forall in Hl. intros [Ht| ->%list_elem_of_singleton]%elem_of_app; [by apply Hl|lia].
Qed.

(** A relation between each element and the next. *)
Fixpoint linked {A} (R : A → A → Prop) (l : list A) : Prop :=
  match l with
  | x :: (y :: _) as l' => R x y ∧ linked R l'
  | _ => True
  end.
Lemma linked_snoc {A} (R : A → A → Prop) l x :
  linked R (l ++ [x]) ↔ linked R l ∧ ∀ y, list.last l = Some y → R y x.
Proof.
  induction l as [|y [|z l] IH]; [by split|simpl; naive_solver|].
  change (linked R ((y :: z :: l) ++ [x])) with (R y z ∧ linked R ((z :: l) ++ [x])).
  rewrite IH. change (list.last (y :: z :: l)) with (list.last (z :: l)). simpl. tauto.
Qed.

Section Earned.
Context (s : openAIProxyStreamCircuitSettings) (Hwin : failureWindow s < max_int64).

Definition spaced : list time → Prop := pairwise (λ t t', t + collapseInterval s ≤ t').
(** A failure that is counted after another was not read within the interval
    after it: it is later than that, or was read before it. *)
Definition apart : list time → Prop := linked (λ t t', t' < t ∨ t + collapseInterval s ≤ t').
Lemma apart_spaced ts : apart ts → pairwise Z.le ts → spaced ts.
Proof.
  unfold apart, spaced. induction ts as [|t [|t' ts] IH]; [done|done|]. intros [Ht Hl] [Hle Hs].
  split; [|by apply IH]. apply Forall_cons in Hle as [Hle _]. destruct Hs as [Hs _].
  constructor; [lia|]. eapply Forall_impl; [exact Hs|]. simpl. intros. lia.
Qed.

(** An entry, the disconnects of its proxy, and the failures it counts, in the
    order in which it counted them. *)
Record counts (h ts : list time) (e : openAIProxyStreamCircuitEntry) : Prop := {
  cn_sub : sublist ts h;
  cn_length : Z.of_nat (length ts) = failureCount e;
  cn_apart : apart ts;
  cn_window : ∀ t, t ∈ ts → windowStart e ≤ t ∧ t - windowStart e ≤ failureWindow s;
  cn_last : ts ≠ [] → list.last ts = Some (lastFailureAt e);
  cn_blocked : blockedUntil e ≠ 0 →
    failureThreshold s ≤ failureCount e ∧ blockedUntil e = lastFailureAt e + quarantineTTL s;
}.
Lemma counts_later h h' ts e : counts h ts e → sublist h h' → counts h' ts e.
Proof. intros [] Hs. split; try done. by etrans. Qed.
Lemma counts_touched h ts e now : counts h ts e → counts h ts (touched now e).
Proof. by intros []; split. Qed.

Lemma time_Sub_le a b d : d < max_int64 → time_Sub a b ≤ d → a - b ≤ d.
Proof. unfold time_Sub, max_int64, min_int64. lia. Qed.
Lemma time_Sub_ge a b d : min_int64 < d → d ≤ time_Sub a b → d ≤ a - b.
Proof. unfold time_Sub, max_int64, min_int64. lia. Qed.
Lemma time_Sub_pos a b : b ≤ a → 0 ≤ time_Sub a b.
Proof. unfold time_Sub, max_int64, min_int64. lia. Qed.

Lemma counts_window now h ts e :
  counts h ts e →
  ∃ ts', counts h ts' (open_window s now e) ∧
    windowStart (open_window s now e) ≤ now ∧ now - windowStart (open_window s now e) ≤ Z.max 0 (failureWindow s).
Proof.
  intros Hc. unfold open_window.
  destruct (time_IsZero (windowStart e) || time_Before now (windowStart e) || (failureWindow s <? time_Sub now (windowStart e))) eqn:E.
  - exists []. simpl. split; [|lia]. split; simpl; try done; [apply sublist_nil_l|by intros t ?%not_elem_of_nil].
  - exists ts. split; [done|]. apply orb_false_iff in E as [E E3]. apply orb_false_iff in E as [_ E2].
    apply Z.ltb_ge in E2, E3. split; [done|]. apply time_Sub_le in E3; lia.
Qed.
(** One more failure, that is not part of the last. *)
Lemma counts_failure now h ts e :
  counts h ts e → Forall (λ t, 0 < t) h →
  windowStart e ≤ now → now - windowStart e ≤ failureWindow s →
  collapses s now e = false →
  counts (h ++ [now]) (ts ++ [now]) (snd (count_failure s now e)).
Proof.
  intros [] Hpos Hw1 Hw2 Hcol. unfold count_failure. cbn [snd]. split; simpl.
  - by apply sublist_app.
  - rewrite length_app. simpl. lia.
  - apply linked_snoc. split; [done|]. intros t Ht.
    assert (ts ≠ []) as Hne by (by intros ->). 
    assert (t = lastFailureAt e) as -> by (apply (inj Some); rewrite <-Ht; exact (cn_last0 Hne)).
    assert (0 < lastFailureAt e) as Hlp.
    { rewrite Forall_forall in Hpos. apply Hpos. eapply elem_of_sublist; [|done].
      by apply last_Some_elem_of, cn_last0. }
    unfold collapses in Hcol. assert (time_IsZero (lastFailureAt e) = false) as Hz by (apply Z.eqb_neq; lia).
    rewrite Hz in Hcol. cbn [negb] in Hcol. rewrite andb_true_r in Hcol.
    destruct (Z.ltb_spec 0 (collapseInterval s)); [|lia]. cbn [andb] in Hcol.
    destruct (Z.leb_spec 0 (time_Sub now (lastFailureAt e))) as [|Hneg]; cbn [andb] in Hcol.
    + apply Z.ltb_ge, time_Sub_ge in Hcol; [lia|]. unfold min_int64. lia.
    + left. unfold time_Sub, min_int64, max_int64 in Hneg. lia.
  - intros t [?| ->%list_elem_of_singleton]%elem_of_app; [auto|lia].
  - intros _. by rewrite last_snoc.
  - destruct (Z.leb_spec (failureThreshold s) (failureCount e + 1)); [done|].
    intros Hb. destruct (cn_blocked0 Hb). lia.
Qed.

Definition entry_ok (h : list time) (o : option openAIProxyStreamCircuitEntry) : Prop :=
  match o with Some e => ∃ ts, counts h ts e | None => True end.
Lemma entry_ok_later h h' o : entry_ok h o → sublist h h' → entry_ok h' o.
Proof. destruct o as [e|]; [|done]. intros [ts Hc] ?. exists ts. by eapply counts_later. Qed.
Lemma entry_ok_sub h (c c' : circuit) p : c' ⊆ c → entry_ok h (c !! p) → entry_ok h (c' !! p).
Proof. intros Hs H. destruct (c' !! p) eqn:E; [|done]. by rewrite (lookup_weaken _ _ _ _ E Hs) in H. Qed.

Lemma failure_ok now h e (p : Z) (c : circuit) :
  0 ≤ failureWindow s → entry_ok h (Some e) → Forall (λ t, 0 < t) h →
  entry_ok (h ++ [now])
    (snd (let e := open_window s now e in
          if collapses s now e then ((false, 0), <[p := touched now e]> c)
          else let (tripped, e) := count_failure s now e in ((tripped, blockedUntil e), <[p := e]> c)) !! p).
Proof.
  intros Hw [ts Hc] Hpos. destruct (counts_window now _ _ _ Hc) as (ts' & Hc' & Hw1 & Hw2). cbv zeta.
  destruct (collapses s now (open_window s now e)) eqn:Ecol; cbn [snd].
  - rewrite lookup_insert_eq. exists ts'. apply counts_touched. eapply counts_later; [done|].
    by apply sublist_inserts_r.
  - pose proof (counts_failure now _ _ _ Hc' Hpos Hw1 ltac:(lia) Ecol) as Hf.
    destruct (count_failure s now (open_window s now e)) as [tripped e']. cbn [snd] in *.
    rewrite lookup_insert_eq. by eexists.
Qed.
Lemma new_entry_ok h : entry_ok h (Some new_entry).
Proof. exists []. split; simpl; try done; [apply sublist_nil_l|by intros t ?%not_elem_of_nil]. Qed.

Lemma record_ok rank q now h (c : circuit) p :
  0 ≤ failureWindow s → entry_ok h (c !! p) → Forall (λ t, 0 < t) h →
  entry_ok (if decide (q = p) then h ++ [now] else h) (snd (recordFailure s rank q now c) !! p).
Proof.
  intros Hw Hok Hpos. unfold recordFailure.
  assert (sublist h (if decide (q = p) then h ++ [now] else h)) as Hsub.
  { case_decide; [by apply sublist_inserts_r|done]. }
  destruct (_ || _); [by eapply entry_ok_later|].
  destruct (decide (q = p)) as [->|Hne].
  - destruct (c !! p) as [e|] eqn:Ep.
    + destruct (time_Before now (blockedUntil e)).
      * cbn [snd]. rewrite lookup_insert_eq. destruct Hok as [ts Hc]. exists ts.
        apply counts_touched. by eapply counts_later.
      * by apply failure_ok.
    + apply failure_ok; [done|apply new_entry_ok|done].
  - assert (∀ e : openAIProxyStreamCircuitEntry, ∀ c' : circuit, c' ⊆ c → entry_ok h (<[q := e]> c' !! p)) as Hother.
    { intros e c' Hs. rewrite lookup_insert_ne by done. eapply entry_ok_sub; [exact Hs|]. by eapply entry_ok_later. }
    destruct (c !! q) as [e|]; [destruct (time_Before _ _)|];
      repeat first [destruct (collapses _ _ _) | unfold count_failure]; cbn [snd];
      apply Hother; done || apply ensureCapacity_sub.
Qed.

Lemma circuit_step_ok h (c : circuit) now call p :
  0 ≤ failureWindow s → entry_ok h (c !! p) → Forall (λ t, 0 < t) h →
  entry_ok (disconnects_step p h (now, call)) (circuit_step s c (now, call) !! p).
Proof.
  intros Hw Hok Hpos. unfold disconnects_step, circuit_step. cbn [fst snd].
  destruct call as [account err rank|account|bypassed account].
  - unfold recordOpenAIProxyStreamDisconnect. destruct (openAIProxyStreamCircuitProxyID account) as [q|].
    2: { by eapply entry_ok_later. }
    destruct (counted_err err); cbn [negb].
    2: { cbn [snd]. destruct (decide _); by eapply entry_ok_later. }
    pose proof (record_ok rank q now h c p Hw Hok Hpos) as Hr.
    destruct (recordFailure s rank q now c) as [[tripped until] c']. cbn [snd] in *.
    destruct (decide (Some q = Some p)); destruct (decide (q = p)); done || congruence.
  - unfold clearOpenAIProxyStreamDisconnect, recordSuccess. destruct (openAIProxyStreamCircuitProxyID account) as [q|] eqn:Eq.
    2: { by eapply entry_ok_later. }
    destruct (decide (Some q = Some p)) as [[= ->]|Hne].
    + assert (0 < p) as Hp.
      { unfold openAIProxyStreamCircuitProxyID in Eq. destruct account as [a|]; [|done].
        destruct (negb _); [done|]. destruct (ProxyID a) as [z|]; [|done]. destruct (Z.leb_spec z 0); [done|]. by simplify_eq. }
      destruct (Z.leb_spec p 0); [lia|]. destruct (c !! p) eqn:Ep; cbn [snd]; [by rewrite lookup_delete_eq|by rewrite Ep].
    + destruct (q <=? 0); [done|]. destruct (c !! q); cbn [snd]; [|done].
      rewrite lookup_delete_ne by (by intros ->). done.
  - unfold isOpenAIProxyStreamQuarantined, isBlocked. destruct (openAIProxyStreamCircuitProxyID account) as [q|]; [|done].
    destruct bypassed; [done|]. destruct (_ || _); [done|]. destruct (c !! q) as [e|]; [|done].
    destruct (time_IsZero _); [done|]. destruct (negb _); [|done]. cbn [snd].
    eapply entry_ok_sub; [apply delete_subseteq|done].
Qed.

(** Every disconnect that is noted is one of the calls'. *)
Lemma disconnects_sublist p calls : sublist (disconnects p calls) (fst <$> calls).
Proof.
  induction calls as [|[now call] calls IH] using rev_ind; [constructor|].
  unfold disconnects. rewrite foldl_app, fmap_app. cbn [foldl fmap list_fmap fst]. fold (disconnects p calls).
  unfold disconnects_step. cbn [fst snd].
  destruct call; [case_decide; [destruct (counted_err err)|]|case_decide|];
    first [by apply sublist_app | by apply sublist_inserts_r | apply sublist_nil_l].
Qed.
Lemma run_entry_ok calls p :
  0 ≤ failureWindow s → Forall (λ t, 0 < t) (fst <$> calls) →
  entry_ok (disconnects p calls) (circuit_run s calls !! p).
Proof.
  intros Hw. induction calls as [|[now call] calls IH] using rev_ind; intros Hp; [done|].
  rewrite fmap_app in Hp. apply Forall_app in Hp as [Hp _].
  unfold circuit_run, disconnects. rewrite !foldl_app. apply circuit_step_ok; [done|by apply IH|].
  exact (Forall_of_sublist _ _ _ (disconnects_sublist p calls) Hp).
Qed.
End Earned.

(** C39: A proxy that is quarantined has earned it: since a stream was last
    completed through it, as many disconnects as the threshold happened within
    the window, each of which was read outside the interval that collapses a burst
    after the one counted before it, and the last was not longer ago than the
    quarantine lasts.  The calls take effect in the order of the list, under the
    mutex; each was given its instant before.  Where no call overtakes one that
    was read before it, no two of those disconnects are closer than the interval
    and the last is the latest; where one does, a burst may count more than once
    ([burst_out_of_order]).  (For settings with a positive threshold and a window
    that is not negative, and instants after the zero time.) *)
Theorem quarantine_is_earned s calls p now :
  0 ≤ failureWindow s < max_int64 → 0 < failureThreshold s →
  Forall (λ t, 0 < t) (fst <$> calls) →
  fst (isBlocked s p now (circuit_run s calls)) = true →
  ∃ ts latest, sublist ts (disconnects p calls) ∧ failureThreshold s ≤ Z.of_nat (length ts) ∧
    linked (λ t t', t' < t ∨ t + collapseInterval s ≤ t') ts ∧
    (∀ t t', t ∈ ts → t' ∈ ts → t' - t ≤ failureWindow s) ∧
    list.last ts = Some latest ∧ now < latest + quarantineTTL s ∧
    (pairwise Z.le (fst <$> calls) →
     pairwise (λ t t', t + collapseInterval s ≤ t') ts ∧ ∀ t, t ∈ ts → t ≤ latest).
Proof.
  intros [Hw0 Hw] Hth0 Hp Hb. pose proof (run_entry_ok s Hw calls p Hw0 Hp) as Hok.
  unfold isBlocked in Hb. destruct (_ || _); [done|]. destruct (circuit_run s calls !! p) as [e|]; [|done].
  destruct (time_IsZero (blockedUntil e)) eqn:Ez; [done|]. apply Z.eqb_neq in Ez.
  destruct (time_Before now (blockedUntil e)) eqn:Eb; [|done]. apply Z.ltb_lt in Eb.
  destruct Hok as [ts []]. destruct (cn_blocked0 Ez) as [Hth Hu]. exists ts, (lastFailureAt e).
  assert (list.last ts = Some (lastFailureAt e)) as Hlast.
  { apply cn_last0. intros ->. simpl in cn_length0. lia. }
  split_and!; [done|lia|done| |done|lia|].
  - intros t t' Ht Ht'. destruct (cn_window0 t Ht), (cn_window0 t' Ht'). lia.
  - intros Hs.
    assert (pairwise Z.le ts) as Hle by (eapply pairwise_sublist, Hs; etrans; [done|apply disconnects_sublist]).
    split; [by apply apart_spaced|]. intros t Ht. by eapply pairwise_last.
Qed.

(** ** Disconnects trip the circuit *)

Section Trips.
Context (s : openAIProxyStreamCircuitSettings) (rank : Z → Z) (p : Z).
Context (Hon : disabled s = false) (Hp : 0 < p) (Hwin : 0 ≤ failureWindow s < max_int64).

Definition record_all (ts : list time) (c : circuit) : circuit :=
  foldl (λ c now, snd (recordFailure s rank p now c)) c ts.
Lemma record_snoc l now c : record_all (l ++ [now]) c = snd (recordFailure s rank p now (record_all l c)).
Proof. unfold record_all. by rewrite foldl_app. Qed.
(** An entry after so many failures, the first and the last of which are given. *)
Definition counting (k : Z) (first last : time) (c : circuit) : Prop :=
  ∃ e, c !! p = Some e ∧ failureCount e = k ∧ windowStart e = first ∧ lastFailureAt e = last ∧ blockedUntil e = 0.
Lemma not_collapsed now e : lastFailureAt e = 0 ∨ lastFailureAt e + collapseInterval s ≤ now →
  in_int64 (now - lastFailureAt e) → collapses s now e = false.
Proof.
  intros Hl Hr. unfold collapses. destruct (Z.eq_dec (lastFailureAt e) 0) as [Hz|Hz].
  - rewrite Hz. cbn. by rewrite andb_false_r.
  - rewrite time_Sub_exact by done. destruct Hl as [?|Hl]; [done|].
    destruct (Z.ltb_spec (now - lastFailureAt e) (collapseInterval s)); [lia|]. apply andb_false_r.
Qed.
(** The first failure of a proxy the circuit does not know, and one more. *)
Lemma first_failure now c :
  0 < now → c !! p = None →
  let r := recordFailure s rank p now c in
  fst (fst r) = (failureThreshold s <=? 1) ∧
  ∃ e, snd r !! p = Some e ∧ failureCount e = 1 ∧ windowStart e = now ∧ lastFailureAt e = now ∧
       blockedUntil e = (if failureThreshold s <=? 1 then now + quarantineTTL s else 0) ∧ snd (fst r) = blockedUntil e.
Proof.
  intros Hnow Hc. unfold recordFailure. rewrite Hon, Hc. destruct (Z.leb_spec p 0); [lia|]. cbn [orb].
  assert (collapses s now (open_window s now new_entry) = false) as ->.
  { unfold collapses. cbn. by rewrite andb_false_r. }
  unfold count_failure, time_Add. cbn [fst snd]. split; [done|].
  eexists. rewrite lookup_insert_eq. split_and!; reflexivity.
Qed.
Lemma next_failure now k first last c :
  counting k first last c → 0 < first → last + collapseInterval s ≤ now → first ≤ now → now - first ≤ failureWindow s →
  in_int64 (now - last) →
  let r := recordFailure s rank p now c in
  fst (fst r) = (failureThreshold s <=? k + 1) ∧
  ∃ e, snd r !! p = Some e ∧ failureCount e = k + 1 ∧ windowStart e = first ∧ lastFailureAt e = now ∧
       blockedUntil e = (if failureThreshold s <=? k + 1 then now + quarantineTTL s else 0) ∧ snd (fst r) = blockedUntil e.
Proof.
  intros (e & He & <- & <- & <- & Hb) Hf Hl Hfn Hw Hr. unfold recordFailure.
  rewrite Hon, He, Hb. destruct (Z.leb_spec p 0); [lia|]. cbn [orb].
  assert (time_Before now 0 = false) as -> by (apply Z.ltb_ge; lia).
  assert (open_window s now e = e) as ->.
  { unfold open_window, time_IsZero, time_Before. rewrite time_Sub_exact by (unfold in_int64, min_int64 in *; lia).
    destruct (Z.eqb_spec (windowStart e) 0); [lia|]. destruct (Z.ltb_spec now (windowStart e)); [lia|].
    destruct (Z.ltb_spec (failureWindow s) (now - windowStart e)); [lia|]. done. }
  rewrite not_collapsed by (done || by right). unfold count_failure, time_Add. cbn [fst snd].
  split; [done|]. eexists. rewrite lookup_insert_eq. split_and!; try reflexivity. simpl. by rewrite Hb.
Qed.
(** The failure after [t0 :: ts]. *)
Lemma failure_after (t0 : time) (ts : list time) (now : time) (c : circuit) :
  counting (Z.of_nat (length (t0 :: ts))) t0 (List.last ts t0) (record_all (t0 :: ts) c) →
  0 < t0 → 0 ≤ collapseInterval s → spaced s ((t0 :: ts) ++ [now]) → now - t0 ≤ failureWindow s →
  let k := Z.of_nat (length (t0 :: ts)) + 1 in
  let r := recordFailure s rank p now (record_all (t0 :: ts) c) in
  fst (fst r) = (failureThreshold s <=? k) ∧
  ∃ e, snd r !! p = Some e ∧ failureCount e = k ∧ windowStart e = t0 ∧ lastFailureAt e = now ∧
       blockedUntil e = (if failureThreshold s <=? k then now + quarantineTTL s else 0) ∧ snd (fst r) = blockedUntil e.
Proof.
  intros Hct H0 Hcol Hsp Hw. apply pairwise_snoc in Hsp as [Hsp Hnow].
  assert (List.last ts t0 ∈ t0 :: ts) as Hlast.
  { destruct ts as [|t ts] using rev_ind; [by left|]. rewrite List.last_last. right. apply elem_of_app. right. by left. }
  rewrite Forall_forall in Hnow. pose proof (Hnow _ Hlast) as Hl. pose proof (Hnow t0 ltac:(by left)) as Hf.
  assert (t0 ≤ List.last ts t0) as Hfl.
  { apply elem_of_cons in Hlast as [->|Hlast]; [lia|]. destruct Hsp as [Hsp _]. rewrite Forall_forall in Hsp.
    specialize (Hsp _ Hlast). lia. }
  apply (next_failure now _ t0 _ _ Hct); try lia. unfold in_int64, min_int64 in *. lia.
Qed.
(** Fewer failures than the threshold. *)
Lemma below_threshold (t0 : time) (ts : list time) (c : circuit) :
  c !! p = None → 0 < t0 → 0 ≤ collapseInterval s →
  spaced s (t0 :: ts) → (∀ t, t ∈ ts → t - t0 ≤ failureWindow s) →
  Z.of_nat (length (t0 :: ts)) < failureThreshold s →
  counting (Z.of_nat (length (t0 :: ts))) t0 (List.last ts t0) (record_all (t0 :: ts) c).
Proof.
  intros Hc H0 Hcol. induction ts as [|now ts IH] using rev_ind; intros Hsp Hw Hlen.
  - destruct (first_failure t0 c H0 Hc) as (_ & e & He & Hk & Hws & Hl & Hb & _). exists e. simpl in Hlen.
    destruct (Z.leb_spec (failureThreshold s) 1); [lia|]. by split_and!.
  - rewrite app_comm_cons in Hsp, Hlen |- *. rewrite length_app in Hlen. pose proof Hsp as [Hsp' _]%pairwise_snoc.
    destruct (failure_after t0 ts now c) as (_ & e & He & Hk & Hws & Hla & Hb & _); [|done..| |].
    + apply IH; [done|intros t Ht; apply Hw, elem_of_app; by left|]. simpl in *. lia.
    + apply Hw, elem_of_app. right. by left.
    + rewrite record_snoc, length_app, List.last_last. exists e. split; [exact He|]. rewrite Hk, Hws, Hla, Hb.
      cbn [length] in Hlen |- *.
      destruct (Z.leb_spec (failureThreshold s) (Z.of_nat (S (length ts)) + 1)); [lia|]. split_and!; try done. lia.
Qed.
End Trips.

(** Disconnects trip the circuit, and not before their time: of disconnects
    that are apart from each other and within the window, of a proxy the circuit
    does not know, none but the one that reaches the threshold is answered with a
    quarantine, and from then on the proxy is withheld until the quarantine ends. *)
Theorem disconnects_trip s rank p (t0 : time) (ts : list time) (now : time) (c : circuit) :
  disabled s = false → 0 < p → 0 ≤ failureWindow s < max_int64 → 0 ≤ collapseInterval s → 0 < quarantineTTL s →
  c !! p = None → 0 < t0 →
  spaced s (t0 :: ts ++ [now]) → now - t0 ≤ failureWindow s →
  Z.of_nat (length (t0 :: ts ++ [now])) = failureThreshold s →
  let c' := record_all s rank p (t0 :: ts) c in
  (∀ l t l', t0 :: ts = l ++ t :: l' → fst (fst (recordFailure s rank p t (record_all s rank p l c))) = false) ∧
  fst (recordFailure s rank p now c') = (true, now + quarantineTTL s) ∧
  ∀ later, fst (isBlocked s p later (snd (recordFailure s rank p now c'))) = bool_decide (later < now + quarantineTTL s).
Proof.
  intros Hon Hp Hwin Hcol Httl Hc H0 Hsp Hw Hlen c'.
  rewrite app_comm_cons in Hsp, Hlen. rewrite length_app in Hlen. cbn [length] in Hlen.
  pose proof Hsp as [Hsp' Hnow]%pairwise_snoc. rewrite Forall_forall in Hnow.
  assert (∀ t, t ∈ ts → t - t0 ≤ failureWindow s) as Hts.
  { intros t Ht. specialize (Hnow t ltac:(by right)). lia. }
  assert (∀ l l', t0 :: ts = (t0 :: l) ++ l' → spaced s (t0 :: l)) as Hpre.
  { intros l l' E. unfold spaced in *. rewrite E in Hsp'. clear - Hsp'. revert Hsp'. generalize (t0 :: l). intros k.
    induction k as [|t k IH]; simpl; [done|]. rewrite Forall_app. intros [[? _] ?]. split; auto. }
  assert (counting p (Z.of_nat (length (t0 :: ts))) t0 (List.last ts t0) c') as Hct.
  { apply below_threshold; try done. simpl in *. lia. }
  destruct (failure_after s rank p Hon Hp Hwin t0 ts now c Hct) as (Htrip & e & He & _ & _ & _ & Hb & Hu); try done.
  cbn [length] in Htrip, Hb.
  assert (failureThreshold s <=? Z.of_nat (S (length ts)) + 1 = true) as Eth by (apply Z.leb_le; lia).
  rewrite Eth in Htrip, Hb. fold c' in Htrip, He, Hu. split_and!.
  - intros [|t0' l] t l' E; cbn [app] in E.
    + injection E as <- _. destruct (first_failure s rank p Hon Hp t0 c H0 Hc) as [Hf _].
      etrans; [exact Hf|]. apply Z.leb_gt. lia.
    + injection E as <- E. assert (length ts = S (length l + length l'))%nat as Hll.
      { rewrite E, length_app. simpl. lia. }
      destruct (failure_after s rank p Hon Hp Hwin t0 l t c) as [Hf _]; try done.
      * apply below_threshold; try done; [by eapply (Hpre l (t :: l')); rewrite E| |simpl in *; lia].
        intros u Hu'. apply Hts. rewrite E. apply elem_of_app. by left.
      * apply (Hpre (l ++ [t]) l'). rewrite E. cbn [app]. by rewrite <-app_assoc.
      * apply Hts. rewrite E. apply elem_of_app. right. by left.
      * etrans; [exact Hf|]. apply Z.leb_gt. simpl in *. lia.
  - apply injective_projections; [exact Htrip|etrans; [exact Hu|exact Hb]].
  - intros later. unfold isBlocked. rewrite Hon, He, Hb. destruct (Z.leb_spec p 0); [lia|]. cbn [orb].
    assert (now + quarantineTTL s ≠ 0) as Hnz.
    { specialize (Hnow t0 ltac:(by left)). lia. }
    unfold time_IsZero, time_Before. destruct (Z.eqb_spec (now + quarantineTTL s) 0); [done|].
    destruct (Z.ltb_spec later (now + quarantineTTL s)); cbn [negb fst].
    + by rewrite bool_decide_eq_true_2.
    + by rewrite bool_decide_eq_false_2 by lia.
Qed.

Module CircuitDemo.
Definition settings : openAIProxyStreamCircuitSettings :=
  newOpenAIProxyStreamCircuit (resolveOpenAIProxyStreamCircuitSettings None).
Definition account : option StreamAccount := Some {| on_openai := true; ProxyID := Some 7 |}.
Definition disconnect (t : Z) : time * CircuitCall := (t * Second, Disconnect account OtherStreamErr id).

(** Two streams of one proxy break at once, and a third later. *)
Definition broken : list (time * CircuitCall) := [disconnect 100; disconnect 101; disconnect 130].
Example blocked_at_last :
  fst (isBlocked settings 7 (700 * Second) (circuit_run settings broken)) = true ∧
  fst (isBlocked settings 7 (730 * Second) (circuit_run settings broken)) = false ∧
  fst (isBlocked settings 7 (700 * Second) (circuit_run settings [disconnect 100; disconnect 101])) = false.
Proof. by vm_compute. Qed.

Lemma circuit_bounded_witness : Z.of_nat (size (circuit_run settings broken)) ≤ 4096.
Proof. by apply (circuit_bounded settings broken). Defined.
Lemma quarantine_is_earned_witness :
  ∃ ts latest, sublist ts [100 * Second; 101 * Second; 130 * Second] ∧ 2 ≤ Z.of_nat (length ts) ∧
    pairwise (λ t t', t + 3 * Second ≤ t') ts ∧ (∀ t t', t ∈ ts → t' ∈ ts → t' - t ≤ Minute) ∧
    list.last ts = Some latest ∧ (∀ t, t ∈ ts → t ≤ latest) ∧ 700 * Second < latest + 10 * Minute.
Proof.
  destruct (quarantine_is_earned settings broken 7 (700 * Second)) as (ts & latest & H1 & H2 & _ & H4 & H5 & H6 & H7);
    [by vm_compute|done|repeat constructor; by vm_compute|reflexivity|].
  destruct H7 as [H7 H8]; [repeat constructor; by vm_compute|].
  exists ts, latest. split_and!; assumption.
Defined.

(** The clock is read before the lock is taken: of two disconnects a millisecond
    apart the later one may be counted first, and then the other counts too. *)
Definition patient : openAIProxyStreamCircuitSettings :=
  newOpenAIProxyStreamCircuit (resolveOpenAIProxyStreamCircuitSettings
    (Some {| cfg_Disabled := false; FailureThreshold := 3; WindowSeconds := 60; TTLSeconds := 600 |})).
Definition early : time * CircuitCall := (113999 * Millisecond, Disconnect account OtherStreamErr id).
Example burst_out_of_order :
  fst (isBlocked patient 7 (120 * Second) (circuit_run patient [disconnect 110; disconnect 114; early])) = true ∧
  fst (isBlocked patient 7 (120 * Second) (circuit_run patient [disconnect 110; early; disconnect 114])) = false.
Proof. by vm_compute. Qed.
Lemma disconnects_trip_witness :
  fst (recordFailure settings id 7 (130 * Second) (record_all settings id 7 [100 * Second] ∅)) = (true, 730 * Second).
Proof.
  destruct (disconnects_trip settings id 7 (100 * Second) [] (130 * Second) ∅) as (_ & H & _);
    [done|done|by vm_compute|by vm_compute|by vm_compute|done|done|
     repeat constructor; by vm_compute|by vm_compute|reflexivity|exact H].
Defined.

(** The count is kept when a quarantine shorter than the window ends, unless a
    selection has asked in between: the next disconnect quarantines the proxy
    again, all by itself. *)
Definition short : openAIProxyStreamCircuitSettings :=
  newOpenAIProxyStreamCircuit (resolveOpenAIProxyStreamCircuitSettings
    (Some {| cfg_Disabled := false; FailureThreshold := 2; WindowSeconds := 60; TTLSeconds := 10 |})).
Example tripped_by_one :
  fst (recordFailure short id 7 (130 * Second) (circuit_run short [disconnect 100; disconnect 105])) = (true, 140 * Second) ∧
  fst (recordFailure short id 7 (130 * Second)
         (circuit_run short [disconnect 100; disconnect 105; (120 * Second, AskQuarantined false account)])) = (false, 0).
Proof. by vm_compute. Qed.
End CircuitDemo.
