(* ===== verification/Affiliate.v ===== *)
(** * The ledger of affiliate rebates

    [src/backend/internal/repository/affiliate_repo.go],
    [service/affiliate_service.go] and the settings they read
    ([service/setting_features.go]): a user who registers with the code of
    another is bound to that inviter, who earns a share of what the user
    recharges; rebates may be frozen for some hours, and what is available is
    transferred to the balance.

    A function of the repository is a sequence of statements ([client]) that is
    run either on the pool of connections, where other processes run between its
    statements, or in a transaction, which takes effect at once when it commits
    and which PostgreSQL refuses to continue after a statement has failed.

    Settings, random bytes and the clock are part of the oracle.  The column
    [updated_at], the lists shown to administrators and users, and the caches a
    transfer invalidates are left out, as is the check that the source order of
    a rebate exists. *)

From Stdlib Require Import ZArith Lia QArith Ascii String Bool.
From stdpp Require Import base numbers option list gmap strings pretty.
From S2P Require Import Prelude GoStrings GoFloat UsageDB Proc.

#[local] Open Scope Z_scope.

(** ** Tables *)

(** [users.balance] and [users.total_recharged], decimal(20,8). *)
Record AffUser := { au_balance : Z; au_recharged : Z }.

(** A row of [user_affiliates]. *)
Record Aff := {
  aff_code : string;          (* varchar(32), unique *)
  aff_code_custom : bool;
  aff_rate : option Z;        (* decimal(5,2) *)
  aff_inviter : option Z;
  aff_count : Z;              (* integer *)
  aff_quota : Z;              (* decimal(20,8) *)
  aff_frozen : Z;
  aff_history : Z;
  aff_created : time;
}.

Inductive LedgerAction := Accrue | Transfer.
#[global] Instance LedgerAction_eq_dec : EqDecision LedgerAction.
Proof. solve_decision. Defined.

(** A row of [user_affiliate_ledger]; the snapshot of a transfer is the balance
    and the available, frozen and total quota after it. *)
Record Entry := {
  e_user : Z;
  e_action : LedgerAction;
  e_amount : Z;               (* decimal(20,8) *)
  e_source : option Z;
  e_order : option Z;
  e_frozen_until : option time;
  e_created : time;
  e_after : option (Z * Z * Z * Z);
}.

Record AffDB := {
  af_users : gmap Z AffUser;
  affs : gmap Z Aff;
  entries : list Entry;
}.

Definition set_af_users (f : gmap Z AffUser → gmap Z AffUser) (d : AffDB) : AffDB :=
  {| af_users := f (af_users d); affs := affs d; entries := entries d |}.
Definition set_affs (f : gmap Z Aff → gmap Z Aff) (d : AffDB) : AffDB :=
  {| af_users := af_users d; affs := f (affs d); entries := entries d |}.
Definition set_entries (f : list Entry → list Entry) (d : AffDB) : AffDB :=
  {| af_users := af_users d; affs := affs d; entries := f (entries d) |}.

Definition set_quotas (quota frozen history : Z) (a : Aff) : Aff :=
  {| aff_code := aff_code a; aff_code_custom := aff_code_custom a; aff_rate := aff_rate a;
     aff_inviter := aff_inviter a; aff_count := aff_count a; aff_quota := quota;
     aff_frozen := frozen; aff_history := history; aff_created := aff_created a |}.
Definition set_inviter (i : Z) (a : Aff) : Aff :=
  {| aff_code := aff_code a; aff_code_custom := aff_code_custom a; aff_rate := aff_rate a;
     aff_inviter := Some i; aff_count := aff_count a; aff_quota := aff_quota a;
     aff_frozen := aff_frozen a; aff_history := aff_history a; aff_created := aff_created a |}.
Definition set_count (n : Z) (a : Aff) : Aff :=
  {| aff_code := aff_code a; aff_code_custom := aff_code_custom a; aff_rate := aff_rate a;
     aff_inviter := aff_inviter a; aff_count := n; aff_quota := aff_quota a;
     aff_frozen := aff_frozen a; aff_history := aff_history a; aff_created := aff_created a |}.
Definition set_code (code : string) (custom : bool) (a : Aff) : Aff :=
  {| aff_code := code; aff_code_custom := custom; aff_rate := aff_rate a;
     aff_inviter := aff_inviter a; aff_count := aff_count a; aff_quota := aff_quota a;
     aff_frozen := aff_frozen a; aff_history := aff_history a; aff_created := aff_created a |}.
Definition set_rate (r : option Z) (a : Aff) : Aff :=
  {| aff_code := aff_code a; aff_code_custom := aff_code_custom a; aff_rate := r;
     aff_inviter := aff_inviter a; aff_count := aff_count a; aff_quota := aff_quota a;
     aff_frozen := aff_frozen a; aff_history := aff_history a; aff_created := aff_created a |}.
Definition thaw_entry (e : Entry) : Entry :=
  {| e_user := e_user e; e_action := e_action e; e_amount := e_amount e; e_source := e_source e;
     e_order := e_order e; e_frozen_until := None; e_created := e_created e; e_after := e_after e |}.

(** ** Errors *)

Inductive AffErr :=
| ErrAffiliateProfileNotFound
| ErrAffiliateCodeInvalid
| ErrAffiliateCodeTaken
| ErrAffiliateAlreadyBound
| ErrAffiliateQuotaEmpty
| ErrAffUserNotFound
| ErrInvalidUser
| ErrInvalidRate
| ErrRandom                   (* [rand.Read] *)
| ErrUnique                   (* SQLSTATE 23505 *)
| ErrAffSQL.

Definition isAffiliateUniqueViolation (e : AffErr) : bool :=
  match e with ErrUnique => true | _ => false end.

(** ** Clients: the pool of connections, or a transaction *)

Inductive client (A : Type) : Type :=
| CRet (a : A)
| CStmt {B : Type} (f : time → AffDB → res AffErr (B * AffDB)) (k : res AffErr B → client A)
| CRand (k : option (list Z) → client A).
Arguments CRet {A} a.
Arguments CStmt {A B} f k.
Arguments CRand {A} k.

Fixpoint cbind {A B} (c : client A) (g : A → client B) : client B :=
  match c with
  | CRet a => g a
  | CStmt f k => CStmt f (λ r, cbind (k r) g)
  | CRand k => CRand (λ r, cbind (k r) g)
  end.
(** [if err != nil { return err }] *)
Definition ctry {A B} (c : client (res AffErr A)) (g : A → client (res AffErr B)) :
    client (res AffErr B) :=
  cbind c (λ r, match r with Ok a => g a | Err e => CRet (Err e) end).
Definition ptry {S O A B} (p : proc S O (res AffErr A)) (g : A → proc S O (res AffErr B)) :
    proc S O (res AffErr B) :=
  proc_bind p (λ r, match r with Ok a => g a | Err e => Ret (Err e) end).

#[local] Notation "x <-c m ; k" := (cbind m (λ x, k))
  (at level 100, m at level 99, k at level 200, right associativity) : go_scope.
#[local] Notation "x <-ce m ; k" := (ctry m (λ x, k))
  (at level 100, m at level 99, k at level 200, right associativity) : go_scope.
#[local] Notation "x <-pe m ; k" := (ptry m (λ x, k))
  (at level 100, m at level 99, k at level 200, right associativity) : go_scope.

Definition stmt {B} (f : time → AffDB → res AffErr (B * AffDB)) : client (res AffErr B) :=
  CStmt f CRet.
Definition query {B} (f : AffDB → B) : client (res AffErr B) := stmt (λ _ d, Ok (f d, d)).

(** What happens to an action: its fate and time, which statements of a
    transaction fail, the random bytes drawn, and the values of the settings. *)
Record AffOracle := {
  ao_base : Oracle;
  ao_faults : list bool;
  ao_rand : list (option (list Z));
  ao_setting : string → option string;
}.

Abbreviation aproc := (proc AffDB AffOracle).

Definition hd_rand (rs : list (option (list Z))) : option (list Z) :=
  match rs with r :: _ => r | [] => None end.

(** On the pool every statement is an action, which may fail or lose its answer. *)
Fixpoint pool {A} (c : client A) : aproc A :=
  match c with
  | CRet a => Ret a
  | CStmt f k =>
      Act (λ o s,
             match fate (ao_base o), f (o_now (ao_base o)) s with
             | Fail, _ => (Err ErrAffSQL, s)
             | _, Err e => (Err e, s)
             | Fine, Ok (b, s') => (Ok b, s')
             | Lost, Ok (_, s') => (Err ErrAffSQL, s')
             end) (λ r, pool (k r))
  | CRand k => Act (λ o s, (hd_rand (ao_rand o), s)) (λ r, pool (k r))
  end.

Record TxState := {
  tx_db : AffDB;
  tx_faults : list bool;
  tx_rand : list (option (list Z));
  tx_aborted : bool;
}.

(** In a transaction, [now] is the time it began; after an error every
    statement answers with an error ("current transaction is aborted"). *)
Fixpoint exec {A} (now : time) (c : client A) (st : TxState) : A * TxState :=
  match c with
  | CRet a => (a, st)
  | CStmt f k =>
      let abort := {| tx_db := tx_db st; tx_faults := tail (tx_faults st);
                      tx_rand := tx_rand st; tx_aborted := true |} in
      if tx_aborted st || default false (head (tx_faults st))
      then exec now (k (Err ErrAffSQL)) abort
      else match f now (tx_db st) with
           | Err e => exec now (k (Err e)) abort
           | Ok (b, d) =>
               exec now (k (Ok b)) {| tx_db := d; tx_faults := tail (tx_faults st);
                                      tx_rand := tx_rand st; tx_aborted := false |}
           end
  | CRand k =>
      exec now (k (hd_rand (tx_rand st)))
        {| tx_db := tx_db st; tx_faults := tx_faults st; tx_rand := tail (tx_rand st);
           tx_aborted := tx_aborted st |}
  end.

(** [withTx]: an error of the body rolls back; the fate is that of the commit
    (and [Fail] also that of [BEGIN]).  The commit of an aborted transaction
    rolls back and is reported as an error. *)
Definition tx_action {A} (body : client (res AffErr A)) (o : AffOracle) (s : AffDB) :
    res AffErr A * AffDB :=
  let (r, st) := exec (o_now (ao_base o)) body
                   {| tx_db := s; tx_faults := ao_faults o; tx_rand := ao_rand o;
                      tx_aborted := false |} in
  match r with
  | Err e => (Err e, s)
  | Ok a =>
      if tx_aborted st then (Err ErrAffSQL, s)
      else match fate (ao_base o) with
           | Fine => (Ok a, tx_db st)
           | Fail => (Err ErrAffSQL, s)
           | Lost => (Err ErrAffSQL, tx_db st)
           end
  end.
Definition withTx {A} (body : client (res AffErr A)) : aproc (res AffErr A) :=
  act (tx_action body).

(** ** The repository *)

Definition affiliateCodeLength : nat := 12.
Definition affiliateCodeMaxAttempts : nat := 12.
Definition affiliateCodeCharset : string := "ABCDEFGHJKLMNPQRSTUVWXYZ23456789".

(** Twelve bytes, each taken modulo the 32 characters. *)
Definition code_char (b : Z) : ascii :=
  default "A"%char (String.get (Z.to_nat (b mod 256 mod str_len affiliateCodeCharset))
                               affiliateCodeCharset).
Fixpoint code_of (n : nat) (bytes : list Z) : string :=
  match n with
  | O => ""
  | S n => String (code_char (hd 0 bytes)) (code_of n (tail bytes))
  end.
Definition generateAffiliateCode : client (res AffErr string) :=
  CRand (λ r, CRet match r with
                   | Some bytes => Ok (code_of affiliateCodeLength bytes)
                   | None => Err ErrRandom
                   end).

Section Repository.
Context `{PgFloat}.

Record AffiliateSummary := {
  sum_UserID : Z;
  sum_AffCode : string;
  sum_AffCodeCustom : bool;
  sum_AffRebateRatePercent : option f64;
  sum_InviterID : option Z;
  sum_AffCount : Z;
  sum_AffQuota : f64;
  sum_AffFrozenQuota : f64;
  sum_AffHistoryQuota : f64;
  sum_CreatedAt : time;
}.

Definition money (z : Z) : f64 := scan (dec scale8 z).
Definition summary (uid : Z) (a : Aff) : AffiliateSummary :=
  {| sum_UserID := uid; sum_AffCode := aff_code a; sum_AffCodeCustom := aff_code_custom a;
     sum_AffRebateRatePercent := (λ r, scan (dec 100 r)) <$> aff_rate a;
     sum_InviterID := aff_inviter a; sum_AffCount := aff_count a;
     sum_AffQuota := money (aff_quota a); sum_AffFrozenQuota := money (aff_frozen a);
     sum_AffHistoryQuota := money (aff_history a); sum_CreatedAt := aff_created a |}.

Definition found {A} (o : option A) : res AffErr A :=
  match o with Some a => Ok a | None => Err ErrAffiliateProfileNotFound end.

Definition queryAffiliateByUserID (uid : Z) : client (res AffErr AffiliateSummary) :=
  o <-ce query (λ d, option_map (summary uid) (affs d !! uid));
  CRet (found o).

(** Codes are unique, so there is at most one row. *)
Definition holder (code : string) (d : AffDB) : option Z :=
  fst <$> head (filter (λ ua : Z * Aff, aff_code (snd ua) = code) (map_to_list (affs d))).
Definition by_code (code : string) (d : AffDB) : option AffiliateSummary :=
  uid ← holder code d; summary uid <$> affs d !! uid.
Definition queryAffiliateByCode `{GoText} (code : string) : client (res AffErr AffiliateSummary) :=
  o <-ce query (by_code (ToUpper (TrimSpace code)));
  CRet (found o).

Definition new_aff (code : string) (now : time) : Aff :=
  {| aff_code := code; aff_code_custom := false; aff_rate := None; aff_inviter := None;
     aff_count := 0; aff_quota := 0; aff_frozen := 0; aff_history := 0; aff_created := now |}.
Definition max_code : nat := 32.

(** Does another row have the code? *)
Definition code_taken (uid : Z) (code : string) (d : AffDB) : bool :=
  bool_decide (map_Exists (λ v a, v ≠ uid ∧ aff_code a = code) (affs d)).

(** [INSERT ... ON CONFLICT (user_id) DO NOTHING] *)
Definition insert_affiliate (uid : Z) (code : string) (now : time) (d : AffDB) :
    res AffErr (unit * AffDB) :=
  match affs d !! uid with
  | Some _ => Ok ((), d)
  | None =>
      if (max_code <? String.length code)%nat then Err ErrAffSQL
      else if code_taken uid code d then Err ErrUnique
      else match af_users d !! uid with
           | None => Err ErrAffSQL
           | Some _ => Ok ((), set_affs <[uid := new_aff code now]> d)
           end
  end.

Fixpoint insert_attempts (uid : Z) (n : nat) : client (res AffErr unit) :=
  match n with
  | O => CRet (Ok ())
  | S n =>
      code <-ce generateAffiliateCode;
      r <-c stmt (insert_affiliate uid code);
      match r with
      | Ok _ => CRet (Ok ())
      | Err e => if isAffiliateUniqueViolation e then insert_attempts uid n else CRet (Err e)
      end
  end.

Definition ensureUserAffiliateWithClient (uid : Z) : client (res AffErr AffiliateSummary) :=
  r <-c queryAffiliateByUserID uid;
  match r with
  | Err ErrAffiliateProfileNotFound =>
      _ <-ce insert_attempts uid affiliateCodeMaxAttempts;
      queryAffiliateByUserID uid
  | r => CRet r
  end.

Definition EnsureUserAffiliate_repo (uid : Z) : aproc (res AffErr AffiliateSummary) :=
  if uid <=? 0 then Ret (Err ErrAffUserNotFound)
  else pool (ensureUserAffiliateWithClient uid).

Definition GetAffiliateByCode `{GoText} (code : string) : aproc (res AffErr AffiliateSummary) :=
  pool (queryAffiliateByCode code).

(** An [UPDATE user_affiliates ... WHERE user_id = uid]: the number of rows. *)
Definition update_aff (uid : Z) (f : Aff → res AffErr Aff) (d : AffDB) : res AffErr (Z * AffDB) :=
  match affs d !! uid with
  | None => Ok (0, d)
  | Some a => match f a with
              | Ok a' => Ok (1, set_affs <[uid := a']> d)
              | Err e => Err e
              end
  end.

(** [SET inviter_id = $1 ... AND inviter_id IS NULL]; the inviter is a user. *)
Definition bind_inviter (uid inviter : Z) (d : AffDB) : res AffErr (Z * AffDB) :=
  match affs d !! uid with
  | Some a =>
      match aff_inviter a with
      | Some _ => Ok (0, d)
      | None => match af_users d !! inviter with
                | None => Err ErrAffSQL
                | Some _ => Ok (1, set_affs <[uid := set_inviter inviter a]> d)
                end
      end
  | None => Ok (0, d)
  end.
(** [SET aff_count = aff_count + 1] of a 32-bit integer *)
Definition count_invitee (a : Aff) : res AffErr Aff :=
  if aff_count a + 1 <? 2 ^ 31 then Ok (set_count (aff_count a + 1) a) else Err ErrAffSQL.

Definition BindInviter (uid inviter : Z) : aproc (res AffErr bool) :=
  withTx (
    _ <-ce ensureUserAffiliateWithClient uid;
    _ <-ce ensureUserAffiliateWithClient inviter;
    affected <-ce stmt (λ _, bind_inviter uid inviter);
    if affected =? 0 then CRet (Ok false)
    else
      _ <-ce stmt (λ _, update_aff inviter count_invitee);
      CRet (Ok true)).

(** The value of a decimal(20,8) column; a float that is not finite does not
    fit (a NaN, which [AccrueInviteRebateForOrder] never passes, would). *)
Definition to_dec8 (q : Q) : res AffErr Z :=
  match store scale8 q with Some z => Ok z | None => Err ErrAffSQL end.
Definition float_dec8 (x : f64) : res AffErr Z :=
  if f_finite x then to_dec8 (num x) else Err ErrAffSQL.
Definition add_dec8 (z : Z) (x : f64) : res AffErr Z :=
  if f_finite x then to_dec8 (dec scale8 z + num x) else Err ErrAffSQL.

Definition accrue_quota (amount : f64) (frozen : bool) (a : Aff) : res AffErr Aff :=
  h <-? add_dec8 (aff_history a) amount;
  if frozen
  then f <-? add_dec8 (aff_frozen a) amount; Ok (set_quotas (aff_quota a) f h a)
  else q <-? add_dec8 (aff_quota a) amount; Ok (set_quotas q (aff_frozen a) h a).

Definition has_user (uid : Z) (d : AffDB) : bool := bool_decide (is_Some (af_users d !! uid)).
Definition insert_entry (uid : Z) (action : LedgerAction) (amount : f64) (source order : option Z)
    (until : option time) (after : option (Z * Z * Z * Z)) (now : time) (d : AffDB) :
    res AffErr (unit * AffDB) :=
  amount <-? float_dec8 amount;
  if has_user uid d && match source with Some v => has_user v d | None => true end
  then Ok ((), set_entries (λ es, es ++ [{| e_user := uid; e_action := action; e_amount := amount;
                                            e_source := source; e_order := order;
                                            e_frozen_until := until; e_created := now;
                                            e_after := after |}]) d)
  else Err ErrAffSQL.

Definition AccrueQuota (inviter invitee : Z) (amount : f64) (freezeHours : Z) (order : option Z) :
    aproc (res AffErr bool) :=
  if amount ≤ᶠ f0 then Ret (Ok false)
  else
    let frozen := 0 <? freezeHours in
    withTx (
      affected <-ce stmt (λ _, update_aff inviter (accrue_quota amount frozen));
      if affected =? 0 then CRet (Ok false)
      else
        _ <-ce stmt (λ now,
                 insert_entry inviter Accrue amount (Some invitee) order
                   (if frozen then Some (now + freezeHours * Hour) else None) None now);
        CRet (Ok true)).

Definition sumZ (l : list Z) : Z := foldr Z.add 0 l.
Definition accrued_from (inviter invitee : Z) (d : AffDB) : Z :=
  sumZ (e_amount <$> filter (λ e, e_user e = inviter ∧ e_source e = Some invitee ∧
                                  e_action e = Accrue) (entries d)).
Definition GetAccruedRebateFromInvitee (inviter invitee : Z) : aproc (res AffErr f64) :=
  pool (query (λ d, money (accrued_from inviter invitee d))).

(** The entries of [uid] whose time has come. *)
Definition matured (uid : Z) (now : time) (e : Entry) : bool :=
  (e_user e =? uid) &&
  match e_frozen_until e with Some t => t <=? now | None => false end.
Definition matured_sum (uid : Z) (now : time) (d : AffDB) : Z :=
  sumZ (e_amount <$> filter (λ e, matured uid now e) (entries d)).
Definition thaw_entries (uid : Z) (now : time) (d : AffDB) : AffDB :=
  set_entries (fmap (λ e, if matured uid now e then thaw_entry e else e)) d.

(** [aff_quota + $1], [GREATEST(aff_frozen_quota - $1, 0)] *)
Definition move_thawed (thawed : f64) (a : Aff) : res AffErr Aff :=
  q <-? add_dec8 (aff_quota a) thawed;
  f <-? (if f_finite thawed
         then let left := (dec scale8 (aff_frozen a) - num thawed)%Q in
              to_dec8 (if Qle_bool 0 left then left else 0%Q)
         else Err ErrAffSQL);
  Ok (set_quotas q f (aff_history a) a).

Definition thawFrozenQuotaTx (uid : Z) : client (res AffErr f64) :=
  thawed <-ce stmt (λ now d, Ok (money (matured_sum uid now d), thaw_entries uid now d));
  if thawed ≤ᶠ f0 then CRet (Ok f0)
  else
    _ <-ce stmt (λ _, update_aff uid (move_thawed thawed));
    CRet (Ok thawed).

Definition ThawFrozenQuota (uid : Z) : aproc (res AffErr f64) := withTx (thawFrozenQuotaTx uid).

(** The row is locked, its quota cleared, and what it was returned. *)
Definition claim_quota (uid : Z) (d : AffDB) : res AffErr (option f64 * AffDB) :=
  match affs d !! uid with
  | Some a =>
      if 0 <? aff_quota a
      then Ok (Some (money (aff_quota a)),
               set_affs <[uid := set_quotas 0 (aff_frozen a) (aff_history a) a]> d)
      else Ok (None, d)
  | None => Ok (None, d)
  end.

(** [AddBalance(transferred).AddTotalRecharged(transferred)] *)
Definition credit_user (uid : Z) (amount : f64) (d : AffDB) : res AffErr (Z * AffDB) :=
  match af_users d !! uid with
  | None => Ok (0, d)
  | Some u =>
      b <-? add_dec8 (au_balance u) amount;
      r <-? add_dec8 (au_recharged u) amount;
      Ok (1, set_af_users <[uid := {| au_balance := b; au_recharged := r |}]> d)
  end.

Definition queryUserBalance (uid : Z) : client (res AffErr f64) :=
  o <-ce query (λ d, option_map (λ u, money (au_balance u)) (af_users d !! uid));
  CRet (match o with Some b => Ok b | None => Err ErrAffUserNotFound end).

Definition transfer_snapshot (uid : Z) (d : AffDB) : option (f64 * f64 * f64 * f64) :=
  match af_users d !! uid, affs d !! uid with
  | Some u, Some a => Some (money (au_balance u), money (aff_quota a),
                            money (aff_frozen a), money (aff_history a))
  | _, _ => None
  end.
Definition queryAffiliateTransferSnapshot (uid : Z) : client (res AffErr (f64 * f64 * f64 * f64)) :=
  o <-ce query (transfer_snapshot uid);
  CRet (match o with Some x => Ok x | None => Err ErrAffUserNotFound end).

Definition insert_transfer (uid : Z) (amount : f64) (snap : f64 * f64 * f64 * f64) (now : time)
    (d : AffDB) : res AffErr (unit * AffDB) :=
  let '(b, q, f, h) := snap in
  b <-? float_dec8 b; q <-? float_dec8 q; f <-? float_dec8 f; h <-? float_dec8 h;
  insert_entry uid Transfer amount None None None (Some (b, q, f, h)) now d.

Definition transfer_body (uid : Z) : client (res AffErr (f64 * f64)) :=
  _ <-ce ensureUserAffiliateWithClient uid;
  _ <-ce thawFrozenQuotaTx uid;
  claimed <-ce stmt (λ _, claim_quota uid);
  match claimed with
  | None => CRet (Err ErrAffiliateQuotaEmpty)
  | Some transferred =>
      if transferred ≤ᶠ f0 then CRet (Err ErrAffiliateQuotaEmpty)
      else
        affected <-ce stmt (λ _, credit_user uid transferred);
        if affected =? 0 then CRet (Err ErrAffUserNotFound)
        else
          newBalance <-ce queryUserBalance uid;
          snap <-ce queryAffiliateTransferSnapshot uid;
          _ <-ce stmt (insert_transfer uid transferred snap);
          CRet (Ok (transferred, newBalance))
  end.
Definition TransferQuotaToBalance (uid : Z) : aproc (res AffErr (f64 * f64)) :=
  withTx (transfer_body uid).

(** [SET aff_code = $1, aff_code_custom = custom WHERE user_id = uid] *)
Definition update_code (uid : Z) (code : string) (custom : bool) (d : AffDB) :
    res AffErr (Z * AffDB) :=
  match affs d !! uid with
  | None => Ok (0, d)
  | Some a =>
      if (max_code <? String.length code)%nat then Err ErrAffSQL
      else if code_taken uid code d then Err ErrUnique
      else Ok (1, set_affs <[uid := set_code code custom a]> d)
  end.

Definition UpdateUserAffCode `{GoText} (uid : Z) (newCode : string) : aproc (res AffErr unit) :=
  if uid <=? 0 then Ret (Err ErrAffUserNotFound)
  else
    let code := ToUpper (TrimSpace newCode) in
    if String.eqb code "" then Ret (Err ErrAffiliateCodeInvalid)
    else withTx (
      _ <-ce ensureUserAffiliateWithClient uid;
      r <-c stmt (λ _, update_code uid code true);
      CRet match r with
           | Err e => Err (if isAffiliateUniqueViolation e then ErrAffiliateCodeTaken else e)
           | Ok affected => if affected =? 0 then Err ErrAffUserNotFound else Ok ()
           end).

Fixpoint reset_attempts (uid : Z) (n : nat) : client (res AffErr string) :=
  match n with
  | O => CRet (Err ErrAffSQL)
  | S n =>
      candidate <-ce generateAffiliateCode;
      r <-c stmt (λ _, update_code uid candidate false);
      match r with
      | Err e => if isAffiliateUniqueViolation e then reset_attempts uid n else CRet (Err e)
      | Ok affected => CRet (if affected =? 0 then Err ErrAffUserNotFound else Ok candidate)
      end
  end.
Definition reset_body (uid : Z) : client (res AffErr string) :=
  _ <-ce ensureUserAffiliateWithClient uid;
  reset_attempts uid affiliateCodeMaxAttempts.
Definition ResetUserAffCode (uid : Z) : aproc (res AffErr string) :=
  if uid <=? 0 then Ret (Err ErrAffUserNotFound)
  else withTx (reset_body uid).

(** The value of a decimal(5,2) column. *)
Definition rate_dec (rate : option f64) : res AffErr (option Z) :=
  match rate with
  | None => Ok None
  | Some x =>
      let r := round_half_away (num x * (100 # 1)) in
      if f_finite x && (Z.abs r <? 10 ^ 5) then Ok (Some r) else Err ErrAffSQL
  end.
Definition store_rate (rate : option f64) (a : Aff) : res AffErr Aff :=
  r <-? rate_dec rate; Ok (set_rate r a).

Definition SetUserRebateRate (uid : Z) (rate : option f64) : aproc (res AffErr unit) :=
  if uid <=? 0 then Ret (Err ErrAffUserNotFound)
  else withTx (
    _ <-ce ensureUserAffiliateWithClient uid;
    affected <-ce stmt (λ _, update_aff uid (store_rate rate));
    CRet (if affected =? 0 then Err ErrAffUserNotFound else Ok ())).

Fixpoint ensure_all (uids : list Z) : client (res AffErr unit) :=
  match uids with
  | [] => CRet (Ok ())
  | uid :: uids =>
      if uid <=? 0 then ensure_all uids
      else _ <-ce ensureUserAffiliateWithClient uid; ensure_all uids
  end.
(** [... WHERE user_id = ANY(uids)] *)
Definition store_rates (uids : list Z) (rate : option f64) (d : AffDB) : res AffErr (unit * AffDB) :=
  if forallb (λ uid, match affs d !! uid with None => true | Some _ => false end) uids
  then Ok ((), d)
  else r <-? rate_dec rate;
       Ok ((), set_affs (map_imap (λ uid a, Some (if decide (uid ∈ uids) then set_rate r a else a))) d).
Definition BatchSetUserRebateRate (uids : list Z) (rate : option f64) : aproc (res AffErr unit) :=
  if decide (uids = []) then Ret (Ok ())
  else withTx (
    _ <-ce ensure_all uids;
    stmt (λ _, store_rates uids rate)).
End Repository.

(** ** Settings *)

Definition SettingKeyAffiliateEnabled : string := "affiliate_enabled".
Definition SettingKeyAffiliateAdminRechargeEnabled : string := "affiliate_admin_recharge_enabled".
Definition SettingKeyAffiliateRebateRate : string := "affiliate_rebate_rate".
Definition SettingKeyAffiliateRebateFreezeHours : string := "affiliate_rebate_freeze_hours".
Definition SettingKeyAffiliateRebateDurationDays : string := "affiliate_rebate_duration_days".
Definition SettingKeyAffiliateRebatePerInviteeCap : string := "affiliate_rebate_per_invitee_cap".

Definition AffiliateRebateRateDefault : f64 := f_of_int 20.
Definition AffiliateRebateRateMin : f64 := f0.
Definition AffiliateRebateRateMax : f64 := f_of_int 100.
Definition AffiliateRebateFreezeHoursDefault : Z := 0.
Definition AffiliateRebateFreezeHoursMax : Z := 720.
Definition AffiliateRebateDurationDaysDefault : Z := 0.
Definition AffiliateRebateDurationDaysMax : Z := 3650.
Definition AffiliateRebatePerInviteeCapDefault : f64 := f0.

Definition clampAffiliateRebateRate (v : f64) : f64 :=
  if f_is_nan v || f_is_inf v then AffiliateRebateRateDefault
  else if v <ᶠ AffiliateRebateRateMin then AffiliateRebateRateMin
  else if AffiliateRebateRateMax <ᶠ v then AffiliateRebateRateMax
  else v.

Section Settings.
Context `{GoParse}.

(** What the text of a setting, or its absence, means. *)
Definition enabled_of (raw : option string) : bool :=
  match raw with Some v => String.eqb v "true" | None => false end.
Definition rate_of (raw : option string) : f64 :=
  match raw with
  | None => AffiliateRebateRateDefault
  | Some raw =>
      match ParseFloat (TrimSpace raw) with
      | Some rate => if f_is_nan rate || f_is_inf rate then AffiliateRebateRateDefault
                     else clampAffiliateRebateRate rate
      | None => AffiliateRebateRateDefault
      end
  end.
Definition bounded_int (dflt max : Z) (raw : option string) : Z :=
  match raw with
  | None => dflt
  | Some raw =>
      match Atoi (TrimSpace raw) with
      | Some n => if n <? 0 then dflt else if max <? n then max else n
      | None => dflt
      end
  end.
Definition freeze_of : option string → Z :=
  bounded_int AffiliateRebateFreezeHoursDefault AffiliateRebateFreezeHoursMax.
Definition duration_of : option string → Z :=
  bounded_int AffiliateRebateDurationDaysDefault AffiliateRebateDurationDaysMax.
Definition cap_of (raw : option string) : f64 :=
  match raw with
  | None => AffiliateRebatePerInviteeCapDefault
  | Some raw =>
      match ParseFloat (TrimSpace raw) with
      | Some cap => if (cap <ᶠ f0) || f_is_nan cap || f_is_inf cap
                    then AffiliateRebatePerInviteeCapDefault else cap
      | None => AffiliateRebatePerInviteeCapDefault
      end
  end.

Definition GetValue (key : string) : aproc (option string) := act (λ o s, (ao_setting o key, s)).
Definition setting {A} (key : string) (f : option string → A) : aproc A :=
  raw <-p GetValue key; Ret (f raw).

Definition IsAffiliateEnabled : aproc bool := setting SettingKeyAffiliateEnabled enabled_of.
Definition IsAffiliateAdminRechargeEnabled : aproc bool :=
  setting SettingKeyAffiliateAdminRechargeEnabled enabled_of.
Definition GetAffiliateRebateRatePercent : aproc f64 := setting SettingKeyAffiliateRebateRate rate_of.
Definition GetAffiliateRebateFreezeHours : aproc Z :=
  setting SettingKeyAffiliateRebateFreezeHours freeze_of.
Definition GetAffiliateRebateDurationDays : aproc Z :=
  setting SettingKeyAffiliateRebateDurationDays duration_of.
Definition GetAffiliateRebatePerInviteeCap : aproc f64 :=
  setting SettingKeyAffiliateRebatePerInviteeCap cap_of.
End Settings.

(** ** The service

    The repository and the settings are always wired. *)

Definition AffiliateCodeMinLength : nat := 4.
Definition AffiliateCodeMaxLength : nat := 32.
Definition affiliateCodeValidChar (c : ascii) : bool :=
  ((65 <=? byte_of c) && (byte_of c <=? 90)) || ((48 <=? byte_of c) && (byte_of c <=? 57)) ||
  (byte_of c =? 95) || (byte_of c =? 45).
Definition isValidAffiliateCodeFormat (code : string) : bool :=
  if ((String.length code <? AffiliateCodeMinLength) ||
      (AffiliateCodeMaxLength <? String.length code))%nat
  then false
  else str_forallb affiliateCodeValidChar code.

Definition roundTo (v : f64) (scale : Z) : f64 :=
  let factor := f_of_int (10 ^ scale) in
  fdiv (f_round (v *ᶠ factor)) factor.

Definition validateExclusiveRate (rate : option f64) : res AffErr unit :=
  match rate with
  | None => Ok ()
  | Some v =>
      if f_is_nan v || f_is_inf v then Err ErrInvalidRate
      else if (v <ᶠ AffiliateRebateRateMin) || (AffiliateRebateRateMax <ᶠ v) then Err ErrInvalidRate
      else Ok ()
  end.

Section Service.
Context `{GoText} `{PgFloat} `{GoParse}.

Definition EnsureUserAffiliate (uid : Z) : aproc (res AffErr AffiliateSummary) :=
  if uid <=? 0 then Ret (Err ErrInvalidUser) else EnsureUserAffiliate_repo uid.

Definition BindInviterByCode (uid : Z) (rawCode : string) : aproc (res AffErr unit) :=
  let code := ToUpper (TrimSpace rawCode) in
  if String.eqb code "" then Ret (Ok ())
  else
    enabled <-p IsAffiliateEnabled;
    if negb enabled then Ret (Ok ())
    else if negb (isValidAffiliateCodeFormat code) then Ret (Err ErrAffiliateCodeInvalid)
    else
      self <-pe EnsureUserAffiliate_repo uid;
      match sum_InviterID self with
      | Some _ => Ret (Ok ())
      | None =>
          r <-p GetAffiliateByCode code;
          match r with
          | Err ErrAffiliateProfileNotFound => Ret (Err ErrAffiliateCodeInvalid)
          | Err e => Ret (Err e)
          | Ok inviter =>
              if (sum_UserID inviter <=? 0) || (sum_UserID inviter =? uid)
              then Ret (Err ErrAffiliateCodeInvalid)
              else
                bound <-pe BindInviter uid (sum_UserID inviter);
                if bound then Ret (Ok ()) else Ret (Err ErrAffiliateAlreadyBound)
          end
      end.

Definition resolveRebateRatePercent (inviter : AffiliateSummary) : aproc f64 :=
  match sum_AffRebateRatePercent inviter with
  | Some v => if f_is_nan v || f_is_inf v then GetAffiliateRebateRatePercent
              else Ret (clampAffiliateRebateRate v)
  | None => GetAffiliateRebateRatePercent
  end.

(** The cap per invitee: what is left of it. *)
Definition capped (existing cap rebate : f64) : option f64 :=
  if cap ≤ᶠ existing then None
  else
    let remaining := cap -ᶠ existing in
    Some (if remaining <ᶠ rebate then roundTo remaining 8 else rebate).

Definition accrue_rebate (inviter invitee : Z) (rebate : f64) (order : option Z) :
    aproc (res AffErr f64) :=
  freezeHours <-p GetAffiliateRebateFreezeHours;
  applied <-pe AccrueQuota inviter invitee rebate freezeHours order;
  Ret (Ok (if applied : bool then rebate else f0)).

Definition AccrueInviteRebateForOrder (invitee : Z) (base : f64) (order : option Z) :
    aproc (res AffErr f64) :=
  if (invitee <=? 0) || (base ≤ᶠ f0) || f_is_nan base || f_is_inf base then Ret (Ok f0)
  else
    enabled <-p IsAffiliateEnabled;
    if negb enabled then Ret (Ok f0)
    else
      inviteeSummary <-pe EnsureUserAffiliate_repo invitee;
      match sum_InviterID inviteeSummary with
      | None => Ret (Ok f0)
      | Some inviter =>
          if inviter <=? 0 then Ret (Ok f0)
          else
            inviterSummary <-pe EnsureUserAffiliate_repo inviter;
            durationDays <-p GetAffiliateRebateDurationDays;
            t <-p (if 0 <? durationDays then act (λ o s, (o_now (ao_base o), s)) else Ret 0);
            if (0 <? durationDays) &&
               time_After t (AddDays (sum_CreatedAt inviteeSummary) durationDays)
            then Ret (Ok f0)
            else
              rebateRatePercent <-p resolveRebateRatePercent inviterSummary;
              let rebate := roundTo (base *ᶠ (fdiv rebateRatePercent (f_of_int 100))) 8 in
              if rebate ≤ᶠ f0 then Ret (Ok f0)
              else
                perInviteeCap <-p GetAffiliateRebatePerInviteeCap;
                if f0 <ᶠ perInviteeCap
                then
                  existing <-pe GetAccruedRebateFromInvitee inviter invitee;
                  match capped existing perInviteeCap rebate with
                  | None => Ret (Ok f0)
                  | Some rebate => accrue_rebate inviter invitee rebate order
                  end
                else accrue_rebate inviter invitee rebate order
      end.
Definition AccrueInviteRebate (invitee : Z) (base : f64) : aproc (res AffErr f64) :=
  AccrueInviteRebateForOrder invitee base None.

(** [tryAccrueAffiliateRebateForAdminRecharge]: errors are logged. *)
Definition tryAccrueAffiliateRebateForAdminRecharge (uid : Z) (operation : string) (amount : f64) :
    aproc unit :=
  if negb (String.eqb operation "add") || (amount ≤ᶠ f0) then Ret ()
  else
    enabled <-p IsAffiliateAdminRechargeEnabled;
    if negb enabled then Ret ()
    else _ <-p AccrueInviteRebate uid amount; Ret ().

Definition TransferAffiliateQuota (uid : Z) : aproc (res AffErr (f64 * f64)) :=
  TransferQuotaToBalance uid.

Definition AdminUpdateUserAffCode (uid : Z) (rawCode : string) : aproc (res AffErr unit) :=
  let code := ToUpper (TrimSpace rawCode) in
  if negb (isValidAffiliateCodeFormat code) then Ret (Err ErrAffiliateCodeInvalid)
  else UpdateUserAffCode uid code.
Definition AdminResetUserAffCode (uid : Z) : aproc (res AffErr string) := ResetUserAffCode uid.
Definition AdminSetUserRebateRate (uid : Z) (rate : option f64) : aproc (res AffErr unit) :=
  match validateExclusiveRate rate with
  | Err e => Ret (Err e)
  | Ok _ => SetUserRebateRate uid rate
  end.
Definition AdminBatchSetUserRebateRate (uids : list Z) (rate : option f64) : aproc (res AffErr unit) :=
  match validateExclusiveRate rate with
  | Err e => Ret (Err e)
  | Ok _ =>
      let cleaned := filter (λ uid, 0 < uid) uids in
      if decide (cleaned = []) then Ret (Ok ()) else BatchSetUserRebateRate cleaned rate
  end.

(** Any other statement of the server: it may change what users have, and adds
    users, but leaves the rebate tables alone. *)
Definition other_statement (f : time → gmap Z AffUser → gmap Z AffUser) : aproc (res AffErr unit) :=
  act (λ o s, (Ok (), set_af_users (λ us, f (o_now (ao_base o)) us ∪ us) s)).
End Service.
