(* ===== verification/AffiliateSteps.v ===== *)
(** * The steps of affiliate rebates

    Whatever requests run at once, the rebate tables change by the events of
    [event].  [twp] says what holds at the end of a transaction that is not
    aborted. *)

From Stdlib Require Import ZArith Lia QArith Ascii String Bool.
From stdpp Require Import base numbers option list gmap strings relations.
From S2P Require Import Prelude GoStrings GoTrim GoFloat UsageDB Proc ProcGhost Affiliate.

#[local] Open Scope Z_scope.

(** ** Transactions *)

Fixpoint twp {A} (now : time) (c : client A) (d : AffDB) (Q : A → AffDB → Prop) : Prop :=
  match c with
  | CRet a => Q a d
  | CStmt f k => match f now d with
                 | Ok (b, d') => twp now (k (Ok b)) d' Q
                 | Err _ => True
                 end
  | CRand k => ∀ r, twp now (k r) d Q
  end.

Lemma twp_weaken {A} now (c : client A) d (Q Q' : A → AffDB → Prop) :
  twp now c d Q → (∀ a d', Q a d' → Q' a d') → twp now c d Q'.
Proof.
  revert d. induction c as [a|B f k IH|k IH]; simpl; intros d Hc HQ; [auto| |eauto].
  destruct (f now d) as [[b d']|]; [|done]. by apply IH.
Qed.

Lemma twp_bind {A B} now (c : client A) (g : A → client B) d Q Q' :
  twp now c d Q → (∀ a d', Q a d' → twp now (g a) d' Q') → twp now (cbind c g) d Q'.
Proof.
  revert d. induction c as [a|C f k IH|k IH]; simpl; intros d Hc Hg; [auto| |eauto].
  destruct (f now d) as [[b d']|]; [|done]. by apply IH.
Qed.

Lemma twp_try {A B} now (c : client (res AffErr A)) (g : A → client (res AffErr B)) d
    (Q : res AffErr A → AffDB → Prop) (Q' : res AffErr B → AffDB → Prop) :
  twp now c d Q →
  (∀ e d', Q (Err e) d' → Q' (Err e) d') →
  (∀ a d', Q (Ok a) d' → twp now (g a) d' Q') → twp now (ctry c g) d Q'.
Proof. intros Hc He Hg. eapply twp_bind; [exact Hc|]. intros [a|e] d' Ha; simpl; auto. Qed.

Lemma exec_aborted {A} now (c : client A) st :
  tx_aborted st = true → tx_aborted (snd (exec now c st)) = true.
Proof.
  revert st. induction c as [a|B f k IH|k IH]; intros st Hst; simpl; [done| |by apply IH].
  rewrite Hst. simpl. by apply IH.
Qed.

Lemma exec_twp {A} now (c : client A) st Q :
  twp now c (tx_db st) Q → tx_aborted st = false →
  tx_aborted (snd (exec now c st)) = true ∨ Q (fst (exec now c st)) (tx_db (snd (exec now c st))).
Proof.
  revert st. induction c as [a|B f k IH|k IH]; intros st Hc Hst; simpl in *.
  - by right.
  - rewrite Hst. destruct (default false _); simpl; [left; by apply exec_aborted|].
    destruct (f now (tx_db st)) as [[b d]|e]; [|left; by apply exec_aborted].
    by apply (IH _ {| tx_db := d |}).
  - by apply (IH _ {| tx_db := tx_db st |}).
Qed.

(** A transaction leaves everything alone and fails, or has done what its body
    does, even if the answer is lost. *)
Lemma tx_action_cases {A} (body : client (res AffErr A)) o s Q :
  twp (o_now (ao_base o)) body s Q →
  let (r, s') := tx_action body o s in
  (s' = s ∧ ∃ e, r = Err e) ∨ (∃ a, Q (Ok a) s' ∧ (r = Ok a ∨ r = Err ErrAffSQL)).
Proof.
  intros Hb. unfold tx_action.
  pose proof (exec_twp _ body {| tx_db := s; tx_faults := ao_faults o; tx_rand := ao_rand o;
                                 tx_aborted := false |} _ Hb eq_refl) as H.
  destruct (exec _ _ _) as [[a|e] st]; simpl in *; [|by left; eauto].
  destruct H as [->|H]; [by left; eauto|]. destruct (tx_aborted st); [by left; eauto|].
  destruct (fate _); eauto.
Qed.

(** ** What happens to the rebate tables *)

Definition valid_code (code : string) : Prop := isValidAffiliateCodeFormat code = true.

Definition accrued (u : Z) (d : AffDB) : Z :=
  sumZ (e_amount <$> filter (λ e, e_user e = u ∧ e_action e = Accrue) (entries d)).
Definition transferred (u : Z) (d : AffDB) : Z :=
  sumZ (e_amount <$> filter (λ e, e_user e = u ∧ e_action e = Transfer) (entries d)).
Definition still_frozen (u : Z) (d : AffDB) : Z :=
  sumZ (e_amount <$> filter (λ e, e_user e = u ∧ e_frozen_until e ≠ None) (entries d)).

Section Events.
Context `{PgFloat}.

Definition thaw_row (x : f64) (a : Aff) : res AffErr Aff :=
  if x ≤ᶠ f0 then Ok a else move_thawed x a.
Definition thaw_affs (uid : Z) (x : f64) (m : gmap Z Aff) : res AffErr (gmap Z Aff) :=
  match m !! uid with
  | None => Ok m
  | Some a => a' <-? thaw_row x a; Ok (<[uid := a']> m)
  end.
Definition users_kept (d : AffDB) (us : gmap Z AffUser) : Prop :=
  ∀ u, is_Some (af_users d !! u) → is_Some (us !! u).
Definition credited (uid : Z) (x : f64) (us us' : gmap Z AffUser) : Prop :=
  ∃ u b r, us !! uid = Some u ∧ add_dec8 (au_balance u) x = Ok b ∧
           add_dec8 (au_recharged u) x = Ok r ∧
           us' = <[uid := {| au_balance := b; au_recharged := r |}]> us.

Inductive event : AffDB → AffDB → Prop :=
| ev_join d uid code now :
    affs d !! uid = None → code_taken uid code d = false → valid_code code →
    event d (set_affs <[uid := new_aff code now]> d)
| ev_bind d uid inviter a b :
    uid ≠ inviter → affs d !! uid = Some a → aff_inviter a = None → affs d !! inviter = Some b →
    event d (set_affs (λ m, <[inviter := set_count (aff_count b + 1) b]>
                              (<[uid := set_inviter inviter a]> m)) d)
| ev_accrue d uid a a' x e :
    affs d !! uid = Some a → (x ≤ᶠ f0) = false →
    accrue_quota x (bool_decide (is_Some (e_frozen_until e))) a = Ok a' →
    e_user e = uid → e_action e = Accrue → float_dec8 x = Ok (e_amount e) →
    event d (set_entries (λ es, es ++ [e]) (set_affs <[uid := a']> d))
| ev_thaw d uid now m :
    thaw_affs uid (money (matured_sum uid now d)) (affs d) = Ok m →
    event d (set_affs (λ _, m) (thaw_entries uid now d))
| ev_transfer d uid a us e :
    affs d !! uid = Some a → 0 < aff_quota a → credited uid (money (aff_quota a)) (af_users d) us →
    e_user e = uid → e_action e = Transfer → e_frozen_until e = None →
    float_dec8 (money (aff_quota a)) = Ok (e_amount e) →
    event d (set_entries (λ es, es ++ [e])
               (set_af_users (λ _, us)
                  (set_affs <[uid := set_quotas 0 (aff_frozen a) (aff_history a) a]> d)))
| ev_code d uid a code custom :
    affs d !! uid = Some a → code_taken uid code d = false → valid_code code →
    event d (set_affs <[uid := set_code code custom a]> d)
| ev_rate d uid a r :
    affs d !! uid = Some a → event d (set_affs <[uid := set_rate r a]> d).

(** What other statements of the server do to the table of users. *)
Definition users_event (d d' : AffDB) : Prop := ∃ us, users_kept d us ∧ d' = set_af_users (λ _, us) d.
Definition any_event (d d' : AffDB) : Prop := event d d' ∨ users_event d d'.

(** The operations change the tables by events. *)

Lemma code_of_valid bytes : valid_code (code_of affiliateCodeLength bytes).
Proof.
  unfold valid_code, isValidAffiliateCodeFormat.
  assert (∀ n l, String.length (code_of n l) = n) as -> by (induction n; intros; simpl; auto).
  change ((_ || _))%nat with false. cbv iota.
  generalize affiliateCodeLength as n. intros n. revert bytes.
  induction n as [|n IH]; intros bytes; [done|]. cbn [code_of str_forallb].
  rewrite IH, andb_true_r. unfold code_char.
  assert (Forall (λ k, affiliateCodeValidChar
            (default "A"%char (String.get k affiliateCodeCharset)) = true) (seq 0 32)) as Hall
    by (repeat constructor).
  rewrite Forall_forall in Hall. apply Hall. apply elem_of_seq.
  pose proof (Z.mod_pos_bound (hd 0 bytes mod 256) 32 eq_refl).
  change (str_len affiliateCodeCharset) with 32. lia.
Qed.

Lemma rows_kept d d' u : event d d' → is_Some (affs d !! u) → is_Some (affs d' !! u).
Proof.
  intros Hev Hu. destruct Hev; cbn [set_affs set_entries set_af_users thaw_entries affs];
    repeat (rewrite lookup_insert_is_Some'; right); try done.
  revert H0. unfold thaw_affs. destruct (affs d !! uid); [|by intros [= <-]].
  destruct (thaw_row _ _); [|done]. intros [= <-]. rewrite lookup_insert_is_Some'. by right.
Qed.
Lemma rows_kept_events d d' u : rtc event d d' → is_Some (affs d !! u) → is_Some (affs d' !! u).
Proof. induction 1; eauto using rows_kept. Qed.

Lemma insert_affiliate_event uid code now d a d' :
  valid_code code → insert_affiliate uid code now d = Ok (a, d') → rtc event d d'.
Proof.
  intros Hc. unfold insert_affiliate. destruct (affs d !! uid) eqn:Eu; [by intros [= <- <-]|].
  destruct (_ <? _)%nat; [done|]. destruct (code_taken _ _ _) eqn:Ec; [done|].
  destruct (af_users d !! uid); [|done]. intros [= <- <-]. apply rtc_once. by apply ev_join.
Qed.

Lemma twp_query {B} now (f : AffDB → B) d (Q : res AffErr B → AffDB → Prop) :
  Q (Ok (f d)) d → twp now (query f) d Q.
Proof. done. Qed.

Lemma twp_attempts now uid n d :
  twp now (insert_attempts uid n) d (λ _ d', rtc event d d').
Proof.
  revert d. induction n as [|n IH]; intros d; [apply rtc_refl|]. intros [bytes|]; [|apply rtc_refl].
  cbn -[code_of insert_affiliate].
  destruct (insert_affiliate _ _ _ _) as [[[] d']|] eqn:E; [|done].
  simpl. eapply insert_affiliate_event; [apply code_of_valid|exact E].
Qed.

Lemma twp_profile now uid d :
  twp now (queryAffiliateByUserID uid) d
    (λ r d', d' = d ∧ r = found (option_map (summary uid) (affs d !! uid))).
Proof. done. Qed.

Lemma twp_ensure now uid d :
  twp now (ensureUserAffiliateWithClient uid) d
    (λ r d', rtc event d d' ∧ ∀ s, r = Ok s → ∃ a, affs d' !! uid = Some a ∧ s = summary uid a).
Proof.
  unfold ensureUserAffiliateWithClient. eapply twp_bind; [apply twp_profile|].
  intros r d' [-> ->]. destruct (affs d !! uid) as [a|] eqn:Ea; cbn [found option_map].
  { split; [apply rtc_refl|]. intros s [= <-]. by exists a. }
  eapply twp_try; [apply twp_attempts|done|]. intros [] d' Hev.
  eapply twp_weaken; [apply twp_profile|]. intros r d2 [-> ->]. split; [done|].
  destruct (affs d' !! uid) as [a|] eqn:Ea'; [|done]. intros s [= <-]. by exists a.
Qed.

Lemma update_aff_cases uid f d n d' :
  update_aff uid f d = Ok (n, d') →
  (n = 0 ∧ d' = d ∧ affs d !! uid = None) ∨
  (n = 1 ∧ ∃ a a', affs d !! uid = Some a ∧ f a = Ok a' ∧ d' = set_affs <[uid := a']> d).
Proof.
  unfold update_aff. destruct (affs d !! uid) as [a|]; [|intros [= <- <-]; by left].
  destruct (f a) eqn:Ef; [|done]. intros [= <- <-]. right. eauto 6.
Qed.

(** What a transaction that succeeds has done. *)
Abbreviation moves now body d := (twp now body d (λ r d', is_ok r = true → rtc event d d')).

Lemma moves_ensure {A} now uid (g : AffiliateSummary → client (res AffErr A)) d :
  (∀ d1 a, rtc event d d1 → affs d1 !! uid = Some a → moves now (g (summary uid a)) d1) →
  moves now (ctry (ensureUserAffiliateWithClient uid) g) d.
Proof.
  intros Hg. eapply twp_try; [apply twp_ensure|done|]. intros s d1 [Hev Hs].
  destruct (Hs s eq_refl) as (a & Ha & ->). eapply twp_weaken; [by apply Hg|].
  intros r d2 H2 Hr. etrans; eauto.
Qed.

Lemma moves_BindInviter now uid inviter d :
  uid ≠ inviter →
  moves now (ctry (ensureUserAffiliateWithClient uid) (λ _,
             ctry (ensureUserAffiliateWithClient inviter) (λ _,
             ctry (stmt (λ _, bind_inviter uid inviter)) (λ affected,
             if affected =? 0 then CRet (Ok false)
             else ctry (stmt (λ _, update_aff inviter count_invitee)) (λ _, CRet (Ok true)))))) d.
Proof.
  intros Hne. apply moves_ensure. intros d1 a1 _ _. apply moves_ensure. intros d2 b _ Hb.
  cbn -[bind_inviter update_aff]. unfold bind_inviter.
  destruct (affs d2 !! uid) as [a|] eqn:Ea; [|intros _; apply rtc_refl].
  destruct (aff_inviter a) eqn:Ei; [intros _; apply rtc_refl|]. destruct (af_users d2 !! inviter); [|done].
  cbn -[update_aff]. destruct (update_aff _ _ _) as [[n d3]|] eqn:E; [|done].
  apply update_aff_cases in E as [(_ & _ & E)|(_ & b' & b'' & E & Hc & ->)];
    cbn in E; rewrite lookup_insert_ne in E by done; simplify_eq.
  intros _. apply rtc_once. unfold count_invitee in Hc. destruct (_ <? _); [|done].
  injection Hc as <-. by eapply (ev_bind d2 uid inviter a b).
Qed.

Lemma insert_entry_Ok uid action x source order until after now d r d' :
  insert_entry uid action x source order until after now d = Ok (r, d') →
  ∃ z, float_dec8 x = Ok z ∧
       d' = set_entries (λ es, es ++ [{| e_user := uid; e_action := action; e_amount := z;
                                         e_source := source; e_order := order;
                                         e_frozen_until := until; e_created := now;
                                         e_after := after |}]) d.
Proof.
  unfold insert_entry. destruct (float_dec8 x) as [z|]; [|done]. simpl.
  destruct (_ && _); [|done]. intros [= <- <-]. eauto.
Qed.

Lemma moves_AccrueQuota now inviter invitee x (frozen : bool) (until : time → option time) order d :
  (x ≤ᶠ f0) = false → (∀ t, bool_decide (is_Some (until t)) = frozen) →
  moves now (ctry (stmt (λ _, update_aff inviter (accrue_quota x frozen))) (λ affected,
             if affected =? 0 then CRet (Ok false)
             else ctry (stmt (λ now, insert_entry inviter Accrue x (Some invitee) order (until now) None now))
                    (λ _, CRet (Ok true)))) d.
Proof.
  intros Hx Hu. cbn -[update_aff insert_entry].
  destruct (update_aff _ _ _) as [[n d1]|] eqn:E; [|done].
  apply update_aff_cases in E as [(-> & -> & E)|(-> & a & a' & Ha & Hq & ->)]; cbn -[insert_entry];
    [intros _; apply rtc_refl|].
  destruct (insert_entry _ _ _ _ _ _ _ _) as [[[] d2]|] eqn:Ee; [|done]. intros _.
  apply insert_entry_Ok in Ee as (z & Hz & ->). apply rtc_once.
  eapply ev_accrue; [done|done| |done|done|done]. cbn [e_frozen_until]. by rewrite Hu.
Qed.

Lemma twp_thaw now uid d : twp now (thawFrozenQuotaTx uid) d (λ _ d', rtc event d d').
Proof.
  cbn -[update_aff]. destruct (money _ ≤ᶠ f0) eqn:Ex.
  - apply rtc_once. replace (thaw_entries uid now d)
      with (set_affs (λ _, affs d) (thaw_entries uid now d)) by done.
    apply ev_thaw. unfold thaw_affs, thaw_row. rewrite Ex.
    destruct (affs d !! uid) eqn:Ea; [|done]. simpl. by rewrite insert_id.
  - cbn -[update_aff]. destruct (update_aff _ _ _) as [[n d1]|] eqn:E; [|done]. cbn.
    apply rtc_once. apply update_aff_cases in E as [(-> & -> & E)|(-> & a & a' & Ha & Hq & ->)].
    + replace (thaw_entries uid now d) with (set_affs (λ _, affs d) (thaw_entries uid now d)) by done.
      apply ev_thaw. unfold thaw_affs. cbn in E. by rewrite E.
    + replace (set_affs <[uid:=a']> (thaw_entries uid now d))
        with (set_affs (λ _, <[uid := a']> (affs d)) (thaw_entries uid now d)) by done.
      apply ev_thaw. unfold thaw_affs, thaw_row. cbn in Ha. by rewrite Ha, Ex, Hq.
Qed.

(** What a claim of the whole quota does, once the row is there. *)
Definition after_transfer (uid : Z) (a : Aff) (us : gmap Z AffUser) (e : Entry) (d : AffDB) : AffDB :=
  set_entries (λ es, es ++ [e])
    (set_af_users (λ _, us)
       (set_affs <[uid := set_quotas 0 (aff_frozen a) (aff_history a) a]> d)).
Definition claim_and_credit (uid : Z) : client (res AffErr (f64 * f64)) :=
  ctry (stmt (λ _, claim_quota uid)) (λ claimed,
  match claimed with
  | None => CRet (Err ErrAffiliateQuotaEmpty)
  | Some transferred =>
      if transferred ≤ᶠ f0 then CRet (Err ErrAffiliateQuotaEmpty)
      else
        ctry (stmt (λ _, credit_user uid transferred)) (λ affected,
        if affected =? 0 then CRet (Err ErrAffUserNotFound)
        else
          ctry (queryUserBalance uid) (λ newBalance,
          ctry (queryAffiliateTransferSnapshot uid) (λ snap,
          ctry (stmt (insert_transfer uid transferred snap)) (λ _,
          CRet (Ok (transferred, newBalance))))))
  end).

Lemma transfer_body_eq uid :
  transfer_body uid =
  ctry (ensureUserAffiliateWithClient uid) (λ _,
  ctry (thawFrozenQuotaTx uid) (λ _, claim_and_credit uid)).
Proof. done. Qed.

Lemma insert_transfer_Ok uid x snap now d r d' :
  insert_transfer uid x snap now d = Ok (r, d') →
  ∃ e, e_user e = uid ∧ e_action e = Transfer ∧ e_frozen_until e = None ∧
       float_dec8 x = Ok (e_amount e) ∧ d' = set_entries (λ es, es ++ [e]) d.
Proof.
  destruct snap as [[[b q] f] h]. unfold insert_transfer.
  destruct (float_dec8 b); [|done]. destruct (float_dec8 q); [|done].
  destruct (float_dec8 f); [|done]. destruct (float_dec8 h); [|done]. cbn [rbind].
  intros (z & Hz & ->)%insert_entry_Ok.
  eexists. split; [|split; [|split; [|split; [|reflexivity]]]]; done.
Qed.

Lemma twp_claim now uid d :
  twp now (claim_and_credit uid) d (λ r d', ∀ t b, r = Ok (t, b) →
    ∃ a us e, affs d !! uid = Some a ∧ 0 < aff_quota a ∧ t = money (aff_quota a) ∧
              credited uid t (af_users d) us ∧
              b = money (default 0 (au_balance <$> us !! uid)) ∧
              e_user e = uid ∧ e_action e = Transfer ∧ e_frozen_until e = None ∧
              float_dec8 t = Ok (e_amount e) ∧ d' = after_transfer uid a us e d).
Proof.
  cbn -[claim_quota credit_user insert_transfer]. unfold claim_quota.
  destruct (affs d !! uid) as [a|] eqn:Ea; [|done].
  destruct (0 <? aff_quota a) eqn:Eq; [|done]. cbn -[credit_user insert_transfer].
  destruct (money _ ≤ᶠ f0); [done|]. cbn -[credit_user insert_transfer]. unfold credit_user. cbn.
  destruct (af_users d !! uid) as [u|] eqn:Eu; [|done].
  destruct (add_dec8 (au_balance u) _) as [b|] eqn:Eb; [|done].
  destruct (add_dec8 (au_recharged u) _) as [r|] eqn:Er; [|done]. cbn -[insert_transfer].
  rewrite lookup_insert_eq. cbn -[insert_transfer].
  unfold transfer_snapshot. cbn -[insert_transfer]. rewrite !lookup_insert_eq. cbn -[insert_transfer].
  destruct (insert_transfer _ _ _ _ _) as [[[] d2]|] eqn:Ei; [|done].
  apply insert_transfer_Ok in Ei as (e & H1 & H2 & H3 & H4 & ->). cbn. intros t b' [= <- <-].
  exists a, (<[uid := {| au_balance := b; au_recharged := r |}]> (af_users d)), e.
  rewrite lookup_insert_eq. split_and!; try done.
  { lia. } { by exists u, b, r. }
Qed.

Lemma moves_transfer now uid d : moves now (transfer_body uid) d.
Proof.
  rewrite transfer_body_eq. apply moves_ensure. intros d1 a _ _.
  eapply twp_try; [apply twp_thaw|done|]. intros x d2 Hev.
  eapply twp_weaken; [apply twp_claim|]. intros [[t b]|] d3 H3; [intros _|done].
  destruct (H3 _ _ eq_refl) as (a2 & us & e & Ha & Hq & -> & Hus & -> & Hu & Hac & Hf & Hz & ->).
  eapply rtc_r; [exact Hev|]. by eapply ev_transfer.
Qed.


Lemma update_code_event uid code custom d n d' :
  valid_code code → update_code uid code custom d = Ok (n, d') → rtc event d d'.
Proof.
  intros Hc. unfold update_code. destruct (affs d !! uid) as [a|] eqn:Ea; [|by intros [= <- <-]].
  destruct (_ <? _)%nat; [done|]. destruct (code_taken _ _ _) eqn:Et; [done|].
  intros [= <- <-]. apply rtc_once. by apply ev_code.
Qed.

Lemma moves_UpdateUserAffCode now uid code d :
  valid_code code →
  moves now (ctry (ensureUserAffiliateWithClient uid) (λ _,
             cbind (stmt (λ _, update_code uid code true)) (λ r,
             CRet match r with
                  | Err e => Err (if isAffiliateUniqueViolation e then ErrAffiliateCodeTaken else e)
                  | Ok affected => if affected =? 0 then Err ErrAffUserNotFound else Ok ()
                  end))) d.
Proof.
  intros Hc. apply moves_ensure. intros d1 a _ _. cbn -[update_code].
  destruct (update_code _ _ _ _) as [[n d2]|] eqn:E; [|done]. cbn. intros _.
  by eapply update_code_event.
Qed.

Lemma moves_reset now uid d : moves now (reset_body uid) d.
Proof.
  apply moves_ensure. intros d1 a _ _. generalize affiliateCodeMaxAttempts as n. intros n.
  induction n as [|n IH]; [done|]. intros [bytes|]; [|done]. cbn -[update_code code_of].
  destruct (update_code _ _ _ _) as [[m d2]|] eqn:E; [|done]. intros _.
  eapply update_code_event; [apply code_of_valid|exact E].
Qed.

Lemma moves_rate now uid rate d :
  moves now (ctry (ensureUserAffiliateWithClient uid) (λ _,
             ctry (stmt (λ _, update_aff uid (store_rate rate))) (λ affected,
             CRet (if affected =? 0 then Err ErrAffUserNotFound else Ok ())))) d.
Proof.
  apply moves_ensure. intros d1 a _ _. cbn -[update_aff].
  destruct (update_aff _ _ _) as [[n d2]|] eqn:E; [|done]. cbn. intros _.
  apply update_aff_cases in E as [(_ & -> & _)|(_ & b & b' & Hb & Hr & ->)]; [apply rtc_refl|].
  unfold store_rate in Hr. destruct (rate_dec rate); [|done]. injection Hr as <-.
  apply rtc_once. by apply ev_rate.
Qed.

Lemma twp_ensure_all now uids d : twp now (ensure_all uids) d (λ _ d', rtc event d d').
Proof.
  revert d. induction uids as [|uid uids IH]; intros d; [apply rtc_refl|]. simpl.
  destruct (uid <=? 0); [apply IH|].
  eapply twp_try; [apply twp_ensure|by intros e d' [Hev _]|]. intros s d1 [Hev _].
  eapply twp_weaken; [apply IH|]. intros r d2 H2. by etrans.
Qed.

(** The statement on many rows is an event for each of them. *)
Definition with_rates (r : option Z) (uids : list Z) (m : gmap Z Aff) : gmap Z Aff :=
  map_imap (λ u a, Some (if decide (u ∈ uids) then set_rate r a else a)) m.

Lemma set_rates_events r uids d : rtc event d (set_affs (with_rates r uids) d).
Proof.
  induction uids as [|x uids IH].
  { replace (set_affs (with_rates r []) d) with d; [apply rtc_refl|].
    destruct d as [us m es]. unfold set_affs. simpl. f_equal. apply map_eq. intros u.
    unfold with_rates. rewrite map_lookup_imap. destruct (m !! u); [|done]. cbn [mbind option_bind].
    destruct (decide (u ∈ [])) as [Hin|]; [by apply not_elem_of_nil in Hin|done]. }
  assert (∀ u, with_rates r (x :: uids) (affs d) !! u =
               if decide (u = x) then set_rate r <$> affs d !! x
               else with_rates r uids (affs d) !! u) as Hx.
  { intros u. unfold with_rates. rewrite !map_lookup_imap. destruct (decide (u = x)) as [->|Hne].
    - destruct (affs d !! x); [|done]. cbn. by rewrite decide_True by apply list_elem_of_here.
    - destruct (affs d !! u); [|done]. cbn [mbind option_bind]. f_equal. apply decide_ext. rewrite elem_of_cons. tauto. }
  destruct (affs d !! x) as [a|] eqn:Ea.
  - eapply rtc_r; [exact IH|].
    assert (with_rates r uids (affs d) !! x = Some (if decide (x ∈ uids) then set_rate r a else a))
      as Hl by (unfold with_rates; rewrite map_lookup_imap, Ea; done).
    replace (set_affs (with_rates r (x :: uids)) d)
      with (set_affs <[x := set_rate r (if decide (x ∈ uids) then set_rate r a else a)]>
                     (set_affs (with_rates r uids) d)); [by apply ev_rate|].
    unfold set_affs. simpl. f_equal. apply map_eq. intros u. rewrite Hx.
    destruct (decide (u = x)) as [->|Hne]; [|by rewrite lookup_insert_ne].
    rewrite lookup_insert_eq. simpl. by destruct (decide _).
  - replace (set_affs (with_rates r (x :: uids)) d) with (set_affs (with_rates r uids) d); [done|].
    unfold set_affs. f_equal. apply map_eq. intros u. rewrite Hx.
    destruct (decide (u = x)) as [->|]; [|done]. unfold with_rates.
    by rewrite map_lookup_imap, Ea.
Qed.

Lemma moves_batch now uids rate d :
  moves now (ctry (ensure_all uids) (λ _, stmt (λ _, store_rates uids rate))) d.
Proof.
  eapply twp_try; [apply twp_ensure_all|done|]. intros [] d1 Hev. cbn -[store_rates].
  destruct (store_rates _ _ _) as [[[] d2]|] eqn:E; [|done]. intros _. etrans; [exact Hev|].
  unfold store_rates in E. destruct (forallb _ _); [injection E as <-; apply rtc_refl|].
  destruct (rate_dec rate) as [r|]; [|done]. injection E as <-. apply set_rates_events.
Qed.

(** ** Processes *)

Abbreviation eacts := (acts (O := AffOracle) (rtc event)).

Lemma eacts_tx {A} (body : client (res AffErr A)) :
  (∀ now d, moves now body d) → eacts (withTx body).
Proof.
  intros Hb. apply acts_act. intros o s.
  pose proof (tx_action_cases body o s _ (Hb (o_now (ao_base o)) s)) as H1.
  destruct (tx_action body o s) as [r s']. simpl.
  destruct H1 as [[-> _]|(a & H1 & _)]; [apply rtc_refl|by apply H1].
Qed.

Fixpoint cacts {A} (c : client A) : Prop :=
  match c with
  | CRet _ => True
  | CStmt f k => (∀ now d b d', f now d = Ok (b, d') → rtc event d d') ∧ ∀ r, cacts (k r)
  | CRand k => ∀ r, cacts (k r)
  end.
Lemma cacts_bind {A B} (c : client A) (g : A → client B) :
  cacts c → (∀ a, cacts (g a)) → cacts (cbind c g).
Proof.
  intros Hc Hg. induction c as [a|C f k IH|k IH]; simpl; [apply Hg| |by intros r; apply IH].
  destruct Hc as [Hf Hk]. split; [done|by intros r; apply IH].
Qed.
Lemma eacts_pool {A} (c : client A) : cacts c → eacts (pool c).
Proof.
  induction c as [a|B f k IH|k IH]; simpl; [done| |].
  - intros [Hf Hk]. split; [|eauto]. intros o s.
    destruct (fate _), (f (o_now (ao_base o)) s) as [[b d]|] eqn:E; simpl; eauto using rtc_refl.
  - intros Hk. split; [intros; apply rtc_refl|eauto].
Qed.

Lemma cacts_query {B} (f : AffDB → B) : cacts (query f).
Proof. split; [|done]. intros now d b d' [= <- <-]. apply rtc_refl. Qed.
Lemma cacts_ensure uid : cacts (ensureUserAffiliateWithClient uid).
Proof.
  assert (cacts (queryAffiliateByUserID uid)) as Hq by (apply cacts_bind; [apply cacts_query|by intros []]).
  apply cacts_bind; [done|]. intros [s|[]]; try done.
  apply cacts_bind; [|by intros []]. generalize affiliateCodeMaxAttempts as n. intros n.
  induction n as [|n IH]; [done|]. intros [bytes|]; [|done].
  cbn [cacts cbind ctry stmt]. split.
  - intros now d b d'. apply insert_affiliate_event, code_of_valid.
  - intros [|e]; [done|]. cbn. by destruct (isAffiliateUniqueViolation e).
Qed.

(** A code that is valid is already trimmed and in upper case. *)
Lemma code_char_facts c :
  affiliateCodeValidChar c = true →
  is_graphic c = true ∧ is_ascii_byte c = true ∧ ascii_upper c = c.
Proof. destruct c as [[] [] [] [] [] [] [] []]; (discriminate || (intros _; split_and!; reflexivity)). Qed.
Lemma valid_code_chars code : valid_code code → str_forallb affiliateCodeValidChar code = true.
Proof. unfold valid_code, isValidAffiliateCodeFormat. by destruct (_ || _)%nat. Qed.
Lemma valid_code_normal `{GoText} code : valid_code code → ToUpper (TrimSpace code) = code.
Proof.
  intros Hc%valid_code_chars. rewrite trimmed_id.
  - unfold ToUpper. assert (is_ascii code = true ∧ str_map ascii_upper code = code) as [-> Hm]; [|done].
    induction code as [|c code IH]; [done|]. cbn in Hc. apply andb_true_iff in Hc as [Hc Hs].
    apply code_char_facts in Hc as (_ & Ha & Hu). destruct (IH Hs) as [Hi Hm].
    unfold is_ascii in *. cbn [str_forallb str_map]. by rewrite Ha, Hi, Hu, Hm.
  - apply graphic_trimmed. induction code as [|c code IH]; [done|]. cbn in Hc |- *.
    apply andb_true_iff in Hc as [Hc Hs]. apply code_char_facts in Hc as (-> & _ & _). by apply IH.
Qed.
End Events.

(** ** The requests of a server *)

Inductive AffRequest :=
| RqEnsure (uid : Z)
| RqBind (uid : Z) (code : string)
| RqAccrue (invitee : Z) (base : f64) (order : option Z)
| RqAdminRecharge (uid : Z) (operation : string) (amount : f64)
| RqThaw (uid : Z)
| RqTransfer (uid : Z)
| RqUpdateCode (uid : Z) (code : string)
| RqResetCode (uid : Z)
| RqRate (uid : Z) (rate : option f64)
| RqRates (uids : list Z) (rate : option f64)
| RqOther (f : time → gmap Z AffUser → gmap Z AffUser).

Section Requests.
Context `{GT : GoText} `{PF : PgFloat} `{GP : GoParse}.

Definition ended {A} (p : aproc A) : aproc unit := proc_bind p (λ _, Ret ()).
Definition serve (r : AffRequest) : aproc unit :=
  match r with
  | RqEnsure uid => ended (EnsureUserAffiliate uid)
  | RqBind uid code => ended (BindInviterByCode uid code)
  | RqAccrue invitee base order => ended (AccrueInviteRebateForOrder invitee base order)
  | RqAdminRecharge uid op amount => tryAccrueAffiliateRebateForAdminRecharge uid op amount
  | RqThaw uid => ended (ThawFrozenQuota uid)
  | RqTransfer uid => ended (TransferAffiliateQuota uid)
  | RqUpdateCode uid code => ended (AdminUpdateUserAffCode uid code)
  | RqResetCode uid => ended (AdminResetUserAffCode uid)
  | RqRate uid rate => ended (AdminSetUserRebateRate uid rate)
  | RqRates uids rate => ended (AdminBatchSetUserRebateRate uids rate)
  | RqOther f => ended (other_statement f)
  end.

#[local] Abbreviation eacts := (acts (O := AffOracle) (rtc event)).

Lemma eacts_try {A B} (p : aproc (res AffErr A)) (g : A → aproc (res AffErr B)) :
  eacts p → (∀ a, eacts (g a)) → eacts (ptry p g).
Proof. intros Hp Hg. apply acts_bind; [done|]. by intros [a|e]; simpl. Qed.
Lemma eacts_ended {A} (p : aproc A) : eacts p → eacts (ended p).
Proof. intros Hp. by apply acts_bind. Qed.
Lemma eacts_read {A} (f : AffOracle → AffDB → A) : eacts (act (λ o s, (f o s, s))).
Proof. apply acts_act. intros o s. apply rtc_refl. Qed.
Lemma eacts_setting {A} key (f : option string → A) : eacts (setting key f).
Proof. apply acts_bind; [apply eacts_read|done]. Qed.
Lemma eacts_ensure uid : eacts (EnsureUserAffiliate_repo uid).
Proof. unfold EnsureUserAffiliate_repo. destruct (_ <=? _); [done|]. apply eacts_pool, cacts_ensure. Qed.
Lemma eacts_bind uid inviter : uid ≠ inviter → eacts (BindInviter uid inviter).
Proof. intros Hne. apply eacts_tx. intros now d. by apply moves_BindInviter. Qed.
Lemma eacts_by_code code : eacts (GetAffiliateByCode code).
Proof. apply eacts_pool, cacts_bind; [apply cacts_query|by intros []]. Qed.
Lemma eacts_accrue_quota inviter invitee x hours order :
  eacts (AccrueQuota inviter invitee x hours order).
Proof.
  unfold AccrueQuota. destruct (x ≤ᶠ f0) eqn:Ex; [done|]. apply eacts_tx. intros now d.
  apply (moves_AccrueQuota now inviter invitee x (0 <? hours)
           (λ t, if 0 <? hours then Some (t + hours * Hour) else None) order d); [done|].
  intros t. by destruct (0 <? hours).
Qed.
Lemma eacts_accrued_from inviter invitee : eacts (GetAccruedRebateFromInvitee inviter invitee).
Proof. apply eacts_pool, cacts_query. Qed.

Ltac eacts_step :=
  lazymatch goal with
  | |- ∀ _, _ => intros ?
  | |- acts _ (Ret _) => exact I
  | |- acts _ (ended _) => apply eacts_ended
  | |- acts _ (ptry _ _) => apply eacts_try
  | |- acts _ (proc_bind _ _) => apply acts_bind
  | |- acts _ (setting _ _) => apply eacts_setting
  | |- acts _ (act (λ o s, (_, s))) => apply eacts_read
  | |- acts _ (EnsureUserAffiliate_repo _) => apply eacts_ensure
  | |- acts _ (GetAffiliateByCode _) => apply eacts_by_code
  | |- acts _ (AccrueQuota _ _ _ _ _) => apply eacts_accrue_quota
  | |- acts _ (GetAccruedRebateFromInvitee _ _) => apply eacts_accrued_from
  | |- acts _ (match ?x with _ => _ end) => destruct x eqn:?
  end.
Ltac eacts_all := repeat eacts_step.

Lemma eacts_BindInviterByCode uid code : eacts (BindInviterByCode uid code).
Proof.
  unfold BindInviterByCode, IsAffiliateEnabled. destruct (String.eqb _ _); [done|].
  eacts_all. apply eacts_bind.
  match goal with E : (_ || _) = false |- _ => apply orb_false_iff in E as [_ E%Z.eqb_neq] end.
  congruence.
Qed.
Lemma eacts_AccrueInviteRebateForOrder invitee base order :
  eacts (AccrueInviteRebateForOrder invitee base order).
Proof.
  unfold AccrueInviteRebateForOrder, IsAffiliateEnabled, GetAffiliateRebateDurationDays,
    resolveRebateRatePercent, GetAffiliateRebatePerInviteeCap, GetAffiliateRebateRatePercent,
    accrue_rebate, GetAffiliateRebateFreezeHours.
  eacts_all.
Qed.

(** Every request changes the tables by events. *)
Definition is_other (r : AffRequest) : bool := match r with RqOther _ => true | _ => false end.
Definition step_of (r : AffRequest) : AffDB → AffDB → Prop :=
  if is_other r then users_event else rtc event.
Lemma serve_events r : acts (step_of r) (serve r).
Proof.
  unfold step_of. destruct r; cbn [serve is_other].
  - unfold EnsureUserAffiliate. eacts_all.
  - apply eacts_ended, eacts_BindInviterByCode.
  - apply eacts_ended, eacts_AccrueInviteRebateForOrder.
  - unfold tryAccrueAffiliateRebateForAdminRecharge, IsAffiliateAdminRechargeEnabled, AccrueInviteRebate.
    destruct (_ || _); [done|]. apply acts_bind; [apply eacts_setting|]. intros enabled.
    destruct (negb enabled); [done|]. apply acts_bind; [|done]. apply eacts_AccrueInviteRebateForOrder.
  - apply eacts_ended, eacts_tx. intros now d. eapply twp_weaken; [apply twp_thaw|done].
  - apply eacts_ended, eacts_tx. intros now d. apply moves_transfer.
  - apply eacts_ended. unfold AdminUpdateUserAffCode.
    destruct (isValidAffiliateCodeFormat _) eqn:Hc; [|done]. cbn [negb]. unfold UpdateUserAffCode.
    destruct (_ <=? _); [done|]. rewrite valid_code_normal by done. destruct (String.eqb _ _); [done|].
    apply eacts_tx. intros now d. by apply moves_UpdateUserAffCode.
  - apply eacts_ended. unfold AdminResetUserAffCode, ResetUserAffCode. destruct (_ <=? _); [done|].
    apply eacts_tx. intros now d. apply moves_reset.
  - apply eacts_ended. unfold AdminSetUserRebateRate. destruct (validateExclusiveRate rate); [|done].
    unfold SetUserRebateRate. destruct (_ <=? _); [done|]. apply eacts_tx. intros now d. apply moves_rate.
  - apply eacts_ended. unfold AdminBatchSetUserRebateRate. destruct (validateExclusiveRate rate); [|done].
    destruct (decide _); [done|]. unfold BatchSetUserRebateRate. destruct (decide _); [done|].
    apply eacts_tx. intros now d. apply moves_batch.
  - apply acts_bind; [|done]. apply acts_act. intros o s. exists (f (o_now (ao_base o)) (af_users s) ∪ af_users s).
    split; [|done]. intros u Hu. rewrite lookup_union_is_Some. by right.
Qed.

(** The steps of the process at a place of a run, and the run as a whole. *)
Definition step_at (reqs : list AffRequest) (i : nat) (d d' : AffDB) : Prop :=
  ∃ r, reqs !! i = Some r ∧ step_of r d d'.
Lemma served_acts reqs : acts_at (step_at reqs) (serve <$> reqs).
Proof.
  intros i p. rewrite list_lookup_fmap. destruct (reqs !! i) as [r|] eqn:Hi; [|done]. intros [= <-].
  eapply acts_weaken; [|apply serve_events]. intros d d' Hd. by exists r.
Qed.
Lemma step_at_events reqs i d d' : step_at reqs i d d' → rtc any_event d d'.
Proof.
  intros (r & _ & Hr). unfold step_of in Hr. destruct (is_other r); [by apply rtc_once; right|].
  eapply rtc_subrel; [|exact Hr]. by left.
Qed.
Lemma run_events sched reqs s0 s ps :
  run sched (s0, serve <$> reqs) = (s, ps) → rtc any_event s0 s.
Proof.
  intros Hrun. apply (acts_run_at (step_at reqs)) in Hrun as [Hr _]; [|apply served_acts].
  induction Hr as [|s1 s2 s3 [i H12] _ IH]; [apply rtc_refl|]. etrans; [|exact IH].
  by eapply step_at_events.
Qed.
End Requests.
