(* ===== verification/AffiliateProps.v ===== *)
(** * Properties of affiliate rebates

    No rebate is lost and none is paid twice, invitations are counted and last, a
    transfer pays out what may be withdrawn, and a recharge earns what is due.
    A code that is taken is not drawn again in a transaction, and orders that are
    completed at the same time can exceed the cap of an invitee. *)

From Stdlib Require Import ZArith Lia QArith Ascii String Bool SpecFloat.
From stdpp Require Import base numbers option list gmap strings relations.
From S2P Require Import Prelude GoStrings GoTrim GoFloat UsageDB Proc ProcGhost Affiliate AffiliateSteps.

#[local] Open Scope Z_scope.

(** ** Invitations *)

Section Invitations.
Context `{GT : GoText} `{PF : PgFloat} `{GP : GoParse}.

Definition invitees (i : Z) (d : AffDB) : gset Z :=
  dom (filter (λ ua : Z * Aff, aff_inviter (snd ua) = Some i) (affs d)).

(** Codes are valid and belong to one user; an inviter is another user with a
    profile; the counter of a user is the number of users who were invited. *)
Record invitations_ok (d : AffDB) : Prop := {
  io_valid : ∀ u a, affs d !! u = Some a → valid_code (aff_code a);
  io_unique : ∀ u v a b,
    affs d !! u = Some a → affs d !! v = Some b → aff_code a = aff_code b → u = v;
  io_inviter : ∀ u a i,
    affs d !! u = Some a → aff_inviter a = Some i → i ≠ u ∧ is_Some (affs d !! i);
  io_count : ∀ u a, affs d !! u = Some a → aff_count a = Z.of_nat (size (invitees u d));
}.
Definition inviters_kept (d d' : AffDB) : Prop :=
  ∀ u a i, affs d !! u = Some a → aff_inviter a = Some i →
           ∃ a', affs d' !! u = Some a' ∧ aff_inviter a' = Some i.

Lemma elem_invitees u i d : u ∈ invitees i d ↔ ∃ a, affs d !! u = Some a ∧ aff_inviter a = Some i.
Proof.
  unfold invitees. rewrite elem_of_dom. split.
  - intros [a Ha]. apply map_lookup_filter_Some in Ha. eauto.
  - intros (a & Ha & Hi). exists a. by apply map_lookup_filter_Some.
Qed.

Lemma code_free uid code d v b :
  code_taken uid code d = false → affs d !! v = Some b → aff_code b = code → v = uid.
Proof.
  unfold code_taken. intros Hc%bool_decide_eq_false Hv Hb. destruct (decide (v = uid)); [done|].
  destruct Hc. exists v, b. done.
Qed.

(** Most events change nothing of it. *)
Definition invite_view (a : Aff) : string * option Z * Z := (aff_code a, aff_inviter a, aff_count a).
Definition same_view (d d' : AffDB) : Prop :=
  ∀ u, invite_view <$> affs d' !! u = invite_view <$> affs d !! u.

Lemma same_view_lookup d d' u a' :
  same_view d d' → affs d' !! u = Some a' →
  ∃ a, affs d !! u = Some a ∧ aff_code a' = aff_code a ∧ aff_inviter a' = aff_inviter a ∧
       aff_count a' = aff_count a.
Proof.
  intros Hv Hu. specialize (Hv u). rewrite Hu in Hv. destruct (affs d !! u) as [a|]; [|done].
  injection Hv as H1 H2 H3. eauto.
Qed.
Lemma same_view_sym d d' : same_view d d' → same_view d' d.
Proof. by intros Hv u. Qed.

Lemma same_view_invitees d d' i : same_view d d' → invitees i d' = invitees i d.
Proof.
  intros Hv. apply set_eq. intros u. rewrite !elem_invitees. split.
  - intros (a' & Ha' & Hi). destruct (same_view_lookup _ _ _ _ Hv Ha') as (a & Ha & _ & E & _).
    exists a. by rewrite <-E.
  - intros (a' & Ha' & Hi).
    destruct (same_view_lookup _ _ _ _ (same_view_sym _ _ Hv) Ha') as (a & Ha & _ & E & _).
    exists a. by rewrite <-E.
Qed.
Lemma same_view_ok d d' : same_view d d' → invitations_ok d → invitations_ok d'.
Proof.
  intros Hv [Hval Huni Hinv Hcnt]. split.
  - intros u a' Hu. destruct (same_view_lookup _ _ _ _ Hv Hu) as (a & Ha & -> & _). eauto.
  - intros u v a' b' Hu Hw. destruct (same_view_lookup _ _ _ _ Hv Hu) as (a & Ha & -> & _).
    destruct (same_view_lookup _ _ _ _ Hv Hw) as (b & Hb & -> & _). eauto.
  - intros u a' i Hu. destruct (same_view_lookup _ _ _ _ Hv Hu) as (a & Ha & _ & -> & _).
    intros Hi. destruct (Hinv u a i Ha Hi) as [Hne [b Hb]]. split; [done|].
    specialize (Hv i). rewrite Hb in Hv. by destruct (affs d' !! i).
  - intros u a' Hu. destruct (same_view_lookup _ _ _ _ Hv Hu) as (a & Ha & _ & _ & ->).
    rewrite (same_view_invitees d d') by done. eauto.
Qed.
Lemma same_view_kept d d' : same_view d d' → inviters_kept d d'.
Proof.
  intros Hv u a i Hu Hi. specialize (Hv u). rewrite Hu in Hv.
  destruct (affs d' !! u) as [a'|]; [|done]. injection Hv as _ E _. exists a'. by rewrite E.
Qed.
Lemma same_view_insert d uid a a' f :
  affs d !! uid = Some a → invite_view a' = invite_view a → affs f = <[uid := a']> (affs d) →
  same_view d f.
Proof.
  intros Ha Hv Hf u. rewrite Hf. destruct (decide (u = uid)) as [->|Hne].
  - by rewrite lookup_insert_eq, Ha; simpl; rewrite Hv.
  - by rewrite lookup_insert_ne.
Qed.

Lemma accrue_quota_view x frozen a a' : accrue_quota x frozen a = Ok a' → invite_view a' = invite_view a.
Proof.
  unfold accrue_quota. destruct (add_dec8 (aff_history a) x); [|done]. cbn [rbind].
  destruct frozen; [destruct (add_dec8 (aff_frozen a) x)|destruct (add_dec8 (aff_quota a) x)];
    cbn [rbind]; by intros [= <-].
Qed.
Lemma thaw_row_view x a a' : thaw_row x a = Ok a' → invite_view a' = invite_view a.
Proof.
  unfold thaw_row, move_thawed. destruct (x ≤ᶠ f0); [by intros [= <-]|].
  destruct (add_dec8 (aff_quota a) x); [|done]. cbn [rbind]. destruct (f_finite x); [|done].
  destruct (to_dec8 _); [|done]. cbn [rbind]. by intros [= <-].
Qed.

Lemma join_ok d uid code now :
  affs d !! uid = None → code_taken uid code d = false → valid_code code → invitations_ok d →
  invitations_ok (set_affs <[uid := new_aff code now]> d).
Proof.
  intros Hu Ht Hc Hok. pose proof Hok as [Hval Huni Hinv Hcnt].
  assert (∀ i, invitees i (set_affs <[uid := new_aff code now]> d) = invitees i d) as Hsame.
  { intros i. apply set_eq. intros u. rewrite !elem_invitees. cbn.
    destruct (decide (u = uid)) as [->|Hne]; [|by rewrite lookup_insert_ne].
    rewrite lookup_insert_eq, Hu. split; intros (a & E & Hi); simplify_eq. }
  split; cbn; intros u; [| | |]; (destruct (decide (u = uid)) as [->|Hne];
    [rewrite lookup_insert_eq|rewrite lookup_insert_ne by done]).
  - by intros a [= <-].
  - eauto.
  - intros v a b [= <-]. destruct (decide (v = uid)) as [->|Hne]; [done|].
    rewrite lookup_insert_ne by done. intros Hv E. by rewrite (code_free uid code d v b).
  - intros v a b Ha. destruct (decide (v = uid)) as [->|Hne'].
    + rewrite lookup_insert_eq. intros [= <-] E. by apply (code_free uid code d u a).
    + rewrite lookup_insert_ne by done. eauto.
  - by intros a i [= <-].
  - intros a i Ha Hi. destruct (Hinv u a i Ha Hi) as [H1 H2]. split; [done|].
    rewrite lookup_insert_is_Some'. by right.
  - intros a [= <-]. rewrite Hsame. cbn. replace (invitees uid d) with (∅ : gset Z); [done|].
    symmetry. apply set_eq. intros v. rewrite elem_invitees. split; [|set_solver].
    intros (b & Hb & Hi). destruct (Hinv v b uid Hb Hi) as [_ [c Hcc]]. congruence.
  - intros a Ha. rewrite Hsame. eauto.
Qed.

Lemma bind_ok d uid inviter a b :
  uid ≠ inviter → affs d !! uid = Some a → aff_inviter a = None → affs d !! inviter = Some b →
  let d' := set_affs (λ m, <[inviter := set_count (aff_count b + 1) b]>
                             (<[uid := set_inviter inviter a]> m)) d in
  invitations_ok d → invitations_ok d' ∧ inviters_kept d d'.
Proof.
  intros Hne Ha Hi Hb d' [Hval Huni Hinv Hcnt].
  assert (∀ u c', affs d' !! u = Some c' → ∃ c, affs d !! u = Some c ∧ aff_code c' = aff_code c ∧
            aff_inviter c' = (if decide (u = uid) then Some inviter else aff_inviter c) ∧
            aff_count c' = aff_count c + (if decide (u = inviter) then 1 else 0)) as Hl.
  { intros u c'. unfold d'. cbn. destruct (decide (u = inviter)) as [->|H1].
    - rewrite lookup_insert_eq. intros [= <-]. exists b. rewrite decide_False by done. done.
    - rewrite lookup_insert_ne by done. destruct (decide (u = uid)) as [->|H2].
      + rewrite lookup_insert_eq. intros [= <-]. exists a. split_and!; try done. cbn. lia.
      + rewrite lookup_insert_ne by done. intros E. exists c'. split_and!; try done. lia. }
  assert (∀ u c, affs d !! u = Some c → ∃ c', affs d' !! u = Some c' ∧
            aff_inviter c' = (if decide (u = uid) then Some inviter else aff_inviter c)) as Hl'.
  { intros u c Hc. unfold d'. cbn. destruct (decide (u = inviter)) as [->|H1].
    - rewrite lookup_insert_eq. eexists. split; [done|]. rewrite decide_False by done.
      cbn. congruence.
    - rewrite lookup_insert_ne by done. destruct (decide (u = uid)) as [->|H2].
      + rewrite lookup_insert_eq. by eexists.
      + rewrite lookup_insert_ne by done. eauto. }
  assert (∀ i, invitees i d' = if decide (i = inviter) then {[uid]} ∪ invitees i d else invitees i d)
    as Hin.
  { intros i. apply set_eq. intros u.
    assert (u ∈ invitees i d' ↔ (u = uid ∧ i = inviter) ∨ u ∈ invitees i d) as ->.
    { rewrite !elem_invitees. split.
      - intros (c' & Hc' & Hci). destruct (Hl u c' Hc') as (c & Hc & _ & E & _).
        rewrite E in Hci. destruct (decide (u = uid)); [left; split; congruence|right; eauto].
      - intros [[-> ->]|(c & Hc & Hci)].
        + destruct (Hl' uid a Ha) as (c' & Hc' & E). exists c'. by rewrite decide_True in E.
        + destruct (Hl' u c Hc) as (c' & Hc' & E). exists c'. split; [done|].
          destruct (decide (u = uid)) as [->|]; congruence. }
    destruct (decide (i = inviter)); rewrite ?elem_of_union, ?elem_of_singleton; tauto. }
  split; [split|].
  - intros u c' Hc'. destruct (Hl u c' Hc') as (c & Hc & -> & _). eauto.
  - intros u v c' e' Hc' He'. destruct (Hl u c' Hc') as (c & Hc & -> & _).
    destruct (Hl v e' He') as (e & He & -> & _). eauto.
  - intros u c' i Hc'. destruct (Hl u c' Hc') as (c & Hc & _ & -> & _).
    assert (∀ j, is_Some (affs d !! j) → is_Some (affs d' !! j)) as Hk.
    { intros j [c2 Hj]. destruct (Hl' j c2 Hj) as (c3 & -> & _). done. }
    destruct (decide (u = uid)) as [->|].
    + intros [= <-]. split; [congruence|]. apply Hk. eauto.
    + intros Hci. destruct (Hinv u c i Hc Hci) as [H1 H2]. auto.
  - intros u c' Hc'. destruct (Hl u c' Hc') as (c & Hc & _ & _ & ->). rewrite Hin.
    rewrite (Hcnt u c Hc). destruct (decide (u = inviter)) as [->|]; [|lia].
    rewrite size_union, size_singleton; [lia|]. intros v Hv%elem_of_singleton. subst v.
    rewrite elem_invitees. intros (c2 & Hc2 & Hi2). congruence.
  - intros u c i Hc Hci. destruct (Hl' u c Hc) as (c' & Hc' & E). exists c'. split; [done|].
    destruct (decide (u = uid)) as [->|]; congruence.
Qed.

Lemma code_ok d uid a code custom :
  affs d !! uid = Some a → code_taken uid code d = false → valid_code code → invitations_ok d →
  let d' := set_affs <[uid := set_code code custom a]> d in
  invitations_ok d' ∧ inviters_kept d d'.
Proof.
  intros Ha Ht Hc [Hval Huni Hinv Hcnt] d'.
  assert (∀ u c', affs d' !! u = Some c' → ∃ c, affs d !! u = Some c ∧
            aff_code c' = (if decide (u = uid) then code else aff_code c) ∧
            aff_inviter c' = aff_inviter c ∧ aff_count c' = aff_count c) as Hl.
  { intros u c'. unfold d'. cbn. destruct (decide (u = uid)) as [->|H1].
    - rewrite lookup_insert_eq. intros [= <-]. by exists a.
    - rewrite lookup_insert_ne by done. eauto. }
  assert (∀ u c, affs d !! u = Some c →
            ∃ c', affs d' !! u = Some c' ∧ aff_inviter c' = aff_inviter c) as Hl'.
  { intros u c Hu. unfold d'. cbn. destruct (decide (u = uid)) as [->|H1].
    - rewrite lookup_insert_eq. eexists. split; [done|]. cbn. congruence.
    - rewrite lookup_insert_ne by done. eauto. }
  assert (∀ i, invitees i d' = invitees i d) as Hin.
  { intros i. apply set_eq. intros u. rewrite !elem_invitees. split.
    - intros (c' & Hc' & Hi). destruct (Hl u c' Hc') as (c & Hu & _ & E & _). exists c. by rewrite <-E.
    - intros (c & Hu & Hi). destruct (Hl' u c Hu) as (c' & Hc' & E). exists c'. by rewrite E. }
  split; [split|].
  - intros u c' Hc'. destruct (Hl u c' Hc') as (c & Hu & -> & _). destruct (decide _); eauto.
  - intros u v c' e' Hc' He'. destruct (Hl u c' Hc') as (c & Hu & -> & _).
    destruct (Hl v e' He') as (e & Hv & -> & _).
    destruct (decide (u = uid)) as [->|], (decide (v = uid)) as [->|]; [done| | |eauto].
    + intros E. symmetry. by apply (code_free uid code d v e).
    + intros E. by apply (code_free uid code d u c).
  - intros u c' i Hc'. destruct (Hl u c' Hc') as (c & Hu & _ & -> & _). intros Hi.
    destruct (Hinv u c i Hu Hi) as [H1 [c2 H2]]. split; [done|].
    destruct (Hl' i c2 H2) as (c3 & -> & _). done.
  - intros u c' Hc'. destruct (Hl u c' Hc') as (c & Hu & _ & _ & ->). rewrite Hin. eauto.
  - intros u c i Hu Hi. destruct (Hl' u c Hu) as (c' & Hc' & E). exists c'. by rewrite E.
Qed.

Lemma event_invitations d d' :
  event d d' → invitations_ok d → invitations_ok d' ∧ inviters_kept d d'.
Proof.
  intros Hev Hok.
  assert (same_view d d' → invitations_ok d' ∧ inviters_kept d d') as Hsame
    by eauto using same_view_ok, same_view_kept.
  destruct Hev as [d uid code now Hu Ht Hc|d uid inviter a b Hne Ha Hi Hb
    |d uid a a' x e Ha Hx Hq Hu Hac Hz|d uid now m Hm|d uid a us e Ha Hq Hus Hu Hac Hf Hz
    |d uid a code custom Ha Ht Hc|d uid a r Ha].
  - split; [by apply join_ok|]. intros u a i Ha Hi. exists a. split; [|done]. cbn.
    rewrite lookup_insert_ne; [done|]. intros ->. congruence.
  - by apply bind_ok.
  - apply Hsame. eapply same_view_insert; [exact Ha| |reflexivity]. by eapply accrue_quota_view.
  - unfold thaw_affs in Hm. destruct (affs d !! uid) as [a|] eqn:Ha.
    + destruct (thaw_row _ a) as [a'|] eqn:Et; [|done]. injection Hm as <-. apply Hsame.
      eapply same_view_insert; [exact Ha| |reflexivity]. by eapply thaw_row_view.
    + injection Hm as <-. by apply Hsame.
  - apply Hsame. by eapply same_view_insert; [exact Ha| |reflexivity].
  - by apply code_ok.
  - apply Hsame. by eapply same_view_insert; [exact Ha| |reflexivity].
Qed.

Lemma any_event_invitations d d' :
  any_event d d' → invitations_ok d → invitations_ok d' ∧ inviters_kept d d'.
Proof.
  intros [Hev|(us & _ & ->)]; [by apply event_invitations|].
  intros Hok. by split; [apply (same_view_ok d)|apply same_view_kept].
Qed.

(** In any run of requests, whatever fails and in whatever order the
    statements take effect, a user's inviter never changes once it is set and is
    another user who has a profile, every code stays valid and belongs to one
    user, and the counter of every user is the number of users it has invited. *)
Theorem invitations_kept sched reqs s0 s ps :
  invitations_ok s0 → run sched (s0, serve <$> reqs) = (s, ps) →
  invitations_ok s ∧ inviters_kept s0 s.
Proof.
  intros Hok Hrun. pose proof (run_events _ _ _ _ _ Hrun) as Hev. clear Hrun.
  revert Hok. induction Hev as [d|d1 d2 d3 H12 _ IH]; intros Hok.
  { split; [done|]. intros u a i Ha Hi. eauto. }
  destruct (any_event_invitations _ _ H12 Hok) as [Hok2 Hk12]. destruct (IH Hok2) as [Hok3 Hk23].
  split; [done|]. intros u a i Ha Hi. destruct (Hk12 u a i Ha Hi) as (b & Hb & Hbi). eauto.
Qed.
End Invitations.

(** ** Money

    A float64 has fifteen decimal digits, so that amounts below ten million
    survive the way from a decimal(20,8) column to the program and back. *)

Definition exact_below : Z := 10 ^ 15.

Class PgExact `{PgFloat} := {
  money_exact : ∀ z, 0 ≤ z < exact_below →
                     f_finite (money z) = true ∧ (num (money z) == dec scale8 z)%Q;
  money_positive : ∀ z, 0 < z < exact_below → (f0 <ᶠ money z) = true;
}.

Lemma fle_flt x y : (x ≤ᶠ y) = true → (y <ᶠ x) = true → False.
Proof.
  unfold fle, flt, SFleb, SFltb. destruct x as [[]|[]| |[] mx ex], y as [[]|[]| |[] my ey];
    cbn; try done; intros H1 H2;
    rewrite (Z.compare_antisym ex ey) in H2; destruct (ex ?= ey)%Z; cbn in *; try done;
    change (Pos.compare_cont Eq ?a ?b) with (Pos.compare a b) in *;
    rewrite (Pos.compare_antisym mx my) in H2; by destruct (mx ?= my)%positive.
Qed.
Lemma fle_false_pos x : f_finite x = true → (x ≤ᶠ f0) = false → (f0 <ᶠ x) = true.
Proof. by destruct x as [[]|[]| |[]]. Qed.

Lemma round_half_away_plus z q :
  0 ≤ z → (0 <= q)%Q → round_half_away ((z # 1) + q) = z + round_half_away q.
Proof.
  destruct q as [n d]. unfold Qle, round_half_away. simpl. intros Hz Hn.
  assert (0 ≤ n) as Hn0 by lia.
  assert ((2 * Z.abs n + Z.pos d) / (2 * Z.pos d) = Z.sgn n * ((2 * Z.abs n + Z.pos d) / (2 * Z.pos d)))
    as Hsgn.
  { destruct (Z.eq_dec n 0) as [->|Hne].
    - by rewrite !Z.div_small by (simpl; lia).
    - rewrite Z.sgn_pos by lia. lia. }
  rewrite <-Hsgn. replace (n * 1) with n by lia.
  assert (z + (2 * Z.abs n + Z.pos d) / (2 * Z.pos d) =
          (2 * Z.abs (z * Z.pos d + n) + Z.pos d) / (2 * Z.pos d)) as ->.
  { rewrite <-Z.div_add_l by lia. f_equal. rewrite !Z.abs_eq by nia. lia. }
  destruct (Z.eq_dec (z * Z.pos d + n) 0) as [->|Hne].
  - by rewrite !Z.div_small by (simpl; lia).
  - rewrite Z.sgn_pos by nia. by rewrite Z.mul_1_l, Pos.mul_1_l.
Qed.

Section Amounts.
Context `{PF : PgFloat}.

Lemma to_dec8_Ok q z : to_dec8 q = Ok z ↔ store scale8 q = Some z.
Proof. unfold to_dec8. destruct (store scale8 q); naive_solver. Qed.

(** Adding what is not negative to what is not negative rounds the addend only. *)
Lemma add_dec8_round z x :
  0 ≤ z → (0 <= num x)%Q → f_finite x = true →
  let y := round_half_away (num x * (Z.pos scale8 # 1)) in
  0 ≤ y ∧ add_dec8 z x = (if z + y <? 10 ^ 20 then Ok (z + y) else Err ErrAffSQL) ∧
  float_dec8 x = (if y <? 10 ^ 20 then Ok y else Err ErrAffSQL).
Proof.
  intros Hz Hx Hfin y. assert (0 ≤ y) as Hy.
  { apply round_half_away_nonneg, Qmult_le_0_compat; [done|]. unfold Qle. simpl. lia. }
  unfold add_dec8, float_dec8, to_dec8, store. rewrite Hfin. fold y. split; [done|].
  assert (((dec scale8 z + num x) * (Z.pos scale8 # 1) == (z # 1) + num x * (Z.pos scale8 # 1))%Q) as Hq.
  { unfold dec, Qeq, Qplus, Qmult. simpl. lia. }
  rewrite (round_half_away_proper _ _ Hq), round_half_away_plus; [fold y|done|].
  - rewrite !Z.abs_eq by lia. split; by destruct (_ <? _).
  - apply Qmult_le_0_compat; [done|]. unfold Qle. simpl. lia.
Qed.
Lemma add_dec8_plus z x r :
  0 ≤ z → (0 <= num x)%Q → add_dec8 z x = Ok r → ∃ y, float_dec8 x = Ok y ∧ r = z + y ∧ 0 ≤ y.
Proof.
  intros Hz Hx Hr. assert (f_finite x = true) as Hfin by (unfold add_dec8 in Hr; by destruct (f_finite x)).
  destruct (add_dec8_round z x Hz Hx Hfin) as (Hy & Ha & Hf). rewrite Ha in Hr.
  destruct (Z.ltb_spec (z + round_half_away (num x * (Z.pos scale8 # 1))) (10 ^ 20)); [|done].
  injection Hr as <-. eexists. split; [|split; [reflexivity|done]]. rewrite Hf.
  by destruct (Z.ltb_spec (round_half_away (num x * (Z.pos scale8 # 1))) (10 ^ 20)); [|lia].
Qed.
Lemma add_dec8_intro z x y :
  0 ≤ z → (0 <= num x)%Q → float_dec8 x = Ok y → z + y < 10 ^ 20 → add_dec8 z x = Ok (z + y).
Proof.
  intros Hz Hx Hr Hb. assert (f_finite x = true) as Hfin by (unfold float_dec8 in Hr; by destruct (f_finite x)).
  destruct (add_dec8_round z x Hz Hx Hfin) as (Hy & Ha & Hf). rewrite Hf in Hr.
  destruct (_ <? _) in Hr; [|done]. injection Hr as <-. rewrite Ha.
  by destruct (Z.ltb_spec (z + round_half_away (num x * (Z.pos scale8 # 1))) (10 ^ 20)); [|lia].
Qed.
Lemma add_dec8_exact z x y r : (num x == dec scale8 y)%Q → add_dec8 z x = Ok r → r = z + y.
Proof.
  intros Hx. unfold add_dec8. destruct (f_finite x); [|done]. rewrite to_dec8_Ok.
  apply store_exact_inv. rewrite Hx. apply dec_plus.
Qed.
Lemma float_dec8_exact x y r : (num x == dec scale8 y)%Q → float_dec8 x = Ok r → r = y.
Proof.
  intros Hx. unfold float_dec8. destruct (f_finite x); [|done]. rewrite to_dec8_Ok.
  by apply store_exact_inv.
Qed.
Lemma move_thawed_exact x y a a' :
  (num x == dec scale8 y)%Q → y ≤ aff_frozen a → move_thawed x a = Ok a' →
  a' = set_quotas (aff_quota a + y) (aff_frozen a - y) (aff_history a) a.
Proof.
  intros Hx Hy. unfold move_thawed. destruct (add_dec8 (aff_quota a) x) as [q|] eqn:Eq; [|done].
  cbn [rbind]. apply (add_dec8_exact _ _ y) in Eq as ->; [|done]. destruct (f_finite x); [|done].
  assert ((dec scale8 (aff_frozen a) - num x == dec scale8 (aff_frozen a - y))%Q) as Hd
    by (rewrite Hx; apply dec_minus).
  assert (Qle_bool 0 (dec scale8 (aff_frozen a) - num x) = true) as ->.
  { apply Qle_bool_iff. rewrite Hd. unfold dec, Qle. simpl. lia. }
  destruct (to_dec8 _) as [f|] eqn:Ef; [|done]. apply to_dec8_Ok in Ef.
  apply (store_exact_inv _ _ (aff_frozen a - y)) in Ef as ->; [|done]. cbn [rbind]. by intros [= <-].
Qed.
End Amounts.

(** ** Sums over the ledger *)

Lemma sumZ_cons x l : sumZ (x :: l) = x + sumZ l.
Proof. done. Qed.
Lemma sumZ_app l l' : sumZ (l ++ l') = sumZ l + sumZ l'.
Proof. induction l as [|x l IH]; [done|]. cbn [app]. rewrite !sumZ_cons. lia. Qed.

Section Sums.
Context (P : Entry → Prop) `{∀ e, Decision (P e)}.

Definition total (es : list Entry) : Z := sumZ (e_amount <$> filter P es).

Lemma total_snoc es e : total (es ++ [e]) = total es + (if decide (P e) then e_amount e else 0).
Proof.
  unfold total. rewrite filter_app, fmap_app, sumZ_app, filter_cons, filter_nil.
  destruct (decide (P e)); rewrite ?fmap_cons, ?sumZ_cons; cbn; lia.
Qed.
Lemma total_nonneg es : Forall (λ e, 0 ≤ e_amount e) es → 0 ≤ total es.
Proof.
  unfold total. induction 1 as [|e es He _ IH]; [done|]. rewrite filter_cons.
  destruct (decide (P e)); rewrite ?fmap_cons, ?sumZ_cons; lia.
Qed.
Lemma total_none es : Forall (λ e, ¬ P e) es → total es = 0.
Proof.
  unfold total. induction 1 as [|e es He _ IH]; [done|]. rewrite filter_cons. by rewrite decide_False.
Qed.
End Sums.

(** Thawing changes the time of an entry only. *)
Definition thaw_at (uid : Z) (now : time) (e : Entry) : Entry :=
  if matured uid now e then thaw_entry e else e.
Lemma total_thaw_other (P : Entry → Prop) `{∀ e, Decision (P e)} uid now es :
  (∀ e, P (thaw_at uid now e) ↔ P e) → total P (thaw_at uid now <$> es) = total P es.
Proof.
  intros HP. unfold total. induction es as [|e es IH]; [done|]. rewrite fmap_cons, !filter_cons.
  rewrite (decide_ext (P (thaw_at uid now e)) (P e)) by done.
  destruct (decide (P e)); [|done]. rewrite !fmap_cons, !sumZ_cons, IH. f_equal.
  unfold thaw_at. by destruct (matured uid now e).
Qed.

Definition is_frozen_of (u : Z) (e : Entry) : Prop := e_user e = u ∧ e_frozen_until e ≠ None.
#[global] Instance is_frozen_of_dec u e : Decision (is_frozen_of u e).
Proof. unfold is_frozen_of. apply _. Defined.

Lemma matured_frozen uid now e : matured uid now e = true → is_frozen_of uid e.
Proof.
  unfold matured, is_frozen_of. rewrite andb_true_iff, Z.eqb_eq. intros [-> Hf].
  by destruct (e_frozen_until e).
Qed.
Lemma total_thaw_frozen uid now u es :
  total (is_frozen_of u) (thaw_at uid now <$> es) =
  total (is_frozen_of u) es - (if decide (u = uid) then total (λ e, matured uid now e) es else 0).
Proof.
  unfold total. induction es as [|e es IH]; [by destruct (decide _)|].
  rewrite fmap_cons, !filter_cons.
  assert (thaw_at uid now e = if matured uid now e then thaw_entry e else e) as -> by done.
  destruct (matured uid now e) eqn:Em.
  - pose proof (matured_frozen _ _ _ Em) as [Hu Hf]. rewrite (decide_False (P := is_frozen_of u (thaw_entry e)))
      by (intros [_ Hn]; by apply Hn).
    destruct (decide (u = uid)) as [->|Hne].
    + rewrite !decide_True by done. rewrite !fmap_cons, !sumZ_cons, IH. lia.
    + rewrite (decide_False (P := is_frozen_of u e)) by (intros [Hu' _]; congruence).
      rewrite IH. lia.
  - rewrite (decide_False (P := Is_true false)) by (intros []).
    destruct (decide (is_frozen_of u e)); [|exact IH]. rewrite !fmap_cons, !sumZ_cons, IH. lia.
Qed.
Lemma total_matured_le uid now es :
  Forall (λ e, 0 ≤ e_amount e) es →
  0 ≤ total (λ e, matured uid now e) es ≤ total (is_frozen_of uid) es.
Proof.
  intros He. split; [by apply total_nonneg|].
  assert (Forall (λ e, 0 ≤ e_amount e) (thaw_at uid now <$> es)) as He'.
  { apply Forall_fmap. eapply Forall_impl; [exact He|]. intros e Ha. unfold compose, thaw_at.
    by destruct (matured uid now e). }
  pose proof (total_nonneg (is_frozen_of uid) _ He') as Hn. rewrite total_thaw_frozen in Hn.
  rewrite decide_True in Hn by done. lia.
Qed.

(** ** The ledger *)

Section Ledger.
Context `{GT : GoText} `{PF : PgFloat} `{GP : GoParse}.

(** Every quota is what the ledger says: what was ever accrued is available,
    frozen, or was transferred. *)
Record ledger_ok (d : AffDB) : Prop := {
  lo_row : ∀ u a, affs d !! u = Some a →
    0 ≤ aff_quota a ∧ aff_frozen a = still_frozen u d ∧ aff_history a = accrued u d ∧
    aff_history a = aff_quota a + aff_frozen a + transferred u d;
  lo_entries : Forall (λ e, 0 ≤ e_amount e ∧ is_Some (affs d !! e_user e)) (entries d);
}.
Definition bounded (d : AffDB) : Prop := ∀ u a, affs d !! u = Some a → aff_history a < exact_below.
Definition histories_ok (d : AffDB) : Prop := ∀ u a, affs d !! u = Some a → 0 ≤ aff_history a.

Lemma ledger_amounts d : ledger_ok d → Forall (λ e, 0 ≤ e_amount e) (entries d).
Proof. intros [_ He]. eapply Forall_impl; [exact He|]. by intros e []. Qed.
Lemma ledger_nonneg d u :
  ledger_ok d → 0 ≤ accrued u d ∧ 0 ≤ transferred u d ∧ 0 ≤ still_frozen u d.
Proof. intros Hok%ledger_amounts. split_and!; by apply total_nonneg. Qed.
Lemma ledger_histories d : ledger_ok d → histories_ok d.
Proof. intros Hok u a Ha. destruct (lo_row d Hok u a Ha) as (_ & _ & -> & _). by apply ledger_nonneg. Qed.

Context `{!PgFloatLaws} `{!PgExact}.

Lemma num_nonneg x : f_finite x = true → (x ≤ᶠ f0) = false → (0 <= num x)%Q.
Proof.
  intros Hf Hx. apply Qlt_le_weak, Qltb_iff, num_pos; [done|]. by apply fle_false_pos.
Qed.

Lemma accrue_quota_exact x frozen a a' z :
  (x ≤ᶠ f0) = false → float_dec8 x = Ok z →
  0 ≤ aff_history a → 0 ≤ aff_quota a → 0 ≤ aff_frozen a → accrue_quota x frozen a = Ok a' →
  0 ≤ z ∧ a' = if frozen then set_quotas (aff_quota a) (aff_frozen a + z) (aff_history a + z) a
               else set_quotas (aff_quota a + z) (aff_frozen a) (aff_history a + z) a.
Proof.
  intros Hx Hz Hh Hq Hf. assert (f_finite x = true) as Hfin.
  { unfold float_dec8 in Hz. by destruct (f_finite x). }
  pose proof (num_nonneg x Hfin Hx) as Hn. unfold accrue_quota.
  assert (∀ v r, 0 ≤ v → add_dec8 v x = Ok r → 0 ≤ z ∧ r = v + z) as Hadd.
  { intros v r Hv Hr. destruct (add_dec8_plus v x r Hv Hn Hr) as (y & Hy & -> & ?).
    rewrite Hz in Hy. by injection Hy as <-. }
  destruct (add_dec8 (aff_history a) x) as [h|] eqn:Eh; [|done]. apply Hadd in Eh as [Hz0 ->]; [|done].
  cbn [rbind]. intros Ha. split; [done|]. revert Ha. destruct frozen.
  - destruct (add_dec8 (aff_frozen a) x) as [f|] eqn:Ef; [|done].
    apply Hadd in Ef as [_ ->]; [|done]. by intros [= <-].
  - destruct (add_dec8 (aff_quota a) x) as [q|] eqn:Eq; [|done].
    apply Hadd in Eq as [_ ->]; [|done]. by intros [= <-].
Qed.

Definition money_view (a : Aff) : Z * Z * Z := (aff_quota a, aff_frozen a, aff_history a).
Lemma same_money_ok d d' :
  (∀ u, money_view <$> affs d' !! u = money_view <$> affs d !! u) → entries d' = entries d →
  ledger_ok d → ledger_ok d'.
Proof.
  intros Hv He [Hrow Hes]. split.
  - intros u a' Hu. specialize (Hv u). rewrite Hu in Hv. destruct (affs d !! u) as [a|] eqn:Ha; [|done].
    injection Hv as -> -> ->. unfold still_frozen, accrued, transferred. rewrite He. by apply Hrow.
  - rewrite He. eapply Forall_impl; [exact Hes|]. intros e [H1 H2]. split; [done|].
    specialize (Hv (e_user e)). destruct (affs d !! e_user e); [|by destruct H2].
    by destruct (affs d' !! e_user e).
Qed.
Lemma insert_view {B} (f : Aff → B) (m : gmap Z Aff) uid a a' u :
  m !! uid = Some a → f a' = f a → f <$> <[uid := a']> m !! u = f <$> m !! u.
Proof.
  intros Ha Hf. destruct (decide (u = uid)) as [->|].
  - by rewrite lookup_insert_eq, Ha; simpl; rewrite Hf.
  - by rewrite lookup_insert_ne.
Qed.

(** A row and the entry written with it. *)
Lemma row_entry_ok d d' uid a a' e :
  affs d !! uid = Some a → affs d' = <[uid := a']> (affs d) → entries d' = entries d ++ [e] →
  e_user e = uid → 0 ≤ e_amount e → 0 ≤ aff_quota a' →
  aff_frozen a' = aff_frozen a + (if decide (e_frozen_until e = None) then 0 else e_amount e) →
  aff_history a' = aff_history a + (if decide (e_action e = Accrue) then e_amount e else 0) →
  aff_quota a' + aff_frozen a' + (if decide (e_action e = Accrue) then 0 else e_amount e) =
    aff_quota a + aff_frozen a + (if decide (e_action e = Accrue) then e_amount e else 0) →
  ledger_ok d → ledger_ok d'.
Proof.
  intros Ha Hm He Hu Hz Hq Hf Hh Hsum [Hrow Hes]. split.
  - intros u b. rewrite Hm. unfold still_frozen, accrued, transferred.
    change (sumZ (e_amount <$> filter ?P ?l)) with (total P l). rewrite He, !total_snoc.
    destruct (decide (u = uid)) as [->|Hne].
    + rewrite lookup_insert_eq. intros [= <-]. destruct (Hrow uid a Ha) as (H1 & H2 & H3 & H4).
      unfold still_frozen, accrued, transferred in *.
      change (sumZ (e_amount <$> filter ?P ?l)) with (total P l) in *.
      destruct (decide (e_frozen_until e = None)) as [Hn|Hn],
               (e_action e) eqn:Eac; simpl in Hh, Hsum;
        repeat (first [rewrite decide_True by (split; congruence)
                      |rewrite decide_False by (intros [? ?]; congruence)]);
        split_and!; lia.
    + rewrite lookup_insert_ne by done. intros Hb. destruct (Hrow u b Hb) as (H1 & H2 & H3 & H4).
      rewrite !decide_False by (intros [? _]; congruence). rewrite !Z.add_0_r. done.
  - rewrite He. apply Forall_app. rewrite Hm. split; [|constructor; [|done]].
    + eapply Forall_impl; [exact Hes|]. intros e' [H1 H2]. split; [done|].
      rewrite lookup_insert_is_Some'. by right.
    + split; [done|]. rewrite Hu, lookup_insert_eq. done.
Qed.

(** What thawing does to the rows. *)
Lemma thaw_affs_exact d uid now m :
  thaw_affs uid (money (matured_sum uid now d)) (affs d) = Ok m → bounded d → ledger_ok d →
  ∀ u a, m !! u = Some a → ∃ b, affs d !! u = Some b ∧ aff_history a = aff_history b ∧
    aff_quota a = aff_quota b + (if decide (u = uid) then matured_sum uid now d else 0) ∧
    aff_frozen a = aff_frozen b - (if decide (u = uid) then matured_sum uid now d else 0).
Proof.
  intros Hm Hb Hok u a Hu. pose proof (total_matured_le uid now _ (ledger_amounts d Hok)) as [Hms0 Hms].
  change (total (λ e, matured uid now e) (entries d)) with (matured_sum uid now d) in Hms0, Hms.
  change (total (is_frozen_of uid) (entries d)) with (still_frozen uid d) in Hms.
  unfold thaw_affs in Hm. destruct (affs d !! uid) as [b|] eqn:Hrow.
  2:{ injection Hm as <-. exists a. rewrite decide_False by congruence. split_and!; try done; lia. }
  destruct (lo_row d Hok uid b Hrow) as (Hq & Hf & _ & Hh). pose proof (Hb uid b Hrow) as Hbd.
  pose proof (ledger_nonneg d uid Hok) as (_ & Ht & _).
  set (ms := matured_sum uid now d) in *.
  destruct (money_exact ms) as [Hfin Hnum]; [lia|].
  assert (thaw_row (money ms) b = Ok (set_quotas (aff_quota b + ms) (aff_frozen b - ms) (aff_history b) b)
          ∨ thaw_row (money ms) b = Err ErrAffSQL ∨ thaw_row (money ms) b = Ok b ∧ ms = 0) as Hcase.
  { unfold thaw_row. destruct (money ms ≤ᶠ f0) eqn:Ex.
    - right; right. split; [done|]. destruct (Z.eq_dec ms 0) as [|Hne]; [done|].
      exfalso. eapply fle_flt; [exact Ex|]. apply money_positive. lia.
    - destruct (move_thawed (money ms) b) as [b'|e] eqn:Em.
      + left. by rewrite (move_thawed_exact _ ms b b' Hnum ltac:(lia) Em).
      + right; left. f_equal. revert Em. unfold move_thawed, add_dec8. rewrite Hfin. unfold to_dec8.
        repeat (destruct (store _ _); cbn [rbind]); congruence. }
  destruct (decide (u = uid)) as [->|Hne].
  - exists b. destruct Hcase as [E|[E|[E ->]]]; rewrite E in Hm; try done; injection Hm as <-;
      rewrite lookup_insert_eq in Hu; injection Hu as <-; split_and!; done || lia.
  - exists a. destruct (thaw_row _ b); [|done]. injection Hm as <-. rewrite lookup_insert_ne in Hu by done.
    split_and!; done || lia.
Qed.

Lemma thaw_ok d uid now m :
  thaw_affs uid (money (matured_sum uid now d)) (affs d) = Ok m → bounded d → ledger_ok d →
  ledger_ok (set_affs (λ _, m) (thaw_entries uid now d)).
Proof.
  intros Hm Hb Hok. split.
  - intros u a Hu. destruct (thaw_affs_exact d uid now m Hm Hb Hok u a Hu) as (b & Hrow & -> & -> & ->).
    destruct (lo_row d Hok u b Hrow) as (Hq & Hf & Hacc & Hh).
    pose proof (total_matured_le uid now _ (ledger_amounts d Hok)) as [Hms0 _].
    change (total (λ e, matured uid now e) (entries d)) with (matured_sum uid now d) in Hms0.
    assert (accrued u (set_affs (λ _, m) (thaw_entries uid now d)) = accrued u d) as ->.
    { apply (total_thaw_other (λ e, e_user e = u ∧ e_action e = Accrue)). intros e.
      unfold thaw_at. by destruct (matured uid now e). }
    assert (transferred u (set_affs (λ _, m) (thaw_entries uid now d)) = transferred u d) as ->.
    { apply (total_thaw_other (λ e, e_user e = u ∧ e_action e = Transfer)). intros e.
      unfold thaw_at. by destruct (matured uid now e). }
    assert (still_frozen u (set_affs (λ _, m) (thaw_entries uid now d)) =
            still_frozen u d - (if decide (u = uid) then matured_sum uid now d else 0)) as ->
      by apply total_thaw_frozen.
    split_and!; [destruct (decide _); lia|lia|done|lia].
  - cbn. apply Forall_fmap. eapply Forall_impl; [exact (lo_entries d Hok)|].
    intros e [H1 H2]. unfold compose.
    assert (is_Some (m !! e_user e)) as Hk.
    { unfold thaw_affs in Hm. destruct (affs d !! uid); [|by injection Hm as <-].
      destruct (thaw_row _ _); [|done]. injection Hm as <-. rewrite lookup_insert_is_Some'. by right. }
    destruct (matured uid now e); by split.
Qed.

Lemma event_ledger d d' : event d d' → bounded d → ledger_ok d → ledger_ok d'.
Proof.
  intros Hev Hb Hok.
  destruct Hev as [d uid code now Hu Ht Hc|d uid inviter a b Hne Ha Hi Hib
    |d uid a a' x e Ha Hx Hq Hu Hac Hz|d uid now m Hm|d uid a us e Ha Hq Hus Hu Hac Hf Hz
    |d uid a code custom Ha Ht Hc|d uid a r Ha].
  - split.
    + intros u a. cbn. destruct (decide (u = uid)) as [->|Hne].
      * rewrite lookup_insert_eq. intros [= <-].
        assert (∀ P `{∀ e, Decision (P e)}, (∀ e, P e → e_user e = uid) → total P (entries d) = 0) as Hno.
        { intros P ? HP. apply total_none. eapply Forall_impl; [exact (lo_entries d Hok)|].
          intros e [_ [a Hr]] He. rewrite (HP e He) in Hr. congruence. }
        change (0 ≤ 0 ∧ 0 = total (is_frozen_of uid) (entries d) ∧
                0 = total (λ e, e_user e = uid ∧ e_action e = Accrue) (entries d) ∧
                0 = 0 + 0 + total (λ e, e_user e = uid ∧ e_action e = Transfer) (entries d)).
        rewrite !Hno by (unfold is_frozen_of; tauto). done.
      * rewrite lookup_insert_ne by done. apply (lo_row d Hok).
    + eapply Forall_impl; [exact (lo_entries d Hok)|]. intros e [H1 H2]. split; [done|]. cbn.
      rewrite lookup_insert_is_Some'. by right.
  - apply (same_money_ok d); [|done|done]. intros u. cbn.
    rewrite (insert_view _ _ inviter b); [|by rewrite lookup_insert_ne|done].
    by apply (insert_view _ _ uid a).
  - destruct (lo_row d Hok uid a Ha) as (H1 & H2 & H3 & H4).
    destruct (ledger_nonneg d uid Hok) as (H5 & H6 & H7).
    apply (accrue_quota_exact _ _ _ _ (e_amount e)) in Hq as [Hz0 ->]; try done; try lia.
    eapply (row_entry_ok d _ uid a _ e Ha); [reflexivity|reflexivity|done|done|..|done];
      rewrite ?Hac; destruct (e_frozen_until e); cbn; repeat destruct (decide _); done || lia.
  - by apply thaw_ok.
  - destruct (lo_row d Hok uid a Ha) as (H1 & H2 & H3 & H4).
    destruct (ledger_nonneg d uid Hok) as (H5 & H6 & H7). pose proof (Hb uid a Ha) as Hbd.
    destruct (money_exact (aff_quota a)) as [Hfin Hnum]; [lia|].
    apply (float_dec8_exact _ _ _ Hnum) in Hz.
    eapply (row_entry_ok d _ uid a _ e Ha); [reflexivity|reflexivity|done|lia|..|done];
      rewrite ?Hac, ?Hf; cbn; repeat destruct (decide _); done || lia.
  - apply (same_money_ok d); [|done|done]. intros u. by apply (insert_view _ _ uid a).
  - apply (same_money_ok d); [|done|done]. intros u. by apply (insert_view _ _ uid a).
Qed.

(** What was ever accrued only grows. *)
Definition grown (d d' : AffDB) : Prop :=
  ∀ u a, affs d !! u = Some a → ∃ a', affs d' !! u = Some a' ∧ aff_history a ≤ aff_history a'.

Lemma row_grown d d' uid a a' :
  affs d !! uid = Some a → affs d' = <[uid := a']> (affs d) → aff_history a ≤ aff_history a' →
  histories_ok d → histories_ok d' ∧ grown d d'.
Proof.
  intros Ha Hm Hle Hok. split.
  - intros u b. rewrite Hm. destruct (decide (u = uid)) as [->|Hne].
    + rewrite lookup_insert_eq. intros [= <-]. pose proof (Hok _ _ Ha). lia.
    + rewrite lookup_insert_ne by done. apply Hok.
  - intros u b Hb. rewrite Hm. destruct (decide (u = uid)) as [->|Hne].
    + rewrite lookup_insert_eq. exists a'. split; [done|]. congruence.
    + rewrite lookup_insert_ne by done. exists b. by split.
Qed.
Lemma grown_refl d : grown d d.
Proof. intros u a Ha. exists a. by split. Qed.
Lemma grown_trans d1 d2 d3 : grown d1 d2 → grown d2 d3 → grown d1 d3.
Proof.
  intros H12 H23 u a Ha. destruct (H12 u a Ha) as (b & Hb & Hab).
  destruct (H23 u b Hb) as (c & Hc & Hbc). exists c. split; [done|lia].
Qed.
Lemma grown_bounded d d' : grown d d' → bounded d' → bounded d.
Proof.
  intros Hg Hb u a Ha. destruct (Hg u a Ha) as (a' & Ha' & Hle). pose proof (Hb u a' Ha'). lia.
Qed.

Lemma event_grown d d' : event d d' → histories_ok d → histories_ok d' ∧ grown d d'.
Proof.
  intros Hev Hok.
  destruct Hev as [d uid code now Hu Ht Hc|d uid inviter a b Hne Ha Hi Hib
    |d uid a a' x e Ha Hx Hq Hu Hac Hz|d uid now m Hm|d uid a us e Ha Hq Hus Hu Hac Hf Hz
    |d uid a code custom Ha Ht Hc|d uid a r Ha].
  - split.
    + intros u a. cbn. destruct (decide (u = uid)) as [->|Hne].
      * rewrite lookup_insert_eq. by intros [= <-].
      * rewrite lookup_insert_ne by done. apply Hok.
    + intros u a Ha. exists a. cbn. rewrite lookup_insert_ne by congruence. by split.
  - destruct (row_grown d (set_affs <[uid := set_inviter inviter a]> d) uid a (set_inviter inviter a)
                Ha eq_refl ltac:(done) Hok) as [Hok1 Hg1].
    destruct (row_grown (set_affs <[uid := set_inviter inviter a]> d) (set_affs <[inviter := set_count (aff_count b + 1) b]>
                             (set_affs <[uid := set_inviter inviter a]> d))
                inviter b (set_count (aff_count b + 1) b)
                ltac:(by cbn; rewrite lookup_insert_ne) eq_refl ltac:(done) Hok1) as [Hok2 Hg2].
    split; [exact Hok2|exact (grown_trans _ _ _ Hg1 Hg2)].
  - eapply row_grown; [exact Ha|reflexivity| |done]. unfold accrue_quota in Hq.
    destruct (add_dec8 (aff_history a) x) as [h|] eqn:Eh; [|done]. cbn [rbind] in Hq.
    assert (aff_history a ≤ h).
    { apply add_dec8_plus in Eh as (y & _ & -> & Hy); [lia|by eapply Hok|].
      apply num_nonneg; [|done]. unfold float_dec8 in Hz. by destruct (f_finite x). }
    destruct (bool_decide _); [destruct (add_dec8 (aff_frozen a) x)|destruct (add_dec8 (aff_quota a) x)];
      try done; cbn [rbind] in Hq; by injection Hq as <-.
  - unfold thaw_affs in Hm. destruct (affs d !! uid) as [a|] eqn:Ha.
    + destruct (thaw_row _ a) as [a'|] eqn:Et; [|done]. injection Hm as <-.
      eapply row_grown; [exact Ha|reflexivity| |done]. unfold thaw_row, move_thawed in Et.
      destruct (_ ≤ᶠ f0); [by injection Et as <-|].
      destruct (add_dec8 (aff_quota a) _); [|done]. cbn [rbind] in Et.
      destruct (f_finite _); [|done]. destruct (to_dec8 _); [|done]. by injection Et as <-.
    + injection Hm as <-. split; [exact Hok|exact (grown_refl d)].
  - by eapply row_grown; [exact Ha|reflexivity| |done].
  - by eapply row_grown; [exact Ha|reflexivity| |done].
  - by eapply row_grown; [exact Ha|reflexivity| |done].
Qed.
Lemma any_event_ledger d d' : any_event d d' → bounded d → ledger_ok d → ledger_ok d'.
Proof. intros [Hev|(us & _ & ->)]; [by apply event_ledger|]. intros _. by apply same_money_ok. Qed.
Lemma any_event_grown d d' : any_event d d' → histories_ok d → histories_ok d' ∧ grown d d'.
Proof. intros [Hev|(us & _ & ->)]; [by apply event_grown|]. intros Hok. split; [exact Hok|exact (grown_refl d)]. Qed.
Lemma events_grown d d' : rtc any_event d d' → histories_ok d → grown d d'.
Proof.
  induction 1 as [d|d1 d2 d3 H12 _ IH]; intros Hok; [apply grown_refl|].
  destruct (any_event_grown _ _ H12 Hok) as [Hok2 Hg]. eapply grown_trans; eauto.
Qed.

Lemma events_ledger d d' : rtc any_event d d' → bounded d' → ledger_ok d → ledger_ok d'.
Proof.
  induction 1 as [d|d1 d2 d3 H12 H23 IH]; intros Hb Hok; [done|]. apply IH; [done|].
  pose proof (ledger_histories _ Hok) as Hh. destruct (any_event_grown _ _ H12 Hh) as [Hh2 Hg].
  pose proof (events_grown _ _ H23 Hh2) as Hg2.
  eapply any_event_ledger; [exact H12| |done]. by eapply grown_bounded, grown_bounded.
Qed.

(** The balance and the recharge total of every user rise by what the ledger
    says was transferred, and by nothing else. *)
Definition paid_out (d d' : AffDB) : Prop :=
  ∀ u x, af_users d !! u = Some x → ∃ x', af_users d' !! u = Some x' ∧
    au_balance x' - au_balance x = transferred u d' - transferred u d ∧
    au_recharged x' - au_recharged x = transferred u d' - transferred u d.

Lemma paid_out_refl d d' :
  af_users d' = af_users d → (∀ u, transferred u d' = transferred u d) → paid_out d d'.
Proof. intros Hus Ht u x Hx. exists x. rewrite Hus, Ht. split_and!; done || lia. Qed.
Lemma paid_out_trans d1 d2 d3 : paid_out d1 d2 → paid_out d2 d3 → paid_out d1 d3.
Proof.
  intros H12 H23 u x Hx. destruct (H12 u x Hx) as (y & Hy & Hb & Hr).
  destruct (H23 u y Hy) as (z & Hz & Hb' & Hr'). exists z. split_and!; done || lia.
Qed.

Lemma event_pays d d' : event d d' → bounded d → ledger_ok d → paid_out d d'.
Proof.
  intros Hev Hb Hok.
  destruct Hev as [d uid code now Hu Ht Hc|d uid inviter a b Hne Ha Hi Hib
    |d uid a a' x e Ha Hx Hq Hu Hac Hz|d uid now m Hm|d uid a us e Ha Hq Hus Hu Hac Hf Hz
    |d uid a code custom Ha Ht Hc|d uid a r Ha]; try by apply paid_out_refl.
  - apply paid_out_refl; [done|]. intros u.
    change (total (λ e, e_user e = u ∧ e_action e = Transfer) (entries d ++ [e]) =
            total (λ e, e_user e = u ∧ e_action e = Transfer) (entries d)).
    rewrite total_snoc, decide_False by (intros [_ E]; congruence). lia.
  - apply paid_out_refl; [done|]. intros u.
    apply (total_thaw_other (λ e, e_user e = u ∧ e_action e = Transfer)). intros e.
    unfold thaw_at. by destruct (matured uid now e).
  - destruct (lo_row d Hok uid a Ha) as (H1 & H2 & H3 & H4).
    destruct (ledger_nonneg d uid Hok) as (H5 & H6 & H7). pose proof (Hb uid a Ha) as Hbd.
    destruct (money_exact (aff_quota a)) as [Hfin Hnum]; [lia|].
    apply (float_dec8_exact _ _ _ Hnum) in Hz.
    destruct Hus as (y & b & r & Hy & Hbal & Hrec & ->).
    apply (add_dec8_exact _ _ _ _ Hnum) in Hbal as ->. apply (add_dec8_exact _ _ _ _ Hnum) in Hrec as ->.
    intros u x Hx. set (d' := set_entries _ _).
    assert (transferred u d' = transferred u d + (if decide (e_user e = u ∧ e_action e = Transfer) then e_amount e else 0))
      as -> by exact (total_snoc (λ e, e_user e = u ∧ e_action e = Transfer) (entries d) e).
    cbn [d' set_entries set_af_users set_affs af_users].
    destruct (decide (u = uid)) as [->|Hne].
    + rewrite lookup_insert_eq, decide_True by done. eexists. split; [reflexivity|]. simplify_eq/=. lia.
    + rewrite lookup_insert_ne, decide_False by (done || (intros [? _]; congruence)).
      exists x. split; [done|lia].
Qed.
Lemma events_pay d d' : rtc event d d' → bounded d' → ledger_ok d → paid_out d d'.
Proof.
  induction 1 as [d|d1 d2 d3 H12 H23 IH]; intros Hb Hok; [by apply paid_out_refl|].
  destruct (event_grown _ _ H12 (ledger_histories _ Hok)) as [Hh2 Hg].
  assert (rtc any_event d2 d3) as H23' by (eapply rtc_subrel; [|exact H23]; by left).
  assert (bounded d2) as Hb2 by (eapply grown_bounded; [exact (events_grown _ _ H23' Hh2)|done]).
  assert (bounded d1) as Hb1 by (eapply grown_bounded; [exact Hg|done]).
  eapply paid_out_trans; [by apply event_pays|]. apply IH; [done|]. by eapply event_ledger.
Qed.

(** C25: no rebate is lost and none is paid twice: in any run of requests,
    whatever statements and commits fail and in whatever order they take effect,
    the history of every user is the sum of its accruals in the ledger, what is
    frozen is the sum of the entries that are not yet thawed, and the history is
    what is available, frozen, or was transferred to the balance; and whatever a
    request on rebates does next, every user's balance and recharge total rise by
    exactly the transfers that it writes into the user's ledger.  Other statements of
    the server on users leave the ledger alone.  (While every history is below ten
    million, which a float carries exactly.) *)
Theorem rebates_conserved sched m reqs s0 s ps s' ps' :
  ledger_ok s0 → run sched (s0, serve <$> reqs) = (s, ps) → pool_step (s, ps) m = (s', ps') → bounded s' →
  ledger_ok s ∧ ledger_ok s' ∧
  ((∀ f, reqs !! fst m ≠ Some (RqOther f)) →
   ∀ u x, af_users s !! u = Some x → ∃ x', af_users s' !! u = Some x' ∧
     au_balance x' - au_balance x = transferred u s' - transferred u s ∧
     au_recharged x' - au_recharged x = transferred u s' - transferred u s) ∧
  (∀ f, reqs !! fst m = Some (RqOther f) → entries s' = entries s ∧ affs s' = affs s).
Proof.
  intros Hok Hrun Hm Hb. pose proof (run_events _ _ _ _ _ Hrun) as Hs.
  destruct (acts_run_at (step_at reqs) _ _ _ _ _ (served_acts reqs) Hrun) as [_ Hps].
  destruct (acts_step_at (step_at reqs) _ _ _ _ _ Hps Hm) as [Hstep _].
  assert (rtc any_event s s') as Hs' by (destruct Hstep as [->|Hstep]; [done|by eapply step_at_events]).
  assert (bounded s) as Hbs.
  { eapply grown_bounded; [|exact Hb]. apply events_grown; [done|].
    clear -Hok Hs H H0. apply ledger_histories in Hok. induction Hs as [|d1 d2 d3 H12 _ IH]; [done|].
    apply IH. by destruct (any_event_grown _ _ H12 Hok). }
  pose proof (events_ledger _ _ Hs Hbs Hok) as Hoks.
  split_and!; [done|by eapply events_ledger|..].
  - intros Hno. change (paid_out s s'). destruct Hstep as [->|(r & Hr & Hstep)]; [by apply paid_out_refl|].
    unfold step_of in Hstep. destruct r; try by apply events_pay. by destruct (Hno f).
  - intros f Hf. destruct Hstep as [->|(r & Hr & Hstep)]; [done|]. rewrite Hf in Hr. injection Hr as <-.
    by destruct Hstep as (us & _ & ->).
Qed.
End Ledger.

(** ** Transactions in which every statement succeeds *)

Fixpoint twps {A} (now : time) (c : client A) (d : AffDB) (Q : A → AffDB → Prop) : Prop :=
  match c with
  | CRet a => Q a d
  | CStmt f k => match f now d with
                 | Ok (b, d') => twps now (k (Ok b)) d' Q
                 | Err _ => False
                 end
  | CRand k => ∀ r, twps now (k r) d Q
  end.

Lemma twps_twp {A} now (c : client A) d Q : twps now c d Q → twp now c d Q.
Proof.
  revert d. induction c as [a|B f k IH|k IH]; simpl; intros d Hc; [done| |auto].
  destruct (f now d) as [[b d']|]; [by apply IH|done].
Qed.
Lemma twps_bind {A B} now (c : client A) (g : A → client B) d Q Q' :
  twps now c d Q → (∀ a d', Q a d' → twps now (g a) d' Q') → twps now (cbind c g) d Q'.
Proof.
  revert d. induction c as [a|C f k IH|k IH]; simpl; intros d Hc Hg; [auto| |eauto].
  destruct (f now d) as [[b d']|]; [by apply IH|done].
Qed.

Lemma exec_twps {A} now (c : client A) st Q :
  twps now c (tx_db st) Q → tx_aborted st = false → tx_faults st = [] →
  tx_aborted (snd (exec now c st)) = false ∧ Q (fst (exec now c st)) (tx_db (snd (exec now c st))).
Proof.
  revert st. induction c as [a|B f k IH|k IH]; intros st Hc Hst Hf; simpl in *; [done| |].
  - rewrite Hst, Hf. simpl. destruct (f now (tx_db st)) as [[b d]|e]; [|done].
    by apply (IH _ {| tx_db := d; tx_faults := [] |}).
  - by apply (IH _ {| tx_db := tx_db st |}).
Qed.

(** What such a transaction does, with and without faults. *)
Lemma withTx_run {A} (body : client (res AffErr A)) o s r0 s0 :
  twps (o_now (ao_base o)) body s (λ r d, r = r0 ∧ (is_ok r0 = true → d = s0)) →
  let (s', r) := run_alone (withTx body) [o] s in
  ((∃ e, r = Some (Err e)) ∧ (s' = s ∨ (is_ok r0 = true ∧ s' = s0)) ∨
   (r = Some r0 ∧ is_ok r0 = true ∧ s' = s0)) ∧
  (ao_faults o = [] → fate (ao_base o) = Fine →
   r = Some r0 ∧ s' = if is_ok r0 then s0 else s).
Proof.
  intros Hb. cbn [withTx act run_alone].
  pose proof (tx_action_cases body o s _ (twps_twp _ _ _ _ Hb)) as Hc.
  assert (ao_faults o = [] → fate (ao_base o) = Fine →
          tx_action body o s = (r0, if is_ok r0 then s0 else s)) as Hfine.
  { intros Hf Hfate. unfold tx_action.
    pose proof (exec_twps _ body {| tx_db := s; tx_faults := ao_faults o; tx_rand := ao_rand o;
                                    tx_aborted := false |} _ Hb eq_refl Hf) as [Ha [Hr Hd]].
    destruct (exec _ _ _) as [r st]. simpl in *. subst r. rewrite Ha, Hfate.
    destruct r0; [by rewrite Hd|done]. }
  destruct (tx_action body o s) as [r s'] eqn:E. split.
  - destruct Hc as [[-> [e ->]]|(a & [<- Hd] & [->| ->])]; [left; eauto|right|left];
      rewrite Hd by done; eauto.
  - intros Hf Hfate. specialize (Hfine Hf Hfate). injection Hfine as -> ->. done.
Qed.

(** ** Payouts *)

Section Payouts.
Context `{GT : GoText} `{PF : PgFloat} `{GP : GoParse} `{!PgFloatLaws} `{!PgExact}.

Lemma add_dec8_fits z y :
  0 ≤ y < exact_below → 0 ≤ z → z + y < 10 ^ 20 → add_dec8 z (money y) = Ok (z + y).
Proof.
  intros Hy Hz Hzy. destruct (money_exact y Hy) as [Hfin Hnum]. unfold add_dec8. rewrite Hfin.
  apply to_dec8_Ok. rewrite (store_proper scale8 _ (dec scale8 (z + y))).
  - apply store_exact. lia.
  - rewrite Hnum. apply dec_plus.
Qed.
Lemma float_dec8_fits y : 0 ≤ y < exact_below → float_dec8 (money y) = Ok y.
Proof.
  intros Hy. destruct (money_exact y Hy) as [Hfin Hnum]. unfold float_dec8. rewrite Hfin.
  apply to_dec8_Ok. rewrite (store_proper scale8 _ (dec scale8 y) Hnum). apply store_exact.
  unfold exact_below in Hy. lia.
Qed.
Lemma money_le_0 y : 0 ≤ y < exact_below → (money y ≤ᶠ f0) = true → y = 0.
Proof.
  intros Hy Hle. destruct (Z.eq_dec y 0) as [|Hne]; [done|]. exfalso.
  eapply fle_flt; [exact Hle|]. apply money_positive. lia.
Qed.

(** What is paid out: the available quota, with what has just thawed. *)
Definition payable (uid : Z) (now : time) (a : Aff) (d : AffDB) : Z :=
  aff_quota a + matured_sum uid now d.
Definition thawed_aff (uid : Z) (now : time) (a : Aff) (d : AffDB) : Aff :=
  set_quotas (payable uid now a d) (aff_frozen a - matured_sum uid now d) (aff_history a) a.
Definition thawed (uid : Z) (now : time) (a : Aff) (d : AffDB) : AffDB :=
  set_affs <[uid := thawed_aff uid now a d]> (thaw_entries uid now d).
Definition paid (amount : Z) (u : AffUser) : AffUser :=
  {| au_balance := au_balance u + amount; au_recharged := au_recharged u + amount |}.
Definition payout (uid : Z) (now : time) (amount : Z) (u : AffUser) (a : Aff) : Entry :=
  {| e_user := uid; e_action := Transfer; e_amount := amount; e_source := None; e_order := None;
     e_frozen_until := None; e_created := now;
     e_after := Some (au_balance u + amount, 0, aff_frozen a, aff_history a) |}.
Definition after_claim (uid : Z) (now : time) (u : AffUser) (a : Aff) (d : AffDB) : AffDB :=
  set_entries (λ es, es ++ [payout uid now (aff_quota a) u a])
    (set_af_users <[uid := paid (aff_quota a) u]>
       (set_affs <[uid := set_quotas 0 (aff_frozen a) (aff_history a) a]> d)).
Definition after_payout (uid : Z) (now : time) (u : AffUser) (a : Aff) (d : AffDB) : AffDB :=
  after_claim uid now u (thawed_aff uid now a d) (thawed uid now a d).

Definition paid_answer (amount : Z) (u : AffUser) : res AffErr (f64 * f64) :=
  if 0 <? amount then Ok (money amount, money (au_balance u + amount)) else Err ErrAffiliateQuotaEmpty.

Lemma twps_thaw uid now a d :
  ledger_ok d → bounded d → affs d !! uid = Some a →
  twps now (thawFrozenQuotaTx uid) d (λ r d', is_ok r = true ∧ d' = thawed uid now a d).
Proof.
  intros Hok Hb Ha. destruct (lo_row d Hok uid a Ha) as (Hq & Hf & _ & Hh).
  pose proof (Hb uid a Ha) as Hbd. pose proof (ledger_nonneg d uid Hok) as (_ & Ht & _).
  pose proof (total_matured_le uid now _ (ledger_amounts d Hok)) as [Hms0 Hms].
  change (total (λ e, matured uid now e) (entries d)) with (matured_sum uid now d) in Hms0, Hms.
  change (total (is_frozen_of uid) (entries d)) with (still_frozen uid d) in Hms.
  unfold thawed, thawed_aff, payable. set (ms := matured_sum uid now d) in *.
  cbn -[update_aff matured_sum]. fold ms. destruct (money ms ≤ᶠ f0) eqn:Ex; cbn -[update_aff].
  - apply money_le_0 in Ex; [|lia]. rewrite Ex. split; [done|].
    replace (set_quotas _ _ _ a) with a by (destruct a; unfold set_quotas; cbn; f_equal; lia).
    unfold set_affs, thaw_entries, set_entries. cbn. f_equal. symmetry. by apply insert_id.
  - assert (exact_below < 10 ^ 20) by done. unfold update_aff. cbn. rewrite Ha. unfold move_thawed.
    rewrite add_dec8_fits by lia. cbn [rbind].
    destruct (money_exact ms ltac:(lia)) as [Hfin Hnum]. rewrite Hfin.
    assert ((dec scale8 (aff_frozen a) - num (money ms) == dec scale8 (aff_frozen a - ms))%Q) as Hd
      by (rewrite Hnum; apply dec_minus).
    assert (Qle_bool 0 (dec scale8 (aff_frozen a) - num (money ms)) = true) as ->.
    { apply Qle_bool_iff. rewrite Hd. unfold dec, Qle. simpl. lia. }
    unfold to_dec8. rewrite (store_proper _ _ _ Hd), store_exact by lia. cbn [rbind]. split; reflexivity.
Qed.

Lemma twps_claim uid now a u d :
  affs d !! uid = Some a → af_users d !! uid = Some u →
  0 ≤ aff_quota a → 0 ≤ aff_frozen a → aff_quota a + aff_frozen a ≤ aff_history a →
  aff_history a < exact_below →
  0 ≤ au_balance u → 0 ≤ au_recharged u →
  au_balance u + aff_quota a < exact_below → au_recharged u + aff_quota a < exact_below →
  twps now (claim_and_credit uid) d (λ r d',
    r = paid_answer (aff_quota a) u ∧
    (is_ok (paid_answer (aff_quota a) u) = true → d' = after_claim uid now u a d)).
Proof.
  intros Ha Hu Hq Hf Hqf Hh Hbal Hrec Hbb Hrb. assert (exact_below < 10 ^ 20) as Hex by done.
  unfold paid_answer. cbn -[claim_quota credit_user insert_transfer]. unfold claim_quota. rewrite Ha.
  destruct (0 <? aff_quota a) eqn:Eq; [|split; [reflexivity|discriminate 1]].
  apply Z.ltb_lt in Eq. cbn -[credit_user insert_transfer].
  destruct (money (aff_quota a) ≤ᶠ f0) eqn:Ex; [apply money_le_0 in Ex; lia|].
  cbn -[credit_user insert_transfer]. unfold credit_user. cbn. rewrite Hu.
  rewrite !add_dec8_fits by lia. cbn -[insert_transfer]. rewrite lookup_insert_eq. cbn -[insert_transfer].
  unfold transfer_snapshot. cbn -[insert_transfer]. rewrite !lookup_insert_eq. cbn -[insert_transfer].
  unfold insert_transfer. rewrite !float_dec8_fits by lia. cbn [rbind].
  unfold insert_entry. rewrite float_dec8_fits by lia. cbn [rbind].
  assert (has_user uid (set_af_users <[uid := paid (aff_quota a) u]>
            (set_affs <[uid := set_quotas 0 (aff_frozen a) (aff_history a) a]> d)) = true) as Hhas.
  { apply bool_decide_eq_true. cbn. by rewrite lookup_insert_eq. }
  unfold paid in Hhas. rewrite Hhas. cbv iota. split; [reflexivity|intros _; reflexivity].
Qed.

Lemma twps_transfer uid now a u d :
  ledger_ok d → bounded d → affs d !! uid = Some a → af_users d !! uid = Some u →
  0 ≤ au_balance u → 0 ≤ au_recharged u →
  au_balance u + payable uid now a d < exact_below →
  au_recharged u + payable uid now a d < exact_below →
  twps now (transfer_body uid) d (λ r d',
    r = paid_answer (payable uid now a d) u ∧
    (is_ok (paid_answer (payable uid now a d) u) = true → d' = after_payout uid now u a d)).
Proof.
  intros Hok Hb Ha Hu Hbal Hrec Hbb Hrb. rewrite transfer_body_eq.
  destruct (lo_row d Hok uid a Ha) as (Hq & Hf & _ & Hh).
  pose proof (Hb uid a Ha) as Hbd. pose proof (ledger_nonneg d uid Hok) as (_ & Ht & _).
  pose proof (total_matured_le uid now _ (ledger_amounts d Hok)) as [Hms0 Hms].
  change (total (λ e, matured uid now e) (entries d)) with (matured_sum uid now d) in Hms0, Hms.
  change (total (is_frozen_of uid) (entries d)) with (still_frozen uid d) in Hms.
  assert (payable uid now a d = aff_quota a + matured_sum uid now d) as Hp by done.
  apply (twps_bind _ _ _ _ (λ r d', is_ok r = true ∧ d' = d)).
  { unfold ensureUserAffiliateWithClient, queryAffiliateByUserID. cbn. by rewrite Ha. }
  intros [s|] d' [? ->]; [|done]. eapply twps_bind; [by apply twps_thaw|].
  intros [x|] d' [? ->]; [|done].
  apply (twps_claim uid now (thawed_aff uid now a d) u (thawed uid now a d)); cbn; try done; try lia.
  by rewrite lookup_insert_eq.
Qed.

(** C26: a transfer pays out, once, exactly what a user may withdraw: the
    available rebates and those whose time to thaw has come.  If nothing fails,
    the balance and the total recharged grow by that amount, which is also what
    is answered and what the ledger records with its snapshot, and the quota is
    empty; if there is nothing to withdraw it says so and changes nothing; and
    when statements or the commit fail, it has done all of it or none, and never
    answers that it has paid when it has not.  Supposed are a table that agrees
    with the ledger (which the operations keep), a balance and a total that are
    not negative, and sums below ten million, where the floats are exact. *)
Theorem transfer_pays_out uid a u s o :
  let now := o_now (ao_base o) in
  let amount := payable uid now a s in
  ledger_ok s → bounded s → affs s !! uid = Some a → af_users s !! uid = Some u →
  0 ≤ au_balance u → 0 ≤ au_recharged u →
  au_balance u + amount < exact_below → au_recharged u + amount < exact_below →
  let (s', r) := run_alone (TransferAffiliateQuota uid) [o] s in
  let paid_out := 0 < amount ∧ s' = after_payout uid now u a s in
  let answered := r = Some (Ok (money amount, money (au_balance u + amount))) in
  (answered ∧ paid_out ∨ (∃ e, r = Some (Err e)) ∧ (s' = s ∨ paid_out)) ∧
  (ao_faults o = [] → fate (ao_base o) = Fine →
   (0 < amount → answered) ∧ (amount = 0 → r = Some (Err ErrAffiliateQuotaEmpty) ∧ s' = s)).
Proof.
  cbv zeta. intros Hok Hb Ha Hu Hbal Hrec Hbb Hrb.
  pose proof (withTx_run _ o s _ _
    (twps_transfer uid (o_now (ao_base o)) a u s Hok Hb Ha Hu Hbal Hrec Hbb Hrb)) as Ht.
  unfold TransferAffiliateQuota, TransferQuotaToBalance.
  destruct (run_alone _ _ _) as [s' r]. destruct Ht as [Ht Hfine].
  set (now := o_now (ao_base o)) in *. set (amount := payable uid now a s) in *.
  unfold paid_answer in *. destruct (Z.ltb_spec 0 amount) as [Hpos|Hneg]; cbn [is_ok] in *.
  - split; [|intros Hf Hfate; destruct (Hfine Hf Hfate); split; [done|lia]].
    destruct Ht as [[He [->|[_ ->]]]|(-> & _ & ->)]; auto.
  - split; [|intros Hf Hfate; split; [lia|intros _; exact (Hfine Hf Hfate)]].
    destruct Ht as [[He [->|[? _]]]|(_ & ? & _)]; [auto|done|done].
Qed.
End Payouts.

(** ** Accruals *)

Section Accruals.
Context `{GT : GoText} `{PF : PgFloat} `{GP : GoParse} `{!PgFloatLaws}.

(** Oracles of a call that nothing disturbs, with settings [cfg] at time [t]. *)
Definition quiet (cfg : string → option string) (t : time) (o : AffOracle) : Prop :=
  fate (ao_base o) = Fine ∧ o_now (ao_base o) = t ∧ ao_faults o = [] ∧
  ∀ key, ao_setting o key = cfg key.

(** The rate of an inviter: its own one, if it has one, else that of the settings. *)
Definition rate_for (cfg : string → option string) (inviter : Aff) : f64 :=
  let global := rate_of (cfg SettingKeyAffiliateRebateRate) in
  match aff_rate inviter with
  | None => global
  | Some r =>
      let v := scan (dec 100 r) in
      if f_is_nan v || f_is_inf v then global else clampAffiliateRebateRate v
  end.
Definition expired (cfg : string → option string) (t : time) (invitee : Aff) : bool :=
  let days := duration_of (cfg SettingKeyAffiliateRebateDurationDays) in
  (0 <? days) && time_After t (AddDays (aff_created invitee) days).
(** What is left of the cap, to eight digits, when the rebate is more; nothing
    when the cap is reached; a cap of zero is none. *)
Definition within_cap (cap : f64) (already : Z) (rebate : f64) : f64 :=
  let left := cap -ᶠ money already in
  if negb (f0 <ᶠ cap) then rebate
  else if cap ≤ᶠ money already then f0
  else if left <ᶠ rebate then fdiv (f_round (left *ᶠ f_of_int (10 ^ 8))) (f_of_int (10 ^ 8))
  else rebate.
Lemma within_cap_capped cap already rebate :
  within_cap cap already rebate =
  if f0 <ᶠ cap then default f0 (capped (money already) cap rebate) else rebate.
Proof.
  unfold within_cap, capped, roundTo. destruct (f0 <ᶠ cap); [|done]. simpl negb. cbv iota zeta.
  destruct (cap ≤ᶠ money already); [done|]. by destruct (_ <ᶠ rebate).
Qed.
Definition rebate_due (cfg : string → option string) (t : time) (already : Z)
    (invitee inviter : Aff) (base : f64) : f64 :=
  if negb (enabled_of (cfg SettingKeyAffiliateEnabled)) || expired cfg t invitee then f0
  else
    let rebate := roundTo (base *ᶠ (fdiv (rate_for cfg inviter) (f_of_int 100))) 8 in
    if rebate ≤ᶠ f0 then f0
    else
      let due := within_cap (cap_of (cfg SettingKeyAffiliateRebatePerInviteeCap)) already rebate in
      if due ≤ᶠ f0 then f0 else due.

(** The entry of a rebate, and the row it is added to. *)
Definition rebate_entry (cfg : string → option string) (t : time) (inviter invitee : Z) (z : Z)
    (order : option Z) : Entry :=
  let hours := freeze_of (cfg SettingKeyAffiliateRebateFreezeHours) in
  {| e_user := inviter; e_action := Accrue; e_amount := z; e_source := Some invitee;
     e_order := order; e_frozen_until := if 0 <? hours then Some (t + hours * Hour) else None;
     e_created := t; e_after := None |}.
Definition earned (cfg : string → option string) (z : Z) (b : Aff) : Aff :=
  if 0 <? freeze_of (cfg SettingKeyAffiliateRebateFreezeHours)
  then set_quotas (aff_quota b) (aff_frozen b + z) (aff_history b + z) b
  else set_quotas (aff_quota b + z) (aff_frozen b) (aff_history b + z) b.

Abbreviation alone cfg t := (ends (quiet cfg t)).

Lemma ends_setting {A} cfg t key (f : option string → A) s (Q : A → AffDB → Prop) :
  Q (f (cfg key)) s → alone cfg t 1 (setting key f) s Q.
Proof. intros HQ o (_ & _ & _ & Hc). simpl. by rewrite Hc. Qed.
Lemma ends_profile cfg t uid a s (Q : res AffErr AffiliateSummary → AffDB → Prop) :
  0 < uid → affs s !! uid = Some a → Q (Ok (summary uid a)) s →
  alone cfg t 1 (EnsureUserAffiliate_repo uid) s Q.
Proof.
  intros Hpos Ha HQ. unfold EnsureUserAffiliate_repo. destruct (Z.leb_spec uid 0); [lia|].
  intros o (Hf & _ & _ & _). cbn. rewrite Hf, Ha. exact HQ.
Qed.

Lemma ends_AccrueQuota cfg t inviter invitee x order b z s :
  ledger_ok s → (x ≤ᶠ f0) = false → float_dec8 x = Ok z → affs s !! inviter = Some b →
  aff_history b + z < 10 ^ 20 → has_user inviter s = true → has_user invitee s = true →
  let hours := freeze_of (cfg SettingKeyAffiliateRebateFreezeHours) in
  alone cfg t 1 (AccrueQuota inviter invitee x hours order) s (λ r s',
    r = Ok true ∧
    s' = set_entries (λ es, es ++ [rebate_entry cfg t inviter invitee z order])
           (set_affs <[inviter := earned cfg z b]> s)).
Proof.
  intros Hok Hx Hz Hb Hroom Hu Hv hours. unfold AccrueQuota. rewrite Hx. intros o (Hf & Hnow & Hfl & _).
  assert (f_finite x = true) as Hfin by (unfold float_dec8 in Hz; by destruct (f_finite x)).
  pose proof (num_nonneg x Hfin Hx) as Hn.
  assert (∀ v, 0 ≤ v ≤ aff_history b → add_dec8 v x = Ok (v + z)) as Hadd.
  { intros w Hw. apply add_dec8_intro; [lia|done|done|lia]. }
  destruct (lo_row s Hok inviter b Hb) as (Hq & Hfr & _ & Hh).
  destruct (ledger_nonneg s inviter Hok) as (_ & Ht & Hfz).
  assert (twps t (ctry (stmt (λ _, update_aff inviter (accrue_quota x (0 <? hours)))) (λ affected,
             if affected =? 0 then CRet (Ok false)
             else ctry (stmt (λ now, insert_entry inviter Accrue x (Some invitee) order
                                       (if 0 <? hours then Some (now + hours * Hour) else None) None now))
                    (λ _, CRet (Ok true)))) s (λ r s',
    r = Ok true ∧
    s' = set_entries (λ es, es ++ [rebate_entry cfg t inviter invitee z order])
           (set_affs <[inviter := earned cfg z b]> s))) as Hw.
  { cbn -[update_aff insert_entry]. unfold update_aff. rewrite Hb.
    assert (accrue_quota x (0 <? hours) b = Ok (earned cfg z b)) as ->.
    { unfold accrue_quota, earned. fold hours. rewrite !Hadd by lia. by destruct (0 <? hours). }
    cbn -[insert_entry]. unfold insert_entry. rewrite Hz. cbn [rbind].
    assert (has_user inviter (set_affs <[inviter:=earned cfg z b]> s) = true) as -> by exact Hu.
    assert (has_user invitee (set_affs <[inviter:=earned cfg z b]> s) = true) as -> by exact Hv.
    cbn. by split. }
  apply (exec_twps t _ {| tx_db := s; tx_faults := ao_faults o; tx_rand := ao_rand o;
                          tx_aborted := false |}) in Hw as [Ha [Hr Hd]]; [|done|done].
  cbn [ends act withTx]. unfold tx_action. rewrite Hnow.
  destruct (exec _ _ _) as [r st]. cbn [fst snd] in *. subst r. rewrite Ha, Hf. by split.
Qed.

(** The rest of the call, once it is known that a rebate is due. *)
Lemma ends_accrue_rebate cfg t inviter invitee x order b s :
  ledger_ok s → affs s !! inviter = Some b → has_user inviter s = true → has_user invitee s = true →
  ((x ≤ᶠ f0) = false → ∃ z, float_dec8 x = Ok z ∧ aff_history b + z < 10 ^ 20) →
  alone cfg t 2 (accrue_rebate inviter invitee x order) s (λ r s',
    if x ≤ᶠ f0 then r = Ok f0 ∧ s' = s
    else ∃ z, float_dec8 x = Ok z ∧ r = Ok x ∧
         s' = set_entries (λ es, es ++ [rebate_entry cfg t inviter invitee z order])
                (set_affs <[inviter := earned cfg z b]> s)).
Proof.
  intros Hok Hb Hu Hv Hroom. unfold accrue_rebate, GetAffiliateRebateFreezeHours.
  eapply (ends_bind _ 1 1); [by apply (ends_setting cfg t _ _ s (λ r s', r = freeze_of (cfg SettingKeyAffiliateRebateFreezeHours) ∧ s' = s))|].
  intros h s' [-> ->]. destruct (x ≤ᶠ f0) eqn:Ex.
  - unfold AccrueQuota. rewrite Ex. by split.
  - destruct (Hroom eq_refl) as (z & Hz & Hlim).
    eapply (ends_bind _ 1 0); [eapply ends_AccrueQuota; eauto|]. intros r s' [-> ->]. cbn. eauto.
Qed.

Lemma ends_resolve cfg t uid b s :
  alone cfg t 1 (resolveRebateRatePercent (summary uid b)) s (λ r s', r = rate_for cfg b ∧ s' = s).
Proof.
  unfold resolveRebateRatePercent, rate_for, GetAffiliateRebateRatePercent. cbn [summary sum_AffRebateRatePercent].
  destruct (aff_rate b) as [r|]; cbn [fmap option_fmap option_map]; [|by apply ends_setting].
  destruct (_ || _); [by apply ends_setting|by split].
Qed.

(** C27: a recharge, of a positive finite amount, of an invitee with an inviter earns
    the inviter the rebate that is due: nothing when rebates are off, when the
    invitee's time is over, or when the inviter has had the most it may have from
    this invitee; else the inviter's rate of the amount (its own, or the global
    one), cut to what is left of the cap per invitee.  When the call runs alone and
    nothing fails, both users have profiles that agree with the ledger, and the
    inviter's history has room for the amount, it ends after ten actions, answers
    the amount and records it in one entry that names invitee and order, available
    at once or frozen for the configured hours; if nothing is due, nothing changes.
    (Two recharges at once can exceed the cap, [cap_is_exceeded_at_once].) *)
Theorem recharge_earns_what_is_due cfg t invitee base order inviter a b s :
  let due := rebate_due cfg t (accrued_from inviter invitee s) a b base in
  0 < invitee → 0 < inviter → (base ≤ᶠ f0) = false → f_finite base = true → ledger_ok s →
  affs s !! invitee = Some a → aff_inviter a = Some inviter → affs s !! inviter = Some b →
  has_user inviter s = true → has_user invitee s = true →
  ((due ≤ᶠ f0) = false → ∃ z, float_dec8 due = Ok z ∧ aff_history b + z < 10 ^ 20) →
  ends (quiet cfg t) 10 (AccrueInviteRebateForOrder invitee base order) s (λ r s',
    if due ≤ᶠ f0 then r = Ok f0 ∧ s' = s
    else ∃ z, float_dec8 due = Ok z ∧ r = Ok due ∧
         s' = set_entries (λ es, es ++ [rebate_entry cfg t inviter invitee z order])
                (set_affs <[inviter := earned cfg z b]> s)).
Proof.
  intros due Hinvitee Hinviter Hbase Hfin Hok Ha Hi Hb Hu Hv Hroom.
  unfold AccrueInviteRebateForOrder. rewrite Hbase.
  assert ((invitee <=? 0) = false) as -> by lia.
  assert (f_is_nan base = false ∧ f_is_inf base = false) as [-> ->] by (by destruct base).
  cbn [orb]. unfold due, rebate_due in *. clear due.
  eapply (ends_bind _ 1 9);
    [by apply (ends_setting cfg t _ _ s (λ r s', r = enabled_of (cfg SettingKeyAffiliateEnabled) ∧ s' = s))|].
  intros en s' [-> ->]. destruct (enabled_of _); cbn [negb orb] in *; [|by split].
  eapply (ends_bind _ 1 8);
    [by apply (ends_profile cfg t invitee a s (λ r s', r = Ok (summary invitee a) ∧ s' = s))|].
  intros r s' [-> ->]. cbn [sum_InviterID summary]. rewrite Hi.
  assert ((inviter <=? 0) = false) as -> by lia.
  eapply (ends_bind _ 1 7);
    [by apply (ends_profile cfg t inviter b s (λ r s', r = Ok (summary inviter b) ∧ s' = s))|].
  intros r s' [-> ->].
  eapply (ends_bind _ 1 6);
    [by apply (ends_setting cfg t _ _ s (λ r s',
       r = duration_of (cfg SettingKeyAffiliateRebateDurationDays) ∧ s' = s))|].
  intros days s' [-> ->].
  eapply (ends_bind _ 1 5) with (Q := λ (r : time) s',
    ((0 <? duration_of (cfg SettingKeyAffiliateRebateDurationDays)) = true → r = t) ∧ s' = s).
  { destruct (0 <? _); [|by split]. intros o (_ & Hnow & _). cbn. by split. }
  intros t' s' [Ht ->]. unfold expired in *. cbn [sum_CreatedAt summary].
  assert (∀ x, (0 <? duration_of (cfg SettingKeyAffiliateRebateDurationDays)) && time_After t' x =
               (0 <? duration_of (cfg SettingKeyAffiliateRebateDurationDays)) && time_After t x) as ->.
  { intros x. destruct (0 <? _); [|done]. by rewrite Ht. }
  destruct (_ && time_After t _); [by split|].
  eapply (ends_bind _ 1 4); [apply ends_resolve|]. intros rate s' [-> ->].
  set (rebate := roundTo _ 8) in *. cbv zeta in *.
  destruct (rebate ≤ᶠ f0) eqn:Erebate; [by split|].
  eapply (ends_bind _ 1 3);
    [by apply (ends_setting cfg t _ _ s (λ r s',
       r = cap_of (cfg SettingKeyAffiliateRebatePerInviteeCap) ∧ s' = s))|].
  intros cap s' [-> ->]. rewrite within_cap_capped in *. destruct (f0 <ᶠ _).
  - eapply (ends_bind _ 1 2) with (Q := λ r s',
      r = Ok (money (accrued_from inviter invitee s)) ∧ s' = s).
    { intros o (Hf & _). cbn. by rewrite Hf. }
    intros r s' [-> ->]. destruct (capped _ _ rebate) as [x|]; cbn [default] in *; [|by split].
    unfold id in *. pose proof (ends_accrue_rebate cfg t inviter invitee x order b s Hok Hb Hu Hv) as He.
    destruct (x ≤ᶠ f0) eqn:Ex; [by apply He|]. rewrite Ex in *. by apply He.
  - rewrite Erebate in *.
    pose proof (ends_accrue_rebate cfg t inviter invitee rebate order b s Hok Hb Hu Hv Hroom) as He.
    eapply ends_le; [exact He|lia].
Qed.
End Accruals.

(** ** Codes that are taken

    Outside a transaction a code that is taken is drawn again; in a transaction
    the failed statement has aborted it, and drawing again is of no use. *)
Section Collisions.
Context `{GT : GoText} `{PF : PgFloat}.

Lemma taken_code_is_not_retried uid a bytes s o :
  0 < uid → affs s !! uid = Some a → hd_rand (ao_rand o) = Some bytes →
  code_taken uid (code_of affiliateCodeLength bytes) s = true →
  ∃ e, run_alone (AdminResetUserAffCode uid) [o] s = (s, Some (Err e)).
Proof.
  intros Hpos Ha Hr Ht. unfold AdminResetUserAffCode, ResetUserAffCode.
  destruct (Z.leb_spec uid 0); [lia|]. cbn [withTx act run_alone]. unfold tx_action.
  set (now := o_now (ao_base o)).
  assert (tx_aborted (snd (exec now (reset_body uid)
            {| tx_db := s; tx_faults := ao_faults o; tx_rand := ao_rand o; tx_aborted := false |})) = true)
    as Hab.
  { unfold reset_body, ensureUserAffiliateWithClient, queryAffiliateByUserID.
    change affiliateCodeMaxAttempts with (S 11). cbn -[code_of update_code affiliateCodeLength reset_attempts].
    destruct (default false (head (ao_faults o))).
    { cbn -[reset_attempts]. done. }
    rewrite Ha. cbn -[code_of update_code affiliateCodeLength reset_attempts].
    cbn [reset_attempts]. cbn -[code_of update_code affiliateCodeLength reset_attempts].
    rewrite Hr. cbn -[code_of update_code affiliateCodeLength reset_attempts].
    unfold update_code. rewrite Ha.
    assert ((max_code <? String.length (code_of affiliateCodeLength bytes))%nat = false) as -> by done.
    rewrite Ht. destruct (default false _); cbn -[reset_attempts]; [done|]. by apply exec_aborted. }
  destruct (exec _ _ _) as [r st]. cbn in Hab. destruct r as [c|e]; rewrite ?Hab; eauto.
Qed.
End Collisions.

(** ** Concrete numbers and runs *)

Module AffiliateDemo.

(** Conversions: to 53 significant bits, and to eight decimals (a value that
    would vanish is kept as it is). *)
Definition to_float (q : Q) : f64 :=
  let n := Z.abs (Qnum q) in
  let d := QDen q in
  if n =? 0 then f0
  else
    let k := Z.max 0 (52 - (Z.log2 n - Z.log2 d)) in
    S754_finite (Qnum q <? 0) (Z.to_pos ((2 * (n * 2 ^ k) + d) / (2 * d))) (- k).
Definition exact_value (x : f64) : Q :=
  match x with
  | S754_finite s m e =>
      let n := if s then Z.neg m else Z.pos m in
      if 0 <=? e then (n * 2 ^ e) # 1 else n # Z.to_pos (2 ^ (- e))
  | _ => 0%Q
  end.
Definition to_decimal (x : f64) : Q :=
  let r := round_half_away (exact_value x * (Z.pos scale8 # 1)) in
  if r =? 0 then exact_value x else dec scale8 r.

#[local] Instance demo_text : GoText := ascii_text.
#[local] Instance demo_num : PgFloat := {| num := to_decimal; scan := to_float |}.
#[local] Instance demo_parse : GoParse := {| ParseFloat := λ s, f_of_int <$> Atoi s |}.

#[local] Instance demo_num_laws : PgFloatLaws.
Proof.
  split. intros x Hfin Hpos. change (num x) with (to_decimal x). unfold to_decimal.
  assert (0 < exact_value x)%Q as He.
  { destruct x as [s|s| |[] m e]; try done. unfold exact_value. destruct (0 <=? e) eqn:E; unfold Qlt; simpl.
    - assert (0 < 2 ^ e) by (apply Z.pow_pos_nonneg; lia). lia.
    - lia. }
  destruct (_ =? 0) eqn:E; [by apply Qltb_iff|]. apply Qltb_iff.
  assert (0 ≤ round_half_away (exact_value x * (Z.pos scale8 # 1))) as Hr.
  { apply round_half_away_nonneg, Qmult_le_0_compat; [by apply Qlt_le_weak|]. unfold Qle. simpl. lia. }
  unfold dec, Qlt. simpl. lia.
Qed.

(** 53 bits are enough for fifteen digits. *)
Lemma to_float_round z k :
  0 < z < exact_below → k = 78 - Z.log2 z →
  let m := (2 * (z * 2 ^ k) + Z.pos scale8) / (2 * Z.pos scale8) in
  0 < m ∧ round_half_away ((m # Z.to_pos (2 ^ k)) * (Z.pos scale8 # 1)) = z.
Proof.
  intros [Hz0 Hz1] Hk m. unfold exact_below in Hz1.
  assert (Z.log2 z ≤ 49) as Hlog.
  { pose proof (Z.log2_le_mono z (10 ^ 15) ltac:(lia)) as Hl. change (Z.log2 (10 ^ 15)) with 49 in Hl. lia. }
  pose proof (Z.log2_nonneg z) as Hlog0.
  assert (2 ^ 29 ≤ 2 ^ k) as HK by (apply Z.pow_le_mono_r; lia). set (K := 2 ^ k) in *.
  change (Z.pos scale8) with 100000000 in *. change (2 ^ 29) with 536870912 in HK.
  pose proof (Z.div_mod (2 * (z * K) + 100000000) (2 * 100000000) ltac:(lia)) as Hdm.
  pose proof (Z.mod_pos_bound (2 * (z * K) + 100000000) (2 * 100000000) ltac:(lia)) as Hmod.
  fold m in Hdm. assert (0 < m) as Hm by nia. split; [done|].
  unfold round_half_away. cbn [Qnum Qden Qmult]. rewrite Pos.mul_1_r, Z2Pos.id by lia.
  rewrite Z.sgn_pos, Z.mul_1_l, Z.abs_eq by lia. symmetry. apply (Z.div_unique_pos _ _ _
    (2 * (m * 100000000) + K - 2 * K * z)); nia.
Qed.

#[local] Instance demo_exact : PgExact.
Proof.
  split.
  - intros z Hz. unfold money. cbn [scan demo_num].
    unfold to_float at 1 2. cbn [Qnum Qden dec].
    destruct (Z.eqb_spec (Z.abs z) 0) as [E|E].
    { assert (z = 0) as -> by lia. by split. }
    rewrite Z.abs_eq by lia. split; [done|].
    change (Z.log2 (Z.pos scale8)) with 26.
    assert (Z.log2 z ≤ 49) as Hlog.
    { pose proof (Z.log2_le_mono z (10 ^ 15) ltac:(unfold exact_below in Hz; lia)) as Hl.
      change (Z.log2 (10 ^ 15)) with 49 in Hl. lia. }
    rewrite Z.max_r by lia. replace (52 - (Z.log2 z - 26)) with (78 - Z.log2 z) by lia.
    destruct (to_float_round z _ ltac:(lia) eq_refl) as [Hm Hr].
    change (num ?x) with (to_decimal x). unfold to_decimal, exact_value.
    assert ((z <? 0) = false) as -> by lia. assert ((0 <=? - (78 - Z.log2 z)) = false) as -> by lia.
    rewrite Z.opp_involutive, Z2Pos.id by done. rewrite Hr.
    assert ((z =? 0) = false) as -> by lia. done.
  - intros z Hz. unfold money. cbn [scan demo_num]. unfold to_float. cbn [Qnum Qden dec].
    destruct (Z.eqb_spec (Z.abs z) 0); [lia|]. assert ((z <? 0) = false) as -> by lia. done.
Qed.

(** Rebates of 20 percent, frozen for an hour, at most 30 for an invitee. *)
Definition cfg (key : string) : option string :=
  if String.eqb key SettingKeyAffiliateEnabled then Some "true"
  else if String.eqb key SettingKeyAffiliateRebateRate then Some "20"
  else if String.eqb key SettingKeyAffiliateRebateFreezeHours then Some "1"
  else if String.eqb key SettingKeyAffiliateRebatePerInviteeCap then Some "30"
  else None.
Definition at_time (t : time) (bytes : list Z) : AffOracle :=
  {| ao_base := {| fate := Fine; o_now := t |}; ao_faults := []; ao_rand := [Some bytes; Some bytes];
     ao_setting := cfg |}.
Definition steps (n i : nat) (o : AffOracle) : list (nat * AffOracle) := replicate n (i, o).

Definition poor : AffUser := {| au_balance := 0; au_recharged := 0 |}.
Definition start : AffDB := {| af_users := {[1 := poor; 2 := poor]}; affs := ∅; entries := [] |}.
Definition requests : list AffRequest :=
  [RqEnsure 1; RqBind 2 " aaaaaaaaaaaa"; RqAccrue 2 (f_of_int 100) (Some 7);
   RqAccrue 2 (f_of_int 100) (Some 8); RqTransfer 1].
(** User 1 gets a code and invites user 2. *)
Definition invited : list (nat * AffOracle) := steps 4 0 (at_time 1 []) ++ steps 7 1 (at_time 2 [1]).
(** Two orders of user 2, one after the other, and at the same time. *)
Definition one_by_one : list (nat * AffOracle) := steps 9 2 (at_time 3 []) ++ steps 9 3 (at_time 4 []).
Definition at_once : list (nat * AffOracle) :=
  steps 7 2 (at_time 3 []) ++ steps 9 3 (at_time 4 []) ++ steps 2 2 (at_time 5 []).
(** A transfer when the hour is over. *)
Definition transfer : list (nat * AffOracle) := steps 1 4 (at_time (2 * Hour) []).

Definition play (sched : list (nat * AffOracle)) : AffDB * list (aproc unit) :=
  run sched (start, serve <$> requests).
Definition shows (s : AffDB) : Z * list (Z * Z) * option Z * option (option Z) :=
  (accrued_from 1 2 s, (λ e, (e_amount e, default 0 (e_order e))) <$> entries s,
   au_balance <$> af_users s !! 1, aff_inviter <$> affs s !! 2).

Example rebates_are_capped :
  shows (fst (play (invited ++ one_by_one ++ transfer))) =
  (3000000000, [(2000000000, 7); (1000000000, 8); (3000000000, 0)], Some 3000000000, Some (Some 1)).
Proof. vm_compute. reflexivity. Qed.

(** Two orders that are completed at the same time exceed the cap: what was
    accrued is read before the new entry is written, and nothing is locked. *)
Example cap_is_exceeded_at_once :
  shows (fst (play (invited ++ at_once ++ transfer))) =
  (4000000000, [(2000000000, 8); (2000000000, 7); (4000000000, 0)], Some 4000000000, Some (Some 1)).
Proof. vm_compute. reflexivity. Qed.

Lemma start_ok : ledger_ok start ∧ invitations_ok start.
Proof. split; split; by constructor || intros. Qed.

Lemma played sched : run sched (start, serve <$> requests) = (fst (play sched), snd (play sched)).
Proof. apply surjective_pairing. Qed.

Lemma bounded_check s :
  bool_decide (map_Forall (λ _ a, aff_history a < exact_below) (affs s)) = true → bounded s.
Proof. intros Hb%bool_decide_eq_true u a. apply Hb. Qed.

(** The transfer at the end: the ledger is in order, and the balance of the user
    has risen by the forty dollars transferred. *)
Abbreviation before_transfer := (play (invited ++ at_once)).
Definition the_transfer : nat * AffOracle := (4%nat, at_time (2 * Hour) []).
Definition after := pool_step before_transfer the_transfer.
Lemma transferred_next :
  pool_step (fst before_transfer, snd before_transfer) the_transfer = (fst after, snd after).
Proof. unfold after. rewrite <-(surjective_pairing before_transfer). exact (surjective_pairing _). Qed.
Lemma rebates_conserved_witness :
  ledger_ok start ∧ ledger_ok (fst after) ∧ transferred 1 (fst after) - transferred 1 (fst before_transfer) = 40 * 10 ^ 8 ∧
  ∃ x', af_users (fst after) !! 1 = Some x' ∧
        au_balance x' - 0 = transferred 1 (fst after) - transferred 1 (fst before_transfer).
Proof.
  assert (bounded (fst after)) as Hb by (apply bounded_check; vm_compute; reflexivity).
  pose proof (rebates_conserved (invited ++ at_once) the_transfer requests start _ _ _ _ (proj1 start_ok)
                (played _) transferred_next Hb) as (_ & Hok & Hpay & _).
  split; [apply start_ok|]. split; [exact Hok|]. split; [vm_compute; reflexivity|].
  destruct (Hpay ltac:(discriminate) 1 poor) as (x' & Hx & Hbal & _); [vm_compute; reflexivity|].
  exists x'. split; [exact Hx|exact Hbal].
Defined.

Lemma invitations_kept_witness :
  invitations_ok start ∧ invitations_ok (fst (play (invited ++ at_once ++ transfer))).
Proof.
  split; [apply start_ok|].
  exact (proj1 (invitations_kept _ requests start _ _ (proj2 start_ok) (played _))).
Defined.

(** A user with three units available and two that have thawed. *)
Definition row (quota frozen : Z) (inviter : option Z) : Aff :=
  {| aff_code := "AAAA"; aff_code_custom := true; aff_rate := None; aff_inviter := inviter;
     aff_count := 1; aff_quota := quota; aff_frozen := frozen; aff_history := quota + frozen;
     aff_created := 0 |}.
Definition accrual (amount : Z) (until : option time) : Entry :=
  {| e_user := 1; e_action := Accrue; e_amount := amount; e_source := Some 2; e_order := None;
     e_frozen_until := until; e_created := 0; e_after := None |}.
Definition rich : AffDB :=
  {| af_users := {[1 := {| au_balance := 100000000; au_recharged := 0 |}; 2 := poor]};
     affs := {[1 := row 300000000 200000000 None; 2 := row 0 0 (Some 1)]};
     entries := [accrual 300000000 None; accrual 200000000 (Some 10)] |}.

Lemma rich_ok : ledger_ok rich ∧ bounded rich.
Proof.
  split; [split|].
  - intros u a. cbn. rewrite lookup_insert_Some, lookup_singleton_Some.
    intros [[<- <-]|(_ & <- & <-)]; vm_compute; split_and!; congruence.
  - repeat constructor; vm_compute; congruence || eauto.
  - apply bounded_check. vm_compute. reflexivity.
Qed.

Definition rich_row : Aff := row 300000000 200000000 None.
Definition rich_user : AffUser := {| au_balance := 100000000; au_recharged := 0 |}.

Lemma transfer_pays_out_witness :
  let o := at_time 20 [] in
  let now := o_now (ao_base o) in
  let amount := payable 1 now rich_row rich in
  amount = 500000000 ∧
  let (s', r) := run_alone (TransferAffiliateQuota 1) [o] rich in
  let paid_out := 0 < amount ∧ s' = after_payout 1 now rich_user rich_row rich in
  let answered := r = Some (Ok (money amount, money (au_balance rich_user + amount))) in
  (answered ∧ paid_out ∨ (∃ e, r = Some (Err e)) ∧ (s' = rich ∨ paid_out)) ∧
  (ao_faults o = [] → fate (ao_base o) = Fine →
   (0 < amount → answered) ∧ (amount = 0 → r = Some (Err ErrAffiliateQuotaEmpty) ∧ s' = rich)).
Proof.
  split; [vm_compute; reflexivity|].
  apply (transfer_pays_out 1 rich_row rich_user rich (at_time 20 [])).
  - apply rich_ok.
  - apply rich_ok.
  - reflexivity.
  - reflexivity.
  - vm_compute. congruence.
  - vm_compute. congruence.
  - vm_compute. reflexivity.
  - vm_compute. reflexivity.
Defined.

Lemma recharge_earns_what_is_due_witness :
  let due := rebate_due cfg 20 (accrued_from 1 2 rich) (row 0 0 (Some 1)) rich_row (f_of_int 1000) in
  due = f_of_int 25 ∧
  ends (quiet cfg 20) 10 (AccrueInviteRebateForOrder 2 (f_of_int 1000) (Some 9)) rich (λ r s',
    if due ≤ᶠ f0 then r = Ok f0 ∧ s' = rich
    else ∃ z, float_dec8 due = Ok z ∧ r = Ok due ∧
         s' = set_entries (λ es, es ++ [rebate_entry cfg 20 1 2 z (Some 9)])
                (set_affs <[1 := earned cfg z rich_row]> rich)).
Proof.
  split; [vm_compute; reflexivity|].
  apply (recharge_earns_what_is_due cfg 20 2 (f_of_int 1000) (Some 9) 1 (row 0 0 (Some 1)) rich_row rich).
  - reflexivity.
  - reflexivity.
  - reflexivity.
  - reflexivity.
  - apply rich_ok.
  - reflexivity.
  - reflexivity.
  - reflexivity.
  - reflexivity.
  - reflexivity.
  - intros _. exists 2500000000. split; vm_compute; reflexivity.
Defined.
End AffiliateDemo.
