(* ===== verification/Subscriptions.v ===== *)
(** * Subscriptions and their usage windows

    [src/backend/internal/service/user_subscription.go],
    [subscription_service.go] and the table
    [src/backend/internal/repository/user_subscription_repo.go] keeps, with the
    part of [src/backend/internal/server/middleware/api_key_auth.go] that admits
    a request on a subscription.  Operations are processes: every statement,
    every read of the clock and every access to the cache is one action. *)

From Stdlib Require Import ZArith Lia QArith Ascii String Bool.
From stdpp Require Import base numbers option list gmap strings relations.
From S2P Require Import Prelude GoStrings GoFloat UsageDB Proc Fulfillment.

#[local] Open Scope Z_scope.

Definition SubscriptionStatusSuspended : string := "suspended".
Definition SubscriptionStatusRevoked : string := "revoked".

(** ** A subscription and its windows

    Usage is a decimal(20,10) column in the table and a float64 in the program:
    [UserSubscription Z] is a row, [UserSubscription f64] the program's copy. *)

Record UserSubscription (U : Type) := {
  us_ID : Z;
  us_UserID : Z;
  us_GroupID : Z;
  us_StartsAt : time;
  us_ExpiresAt : time;
  us_Status : string;
  us_DailyWindowStart : option time;
  us_WeeklyWindowStart : option time;
  us_MonthlyWindowStart : option time;
  us_DailyUsageUSD : U;
  us_WeeklyUsageUSD : U;
  us_MonthlyUsageUSD : U;
  us_AssignedBy : option Z;
  us_AssignedAt : time;
  us_Notes : string;
  us_DeletedAt : option time;
}.
Arguments us_ID {U}. Arguments us_UserID {U}. Arguments us_GroupID {U}.
Arguments us_StartsAt {U}. Arguments us_ExpiresAt {U}. Arguments us_Status {U}.
Arguments us_DailyWindowStart {U}. Arguments us_WeeklyWindowStart {U}.
Arguments us_MonthlyWindowStart {U}. Arguments us_DailyUsageUSD {U}.
Arguments us_WeeklyUsageUSD {U}. Arguments us_MonthlyUsageUSD {U}.
Arguments us_AssignedBy {U}. Arguments us_AssignedAt {U}. Arguments us_Notes {U}.
Arguments us_DeletedAt {U}.

(** The three windows a subscription counts in. *)
Inductive Window := Daily | Weekly | Monthly.
Definition period (w : Window) : duration :=
  match w with Daily => Day | Weekly => 7 * Day | Monthly => 30 * Day end.

Section Fields.
Context {U : Type}.

Definition window_start (w : Window) (s : UserSubscription U) : option time :=
  match w with
  | Daily => us_DailyWindowStart s
  | Weekly => us_WeeklyWindowStart s
  | Monthly => us_MonthlyWindowStart s
  end.
Definition window_usage (w : Window) (s : UserSubscription U) : U :=
  match w with
  | Daily => us_DailyUsageUSD s
  | Weekly => us_WeeklyUsageUSD s
  | Monthly => us_MonthlyUsageUSD s
  end.

(** A copy with other window starts, usage, status, notes, term, mark of deletion. *)
Definition set_starts (f : Window → option time) (s : UserSubscription U) : UserSubscription U :=
  {| us_ID := us_ID s; us_UserID := us_UserID s; us_GroupID := us_GroupID s;
     us_StartsAt := us_StartsAt s; us_ExpiresAt := us_ExpiresAt s; us_Status := us_Status s;
     us_DailyWindowStart := f Daily; us_WeeklyWindowStart := f Weekly;
     us_MonthlyWindowStart := f Monthly; us_DailyUsageUSD := us_DailyUsageUSD s;
     us_WeeklyUsageUSD := us_WeeklyUsageUSD s; us_MonthlyUsageUSD := us_MonthlyUsageUSD s;
     us_AssignedBy := us_AssignedBy s; us_AssignedAt := us_AssignedAt s; us_Notes := us_Notes s;
     us_DeletedAt := us_DeletedAt s |}.
Definition set_usage {V} (f : Window → V) (s : UserSubscription U) : UserSubscription V :=
  {| us_ID := us_ID s; us_UserID := us_UserID s; us_GroupID := us_GroupID s;
     us_StartsAt := us_StartsAt s; us_ExpiresAt := us_ExpiresAt s; us_Status := us_Status s;
     us_DailyWindowStart := us_DailyWindowStart s; us_WeeklyWindowStart := us_WeeklyWindowStart s;
     us_MonthlyWindowStart := us_MonthlyWindowStart s; us_DailyUsageUSD := f Daily;
     us_WeeklyUsageUSD := f Weekly; us_MonthlyUsageUSD := f Monthly;
     us_AssignedBy := us_AssignedBy s; us_AssignedAt := us_AssignedAt s; us_Notes := us_Notes s;
     us_DeletedAt := us_DeletedAt s |}.
Definition set_term (startsAt expiresAt : time) (status notes : string) (deletedAt : option time)
    (s : UserSubscription U) : UserSubscription U :=
  {| us_ID := us_ID s; us_UserID := us_UserID s; us_GroupID := us_GroupID s;
     us_StartsAt := startsAt; us_ExpiresAt := expiresAt; us_Status := status;
     us_DailyWindowStart := us_DailyWindowStart s; us_WeeklyWindowStart := us_WeeklyWindowStart s;
     us_MonthlyWindowStart := us_MonthlyWindowStart s; us_DailyUsageUSD := us_DailyUsageUSD s;
     us_WeeklyUsageUSD := us_WeeklyUsageUSD s; us_MonthlyUsageUSD := us_MonthlyUsageUSD s;
     us_AssignedBy := us_AssignedBy s; us_AssignedAt := us_AssignedAt s; us_Notes := notes;
     us_DeletedAt := deletedAt |}.
Definition set_ExpiresAt (t : time) (s : UserSubscription U) : UserSubscription U :=
  set_term (us_StartsAt s) t (us_Status s) (us_Notes s) (us_DeletedAt s) s.
Definition set_Status (status : string) (s : UserSubscription U) : UserSubscription U :=
  set_term (us_StartsAt s) (us_ExpiresAt s) status (us_Notes s) (us_DeletedAt s) s.
Definition set_Notes (notes : string) (s : UserSubscription U) : UserSubscription U :=
  set_term (us_StartsAt s) (us_ExpiresAt s) (us_Status s) notes (us_DeletedAt s) s.
Definition set_DeletedAt (t : option time) (s : UserSubscription U) : UserSubscription U :=
  set_term (us_StartsAt s) (us_ExpiresAt s) (us_Status s) (us_Notes s) t s.

#[global] Instance window_eq_dec : EqDecision Window.
Proof. solve_decision. Defined.

(** Another start, and another usage, of one window. *)
Definition set_start (w : Window) (t : option time) (s : UserSubscription U) : UserSubscription U :=
  set_starts (λ v, if decide (v = w) then t else window_start v s) s.
Definition put_usage (w : Window) (u : U) (s : UserSubscription U) : UserSubscription U :=
  set_usage (λ v, if decide (v = w) then u else window_usage v s) s.
End Fields.

(** ** user_subscription.go *)

(** The location of the times the program reads: a fixed offset from UTC. *)
Class Location := { zone_offset : duration }.
Definition startOfDay `{Location} (t : time) : time := t - (t + zone_offset) mod Day.

Section Methods.
Context `{Location} {U : Type}.
Implicit Type s : UserSubscription U.

Definition IsActive (now : time) s : bool :=
  String.eqb (us_Status s) SubscriptionStatusActive && time_Before now (us_ExpiresAt s).
Definition IsExpired (now : time) s : bool := time_After now (us_ExpiresAt s).

Definition daysRemainingAt (now : time) s : Z :=
  let remaining := time_Sub (us_ExpiresAt s) now in
  if remaining <=? 0 then 0
  else
    let days := Z.quot remaining Day in
    if Z.rem remaining Day =? 0 then days else days + 1.

Definition IsWindowActivated s : bool :=
  bool_decide (is_Some (us_DailyWindowStart s)) || bool_decide (is_Some (us_WeeklyWindowStart s))
  || bool_decide (is_Some (us_MonthlyWindowStart s)).

Definition HasOneTimeDailyQuota s : bool :=
  if time_IsZero (us_StartsAt s) || time_IsZero (us_ExpiresAt s) then false
  else negb (time_After (us_ExpiresAt s) (AddDays (us_StartsAt s) 1)).

Definition NeedsDailyResetAt (now : time) s : bool :=
  match us_DailyWindowStart s with
  | None => false
  | Some t => if HasOneTimeDailyQuota s then false else negb (time_Before now (time_Add t Day))
  end.
Definition NeedsWeeklyResetAt (now : time) s : bool :=
  match us_WeeklyWindowStart s with
  | None => false
  | Some t => negb (time_Before now (time_Add t (7 * Day)))
  end.
Definition NeedsMonthlyResetAt (now : time) s : bool :=
  match us_MonthlyWindowStart s with
  | None => false
  | Some t => negb (time_Before now (time_Add t (30 * Day)))
  end.

Definition automaticWindowStartAt s (previous : option time) (per : duration) (now : time)
  : option time :=
  match previous with
  | None => None
  | Some anchor =>
      let legacyAnchor := startOfDay (us_StartsAt s) in
      let anchor := if time_Before legacyAnchor (us_StartsAt s) && time_Equal anchor legacyAnchor
                    then us_StartsAt s else anchor in
      let next := time_Add anchor per in
      if time_Before now next || negb (time_Before next (us_ExpiresAt s)) then None
      else
        let periods := Z.quot (time_Sub now anchor) per in
        let lastPeriodBeforeExpiry := Z.quot (time_Sub (us_ExpiresAt s) anchor -ᵢ 1) per in
        let periods := if lastPeriodBeforeExpiry <? periods then lastPeriodBeforeExpiry else periods in
        Some (time_Add anchor (periods *ᵢ per))
  end.

Definition canAutomaticallyResetDailyAt (now : time) s : bool :=
  negb (HasOneTimeDailyQuota s)
  && bool_decide (is_Some (automaticWindowStartAt s (us_DailyWindowStart s) Day now)).
Definition canAutomaticallyResetWeeklyAt (now : time) s : bool :=
  bool_decide (is_Some (automaticWindowStartAt s (us_WeeklyWindowStart s) (7 * Day) now)).
Definition canAutomaticallyResetMonthlyAt (now : time) s : bool :=
  bool_decide (is_Some (automaticWindowStartAt s (us_MonthlyWindowStart s) (30 * Day) now)).

Definition DailyResetTime s : option time :=
  match us_DailyWindowStart s with
  | None => None
  | Some t => Some (if HasOneTimeDailyQuota s then us_ExpiresAt s else time_Add t Day)
  end.
Definition WeeklyResetTime s : option time :=
  match us_WeeklyWindowStart s with None => None | Some t => Some (time_Add t (7 * Day)) end.
Definition MonthlyResetTime s : option time :=
  match us_MonthlyWindowStart s with None => None | Some t => Some (time_Add t (30 * Day)) end.
End Methods.

(** The columns of [groups] that count here. *)
Record SubGroup := {
  sg_subscription_type : bool;
  sg_DailyLimitUSD : option f64;
  sg_WeeklyLimitUSD : option f64;
  sg_MonthlyLimitUSD : option f64;
  sg_deleted : bool;
}.
Definition limit (w : Window) (g : SubGroup) : option f64 :=
  match w with
  | Daily => sg_DailyLimitUSD g
  | Weekly => sg_WeeklyLimitUSD g
  | Monthly => sg_MonthlyLimitUSD g
  end.

(** [HasDailyLimit], [HasWeeklyLimit] and [HasMonthlyLimit] *)
Definition HasLimit (w : Window) (g : SubGroup) : bool :=
  match limit w g with Some l => f0 <ᶠ l | None => false end.
(** [CheckDailyLimit], [CheckWeeklyLimit] and [CheckMonthlyLimit] *)
Definition CheckLimit (w : Window) (s : UserSubscription f64) (g : SubGroup) (additionalCost : f64)
  : bool :=
  if negb (HasLimit w g) then true
  else (window_usage w s +ᶠ additionalCost) ≤ᶠ default f0 (limit w g).
Definition CheckAllLimits (s : UserSubscription f64) (g : SubGroup) (additionalCost : f64)
  : bool * bool * bool :=
  (CheckLimit Daily s g additionalCost, CheckLimit Weekly s g additionalCost,
   CheckLimit Monthly s g additionalCost).

(** ** The table *)

Abbreviation row := (UserSubscription Z).
Abbreviation copy := (UserSubscription f64).

(** [l1] is the cache of the process in front of the table: by user and group,
    the copy that was read last. *)
Record SubDB := {
  sub_rows : gmap Z row;
  sub_groups : gmap Z SubGroup;
  next_sub : Z;
  l1 : gmap (Z * Z) copy;
}.
Definition set_rows (f : gmap Z row → gmap Z row) (d : SubDB) : SubDB :=
  {| sub_rows := f (sub_rows d); sub_groups := sub_groups d; next_sub := next_sub d; l1 := l1 d |}.
Definition set_l1 (f : gmap (Z * Z) copy → gmap (Z * Z) copy) (d : SubDB) : SubDB :=
  {| sub_rows := sub_rows d; sub_groups := sub_groups d; next_sub := next_sub d; l1 := f (l1 d) |}.

Inductive SubErr :=
| ESubDB
| ESubNotFound
| ESubExpired
| ESubSuspended
| ESubAlreadyExists
| EAssignConflict (reason : string)
| ENotRevoked
| ERestoreConflict
| EGroupNotFound
| EGroupNotSubscriptionType
| EInvalidInput
| ELimitExceeded (w : Window)
| EAdjustWouldExpire
| ECannotShortenExpired
| ECache
| ENoActiveSubscription
| EMaintenanceFailed.

Abbreviation sp A := (proc SubDB Oracle A).
Notation "x <-s m ; k" :=
  (proc_bind m (λ r, match r with Ok x => k | Err e => Ret (Err e) end))
  (at level 100, m at level 99, k at level 200, right associativity) : go_scope.

(** A query, and a read of a cache that may miss. *)
Definition sread {A} (f : SubDB → res SubErr A) : sp (res SubErr A) :=
  act (λ o s, (match fate o with Fine => f s | _ => Err ESubDB end, s)).
Definition swrite {A} (f : SubDB → res SubErr (A * SubDB)) : sp (res SubErr A) :=
  write ESubDB (λ _, f).
(** An access to the cache, which may drop it. *)
Definition cache_write (f : gmap (Z * Z) copy → gmap (Z * Z) copy) : sp unit :=
  act (λ o s, ((), match fate o with Fine => set_l1 f s | _ => s end)).
Definition cache_get (key : Z * Z) : sp (option copy) :=
  act (λ o s, (match fate o with Fine => l1 s !! key | _ => None end, s)).

Definition live {U} (s : UserSubscription U) : bool := bool_decide (us_DeletedAt s = None).
Definition owned {U} (uid gid : Z) (s : UserSubscription U) : bool :=
  (us_UserID s =? uid) && (us_GroupID s =? gid).

Definition rows_where (p : row → bool) (d : SubDB) : list row :=
  filter (λ r, p r = true) (snd <$> map_to_list (sub_rows d)).
(** ent's [Only]: exactly one row *)
Definition Only (p : row → bool) (d : SubDB) : res SubErr row :=
  match rows_where p d with
  | [] => Err ESubNotFound
  | [r] => Ok r
  | _ => Err ESubDB
  end.

(** The partial unique index on user and group of the live rows. *)
Definition taken (id : Z) (r : row) (d : SubDB) : bool :=
  live r && existsb (λ r', live r' && owned (us_UserID r) (us_GroupID r) r' && negb (us_ID r' =? id))
                    (snd <$> map_to_list (sub_rows d)).

(** An update of the row with an id, deleted or not: ent hides deleted rows
    from queries, not from updates. *)
Definition UpdateOneID (id : Z) (f : row → row) (conflict : SubErr) (d : SubDB) : res SubErr SubDB :=
  match sub_rows d !! id with
  | None => Err ESubNotFound
  | Some r => if taken id (f r) d then Err conflict else Ok (set_rows <[id := f r]> d)
  end.
Definition done_with {A} (a : A) (r : res SubErr SubDB) : res SubErr (A * SubDB) :=
  d <-? r; Ok (a, d).

Section Repository.
Context `{PgFloat}.

Definition entity (mapDeletedToRevoked : bool) (r : row) : copy :=
  let s := set_usage (λ w, scan (dec scale10 (window_usage w r))) r in
  if mapDeletedToRevoked && negb (live r) then set_Status SubscriptionStatusRevoked s else s.
Definition userSubscriptionEntityToService : row → copy := entity true.
Definition userSubscriptionEntityToServicePreserveStatus : row → copy := entity false.

(** The driver rounds a float64 to the column when it writes it. *)
Definition to_row (s : copy) : option row :=
  x ← store scale10 (num (us_DailyUsageUSD s));
  y ← store scale10 (num (us_WeeklyUsageUSD s));
  z ← store scale10 (num (us_MonthlyUsageUSD s));
  Some (set_usage (λ w, match w with Daily => x | Weekly => y | Monthly => z end) s).

Definition new_row (id : Z) (startsAt assignedAt : time) (r : row) : row :=
  {| us_ID := id; us_UserID := us_UserID r; us_GroupID := us_GroupID r; us_StartsAt := startsAt;
     us_ExpiresAt := us_ExpiresAt r;
     us_Status := if String.eqb (us_Status r) "" then SubscriptionStatusActive else us_Status r;
     us_DailyWindowStart := us_DailyWindowStart r; us_WeeklyWindowStart := us_WeeklyWindowStart r;
     us_MonthlyWindowStart := us_MonthlyWindowStart r; us_DailyUsageUSD := us_DailyUsageUSD r;
     us_WeeklyUsageUSD := us_WeeklyUsageUSD r; us_MonthlyUsageUSD := us_MonthlyUsageUSD r;
     us_AssignedBy := us_AssignedBy r; us_AssignedAt := assignedAt; us_Notes := us_Notes r;
     us_DeletedAt := None |}.
Definition insert_row (startsAt assignedAt : time) (sub : copy) (d : SubDB) : res SubErr (Z * SubDB) :=
  match to_row sub with
  | None => Err ESubDB
  | Some r =>
      let id := next_sub d in
      let r := new_row id startsAt assignedAt r in
      if taken id r d then Err ESubAlreadyExists
      else Ok (id, {| sub_rows := <[id := r]> (sub_rows d); sub_groups := sub_groups d;
                      next_sub := id + 1; l1 := l1 d |})
  end.
Definition Create (sub : copy) : sp (res SubErr Z) :=
  startsAt <-p (if time_IsZero (us_StartsAt sub) then now else Ret (us_StartsAt sub));
  assignedAt <-p (if time_IsZero (us_AssignedAt sub) then now else Ret (us_AssignedAt sub));
  swrite (insert_row startsAt assignedAt sub).

Definition GetByID (id : Z) : sp (res SubErr copy) :=
  sread (λ d, match sub_rows d !! id with
              | Some r => if live r then Ok (userSubscriptionEntityToService r) else Err ESubNotFound
              | None => Err ESubNotFound
              end).
Definition GetByIDIncludeDeleted (id : Z) : sp (res SubErr copy) :=
  sread (λ d, match sub_rows d !! id with
              | Some r => Ok (userSubscriptionEntityToServicePreserveStatus r)
              | None => Err ESubNotFound
              end).
Definition GetByUserIDAndGroupID (uid gid : Z) : sp (res SubErr copy) :=
  sread (λ d, r <-? Only (λ r, live r && owned uid gid r) d; Ok (userSubscriptionEntityToService r)).
Definition GetActiveByUserIDAndGroupID (uid gid : Z) : sp (res SubErr copy) :=
  t <-p now;
  sread (λ d, r <-? Only (λ r, live r && owned uid gid r
                              && String.eqb (us_Status r) SubscriptionStatusActive
                              && time_After (us_ExpiresAt r) t) d;
              Ok (userSubscriptionEntityToService r)).
Definition ExistsByUserIDAndGroupID (uid gid : Z) : sp (res SubErr bool) :=
  sread (λ d, Ok (negb (bool_decide (rows_where (λ r, live r && owned uid gid r) d = [])))).
Definition ExistsActiveByUserIDAndGroupID : Z → Z → sp (res SubErr bool) := ExistsByUserIDAndGroupID.

(** ent's [SetNillable] leaves a column alone when the value is nil; the mark
    of deletion is not written. *)
Definition Update (sub : copy) (d : SubDB) : res SubErr SubDB :=
  match to_row sub with
  | None => Err ESubDB
  | Some n =>
      UpdateOneID (us_ID sub) (λ r,
        let keep {A} (new old : option A) := match new with Some _ => new | None => old end in
        {| us_ID := us_ID r; us_UserID := us_UserID n; us_GroupID := us_GroupID n;
           us_StartsAt := us_StartsAt n; us_ExpiresAt := us_ExpiresAt n; us_Status := us_Status n;
           us_DailyWindowStart := keep (us_DailyWindowStart n) (us_DailyWindowStart r);
           us_WeeklyWindowStart := keep (us_WeeklyWindowStart n) (us_WeeklyWindowStart r);
           us_MonthlyWindowStart := keep (us_MonthlyWindowStart n) (us_MonthlyWindowStart r);
           us_DailyUsageUSD := us_DailyUsageUSD n; us_WeeklyUsageUSD := us_WeeklyUsageUSD n;
           us_MonthlyUsageUSD := us_MonthlyUsageUSD n;
           us_AssignedBy := keep (us_AssignedBy n) (us_AssignedBy r);
           us_AssignedAt := us_AssignedAt n; us_Notes := us_Notes n;
           us_DeletedAt := us_DeletedAt r |}) ESubAlreadyExists d
  end.
Definition ExtendExpiry (id : Z) (newExpiresAt : time) : SubDB → res SubErr SubDB :=
  UpdateOneID id (set_ExpiresAt newExpiresAt) ESubDB.
Definition UpdateStatus (id : Z) (status : string) : SubDB → res SubErr SubDB :=
  UpdateOneID id (set_Status status) ESubDB.
Definition UpdateNotes (id : Z) (notes : string) : SubDB → res SubErr SubDB :=
  UpdateOneID id (set_Notes notes) ESubDB.

(** The soft delete: [DELETE] becomes an update of the live row, if any. *)
Definition delete_row (id : Z) (t : time) (d : SubDB) : res SubErr (unit * SubDB) :=
  Ok ((), match sub_rows d !! id with
          | Some r => if live r then set_rows <[id := set_DeletedAt (Some t) r]> d else d
          | None => d
          end).
Definition Delete (id : Z) : sp (res SubErr unit) := t <-p now; swrite (delete_row id t).
Definition delete_group_rows (gid : Z) (t : time) (d : SubDB) : res SubErr (unit * SubDB) :=
  Ok ((), set_rows (fmap (λ r : row, if live r && (us_GroupID r =? gid)
                                     then set_DeletedAt (Some t) r else r)) d).
Definition DeleteByGroupID (gid : Z) : sp (res SubErr unit) :=
  t <-p now; swrite (delete_group_rows gid t).
Definition restore_row (id : Z) (restoredStatus : string) (d : SubDB) : res SubErr (unit * SubDB) :=
  done_with () (UpdateOneID id (λ r, set_DeletedAt None (set_Status restoredStatus r)) ERestoreConflict d).
Definition Restore (id : Z) (restoredStatus : string) : sp (res SubErr copy) :=
  _ <-s swrite (restore_row id restoredStatus);
  GetByID id.

(** [translateConditionalWindowReset]: no row was updated *)
Definition translateConditionalWindowReset (id affected : Z) : sp (res SubErr unit) :=
  if 0 <? affected then Ret (Ok ())
  else sread (λ d, match sub_rows d !! id with
                   | Some r => if live r then Ok () else Err ESubNotFound
                   | None => Err ESubNotFound
                   end).

(** [UPDATE ... WHERE id = ... AND ...]: the number of rows updated *)
Definition update_where (id : Z) (p : row → bool) (f : row → row) (d : SubDB)
  : res SubErr (Z * SubDB) :=
  match sub_rows d !! id with
  | Some r => if p r then Ok (1, set_rows <[id := f r]> d) else Ok (0, d)
  | None => Ok (0, d)
  end.

Definition activate_row (id : Z) (start : time) : SubDB → res SubErr (Z * SubDB) :=
  update_where id (λ r, negb (IsWindowActivated r)) (set_starts (λ _, Some start)).
Definition ActivateWindows (id : Z) (start : time) : sp (res SubErr unit) :=
  n <-s swrite (activate_row id start);
  translateConditionalWindowReset id n.

(** [ResetDailyUsage], [ResetWeeklyUsage] and [ResetMonthlyUsage] *)
Definition reset_usage_row (w : Window) (id : Z) (expectedWindowStart : option time)
    (newWindowStart : time) : SubDB → res SubErr (Z * SubDB) :=
  update_where id (λ r, bool_decide (window_start w r = expectedWindowStart))
    (λ r, set_start w (Some newWindowStart) (put_usage w 0 r)).
Definition ResetUsage (w : Window) (id : Z) (expectedWindowStart : option time) (newWindowStart : time)
  : sp (res SubErr unit) :=
  n <-s swrite (reset_usage_row w id expectedWindowStart newWindowStart);
  translateConditionalWindowReset id n.

Definition reset_windows_row (id : Z) (resets : Window → bool) (newWindowStart : time) (d : SubDB)
  : res SubErr (unit * SubDB) :=
  done_with () (UpdateOneID id (λ r,
    set_starts (λ w, if resets w then Some newWindowStart else window_start w r)
      (set_usage (λ w, if resets w then 0 else window_usage w r) r)) ESubDB d).
Definition ResetUsageWindows (id : Z) (resets : Window → bool) (newWindowStart : time)
  : sp (res SubErr unit) := swrite (reset_windows_row id resets newWindowStart).

Definition increment_row (id : Z) (costUSD : f64) (d : SubDB) : res SubErr (unit * SubDB) :=
    match sub_rows d !! id with
    | None => Err ESubNotFound
    | Some r =>
        if negb (live r) || default true (sg_deleted <$> sub_groups d !! us_GroupID r)
        then Err ESubNotFound
        else
          match store scale10 (dec scale10 (us_DailyUsageUSD r) + num costUSD)%Q,
                store scale10 (dec scale10 (us_WeeklyUsageUSD r) + num costUSD)%Q,
                store scale10 (dec scale10 (us_MonthlyUsageUSD r) + num costUSD)%Q with
          | Some x, Some y, Some z =>
              Ok ((), set_rows <[id := set_usage (λ w, match w with Daily => x | Weekly => y
                                                                  | Monthly => z end) r]> d)
          | _, _, _ => Err ESubDB
          end
    end.
Definition IncrementUsage (id : Z) (costUSD : f64) : sp (res SubErr unit) :=
  swrite (increment_row id costUSD).

Definition expire_rows (t : time) (d : SubDB) : res SubErr (unit * SubDB) :=
  Ok ((), set_rows (fmap (λ r : row,
            if String.eqb (us_Status r) SubscriptionStatusActive && negb (time_After (us_ExpiresAt r) t)
            then set_Status SubscriptionStatusExpired r else r)) d).
Definition BatchUpdateExpiredStatus : sp (res SubErr unit) := t <-p now; swrite (expire_rows t).
End Repository.

(** ** subscription_service.go *)

Record AssignSubscriptionInput := {
  as_UserID : Z;
  as_GroupID : Z;
  as_ValidityDays : Z;
  as_AssignedBy : Z;
  as_Notes : string;
}.

Definition normalizeAssignValidityDays (days : Z) : Z :=
  let days := if days <=? 0 then 30 else days in
  if MaxValidityDays <? days then MaxValidityDays else days.

Definition new_subscription (now : time) (input : AssignSubscriptionInput) : copy :=
  let expiresAt := cap_expiry (AddDays now (normalizeAssignValidityDays (as_ValidityDays input))) in
  {| us_ID := 0; us_UserID := as_UserID input; us_GroupID := as_GroupID input; us_StartsAt := now;
     us_ExpiresAt := expiresAt; us_Status := SubscriptionStatusActive; us_DailyWindowStart := None;
     us_WeeklyWindowStart := None; us_MonthlyWindowStart := None; us_DailyUsageUSD := f0;
     us_WeeklyUsageUSD := f0; us_MonthlyUsageUSD := f0;
     us_AssignedBy := if 0 <? as_AssignedBy input then Some (as_AssignedBy input) else None;
     us_AssignedAt := now; us_Notes := as_Notes input; us_DeletedAt := None |}.

(** [renewedSubscriptionTerm] *)
Definition renewed (existing : copy) (notes : string) (startsAt expiresAt : time) : copy :=
  set_starts (λ _, Some startsAt) (set_usage (λ _, f0)
    (set_term startsAt expiresAt SubscriptionStatusActive
       (appendSubscriptionNotes (us_Notes existing) notes) (us_DeletedAt existing) existing)).

Section Service.
Context `{GoText} `{PgFloat} `{Location}.

(** The caches of other processes and in Redis are not modelled; that they fail
    matters where the caller looks at it. *)
Definition InvalidateSubCache (uid gid : Z) : sp unit := cache_write (delete (uid, gid)).
Definition InvalidateSubCacheSync : Z → Z → sp unit := InvalidateSubCache.
Definition invalidate_caches (uid gid : Z) : sp (res SubErr unit) :=
  _ <-p InvalidateSubCacheSync uid gid;
  act (λ o s, (match fate o with Fine => Ok () | _ => Err ECache end, s)).
Definition maybeInvalidateAssignmentCaches (uid gid : Z) (deferred : bool) : sp unit :=
  if deferred then Ret () else InvalidateSubCache uid gid.

(** The statements of one transaction; [startsAt] is also the renewed start. *)
Definition update_term (existing : copy) (notes : string) (startsAt newExpiresAt : time)
    (isExpired : bool) (d : SubDB) : res SubErr (unit * SubDB) :=
  done_with ()
    (if isExpired then Update (renewed existing notes startsAt newExpiresAt) d
     else
       d1 <-? ExtendExpiry (us_ID existing) newExpiresAt d;
       d2 <-? (if String.eqb (us_Status existing) SubscriptionStatusActive then Ok d1
               else UpdateStatus (us_ID existing) SubscriptionStatusActive d1);
       if String.eqb notes "" then Ok d2
       else UpdateNotes (us_ID existing) (appendSubscriptionNotes (us_Notes existing) notes) d2).
Definition updateExistingSubscriptionTerm (existing : copy) (notes : string)
    (startsAt newExpiresAt : time) (isExpired : bool) : sp (res SubErr unit) :=
  swrite (update_term existing notes startsAt newExpiresAt isExpired).

Definition createSubscription (input : AssignSubscriptionInput) : sp (res SubErr copy) :=
  t <-p now;
  id <-s Create (new_subscription t input);
  GetByID id.

Definition subscription_group (gid : Z) : sp (res SubErr SubGroup) :=
  g <-s sread (λ d, match sub_groups d !! gid with
                    | Some g => if sg_deleted g then Err EGroupNotFound else Ok g
                    | None => Err EGroupNotFound
                    end);
  if sg_subscription_type g then Ret (Ok g) else Ret (Err EGroupNotSubscriptionType).

Definition assign_or_extend (input : AssignSubscriptionInput) (deferCacheInvalidation : bool)
  : sp (res SubErr (copy * bool)) :=
  let uid := as_UserID input in let gid := as_GroupID input in
  _ <-s subscription_group gid;
  existing <-p GetByUserIDAndGroupID uid gid;
  match existing with
  | Ok sub =>
      t <-p now;
      let validityDays := normalizeAssignValidityDays (as_ValidityDays input) in
      let isExpired := negb (time_After (us_ExpiresAt sub) t) in
      let newExpiresAt := cap_expiry (AddDays (if isExpired then t else us_ExpiresAt sub) validityDays) in
      _ <-s updateExistingSubscriptionTerm sub (as_Notes input) t newExpiresAt isExpired;
      _ <-p maybeInvalidateAssignmentCaches uid gid deferCacheInvalidation;
      s <-s GetByID (us_ID sub);
      Ret (Ok (s, true))
  | Err _ =>
      sub <-s createSubscription input;
      _ <-p maybeInvalidateAssignmentCaches uid gid deferCacheInvalidation;
      Ret (Ok (sub, false))
  end.
Definition AssignOrExtendSubscription (input : AssignSubscriptionInput) : sp (res SubErr (copy * bool)) :=
  assign_or_extend input false.

Definition detectAssignSemanticConflict (existing : copy) (input : AssignSubscriptionInput)
  : option string :=
  let normalizedDays := normalizeAssignValidityDays (as_ValidityDays input) in
  if negb (time_IsZero (us_StartsAt existing))
     && negb (time_Equal (us_ExpiresAt existing) (cap_expiry (AddDays (us_StartsAt existing) normalizedDays)))
  then Some "validity_days_mismatch"
  else if negb (String.eqb (TrimSpace (us_Notes existing)) (TrimSpace (as_Notes input)))
  then Some "notes_mismatch"
  else None.

Definition assignSubscriptionWithReuse (input : AssignSubscriptionInput) : sp (res SubErr (copy * bool)) :=
  let uid := as_UserID input in let gid := as_GroupID input in
  _ <-s subscription_group gid;
  exists_ <-s ExistsByUserIDAndGroupID uid gid;
  if exists_ then
    sub <-s GetByUserIDAndGroupID uid gid;
    t <-p now;
    if String.eqb (us_Status sub) SubscriptionStatusExpired
       || (negb (String.eqb (us_Status sub) SubscriptionStatusSuspended)
           && negb (time_After (us_ExpiresAt sub) t))
    then
      let newExpiresAt := cap_expiry (AddDays t (normalizeAssignValidityDays (as_ValidityDays input))) in
      let renewalNotes := if String.eqb (TrimSpace (us_Notes sub)) (TrimSpace (as_Notes input))
                          then "" else as_Notes input in
      _ <-s updateExistingSubscriptionTerm sub renewalNotes t newExpiresAt true;
      _ <-p maybeInvalidateAssignmentCaches uid gid false;
      s <-s GetByID (us_ID sub);
      Ret (Ok (s, true))
    else match detectAssignSemanticConflict sub input with
         | Some reason => Ret (Err (EAssignConflict reason))
         | None => Ret (Ok (sub, true))
         end
  else
    sub <-s createSubscription input;
    _ <-p InvalidateSubCache uid gid;
    Ret (Ok (sub, false)).
Definition AssignSubscription (input : AssignSubscriptionInput) : sp (res SubErr copy) :=
  r <-s assignSubscriptionWithReuse input; Ret (Ok (fst r)).

(** The status of every user of a bulk assignment: failed, reused or created. *)
Fixpoint BulkAssignSubscription (uids : list Z) (input : AssignSubscriptionInput)
  : sp (list (Z * res SubErr (copy * bool))) :=
  match uids with
  | [] => Ret []
  | uid :: uids =>
      r <-p assignSubscriptionWithReuse
              {| as_UserID := uid; as_GroupID := as_GroupID input; as_ValidityDays := as_ValidityDays input;
                 as_AssignedBy := as_AssignedBy input; as_Notes := as_Notes input |};
      rs <-p BulkAssignSubscription uids input;
      Ret ((uid, r) :: rs)
  end.

Definition RevokeSubscription (id : Z) : sp (res SubErr unit) :=
  sub <-s GetByID id;
  _ <-s Delete id;
  invalidate_caches (us_UserID sub) (us_GroupID sub).

Definition RestoreSubscription (id : Z) : sp (res SubErr copy) :=
  sub <-s GetByIDIncludeDeleted id;
  match us_DeletedAt sub with
  | None => Ret (Err ENotRevoked)
  | Some _ =>
      exists_ <-s ExistsActiveByUserIDAndGroupID (us_UserID sub) (us_GroupID sub);
      if exists_ then Ret (Err ERestoreConflict)
      else
        t <-p now;
        let restoredStatus :=
          if String.eqb (us_Status sub) SubscriptionStatusActive && negb (time_After (us_ExpiresAt sub) t)
          then SubscriptionStatusExpired else us_Status sub in
        restored <-s Restore id restoredStatus;
        _ <-s invalidate_caches (us_UserID restored) (us_GroupID restored);
        Ret (Ok restored)
  end.

Definition ExtendSubscription (id days : Z) : sp (res SubErr copy) :=
  sub <-p GetByID id;
  match sub with
  | Err _ => Ret (Err ESubNotFound)
  | Ok sub =>
      let days := if MaxValidityDays <? days then MaxValidityDays else days in
      let days := if days <? - MaxValidityDays then - MaxValidityDays else days in
      t <-p now;
      let isExpired := negb (time_After (us_ExpiresAt sub) t) in
      if isExpired && (days <? 0) then Ret (Err ECannotShortenExpired)
      else
        let newExpiresAt := cap_expiry (AddDays (if isExpired then t else us_ExpiresAt sub) days) in
        if negb (time_After newExpiresAt t) then Ret (Err EAdjustWouldExpire)
        else
          _ <-s swrite (λ d, done_with () (ExtendExpiry id newExpiresAt d));
          _ <-s (if String.eqb (us_Status sub) SubscriptionStatusExpired
                 then swrite (λ d, done_with () (UpdateStatus id SubscriptionStatusActive d))
                 else Ret (Ok ()));
          _ <-p InvalidateSubCache (us_UserID sub) (us_GroupID sub);
          GetByID id
  end.

(** The windows shown to a reader: expired ones are empty. *)
Definition normalizeExpiredWindowsAt {U} (zero : U) (now : time) (sub : UserSubscription U)
  : UserSubscription U :=
  let clear w (c : bool) s := if c then set_start w None (put_usage w zero s) else s in
  let s1 := clear Daily (canAutomaticallyResetDailyAt now sub) sub in
  let s2 := clear Weekly (canAutomaticallyResetWeeklyAt now s1) s1 in
  clear Monthly (canAutomaticallyResetMonthlyAt now s2) s2.
Definition normalizeSubscriptionStatus {U} (now : time) (sub : UserSubscription U) : UserSubscription U :=
  if String.eqb (us_Status sub) SubscriptionStatusActive && negb (time_After (us_ExpiresAt sub) now)
  then set_Status SubscriptionStatusExpired sub else sub.

Definition GetActiveSubscription (uid gid : Z) : sp (res SubErr copy) :=
  cached <-p cache_get (uid, gid);
  match cached with
  | Some sub => Ret (Ok sub)
  | None =>
      sub <-s GetActiveByUserIDAndGroupID uid gid;
      _ <-p cache_write (insert (uid, gid) sub);
      Ret (Ok sub)
  end.

Definition CheckAndActivateWindow (sub : copy) : sp (res SubErr unit) :=
  t <-p now;
  if IsWindowActivated sub then Ret (Ok ()) else ActivateWindows (us_ID sub) t.

Definition AdminResetQuota (id : Z) (resets : Window → bool) : sp (res SubErr copy) :=
  if negb (resets Daily) && negb (resets Weekly) && negb (resets Monthly) then Ret (Err EInvalidInput)
  else
    sub <-s GetByID id;
    t <-p now;
    _ <-s ResetUsageWindows (us_ID sub) resets t;
    _ <-p InvalidateSubCacheSync (us_UserID sub) (us_GroupID sub);
    GetByID id.

(** The start of the window that runs at [now], when the stored one is over. *)
Definition due_start {U} (w : Window) (now : time) (sub : UserSubscription U) : option time :=
  if match w with Daily => HasOneTimeDailyQuota sub | _ => false end then None
  else automaticWindowStartAt sub (window_start w sub) (period w) now.

(** One of the three parts of [CheckAndResetWindows]; whether it reset. *)
Definition reset_window (w : Window) (now : time) (sub : copy) : sp (res SubErr (copy * bool)) :=
  match due_start w now sub with
  | None => Ret (Ok (sub, false))
  | Some windowStart =>
      _ <-s ResetUsage w (us_ID sub) (window_start w sub) windowStart;
      Ret (Ok (set_start w (Some windowStart) (put_usage w f0 sub), true))
  end.
Definition CheckAndResetWindows (sub : copy) : sp (res SubErr unit) :=
  t <-p now;
  d <-s reset_window Daily t sub;
  w <-s reset_window Weekly t (fst d);
  m <-s reset_window Monthly t (fst w);
  if snd d || snd w || snd m
  then (_ <-p InvalidateSubCache (us_UserID sub) (us_GroupID sub); Ret (Ok ()))
  else Ret (Ok ()).

Definition EnsureWindowMaintenance (sub : copy) : sp (res SubErr copy) :=
  _ <-s (if negb (IsWindowActivated sub) then CheckAndActivateWindow sub else Ret (Ok ()));
  _ <-s CheckAndResetWindows sub;
  refreshed <-s GetByID (us_ID sub);
  _ <-p InvalidateSubCacheSync (us_UserID sub) (us_GroupID sub);
  Ret (Ok refreshed).

Definition CheckUsageLimits (sub : copy) (g : SubGroup) (additionalCost : f64) : res SubErr unit :=
  if negb (CheckLimit Daily sub g additionalCost) then Err (ELimitExceeded Daily)
  else if negb (CheckLimit Weekly sub g additionalCost) then Err (ELimitExceeded Weekly)
  else if negb (CheckLimit Monthly sub g additionalCost) then Err (ELimitExceeded Monthly)
  else Ok ().

(** The subscription with the usage of finished windows taken as zero, whether
    the table needs maintenance, and the verdict. *)
Definition ValidateAndCheckLimits (now : time) (sub : copy) (g : SubGroup)
  : copy * bool * res SubErr unit :=
  if String.eqb (us_Status sub) SubscriptionStatusExpired then (sub, false, Err ESubExpired)
  else if String.eqb (us_Status sub) SubscriptionStatusSuspended then (sub, false, Err ESubSuspended)
  else if negb (time_After (us_ExpiresAt sub) now) then (sub, false, Err ESubExpired)
  else
    let clear w (c : bool) s := if c then put_usage w f0 s else s in
    let daily := canAutomaticallyResetDailyAt now sub in
    let s1 := clear Daily daily sub in
    let weekly := canAutomaticallyResetWeeklyAt now s1 in
    let s2 := clear Weekly weekly s1 in
    let monthly := canAutomaticallyResetMonthlyAt now s2 in
    let s3 := clear Monthly monthly s2 in
    let needsMaintenance := daily || weekly || monthly || negb (IsWindowActivated s3) in
    (s3, needsMaintenance,
     if negb (CheckLimit Daily s3 g f0) then Err (ELimitExceeded Daily)
     else if negb (CheckLimit Weekly s3 g f0) then Err (ELimitExceeded Weekly)
     else if negb (CheckLimit Monthly s3 g f0) then Err (ELimitExceeded Monthly)
     else Ok ()).

(** In the background: the errors are logged. *)
Definition doWindowMaintenance (sub : copy) : sp unit :=
  _ <-p (if negb (IsWindowActivated sub) then CheckAndActivateWindow sub else Ret (Ok ()));
  _ <-p CheckAndResetWindows sub;
  InvalidateSubCache (us_UserID sub) (us_GroupID sub).

Definition RecordUsage (id : Z) (costUSD : f64) : sp (res SubErr unit) := IncrementUsage id costUSD.

Definition ValidateSubscription (sub : copy) : sp (res SubErr unit) :=
  if String.eqb (us_Status sub) SubscriptionStatusExpired then Ret (Err ESubExpired)
  else if String.eqb (us_Status sub) SubscriptionStatusSuspended then Ret (Err ESubSuspended)
  else
    t <-p now;
    if IsExpired t sub then
      _ <-p swrite (λ d, done_with () (UpdateStatus (us_ID sub) SubscriptionStatusExpired d));
      Ret (Err ESubExpired)
    else Ret (Ok ()).

(** *** The progress shown to a user *)
Record UsageWindowProgress := {
  LimitUSD : f64;
  UsedUSD : f64;
  RemainingUSD : f64;
  Percentage : f64;
  WindowStart : time;
  ResetsAt : time;
  ResetsInSeconds : Z;
}.
(** [Duration.Seconds] *)
Definition Seconds (d : duration) : f64 :=
  f_of_int (Z.quot d Second) +ᶠ fdiv (f_of_int (Z.rem d Second)) (f_of_int 1000000000).

(** The three parts of [calculateProgress] *)
Definition window_progress (w : Window) (now : time) (sub : copy) (g : SubGroup)
  : option UsageWindowProgress :=
  match limit w g, window_start w sub with
  | Some l, Some start =>
      if negb (HasLimit w g) then None
      else
        let resetsAt := match w with
                        | Daily => default (time_Add start Day) (DailyResetTime sub)
                        | _ => time_Add start (period w)
                        end in
        let used := window_usage w sub in
        let remaining := l -ᶠ used in
        let percentage := fdiv used l *ᶠ f_of_int 100 in
        let seconds := f_to_int (Seconds (time_Sub resetsAt now)) in
        Some {| LimitUSD := l; UsedUSD := used;
                RemainingUSD := if remaining <ᶠ f0 then f0 else remaining;
                Percentage := if f_of_int 100 <ᶠ percentage then f_of_int 100 else percentage;
                WindowStart := start; ResetsAt := resetsAt;
                ResetsInSeconds := if seconds <? 0 then 0 else seconds |}
  | _, _ => None
  end.
(** The id, the days left and the windows of [calculateProgress] *)
Definition calculateProgress (now : time) (sub : copy) (g : SubGroup)
  : Z * time * Z * (Window → option UsageWindowProgress) :=
  (us_ID sub, us_ExpiresAt sub, daysRemainingAt now sub, λ w, window_progress w now sub g).

(** ** api_key_auth.go

    The admission of a request on a key whose group [g] is of subscription
    type: the subscription it may use. *)
Definition admit_subscription (uid gid : Z) (g : SubGroup) : sp (res SubErr copy) :=
  subscription <-p GetActiveSubscription uid gid;
  match subscription with
  | Err _ => Ret (Err ENoActiveSubscription)
  | Ok subscription =>
      t <-p now;
      let '(subscription, needsMaintenance, validateErr) := ValidateAndCheckLimits t subscription g in
      if needsMaintenance then
        refreshed <-p EnsureWindowMaintenance subscription;
        match refreshed with
        | Err _ => Ret (Err EMaintenanceFailed)
        | Ok refreshed =>
            t <-p now;
            let '(subscription, _, validateErr) := ValidateAndCheckLimits t refreshed g in
            Ret (_ <-? validateErr; Ok subscription)
        end
      else Ret (_ <-? validateErr; Ok subscription)
  end.

(** ** Requests *)
Inductive SubRequest :=
| SubAdmit (uid gid : Z) (g : SubGroup)
| SubMaintain (sub : copy)
| SubRecordUsage (id : Z) (costUSD : f64)
| SubValidate (sub : copy)
| SubAssign (input : AssignSubscriptionInput)
| SubAssignOrExtend (input : AssignSubscriptionInput)
| SubBulkAssign (uids : list Z) (input : AssignSubscriptionInput)
| SubExtend (id days : Z)
| SubRevoke (id : Z)
| SubRestore (id : Z)
| SubAdminReset (id : Z) (resets : Window → bool)
| SubDeleteGroup (gid : Z)
| SubExpiry.

Definition sub_serve (r : SubRequest) : sp (res SubErr unit) :=
  match r with
  | SubAdmit uid gid g => _ <-s admit_subscription uid gid g; Ret (Ok ())
  | SubMaintain sub => _ <-p doWindowMaintenance sub; Ret (Ok ())
  | SubRecordUsage id cost => RecordUsage id cost
  | SubValidate sub => ValidateSubscription sub
  | SubAssign input => _ <-s AssignSubscription input; Ret (Ok ())
  | SubAssignOrExtend input => _ <-s AssignOrExtendSubscription input; Ret (Ok ())
  | SubBulkAssign uids input => _ <-p BulkAssignSubscription uids input; Ret (Ok ())
  | SubExtend id days => _ <-s ExtendSubscription id days; Ret (Ok ())
  | SubRevoke id => RevokeSubscription id
  | SubRestore id => _ <-s RestoreSubscription id; Ret (Ok ())
  | SubAdminReset id resets => _ <-s AdminResetQuota id resets; Ret (Ok ())
  | SubDeleteGroup gid => DeleteByGroupID gid
  | SubExpiry => BatchUpdateExpiredStatus
  end.
End Service.
