(* ===== verification/SubscriptionSteps.v ===== *)
(** * The steps of operations on subscriptions

    What the operations of [Subscriptions.v] do to the table, from what their
    statements do: for a relation on states that every statement respects,
    every action of every request respects it. *)

From Stdlib Require Import ZArith Lia QArith Ascii String Bool.
From stdpp Require Import base numbers option list gmap strings relations.
From S2P Require Import Prelude GoStrings GoFloat UsageDB Proc ProcGhost Fulfillment Subscriptions.

#[local] Open Scope Z_scope.

Definition always {A} (a : A) : Prop := True.

Section Walk.
Context `{GT : GoText} `{PF : PgFloat} `{LO : Location}.
(** The oracle values of the run, the times its clock may show, an invariant of
    the states, and the relation. *)
Context (OK : Oracle → Prop) (Clock : time → Prop) (Inv : SubDB → Prop) (W : SubDB → SubDB → Prop).

Definition respects {A} (f : SubDB → res SubErr (A * SubDB)) : Prop :=
  ∀ d a d', Inv d → f d = Ok (a, d') → W d d'.
#[local] Abbreviation goes_on p Q := (yields OK Inv W p Q).

Context (clock_ok : ∀ o, OK o → Clock (o_now o))
  (same_ok : ∀ d, Inv d → W d d) (l1_ok : ∀ d f, Inv d → W d (set_l1 f d)).

Lemma on_now : goes_on now Clock.
Proof. intros o s Ho Hs. split; [by apply same_ok|by apply clock_ok]. Qed.
Lemma on_sread {A} (f : SubDB → res SubErr A) : goes_on (sread f) always.
Proof. intros o s _ Hs. split; [by apply same_ok|done]. Qed.
Lemma on_swrite {A} (f : SubDB → res SubErr (A * SubDB)) : respects f → goes_on (swrite f) always.
Proof.
  intros Hf o s _ Hs. split; [|done]. simpl. destruct (fate o), (f s) as [[a d']|e] eqn:E; simpl;
    solve [by apply same_ok|by eapply Hf].
Qed.
Lemma on_cache f : goes_on (cache_write f) always.
Proof. intros o s _ Hs. split; [|done]. simpl. destruct (fate o); [by apply l1_ok|by apply same_ok..]. Qed.
Lemma on_get key : goes_on (cache_get key) always.
Proof. intros o s _ Hs. split; [by apply same_ok|done]. Qed.
Lemma on_bind {A B} (p : sp A) (k : A → sp B) Q Q' :
  goes_on p Q → (∀ a, Q a → goes_on (k a) Q') → goes_on (proc_bind p k) Q'.
Proof. apply yields_bind. Qed.
(** The rest of an operation after a result that may be an error. *)
Lemma on_ok {A B} (p : sp (res SubErr A)) (k : A → sp (res SubErr B)) :
  goes_on p always → (∀ a, goes_on (k a) always) → goes_on (x <-s p; k x) always.
Proof. intros Hp Hk. eapply on_bind; [exact Hp|]. intros [a|e] _; [apply Hk|done]. Qed.
(** The rest after a read of the clock. *)
Lemma on_clock {A} (k : time → sp A) : (∀ t, Clock t → goes_on (k t) always) → goes_on (t <-p now; k t) always.
Proof. intros Hk. eapply on_bind; [apply on_now|done]. Qed.
Lemma on_drop {A B} (p : sp A) (k : A → sp B) :
  goes_on p always → (∀ a, goes_on (k a) always) → goes_on (x <-p p; k x) always.
Proof. intros Hp Hk. by eapply on_bind. Qed.

Lemma on_caches uid gid : goes_on (invalidate_caches uid gid) always.
Proof. apply on_drop; [apply on_cache|]. intros _ o s _ Hs. split; [by apply same_ok|done]. Qed.
Lemma on_active uid gid : goes_on (GetActiveSubscription uid gid) always.
Proof.
  apply on_drop; [apply on_get|]. intros [c|]; [done|].
  apply on_ok; [apply on_clock; intros; apply on_sread|intros s]. by apply on_drop; [apply on_cache|].
Qed.

(** *** Windows *)
Section WindowSteps.
Context (activate_ok : ∀ id t, Clock t → respects (activate_row id t))
  (reset_ok : ∀ w id (sub : copy) t x, Clock t → due_start w t sub = Some x →
                respects (reset_usage_row w id (window_start w sub) x)).

Lemma on_translate id n : goes_on (translateConditionalWindowReset id n) always.
Proof. unfold translateConditionalWindowReset. destruct (0 <? n); [done|apply on_sread]. Qed.
Lemma on_check_activate sub : goes_on (CheckAndActivateWindow sub) always.
Proof.
  apply on_clock. intros t Ht. destruct (IsWindowActivated sub); [done|].
  apply on_ok; [by apply on_swrite, activate_ok|intros n; apply on_translate].
Qed.
Lemma on_window w t sub : Clock t → goes_on (reset_window w t sub) always.
Proof.
  intros Ht. unfold reset_window. destruct (due_start w t sub) as [x|] eqn:Hx; [|done].
  apply on_ok; [|done]. apply on_ok; [by apply on_swrite; eapply reset_ok|intros n; apply on_translate].
Qed.
Lemma on_resets sub : goes_on (CheckAndResetWindows sub) always.
Proof.
  apply on_clock. intros t Ht. do 3 (apply on_ok; [by apply on_window|intros ?]).
  destruct (_ || _); [|done]. by apply on_drop; [apply on_cache|].
Qed.
Lemma on_ensure sub : goes_on (EnsureWindowMaintenance sub) always.
Proof.
  apply on_ok; [destruct (negb _); [apply on_check_activate|done]|intros _].
  apply on_ok; [apply on_resets|intros _]. apply on_ok; [apply on_sread|intros s].
  by apply on_drop; [apply on_cache|].
Qed.
Lemma on_admit uid gid g : goes_on (admit_subscription uid gid g) always.
Proof.
  apply on_drop; [apply on_active|]. intros [sub|e]; [|done]. apply on_clock. intros t _.
  destruct (ValidateAndCheckLimits t sub g) as [[s1 []] v]; [|done].
  apply on_drop; [apply on_ensure|]. intros [s2|e]; [|done]. apply on_clock. intros t' _.
  by destruct (ValidateAndCheckLimits t' s2 g) as [[s3 n] v'].
Qed.
Lemma on_maintain sub : goes_on (doWindowMaintenance sub) always.
Proof.
  apply on_drop; [destruct (negb _); [apply on_check_activate|done]|intros _].
  apply on_drop; [apply on_resets|intros _; apply on_cache].
Qed.
End WindowSteps.

(** *** Terms *)
Section TermSteps.
Context (expiry_ok : ∀ id e, e ≤ MaxExpiresAt → respects (λ d, done_with () (ExtendExpiry id e d)))
  (status_ok : ∀ id st, respects (λ d, done_with () (UpdateStatus id st d)))
  (delete_ok : ∀ id t, Clock t → respects (delete_row id t))
  (delete_group_ok : ∀ gid t, Clock t → respects (delete_group_rows gid t))
  (restore_ok : ∀ id st, respects (restore_row id st))
  (expire_ok : ∀ t, Clock t → respects (expire_rows t)).

Lemma cap_expiry_le t : cap_expiry t ≤ MaxExpiresAt.
Proof. unfold cap_expiry, time_After. destruct (Z.ltb_spec MaxExpiresAt t); lia. Qed.

Lemma on_validate sub : goes_on (ValidateSubscription sub) always.
Proof.
  unfold ValidateSubscription. destruct (String.eqb _ _); [done|]. destruct (String.eqb _ _); [done|].
  apply on_clock. intros t _. destruct (IsExpired t sub); [|done]. by apply on_drop; [apply on_swrite|].
Qed.
Lemma on_extend id days : goes_on (ExtendSubscription id days) always.
Proof.
  apply on_drop; [apply on_sread|]. intros [sub|e]; [|done]. apply on_clock. intros t _. cbv zeta.
  destruct (_ && _); [done|]. destruct (negb _); [done|].
  apply on_ok; [apply on_swrite, expiry_ok, cap_expiry_le|intros _].
  apply on_ok; [destruct (String.eqb _ _); [by apply on_swrite|done]|intros _].
  apply on_drop; [apply on_cache|intros _; apply on_sread].
Qed.
Lemma on_revoke id : goes_on (RevokeSubscription id) always.
Proof.
  apply on_ok; [apply on_sread|intros sub]. apply on_ok; [|intros _; apply on_caches].
  apply on_clock. intros t Ht. by apply on_swrite, delete_ok.
Qed.
Lemma on_restore id : goes_on (RestoreSubscription id) always.
Proof.
  apply on_ok; [apply on_sread|intros sub]. destruct (us_DeletedAt sub); [|done].
  apply on_ok; [apply on_sread|intros []]; [done|]. apply on_clock. intros x _.
  apply on_ok; [|intros c; by apply on_ok; [apply on_caches|]].
  by apply on_ok; [apply on_swrite|intros _; apply on_sread].
Qed.
Lemma on_delete_group gid : goes_on (DeleteByGroupID gid) always.
Proof. apply on_clock. intros t Ht. by apply on_swrite, delete_group_ok. Qed.
Lemma on_expiry : goes_on BatchUpdateExpiredStatus always.
Proof. apply on_clock. intros t Ht. by apply on_swrite, expire_ok. Qed.

(** *** New and renewed terms *)
Section Assignments.
Context (insert_ok : ∀ t sa aa input, Clock t → respects (insert_row sa aa (new_subscription t input)))
  (term_ok : ∀ sub notes t e b, Clock t → e ≤ MaxExpiresAt → respects (update_term sub notes t e b)).

Lemma on_group gid : goes_on (subscription_group gid) always.
Proof. apply on_ok; [apply on_sread|]. intros g. by destruct (sg_subscription_type g). Qed.
Lemma on_create input : goes_on (createSubscription input) always.
Proof.
  apply on_clock. intros t Ht. apply on_ok; [|intros id; apply on_sread].
  apply on_drop; [destruct (time_IsZero _); [by eapply yields_weaken; [apply on_now|]|done]|intros sa].
  apply on_drop; [destruct (time_IsZero _); [by eapply yields_weaken; [apply on_now|]|done]|intros aa].
  by apply on_swrite, insert_ok.
Qed.
Lemma on_invalidate uid gid b : goes_on (maybeInvalidateAssignmentCaches uid gid b) always.
Proof. destruct b; [done|apply on_cache]. Qed.
Lemma on_update sub notes t e b :
  Clock t → goes_on (updateExistingSubscriptionTerm sub notes t (cap_expiry e) b) always.
Proof. intros Ht. apply on_swrite, term_ok; [done|apply cap_expiry_le]. Qed.
Lemma on_assign_or_extend input b : goes_on (assign_or_extend input b) always.
Proof.
  apply on_ok; [apply on_group|intros g]. apply on_drop; [apply on_sread|intros [sub|e]].
  - apply on_clock. intros t Ht. apply on_ok; [by apply on_update|intros _].
    apply on_drop; [apply on_invalidate|intros _]. by apply on_ok; [apply on_sread|].
  - apply on_ok; [apply on_create|intros sub]. by apply on_drop; [apply on_invalidate|].
Qed.
Lemma on_assign input : goes_on (assignSubscriptionWithReuse input) always.
Proof.
  apply on_ok; [apply on_group|intros g]. apply on_ok; [apply on_sread|intros []].
  - apply on_ok; [apply on_sread|intros sub]. apply on_clock. intros t Ht. cbv zeta. destruct (_ || _).
    + apply on_ok; [by apply on_update|intros _]. apply on_drop; [apply on_invalidate|intros _].
      by apply on_ok; [apply on_sread|].
    + by destruct (detectAssignSemanticConflict sub input).
  - apply on_ok; [apply on_create|intros sub]. by apply on_drop; [apply on_cache|].
Qed.
Lemma on_bulk uids input : goes_on (BulkAssignSubscription uids input) always.
Proof.
  induction uids as [|uid uids IH]; [done|]. apply on_drop; [apply on_assign|intros r].
  by apply on_drop; [apply IH|].
Qed.
End Assignments.
End TermSteps.
End Walk.
