(* ===== verification/SubscriptionProps.v ===== *)
(** * What subscriptions promise

    The windows a subscription counts its usage in: where they start, that
    finished ones are reset once and never early, that resetting them late
    changes nothing, who is admitted, and what assignment, revocation and
    restoration keep. *)

From Stdlib Require Import ZArith Lia QArith Ascii String Bool.
From stdpp Require Import base numbers option list gmap strings relations.
From S2P Require Import Prelude GoStrings GoFloat UsageDB Proc ProcGhost Fulfillment Subscriptions.
From S2P Require Import SubscriptionSteps.

#[local] Open Scope Z_scope.

(** ** Where windows start *)

Section Windows.
Context `{Location} {U : Type}.
Implicit Type s : UserSubscription U.

(** The start windows are counted from: a first window stored at the midnight
    before the subscription starts counts from its start. *)
Definition anchor s (stored : time) : time :=
  if time_Before (startOfDay (us_StartsAt s)) (us_StartsAt s)
     && time_Equal stored (startOfDay (us_StartsAt s))
  then us_StartsAt s else stored.

(** Go's durations reach 292 years. *)
Definition in_reach s (now a : time) : Prop := now - a ≤ max_int64 ∧ us_ExpiresAt s - a ≤ max_int64.

(** [t] starts the last window of length [per] counted from [a] that has begun
    at [now] and begins before the subscription ends. *)
Definition last_start s (a : time) (per : duration) (now t : time) : Prop :=
  (∃ k, 1 ≤ k ∧ t = a + k * per) ∧ t ≤ now ∧ t < us_ExpiresAt s ∧
  (now < t + per ∨ us_ExpiresAt s ≤ t + per).

Lemma last_start_unique s a per now t t' :
  0 < per → last_start s a per now t → last_start s a per now t' → t = t'.
Proof.
  intros Hper ((k & Hk & ->) & Ht & He & Hm) ((k' & Hk' & ->) & Ht' & He' & Hm').
  destruct (Z.lt_trichotomy k k') as [Hlt|[->|Hlt]]; [|done|]; exfalso.
  - assert (a + k * per + per ≤ a + k' * per) by nia. lia.
  - assert (a + k' * per + per ≤ a + k * per) by nia. lia.
Qed.

(** Without any assumption on the times: a window that is reset is over, and the
    new one starts at least a period later, has begun, and is not over the end. *)
Lemma automatic_start_bounds s stored per now t :
  0 < per < max_int64 → automaticWindowStartAt s (Some stored) per now = Some t →
  anchor s stored + per ≤ t ≤ now ∧ t < us_ExpiresAt s.
Proof.
  intros Hper. unfold automaticWindowStartAt. fold (anchor s stored). set (a := anchor s stored).
  unfold time_Add, time_Before. destruct (Z.ltb_spec now (a + per)) as [|Hn]; [done|].
  destruct (Z.ltb_spec (a + per) (us_ExpiresAt s)) as [He|]; [|done].
  cbn [orb negb]. intros [= <-]. set (p := Z.quot (time_Sub now a) per).
  assert (1 ≤ p ∧ p * per ≤ now - a ∧ p * per ≤ max_int64) as (Hp1 & Hp2 & Hp3).
  { unfold p, time_Sub, min_int64, max_int64 in *. rewrite Z.quot_div_nonneg by lia.
    set (x := Z.max _ _). assert (per ≤ x ≤ now - a ∧ x ≤ 2 ^ 63 - 1) by lia.
    pose proof (Z.mul_div_le x per). pose proof (Z.div_le_lower_bound x per 1). lia. }
  assert (in_int64 (time_Sub (us_ExpiresAt s) a - 1)) as Hs by
    (unfold in_int64, time_Sub, min_int64, max_int64 in *; lia).
  rewrite (wrap64_id _ Hs). set (l := Z.quot (time_Sub (us_ExpiresAt s) a - 1) per).
  assert (1 ≤ l ∧ l * per < us_ExpiresAt s - a ∧ l * per ≤ max_int64) as (Hl1 & Hl2 & Hl3).
  { unfold l, time_Sub, min_int64, max_int64 in *. rewrite Z.quot_div_nonneg by lia.
    set (x := Z.max _ _ - 1). assert (per ≤ x < us_ExpiresAt s - a ∧ x ≤ 2 ^ 63 - 1) by lia.
    pose proof (Z.mul_div_le x per). pose proof (Z.div_le_lower_bound x per 1). lia. }
  destruct (Z.ltb_spec l p); rewrite wrap64_id by (unfold in_int64, min_int64; lia); nia.
Qed.

Lemma anchor_le s stored : stored ≤ anchor s stored.
Proof.
  unfold anchor, time_Before, time_Equal. destruct (Z.ltb_spec (startOfDay (us_StartsAt s)) (us_StartsAt s)),
    (Z.eqb_spec stored (startOfDay (us_StartsAt s))); cbn [andb]; lia.
Qed.

(** Within the reach of durations it is the last start. *)
Lemma automatic_start_last s stored per now t :
  0 < per < max_int64 → in_reach s now (anchor s stored) →
  automaticWindowStartAt s (Some stored) per now = Some t → last_start s (anchor s stored) per now t.
Proof.
  intros Hper [Hr1 Hr2] Hs. pose proof (automatic_start_bounds _ _ _ _ _ Hper Hs) as [[Ht Htn] Hte].
  revert Hs. unfold automaticWindowStartAt. fold (anchor s stored). set (a := anchor s stored) in *.
  unfold time_Add. destruct (_ || _); [done|]. intros [= Heq].
  rewrite !time_Sub_exact in Heq by (unfold in_int64, min_int64; lia).
  rewrite (wrap64_id (us_ExpiresAt s - a - 1)) in Heq by (unfold in_int64, min_int64; lia).
  rewrite !Z.quot_div_nonneg in Heq by lia.
  pose proof (Z.mul_div_le (now - a) per). pose proof (Z.mul_succ_div_gt (now - a) per).
  pose proof (Z.mul_div_le (us_ExpiresAt s - a - 1) per).
  pose proof (Z.mul_succ_div_gt (us_ExpiresAt s - a - 1) per).
  pose proof (Z.div_pos (now - a) per). pose proof (Z.div_pos (us_ExpiresAt s - a - 1) per).
  set (p := (now - a) / per) in *. set (l := (us_ExpiresAt s - a - 1) / per) in *.
  destruct (Z.ltb_spec l p) as [Hlp|Hlp]; rewrite wrap64_id in Heq by (unfold in_int64, min_int64; nia);
    rewrite <-Heq in *; (split; [eexists; split; [|reflexivity]; nia|]); (split; [done|split; [done|]]).
  - right. nia.
  - left. nia.
Qed.

Lemma automatic_start_found s stored per now t :
  0 < per → last_start s (anchor s stored) per now t →
  ∃ t', automaticWindowStartAt s (Some stored) per now = Some t'.
Proof.
  intros Hper ((k & Hk & ->) & Ht & He & _). unfold automaticWindowStartAt.
  fold (anchor s stored). set (a := anchor s stored) in *. unfold time_Add, time_Before.
  destruct (Z.ltb_spec now (a + per)); [nia|]. destruct (Z.ltb_spec (a + per) (us_ExpiresAt s)); [|nia].
  eexists. reflexivity.
Qed.
End Windows.

(** The start the program computes for a window that is over is the last one
    that has begun, a whole number of periods after the stored start (after the
    start of the subscription, for the midnight the first windows used to be
    stored with), before the subscription ends; and there is none exactly when
    the window still runs or the subscription ends first. *)
Theorem automatic_start_exact `{Location} {U} (s : UserSubscription U) stored per now t :
  0 < per < max_int64 → in_reach s now (anchor s stored) →
  automaticWindowStartAt s (Some stored) per now = Some t ↔ last_start s (anchor s stored) per now t.
Proof.
  intros Hper Hr. split; [by apply automatic_start_last|]. intros Ht.
  destruct (automatic_start_found s stored per now t) as [t' Ht']; [lia|done|].
  rewrite Ht'. f_equal. apply (last_start_unique s (anchor s stored) per now); [lia| |done].
  by apply automatic_start_last.
Qed.

(** ** Maintenance

    What a row says at [now]: the start and the usage of its windows, whether
    or not somebody has written them down. *)

Section Maintenance.
Context `{Location}.
Implicit Type r : row.

Definition start_at (now : time) r (w : Window) : option time :=
  match due_start w now r with Some t => Some t | None => window_start w r end.
Definition usage_at (now : time) r (w : Window) : Z :=
  match due_start w now r with Some _ => 0 | None => window_usage w r end.
Definition maintained (now : time) r : row :=
  if IsWindowActivated r then set_starts (start_at now r) (set_usage (usage_at now r) r)
  else set_starts (λ _, Some now) r.

(** The windows of a row are no older than the midnight before its start, and
    within the reach of durations. *)
Definition regular (now : time) r : Prop :=
  ∀ w p, window_start w r = Some p → startOfDay (us_StartsAt r) ≤ p ∧ in_reach r now (anchor r p).

Lemma period_bounds w : 0 < period w < max_int64.
Proof. by destruct w. Qed.
#[local] Hint Resolve period_bounds : core.

Lemma window_start_set f (s : row) w : window_start w (set_starts f s) = f w.
Proof. by destruct w. Qed.
Lemma window_usage_set {V} (f : Window → option time) (g : Window → V) (s : row) w :
  window_usage w (set_starts f (set_usage g s)) = g w.
Proof. by destruct w. Qed.

Lemma one_time_same {V} (s : row) (s' : UserSubscription V) :
  us_StartsAt s' = us_StartsAt s → us_ExpiresAt s' = us_ExpiresAt s →
  HasOneTimeDailyQuota s' = HasOneTimeDailyQuota s.
Proof. unfold HasOneTimeDailyQuota. by intros -> ->. Qed.

(** A due start depends on the term and on the stored start only. *)
Lemma due_start_same {V} w now (s : row) (s' : UserSubscription V) :
  us_StartsAt s' = us_StartsAt s → us_ExpiresAt s' = us_ExpiresAt s →
  window_start w s' = window_start w s → due_start w now s' = due_start w now s.
Proof.
  intros Hst Hex Hw. unfold due_start. rewrite (one_time_same s s') by done. rewrite Hw.
  unfold automaticWindowStartAt. by rewrite Hst, Hex.
Qed.

Lemma due_start_last w now r p t :
  window_start w r = Some p → in_reach r now (anchor r p) → due_start w now r = Some t →
  last_start r (anchor r p) (period w) now t.
Proof.
  intros Hw Hr. unfold due_start. rewrite Hw. destruct (match w with Daily => _ | _ => _ end); [done|].
  by apply automatic_start_last.
Qed.
Lemma due_start_found w now r p t :
  window_start w r = Some p → match w with Daily => HasOneTimeDailyQuota r | _ => false end = false →
  last_start r (anchor r p) (period w) now t → is_Some (due_start w now r).
Proof.
  intros Hw Hq Hl. unfold due_start. rewrite Hw, Hq.
  destruct (automatic_start_found r p (period w) now t) as [t' ->]; eauto. apply period_bounds.
Qed.
Lemma due_start_quota w now r t :
  due_start w now r = Some t → match w with Daily => HasOneTimeDailyQuota r | _ => false end = false.
Proof. unfold due_start. by destruct (match w with Daily => _ | _ => _ end). Qed.
Lemma due_start_bounds {V} w now (s : UserSubscription V) p t :
  window_start w s = Some p → due_start w now s = Some t → p + period w ≤ t ≤ now ∧ t < us_ExpiresAt s.
Proof.
  intros Hw. unfold due_start. rewrite Hw. destruct (match w with Daily => _ | _ => _ end); [done|].
  intros Ht. pose proof (anchor_le s p). apply automatic_start_bounds in Ht; [lia|apply period_bounds].
Qed.
Lemma due_start_stored {V} w now (s : UserSubscription V) t :
  due_start w now s = Some t → is_Some (window_start w s).
Proof.
  unfold due_start. destruct (match w with Daily => _ | _ => _ end); [done|].
  destruct (window_start w s); [eauto|done].
Qed.

(** Starts and usage after a reset at [t], seen at a later time. *)
Lemma reset_later w t t' r x p :
  window_start w r = Some p → startOfDay (us_StartsAt r) ≤ p → in_reach r t' (anchor r p) → t ≤ t' →
  due_start w t r = Some x →
  start_at t' (maintained t r) w = start_at t' r w ∧ usage_at t' (maintained t r) w = usage_at t' r w.
Proof.
  intros Hw Hmid [Hr1 Hr2] Htt Hx. pose proof (due_start_quota _ _ _ _ Hx) as Hq.
  assert (last_start r (anchor r p) (period w) t x) as Hlx by (apply due_start_last; [done|split; lia|done]).
  destruct Hlx as ((k & Hk & Hxk) & Hxt & Hxe & _). pose proof (anchor_le r p). pose proof (period_bounds w).
  assert (maintained t r = set_starts (start_at t r) (set_usage (usage_at t r) r)) as Hm.
  { unfold maintained, IsWindowActivated. by destruct w; simpl in Hw; rewrite Hw, ?orb_true_r. }
  set (m := maintained t r) in *.
  assert (window_start w m = Some x) as Hmw
    by (rewrite Hm, window_start_set; unfold start_at; by rewrite Hx).
  assert (us_StartsAt m = us_StartsAt r ∧ us_ExpiresAt m = us_ExpiresAt r) as [Hms Hme] by (by rewrite Hm).
  assert (anchor m x = x) as Hax.
  { unfold anchor, time_Equal. rewrite Hms. destruct (Z.eqb_spec x (startOfDay (us_StartsAt r)));
      [nia|by rewrite andb_false_r]. }
  assert (∀ y j, 1 ≤ j → y = x + j * period w → y ≤ t' → y < us_ExpiresAt r →
            t' < y + period w ∨ us_ExpiresAt r ≤ y + period w →
            last_start m (anchor m x) (period w) t' y) as Hfrom.
  { intros y j Hj -> Hy He Hl. rewrite Hax. unfold last_start. rewrite Hme. eauto 6. }
  assert (∃ y, due_start w t' r = Some y ∧ last_start r (anchor r p) (period w) t' y) as (y & Hy & Hly).
  { assert (is_Some (due_start w t' r)) as [y Hy].
    { unfold due_start. rewrite Hw, Hq. unfold automaticWindowStartAt. fold (anchor r p). cbv zeta.
      unfold time_Before, time_Add. destruct (Z.ltb_spec t' (anchor r p + period w)); [nia|].
      destruct (Z.ltb_spec (anchor r p + period w) (us_ExpiresAt r)); [|nia]. eexists; reflexivity. }
    exists y. split; [done|]. by apply due_start_last. }
  unfold start_at, usage_at. rewrite Hy. destruct Hly as ((j & Hj & Hyj) & Hyt & Hye & Hl).
  assert (k ≤ j) as Hkj by nia.
  destruct (due_start w t' m) as [z|] eqn:Hz.
  - split; [|done]. f_equal.
    assert (last_start m (anchor m x) (period w) t' z) as Hlz
      by (apply due_start_last; [done|rewrite Hax; unfold in_reach; rewrite Hme; nia|done]).
    rewrite Hax in Hlz. destruct Hlz as ((i & Hi & ->) & Hzt & Hze & Hzl). rewrite Hme in *.
    apply (last_start_unique r (anchor r p) (period w) t'); [lia| |by split_and!; eauto].
    split_and!; [exists (k + i); nia|done|done|done].
  - rewrite Hmw, Hm, window_usage_set. unfold usage_at. rewrite Hx. split; [|done]. f_equal.
    destruct (Z.eq_dec k j) as [->|Hne]; [lia|]. exfalso.
    assert (is_Some (due_start w t' m)) as [z Hz']; [|by rewrite Hz in Hz'].
    apply (due_start_found w t' m x y); [done| |apply (Hfrom y (j - k)); try done; nia].
    revert Hq. unfold HasOneTimeDailyQuota. by rewrite Hms, Hme.
Qed.

Lemma row_ext r r' :
  set_starts (λ _, None) (set_usage (λ _, 0) r) = set_starts (λ _, None) (set_usage (λ _, 0) r') →
  (∀ w, window_start w r = window_start w r' ∧ window_usage w r = window_usage w r') → r = r'.
Proof.
  intros Heq Hw. destruct r, r'. unfold set_starts, set_usage in Heq. simpl in Heq.
  destruct (Hw Daily), (Hw Weekly), (Hw Monthly). simpl in *. congruence.
Qed.
End Maintenance.

(** C15: it does not matter when a finished window is reset: a row maintained at
    some time and again later is the row that is only maintained later.  So
    counters that are reset when a request comes by tell what counters reset
    on time would. *)
Theorem maintenance_can_wait `{Location} (r : row) t t' :
  IsWindowActivated r = true → regular t' r → t ≤ t' →
  maintained t' (maintained t r) = maintained t' r.
Proof.
  intros Hact Hreg Htt.
  assert (maintained t r = set_starts (start_at t r) (set_usage (usage_at t r) r)) as Hm
    by (unfold maintained; by rewrite Hact).
  assert (IsWindowActivated (maintained t r) = true) as Hact'.
  { rewrite Hm. revert Hact. unfold IsWindowActivated, start_at, set_starts; simpl.
    rewrite !orb_true_iff, !bool_decide_eq_true.
    intros [[Hs|Hs]|Hs]; [left; left|left; right|right]; by destruct (due_start _ _ _). }
  unfold maintained at 1 3. rewrite Hact, Hact'.
  assert (∀ w, start_at t' (maintained t r) w = start_at t' r w ∧
               usage_at t' (maintained t r) w = usage_at t' r w) as Hw.
  { intros w. destruct (due_start w t r) as [x|] eqn:Hx.
    - destruct (due_start_stored _ _ _ _ Hx) as [p Hp]. destruct (Hreg w p Hp).
      by apply (reset_later w t t' r x p).
    - assert (window_start w (maintained t r) = window_start w r) as Hs
        by (rewrite Hm, window_start_set; unfold start_at; by rewrite Hx).
      assert (window_usage w (maintained t r) = window_usage w r) as Hu.
      { rewrite Hm, window_usage_set. unfold usage_at. by rewrite Hx. }
      unfold start_at, usage_at. rewrite (due_start_same w t' r (maintained t r)); [|by rewrite Hm..|done].
      by rewrite Hs, Hu. }
  apply row_ext.
  - by rewrite Hm.
  - intros w. rewrite !window_start_set, !window_usage_set. apply Hw.
Qed.

(** ** What runs keep *)

(** What is stored for a sum is at least what was there. *)
Lemma store_grows k z q x : (0 <= q)%Q → store k (dec k z + q)%Q = Some x → z ≤ x.
Proof.
  intros Hq. unfold store. destruct (_ <? _); [|done]. intros [= <-].
  assert ((dec k z + q) * (Z.pos k # 1) == (z # 1) + q * (Z.pos k # 1))%Q as Heq
    by (unfold dec; field_simplify_eq; unfold Qeq; simpl; lia).
  rewrite (round_half_away_proper _ _ Heq). assert (0 <= q * (Z.pos k # 1))%Q as Hp
    by (apply Qmult_le_0_compat; [done|unfold Qle; simpl; lia]).
  destruct (q * (Z.pos k # 1))%Q as [n d]. unfold Qle in Hp. simpl in Hp.
  unfold round_half_away, Qplus. simpl. rewrite !Z.mul_1_r in *. change (1 * d)%positive with d.
  destruct (Z_le_gt_dec 0 (z * Z.pos d + n)) as [Hs|Hs].
  - rewrite (Z.abs_eq _ Hs). destruct (Z.eq_dec (z * Z.pos d + n) 0) as [H0|H0].
    { rewrite H0. simpl. nia. }
    rewrite Z.sgn_pos by lia. rewrite Z.mul_1_l. apply Z.div_le_lower_bound; nia.
  - rewrite Z.sgn_neg, Z.abs_neq by lia.
    assert ((2 * - (z * Z.pos d + n) + Z.pos d) / (2 * Z.pos d) ≤ - z); [|lia].
    apply Z.lt_succ_r, Z.div_lt_upper_bound; [lia|nia].
Qed.

(** [kept T w r r']: the window [w] of a row still has its start and at least
    its usage, or has been restarted after its end, which was before [T]. *)
Definition kept (T : time) (w : Window) (r r' : row) : Prop :=
  ∀ a, window_start w r = Some a →
    (window_start w r' = Some a ∧ window_usage w r ≤ window_usage w r') ∨
    (∃ a', window_start w r' = Some a' ∧ a + period w ≤ a' ≤ T).

Lemma kept_same T w r r' :
  window_start w r' = window_start w r → window_usage w r ≤ window_usage w r' → kept T w r r'.
Proof. intros Hs Hu a Ha. left. by rewrite Hs. Qed.
Lemma kept_trans T w r1 r2 r3 : kept T w r1 r2 → kept T w r2 r3 → kept T w r1 r3.
Proof.
  intros H12 H23 a Ha. destruct (H12 a Ha) as [[Ha2 Hu]|(a2 & Ha2 & Hb)].
  - destruct (H23 a Ha2) as [[Ha3 Hu']|Hn]; [left; split; [done|lia]|by right].
  - right. destruct (H23 a2 Ha2) as [[Ha3 _]|(a3 & Ha3 & Hb')]; [by exists a2|].
    exists a3. split; [done|]. pose proof (period_bounds w). lia.
Qed.

(** No row is lost, and the windows of every row are kept. *)
Definition windows_kept (T : time) (d d' : SubDB) : Prop :=
  ∀ id r, sub_rows d !! id = Some r → ∃ r', sub_rows d' !! id = Some r' ∧ ∀ w, kept T w r r'.

Lemma windows_kept_rows T d d' : sub_rows d' = sub_rows d → windows_kept T d d'.
Proof. intros Hr id r Hid. exists r. rewrite Hr. split; [done|]. intros w. by apply kept_same. Qed.
Lemma windows_kept_rtc T d d' : rtc (windows_kept T) d d' → windows_kept T d d'.
Proof.
  induction 1 as [d|d1 d2 d3 H12 _ IH]; [by apply windows_kept_rows|].
  intros id r Hr. destruct (H12 id r Hr) as (r2 & Hr2 & Hk2). destruct (IH id r2 Hr2) as (r3 & Hr3 & Hk3).
  exists r3. split; [done|]. intros w. by eapply kept_trans.
Qed.
Lemma windows_kept_insert T d id r r' :
  sub_rows d !! id = Some r → (∀ w, kept T w r r') → windows_kept T d (set_rows <[id := r']> d).
Proof.
  intros Hr Hk i x Hx. simpl. destruct (decide (i = id)) as [->|Hne].
  - rewrite lookup_insert_eq. assert (x = r) as -> by congruence. eauto.
  - rewrite lookup_insert_ne by done. exists x. split; [done|]. intros w. by apply kept_same.
Qed.
Lemma windows_kept_fmap T d f :
  (∀ r w, kept T w r (f r)) → windows_kept T d (set_rows (fmap f) d).
Proof. intros Hf id r Hr. exists (f r). simpl. by rewrite lookup_fmap, Hr. Qed.

Section Kept.
Context `{GT : GoText} `{PF : PgFloat} `{LO : Location}.
Context (T : time).

Definition early (o : Oracle) : Prop := o_now o ≤ T.
#[local] Abbreviation keeps := (respects (λ _, True) (windows_kept T)).

Lemma keeps_update {A} (a : A) id f c :
  (∀ r w, kept T w r (f r)) → keeps (λ d, done_with a (UpdateOneID id f c d)).
Proof.
  intros Hf d x d' _. unfold done_with, UpdateOneID.
  destruct (sub_rows d !! id) as [r|] eqn:Hr; [|done]. destruct (taken _ _ _); [done|].
  intros [= <- <-]. by eapply windows_kept_insert.
Qed.
Lemma keeps_where id p f : (∀ r w, p r = true → kept T w r (f r)) → keeps (update_where id p f).
Proof.
  intros Hf d x d' _. unfold update_where. destruct (sub_rows d !! id) as [r|] eqn:Hr.
  - destruct (p r) eqn:Hp; intros [= <- <-]; [eapply windows_kept_insert; eauto|by apply windows_kept_rows].
  - intros [= <- <-]. by apply windows_kept_rows.
Qed.
Lemma keeps_fmap {A} (a : A) f :
  (∀ r w, kept T w r (f r)) → keeps (λ d, Ok (a, set_rows (fmap f) d)).
Proof. intros Hf d x d' _ [= <- <-]. by apply windows_kept_fmap. Qed.
Lemma kept_term sa ex st no de r w : kept T w r (set_term sa ex st no de r).
Proof. apply kept_same; by destruct w. Qed.

Lemma keeps_activate id t : keeps (activate_row id t).
Proof.
  apply keeps_where. intros r w Hp a Ha. exfalso. revert Hp. unfold IsWindowActivated.
  destruct w; simpl in Ha; rewrite Ha, ?orb_true_r; done.
Qed.
(** The conditional reset of a window, from whatever copy it was decided. *)
Lemma keeps_reset w id (sub : copy) t x :
  t ≤ T → due_start w t sub = Some x → keeps (reset_usage_row w id (window_start w sub) x).
Proof.
  intros Ht Hx. apply keeps_where. intros r v Hp%bool_decide_eq_true.
  destruct (due_start_stored _ _ _ _ Hx) as [p Hs].
  pose proof (due_start_bounds _ _ _ _ _ Hs Hx) as [Hb _]. destruct (decide (v = w)) as [->|Hne].
  - intros a Ha. right. exists x. split; [by destruct w|]. rewrite Hs in Hp. assert (a = p) by congruence. lia.
  - apply kept_same; by destruct v, w.
Qed.
Lemma keeps_increment id cost : (0 <= num cost)%Q → keeps (increment_row id cost).
Proof.
  intros Hc d a d' _. unfold increment_row. destruct (sub_rows d !! id) as [r|] eqn:Hr; [|done].
  destruct (_ || _); [done|]. destruct (store _ _) as [x|] eqn:Hx; [|done].
  destruct (store scale10 (_ (us_WeeklyUsageUSD r) + _)%Q) as [y|] eqn:Hy; [|done].
  destruct (store scale10 (_ (us_MonthlyUsageUSD r) + _)%Q) as [z|] eqn:Hz; [|done].
  intros [= <- <-]. apply store_grows in Hx, Hy, Hz; [|done..].
  eapply windows_kept_insert; [done|]. intros w. apply kept_same; by destruct w.
Qed.
Lemma keeps_delete id t : keeps (delete_row id t).
Proof.
  intros d a d' _ [= <- <-]. destruct (sub_rows d !! id) as [r|] eqn:Hr; [|by apply windows_kept_rows].
  destruct (live r); [|by apply windows_kept_rows]. eapply windows_kept_insert; [done|]. intros; apply kept_term.
Qed.
Lemma keeps_delete_group gid t : keeps (delete_group_rows gid t).
Proof. apply keeps_fmap. intros r w. destruct (_ && _); [apply kept_term|by apply kept_same]. Qed.
Lemma keeps_expire t : keeps (expire_rows t).
Proof. apply keeps_fmap. intros r w. destruct (_ && _); [apply kept_term|by apply kept_same]. Qed.
Lemma keeps_restore id st : keeps (restore_row id st).
Proof. apply keeps_update. intros r w. apply kept_same; by destruct w. Qed.
End Kept.

(** The requests that do not start a new term and do not reset by hand; what
    is recorded is not negative. *)
Definition ordinary `{PgFloat} (r : SubRequest) : Prop :=
  match r with
  | SubAssign _ | SubAssignOrExtend _ | SubBulkAssign _ _ | SubAdminReset _ _ => False
  | SubRecordUsage _ cost => (0 <= num cost)%Q
  | _ => True
  end.

Lemma ordinary_keeps `{GT : GoText} `{PF : PgFloat} `{LO : Location} T req :
  ordinary req → yields (early T) (λ _, True) (windows_kept T) (sub_serve req) always.
Proof.
  set (C := λ t, t ≤ T). assert (∀ o, early T o → C (o_now o)) as Hclock by done.
  assert (∀ d, True → windows_kept T d d) as Hsame by (intros; by apply windows_kept_rows).
  assert (∀ d f, True → windows_kept T d (set_l1 f d)) as Hl1 by (intros; by apply windows_kept_rows).
  pose proof (λ id e (_ : e ≤ MaxExpiresAt), keeps_update T () id (set_ExpiresAt e) ESubDB
                (λ r w, kept_term T _ _ _ _ _ r w)) as Hexpiry.
  pose proof (λ id st, keeps_update T () id (set_Status st) ESubDB (λ r w, kept_term T _ _ _ _ _ r w)) as Hstatus.
  intros Hr. destruct req; simpl in Hr; unfold sub_serve; try by destruct Hr.
  - eapply on_ok; [eapply (on_admit _ C)|done]; eauto using keeps_activate, keeps_reset.
  - eapply on_drop; [eapply (on_maintain _ C)|done]; eauto using keeps_activate, keeps_reset.
  - by apply on_swrite, keeps_increment.
  - by apply (on_validate _ C).
  - eapply on_ok; [by apply (on_extend _ C)|done].
  - eapply (on_revoke _ C); eauto using keeps_delete.
  - eapply on_ok; [eapply (on_restore _ C)|done]; eauto using keeps_restore.
  - eapply (on_delete_group _ C); eauto using keeps_delete_group.
  - eapply (on_expiry _ C); eauto using keeps_expire.
Qed.

(** C13: as long as nobody assigns a subscription (which may renew it) or resets
    one by hand, and no recorded cost is negative, a usage window keeps its start
    and what was recorded in it until it is over,
    whatever requests admit, maintain, record and administrate at once, with
    whatever old copies, and wherever they fail; only after its end, at a clock
    reading of the run, it may have been restarted, at least a period later. *)
Theorem usage_is_kept `{GT : GoText} `{PF : PgFloat} `{LO : Location} T sched reqs s0 s ps id r :
  Forall ordinary reqs → Forall (λ m, o_now (snd m) ≤ T) sched →
  run sched (s0, sub_serve <$> reqs) = (s, ps) → sub_rows s0 !! id = Some r →
  ∃ r', sub_rows s !! id = Some r' ∧ ∀ w a, window_start w r = Some a →
    (window_start w r' = Some a ∧ window_usage w r ≤ window_usage w r') ∨
    (∃ a', window_start w r' = Some a' ∧ a + period w ≤ a' ≤ T).
Proof.
  intros Hreqs Hsched Hrun. revert id r. apply windows_kept_rtc.
  eapply (yields_run (early T) (λ _, True) (windows_kept T) always sched s0 s _ ps); [done|done|done| |exact Hrun].
  apply Forall_fmap. eapply Forall_impl; [exact Hreqs|]. intros req. apply ordinary_keeps.
Qed.

(** ** Admission

    The table: a row is stored under its id, ids are handed out in order, and
    a user has one live subscription of a group at most, none beyond the
    last date allowed. *)

Record sub_ok (d : SubDB) : Prop := {
  ok_keyed : ∀ id r, sub_rows d !! id = Some r → us_ID r = id ∧ id < next_sub d;
  ok_unique : ∀ i j r r', sub_rows d !! i = Some r → sub_rows d !! j = Some r' →
                live r = true → live r' = true → us_UserID r = us_UserID r' →
                us_GroupID r = us_GroupID r' → i = j;
  ok_term : ∀ id r, sub_rows d !! id = Some r → us_ExpiresAt r ≤ MaxExpiresAt;
}.

Lemma rows_where_in p d r : r ∈ rows_where p d ↔ p r = true ∧ ∃ id, sub_rows d !! id = Some r.
Proof.
  unfold rows_where. rewrite list_elem_of_filter, list_elem_of_fmap. split.
  - intros (Hp & [id r'] & -> & Hin%elem_of_map_to_list). eauto.
  - intros (Hp & id & Hid). split; [done|]. exists (id, r). by rewrite elem_of_map_to_list.
Qed.
(** [Only] finds the row when no other matches. *)
Lemma Only_one p d id r :
  sub_rows d !! id = Some r → p r = true →
  (∀ i r', sub_rows d !! i = Some r' → p r' = true → i = id) → Only p d = Ok r.
Proof.
  intros Hid Hp Huniq. unfold Only, rows_where.
  set (keep := λ x : Z * row, p (snd x) = true).
  assert (filter (λ r, p r = true) (snd <$> map_to_list (sub_rows d)) =
          snd <$> filter keep (map_to_list (sub_rows d))) as ->.
  { induction (map_to_list (sub_rows d)) as [|[i x] l IH]; [done|].
    rewrite fmap_cons, !filter_cons, IH. unfold keep at 2; simpl. by destruct (decide _). }
  assert (filter keep (map_to_list (sub_rows d)) ≡ₚ [(id, r)]) as Hperm.
  { apply NoDup_Permutation.
    - apply NoDup_filter, NoDup_map_to_list.
    - apply NoDup_singleton.
    - intros [i x]. rewrite list_elem_of_filter, elem_of_map_to_list, list_elem_of_singleton.
      unfold keep; simpl. split; [|by intros [= -> ->]]. intros [Hx Hi].
      assert (i = id) as -> by eauto. congruence. }
  apply Permutation_singleton_r in Hperm. by rewrite Hperm.
Qed.

(** What an update must respect. *)
Definition fits (f : row → row) : Prop :=
  ∀ r, us_ID (f r) = us_ID r ∧ (us_ExpiresAt r ≤ MaxExpiresAt → us_ExpiresAt (f r) ≤ MaxExpiresAt).
(** An update that the unique index need not be asked about. *)
Definition stays (f : row → row) : Prop :=
  ∀ r, us_UserID (f r) = us_UserID r ∧ us_GroupID (f r) = us_GroupID r ∧ (live (f r) = true → live r = true).

Lemma taken_false id r d i r' :
  taken id r d = false → live r = true → sub_rows d !! i = Some r' → live r' = true →
  us_UserID r = us_UserID r' → us_GroupID r = us_GroupID r' → us_ID r' = id.
Proof.
  unfold taken. intros Ht Hl Hi Hl' Hu Hg. rewrite Hl in Ht. simpl in Ht.
  destruct (Z.eqb_spec (us_ID r') id) as [|Hne]; [done|exfalso]. revert Ht. apply not_false_iff_true.
  apply existsb_exists. exists r'. split.
  - apply list_elem_of_In, list_elem_of_fmap. exists (i, r'). by rewrite elem_of_map_to_list.
  - unfold owned. rewrite Hl', Hu, Hg, !Z.eqb_refl. by destruct (Z.eqb_spec (us_ID r') id).
Qed.

Lemma sub_ok_insert d id r r' :
  sub_ok d → sub_rows d !! id = Some r → us_ID r' = id → us_ExpiresAt r' ≤ MaxExpiresAt →
  (∀ i x, i ≠ id → sub_rows d !! i = Some x → live x = true → live r' = true →
          us_UserID r' = us_UserID x → us_GroupID r' = us_GroupID x → False) →
  sub_ok (set_rows <[id := r']> d).
Proof.
  intros [Hk Hu Ht] Hr Hid Hex Hno. split; simpl.
  - intros i x. rewrite lookup_insert_Some. intros [[<- <-]|[_ Hi]]; [|by apply Hk].
    split; [done|]. by apply (Hk id r).
  - intros i j x y. rewrite !lookup_insert_Some.
    intros [[<- <-]|[Hni Hi]] [[<- <-]|[Hnj Hj]] Hx Hy Hxy Hg; [done| | |eauto]; exfalso.
    + eapply (Hno j y); eauto.
    + eapply (Hno i x); eauto.
  - intros i x. rewrite lookup_insert_Some. intros [[<- <-]|[_ Hi]]; [done|by eapply Ht].
Qed.

Abbreviation preserves f := (respects sub_ok (λ _, sub_ok) f).

Lemma UpdateOneID_ok id f c d d' : fits f → sub_ok d → UpdateOneID id f c d = Ok d' → sub_ok d'.
Proof.
  intros Hf Hok. unfold UpdateOneID. destruct (sub_rows d !! id) as [r|] eqn:Hr; [|done].
  destruct (taken id (f r) d) eqn:Ht; [done|]. intros [= <-]. destruct (Hf r) as [Hid Hex].
  destruct (ok_keyed _ Hok _ _ Hr) as [Hrid _].
  eapply sub_ok_insert; [done|done|congruence|by eapply Hex, ok_term|].
  intros i x Hne Hi Hx Hl Hu Hg. destruct (ok_keyed _ Hok _ _ Hi) as [<- _].
  by rewrite (taken_false _ _ _ _ _ Ht Hl Hi Hx Hu Hg) in Hne.
Qed.
Lemma preserves_update {A} (a : A) id f c : fits f → preserves (λ d, done_with a (UpdateOneID id f c d)).
Proof.
  intros Hf d x d' Hok. unfold done_with. destruct (UpdateOneID id f c d) as [d1|] eqn:E; [|done].
  intros [= <- <-]. by eapply UpdateOneID_ok.
Qed.
Lemma preserves_row id f d r :
  fits f → stays f → sub_ok d → sub_rows d !! id = Some r → sub_ok (set_rows <[id := f r]> d).
Proof.
  intros Hf Hs Hok Hr. destruct (Hf r) as [Hid Hex], (Hs r) as (Hu & Hg & Hl).
  destruct (ok_keyed _ Hok _ _ Hr) as [Hrid _].
  eapply sub_ok_insert; [done|done|congruence|by eapply Hex, ok_term|].
  intros i x Hne Hi Hx Hlf Hxu Hxg. apply Hne, (ok_unique _ Hok _ _ _ _ Hi Hr Hx (Hl Hlf)); congruence.
Qed.
Lemma preserves_where id p f : fits f → stays f → preserves (update_where id p f).
Proof.
  intros Hf Hs d x d' Hok. unfold update_where. destruct (sub_rows d !! id) as [r|] eqn:Hr.
  - destruct (p r); intros [= <- <-]; [by apply preserves_row|done].
  - by intros [= <- <-].
Qed.
Lemma preserves_fmap {A} (a : A) f : fits f → stays f → preserves (λ d, Ok (a, set_rows (fmap f) d)).
Proof.
  intros Hf Hs d x d' [Hk Hu Ht] [= <- <-]. split; simpl.
  - intros i r. rewrite lookup_fmap, fmap_Some. intros (y & Hy & ->). destruct (Hf y) as [-> _]. eauto.
  - intros i j r r'. rewrite !lookup_fmap, !fmap_Some. intros (y & Hy & ->) (z & Hz & ->).
    destruct (Hs y) as (-> & -> & Hly), (Hs z) as (-> & -> & Hlz). eauto 10.
  - intros i r. rewrite lookup_fmap, fmap_Some. intros (y & Hy & ->). apply (Hf y). eauto.
Qed.

Lemma fits_term sa ex st no de :
  (∀ r, us_ExpiresAt r ≤ MaxExpiresAt → ex r ≤ MaxExpiresAt) →
  fits (λ r, set_term (sa r) (ex r) (st r) (no r) (de r) r).
Proof. intros Hex r. split; [done|apply Hex]. Qed.
Lemma to_row_term `{PgFloat} s n : to_row s = Some n → us_ExpiresAt n = us_ExpiresAt s.
Proof. unfold to_row. by intros (x & _ & (y & _ & (z & _ & [= <-])%bind_Some)%bind_Some)%bind_Some. Qed.
Lemma preserves_insert `{PgFloat} sa aa t input : preserves (insert_row sa aa (new_subscription t input)).
Proof.
  intros d a d' Hok. unfold insert_row. destruct (to_row _) as [n|] eqn:Hn; [|done]. cbv zeta.
  set (r := new_row (next_sub d) sa aa n). destruct (taken _ r d) eqn:Ht; [done|]. intros [= <- <-].
  assert (us_ExpiresAt n ≤ MaxExpiresAt) as Hex by (rewrite (to_row_term _ _ Hn); apply cap_expiry_le).
  pose proof Hok as [Hk Hu Hte].
  assert (∀ i x, sub_rows d !! i = Some x → live x = true → us_UserID r = us_UserID x →
            us_GroupID r = us_GroupID x → False) as Hno.
  { intros i x Hi Hx Hxu Hxg. pose proof (taken_false _ _ _ _ _ Ht eq_refl Hi Hx Hxu Hxg) as Hid.
    destruct (Hk _ _ Hi) as [Hxi Hlt]. lia. }
  split; simpl.
  - intros i x. rewrite lookup_insert_Some. intros [[<- <-]|[_ Hi]]; [by split; [|lia]|].
    destruct (Hk _ _ Hi). split; [done|lia].
  - intros i j x y. rewrite !lookup_insert_Some.
    intros [[<- <-]|[Hni Hi]] [[<- <-]|[Hnj Hj]] Hx Hy Hxy Hg; [done| | |eauto]; exfalso; eauto.
  - intros i x. rewrite lookup_insert_Some. intros [[<- <-]|[_ Hi]]; [done|by eapply Hte].
Qed.
Lemma preserves_term `{PgFloat} sub notes t e b : e ≤ MaxExpiresAt → preserves (update_term sub notes t e b).
Proof.
  intros He d a d' Hok (d1 & Hd & [= <- <-])%rbind_ok. destruct b.
  - unfold Update in Hd. destruct (to_row _) as [n|] eqn:Hn; [|done].
    assert (us_ExpiresAt n = e) as Hex by (by rewrite (to_row_term _ _ Hn)).
    eapply UpdateOneID_ok; [|done|exact Hd]. intros r. split; [done|]. simpl. lia.
  - apply rbind_ok in Hd as (d2 & H2 & (d3 & H3 & H4)%rbind_ok).
    eapply UpdateOneID_ok in H2; [|by apply fits_term|done].
    assert (sub_ok d3) as Hok3.
    { destruct (String.eqb _ _); [by injection H3 as <-|].
      by eapply UpdateOneID_ok; [|exact H2|exact H3]. }
    clear H3. destruct (String.eqb _ _); [by injection H4 as <-|].
    by eapply UpdateOneID_ok; [|exact Hok3|exact H4].
Qed.

Lemma fits_if (p : row → bool) f : fits f → fits (λ r, if p r then f r else r).
Proof. intros Hf r. destruct (p r); [apply Hf|done]. Qed.
Lemma stays_if (p : row → bool) f : stays f → stays (λ r, if p r then f r else r).
Proof. intros Hf r. destruct (p r); [apply Hf|done]. Qed.
Lemma fits_deleted t : fits (set_DeletedAt (Some t)).
Proof. done. Qed.
Lemma stays_deleted t : stays (set_DeletedAt (Some t)).
Proof. done. Qed.

Lemma preserves_activate id t : preserves (activate_row id t).
Proof. by apply preserves_where. Qed.
Lemma preserves_reset w id e t : preserves (reset_usage_row w id e t).
Proof. by apply preserves_where. Qed.
Lemma preserves_manual id resets t : preserves (reset_windows_row id resets t).
Proof. by apply preserves_update. Qed.
Lemma preserves_expiry id e : e ≤ MaxExpiresAt → preserves (λ d, done_with () (ExtendExpiry id e d)).
Proof. intros He. apply preserves_update. by split. Qed.
Lemma preserves_status id st : preserves (λ d, done_with () (UpdateStatus id st d)).
Proof. by apply preserves_update. Qed.
Lemma preserves_restore id st : preserves (restore_row id st).
Proof. by apply preserves_update. Qed.
Lemma preserves_delete id t : preserves (delete_row id t).
Proof.
  intros d a d' Hok [= <- <-]. destruct (sub_rows d !! id) as [r|] eqn:Hr; [|done].
  destruct (live r); [|done]. by apply preserves_row; [apply fits_deleted|apply stays_deleted|..].
Qed.
Lemma preserves_delete_group gid t : preserves (delete_group_rows gid t).
Proof. apply preserves_fmap; [apply fits_if, fits_deleted|apply stays_if, stays_deleted]. Qed.
Lemma preserves_expire t : preserves (expire_rows t).
Proof. by apply preserves_fmap; [apply fits_if|apply stays_if]. Qed.
Lemma preserves_increment `{PgFloat} id cost : preserves (increment_row id cost).
Proof.
  intros d a d' Hok. unfold increment_row. destruct (sub_rows d !! id) as [r|] eqn:Hr; [|done].
  destruct (_ || _); [done|]. repeat (destruct (store _ _); [|done]). intros [= <- <-].
  by apply (preserves_row id (set_usage _) d r).
Qed.

Lemma serve_preserves `{GT : GoText} `{PF : PgFloat} `{LO : Location} req :
  yields (λ _, True) sub_ok (λ _, sub_ok) (sub_serve req) always.
Proof.
  set (C := λ _ : time, True). assert (∀ o : Oracle, True → C (o_now o)) as Hclock by done.
  assert (∀ d, sub_ok d → sub_ok d) as Hsame by done.
  assert (∀ d f, sub_ok d → sub_ok (set_l1 f d)) as Hl1 by (intros d f []; by split).
  destruct req; unfold sub_serve.
  - eapply on_ok; [eapply (on_admit _ C)|done]; auto using preserves_activate, preserves_reset.
  - eapply on_drop; [eapply (on_maintain _ C)|done]; auto using preserves_activate, preserves_reset.
  - apply on_swrite; [done|]. apply preserves_increment.
  - eapply (on_validate _ C); auto using preserves_status.
  - eapply on_ok; [|done]. eapply on_ok; [eapply (on_assign _ C)|done]; auto using preserves_insert, preserves_term.
  - eapply on_ok; [eapply (on_assign_or_extend _ C)|done]; auto using preserves_insert, preserves_term.
  - eapply on_drop; [eapply (on_bulk _ C)|done]; auto using preserves_insert, preserves_term.
  - eapply on_ok; [eapply (on_extend _ C)|done]; auto using preserves_expiry, preserves_status.
  - eapply (on_revoke _ C); auto using preserves_delete.
  - eapply on_ok; [eapply (on_restore _ C)|done]; auto using preserves_restore.
  - eapply on_ok; [|done]. unfold AdminResetQuota. destruct (_ && _); [done|].
    eapply on_ok; [by apply on_sread|intros sub]. eapply (on_clock _ C); [done..|]. intros t _.
    eapply on_ok; [apply on_swrite; [done|apply preserves_manual]|intros _].
    eapply on_drop; [by apply on_cache|intros _; by apply on_sread].
  - eapply (on_delete_group _ C); auto using preserves_delete_group.
  - eapply (on_expiry _ C); auto using preserves_expire.
Qed.

(** C16: whatever requests assign, extend, renew, revoke, restore, admit, record
    and expire at once, and wherever they fail, every row stays under its id, a
    user has at most one live subscription of a group, and none lasts beyond the
    last date allowed. *)
Theorem subscriptions_well_formed `{GT : GoText} `{PF : PgFloat} `{LO : Location} sched reqs s0 s ps :
  sub_ok s0 → run sched (s0, sub_serve <$> reqs) = (s, ps) → sub_ok s.
Proof.
  intros Hok Hrun.
  eapply (yields_run (λ _, True) sub_ok (λ _, sub_ok) always sched s0 s _ ps); [done| |done| |exact Hrun].
  - by apply Forall_true.
  - apply Forall_fmap, Forall_true. intros req. apply serve_preserves.
Qed.

Section Alone.
Context `{PF : PgFloat} `{LO : Location} (t : time).

(** Nothing fails and the clock stands still. *)
Definition still (o : Oracle) : Prop := fate o = Fine ∧ o_now o = t.
#[local] Abbreviation goes n p d Q := (ends still n p d Q).

Lemma goes_now {B} n (k : time → sp B) d Q : goes n (k t) d Q → goes (S n) (x <-p now; k x) d Q.
Proof. intros Hk o [_ <-]. exact Hk. Qed.
Lemma goes_sread {A B} n f (k : res SubErr A → sp B) d Q :
  goes n (k (f d)) d Q → goes (S n) (x <-p sread f; k x) d Q.
Proof. intros Hk o [Hf _]. simpl. rewrite Hf. exact Hk. Qed.
Lemma goes_swrite {A B} n f (k : res SubErr A → sp B) d a d' Q :
  f d = Ok (a, d') → goes n (k (Ok a)) d' Q → goes (S n) (x <-p swrite f; k x) d Q.
Proof. intros Hd Hk o [Hf _]. simpl. rewrite Hf, Hd. exact Hk. Qed.
Lemma goes_cache {B} n f (k : unit → sp B) d Q :
  goes n (k ()) (set_l1 f d) Q → goes (S n) (x <-p cache_write f; k x) d Q.
Proof. intros Hk o [Hf _]. simpl. rewrite Hf. exact Hk. Qed.
Lemma goes_get {B} n key (k : option copy → sp B) d Q :
  goes n (k (l1 d !! key)) d Q → goes (S n) (x <-p cache_get key; k x) d Q.
Proof. intros Hk o [Hf _]. simpl. rewrite Hf. exact Hk. Qed.

(** The copy the program works on says when the windows of the row start. *)
Definition mirrors (sub : copy) (r : row) : Prop :=
  us_ID sub = us_ID r ∧ us_StartsAt sub = us_StartsAt r ∧ us_ExpiresAt sub = us_ExpiresAt r ∧
  ∀ w, window_start w sub = window_start w r.

Lemma mirrors_entity b r : mirrors (entity b r) r.
Proof. unfold mirrors, entity. destruct (_ && _); (split_and!; [done..|]); by intros []. Qed.

(** One window, as [ResetUsage] leaves it. *)
Definition reset_row (w : Window) (r : row) : row :=
  match due_start w t r with
  | Some x => set_start w (Some x) (put_usage w 0 r)
  | None => r
  end.

Lemma reset_row_term w r :
  us_ID (reset_row w r) = us_ID r ∧ us_StartsAt (reset_row w r) = us_StartsAt r ∧
  us_ExpiresAt (reset_row w r) = us_ExpiresAt r.
Proof. unfold reset_row. by destruct (due_start w t r). Qed.
Lemma reset_row_other w v r :
  v ≠ w → window_start v (reset_row w r) = window_start v r ∧ window_usage v (reset_row w r) = window_usage v r.
Proof. intros Hne. unfold reset_row. destruct (due_start w t r); [|done]. by destruct v, w. Qed.
Lemma reset_row_same w r :
  window_start w (reset_row w r) = start_at t r w ∧ window_usage w (reset_row w r) = usage_at t r w.
Proof. unfold reset_row, start_at, usage_at. destruct (due_start w t r); [|done]. by destruct w. Qed.

Lemma goes_window {B} w sub r id d n (k : _ → sp B) Q :
  mirrors sub r → us_ID r = id → sub_rows d !! id = Some r →
  (∀ sub' b d', mirrors sub' (reset_row w r) → sub_rows d' = <[id := reset_row w r]> (sub_rows d) →
                us_UserID sub' = us_UserID sub → us_GroupID sub' = us_GroupID sub →
                goes n (k (Ok (sub', b))) d' Q) →
  goes (S n) (x <-p reset_window w t sub; k x) d Q.
Proof.
  intros (Hid & Hst & Hex & Hw) Hrid Hr Hk. unfold reset_window.
  rewrite (due_start_same w t r sub) by done. unfold reset_row in Hk.
  destruct (due_start w t r) as [x|] eqn:Hx.
  - eapply goes_swrite; [|simpl].
    { unfold reset_usage_row, update_where. rewrite Hid, Hrid, Hr, Hw, bool_decide_eq_true_2 by done. reflexivity. }
    apply Hk; [|done|done|done]. split_and!; [done..|]. intros v. specialize (Hw v). by destruct v, w.
  - eapply ends_le; [apply Hk|lia]; [done| |done..]. by rewrite insert_id.
Qed.

Lemma reset_rows r :
  IsWindowActivated r = true → reset_row Monthly (reset_row Weekly (reset_row Daily r)) = maintained t r.
Proof.
  intros Hact. unfold maintained. rewrite Hact.
  assert (∀ w v r, v ≠ w → start_at t (reset_row w r) v = start_at t r v ∧
                           usage_at t (reset_row w r) v = usage_at t r v) as Hat.
  { intros w v x Hne. unfold start_at, usage_at.
    rewrite (due_start_same v t x (reset_row w x)) by first [apply reset_row_term|by apply reset_row_other].
    by destruct (reset_row_other w v x Hne) as [-> ->]. }
  assert (∀ w v r, v ≠ w → start_at t (reset_row w r) v = start_at t r v) as Hst by (intros; by apply Hat).
  assert (∀ w v r, v ≠ w → usage_at t (reset_row w r) v = usage_at t r v) as Hus by (intros; by apply Hat).
  assert (∀ w v r, v ≠ w → window_start v (reset_row w r) = window_start v r) as Hws
    by (intros; by apply reset_row_other).
  assert (∀ w v r, v ≠ w → window_usage v (reset_row w r) = window_usage v r) as Hwu
    by (intros; by apply reset_row_other).
  apply row_ext.
  - unfold reset_row. by repeat destruct (due_start _ _ _).
  - intros v. rewrite window_start_set, window_usage_set.
    destruct v; repeat rewrite Hws by done; repeat rewrite Hwu by done;
      rewrite (proj1 (reset_row_same _ _)), (proj2 (reset_row_same _ _));
      repeat rewrite Hst by done; by repeat rewrite Hus by done.
Qed.

Lemma goes_resets sub r id d :
  mirrors sub r → us_ID r = id → sub_rows d !! id = Some r → IsWindowActivated r = true →
  goes 5 (CheckAndResetWindows sub) d (λ a d', a = Ok () ∧ sub_rows d' = <[id := maintained t r]> (sub_rows d)).
Proof.
  intros Hm Hid Hr Hact. unfold CheckAndResetWindows. apply goes_now.
  apply (goes_window Daily sub r id); [done..|]. intros s1 b1 d1 Hm1 Hd1 _ _.
  pose proof (reset_row_term Daily r) as (Hi1 & _ & _).
  apply (goes_window Weekly s1 (reset_row Daily r) id); [done|congruence|by rewrite Hd1, lookup_insert_eq|].
  intros s2 b2 d2 Hm2 Hd2 _ _. pose proof (reset_row_term Weekly (reset_row Daily r)) as (Hi2 & _ & _).
  apply (goes_window Monthly s2 (reset_row Weekly (reset_row Daily r)) id);
    [done|congruence|by rewrite Hd2, lookup_insert_eq|].
  intros s3 b3 d3 _ Hd3 _ _. rewrite (reset_rows r Hact), Hd2, Hd1, !insert_insert_eq in Hd3.
  destruct (_ || _); [|by destruct d3].
  apply goes_cache. by simpl.
Qed.

(** The windows of a maintained row run, and so do windows just started. *)
Lemma maintained_not_due r w :
  regular t r → due_start w t (maintained t r) = None.
Proof.
  intros Hreg. destruct (due_start w t (maintained t r)) as [z|] eqn:Hz; [|done]. exfalso.
  pose proof (period_bounds w). destruct (due_start_stored _ _ _ _ Hz) as [q Hq].
  pose proof (due_start_bounds _ _ _ _ _ Hq Hz) as [Hb _].
  destruct (IsWindowActivated r) eqn:Hact.
  - assert (window_start w (maintained t r) = start_at t r w) as Hs
      by (unfold maintained; by rewrite Hact, window_start_set).
    unfold start_at in Hs. destruct (due_start w t r) as [x|] eqn:Hx.
    + destruct (due_start_stored _ _ _ _ Hx) as [p Hp]. destruct (Hreg w p Hp) as [Hmid Hreach].
      destruct (reset_later w t t r x p) as [Hl _]; [done..|].
      unfold start_at in Hl. rewrite Hz, Hx in Hl. assert (q = x) by congruence. injection Hl as ->. lia.
    + rewrite (due_start_same w t r) in Hz by (done || (unfold maintained; by rewrite Hact)). congruence.
  - unfold maintained in Hq, Hz. rewrite Hact in Hq, Hz. rewrite window_start_set in Hq.
    injection Hq as <-. lia.
Qed.

Lemma maintained_id r : IsWindowActivated r = true → (∀ w, due_start w t r = None) → maintained t r = r.
Proof.
  intros Hact Hdue. unfold maintained. rewrite Hact. apply row_ext; [done|].
  intros w. rewrite window_start_set, window_usage_set. unfold start_at, usage_at. by rewrite Hdue.
Qed.
Lemma maintained_term r :
  us_ID (maintained t r) = us_ID r ∧ us_StartsAt (maintained t r) = us_StartsAt r ∧
  us_ExpiresAt (maintained t r) = us_ExpiresAt r ∧ us_Status (maintained t r) = us_Status r ∧
  us_UserID (maintained t r) = us_UserID r ∧ us_GroupID (maintained t r) = us_GroupID r ∧
  us_DeletedAt (maintained t r) = us_DeletedAt r ∧ us_Notes (maintained t r) = us_Notes r.
Proof. unfold maintained. by destruct (IsWindowActivated r). Qed.

Lemma mirrors_activated sub r : mirrors sub r → IsWindowActivated sub = IsWindowActivated r.
Proof.
  intros (_ & _ & _ & Hw). unfold IsWindowActivated.
  pose proof (Hw Daily) as H1. pose proof (Hw Weekly) as H2. pose proof (Hw Monthly) as H3. simpl in *.
  by rewrite H1, H2, H3.
Qed.
Lemma maintained_live r : live (maintained t r) = live r.
Proof. unfold live. by destruct (maintained_term r) as (_ & _ & _ & _ & _ & _ & -> & _). Qed.

(** A copy none of whose windows has started has none to reset. *)
Lemma goes_no_resets (sub : copy) d :
  IsWindowActivated sub = false →
  goes 1 (CheckAndResetWindows sub) d (λ a d', a = Ok () ∧ d' = d).
Proof.
  intros Hact. unfold CheckAndResetWindows. apply goes_now.
  assert (∀ w, reset_window w t sub = Ret (Ok (sub, false))) as Hw; [|do 3 (rewrite Hw; simpl); done].
  intros w. unfold reset_window. destruct (due_start w t sub) as [x|] eqn:Hx; [|done].
  destruct (due_start_stored _ _ _ _ Hx) as [p Hp]. exfalso. revert Hact. unfold IsWindowActivated.
  destruct w; simpl in Hp; by rewrite Hp, ?orb_true_r.
Qed.

Lemma goes_ensure sub r id d :
  mirrors sub r → us_ID r = id → sub_rows d !! id = Some r → live r = true →
  goes 9 (EnsureWindowMaintenance sub) d (λ a d',
    a = Ok (userSubscriptionEntityToService (maintained t r)) ∧
    sub_rows d' = <[id := maintained t r]> (sub_rows d)).
Proof.
  intros Hm Hid Hr Hlive. unfold EnsureWindowMaintenance.
  assert (∀ d1, sub_rows d1 = <[id := maintained t r]> (sub_rows d) →
    goes 2 (refreshed <-s GetByID (us_ID sub); _ <-p InvalidateSubCacheSync (us_UserID sub) (us_GroupID sub);
            Ret (Ok refreshed)) d1 (λ a d',
      a = Ok (userSubscriptionEntityToService (maintained t r)) ∧
      sub_rows d' = <[id := maintained t r]> (sub_rows d))) as Hrest.
  { intros d1 Hd1. destruct Hm as (Hsid & _). apply goes_sread.
    rewrite Hsid, Hid, Hd1, lookup_insert_eq, maintained_live, Hlive. by apply goes_cache. }
  rewrite (mirrors_activated _ _ Hm). destruct (IsWindowActivated r) eqn:Hact; cbn [negb].
  - apply (ends_le _ (0 + (5 + 2))%nat); [|lia].
    eapply ends_bind with (Q := λ a d', a = Ok () ∧ d' = d); [by split|]. intros ? ? [-> ->].
    eapply ends_bind; [by apply goes_resets|]. intros ? d1 [-> Hd1]. by apply Hrest.
  - apply (ends_le _ (2 + (1 + 2))%nat); [|lia].
    eapply ends_bind with (Q := λ a d', a = Ok () ∧ sub_rows d' = <[id := maintained t r]> (sub_rows d)).
    { unfold CheckAndActivateWindow. apply goes_now. rewrite (mirrors_activated _ _ Hm), Hact.
      destruct Hm as (Hsid & _). unfold ActivateWindows. eapply goes_swrite.
      { unfold activate_row, update_where. rewrite Hsid, Hid, Hr, Hact. reflexivity. }
      split; [done|]. simpl. unfold maintained. by rewrite Hact. }
    intros ? d1 [-> Hd1].
    eapply ends_bind; [apply goes_no_resets; by rewrite (mirrors_activated _ _ Hm)|].
    intros ? d2 [-> ->]. by apply Hrest.
Qed.

(** The verdict on a copy whose windows all run. *)
Lemma can_reset {V} (s : UserSubscription V) :
  canAutomaticallyResetDailyAt t s = bool_decide (is_Some (due_start Daily t s)) ∧
  canAutomaticallyResetWeeklyAt t s = bool_decide (is_Some (due_start Weekly t s)) ∧
  canAutomaticallyResetMonthlyAt t s = bool_decide (is_Some (due_start Monthly t s)).
Proof.
  split_and!; [|done|done]. unfold canAutomaticallyResetDailyAt, due_start.
  by destruct (HasOneTimeDailyQuota s).
Qed.

(** Usable: live, active and not over. *)
Definition usable (uid gid : Z) (r : row) : bool :=
  live r && owned uid gid r && String.eqb (us_Status r) SubscriptionStatusActive
  && time_After (us_ExpiresAt r) t.

(** Every window of the row runs: there is nothing to maintain. *)
Definition runs (r : row) : bool :=
  IsWindowActivated r && forallb (λ w, negb (bool_decide (is_Some (due_start w t r)))) [Daily; Weekly; Monthly].
Lemma runs_spec r : runs r = true ↔ IsWindowActivated r = true ∧ ∀ w, due_start w t r = None.
Proof.
  unfold runs. simpl. rewrite andb_true_r, !andb_true_iff, !negb_true_iff, !bool_decide_eq_false, <-!eq_None_not_Some.
  split; [intros (Ha & Hd & Hw & Hm); split; [done|by intros []]|]. intros [Ha Hd]. by split_and!.
Qed.

Lemma validate_copy (c : copy) r g :
  mirrors c r → us_Status c = SubscriptionStatusActive → time_After (us_ExpiresAt r) t = true →
  let '(s, needs, v) := ValidateAndCheckLimits t c g in
  mirrors s r ∧ needs = negb (runs r) ∧
  ((∀ w, due_start w t r = None) → v = CheckUsageLimits c g f0 ∧ s = c).
Proof.
  intros Hm Hst Hex. pose proof Hm as (_ & _ & Hce & _).
  unfold ValidateAndCheckLimits. rewrite Hst, Hce, Hex. simpl String.eqb. cbn [negb]. cbv zeta.
  assert (∀ w (b : bool) s, mirrors s r → mirrors (if b then put_usage w f0 s else s) r) as Hput.
  { intros w b s (? & ? & ? & Hw). destruct b; [|by split_and!]. split_and!; [done..|].
    intros v. rewrite <-Hw. by destruct v. }
  assert (∀ s, mirrors s r → canAutomaticallyResetDailyAt t s = bool_decide (is_Some (due_start Daily t r)) ∧
             canAutomaticallyResetWeeklyAt t s = bool_decide (is_Some (due_start Weekly t r)) ∧
             canAutomaticallyResetMonthlyAt t s = bool_decide (is_Some (due_start Monthly t r))) as Hcan.
  { intros s (_ & Hs & He & Hw). destruct (can_reset s) as (-> & -> & ->).
    by rewrite !(due_start_same _ t r s) by done. }
  set (s1 := if canAutomaticallyResetDailyAt t c then _ else c).
  assert (mirrors s1 r) as Hm1 by (by apply Hput).
  set (s2 := if canAutomaticallyResetWeeklyAt t s1 then _ else s1).
  assert (mirrors s2 r) as Hm2 by (by apply Hput).
  set (s3 := if canAutomaticallyResetMonthlyAt t s2 then _ else s2).
  assert (mirrors s3 r) as Hm3 by (by apply Hput).
  destruct (Hcan c Hm) as (Hd & _ & _), (Hcan s1 Hm1) as (_ & Hw & _), (Hcan s2 Hm2) as (_ & _ & Hmo).
  split; [done|]. rewrite (mirrors_activated _ _ Hm3), Hd, Hw, Hmo. split.
  - unfold runs. simpl. by destruct (bool_decide _), (bool_decide _), (bool_decide _), (IsWindowActivated r).
  - intros Hnone. assert (∀ w, bool_decide (is_Some (due_start w t r)) = false) as Hb.
    { intros w. rewrite Hnone. by apply bool_decide_eq_false. }
    assert (s3 = c) as ->; [|done].
    unfold s3. rewrite Hmo, Hb. unfold s2. rewrite Hw, Hb. unfold s1. by rewrite Hd, Hb.
Qed.
Lemma usable_entity uid gid r :
  usable uid gid r = true →
  live r = true ∧ us_Status (userSubscriptionEntityToService r) = SubscriptionStatusActive ∧
  time_After (us_ExpiresAt r) t = true.
Proof.
  intros Hu. unfold usable in Hu. apply andb_true_iff in Hu as [[[Hlive _]%andb_true_iff Hst]%andb_true_iff Hex].
  apply String.eqb_eq in Hst. split_and!; [done| |done].
  unfold userSubscriptionEntityToService, entity. by rewrite Hlive.
Qed.

(** The admission of a request, for the copy it finds, in the cache or in the table. *)
Lemma goes_judged uid gid g (c : copy) id r d n (p : sp (res SubErr copy)) :
  usable uid gid r = true → regular t r → us_ID r = id → sub_rows d !! id = Some r →
  mirrors c r → us_Status c = SubscriptionStatusActive →
  let m := userSubscriptionEntityToService (maintained t r) in
  let seen := if runs r then c else m in
  goes n p d (λ a d', a = Ok c ∧ sub_rows d' = sub_rows d) →
  goes (n + 11)
    (subscription <-p p;
     match subscription with
     | Err _ => Ret (Err ENoActiveSubscription)
     | Ok subscription =>
         t <-p now;
         let '(subscription, needsMaintenance, validateErr) := ValidateAndCheckLimits t subscription g in
         if needsMaintenance then
           refreshed <-p EnsureWindowMaintenance subscription;
           match refreshed with
           | Err _ => Ret (Err EMaintenanceFailed)
           | Ok refreshed =>
               t <-p now;
               let '(subscription, _, validateErr) := ValidateAndCheckLimits t refreshed g in
               Ret (_ <-? validateErr; Ok subscription)
           end
         else Ret (_ <-? validateErr; Ok subscription)
     end) d (λ a d',
    a = (_ <-? CheckUsageLimits seen g f0; Ok seen) ∧ sub_rows d' = <[id := maintained t r]> (sub_rows d)).
Proof.
  intros Hu Hreg Hid Hr Hmc Hst m seen Hp. destruct (usable_entity _ _ _ Hu) as (Hlive & _ & Hex).
  assert (usable uid gid (maintained t r) = true) as Hum.
  { revert Hu. unfold usable, owned. rewrite maintained_live.
    destruct (maintained_term r) as (_ & _ & -> & -> & -> & -> & _). done. }
  destruct (usable_entity _ _ _ Hum) as (_ & Hstm & Hexm).
  eapply ends_bind; [exact Hp|]. intros ? d1 [-> Hd1]. apply goes_now.
  pose proof (validate_copy c r g Hmc Hst Hex) as Hv.
  destruct (ValidateAndCheckLimits t c g) as [[s needs] v]. destruct Hv as (Hm & -> & Hverdict).
  unfold seen. destruct (runs r) eqn:Hruns; cbn [negb].
  - apply runs_spec in Hruns as [Hact Hnone]. destruct (Hverdict Hnone) as [-> ->].
    rewrite (maintained_id r Hact Hnone). simpl. split; [done|]. by rewrite insert_id.
  - apply (ends_le _ (9 + 1)%nat); [|lia].
    eapply ends_bind; [by apply (goes_ensure s r id); [|done|rewrite Hd1|]|].
    intros ? d2 [-> Hd2]. apply goes_now.
    pose proof (validate_copy m (maintained t r) g (mirrors_entity true _) Hstm Hexm) as Hv2. fold m.
    destruct (ValidateAndCheckLimits t m g) as [[s2 n2] v2]. destruct Hv2 as (_ & _ & Hv2).
    destruct Hv2 as [-> ->]; [|simpl; by rewrite Hd2, Hd1].
    intros w. by apply maintained_not_due.
Qed.

(** C14: alone, with nothing failing and a clock that stands still, a request of a
    user with a usable subscription (of a well-formed table, live, active, not over,
    its windows no older than the midnight before its term) is admitted exactly when
    what it sees is within the limits of the group, is handed that, and leaves the
    row with its windows brought up to date; no other row changes.  What it sees is
    what the row says at that time; except that when the process has a copy in its
    cache, which says the same of the term and the windows but whose counters may be
    old (recording usage does not drop it: [stale_copy_admits]), and all windows
    run, it sees that copy. *)
Theorem admission_exact uid gid g d id r :
  sub_ok d → sub_rows d !! id = Some r → usable uid gid r = true → regular t r →
  (∀ c, l1 d !! (uid, gid) = Some c → mirrors c r ∧ us_Status c = SubscriptionStatusActive) →
  let m := userSubscriptionEntityToService (maintained t r) in
  let seen := match l1 d !! (uid, gid) with Some c => if runs r then c else m | None => m end in
  goes 15 (admit_subscription uid gid g) d (λ a d',
    a = (_ <-? CheckUsageLimits seen g f0; Ok seen) ∧ sub_rows d' = <[id := maintained t r]> (sub_rows d)).
Proof.
  intros Hok Hr Hu Hreg Hcached m seen. destruct (ok_keyed _ Hok _ _ Hr) as [Hid _].
  destruct (usable_entity _ _ _ Hu) as (Hlive & Hst & Hex).
  assert (Only (usable uid gid) d = Ok r) as Honly.
  { eapply Only_one; [done..|]. intros i r' Hi Hu'. unfold usable, owned in Hu, Hu'.
    rewrite !andb_true_iff, !Z.eqb_eq in Hu, Hu'. destruct Hu as [[[? []] _] _], Hu' as [[[? []] _] _].
    eapply (ok_unique _ Hok); eauto; congruence. }
  unfold seen. destruct (l1 d !! (uid, gid)) as [c|] eqn:Hl1.
  - destruct (Hcached c eq_refl) as [Hmc Hstc]. apply (ends_le _ (4 + 11)%nat); [|lia].
    apply (goes_judged uid gid g c id r); try done.
    unfold GetActiveSubscription. apply goes_get. rewrite Hl1. by apply (ends_le _ 0); [|lia].
  - assert (m = if runs r then userSubscriptionEntityToService r else m) as ->.
    { destruct (runs r) eqn:Hruns; [|done]. apply runs_spec in Hruns as [Hact Hnone].
      unfold m. by rewrite maintained_id. }
    apply (ends_le _ (4 + 11)%nat); [|lia].
    apply (goes_judged uid gid g _ id r); try done; [apply mirrors_entity|].
    unfold GetActiveSubscription. apply goes_get. rewrite Hl1.
    apply (ends_le _ (2 + 1)%nat); [|lia].
    eapply ends_bind with (Q := λ a d', a = Ok (userSubscriptionEntityToService r) ∧ d' = d).
    { apply goes_now. intros o [Hf _]. simpl. rewrite Hf.
      change (Only _ d) with (Only (usable uid gid) d). by rewrite Honly. }
    intros ? ? [-> ->]. by apply goes_cache.
Qed.
End Alone.

(** ** Revocation *)

Lemma rows_where_none p d :
  (∀ i r, sub_rows d !! i = Some r → p r = false) → rows_where p d = [].
Proof.
  intros Hno. destruct (rows_where p d) as [|r l] eqn:E; [done|].
  assert (r ∈ rows_where p d) as [Hp [i Hi]]%rows_where_in by (rewrite E; apply list_elem_of_here).
  specialize (Hno _ _ Hi). congruence.
Qed.

Lemma taken_none id r d :
  (∀ i x, sub_rows d !! i = Some x → live x = true → us_UserID r = us_UserID x →
          us_GroupID r = us_GroupID x → us_ID x = id) → taken id r d = false.
Proof.
  intros Hno. unfold taken. destruct (live r); [|done]. simpl. apply not_true_iff_false.
  intros (x & Hin & Hx)%existsb_exists. apply list_elem_of_In, list_elem_of_fmap in Hin as ([i y] & -> & Hin).
  apply elem_of_map_to_list in Hin. simpl in Hx. unfold owned in Hx.
  rewrite !andb_true_iff, !Z.eqb_eq, negb_true_iff, Z.eqb_neq in Hx. destruct Hx as [[? [? ?]] Hne].
  apply Hne. by eapply Hno.
Qed.

(** What a restored row has become when it ran out meanwhile. *)
Definition restored (t : time) (r : row) : row :=
  if String.eqb (us_Status r) SubscriptionStatusActive && negb (time_After (us_ExpiresAt r) t)
  then set_Status SubscriptionStatusExpired r else r.

Section Revocation.
Context `{PF : PgFloat} `{LO : Location}.

Lemma goes_caches t uid gid d Q :
  (∀ d', sub_rows d' = sub_rows d → Q (Ok ()) d') → ends (still t) 2 (invalidate_caches uid gid) d Q.
Proof. intros HQ. unfold invalidate_caches. apply goes_cache. intros o [Hf _]. simpl. rewrite Hf. by apply HQ. Qed.

Lemma goes_revoke t d id r :
  sub_rows d !! id = Some r → live r = true →
  ends (still t) 5 (RevokeSubscription id) d (λ a d',
    a = Ok () ∧ sub_rows d' = <[id := set_DeletedAt (Some t) r]> (sub_rows d)).
Proof.
  intros Hr Hl. unfold RevokeSubscription. apply goes_sread. rewrite Hr, Hl.
  apply (ends_bind _ 2 2 _ _ _ (λ a d', a = Ok () ∧ sub_rows d' = <[id := set_DeletedAt (Some t) r]> (sub_rows d))).
  - unfold Delete. apply goes_now. intros o [Hf _]. simpl. rewrite Hf, Hr, Hl. by split.
  - intros ? d1 [-> Hd1]. apply goes_caches. intros d' ->. by split.
Qed.

Lemma goes_restore t t0 d id r :
  sub_rows d !! id = Some (set_DeletedAt (Some t0) r) → live r = true → us_ID r = id →
  (∀ i x, sub_rows d !! i = Some x → live x = true → owned (us_UserID r) (us_GroupID r) x = false) →
  ends (still t) 7 (RestoreSubscription id) d (λ a d',
    a = Ok (userSubscriptionEntityToService (restored t r)) ∧
    sub_rows d' = <[id := restored t r]> (sub_rows d)).
Proof.
  intros Hr Hl Hid Hfree. unfold RestoreSubscription. apply goes_sread. rewrite Hr.
  cbn [us_DeletedAt userSubscriptionEntityToServicePreserveStatus entity andb set_usage set_DeletedAt set_term].
  apply goes_sread. rewrite rows_where_none.
  2: { intros i x Hi. destruct (live x) eqn:Hx; [|done]. simpl. by eapply Hfree. }
  apply goes_now.
  set (st := if String.eqb (us_Status r) SubscriptionStatusActive && negb (time_After (us_ExpiresAt r) t)
             then SubscriptionStatusExpired else us_Status r).
  match goal with |- context [Restore id ?x] => change x with st end.
  assert (set_DeletedAt None (set_Status st (set_DeletedAt (Some t0) r)) = restored t r) as Hrow.
  { unfold live in Hl. apply bool_decide_eq_true in Hl. unfold st, restored.
    destruct (_ && _); destruct r; simpl in *; subst; done. }
  assert (us_UserID (restored t r) = us_UserID r ∧ us_GroupID (restored t r) = us_GroupID r ∧
          live (restored t r) = true) as (Hu & Hg & Hlr) by (unfold restored; by destruct (_ && _)).
  apply (ends_bind _ 2 2 _ _ _ (λ a d', a = Ok (userSubscriptionEntityToService (restored t r)) ∧
                                       sub_rows d' = <[id := restored t r]> (sub_rows d))).
  - unfold Restore. eapply goes_swrite.
    { unfold restore_row, UpdateOneID, done_with. rewrite Hr, Hrow, taken_none; [reflexivity|].
      intros i x Hi Hx Hxu Hxg. exfalso. specialize (Hfree i x Hi Hx). unfold owned in Hfree.
      rewrite <-Hxu, <-Hxg, Hu, Hg, !Z.eqb_refl in Hfree. done. }
    intros o [Hf _]. simpl. by rewrite Hf, lookup_insert_eq, Hlr.
  - intros ? d1 [-> Hd1]. apply (ends_bind _ 2 0 _ _ _ (λ a d', a = Ok () ∧ sub_rows d' = sub_rows d1)).
    + by apply goes_caches.
    + intros ? d2 [-> Hd2]. split; [done|]. by rewrite Hd2.
Qed.
End Revocation.

(** C17: a subscription that is revoked and restored, alone and with nothing
    failing, is the subscription it was, with its term, its windows and what
    was used in them; only one that ran out meanwhile is marked expired. *)
Theorem revoked_is_restored `{PF : PgFloat} d id r t t' :
  sub_ok d → sub_rows d !! id = Some r → live r = true →
  ends (still t) 5 (RevokeSubscription id) d (λ a d1,
    a = Ok () ∧ (∀ sub, sub_rows d1 !! id = Some sub → live sub = false) ∧
    ends (still t') 7 (RestoreSubscription id) d1 (λ b d2,
      b = Ok (userSubscriptionEntityToService (restored t' r)) ∧
      sub_rows d2 = <[id := restored t' r]> (sub_rows d))).
Proof.
  intros Hok Hr Hl. destruct (ok_keyed _ Hok _ _ Hr) as [Hid _].
  eapply ends_weaken; [by apply goes_revoke|done|]. intros a d1 [-> Hd1]. split; [done|].
  assert (sub_rows d1 !! id = Some (set_DeletedAt (Some t) r)) as Hr1 by (by rewrite Hd1, lookup_insert_eq).
  split; [rewrite Hr1; by intros sub [= <-]|].
  eapply ends_weaken; [eapply (goes_restore t' t d1 id r); [done|done|done|]|done|].
  - intros i x. rewrite Hd1, lookup_insert_Some. intros [[_ <-]|[Hne Hi]] Hx; [done|].
    unfold owned. apply not_true_iff_false. rewrite andb_true_iff, !Z.eqb_eq. intros [Hu Hg].
    apply Hne. eapply (ok_unique _ Hok); eauto.
  - intros b d2 [-> Hd2]. split; [done|]. by rewrite Hd2, Hd1, insert_insert_eq.
Qed.

(** ** Concrete runs *)
Module SubDemo.
#[local] Instance demo_text : GoText := ascii_text.
#[local] Instance demo_zone : Location := {| zone_offset := 8 * Hour |}.
#[local] Instance demo_num : PgFloat :=
  {| num := λ x, match x with
                 | SpecFloat.S754_finite s m e =>
                     let z := if s then Z.neg m else Z.pos m in
                     if 0 <=? e then (z * 2 ^ e # 1)%Q else (z # Z.to_pos (2 ^ (- e)))%Q
                 | _ => 0%Q
                 end;
     scan := λ q, fdiv (f_of_int (Qnum q)) (f_of_int (QDen q)) |}.

(** Noon of a day in Shanghai, in 2025. *)
Definition noon : time := 63900000000 * Second - (63900000000 * Second + 8 * Hour) mod Day + 12 * Hour.
(** A month from noon, counted from the midnight before; a dollar each. *)
Definition monthly : row :=
  {| us_ID := 1; us_UserID := 7; us_GroupID := 3; us_StartsAt := noon; us_ExpiresAt := AddDays noon 31;
     us_Status := "active"; us_DailyWindowStart := Some (noon - 12 * Hour);
     us_WeeklyWindowStart := Some (noon - 12 * Hour); us_MonthlyWindowStart := Some (noon - 12 * Hour);
     us_DailyUsageUSD := 10000000000; us_WeeklyUsageUSD := 10000000000;
     us_MonthlyUsageUSD := 10000000000; us_AssignedBy := None; us_AssignedAt := noon; us_Notes := "";
     us_DeletedAt := None |}.
(** A dollar a day, three a week. *)
Definition plan : SubGroup :=
  {| sg_subscription_type := true; sg_DailyLimitUSD := Some (f_dec 1 0);
     sg_WeeklyLimitUSD := Some (f_of_int 3); sg_MonthlyLimitUSD := None; sg_deleted := false |}.
Definition sold : SubDB :=
  {| sub_rows := {[1 := monthly]}; sub_groups := {[3 := plan]}; next_sub := 2; l1 := ∅ |}.
Definition at_ (t : time) : Oracle := {| fate := Fine; o_now := t |}.

Lemma sold_ok : sub_ok sold.
Proof.
  split.
  - intros id r. simpl. rewrite lookup_singleton_Some. by intros [<- <-].
  - intros i j r r'. simpl. rewrite !lookup_singleton_Some. by intros [<- _] [<- _].
  - intros id r. simpl. rewrite lookup_singleton_Some. intros [_ <-]. vm_compute. discriminate.
Qed.

Example starts_at_noon :
  due_start Daily (AddDays noon 2 + Hour) monthly = Some (AddDays noon 2) ∧
  due_start Weekly (AddDays noon 2 + Hour) monthly = None ∧
  due_start Monthly (AddDays noon 30) monthly = Some (AddDays noon 30) ∧
  due_start Daily (AddDays noon 100) monthly = Some (AddDays noon 30) ∧
  daysRemainingAt (noon + Hour) monthly = 31.
Proof. split_and!; vm_compute; reflexivity. Qed.

Lemma monthly_regular t : t ≤ AddDays noon 100 → regular t monthly.
Proof.
  intros Ht w p Hp. assert (p = noon - 12 * Hour) as -> by (by destruct w; injection Hp as <-).
  assert (anchor monthly (noon - 12 * Hour) = noon) as Ha by (vm_compute; reflexivity).
  unfold in_reach. rewrite Ha. split; [vm_compute; discriminate|]. split; [|vm_compute; discriminate].
  assert (AddDays noon 100 - noon ≤ max_int64) by (vm_compute; discriminate). lia.
Qed.

Lemma automatic_start_exact_witness :
  last_start monthly (anchor monthly (noon - 12 * Hour)) Day (AddDays noon 2 + Hour) (AddDays noon 2).
Proof.
  apply (automatic_start_exact monthly (noon - 12 * Hour) Day (AddDays noon 2 + Hour) (AddDays noon 2)).
  - split; reflexivity.
  - split; vm_compute; discriminate.
  - vm_compute. reflexivity.
Defined.

Lemma maintenance_can_wait_witness :
  maintained (AddDays noon 8) (maintained (AddDays noon 2 + Hour) monthly) = maintained (AddDays noon 8) monthly.
Proof.
  apply maintenance_can_wait.
  - reflexivity.
  - apply monthly_regular. vm_compute. discriminate.
  - vm_compute. discriminate.
Defined.

Definition busy : list SubRequest :=
  [SubAdmit 7 3 plan; SubAdmit 7 3 plan; SubRecordUsage 1 (f_dec 5 1); SubExpiry].
(** Two requests after the first day decide to reset at once; usage is
    recorded between the reset of the first and the attempt of the second. *)
Definition crowded : list (nat * Oracle) :=
  let o := at_ (AddDays noon 1 + Hour) in
  replicate 6 (0%nat, o) ++ replicate 6 (1%nat, o) ++ replicate 9 (0%nat, o) ++ replicate 1 (2%nat, o)
  ++ replicate 9 (1%nat, o) ++ replicate 2 (3%nat, o).
Definition play (sched : list (nat * Oracle)) := run sched (sold, sub_serve <$> busy).
Lemma sub_played sched : run sched (sold, sub_serve <$> busy) = (fst (play sched), snd (play sched)).
Proof. apply surjective_pairing. Qed.

Example reset_once :
  (λ r, (us_DailyWindowStart r, us_DailyUsageUSD r, us_WeeklyUsageUSD r)) <$>
    sub_rows (fst (play crowded)) !! 1 = Some (Some (AddDays noon 1), 5000000000, 15000000000) ∧
  (λ p, is_ok <$> result p) <$> snd (play crowded) = [Some true; Some true; Some true; Some true].
Proof. split; vm_compute; reflexivity. Qed.

Lemma usage_is_kept_witness :
  ∃ r', sub_rows (fst (play crowded)) !! 1 = Some r' ∧ ∀ w a, window_start w monthly = Some a →
    (window_start w r' = Some a ∧ window_usage w monthly ≤ window_usage w r') ∨
    (∃ a', window_start w r' = Some a' ∧ a + period w ≤ a' ≤ AddDays noon 2).
Proof.
  apply (usage_is_kept (AddDays noon 2) crowded busy sold (fst (play crowded)) (snd (play crowded)) 1 monthly).
  - repeat constructor. simpl. unfold Qle. vm_compute. discriminate.
  - repeat (apply Forall_cons; split; [vm_compute; discriminate|]). apply Forall_nil. exact I.
  - apply sub_played.
  - reflexivity.
Defined.

Lemma subscriptions_well_formed_witness : sub_ok (fst (play crowded)).
Proof. exact (subscriptions_well_formed crowded busy sold _ _ sold_ok (sub_played crowded)). Defined.

Lemma admission_exact_witness :
  let t := AddDays noon 1 + Hour in
  let m := userSubscriptionEntityToService (maintained t monthly) in
  ends (still t) 15 (admit_subscription 7 3 plan) sold (λ a d',
    a = (_ <-? CheckUsageLimits m plan f0; Ok m) ∧ sub_rows d' = <[1 := maintained t monthly]> (sub_rows sold)).
Proof.
  apply (admission_exact (AddDays noon 1 + Hour) 7 3 plan sold 1 monthly).
  - apply sold_ok.
  - reflexivity.
  - vm_compute. reflexivity.
  - apply monthly_regular. vm_compute. discriminate.
  - intros c E. discriminate E.
Defined.

(** A copy in the cache with counters of before: the row has used two dollars of
    the one that the day allows, and the request is admitted. *)
Definition overdrawn : SubDB :=
  let r := put_usage Daily 20000000000 monthly in
  {| sub_rows := {[1 := r]}; sub_groups := {[3 := plan]}; next_sub := 2;
     l1 := {[(7, 3) := userSubscriptionEntityToService (put_usage Daily 0 monthly)]} |}.
Example stale_copy_admits :
  let served d := is_ok <$> snd (run_alone (admit_subscription 7 3 plan) (replicate 15 (at_ noon)) d) in
  served overdrawn = Some true ∧
  served {| sub_rows := sub_rows overdrawn; sub_groups := sub_groups overdrawn; next_sub := 2; l1 := ∅ |}
    = Some false.
Proof. vm_compute. by split. Qed.

Lemma revoked_is_restored_witness :
  ends (still noon) 5 (RevokeSubscription 1) sold (λ a d1,
    a = Ok () ∧ (∀ sub, sub_rows d1 !! 1 = Some sub → live sub = false) ∧
    ends (still (AddDays noon 40)) 7 (RestoreSubscription 1) d1 (λ b d2,
      b = Ok (userSubscriptionEntityToService (restored (AddDays noon 40) monthly)) ∧
      sub_rows d2 = <[1 := restored (AddDays noon 40) monthly]> (sub_rows sold))).
Proof.
  apply (revoked_is_restored sold 1 monthly noon (AddDays noon 40)).
  - apply sold_ok.
  - reflexivity.
  - reflexivity.
Defined.

(** A user over a daily limit is let in again the next day. *)
Definition answer (t : time) (usage : Z) : option (option SubErr) :=
  let d := {| sub_rows := {[1 := put_usage Daily usage monthly]}; sub_groups := {[3 := plan]};
              next_sub := 2; l1 := ∅ |} in
  (λ r, match r with Ok _ => None | Err e => Some e end) <$>
    snd (run_alone (admit_subscription 7 3 plan) (replicate 20 (at_ t)) d).
Example daily_limit :
  answer (noon + Hour) 10000000000 = Some None ∧
  answer (noon + Hour) 10000000001 = Some (Some (ELimitExceeded Daily)) ∧
  answer (AddDays noon 1) 10000000001 = Some None ∧
  answer (AddDays noon 31) 0 = Some (Some ENoActiveSubscription).
Proof. split_and!; vm_compute; reflexivity. Qed.

(** Two assignments renew the expired subscription at once: the second, decided
    on the old row, takes back what was recorded after the first, and the term
    counts once. *)
Definition renew (notes : string) : AssignSubscriptionInput :=
  {| as_UserID := 7; as_GroupID := 3; as_ValidityDays := 30; as_AssignedBy := 0; as_Notes := notes |}.
Definition run_from (reqs : list SubRequest) (sched : list (nat * Oracle)) :=
  run sched (sold, sub_serve <$> reqs).
Example renewal_forgets_usage :
  let o := at_ (AddDays noon 40) in
  let (s, ps) := run_from [SubAssignOrExtend (renew "a"); SubAssignOrExtend (renew "b"); SubRecordUsage 1 (f_dec 5 1)]
      (replicate 3 (1%nat, o) ++ replicate 8 (0%nat, o) ++ [(2%nat, o)] ++ replicate 8 (1%nat, o)) in
  (λ r, (us_ExpiresAt r - AddDays noon 40, us_DailyUsageUSD r, us_Notes r)) <$> sub_rows s !! 1
    = Some (30 * Day, 0, "b") ∧
  (λ p, is_ok <$> result p) <$> ps = [Some true; Some true; Some true].
Proof. vm_compute. split; reflexivity. Qed.

(** An administrator extends a subscription that ran out, and the sweep marks it
    expired in between: it stays expired with a term that is not over, and is
    not found when a request asks for it. *)
Example extended_but_expired :
  let o := at_ (AddDays noon 32) in
  let (s, ps) := run_from [SubExtend 1 10; SubExpiry; SubAdmit 7 3 plan]
      (replicate 2 (0%nat, o) ++ replicate 2 (1%nat, o) ++ replicate 8 (0%nat, o) ++ replicate 9 (2%nat, o)) in
  (λ r, (us_ExpiresAt r - AddDays noon 32, us_Status r)) <$> sub_rows s !! 1 = Some (10 * Day, "expired") ∧
  result <$> ps = [Some (Ok ()); Some (Ok ()); Some (Err ENoActiveSubscription)].
Proof. vm_compute. split; reflexivity. Qed.
End SubDemo.
