(* ===== verification/Failover.v ===== *)
(** * The retry loop of a gateway request

    [src/backend/internal/handler/failover_loop.go] and the loops of
    [gateway_handler.go] that select an account, forward a request to it and
    fail over to another; the retries an account allows ([service/account.go]).
    A loop is a process: selecting an account, waiting for its slot, forwarding
    and sleeping are actions whose outcome is an oracle value; what it does to
    the world is a log. *)

From Stdlib Require Import ZArith Lia Ascii String Bool.
From stdpp Require Import base numbers option list gmap strings.
From S2P Require Import Prelude GoStrings GoFloat Proc.

#[local] Open Scope Z_scope.

(** ** Upstream errors *)

Inductive NextAccountAction := NextAccountLegacyRetry | NextAccountRetry | NextAccountStop.

(** The fields of the error that decide about failover. *)
Record UpstreamFailoverError := {
  ue_StatusCode : Z;
  ue_ForceCacheBilling : bool;
  ue_RetryableOnSameAccount : bool;
  ue_NextAccountAction : NextAccountAction;
}.
Definition ShouldRetryNextAccount (e : UpstreamFailoverError) : bool :=
  match ue_NextAccountAction e with NextAccountStop => false | _ => true end.

(** ** Accounts *)

(** A credential: what encoding/json and callers put into [map[string]any]. *)
Inductive Credential :=
| CNil
| CBool (b : bool)
| CInt (z : Z)                   (* int, int64 *)
| CFloat (x : f64)               (* float64 *)
| CNumber (s : string)           (* json.Number *)
| CString (s : string)
| COther.

Record FAccount := {
  fa_ID : Z;
  fa_Platform : string;
  fa_Type : string;
  fa_Credentials : option (gmap string Credential);
  fa_IsAnthropicOAuthOrSetupToken : bool;
  fa_BaseRPM : Z;                 (* GetBaseRPM *)
}.
Definition AccountTypeAPIKey : string := "apikey".
Definition AccountTypeBedrock : string := "bedrock".
Definition PlatformAntigravity : string := "antigravity".

Definition IsAPIKeyOrBedrock (a : FAccount) : bool :=
  String.eqb (fa_Type a) AccountTypeAPIKey || String.eqb (fa_Type a) AccountTypeBedrock.
Definition IsPoolMode (a : FAccount) : bool :=
  match fa_Credentials a with
  | Some c => if IsAPIKeyOrBedrock a
              then match c !! "pool_mode" with Some (CBool enabled) => enabled | _ => false end
              else false
  | None => false
  end.

Definition defaultPoolModeRetryCount : Z := 3.
Definition maxPoolModeRetryCount : Z := 10.

(** [int(v)]; a float that does not fit becomes the smallest integer (amd64). *)
Definition int_of_float (x : f64) : Z :=
  let z := f_to_int x in
  if f_finite x && (min_int64 <=? z) && (z <=? max_int64) then z else min_int64.

Section PoolMode.
Context `{GoText}.
Definition parsePoolModeRetryCount (value : Credential) : Z :=
  match value with
  | CInt v => v
  | CFloat v => int_of_float v
  | CNumber s => default defaultPoolModeRetryCount (Atoi s)
  | CString s => default defaultPoolModeRetryCount (Atoi (TrimSpace s))
  | CNil | CBool _ | COther => defaultPoolModeRetryCount
  end.
Definition GetPoolModeRetryCount (a : FAccount) : Z :=
  if negb (IsPoolMode a) then defaultPoolModeRetryCount
  else
    match fa_Credentials a ≫= (λ c, c !! "pool_mode_retry_count") with
    | None | Some CNil => defaultPoolModeRetryCount
    | Some raw =>
        let count := parsePoolModeRetryCount raw in
        if count <? 0 then 0
        else if maxPoolModeRetryCount <? count then maxPoolModeRetryCount
        else count
    end.
End PoolMode.

(** ** The world of a request

    The answer to [c.Writer.Size() != writerSizeBeforeForward] is part of the
    forward: whether the client got bytes of it.  A slot, and the lock of the
    queue of a user's messages, are returned by functions that also run when
    the request ends ([wrapReleaseOnDone]); the log has the calls. *)

Inductive Event :=
| Waiting (accountID : Z)                        (* counted as waiting for a slot *)
| WaitingOver (accountID : Z)
| SlotTaken (accountID : Z)
| SlotReturned (accountID : Z)
| QueueLocked (accountID : Z)
| QueueUnlocked (accountID : Z)
| Forwarded (accountID : Z) (written : bool)
| Unscheduled (accountID : Z)                    (* TempUnscheduleRetryableError *)
| Slept (d : duration)
| StickyBound (accountID : Z)
| RPMCounted (accountID : Z)
| UsageSubmitted (accountID : Z) (fallbackGroup forceCacheBilling : bool).

Inductive ForwardOutcome :=
| FwdOk
| FwdBetaBlocked
| FwdPromptTooLong
| FwdFailover (e : UpstreamFailoverError)
| FwdOther (partial : bool).      (* another error, with a partial result or not *)

Record AccountSelectionResult := {
  sel_Account : FAccount;
  sel_Acquired : bool;
  sel_WaitPlan : bool;            (* there is one *)
}.
Record FGroup := {
  fg_Platform : string;
  fg_SubscriptionType : string;
  fg_FallbackGroupIDOnInvalidRequest : option Z;
}.

Record FOracle := {
  fo_cancelled : bool;            (* ctx.Err() != nil *)
  fo_slept : bool;                (* the sleep was not interrupted *)
  fo_body : bool;                 (* the body can be parsed and rewritten *)
  fo_select : option AccountSelectionResult;
  fo_intercept : bool;            (* the request is one the account answers with a mock *)
  fo_wait : option bool;          (* IncrementAccountWaitCount; None: an error *)
  fo_slot : bool;                 (* the slot came in time *)
  fo_queue : bool;                (* the queue is in serial mode and its lock came in time *)
  fo_forward : bool * ForwardOutcome;
  fo_group : option FGroup;       (* ResolveGroupByID *)
  fo_eligible : bool;             (* CheckBillingEligibility in the fallback group *)
}.
Abbreviation fproc A := (proc (list Event) FOracle A).

Definition ask {A} (f : FOracle → A) : fproc A := act (λ o s, (f o, s)).
Definition emit (e : Event) : fproc unit := act (λ _ s, ((), s ++ [e])).
Definition forward (id : Z) : fproc (bool * ForwardOutcome) :=
  act (λ o s, (fo_forward o, s ++ [Forwarded id (fst (fo_forward o))])).

Definition sleepWithContext (d : duration) : fproc bool :=
  if d <=? 0 then Ret true else act (λ o s, (fo_slept o, s ++ [Slept d])).

(** ** failover_loop.go *)

Inductive FailoverAction := FailoverContinue | FailoverExhausted | FailoverCanceled.

Definition sameAccountRetryDelay : duration := 500 * Millisecond.
Definition singleAccountBackoffDelay : duration := 2 * Second.

Record FailoverState := {
  SwitchCount : Z;
  MaxSwitches : Z;
  FailedAccountIDs : gset Z;
  SameAccountRetryCount : gmap Z Z;
  LastFailoverErr : option UpstreamFailoverError;
  ForceCacheBilling : bool;
  hasBoundSession : bool;
}.
Definition NewFailoverState (maxSwitches : Z) (bound : bool) : FailoverState :=
  {| SwitchCount := 0; MaxSwitches := maxSwitches; FailedAccountIDs := ∅; SameAccountRetryCount := ∅;
     LastFailoverErr := None; ForceCacheBilling := false; hasBoundSession := bound |}.

Definition with_error (e : UpstreamFailoverError) (force : bool) (s : FailoverState) : FailoverState :=
  {| SwitchCount := SwitchCount s; MaxSwitches := MaxSwitches s; FailedAccountIDs := FailedAccountIDs s;
     SameAccountRetryCount := SameAccountRetryCount s; LastFailoverErr := Some e;
     ForceCacheBilling := force; hasBoundSession := hasBoundSession s |}.
Definition retry_same (id : Z) (s : FailoverState) : FailoverState :=
  {| SwitchCount := SwitchCount s; MaxSwitches := MaxSwitches s; FailedAccountIDs := FailedAccountIDs s;
     SameAccountRetryCount := <[id := default 0 (SameAccountRetryCount s !! id) + 1]> (SameAccountRetryCount s);
     LastFailoverErr := LastFailoverErr s; ForceCacheBilling := ForceCacheBilling s;
     hasBoundSession := hasBoundSession s |}.
Definition set_failed (switches : Z) (failed : gset Z) (s : FailoverState) : FailoverState :=
  {| SwitchCount := switches; MaxSwitches := MaxSwitches s; FailedAccountIDs := failed;
     SameAccountRetryCount := SameAccountRetryCount s; LastFailoverErr := LastFailoverErr s;
     ForceCacheBilling := ForceCacheBilling s; hasBoundSession := hasBoundSession s |}.

Definition needForceCacheBilling (bound : bool) (e : UpstreamFailoverError) (sameAccountRetry : bool) : bool :=
  (bound && negb sameAccountRetry) || ue_ForceCacheBilling e.

(** The second half of HandleFailoverError: the account has failed. *)
Definition switch_account (accountID : Z) (platform : string) (s : FailoverState)
    : fproc (FailoverAction * FailoverState) :=
  let s := set_failed (SwitchCount s) ({[accountID]} ∪ FailedAccountIDs s) s in
  if MaxSwitches s <=? SwitchCount s then Ret (FailoverExhausted, s)
  else
    let s := set_failed (SwitchCount s + 1) (FailedAccountIDs s) s in
    if String.eqb platform PlatformAntigravity then
      slept <-p sleepWithContext ((SwitchCount s - 1) *ᵢ Second);
      Ret (if slept then FailoverContinue else FailoverCanceled, s)
    else Ret (FailoverContinue, s).

Definition HandleFailoverError (accountID : Z) (platform : string) (retryLimit : Z)
    (e : UpstreamFailoverError) (s : FailoverState) : fproc (FailoverAction * FailoverState) :=
  gone <-p ask fo_cancelled;
  if gone then Ret (FailoverCanceled, s)
  else if negb (ShouldRetryNextAccount e)
  then Ret (FailoverExhausted, with_error e (ForceCacheBilling s) s)
  else
    let sameAccountRetry := ue_RetryableOnSameAccount e
                            && (default 0 (SameAccountRetryCount s !! accountID) <? retryLimit) in
    let force := if needForceCacheBilling (hasBoundSession s) e sameAccountRetry
                 then true else ForceCacheBilling s in
    let s := with_error e force s in
    if sameAccountRetry then
      let s := retry_same accountID s in
      slept <-p sleepWithContext sameAccountRetryDelay;
      Ret (if slept then FailoverContinue else FailoverCanceled, s)
    else
      _ <-p (if ue_RetryableOnSameAccount e then emit (Unscheduled accountID) else Ret ());
      switch_account accountID platform s.

Definition HandleSelectionExhausted (s : FailoverState) : fproc (FailoverAction * FailoverState) :=
  gone <-p ask fo_cancelled;
  if gone then Ret (FailoverCanceled, s)
  else
    match LastFailoverErr s with
    | Some e =>
        if (ue_StatusCode e =? 503) && (SwitchCount s <=? MaxSwitches s) then
          slept <-p sleepWithContext singleAccountBackoffDelay;
          if slept then Ret (FailoverContinue, set_failed (SwitchCount s) ∅ s)
          else Ret (FailoverCanceled, s)
        else Ret (FailoverExhausted, s)
    | None => Ret (FailoverExhausted, s)
    end.

(** ** gateway_handler.go: one attempt *)

(** How a request is answered. *)
Inductive Answer :=
| BadBody
| NoAccount
| Mocked
| NoSlot                                            (* no slot and no plan to wait for one *)
| QueueFull
| SlotFailed
| BetaBlocked
| PromptTooLong
| NotEligible                                       (* in the fallback group *)
| UpstreamFailed (e : option UpstreamFailoverError)
| ForwardFailed
| ClientGone
| Served.

(** What an iteration of the loop does next. *)
Inductive Next := Again (fs : FailoverState) | RetryWithFallback | Done (a : Answer).

Definition no_account (fs : FailoverState) : fproc Next :=
  if decide (FailedAccountIDs fs = ∅) then Ret (Done NoAccount)
  else
    r <-p HandleSelectionExhausted fs;
    Ret (match fst r with
         | FailoverContinue => Again (snd r)
         | FailoverCanceled => Done ClientGone
         | FailoverExhausted => Done (UpstreamFailed (LastFailoverErr (snd r)))
         end).

(** The slot of the selected account; an answer ends the request. *)
Definition account_slot (sel : AccountSelectionResult) : fproc (option Answer) :=
  let id := fa_ID (sel_Account sel) in
  if sel_Acquired sel then Ret None
  else if negb (sel_WaitPlan sel) then Ret (Some NoSlot)
  else
    counted <-p act (λ o s, (fo_wait o, match fo_wait o with
                                        | Some true => s ++ [Waiting id]
                                        | _ => s
                                        end));
    match counted with
    | Some false => Ret (Some QueueFull)
    | _ =>
        let releaseWait := match counted with Some _ => emit (WaitingOver id) | None => Ret () end in
        got <-p act (λ o s, (fo_slot o, if fo_slot o then s ++ [SlotTaken id] else s));
        _ <-p releaseWait;
        if negb got then Ret (Some SlotFailed)
        else _ <-p emit (StickyBound id); Ret None
    end.

Definition select : fproc (option AccountSelectionResult) :=
  act (λ o s, (fo_select o, match fo_select o with
                            | Some sel => if sel_Acquired sel then s ++ [SlotTaken (fa_ID (sel_Account sel))] else s
                            | None => s
                            end)).

(** From the selection to the slot; [go] forwards the request. *)
Definition with_account (fs : FailoverState) (go : FAccount → fproc Next) : fproc Next :=
  selected <-p select;
  match selected with
  | None => no_account fs
  | Some sel =>
      let account := sel_Account sel in
      intercept <-p ask fo_intercept;
      if intercept then
        _ <-p (if sel_Acquired sel then emit (SlotReturned (fa_ID account)) else Ret ());
        Ret (Done Mocked)
      else
        refused <-p account_slot sel;
        match refused with
        | Some answer => Ret (Done answer)
        | None => go account
        end
  end.

Section Attempts.
Context `{GoText}.

Definition failover (account : FAccount) (written : bool) (e : UpstreamFailoverError) (fs : FailoverState)
    : fproc Next :=
  if written then Ret (Done (UpstreamFailed (Some e)))
  else
    r <-p HandleFailoverError (fa_ID account) (fa_Platform account) (GetPoolModeRetryCount account) e fs;
    Ret (match fst r with
         | FailoverContinue => Again (snd r)
         | FailoverExhausted => Done (UpstreamFailed (LastFailoverErr (snd r)))
         | FailoverCanceled => Done ClientGone
         end).

Definition count_rpm (account : FAccount) : fproc unit :=
  if fa_IsAnthropicOAuthOrSetupToken account && (0 <? fa_BaseRPM account)
  then emit (RPMCounted (fa_ID account)) else Ret ().

(** The loop of requests on Gemini groups. *)
Definition gemini_attempt (fs : FailoverState) : fproc Next :=
  with_account fs (λ account,
    let id := fa_ID account in
    r <-p forward id;
    let '(written, outcome) := r in
    _ <-p emit (SlotReturned id);
    match outcome with
    | FwdFailover e => failover account written e fs
    | FwdBetaBlocked | FwdPromptTooLong | FwdOther _ => Ret (Done ForwardFailed)
    | FwdOk =>
        _ <-p count_rpm account;
        _ <-p emit (UsageSubmitted id false (ForceCacheBilling fs));
        Ret (Done Served)
    end).

(** A request, as far as the loop of the other platforms looks at it. *)
Record Request := {
  sessionKey : string;
  sessionBoundAccountID : Z;
  fallbackGroupID : option Z;
}.
Definition boundSession (req : Request) : bool :=
  negb (String.eqb (sessionKey req) "") && (0 <? sessionBoundAccountID req).

Definition PlatformAnthropic : string := "anthropic".
Definition SubscriptionTypeSubscription : string := "subscription".

(** A prompt the upstream finds too long: the request starts over in the
    fallback group of its group, once. *)
Definition prompt_too_long (req : Request) (fallbackUsed : bool) : fproc Next :=
  match fallbackGroupID req with
  | Some gid =>
      if negb fallbackUsed && (0 <? gid) then
        resolved <-p ask fo_group;
        match resolved with
        | None => Ret (Done PromptTooLong)
        | Some fallbackGroup =>
            if negb (String.eqb (fg_Platform fallbackGroup) PlatformAnthropic)
               || String.eqb (fg_SubscriptionType fallbackGroup) SubscriptionTypeSubscription
               || bool_decide (is_Some (fg_FallbackGroupIDOnInvalidRequest fallbackGroup))
            then Ret (Done PromptTooLong)
            else
              eligible <-p ask fo_eligible;
              Ret (if eligible then RetryWithFallback else Done NotEligible)
        end
      else Ret (Done PromptTooLong)
  | None => Ret (Done PromptTooLong)
  end.

(** The loop of the other platforms: what follows the forward to [account]. *)
Definition messages_outcome (req : Request) (fallbackUsed : bool) (fs : FailoverState) (account : FAccount)
    (written : bool) (outcome : ForwardOutcome) : fproc Next :=
  let id := fa_ID account in
  let submitForwardUsage := emit (UsageSubmitted id fallbackUsed (ForceCacheBilling fs)) in
  match outcome with
  | FwdBetaBlocked => Ret (Done BetaBlocked)
  | FwdPromptTooLong => prompt_too_long req fallbackUsed
  | FwdFailover e => failover account written e fs
  | FwdOther partial =>
      _ <-p (if partial then submitForwardUsage else Ret ());
      Ret (Done ForwardFailed)
  | FwdOk =>
      _ <-p count_rpm account;
      _ <-p (if negb (String.eqb (sessionKey req) "")
                && ((sessionBoundAccountID req =? 0) || (sessionBoundAccountID req =? id))
             then emit (StickyBound id) else Ret ());
      _ <-p submitForwardUsage;
      Ret (Done Served)
  end.

Definition messages_attempt (req : Request) (fallbackUsed : bool) (fs : FailoverState) : fproc Next :=
  parsed <-p ask fo_body;
  if negb parsed then Ret (Done BadBody)
  else with_account fs (λ account,
    let id := fa_ID account in
    locked <-p act (λ o s, (fo_queue o, if fo_queue o then s ++ [QueueLocked id] else s));
    rewritten <-p ask fo_body;
    if negb rewritten then Ret (Done BadBody)
    else
      r <-p forward id;
      _ <-p (if locked : bool then emit (QueueUnlocked id) else Ret ());
      _ <-p emit (SlotReturned id);
      messages_outcome req fallbackUsed fs account (fst r) (snd r)).

(** ** The loops

    [n] bounds the iterations of an inner loop, [passes] those of the outer one;
    [None] is a loop that has not ended by then. *)
Fixpoint attempts (attempt : FailoverState → fproc Next) (n : nat) (fs : FailoverState)
    : fproc (option (option Answer)) :=
  match n with
  | O => Ret None
  | Datatypes.S n =>
      next <-p attempt fs;
      match next with
      | Again fs => attempts attempt n fs
      | RetryWithFallback => Ret (Some None)
      | Done a => Ret (Some (Some a))
      end
  end.

Definition gemini_request (maxAccountSwitchesGemini : Z) (req : Request) (n : nat)
    : fproc (option Answer) :=
  r <-p attempts gemini_attempt n (NewFailoverState maxAccountSwitchesGemini (boundSession req));
  Ret (mjoin r).

Fixpoint messages_passes (maxAccountSwitches : Z) (req : Request) (fallbackUsed : bool) (n passes : nat)
    : fproc (option Answer) :=
  match passes with
  | O => Ret None
  | Datatypes.S passes =>
      r <-p attempts (messages_attempt req fallbackUsed) n (NewFailoverState maxAccountSwitches (boundSession req));
      match r with
      | None => Ret None
      | Some (Some a) => Ret (Some a)
      | Some None => messages_passes maxAccountSwitches req true n passes
      end
  end.
Definition messages_request (maxAccountSwitches : Z) (req : Request) (n passes : nat) : fproc (option Answer) :=
  messages_passes maxAccountSwitches req false n passes.
End Attempts.

(** NewGatewayHandler; [configured] is what the configuration says, 0 for nothing. *)
Definition max_account_switches (configured : Z) : Z := if 0 <? configured then configured else 10.
Definition max_account_switches_gemini (configured : Z) : Z := if 0 <? configured then configured else 3.
