(* ===== verification/FailoverProps.v ===== *)
(** * What the retry loop of a request promises

    It ends; it forwards to an account only in a slot of it, never after the
    client got bytes of an answer; it returns what it took; and it submits the
    usage once, of the account that answered. *)

From Stdlib Require Import ZArith Lia Ascii String Bool.
From stdpp Require Import base numbers option list gmap strings.
From S2P Require Import Prelude GoStrings GoFloat Proc Failover.

#[local] Open Scope Z_scope.

(** ** The log of a request

    A checker of logs: what the request holds, its last forward and whether
    the client got bytes of it, whether its usage is submitted, and how often
    it was forwarded.  [None] is a log that breaks the rules. *)

Record Trace := {
  t_waiting : option Z;
  t_slot : option Z;
  t_queue : option Z;
  t_last : option Z;
  t_written : bool;
  t_billed : bool;
  t_forwards : Z;
}.
Definition fresh : Trace :=
  {| t_waiting := None; t_slot := None; t_queue := None; t_last := None;
     t_written := false; t_billed := false; t_forwards := 0 |}.

Definition set_waiting w τ := {| t_waiting := w; t_slot := t_slot τ; t_queue := t_queue τ;
  t_last := t_last τ; t_written := t_written τ; t_billed := t_billed τ; t_forwards := t_forwards τ |}.
Definition set_slot w τ := {| t_waiting := t_waiting τ; t_slot := w; t_queue := t_queue τ;
  t_last := t_last τ; t_written := t_written τ; t_billed := t_billed τ; t_forwards := t_forwards τ |}.
Definition set_queue w τ := {| t_waiting := t_waiting τ; t_slot := t_slot τ; t_queue := w;
  t_last := t_last τ; t_written := t_written τ; t_billed := t_billed τ; t_forwards := t_forwards τ |}.
Definition set_forwarded id w τ := {| t_waiting := t_waiting τ; t_slot := t_slot τ; t_queue := t_queue τ;
  t_last := Some id; t_written := w; t_billed := t_billed τ; t_forwards := t_forwards τ + 1 |}.
Definition set_billed τ := {| t_waiting := t_waiting τ; t_slot := t_slot τ; t_queue := t_queue τ;
  t_last := t_last τ; t_written := t_written τ; t_billed := true; t_forwards := t_forwards τ |}.

Definition follow (τ : Trace) (e : Event) : option Trace :=
  match e with
  | Waiting id => if decide (t_waiting τ = None) then Some (set_waiting (Some id) τ) else None
  | WaitingOver id => if decide (t_waiting τ = Some id) then Some (set_waiting None τ) else None
  | SlotTaken id => if decide (t_slot τ = None) then Some (set_slot (Some id) τ) else None
  | SlotReturned id => if decide (t_slot τ = Some id) then Some (set_slot None τ) else None
  | QueueLocked id => if decide (t_queue τ = None) then Some (set_queue (Some id) τ) else None
  | QueueUnlocked id => if decide (t_queue τ = Some id) then Some (set_queue None τ) else None
  | Forwarded id w =>
      if decide (t_slot τ = Some id ∧ t_written τ = false ∧ t_billed τ = false)
      then Some (set_forwarded id w τ) else None
  | UsageSubmitted id _ _ =>
      if decide (t_last τ = Some id ∧ t_billed τ = false) then Some (set_billed τ) else None
  | Unscheduled _ | Slept _ | StickyBound _ | RPMCounted _ => Some τ
  end.
Fixpoint replay_from (τ : Trace) (l : list Event) : option Trace :=
  match l with [] => Some τ | e :: l => follow τ e ≫= λ τ, replay_from τ l end.
Definition replay (l : list Event) : option Trace := replay_from fresh l.

Lemma replay_from_app τ l1 l2 : replay_from τ (l1 ++ l2) = replay_from τ l1 ≫= λ τ, replay_from τ l2.
Proof. revert τ. induction l1 as [|e l1 IH]; intros τ; [done|]. simpl. destruct (follow τ e); [apply IH|done]. Qed.
Lemma replay_snoc l e τ : replay l = Some τ → replay (l ++ [e]) = follow τ e.
Proof. intros Hl. unfold replay in *. rewrite replay_from_app, Hl. simpl. by destruct (follow τ e). Qed.

(** Nothing is held, and nothing was written or submitted. *)
Definition clean (τ : Trace) : Prop :=
  t_waiting τ = None ∧ t_slot τ = None ∧ t_queue τ = None ∧ t_written τ = false ∧ t_billed τ = false.
Definition returned (τ : Trace) : Prop := t_waiting τ = None ∧ t_slot τ = None ∧ t_queue τ = None.

(** What an answer says about the log. *)
Definition finished (a : Answer) (τ : Trace) : Prop :=
  (a ≠ BadBody → returned τ) ∧
  (t_billed τ = true → a = Served ∨ a = ForwardFailed) ∧
  (a = Served → t_billed τ = true) ∧
  (∀ e, a = UpstreamFailed e → is_Some e).

(** ** How long it can take

    [accts] are the accounts the selection chooses from. *)
Section Budget.
Context (accts : list Z).

Definition retries (m : gmap Z Z) (id : Z) : Z := default 0 (m !! id).
Definition retries_left (m : gmap Z Z) : Z := foldr (λ i n, maxPoolModeRetryCount - retries m i + n) 0 accts.
(** The forwards, and the iterations, that can still follow. *)
Definition tries (fs : FailoverState) : Z :=
  retries_left (SameAccountRetryCount fs) + (MaxSwitches fs - SwitchCount fs).
Definition weight (fs : FailoverState) : Z :=
  retries_left (SameAccountRetryCount fs) + 2 * (MaxSwitches fs - SwitchCount fs)
  + (if decide (FailedAccountIDs fs = ∅) then 0 else 1).

Record fs_ok (fs : FailoverState) : Prop := {
  fs_switches : 0 ≤ SwitchCount fs ≤ MaxSwitches fs;
  fs_retries id : 0 ≤ retries (SameAccountRetryCount fs) id ≤ maxPoolModeRetryCount;
  fs_failed : FailedAccountIDs fs ≠ ∅ → is_Some (LastFailoverErr fs);
}.

Lemma retries_insert m id x id' : retries (<[id := x]> m) id' = if decide (id = id') then x else retries m id'.
Proof. unfold retries. case_decide; subst; [by rewrite lookup_insert_eq|by rewrite lookup_insert_ne]. Qed.

Lemma retries_left_bounds m :
  (∀ id, 0 ≤ retries m id ≤ maxPoolModeRetryCount) →
  0 ≤ retries_left m ≤ maxPoolModeRetryCount * Z.of_nat (length accts).
Proof.
  intros Hm. unfold retries_left. induction accts as [|a l IH]; cbn [foldr length]; [lia|].
  specialize (Hm a). lia.
Qed.
Lemma retries_left_insert m id x :
  retries m id < x → id ∈ accts → retries_left (<[id := x]> m) < retries_left m.
Proof.
  intros Hx. unfold retries_left.
  assert (∀ l, foldr (λ i n, maxPoolModeRetryCount - retries (<[id:=x]> m) i + n) 0 l
               ≤ foldr (λ i n, maxPoolModeRetryCount - retries m i + n) 0 l) as Hmono.
  { induction l as [|a l IH]; cbn [foldr]; [done|]. rewrite retries_insert. case_decide; subst; lia. }
  induction accts as [|a l IH]; [by intros ?%not_elem_of_nil|].
  cbn [foldr]. rewrite retries_insert. intros [<-|Hid]%elem_of_cons.
  - rewrite decide_True by done. specialize (Hmono l). lia.
  - specialize (IH Hid). case_decide; subst; lia.
Qed.

(** *** The decisions of [failover_loop.go] *)

Lemma new_ok max bound : 0 ≤ max → fs_ok (NewFailoverState max bound).
Proof. intros Hm. split; simpl; [lia|intros id; unfold retries; rewrite lookup_empty; vm_compute; by split|done]. Qed.

(** What continuing means: one forward less, and one iteration less. *)
Definition goes_on (fs : FailoverState) (d : Z) (fs' : FailoverState) : Prop :=
  fs_ok fs' ∧ weight fs' < weight fs ∧ tries fs' + d ≤ tries fs.

Lemma with_error_ok e force fs : fs_ok fs → fs_ok (with_error e force fs).
Proof. intros [H1 H2 H3]. split; simpl; eauto. Qed.

Lemma same_account_on id limit e force fs :
  fs_ok fs → id ∈ accts → limit ≤ maxPoolModeRetryCount →
  retries (SameAccountRetryCount fs) id < limit →
  goes_on fs 1 (retry_same id (with_error e force fs)).
Proof.
  intros [H1 H2 H3] Hid Hlim Hr. set (m := SameAccountRetryCount fs) in *.
  pose proof (retries_left_insert m id (retries m id + 1)) as Hlt.
  split; [|unfold weight, tries; cbn; fold m; fold (retries m id); split; [|specialize (Hlt ltac:(lia) Hid); lia]].
  - split; simpl; [done| |eauto]. intros id'. rewrite retries_insert. fold m. fold (retries m id).
    case_decide; [specialize (H2 id); lia|apply H2].
  - specialize (Hlt ltac:(lia) Hid). lia.
Qed.

Lemma switched_on id e force fs :
  fs_ok fs → SwitchCount fs < MaxSwitches fs →
  goes_on fs 1 (set_failed (SwitchCount fs + 1) ({[id]} ∪ FailedAccountIDs fs) (with_error e force fs)).
Proof.
  intros [H1 H2 H3] Hlt. split; [|unfold weight, tries; cbn; split; [|lia]].
  - split; simpl; [lia|done|eauto].
  - repeat case_decide; lia.
Qed.

Lemma cleared_on fs :
  fs_ok fs → FailedAccountIDs fs ≠ ∅ → goes_on fs 0 (set_failed (SwitchCount fs) ∅ fs).
Proof.
  intros [H1 H2 H3] Hne. split; [by split|]. unfold weight, tries. cbn.
  rewrite decide_True, decide_False by done. lia.
Qed.

(** *** Walking through a request *)

Section Walk.
Context `{GT : GoText}.

(** The selection finds one of [accts], and a prompt is found too long before
    anything is written ([antigravity_gateway_claude.go]). *)
Definition honest (o : FOracle) : Prop :=
  (∀ sel, fo_select o = Some sel → fa_ID (sel_Account sel) ∈ accts) ∧
  (snd (fo_forward o) = FwdPromptTooLong → fst (fo_forward o) = false).

#[local] Abbreviation walks n p l Q := (ends honest n p l Q).

Lemma w_act {A B} n (f : FOracle → list Event → B * list Event) (k : B → fproc A) l Q :
  (∀ o, honest o → walks n (k (fst (f o l))) (snd (f o l)) Q) → walks (S n) (b <-p act f; k b) l Q.
Proof. done. Qed.
Lemma w_ask {A B} n (f : FOracle → B) (k : B → fproc A) l Q :
  (∀ b, walks n (k b) l Q) → walks (S n) (b <-p ask f; k b) l Q.
Proof. intros Hk o _. apply Hk. Qed.
Lemma w_sleep {A} n d (k : bool → fproc A) l τ Q :
  replay l = Some τ → (∀ b l', replay l' = Some τ → walks n (k b) l' Q) →
  walks (S n) (b <-p sleepWithContext d; k b) l Q.
Proof.
  intros Hl Hk. unfold sleepWithContext. case_match; [apply (ends_le _ n); [by apply Hk|lia]|].
  intros o _. apply Hk. cbn [snd]. by rewrite (replay_snoc _ _ _ Hl).
Qed.
Lemma w_emit {A} n e (k : unit → fproc A) l τ τ' Q :
  replay l = Some τ → follow τ e = Some τ' → (∀ l', replay l' = Some τ' → walks n (k tt) l' Q) →
  walks (S n) (b <-p emit e; k b) l Q.
Proof. intros Hl He Hk o _. apply Hk. cbn [snd]. by rewrite (replay_snoc _ _ _ Hl). Qed.
Lemma w_ret {A} n (a : A) l (Q : A → list Event → Prop) : Q a l → walks n (Ret a) l Q.
Proof. by destruct n. Qed.

(** After a decision: going on spends [d] forwards, giving up keeps the error. *)
Definition decided fs d (r : FailoverAction * FailoverState) : Prop :=
  match fst r with
  | FailoverContinue => goes_on fs d (snd r)
  | FailoverExhausted => is_Some (LastFailoverErr (snd r))
  | FailoverCanceled => True
  end.
Definition decides fs d τ (r : FailoverAction * FailoverState) (l : list Event) : Prop :=
  replay l = Some τ ∧ decided fs d r.

Lemma switch_walks id platform e force fs l τ :
  fs_ok fs → replay l = Some τ →
  walks 1 (switch_account id platform (with_error e force fs)) l (decides fs 1 τ).
Proof.
  intros Hfs Hl. unfold switch_account. cbn [MaxSwitches SwitchCount set_failed with_error].
  destruct (Z.leb_spec (MaxSwitches fs) (SwitchCount fs)) as [|Hlt].
  { apply w_ret. split; [done|]. cbn. eauto. }
  pose proof (switched_on id e force fs Hfs Hlt) as Hon.
  destruct (String.eqb _ _); [|by apply w_ret].
  eapply w_sleep; [done|]. intros b l' Hl'. apply w_ret. split; [done|]. by destruct b.
Qed.

Lemma failover_error_walks id platform limit e fs l τ :
  fs_ok fs → id ∈ accts → limit ≤ maxPoolModeRetryCount → replay l = Some τ →
  walks 3 (HandleFailoverError id platform limit e fs) l (decides fs 1 τ).
Proof.
  intros Hfs Hid Hlim Hl. unfold HandleFailoverError. apply w_ask. intros [].
  { by apply w_ret. }
  destruct (negb _); [apply w_ret; split; [done|]; cbn; eauto|].
  destruct (_ && (_ <? _)) eqn:Hsame; cbv zeta.
  - eapply w_sleep; [done|]. intros b l' Hl'. apply w_ret. split; [done|].
    destruct b; [|done]. apply andb_prop in Hsame as [_ Hlt%Z.ltb_lt]. by eapply same_account_on.
  - destruct (ue_RetryableOnSameAccount e); [|apply (ends_le _ 1); [by apply switch_walks|lia]].
    eapply w_emit; [done..|]. intros l' Hl'. by apply switch_walks.
Qed.

Lemma selection_exhausted_walks fs l τ :
  fs_ok fs → FailedAccountIDs fs ≠ ∅ → replay l = Some τ →
  walks 2 (HandleSelectionExhausted fs) l (decides fs 0 τ).
Proof.
  intros Hfs Hne Hl. unfold HandleSelectionExhausted. apply w_ask. intros []; [by apply w_ret|].
  destruct (fs_failed _ Hfs Hne) as [e He]. rewrite He.
  destruct (_ && _); [|apply w_ret; split; [done|]; cbn; eauto].
  eapply w_sleep; [done|]. intros b l' Hl'. destruct b; apply w_ret; split; [done| |done..].
  by apply cleared_on.
Qed.

Lemma pool_retry_bounds a : 0 ≤ GetPoolModeRetryCount a ≤ maxPoolModeRetryCount.
Proof.
  unfold GetPoolModeRetryCount, maxPoolModeRetryCount, defaultPoolModeRetryCount.
  assert (∀ z, 0 ≤ (if z <? 0 then 0 else if 10 <? z then 10 else z) ≤ 10) as Hclamp.
  { intros z. destruct (Z.ltb_spec z 0); [lia|]. destruct (Z.ltb_spec 10 z); lia. }
  destruct (negb _); [lia|]. destruct (_ ≫= _) as [[]|]; solve [lia|apply Hclamp].
Qed.

(** *** One attempt *)

(** After an attempt from [fs], where the log said [τ]; [fb]: the fallback group
    is used. *)
Definition attempted (fb : bool) fs τ (next : Next) τ' : Prop :=
  match next with
  | Again fs' => clean τ' ∧ ∃ d, goes_on fs d fs' ∧ t_forwards τ' = t_forwards τ + d
  | RetryWithFallback => clean τ' ∧ t_forwards τ' = t_forwards τ + 1 ∧ fb = false
  | Done a => finished a τ' ∧ t_forwards τ ≤ t_forwards τ' ≤ t_forwards τ + 1
  end.
Definition attempts_to fb fs τ (next : Next) (l : list Event) : Prop :=
  ∃ τ', replay l = Some τ' ∧ attempted fb fs τ next τ'.

Lemma clean_finished a τ : clean τ → a ≠ Served → (∀ e, a = UpstreamFailed e → is_Some e) → finished a τ.
Proof. intros (? & ? & ? & ? & Hb) Hs He. repeat split; [done..| |done|done]. by rewrite Hb. Qed.

Lemma no_account_walks fb fs l τ :
  fs_ok fs → replay l = Some τ → clean τ → walks 2 (no_account fs) l (attempts_to fb fs τ).
Proof.
  intros Hfs Hl Hc. unfold no_account. case_decide as Hf.
  { apply w_ret. exists τ. split; [done|]. split; [|lia]. by apply clean_finished. }
  apply (ends_bind _ 2 0 _ _ _ (decides fs 0 τ)); [by apply selection_exhausted_walks|].
  intros [action fs'] l' [Hl' Hd]. apply w_ret. exists τ. split; [done|]. destruct action; cbn in *.
  - split; [done|]. exists 0. split; [done|lia].
  - split; [|lia]. apply clean_finished; [done..|]. by intros e [= <-].
  - split; [|lia]. by apply clean_finished.
Qed.

Definition in_slot τ id : Trace := set_slot (Some id) τ.

Lemma account_slot_walks sel l τ :
  clean τ → replay l = Some (if sel_Acquired sel then in_slot τ (fa_ID (sel_Account sel)) else τ) →
  walks 4 (account_slot sel) l (λ r l', match r with
    | None => replay l' = Some (in_slot τ (fa_ID (sel_Account sel)))
    | Some a => replay l' = Some τ ∧ a ≠ Served ∧ ∀ e, a ≠ UpstreamFailed e
    end).
Proof.
  intros (Hw & Hs & Hq & _) Hl. unfold account_slot. destruct (sel_Acquired sel); [by apply w_ret|].
  destruct (negb _); [by apply w_ret|].
  set (id := fa_ID (sel_Account sel)).
  apply w_act. intros o _. cbn [fst snd]. destruct (fo_wait o) as [[]|].
  - apply w_act. intros o' _. cbn [fst snd].
    assert (replay (l ++ [Waiting id]) = Some (set_waiting (Some id) τ)) as Hl1.
    { rewrite (replay_snoc _ _ _ Hl). cbn. by rewrite decide_True. }
    destruct (fo_slot o').
    + eapply w_emit; [rewrite (replay_snoc _ _ _ Hl1); cbn; by rewrite decide_True|cbn; by rewrite decide_True|].
      intros l' Hl'. eapply w_emit; [done..|]. intros l2 Hl2. apply w_ret. rewrite Hl2.
      unfold in_slot, set_slot, set_waiting. cbn. by rewrite Hw.
    + eapply w_emit; [done|cbn; by rewrite decide_True|]. intros l' Hl'. apply w_ret.
      split; [|done]. rewrite Hl'. unfold set_waiting. cbn. rewrite <-Hw. by destruct τ.
  - by apply w_ret.
  - apply w_act. intros o' _. cbn [fst snd]. destruct (fo_slot o'); [|by apply w_ret].
    eapply w_emit; [rewrite (replay_snoc _ _ _ Hl); cbn; by rewrite decide_True|done|].
    intros l' Hl'. by apply w_ret.
Qed.
Lemma take_slot id l τ :
  clean τ → replay l = Some τ → replay (l ++ [SlotTaken id]) = Some (in_slot τ id).
Proof. intros (_ & Hs & _) Hl. rewrite (replay_snoc _ _ _ Hl). cbn. by rewrite decide_True. Qed.

Lemma with_account_walks fb fs τ n go l :
  fs_ok fs → clean τ → replay l = Some τ →
  (∀ account l', fa_ID account ∈ accts → replay l' = Some (in_slot τ (fa_ID account)) →
     walks n (go account) l' (attempts_to fb fs τ)) →
  walks (6 + n) (with_account fs go) l (attempts_to fb fs τ).
Proof.
  intros Hfs Hc Hl Hgo. unfold with_account. apply w_act. intros o [Hsel _]. cbn [fst snd].
  destruct (fo_select o) as [sel|].
  2: { apply (ends_le _ 2); [by apply no_account_walks|lia]. }
  specialize (Hsel _ eq_refl).
  assert (replay (if sel_Acquired sel then l ++ [SlotTaken (fa_ID (sel_Account sel))] else l)
          = Some (if sel_Acquired sel then in_slot τ (fa_ID (sel_Account sel)) else τ)) as Hl1.
  { destruct (sel_Acquired sel); [by apply take_slot|done]. }
  revert Hl1. generalize (if sel_Acquired sel then l ++ [SlotTaken (fa_ID (sel_Account sel))] else l).
  clear l Hl. intros l Hl. apply w_ask. intros [].
  - assert (∀ l', replay l' = Some τ → attempts_to fb fs τ (Done Mocked) l') as Hmocked.
    { intros l' Hl'. exists τ. split; [done|]. split; [by apply clean_finished|lia]. }
    destruct (sel_Acquired sel); [|by apply w_ret, Hmocked].
    eapply w_emit; [done|cbn; by rewrite decide_True|]. intros l' Hl'. apply w_ret, Hmocked.
    rewrite Hl'. destruct Hc as (_ & Hs & _). unfold set_slot. cbn. rewrite <-Hs. by destruct τ.
  - apply (ends_bind _ 4 n _ _ _ _ _ (account_slot_walks sel l τ Hc Hl)).
    intros [a|] l' Hl'; [|by apply Hgo]. destruct Hl' as (Hl' & Ha & He).
    apply w_ret. exists τ. split; [done|]. split; [|lia]. apply clean_finished; [done..|].
    intros e ->. by destruct (He e).
Qed.

(** The forward, with the slot of the account and perhaps the lock of its queue. *)
Definition locked (q : bool) id τ : Trace :=
  if q then set_queue (Some id) (in_slot τ id) else in_slot τ id.

Lemma w_forward {A} n q id (k : bool * ForwardOutcome → fproc A) l τ Q :
  clean τ → replay l = Some (locked q id τ) →
  (∀ w out l', (out = FwdPromptTooLong → w = false) → replay l' = Some (set_forwarded id w (locked q id τ)) →
     walks n (k (w, out)) l' Q) →
  walks (S n) (r <-p forward id; k r) l Q.
Proof.
  intros (_ & _ & _ & Hw & Hb) Hl Hk. apply w_act. intros o [_ Ho]. cbn [fst snd].
  destruct (fo_forward o) as [w out]. apply Hk; [done|]. rewrite (replay_snoc _ _ _ Hl). cbn.
  by destruct q; cbn; rewrite decide_True.
Qed.
Lemma w_unlock {A} n q id w (k : unit → fproc A) l τ Q :
  clean τ → replay l = Some (set_forwarded id w (locked q id τ)) →
  (∀ l', replay l' = Some (set_forwarded id w (in_slot τ id)) → walks n (k tt) l' Q) →
  walks (S n) (b <-p (if q : bool then emit (QueueUnlocked id) else Ret ()); k b) l Q.
Proof.
  intros (_ & _ & Hq & _) Hl Hk. destruct q; [|apply (ends_le _ n); [by apply Hk|lia]].
  eapply w_emit; [done|cbn; by rewrite decide_True|]. intros l' Hl'. apply Hk. rewrite Hl'.
  unfold set_queue, set_forwarded. cbn. by rewrite Hq.
Qed.
Lemma w_return {A} n id w (k : unit → fproc A) l τ Q :
  clean τ → replay l = Some (set_forwarded id w (in_slot τ id)) →
  (∀ l', replay l' = Some (set_forwarded id w τ) → walks n (k tt) l' Q) →
  walks (S n) (b <-p emit (SlotReturned id); k b) l Q.
Proof.
  intros (_ & Hs & _) Hl Hk. eapply w_emit; [done|cbn; by rewrite decide_True|]. intros l' Hl'. apply Hk.
  rewrite Hl'. unfold set_slot, set_forwarded. cbn. by rewrite Hs.
Qed.
Lemma forwarded_clean id τ : clean τ → clean (set_forwarded id false τ).
Proof. intros (? & ? & ? & ? & ?). by repeat split. Qed.
Lemma forwarded_finished id w a τ :
  clean τ → a ≠ Served → (∀ e, a = UpstreamFailed e → is_Some e) → finished a (set_forwarded id w τ).
Proof. intros (? & ? & ? & ? & Hb) Hs He. repeat split; [done..| |done|done]. cbn. by rewrite Hb. Qed.
Lemma billed_finished id w a τ :
  clean τ → a = Served ∨ a = ForwardFailed → finished a (set_billed (set_forwarded id w τ)).
Proof. intros (? & ? & ? & ? & Hb) Ha. repeat split; [done..|]. intros e ->. by destruct Ha. Qed.

Lemma failover_walks fb account w e fs l τ :
  fs_ok fs → fa_ID account ∈ accts → clean τ → replay l = Some (set_forwarded (fa_ID account) w τ) →
  walks 3 (failover account w e fs) l (attempts_to fb fs τ).
Proof.
  intros Hfs Hid Hc Hl. unfold failover. destruct w.
  { apply w_ret. eexists. split; [done|]. split; [|cbn; lia]. apply forwarded_finished; [done..|].
    by intros ? [= <-]. }
  apply (ends_bind _ 3 0 _ _ _ (decides fs 1 (set_forwarded (fa_ID account) false τ))).
  { apply failover_error_walks; [done..| |done]. apply pool_retry_bounds. }
  intros [action fs'] l' [Hl' Hd]. apply w_ret. eexists. split; [done|]. destruct action; cbn [fst snd] in *.
  - split; [by apply forwarded_clean|]. by exists 1.
  - split; [|cbn; lia]. apply forwarded_finished; [done..|]. by intros ? [= <-].
  - split; [|cbn; lia]. by apply forwarded_finished.
Qed.

Lemma rpm_walks {A} n account (k : unit → fproc A) l τ Q :
  replay l = Some τ → (∀ l', replay l' = Some τ → walks n (k tt) l' Q) →
  walks (S n) (b <-p count_rpm account; k b) l Q.
Proof.
  intros Hl Hk. unfold count_rpm. destruct (_ && _); [by eapply w_emit|].
  apply (ends_le _ n); [by apply Hk|lia].
Qed.

(** The usage of the last forward is submitted, and the request is answered. *)
Lemma bill_walks {A} n id w fb f (k : unit → fproc A) l τ Q :
  clean τ → replay l = Some (set_forwarded id w τ) →
  (∀ l', replay l' = Some (set_billed (set_forwarded id w τ)) → walks n (k tt) l' Q) →
  walks (S n) (b <-p emit (UsageSubmitted id fb f); k b) l Q.
Proof.
  intros (_ & _ & _ & _ & Hb) Hl Hk. eapply w_emit; [done| |exact Hk].
  cbn. by rewrite decide_True.
Qed.

Lemma answered_walks fb fs n id w a l τ :
  clean τ → a ≠ Served → (∀ e, a ≠ UpstreamFailed e) → replay l = Some (set_forwarded id w τ) →
  walks n (Ret (Done a)) l (attempts_to fb fs τ).
Proof.
  intros Hc Ha He Hl. apply w_ret. eexists. split; [done|]. split; [|cbn; lia].
  apply forwarded_finished; [done..|]. intros e ->. by destruct (He e).
Qed.
Lemma billed_walks fb fs n id w a l τ :
  clean τ → a = Served ∨ a = ForwardFailed → replay l = Some (set_billed (set_forwarded id w τ)) →
  walks n (Ret (Done a)) l (attempts_to fb fs τ).
Proof.
  intros Hc Ha Hl. apply w_ret. eexists. split; [done|]. split; [by apply billed_finished|cbn; lia].
Qed.

Lemma gemini_attempt_walks fs l τ :
  fs_ok fs → clean τ → replay l = Some τ → walks 11 (gemini_attempt fs) l (attempts_to true fs τ).
Proof.
  intros Hfs Hc Hl. unfold gemini_attempt. apply (with_account_walks _ _ _ 5); [done..|].
  clear l Hl. intros account l Hid Hl. cbv zeta.
  eapply (w_forward _ false); [done..|]. clear l Hl. intros w out l _ Hl. cbv beta iota.
  eapply w_return; [exact Hc|exact Hl|]. clear l Hl. intros l Hl.
  destruct out; [|by eapply answered_walks..|by apply failover_walks|by eapply answered_walks].
  eapply rpm_walks; [done|]. clear l Hl. intros l Hl. eapply bill_walks; [exact Hc|exact Hl|].
  intros l' Hl'. eapply billed_walks; eauto.
Qed.

Lemma prompt_too_long_walks req fb fs l τ id :
  clean τ → replay l = Some (set_forwarded id false τ) →
  walks 2 (prompt_too_long req fb) l (attempts_to fb fs τ).
Proof.
  intros Hc Hl. assert (∀ a, a ≠ Served → (∀ e, a ≠ UpstreamFailed e) → ∀ n,
    walks n (Ret (Done a)) l (attempts_to fb fs τ)) as Hdone by (intros; by eapply answered_walks).
  unfold prompt_too_long. destruct (fallbackGroupID req) as [gid|]; [|by apply Hdone].
  destruct (negb fb && _) eqn:Hfb; [|by apply Hdone].
  apply w_ask. intros [g|]; [|by apply Hdone]. destruct (_ || _ || _); [by apply Hdone|].
  apply w_ask. intros []; [|by apply Hdone]. apply w_ret. eexists. split; [done|].
  split; [by apply forwarded_clean|]. split; [done|]. by destruct fb.
Qed.

Lemma w_optional {A} n (b : bool) e (k : unit → fproc A) l τ Q :
  replay l = Some τ → follow τ e = Some τ → (∀ l', replay l' = Some τ → walks n (k tt) l' Q) →
  walks (S n) (u <-p (if b then emit e else Ret ()); k u) l Q.
Proof.
  intros Hl He Hk. destruct b; [by eapply w_emit|]. apply (ends_le _ n); [by apply Hk|lia].
Qed.

Lemma messages_attempt_walks req fb fs l τ :
  fs_ok fs → clean τ → replay l = Some τ → walks 16 (messages_attempt req fb fs) l (attempts_to fb fs τ).
Proof.
  intros Hfs Hc Hl. unfold messages_attempt. apply w_ask. intros parsed.
  destruct parsed; cbn [negb].
  2: { apply w_ret. exists τ. split; [done|]. split; [by apply clean_finished|lia]. }
  apply (with_account_walks _ _ _ 9); [done..|]. clear l Hl. intros account l Hid Hl. cbv zeta.
  set (id := fa_ID account) in *. apply w_act. intros o _. cbn [fst snd].
  assert (replay (if fo_queue o then l ++ [QueueLocked id] else l) = Some (locked (fo_queue o) id τ)) as Hl1.
  { destruct (fo_queue o); [|done]. rewrite (replay_snoc _ _ _ Hl). cbn. rewrite decide_True; [done|apply Hc]. }
  revert Hl1. generalize (fo_queue o) as q. intros q. generalize (if q then l ++ [QueueLocked id] else l).
  clear l Hl o. intros l Hl. apply w_ask. intros rewritten. destruct rewritten; cbn [negb].
  2: { apply w_ret. eexists. split; [done|]. destruct Hc as (? & ? & ? & ? & Hb).
       split; [|destruct q; cbn; lia]. refine (conj _ (conj _ (conj _ _))); [done| |done|done].
       destruct q; cbn; by rewrite Hb. }
  eapply w_forward; [exact Hc|exact Hl|]. clear l Hl. intros w out l Hw Hl. cbn [fst snd].
  eapply w_unlock; [exact Hc|exact Hl|]. clear l Hl. intros l Hl.
  eapply w_return; [exact Hc|exact Hl|]. clear l Hl. intros l Hl. unfold messages_outcome. destruct out as [| | |e|partial].
  - eapply rpm_walks; [done|]. clear l Hl. intros l Hl. eapply w_optional; [done..|].
    clear l Hl. intros l Hl. eapply bill_walks; [exact Hc|exact Hl|]. intros l' Hl'. eapply billed_walks; eauto.
  - by eapply answered_walks.
  - rewrite (Hw eq_refl) in Hl. apply (ends_le _ 2); [by eapply prompt_too_long_walks|lia].
  - apply (ends_le _ 3); [by apply failover_walks|lia].
  - destruct partial; [|by eapply answered_walks].
    eapply bill_walks; [exact Hc|exact Hl|]. intros l' Hl'. eapply billed_walks; eauto.
Qed.

(** *** The loops *)

Definition attempt_walks fb (attempt : FailoverState → fproc Next) : Prop :=
  ∀ fs l τ, fs_ok fs → clean τ → replay l = Some τ → walks 16 (attempt fs) l (attempts_to fb fs τ).

(** After a loop with [n] iterations of fuel. *)
Definition looped (n : nat) fb fs τ (r : option (option Answer)) (l : list Event) : Prop :=
  ∃ τ', replay l = Some τ' ∧
  match r with
  | Some (Some a) => finished a τ' ∧ t_forwards τ' ≤ t_forwards τ + tries fs + 1
  | Some None => clean τ' ∧ t_forwards τ' ≤ t_forwards τ + tries fs + 1 ∧ fb = false
  | None => clean τ' ∧ Z.of_nat n ≤ weight fs
  end.

Lemma budget_bounds fs :
  fs_ok fs → 0 ≤ tries fs ∧ 0 ≤ weight fs.
Proof.
  intros [Hs Hr _]. pose proof (retries_left_bounds _ Hr). unfold tries, weight. case_decide; lia.
Qed.

Lemma attempts_walks fb attempt n fs l τ :
  attempt_walks fb attempt → fs_ok fs → clean τ → replay l = Some τ →
  walks (n * 16) (attempts attempt n fs) l (looped n fb fs τ).
Proof.
  intros Ha. revert fs l τ. induction n as [|n IH]; intros fs l τ Hfs Hc Hl.
  { apply w_ret. exists τ. split; [done|]. split; [done|]. by apply budget_bounds. }
  apply (ends_bind _ 16 (n * 16) _ _ _ _ _ (Ha fs l τ Hfs Hc Hl)).
  pose proof (budget_bounds fs Hfs) as [Ht _].
  intros [fs'| |a] l' (τ' & Hl' & H); [|apply w_ret; exists τ'; split; [done|]..].
  - destruct H as (Hc' & d & (Hfs' & Hw & Hd) & Hf).
    eapply ends_weaken; [by apply (IH fs' l' τ')|done|].
    intros r l2 (τ2 & Hl2 & H2). exists τ2. split; [done|].
    destruct r as [[a|]|]; destruct_and!; split_and?; try done; lia.
  - destruct H as (? & ? & ?). split_and!; [done|lia|done].
  - destruct H as (? & ? & ?). split; [done|lia].
Qed.

Definition most_tries (max : Z) : Z := maxPoolModeRetryCount * Z.of_nat (length accts) + max.
(** Enough fuel for a loop. *)
Definition most_rounds (max : Z) : Z := most_tries max + max.

Lemma new_budget max bound :
  tries (NewFailoverState max bound) = most_tries max ∧ weight (NewFailoverState max bound) = most_rounds max.
Proof.
  assert (retries_left ∅ = maxPoolModeRetryCount * Z.of_nat (length accts)) as Hr.
  { unfold retries_left. clear. induction accts as [|a l IH]; [done|]. cbn [foldr length]. rewrite IH.
    unfold retries. rewrite lookup_empty. cbn [default from_option id]. lia. }
  unfold tries, weight, most_rounds, most_tries. cbn [NewFailoverState SameAccountRetryCount MaxSwitches
    SwitchCount FailedAccountIDs]. rewrite Hr, decide_True by done. lia.
Qed.

(** After a request that may be forwarded [k] times. *)
Definition requested n k (max : Z) (r : option Answer) (l : list Event) : Prop :=
  ∃ τ, replay l = Some τ ∧
  match r with
  | Some a => finished a τ ∧ t_forwards τ ≤ k
  | None => Z.of_nat n ≤ most_rounds max
  end.

Lemma fresh_clean : clean fresh.
Proof. done. Qed.

Lemma gemini_walks max req n :
  0 ≤ max → walks (n * 16) (gemini_request max req n) [] (requested n (most_tries max + 1) max).
Proof.
  intros Hm. pose proof (new_budget max (boundSession req)) as [Ht Hw].
  rewrite <-(Nat.add_0_r (n * 16)). eapply ends_bind.
  { eapply (attempts_walks true); [|by apply new_ok|apply fresh_clean|done].
    intros fs l τ ???. apply (ends_le _ 11); [by apply gemini_attempt_walks|lia]. }
  intros r l (τ & Hl & H). apply w_ret. exists τ. split; [done|]. rewrite Ht, Hw in H.
  destruct r as [[a|]|]; cbn in *; destruct_and!; [split; [done|lia]|done|done].
Qed.

Lemma messages_walks max req n :
  0 ≤ max → walks (2 * (n * 16)) (messages_request max req n 2) [] (requested n (2 * (most_tries max + 1)) max).
Proof.
  intros Hm. pose proof (new_budget max (boundSession req)) as [Ht Hw].
  pose proof (budget_bounds _ (new_ok max (boundSession req) Hm)) as [Ht0 _].
  assert (∀ fb l τ, clean τ → replay l = Some τ →
    walks (n * 16) (attempts (messages_attempt req fb) n (NewFailoverState max (boundSession req))) l
      (looped n fb (NewFailoverState max (boundSession req)) τ)) as Hpass.
  { intros fb l τ Hc Hl. apply attempts_walks; [|by apply new_ok|done..].
    intros fs l' τ' ???. by apply messages_attempt_walks. }
  eapply ends_bind; [by apply (Hpass _ _ fresh)|].
  intros r l (τ & Hl & H). rewrite Ht, Hw in H. destruct r as [[a|]|].
  - destruct H as [? H]. apply w_ret. exists τ. split; [done|]. cbn in H. split; [done|lia].
  - destruct H as (Hc & Hf & _). rewrite Nat.add_0_r. rewrite <-(Nat.add_0_r (n * 16)).
    eapply ends_bind; [by apply (Hpass true _ τ)|].
    intros r l2 (τ2 & Hl2 & H2). rewrite Ht, Hw in H2. cbn in Hf.
    destruct r as [[a|]|]; destruct_and!; [|done|]; apply w_ret; exists τ2; split; try done.
    split; [done|lia].
  - destruct H as [_ H]. apply w_ret. by exists τ.
Qed.
End Walk.
End Budget.

(** ** What the log says *)

Definition forwards (l : list Event) : Z :=
  foldr (λ e n, match e with Forwarded _ _ => 1 + n | _ => n end) 0 l.
(** The accounts whose usage was submitted. *)
Definition billed_accounts (l : list Event) : list Z :=
  omap (λ e, match e with UsageSubmitted id _ _ => Some id | _ => None end) l.

Lemma forwards_snoc l e :
  forwards (l ++ [e]) = forwards l + match e with Forwarded _ _ => 1 | _ => 0 end.
Proof.
  induction l as [|e' l IH]; unfold forwards in *; cbn [foldr app]; [by destruct e|].
  rewrite IH. destruct e'; lia.
Qed.

Lemma replay_counts l τ :
  replay l = Some τ →
  t_forwards τ = forwards l ∧ (t_billed τ = true → is_Some (t_last τ)) ∧
  billed_accounts l = if t_billed τ then option_list (t_last τ) else [].
Proof.
  revert τ. induction l as [|e l IH] using rev_ind; intros τ Hl; [by injection Hl as <-|].
  destruct (replay l) as [τ0|] eqn:Hl0; [|unfold replay in *; by rewrite replay_from_app, Hl0 in Hl].
  rewrite (replay_snoc _ _ _ Hl0) in Hl. destruct (IH τ0 eq_refl) as (Hf & Hs & Hb).
  rewrite forwards_snoc, <-Hf. unfold billed_accounts in *. rewrite omap_app, Hb.
  destruct e; cbn in Hl; repeat case_decide; simplify_eq/=; destruct_and?; simplify_eq/=;
    repeat match goal with H : t_billed _ = _ |- _ => rewrite H | H : t_last _ = _ |- _ => rewrite H end;
    (split; [lia|split; [by eauto|by rewrite ?app_nil_r]]).
Qed.

(** What was written is the end. *)
Lemma written_from τ l τ' : replay_from τ l = Some τ' → t_written τ = true → forwards l = 0.
Proof.
  revert τ. induction l as [|e l IH]; intros τ Hl Hw; [done|]. simpl in Hl.
  destruct (follow τ e) as [τ1|] eqn:He; [|done].
  assert (t_written τ1 = true ∧ ∀ n, match e with Forwarded _ _ => 1 + n | _ => n end = n) as [Hw1 Hn].
  { destruct e; simpl in He; repeat case_decide; simplify_eq; try done. destruct_and!. congruence. }
  unfold forwards in *. cbn [foldr]. rewrite Hn. by eapply IH.
Qed.
Lemma replay_written l1 id l2 τ :
  replay (l1 ++ Forwarded id true :: l2) = Some τ → forwards l2 = 0.
Proof.
  unfold replay. rewrite replay_from_app. destruct (replay_from fresh l1) as [τ1|]; [|done]. simpl.
  case_decide; [|done]. intros Hl. by eapply written_from.
Qed.

(** ** The two promises *)

Lemma max_switches_nonneg configured :
  0 ≤ max_account_switches configured ∧ 0 ≤ max_account_switches_gemini configured.
Proof.
  unfold max_account_switches, max_account_switches_gemini. destruct (Z.ltb_spec 0 configured); lia.
Qed.

Lemma requested_end `{GoText} accts (p : fproc (option Answer)) m n k max os :
  ends (honest accts) m p [] (requested accts n k max) → Forall (honest accts) os → (m ≤ length os)%nat →
  most_rounds accts max < Z.of_nat n →
  ∃ l a, run_alone p os [] = (l, Some (Some a)) ∧ forwards l ≤ k.
Proof.
  intros Hp Hos Hm Hn. destruct (ends_run _ _ _ _ _ _ Hp Hos Hm) as (l & r & Hr & τ & Hl & Hk).
  destruct r as [a|]; [|lia]. exists l, a. split; [done|].
  destruct (replay_counts _ _ Hl) as [<- _]. apply Hk.
Qed.

(** C19: a request always ends. Whatever the upstreams answer, when the selection
    chooses among the accounts [accts], a loop stops after at most ten
    iterations per account (the most retries on one account a pool allows)
    and two per switch, with an answer; the request is forwarded at most ten
    times per account, once per switch and once more, and twice that when it
    starts over in the fallback group, which it does once. *)
Theorem request_ends `{GoText} (accts : list Z) configured req n (os : list FOracle) :
  let k := most_tries accts (max_account_switches configured) + 1 in
  let kg := most_tries accts (max_account_switches_gemini configured) + 1 in
  Forall (honest accts) os → (2 * (n * 16) ≤ length os)%nat →
  (most_rounds accts (max_account_switches configured) < Z.of_nat n →
   ∃ l a, run_alone (messages_request (max_account_switches configured) req n 2) os [] = (l, Some (Some a)) ∧
          forwards l ≤ 2 * k) ∧
  (most_rounds accts (max_account_switches_gemini configured) < Z.of_nat n →
   ∃ l a, run_alone (gemini_request (max_account_switches_gemini configured) req n) os [] = (l, Some (Some a)) ∧
          forwards l ≤ kg).
Proof.
  intros k kg Hos Hm. destruct (max_switches_nonneg configured) as [H1 H2]. split; intros Hn.
  - eapply requested_end; [by apply messages_walks|done..].
  - eapply requested_end; [by apply gemini_walks|done|lia|done].
Qed.

Lemma requested_log `{GoText} accts (p : fproc (option Answer)) m n k max os l a :
  ends (honest accts) m p [] (requested accts n k max) → Forall (honest accts) os →
  run_alone p os [] = (l, Some (Some a)) → ∃ τ, replay l = Some τ ∧ finished a τ.
Proof.
  intros Hp Hos Hr. destruct (ends_result _ _ _ _ _ _ _ _ Hp Hos Hr) as (τ & Hl & Hf & _). by exists τ.
Qed.

(** A prompt is found too long before anything is written. *)
Definition prompt_unwritten (o : FOracle) : Prop :=
  snd (fo_forward o) = FwdPromptTooLong → fst (fo_forward o) = false.
Definition selected_ids (os : list FOracle) : list Z :=
  omap (λ o, (λ sel, fa_ID (sel_Account sel)) <$> fo_select o) os.

Lemma prompt_honest os : Forall prompt_unwritten os → Forall (honest (selected_ids os)) os.
Proof.
  rewrite !Forall_forall. intros Hos o Ho. split; [|by apply Hos]. intros sel Hsel.
  apply list_elem_of_omap. exists o. by rewrite Hsel.
Qed.

(** C18: a request is answered once and billed once. Whatever the upstreams
    answer, at the end: it was forwarded to an account only in a slot of that
    account; everything it took (its place among those that wait, the slot, the
    lock of the queue) is returned, unless it is refused for its body, where
    that is left to the end of the request; once the client got bytes of an
    answer nothing was forwarded again; usage is submitted at most once, of the
    account forwarded to last, always when the request was served, and otherwise
    only after a failed forward that is not failed over; and an answer that
    reports the upstream's failure has an error to report. *)
Theorem answered_and_billed_once `{GoText} configured req n (os : list FOracle) l a :
  Forall prompt_unwritten os →
  run_alone (messages_request (max_account_switches configured) req n 2) os [] = (l, Some (Some a)) ∨
  run_alone (gemini_request (max_account_switches_gemini configured) req n) os [] = (l, Some (Some a)) →
  (∃ τ, replay l = Some τ ∧ finished a τ) ∧
  (∀ l1 id l2, l = l1 ++ Forwarded id true :: l2 → forwards l2 = 0) ∧
  (length (billed_accounts l) ≤ 1)%nat ∧
  (a = Served → ∃ id, billed_accounts l = [id]).
Proof.
  intros Hos%prompt_honest Hr. destruct (max_switches_nonneg configured) as [H1 H2].
  assert (∃ τ, replay l = Some τ ∧ finished a τ) as (τ & Hl & Hf).
  { destruct Hr as [Hr|Hr]; (eapply requested_log; [|exact Hos|exact Hr]);
      [by apply messages_walks|by apply gemini_walks]. }
  destruct (replay_counts _ _ Hl) as (_ & Hs & Hb). split_and!.
  - by exists τ.
  - intros l1 id l2 ->. by eapply replay_written.
  - rewrite Hb. destruct (t_billed τ), (t_last τ); simpl; lia.
  - intros Ha. destruct Hf as (_ & _ & Hserved & _). specialize (Hserved Ha).
    destruct (Hs Hserved) as [id Hid]. exists id. by rewrite Hb, Hserved, Hid.
Qed.

(** ** A concrete request *)

Module FailoverDemo.
#[local] Instance demo_text : GoText := ascii_text.

Definition account (id : Z) : FAccount :=
  {| fa_ID := id; fa_Platform := PlatformAntigravity; fa_Type := AccountTypeAPIKey;
     fa_Credentials := Some {["pool_mode" := CBool true; "pool_mode_retry_count" := CString " 1 "]};
     fa_IsAnthropicOAuthOrSetupToken := false; fa_BaseRPM := 0 |}.
Definition overloaded : UpstreamFailoverError :=
  {| ue_StatusCode := 503; ue_ForceCacheBilling := false; ue_RetryableOnSameAccount := true;
     ue_NextAccountAction := NextAccountLegacyRetry |}.
(** The selection finds account [id], whose slot has to be waited for. *)
Definition chooses (id : option Z) (w : bool) (out : ForwardOutcome) : FOracle :=
  {| fo_cancelled := false; fo_slept := true; fo_body := true;
     fo_select := (λ id, {| sel_Account := account id; sel_Acquired := false; sel_WaitPlan := true |}) <$> id;
     fo_intercept := false; fo_wait := Some true; fo_slot := true; fo_queue := true;
     fo_forward := (w, out);
     fo_group := Some {| fg_Platform := PlatformAnthropic; fg_SubscriptionType := "standard";
                         fg_FallbackGroupIDOnInvalidRequest := None |};
     fo_eligible := true |}.
Definition sticky : Request :=
  {| sessionKey := "s"; sessionBoundAccountID := 1; fallbackGroupID := Some 9 |}.

(** Account 1 fails twice, account 2 finds the prompt too long, and in the
    fallback group account 3 serves it. *)
Definition eventful : list FOracle :=
  replicate 28 (chooses (Some 1) false (FwdFailover overloaded)) ++
  replicate 14 (chooses (Some 2) false FwdPromptTooLong) ++ replicate 20 (chooses (Some 3) true FwdOk).

Definition log_of (p : fproc (option Answer)) os : list Event := fst (run_alone p os []).
Definition attempt_log id w : list Event :=
  [Waiting id; SlotTaken id; WaitingOver id; StickyBound id; QueueLocked id; Forwarded id w;
   QueueUnlocked id; SlotReturned id].

Example eventful_run :
  run_alone (messages_request 10 sticky 9 2) eventful [] =
  (attempt_log 1 false ++ [Slept sameAccountRetryDelay] ++ attempt_log 1 false ++ [Unscheduled 1] ++
   attempt_log 2 false ++ attempt_log 3 true ++ [UsageSubmitted 3 true false], Some (Some Served)).
Proof. vm_compute. reflexivity. Qed.

(** Everything is overloaded: the accounts are tried again after a pause, until
    the switches are spent. *)
Example all_overloaded :
  forwards (log_of (gemini_request 3 sticky 25)
              (replicate 400 (chooses (Some 1) false (FwdFailover overloaded)))) = 5.
Proof. vm_compute. reflexivity. Qed.

Lemma demo_honest id w out n :
  (out = FwdPromptTooLong → w = false) → id ∈ [1; 2; 3] →
  Forall (honest [1; 2; 3]) (replicate n (chooses (Some id) w out)).
Proof. intros Hw Hid. apply Forall_replicate. split; [by intros sel [= <-]|exact Hw]. Qed.

Lemma request_ends_witness :
  let os := replicate 1700 (chooses (Some 1) false (FwdFailover overloaded)) in
  (∃ l a, run_alone (messages_request (max_account_switches 0) sticky 51 2) os [] = (l, Some (Some a)) ∧
          forwards l ≤ 82) ∧
  (∃ l a, run_alone (gemini_request (max_account_switches_gemini 0) sticky 51) os [] = (l, Some (Some a)) ∧
          forwards l ≤ 34).
Proof.
  intros os.
  assert (Forall (honest [1; 2; 3]) os) as Hos by (apply demo_honest; [done|left]).
  pose proof (request_ends [1; 2; 3] 0 sticky 51 os Hos) as [H1 H2].
  { unfold os. rewrite length_replicate. lia. }
  split; [apply H1|apply H2]; vm_compute; reflexivity.
Defined.

Lemma answered_and_billed_once_witness :
  let l := log_of (messages_request (max_account_switches 0) sticky 9 2) eventful in
  (∀ l1 id l2, l = l1 ++ Forwarded id true :: l2 → forwards l2 = 0) ∧ ∃ id, billed_accounts l = [id].
Proof.
  intros l.
  assert (Forall prompt_unwritten eventful) as Hos.
  { unfold eventful. rewrite !Forall_app. by repeat split; apply Forall_replicate. }
  destruct (answered_and_billed_once 0 sticky 9 eventful l Served Hos) as (_ & Hw & _ & Hb).
  { left. vm_compute. reflexivity. }
  split; [exact Hw|by apply Hb].
Defined.
End FailoverDemo.
