(* ===== verification/AccountSelection.v ===== *)
(** * The choice of an account for a request

    [SelectAccountWithLoadAwareness] of
    [src/backend/internal/service/gateway_scheduling.go], from the list of the
    accounts of a group on: routed accounts, the account of a sticky session,
    the least loaded account, and the queue of last resort; and the checks an
    account has to pass ([service/account.go]).

    What the checks read elsewhere (the models an account supports, limits learnt
    from its upstream, its quotas, its cost and its requests in the current
    window) is an argument.  Asking for a slot, registering a session, the loads,
    random numbers and the hydration of the result are oracle values. *)

From Stdlib Require Import ZArith Lia Ascii String Bool.
From stdpp Require Import base numbers option list gmap strings sorting.
From S2P Require Import Prelude GoStrings GoFloat Proc Failover.

#[local] Open Scope Z_scope.

(** ** Accounts *)

Definition StatusActive : string := "active".
Definition AccountTypeOAuth : string := "oauth".
Definition AccountTypeSetupToken : string := "setup-token".
Definition PlatformGemini : string := "gemini".

Record SAccount := {
  sa_ID : Z;
  sa_Platform : string;
  sa_Type : string;
  sa_Status : string;
  sa_Schedulable : bool;
  sa_Priority : Z;
  sa_Concurrency : Z;
  sa_LoadFactor : option Z;
  sa_LastUsedAt : option time;
  sa_ExpiresAt : option time;
  sa_AutoPauseOnExpired : bool;
  sa_OverloadUntil : option time;
  sa_RateLimitResetAt : option time;
  sa_TempUnschedulableUntil : option time;
  sa_SessionWindowEnd : option time;
  sa_Extra : option (gmap string Credential);
}.

Definition extra (key : string) (a : SAccount) : option Credential := e ← sa_Extra a; e !! key.

Definition IsMixedSchedulingEnabled (a : SAccount) : bool :=
  String.eqb (sa_Platform a) PlatformAntigravity
  && match extra "mixed_scheduling" a with Some (CBool enabled) => enabled | _ => false end.
Definition IsAnthropicOAuthOrSetupToken (a : SAccount) : bool :=
  String.eqb (sa_Platform a) PlatformAnthropic
  && (String.eqb (sa_Type a) AccountTypeOAuth || String.eqb (sa_Type a) AccountTypeSetupToken).
Definition EffectiveLoadFactor (a : SAccount) : Z :=
  match sa_LoadFactor a with
  | Some l => if 0 <? l then l else if 0 <? sa_Concurrency a then sa_Concurrency a else 1
  | None => if 0 <? sa_Concurrency a then sa_Concurrency a else 1
  end.

(** [p != nil && now.Before( *p)] *)
Definition before_end (now : time) (p : option time) : bool :=
  match p with Some t => now <? t | None => false end.

Section Settings.
Context `{GoText} `{GoParse}.

Definition parseExtraInt (value : Credential) : Z :=
  match value with
  | CInt v => v
  | CFloat v => int_of_float v
  | CNumber s => default 0 (Atoi s)
  | CString s => default 0 (Atoi (TrimSpace s))
  | CNil | CBool _ | COther => 0
  end.
Definition parseExtraFloat64 (value : Credential) : f64 :=
  match value with
  | CFloat v => v
  | CInt v => f_of_int v
  | CNumber s => default f0 (ParseFloat s)
  | CString s => default f0 (ParseFloat (TrimSpace s))
  | CNil | CBool _ | COther => f0
  end.

Definition GetWindowCostLimit (a : SAccount) : f64 :=
  match extra "window_cost_limit" a with Some v => parseExtraFloat64 v | None => f0 end.
Definition GetWindowCostStickyReserve (a : SAccount) : f64 :=
  match extra "window_cost_sticky_reserve" a with
  | Some v => let val := parseExtraFloat64 v in if f0 <ᶠ val then val else f_of_int 10
  | None => f_of_int 10
  end.
Definition GetMaxSessions (a : SAccount) : Z :=
  match extra "max_sessions" a with Some v => parseExtraInt v | None => 0 end.
Definition GetBaseRPM (a : SAccount) : Z :=
  match extra "base_rpm" a with
  | Some v => let val := parseExtraInt v in if 0 <? val then val else 0
  | None => 0
  end.
Definition sticky_exempt (a : SAccount) : bool :=
  match extra "rpm_strategy" a with Some (CString s) => String.eqb s "sticky_exempt" | _ => false end.
Definition GetRPMStickyBuffer (a : SAccount) : Z :=
  let manual := match extra "rpm_sticky_buffer" a with Some v => parseExtraInt v | None => 0 end in
  if 0 <? manual then manual
  else
    let base := GetBaseRPM a in
    if base <=? 0 then 0
    else Z.max (Z.max 0 (sa_Concurrency a) +ᵢ Z.max 0 (GetMaxSessions a)) (Z.max 1 (base / 5)).

(** ** Checks *)

Inductive WindowCostSchedulability :=
| WindowCostSchedulable | WindowCostStickyOnly | WindowCostNotSchedulable.

Definition CheckRPMSchedulability (currentRPM : Z) (a : SAccount) : WindowCostSchedulability :=
  let baseRPM := GetBaseRPM a in
  if baseRPM <=? 0 then WindowCostSchedulable
  else if currentRPM <? baseRPM then WindowCostSchedulable
  else if sticky_exempt a then WindowCostStickyOnly
  else if currentRPM <? baseRPM +ᵢ GetRPMStickyBuffer a then WindowCostStickyOnly
  else WindowCostNotSchedulable.
Definition CheckWindowCostSchedulability (cost : f64) (a : SAccount) : WindowCostSchedulability :=
  let limit := GetWindowCostLimit a in
  if limit ≤ᶠ f0 then WindowCostSchedulable
  else if cost <ᶠ limit then WindowCostSchedulable
  else if cost <ᶠ limit +ᶠ GetWindowCostStickyReserve a then WindowCostStickyOnly
  else WindowCostNotSchedulable.
Definition allows (isSticky : bool) (s : WindowCostSchedulability) : bool :=
  match s with
  | WindowCostSchedulable => true
  | WindowCostStickyOnly => isSticky
  | WindowCostNotSchedulable => false
  end.

(** What the checks of a selection read, by account id. *)
Record Checks := {
  ck_now : time;
  ck_quota_exceeded : Z → bool;        (* IsQuotaExceeded *)
  ck_model : Z → bool;                 (* isModelSupportedByAccountWithContext *)
  ck_model_open : Z → bool;            (* not limited for the model, or with credits left *)
  ck_model_limited : Z → bool;         (* GetRateLimitRemainingTimeWithContext > 0 *)
  ck_cost : Z → option f64;            (* of the window; None: could not be read *)
  ck_rpm : Z → Z;
}.

Definition IsAPIKeyOrBedrock (a : SAccount) : bool :=
  String.eqb (sa_Type a) AccountTypeAPIKey || String.eqb (sa_Type a) AccountTypeBedrock.

Definition IsSchedulable (ck : Checks) (a : SAccount) : bool :=
  String.eqb (sa_Status a) StatusActive && sa_Schedulable a
  && negb (sa_AutoPauseOnExpired a
           && match sa_ExpiresAt a with Some t => negb (ck_now ck <? t) | None => false end)
  && negb (before_end (ck_now ck) (sa_OverloadUntil a))
  && negb (before_end (ck_now ck) (sa_RateLimitResetAt a))
  && negb (before_end (ck_now ck) (sa_TempUnschedulableUntil a))
  && negb (IsAPIKeyOrBedrock a && ck_quota_exceeded ck (sa_ID a)).

Definition isAccountAllowedForPlatform (platform : string) (useMixed : bool) (a : SAccount) : bool :=
  if useMixed then
    if String.eqb (sa_Platform a) platform then true
    else String.eqb (sa_Platform a) PlatformAntigravity && IsMixedSchedulingEnabled a
  else String.eqb (sa_Platform a) platform.
Definition isAccountSchedulableForModelSelection (ck : Checks) (a : SAccount) : bool :=
  IsSchedulable ck a && ck_model_open ck (sa_ID a).
Definition isAccountSchedulableForQuota (ck : Checks) (a : SAccount) : bool :=
  if negb (IsAPIKeyOrBedrock a) then true else negb (ck_quota_exceeded ck (sa_ID a)).
Definition isAccountSchedulableForWindowCost (ck : Checks) (isSticky : bool) (a : SAccount) : bool :=
  if negb (IsAnthropicOAuthOrSetupToken a) then true
  else if GetWindowCostLimit a ≤ᶠ f0 then true
  else match ck_cost ck (sa_ID a) with
       | Some cost => allows isSticky (CheckWindowCostSchedulability cost a)
       | None => true
       end.
Definition isAccountSchedulableForRPM (ck : Checks) (isSticky : bool) (a : SAccount) : bool :=
  if negb (IsAnthropicOAuthOrSetupToken a) then true
  else if GetBaseRPM a <=? 0 then true
  else allows isSticky (CheckRPMSchedulability (ck_rpm ck (sa_ID a)) a).
Definition shouldClearStickySession (ck : Checks) (a : SAccount) : bool :=
  negb (IsSchedulable ck a) || ck_model_limited ck (sa_ID a).
End Settings.

(** ** The order of preference *)

Record accountWithLoad := { account : SAccount; LoadRate : Z }.

(** Sorted by [less] (a strict weak order), stably. *)
Definition not_after {A} (less : A → A → bool) (a b : A) : Prop := less b a = false.
#[global] Instance not_after_dec {A} (less : A → A → bool) : RelDecision (not_after less).
Proof. intros a b. unfold not_after. apply _. Defined.
Definition sort_by {A} (less : A → A → bool) (l : list A) : list A := merge_sort (not_after less) l.

Definition less_used (a b : option time) : bool :=
  match a, b with
  | None, Some _ => true
  | Some x, Some y => x <? y
  | _, None => false
  end.
Definition sameLastUsedAt (a b : option time) : bool :=
  match a, b with
  | None, None => true
  | Some x, Some y => x / Second =? y / Second
  | _, _ => false
  end.

(** A random order, from random ranks of the ids. *)
Definition ranked {A} (rank : Z → Z) (id : A → Z) (a b : A) : Prop := rank (id a) ≤ rank (id b).
#[global] Instance ranked_dec {A} (rank : Z → Z) (id : A → Z) : RelDecision (ranked rank id).
Proof. intros a b. unfold ranked. apply _. Defined.
Definition shuffle {A} (rank : Z → Z) (id : A → Z) (l : list A) : list A := merge_sort (ranked rank id) l.

Fixpoint span {A} (f : A → bool) (l : list A) : list A * list A :=
  match l with
  | [] => ([], [])
  | a :: r => if f a then let (g, rest) := span f r in (a :: g, rest) else ([], l)
  end.
(** Every maximal run of elements that are the same as its first is reordered by
    [mix]; [n] is at least the length. *)
Fixpoint within_groups {A} (same : A → A → bool) (mix : list A → list A) (n : nat) (l : list A) : list A :=
  match n, l with
  | Datatypes.S n, a :: r => let (g, rest) := span (same a) r in mix (a :: g) ++ within_groups same mix n rest
  | _, _ => l
  end.

Definition less_by_load (a b : accountWithLoad) : bool :=
  if negb (sa_Priority (account a) =? sa_Priority (account b))
  then sa_Priority (account a) <? sa_Priority (account b)
  else if negb (LoadRate a =? LoadRate b) then LoadRate a <? LoadRate b
  else less_used (sa_LastUsedAt (account a)) (sa_LastUsedAt (account b)).
Definition sameAccountWithLoadGroup (a b : accountWithLoad) : bool :=
  (sa_Priority (account a) =? sa_Priority (account b)) && (LoadRate a =? LoadRate b)
  && sameLastUsedAt (sa_LastUsedAt (account a)) (sa_LastUsedAt (account b)).
Definition shuffleWithinSortGroups (rank : Z → Z) (l : list accountWithLoad) : list accountWithLoad :=
  within_groups sameAccountWithLoadGroup (shuffle rank (λ a, sa_ID (account a))) (length l) l.

Definition is_oauth (a : SAccount) : bool := String.eqb (sa_Type a) AccountTypeOAuth.
Definition less_by_use (preferOAuth : bool) (a b : SAccount) : bool :=
  if negb (sa_Priority a =? sa_Priority b) then sa_Priority a <? sa_Priority b
  else
    match sa_LastUsedAt a, sa_LastUsedAt b with
    | None, None => preferOAuth && negb (String.eqb (sa_Type a) (sa_Type b)) && is_oauth a
    | x, y => less_used x y
    end.
Definition sameAccountGroup (a b : SAccount) : bool :=
  (sa_Priority a =? sa_Priority b) && sameLastUsedAt (sa_LastUsedAt a) (sa_LastUsedAt b).
Definition shuffleWithinPriorityAndLastUsed (preferOAuth : bool) (rank : Z → Z) (l : list SAccount) : list SAccount :=
  within_groups sameAccountGroup
    (λ g, if preferOAuth
          then shuffle rank sa_ID (List.filter is_oauth g) ++
               shuffle rank sa_ID (List.filter (λ a, negb (is_oauth a)) g)
          else shuffle rank sa_ID g)
    (length l) l.
Definition sortAccountsByPriorityAndLastUsed (preferOAuth : bool) (rank : Z → Z) (l : list SAccount) : list SAccount :=
  shuffleWithinPriorityAndLastUsed preferOAuth rank (sort_by (less_by_use preferOAuth) l).

Definition less_by_priority (preferOAuth : bool) (a b : SAccount) : bool :=
  if negb (sa_Priority a =? sa_Priority b) then sa_Priority a <? sa_Priority b
  else preferOAuth && negb (String.eqb (sa_Type a) (sa_Type b)) && is_oauth a.
Definition shuffleWithinPriority (rank : Z → Z) (l : list SAccount) : list SAccount :=
  within_groups (λ a b, sa_Priority b =? sa_Priority a) (shuffle rank sa_ID) (length l) l.
Definition sortCandidatesForFallback (preferOAuth : bool) (mode : string) (rank : Z → Z) (l : list SAccount)
    : list SAccount :=
  if String.eqb mode "random" then shuffleWithinPriority rank (sort_by (less_by_priority preferOAuth) l)
  else sortAccountsByPriorityAndLastUsed preferOAuth rank l.

(** *** The best of the accounts that are left *)

Definition least (f : accountWithLoad → Z) (l : list accountWithLoad) : list accountWithLoad :=
  match l with
  | [] => []
  | a :: r => let m := foldl (λ m b, if f b <? m then f b else m) (f a) r in List.filter (λ b, f b =? m) l
  end.
Definition filterByMinPriority : list accountWithLoad → list accountWithLoad := least (λ a, sa_Priority (account a)).
Definition filterByMinLoadRate : list accountWithLoad → list accountWithLoad := least LoadRate.

(** The end of the window of an account, when it is to come. *)
Definition active_end (now : time) (a : accountWithLoad) : option time :=
  match sa_SessionWindowEnd (account a) with Some e => if now <? e then Some e else None | None => None end.
Definition earliest (m : option time) (x : option time) : option time :=
  match m, x with
  | None, _ => x
  | Some m, Some x => if x <? m then Some x else Some m
  | Some m, None => Some m
  end.
Definition filterBySoonestReset (now : time) (l : list accountWithLoad) : list accountWithLoad :=
  if (length l <=? 1)%nat then l
  else
    match foldl (λ m a, earliest m (active_end now a)) None l with
    | None => l
    | Some minEnd => List.filter (λ a, match active_end now a with Some e => e =? minEnd | None => false end) l
    end.

Definition selectByLRU (preferOAuth : bool) (draw : nat) (l : list accountWithLoad) : option accountWithLoad :=
  match l with
  | [] => None
  | [a] => Some a
  | _ =>
      let used a := sa_LastUsedAt (account a) in
      let hasNil := existsb (λ a, match used a with None => true | _ => false end) l in
      let minTime := foldl (λ m a, earliest m (used a)) None l in
      let candidates := List.filter (λ a, match used a with
                                          | None => hasNil
                                          | Some t => negb hasNil && bool_decide (minTime = Some t)
                                          end) l in
      match candidates with
      | [a] => Some a
      | _ =>
          let oauth := List.filter (λ a, is_oauth (account a)) candidates in
          let candidates := if preferOAuth && negb (bool_decide (oauth = [])) then oauth else candidates in
          candidates !! Nat.modulo draw (length candidates)
      end
  end.

Definition pick (preferSoonest preferOAuth : bool) (now : time) (draw : nat) (available : list accountWithLoad)
    : option accountWithLoad :=
  let candidates := filterByMinPriority available in
  let candidates := if preferSoonest then filterBySoonestReset now candidates else candidates in
  selectByLRU preferOAuth draw (filterByMinLoadRate candidates).

(** ** The selection *)

Record SchedulingConfig := {
  StickySessionMaxWaiting : Z;
  StickySessionWaitTimeout : duration;
  FallbackWaitTimeout : duration;
  FallbackMaxWaiting : Z;
  FallbackSelectionMode : string;
  PreferSoonestReset : bool;
}.

(** A selection from the list of accounts on. *)
Record SelectionRequest := {
  rq_accounts : list SAccount;         (* listSchedulableAccounts *)
  rq_useMixed : bool;
  rq_platform : string;
  rq_model : string;
  rq_routing : list Z;                 (* GetRoutingAccountIDs *)
  rq_session : string;
  rq_sticky : Z;                       (* the account of the session, 0 for none *)
  rq_excluded : gset Z;
}.

Record AccountWaitPlan := { wp_AccountID : Z; wp_MaxConcurrency : Z; wp_Timeout : duration; wp_MaxWaiting : Z }.
Record Selected := { sd_Account : SAccount; sd_Acquired : bool; sd_WaitPlan : option AccountWaitPlan }.
Inductive SelErr := ErrNoAvailableAccounts | ErrHydration.

Inductive SEvent :=
| Asked (accountID : Z) (granted : bool)         (* for a slot *)
| Returned (accountID : Z)
| Registered (accountID : Z)                     (* the session, with the account *)
| SessionBound (accountID : Z)                   (* SetSessionAccountID *)
| SessionRefreshed
| SessionDeleted.

Record SOracle := {
  so_slot : bool;                      (* acquired, without error *)
  so_session : option bool;            (* RegisterSession; None: no cache, or an error *)
  so_waiting : Z;                      (* GetAccountWaitingCount, 0 on an error *)
  so_loads : list (Z * Z) → option (gmap Z Z);   (* GetAccountsLoadBatch; None: an error *)
  so_rank : Z → Z;                     (* random numbers *)
  so_draw : nat;
  so_now : time;
  so_hydrated : ∀ a : SAccount, option {h : SAccount | sa_ID h = sa_ID a};
                                       (* the account, read again by its id; None: an error, or not found *)
}.
Abbreviation sproc A := (proc (list SEvent) SOracle A).
Definition consult {A} (f : SOracle → A) : sproc A := act (λ o s, (f o, s)).
Definition note (e : SEvent) : sproc unit := act (λ _ s, ((), s ++ [e])).

Definition tryAcquireAccountSlot (a : SAccount) : sproc bool :=
  act (λ o s, (so_slot o, s ++ [Asked (sa_ID a) (so_slot o)])).

Definition newSelectionResult (a : SAccount) (acquired : bool) (plan : option AccountWaitPlan)
    : sproc (option (res SelErr Selected)) :=
  hydrated <-p consult (λ o, so_hydrated o a);
  Ret (Some (match hydrated with
             | Some h => Ok {| sd_Account := `h; sd_Acquired := acquired; sd_WaitPlan := plan |}
             | None => Err ErrHydration
             end)).

Section Select.
Context `{GT : GoText} `{GP : GoParse} (cfg : SchedulingConfig) (ck : Checks) (rq : SelectionRequest).

Definition checkAndRegisterSession (a : SAccount) : sproc bool :=
  if negb (IsAnthropicOAuthOrSetupToken a) then Ret true
  else if (GetMaxSessions a <=? 0) || String.eqb (rq_session rq) "" then Ret true
  else act (λ o s, (default true (so_session o),
                    match so_session o with Some true => s ++ [Registered (sa_ID a)] | _ => s end)).

Definition isExcluded (id : Z) : bool := bool_decide (id ∈ rq_excluded rq).
Definition accountByID : gmap Z SAccount := foldl (λ m a, <[sa_ID a := a]> m) ∅ (rq_accounts rq).

(** The checks on an account that is not excluded. *)
Definition gate (isSticky : bool) (a : SAccount) : bool :=
  IsSchedulable ck a
  && isAccountAllowedForPlatform (rq_platform rq) (rq_useMixed rq) a
  && (String.eqb (rq_model rq) "" || ck_model ck (sa_ID a))
  && isAccountSchedulableForModelSelection ck a
  && isAccountSchedulableForQuota ck a
  && isAccountSchedulableForWindowCost ck isSticky a
  && isAccountSchedulableForRPM ck isSticky a.

Definition sticky_plan (a : SAccount) : AccountWaitPlan :=
  {| wp_AccountID := sa_ID a; wp_MaxConcurrency := sa_Concurrency a;
     wp_Timeout := StickySessionWaitTimeout cfg; wp_MaxWaiting := StickySessionMaxWaiting cfg |}.
Definition fallback_plan (a : SAccount) : AccountWaitPlan :=
  {| wp_AccountID := sa_ID a; wp_MaxConcurrency := sa_Concurrency a;
     wp_Timeout := FallbackWaitTimeout cfg; wp_MaxWaiting := FallbackMaxWaiting cfg |}.

(** [None] falls through to what follows. *)
Abbreviation layer := (sproc (option (res SelErr Selected))).

Definition bind_session (a : SAccount) : sproc unit :=
  if negb (String.eqb (rq_session rq) "") then note (SessionBound (sa_ID a)) else Ret ().

(** The first account that has a slot and room for the session. *)
Fixpoint first_slot (l : list SAccount) : layer :=
  match l with
  | [] => Ret None
  | a :: l =>
      got <-p tryAcquireAccountSlot a;
      if negb got then first_slot l
      else
        registered <-p checkAndRegisterSession a;
        if negb registered then _ <-p note (Returned (sa_ID a)); first_slot l
        else _ <-p bind_session a; newSelectionResult a true None
  end.
(** The first account with room for the session, to wait for. *)
Fixpoint first_wait (plan : SAccount → AccountWaitPlan) (l : list SAccount) : layer :=
  match l with
  | [] => Ret None
  | a :: l =>
      registered <-p checkAndRegisterSession a;
      if negb registered then first_wait plan l else newSelectionResult a false (Some (plan a))
  end.

(** Waiting for the account of the session, when not too many do. *)
Definition wait_sticky (a : SAccount) : layer :=
  waiting <-p consult so_waiting;
  if waiting <? StickySessionMaxWaiting cfg then
    registered <-p checkAndRegisterSession a;
    if registered then newSelectionResult a false (Some (sticky_plan a)) else Ret None
  else Ret None.

(** What the loads are asked for: ids and load factors. *)
Definition load_request (l : list SAccount) : list (Z * Z) := (λ a, (sa_ID a, EffectiveLoadFactor a)) <$> l.
Definition load_of (loads : gmap Z Z) (a : SAccount) : accountWithLoad :=
  {| account := a; LoadRate := default 0 (loads !! sa_ID a) |}.
Definition below_full (l : list accountWithLoad) : list accountWithLoad := List.filter (λ a, LoadRate a <? 100) l.

(** *** Layer 1: the accounts the model is routed to *)

Definition routingCandidates : list SAccount :=
  omap (λ id, if isExcluded id then None
              else a ← accountByID !! id; if gate false a then Some a else None) (rq_routing rq).

Definition routed_sticky : layer :=
  let id := rq_sticky rq in
  if negb (String.eqb (rq_session rq) "") && (0 <? id)
     && bool_decide (id ∈ rq_routing rq) && negb (isExcluded id)
  then
    match accountByID !! id with
    | None => _ <-p note SessionDeleted; Ret None
    | Some a =>
        if gate true a then
          got <-p tryAcquireAccountSlot a;
          if got then
            registered <-p checkAndRegisterSession a;
            if registered then newSelectionResult a true None
            else _ <-p note (Returned (sa_ID a)); Ret None
          else wait_sticky a
        else Ret None
    end
  else Ret None.

Definition else_try (p q : layer) : layer :=
  r <-p p;
  match r with Some _ => Ret r | None => q end.

Definition layer1 : layer :=
  match rq_routing rq, routingCandidates with
  | _ :: _, _ :: _ =>
      else_try routed_sticky
        (loads <-p consult (λ o, so_loads o (load_request routingCandidates));
         rank <-p consult so_rank;
         let available := below_full (load_of (default ∅ loads) <$> routingCandidates) in
         let ordered := account <$> shuffleWithinSortGroups rank (sort_by less_by_load available) in
         else_try (first_slot ordered) (first_wait sticky_plan ordered))
  | _, _ => Ret None
  end.

(** *** Layer 1.5: the account of the session *)

Definition layer15 : layer :=
  let id := rq_sticky rq in
  if bool_decide (rq_routing rq = []) && negb (String.eqb (rq_session rq) "") && (0 <? id) && negb (isExcluded id)
  then
    match accountByID !! id with
    | None => Ret None
    | Some a =>
        let clearSticky := shouldClearStickySession ck a in
        _ <-p (if clearSticky then note SessionDeleted else Ret ());
        if negb clearSticky && gate true a then
          got <-p tryAcquireAccountSlot a;
          if got then
            registered <-p checkAndRegisterSession a;
            if registered then _ <-p note SessionRefreshed; newSelectionResult a true None
            else _ <-p note (Returned (sa_ID a)); wait_sticky a
          else wait_sticky a
        else Ret None
    end
  else Ret None.

(** *** Layers 2 and 3: the least loaded account, or the queue *)

Definition candidates : list SAccount :=
  List.filter (λ a, negb (isExcluded (sa_ID a)) && gate false a) (rq_accounts rq).
Definition preferOAuth : bool := String.eqb (rq_platform rq) PlatformGemini.

(** [n] is at least the number of accounts that are left. *)
Fixpoint balance (n : nat) (available : list accountWithLoad) : layer :=
  match n with
  | O => Ret None
  | Datatypes.S n =>
      now <-p consult so_now;
      draw <-p consult so_draw;
      match pick (PreferSoonestReset cfg) preferOAuth now draw available with
      | None => Ret None
      | Some selected =>
          let a := account selected in
          let rest := balance n (List.filter (λ b, negb (sa_ID (account b) =? sa_ID a)) available) in
          got <-p tryAcquireAccountSlot a;
          if negb got then rest
          else
            registered <-p checkAndRegisterSession a;
            if registered then _ <-p bind_session a; newSelectionResult a true None
            else _ <-p note (Returned (sa_ID a)); rest
      end
  end.

Definition layer2 : layer :=
  loads <-p consult (λ o, so_loads o (load_request candidates));
  match loads with
  | None => rank <-p consult so_rank; first_slot (sortAccountsByPriorityAndLastUsed preferOAuth rank candidates)
  | Some loads =>
      let available := below_full (load_of loads <$> candidates) in
      balance (length available) available
  end.
Definition layer3 : layer :=
  rank <-p consult so_rank;
  first_wait fallback_plan (sortCandidatesForFallback preferOAuth (FallbackSelectionMode cfg) rank candidates).

Definition SelectAccountWithLoadAwareness : sproc (res SelErr Selected) :=
  if bool_decide (rq_accounts rq = []) then Ret (Err ErrNoAvailableAccounts)
  else
    r <-p else_try layer1
      (else_try layer15
        (if bool_decide (candidates = []) then Ret None else else_try layer2 layer3));
    Ret (default (Err ErrNoAvailableAccounts) r).
End Select.
