(* ===== verification/AccountSelectionProps.v ===== *)
(** * What the choice of an account promises

    The best of the accounts that are left, by a specification of what is best;
    and that a selection ends, with an account that passes the checks, holding
    the slot it says it holds and no other. *)

From Stdlib Require Import ZArith Lia Ascii String Bool.
From stdpp Require Import base numbers option list gmap strings sorting.
From S2P Require Import Prelude GoStrings GoFloat Proc Failover AccountSelection.

#[local] Open Scope Z_scope.

(** ** The best account

    [preferred b a]: [b] is strictly better than [a]: by priority, then (when
    the configuration says so) by the end of the running window, then by load,
    then by how long it has not been used, then (for Gemini) by its type. *)

Section Best.
Context (preferSoonest preferOAuth : bool) (now : time).
Implicit Types a b : accountWithLoad.

Definition sooner (x y : option time) : Prop :=
  match x, y with Some x, Some y => x < y | Some _, None => True | None, _ => False end.
Definition used a : option time := sa_LastUsedAt (account a).
Definition oauth a : bool := is_oauth (account a).

Definition preferred_by_use b a : Prop :=
  less_used (used b) (used a) = true ∨
  used b = used a ∧ preferOAuth = true ∧ oauth b = true ∧ oauth a = false.
Definition preferred_by_load b a : Prop :=
  LoadRate b < LoadRate a ∨ LoadRate b = LoadRate a ∧ preferred_by_use b a.
Definition preferred_by_reset b a : Prop :=
  if preferSoonest
  then sooner (active_end now b) (active_end now a) ∨
       active_end now b = active_end now a ∧ preferred_by_load b a
  else preferred_by_load b a.
Definition preferred b a : Prop :=
  sa_Priority (account b) < sa_Priority (account a) ∨
  sa_Priority (account b) = sa_Priority (account a) ∧ preferred_by_reset b a.

(** [a] is in [l], and no element of [l] beats it. *)
Definition top (beats : accountWithLoad → accountWithLoad → Prop) (l : list accountWithLoad) a : Prop :=
  a ∈ l ∧ ∀ b, b ∈ l → ¬ beats b a.

Lemma elem_of_filter_bool (f : accountWithLoad → bool) l a : a ∈ List.filter f l ↔ a ∈ l ∧ f a = true.
Proof. rewrite !list_elem_of_In. apply filter_In. Qed.

Lemma foldl_min (f : accountWithLoad → Z) l m :
  let r := foldl (λ m b, if f b <? m then f b else m) m l in
  r ≤ m ∧ (∀ b, b ∈ l → r ≤ f b) ∧ (r = m ∨ ∃ b, b ∈ l ∧ r = f b).
Proof.
  revert m. induction l as [|x l IH]; intros m; cbn [foldl].
  { split_and!; [lia|by intros b ?%not_elem_of_nil|by left]. }
  destruct (IH (if f x <? m then f x else m)) as (H1 & H2 & H3).
  set (r := foldl _ _ l) in *. destruct (Z.ltb_spec (f x) m).
  - split_and!; [lia|intros b [->|Hb]%elem_of_cons; [lia|by apply H2]|].
    right. destruct H3 as [->|(b & Hb & ->)]; [by exists x; split; [left|]|exists b; split; [by right|done]].
  - split_and!; [lia|intros b [->|Hb]%elem_of_cons; [lia|by apply H2]|].
    destruct H3 as [->|(b & Hb & ->)]; [by left|right; exists b; split; [by right|done]].
Qed.

Lemma elem_of_least f l a : a ∈ least f l ↔ top (λ b a, f b < f a) l a.
Proof.
  unfold least, top. destruct l as [|x l]; [by split; [intros ?%not_elem_of_nil|intros [?%not_elem_of_nil _]]|].
  destruct (foldl_min f l (f x)) as (H1 & H2 & H3). set (m := foldl _ _ l) in *. cbv zeta.
  rewrite elem_of_filter_bool, Z.eqb_eq. split.
  - intros [Ha Hm]. split; [done|]. intros b [->|Hb]%elem_of_cons; [lia|]. specialize (H2 b Hb). lia.
  - intros [Ha Hm]. split; [done|]. assert (m ≤ f a) as Hle.
    { apply elem_of_cons in Ha as [->|Ha]; [done|by apply H2]. }
    destruct H3 as [H3|(b & Hb & H3)].
    + assert (x ∈ x :: l) as Hx by left. specialize (Hm x Hx). lia.
    + assert (b ∈ x :: l) as Hx by by right. specialize (Hm b Hx). lia.
Qed.

Lemma foldl_earliest (g : accountWithLoad → option time) l m :
  let r := foldl (λ m a, earliest m (g a)) m l in
  ¬ sooner m r ∧ (∀ b, b ∈ l → ¬ sooner (g b) r) ∧ (r = m ∨ ∃ b, b ∈ l ∧ r = g b).
Proof.
  assert (∀ x y z : option time, ¬ sooner x y → ¬ sooner y z → ¬ sooner x z) as Htrans.
  { intros [x|] [y|] [z|]; simpl; try done; lia. }
  revert m. induction l as [|x l IH]; intros m; cbn [foldl].
  { split_and!; [destruct m; simpl; lia|by intros b ?%not_elem_of_nil|by left]. }
  destruct (IH (earliest m (g x))) as (H1 & H2 & H3). set (r := foldl _ _ l) in *.
  assert (¬ sooner m (earliest m (g x)) ∧ ¬ sooner (g x) (earliest m (g x)) ∧
          (earliest m (g x) = m ∨ earliest m (g x) = g x)) as (Hm & Hg & He).
  { destruct m as [m|], (g x) as [y|]; simpl; try (split_and!; auto; lia).
    destruct (Z.ltb_spec y m); simpl; split_and!; auto; lia. }
  split_and!; [by eapply Htrans|intros b [->|Hb]%elem_of_cons; [by eapply Htrans|by apply H2]|].
  destruct H3 as [->|(b & Hb & ->)].
  - destruct He as [->| ->]; [by left|right; exists x; split; [left|done]].
  - right. exists b. split; [by right|done].
Qed.

Lemma sooner_antisym x y : ¬ sooner x y → ¬ sooner y x → x = y.
Proof. destruct x, y; simpl; try done; intros ??; f_equal; lia. Qed.
Lemma not_sooner_refl x : ¬ sooner x x.
Proof. destruct x; simpl; lia. Qed.

Lemma elem_of_soonest l a :
  a ∈ filterBySoonestReset now l ↔ top (λ b a, sooner (active_end now b) (active_end now a)) l a.
Proof.
  unfold filterBySoonestReset, top. destruct (Nat.leb_spec (length l) 1) as [Hl|_].
  { split; [|by intros []]. intros Ha. split; [done|]. intros b Hb.
    destruct l as [|x [|y l]]; [by apply not_elem_of_nil in Ha| |simpl in Hl; lia].
    apply list_elem_of_singleton in Ha as ->, Hb as ->. apply not_sooner_refl. }
  destruct (foldl_earliest (active_end now) l None) as (_ & H2 & H3).
  set (m := foldl _ _ l) in *. destruct m as [e|] eqn:Em.
  - rewrite elem_of_filter_bool. split.
    + intros [Ha He]. split; [done|]. intros b Hb. specialize (H2 b Hb).
      destruct (active_end now a); [|done]. apply Z.eqb_eq in He as ->. done.
    + intros [Ha Hm]. split; [done|]. destruct H3 as [|(b & Hb & H3)]; [done|].
      specialize (Hm b Hb). specialize (H2 a Ha). rewrite <-H3 in Hm.
      pose proof (sooner_antisym _ _ H2 Hm) as ->. apply Z.eqb_refl.
  - split; [|by intros []]. intros Ha. split; [done|]. intros b Hb. specialize (H2 b Hb).
    by destruct (active_end now b).
Qed.

(** The accounts that have not been used for longest. *)
Definition oldest (l : list accountWithLoad) : list accountWithLoad :=
  let hasNil := existsb (λ a, match used a with None => true | _ => false end) l in
  let minTime := foldl (λ m a, earliest m (used a)) None l in
  List.filter (λ a, match used a with
                    | None => hasNil
                    | Some t => negb hasNil && bool_decide (minTime = Some t)
                    end) l.

Lemma elem_of_oldest l a : a ∈ oldest l ↔ top (λ b a, less_used (used b) (used a) = true) l a.
Proof.
  unfold oldest, top. cbv zeta. rewrite elem_of_filter_bool.
  destruct (existsb _ l) eqn:Hnil.
  - apply existsb_exists in Hnil as (n & Hn & Hu). apply list_elem_of_In in Hn.
    assert (used n = None) as Hun by by destruct (used n). split; intros [Ha H]; (split; [done|]).
    + intros b _. destruct (used a); [by rewrite andb_false_l in H|]. by destruct (used b).
    + specialize (H n Hn). rewrite Hun in H. destruct (used a); [by destruct H|done].
  - assert (∀ b, b ∈ l → ∃ t, used b = Some t) as Hsome.
    { intros b Hb. destruct (used b) as [t|] eqn:E; [by exists t|]. exfalso.
      assert (existsb (λ a, match used a with None => true | _ => false end) l = true) as Ht; [|congruence].
      apply existsb_exists. exists b. by rewrite E, <-list_elem_of_In. }
    destruct (foldl_earliest used l None) as (_ & H2 & H3). set (m := foldl _ _ l) in *.
    split; intros [Ha H]; (split; [done|]); destruct (Hsome a Ha) as [t Ht]; rewrite Ht in *.
    + apply andb_prop in H as [_ Hm%bool_decide_eq_true]. intros b Hb. destruct (Hsome b Hb) as [t' Ht'].
      specialize (H2 b Hb). rewrite Ht', Hm in H2. rewrite Ht'. simpl in *. lia.
    + simpl. apply bool_decide_eq_true. destruct H3 as [H3|(b & Hb & H3)].
      { specialize (H2 a Ha). rewrite H3, Ht in H2. by destruct H2. }
      specialize (H b Hb). specialize (H2 a Ha). destruct (Hsome b Hb) as [t' Ht'].
      rewrite H3, Ht, Ht' in H2. rewrite Ht' in H. rewrite H3, Ht'. simpl in *. f_equal.
      apply Z.le_antisymm; [lia|]. destruct (Z.ltb_spec t' t); [done|lia].
Qed.

Lemma drawn l a : (∃ draw : nat, l !! Nat.modulo draw (length l) = Some a) ↔ a ∈ l.
Proof.
  split; [by intros [? ?%list_elem_of_lookup_2]|].
  intros (i & Hi)%list_elem_of_lookup_1. exists i. pose proof (lookup_lt_Some _ _ _ Hi).
  by rewrite Nat.mod_small.
Qed.

Lemma select_oldest l draw :
  selectByLRU preferOAuth draw l =
  match l with
  | [] => None
  | [a] => Some a
  | _ => match oldest l with
         | [a] => Some a
         | _ => let best := List.filter (λ a, oauth a) (oldest l) in
                let best := if preferOAuth && negb (bool_decide (best = [])) then best else oldest l in
                best !! Nat.modulo draw (length best)
         end
  end.
Proof. done. Qed.

Lemma less_used_irrefl x : less_used x x = false.
Proof. destruct x as [t|]; [apply Z.ltb_irrefl|done]. Qed.
Lemma not_self_preferred a : ¬ preferred_by_use a a.
Proof.
  intros [H|(_ & _ & H1 & H2)]; [|congruence]. by rewrite less_used_irrefl in H.
Qed.

Lemma top_by_use l a :
  top preferred_by_use l a ↔
  a ∈ oldest l ∧ ∀ b, b ∈ oldest l → ¬ (preferOAuth = true ∧ oauth b = true ∧ oauth a = false).
Proof.
  rewrite elem_of_oldest. unfold top. split.
  - intros [Ha H]. split; [split; [done|]|].
    + intros b Hb Hu. apply (H b Hb). by left.
    + intros b [Hb Hold]%elem_of_oldest (Hp & Hob & Hoa). apply (H b Hb). right. split; [|done].
      destruct (less_used (used b) (used a)) eqn:E1; [by destruct (H b Hb); left|].
      specialize (Hold a Ha). destruct (used a) as [x|], (used b) as [y|]; simpl in *; try done.
      f_equal. destruct (Z.ltb_spec x y); [done|]. apply Z.ltb_ge in E1. lia.
  - intros [[Ha Hold] H]. split; [done|]. intros b Hb [Hu|(He & Hp)]; [by apply (Hold b)|].
    apply (H b); [|done]. apply elem_of_oldest. split; [done|]. by rewrite He.
Qed.

Lemma select_by_use l a :
  (∃ draw, selectByLRU preferOAuth draw l = Some a) ↔ top preferred_by_use l a.
Proof.
  destruct l as [|x [|y l]].
  - split; [by intros [? ?]|]. by intros [?%not_elem_of_nil _].
  - unfold top. split.
    + intros [? [= <-]]. split; [left|]. intros b ->%list_elem_of_singleton. apply not_self_preferred.
    + intros [->%list_elem_of_singleton _]. by exists 0%nat.
  - rewrite top_by_use. setoid_rewrite select_oldest. set (L := x :: y :: l). generalize (oldest L) as C.
    intros C. assert ((∃ draw : nat,
      let best := List.filter (λ a, oauth a) C in
      let best := if preferOAuth && negb (bool_decide (best = [])) then best else C in
      best !! Nat.modulo draw (length best) = Some a) ↔
      a ∈ C ∧ ∀ b, b ∈ C → ¬ (preferOAuth = true ∧ oauth b = true ∧ oauth a = false)) as Hdraw.
    { cbv zeta. rewrite drawn. destruct preferOAuth; simpl; [|split; [|by intros []]; intros Ha; split; [done|]; by intros b _ []].
      case_bool_decide as Hf; simpl.
      - split; [|by intros []]. intros Ha. split; [done|]. intros b Hb (_ & Hob & _).
        assert (b ∈ List.filter (λ a, oauth a) C) as Hin by by apply elem_of_filter_bool.
        rewrite Hf in Hin. by apply not_elem_of_nil in Hin.
      - rewrite elem_of_filter_bool. split.
        + intros [Ha Ho]. split; [done|]. intros b _ (_ & _ & ?). congruence.
        + intros [Ha H]. split; [done|]. destruct (List.filter (λ a, oauth a) C) as [|b r] eqn:E; [done|].
          assert (b ∈ List.filter (λ a, oauth a) C) as [Hb Hob]%elem_of_filter_bool by (rewrite E; left).
          specialize (H b Hb). destruct (oauth a); [done|]. by destruct H. }
    destruct C as [|c [|c' C]]; [exact Hdraw| |exact Hdraw].
    split.
    + intros [_ [= <-]]. split; [left|]. intros b ->%list_elem_of_singleton (_ & ? & ?). congruence.
    + intros [->%list_elem_of_singleton _]. by exists 0%nat.
Qed.

(** There is always a best one. *)
Lemma least_nil f l : least f l = [] → l = [].
Proof.
  destruct l as [|x l]; [done|]. intros Hl. exfalso. destruct (foldl_min f l (f x)) as (_ & _ & H3).
  unfold least in Hl. set (m := foldl _ _ l) in *. cbv zeta in Hl.
  assert (∃ b, b ∈ x :: l ∧ m = f b) as (b & Hb & Hm).
  { destruct H3 as [H3|(b & Hb & H3)]; [exists x; split; [left|done]|exists b; split; [by right|done]]. }
  apply (not_elem_of_nil b). rewrite <-Hl, elem_of_filter_bool. split; [done|]. by apply Z.eqb_eq.
Qed.
Lemma soonest_nil l : filterBySoonestReset now l = [] → l = [].
Proof.
  unfold filterBySoonestReset. destruct (_ <=? _)%nat; [done|].
  destruct (foldl_earliest (active_end now) l None) as (_ & _ & H3). set (m := foldl _ _ l) in *.
  destruct m as [e|] eqn:Em; [|done]. intros Hl. exfalso. destruct H3 as [|(b & Hb & H3)]; [done|].
  apply (not_elem_of_nil b). rewrite <-Hl, elem_of_filter_bool. split; [done|]. by rewrite <-H3, Z.eqb_refl.
Qed.
Lemma oldest_nil l : oldest l = [] → l = [].
Proof.
  destruct l as [|x l]; [done|]. set (L := x :: l). intros Hl. exfalso. unfold oldest in Hl. cbv zeta in Hl.
  destruct (existsb _ L) eqn:Hnil.
  - apply existsb_exists in Hnil as (n & Hn & Hu). apply list_elem_of_In in Hn.
    apply (not_elem_of_nil n). rewrite <-Hl, elem_of_filter_bool. split; [done|]. by destruct (used n).
  - destruct (foldl_earliest used L None) as (_ & H2 & H3). set (m := foldl _ _ L) in *.
    assert (∃ b, b ∈ L ∧ m = used b) as (b & Hb & Hm).
    { destruct H3 as [H3|H3]; [|done]. exists x. split; [left|]. specialize (H2 x (list_elem_of_here _ _)).
      rewrite H3 in *. by destruct (used x). }
    apply (not_elem_of_nil b). rewrite <-Hl, elem_of_filter_bool. split; [done|]. rewrite <-Hm.
    destruct m as [t|] eqn:Em; [simpl; by apply bool_decide_eq_true|].
    assert (existsb (λ a, match used a with None => true | _ => false end) L = true) as Ht; [|congruence].
    apply existsb_exists. exists b. rewrite <-list_elem_of_In, <-Hm. done.
Qed.
Lemma select_nil draw l : selectByLRU preferOAuth draw l = None → l = [].
Proof.
  rewrite select_oldest. destruct l as [|x [|y l]]; [done..|].
  destruct (oldest (x :: y :: l)) as [|c [|c' C]] eqn:E; [by apply oldest_nil in E|done|].
  cbv zeta. match goal with |- ?b !! _ = None → _ => set (best := b) end. intros Hb%lookup_ge_None.
  assert (length best ≠ 0)%nat as Hn.
  { subst best. destruct (preferOAuth && _) eqn:Eb; [|done]. intros ?%length_zero_iff_nil.
    apply andb_prop in Eb as [_ Eb%negb_true_iff%bool_decide_eq_false]. done. }
  pose proof (Nat.mod_upper_bound draw _ Hn). lia.
Qed.

(** Choosing first by one order and then, among the best, by another. *)
Lemma top_then (R1 R2 : accountWithLoad → accountWithLoad → Prop) (same : accountWithLoad → accountWithLoad → Prop) l a :
  (∀ b, b ∈ l → top R1 l a → same b a → top R1 l b) →
  (∀ b, top R1 l a → top R1 l b → same b a) →
  (∀ L, (∀ b, b ∈ L ↔ top R1 l b) → top R2 L a ↔ top (λ b a, R1 b a ∨ same b a ∧ R2 b a) l a).
Proof.
  intros Hsame Htop L HL. unfold top at 1 2. split.
  - intros [Ha H2]. apply HL in Ha as Ht. destruct Ht as [Ha1 H1]. split; [done|].
    intros b Hb [HR|[Hs HR]]; [by apply (H1 b)|]. apply (H2 b); [|done]. apply HL. by apply Hsame.
  - intros [Ha H]. assert (top R1 l a) as Ht.
    { split; [done|]. intros b Hb HR. apply (H b Hb). by left. }
    split; [by apply HL|]. intros b Hb HR. apply HL in Hb as Hb'. apply (H b); [apply Hb'|].
    right. split; [by apply Htop|done].
Qed.
Lemma top_least (f : accountWithLoad → Z) R2 l L a :
  (∀ b, b ∈ L ↔ top (λ b a, f b < f a) l b) →
  top R2 L a ↔ top (λ b a, f b < f a ∨ f b = f a ∧ R2 b a) l a.
Proof.
  apply (top_then (λ b a, f b < f a) R2 (λ b a, f b = f a)).
  - intros b Hb [_ H] He. split; [done|]. intros c Hc. rewrite He. by apply H.
  - intros b [Ha H1] [Hb H2]. specialize (H1 b Hb). specialize (H2 a Ha). lia.
Qed.
Lemma top_soonest R2 l L a :
  (∀ b, b ∈ L ↔ top (λ b a, sooner (active_end now b) (active_end now a)) l b) →
  top R2 L a ↔
  top (λ b a, sooner (active_end now b) (active_end now a) ∨ active_end now b = active_end now a ∧ R2 b a) l a.
Proof.
  apply (top_then (λ b a, sooner (active_end now b) (active_end now a)) R2 (λ b a, active_end now b = active_end now a)).
  - intros b Hb [_ H] He. split; [done|]. intros c Hc. rewrite He. by apply H.
  - intros b [Ha H1] [Hb H2]. by apply sooner_antisym; [apply H1|apply H2].
Qed.
End Best.

Lemma pick_nil ps po now draw l : pick ps po now draw l = None → l = [].
Proof.
  unfold pick. cbv zeta. intros Hl%select_nil%least_nil. destruct ps; [apply soonest_nil in Hl|]; by apply least_nil in Hl.
Qed.

(** C21: the layered filters of the selection compute the best account: for some
    random number the account [a] is picked of those that are available exactly
    when it is one of them and none of them is preferred to it, comparing in
    turn priority, the end of the running window (when configured, accounts
    with a running window first), load, the time of last use (never used
    first), and for Gemini the type. *)
Theorem pick_is_best preferSoonest preferOAuth now l a :
  (∃ draw, pick preferSoonest preferOAuth now draw l = Some a) ↔
  a ∈ l ∧ ∀ b, b ∈ l → ¬ preferred preferSoonest preferOAuth now b a.
Proof.
  unfold pick, filterByMinPriority, filterByMinLoadRate. cbv zeta. rewrite select_by_use.
  fold (top (preferred preferSoonest preferOAuth now) l a).
  unfold preferred, preferred_by_reset, preferred_by_load. destruct preferSoonest.
  - rewrite top_least by apply elem_of_least. rewrite top_soonest by apply elem_of_soonest.
    by rewrite top_least by apply elem_of_least.
  - rewrite top_least by apply elem_of_least. by rewrite top_least by apply elem_of_least.
Qed.

(** ** The slot of a selection

    The slot that is held after a log; [None] is a log that breaks the rules:
    a second slot, or the return of one that is not held. *)

Definition hold (h : option Z) (e : SEvent) : option (option Z) :=
  match e with
  | Asked id true => match h with None => Some (Some id) | Some _ => None end
  | Returned id => if decide (h = Some id) then Some None else None
  | Asked _ false | Registered _ | SessionBound _ | SessionRefreshed | SessionDeleted => Some h
  end.
Fixpoint held_from (h : option Z) (l : list SEvent) : option (option Z) :=
  match l with [] => Some h | e :: l => hold h e ≫= λ h, held_from h l end.
Definition held (l : list SEvent) : option (option Z) := held_from None l.

Lemma held_from_app h l1 l2 : held_from h (l1 ++ l2) = held_from h l1 ≫= λ h, held_from h l2.
Proof. revert h. induction l1 as [|e l1 IH]; intros h; [done|]. simpl. destruct (hold h e); [apply IH|done]. Qed.
Lemma held_snoc l e h : held l = Some h → held (l ++ [e]) = hold h e.
Proof. intros Hl. unfold held in *. rewrite held_from_app, Hl. simpl. by destruct (hold h e). Qed.

Section Sound.
Context `{GT : GoText} `{GP : GoParse} (cfg : SchedulingConfig) (ck : Checks) (rq : SelectionRequest).

(** An account the selection may return. *)
Definition suitable (a : SAccount) : Prop :=
  a ∈ rq_accounts rq ∧ (sa_ID a ∉ rq_excluded rq) ∧
  (gate ck rq false a = true ∨ sa_ID a = rq_sticky rq ∧ gate ck rq true a = true).

(** What a selection says of the slot that is held. *)
Definition answered (r : res SelErr Selected) (h : option Z) : Prop :=
  match r with
  | Ok sd =>
      ∃ a, suitable a ∧ sa_ID (sd_Account sd) = sa_ID a ∧
      if sd_Acquired sd
      then h = Some (sa_ID (sd_Account sd)) ∧ sd_WaitPlan sd = None
      else h = None ∧ ∃ plan, sd_WaitPlan sd = Some plan ∧ wp_AccountID plan = sa_ID (sd_Account sd) ∧
                              wp_MaxConcurrency plan = sa_Concurrency a
  | Err ErrNoAvailableAccounts => h = None
  | Err ErrHydration => True
  end.
(** After a layer: it fell through with nothing held, or it answered. *)
Definition layered (r : option (res SelErr Selected)) (l : list SEvent) : Prop :=
  match r with
  | None => held l = Some None
  | Some r => ∃ h, held l = Some h ∧ answered r h
  end.

Definition any (o : SOracle) : Prop := True.
#[local] Abbreviation walks n p l Q := (ends any n p l Q).

Lemma s_act {A B} n (f : SOracle → list SEvent → B * list SEvent) (k : B → sproc A) l Q :
  (∀ o, walks n (k (fst (f o l))) (snd (f o l)) Q) → walks (S n) (b <-p act f; k b) l Q.
Proof. intros Hk o _. apply Hk. Qed.
Lemma s_consult {A B} n (f : SOracle → B) (k : B → sproc A) l Q :
  (∀ b, walks n (k b) l Q) → walks (S n) (b <-p consult f; k b) l Q.
Proof. intros Hk o _. apply Hk. Qed.
Lemma s_note {A} n e (k : unit → sproc A) l h h' Q :
  held l = Some h → hold h e = Some h' → (∀ l', held l' = Some h' → walks n (k tt) l' Q) →
  walks (S n) (b <-p note e; k b) l Q.
Proof. intros Hl He Hk o _. apply Hk. cbn [snd]. by rewrite (held_snoc _ _ _ Hl). Qed.
Lemma s_ret {A} n (a : A) l (Q : A → list SEvent → Prop) : Q a l → walks n (Ret a) l Q.
Proof. by destruct n. Qed.
Lemma s_register {A} n a (k : bool → sproc A) l h Q :
  held l = Some h → (∀ b l', held l' = Some h → walks n (k b) l' Q) →
  walks (S n) (b <-p checkAndRegisterSession rq a; k b) l Q.
Proof.
  intros Hl Hk. unfold checkAndRegisterSession.
  destruct (negb _); [apply (ends_le _ n); [by apply Hk|lia]|].
  destruct (_ || _); [apply (ends_le _ n); [by apply Hk|lia]|].
  intros o _. cbn [fst snd]. apply Hk. destruct (so_session o) as [[]|]; [|done..].
  by rewrite (held_snoc _ _ _ Hl).
Qed.
Lemma s_acquire {A} n a (k : bool → sproc A) l Q :
  held l = Some None →
  (∀ l', held l' = Some (Some (sa_ID a)) → walks n (k true) l' Q) →
  (∀ l', held l' = Some None → walks n (k false) l' Q) →
  walks (S n) (b <-p tryAcquireAccountSlot a; k b) l Q.
Proof.
  intros Hl Ht Hf. apply s_act. intros o. cbn [fst snd].
  destruct (so_slot o); [apply Ht|apply Hf]; by rewrite (held_snoc _ _ _ Hl).
Qed.
Lemma s_bind {A} n a (k : unit → sproc A) l h Q :
  held l = Some h → (∀ l', held l' = Some h → walks n (k tt) l' Q) →
  walks (S n) (b <-p bind_session rq a; k b) l Q.
Proof.
  intros Hl Hk. unfold bind_session. destruct (negb _); [by eapply s_note|].
  apply (ends_le _ n); [by apply Hk|lia].
Qed.

Lemma slot_result a l :
  suitable a → held l = Some (Some (sa_ID a)) → walks 1 (newSelectionResult a true None) l layered.
Proof.
  intros Ha Hl. apply s_consult. intros hy. apply s_ret. eexists. split; [done|].
  destruct hy as [[h Hh]|]; [|done]. exists a. simpl. by rewrite Hh.
Qed.
Lemma wait_result a plan l :
  suitable a → held l = Some None → wp_AccountID plan = sa_ID a → wp_MaxConcurrency plan = sa_Concurrency a →
  walks 1 (newSelectionResult a false (Some plan)) l layered.
Proof.
  intros Ha Hl ??. apply s_consult. intros hy. apply s_ret. eexists. split; [done|].
  destruct hy as [[h Hh]|]; [|done]. exists a. simpl. rewrite Hh. eauto 10.
Qed.

Lemma first_slot_walks accts l :
  (∀ a, a ∈ accts → suitable a) → held l = Some None →
  walks (4 * length accts) (first_slot rq accts) l layered.
Proof.
  revert l. induction accts as [|a accts IH]; intros l Hs Hl; [by apply s_ret|].
  assert (∀ l', held l' = Some None → walks (4 * length accts) (first_slot rq accts) l' layered) as Hrest.
  { intros l' Hl'. apply IH; [|done]. intros b Hb. apply Hs. by right. }
  replace (4 * length (a :: accts))%nat with (S (3 + 4 * length accts)) by (simpl; lia).
  cbn [first_slot]. apply s_acquire; [done|..]; intros l1 Hl1; cbn [negb].
  2: { apply (ends_le _ (4 * length accts)); [by apply Hrest|lia]. }
  eapply s_register; [done|]. intros [] l2 Hl2; cbn [negb].
  - apply (ends_le _ 2); [|lia]. eapply s_bind; [done|]. intros l3 Hl3. apply slot_result; [|done].
    apply Hs. left.
  - eapply s_note; [done|cbn; by rewrite decide_True|]. intros l3 Hl3.
    apply (ends_le _ (4 * length accts)); [by apply Hrest|lia].
Qed.

Lemma first_wait_walks plan accts l :
  (∀ a, a ∈ accts → suitable a) →
  (∀ a, wp_AccountID (plan a) = sa_ID a ∧ wp_MaxConcurrency (plan a) = sa_Concurrency a) → held l = Some None →
  walks (2 * length accts) (first_wait rq plan accts) l layered.
Proof.
  intros Hs Hp. revert l. induction accts as [|a accts IH]; intros l Hl; [by apply s_ret|].
  replace (2 * length (a :: accts))%nat with (S (1 + 2 * length accts)) by (simpl; lia).
  cbn [first_wait]. eapply s_register; [done|]. intros [] l1 Hl1; cbn [negb].
  - apply (ends_le _ 1); [|lia]. destruct (Hp a). apply wait_result; [|done..]. apply Hs. left.
  - apply (ends_le _ (2 * length accts)); [|lia]. apply IH; [|done]. intros b Hb. apply Hs. by right.
Qed.

Lemma wait_sticky_walks a l :
  suitable a → held l = Some None → walks 3 (wait_sticky cfg rq a) l layered.
Proof.
  intros Ha Hl. apply s_consult. intros w. destruct (_ <? _); [|by apply s_ret].
  eapply s_register; [done|]. intros [] l1 Hl1; [by apply wait_result|by apply s_ret].
Qed.

(** The slot of the account of the session, or else [other]. *)
Lemma else_try_walks n m p q l :
  walks n p l layered → (∀ l', held l' = Some None → walks m q l' layered) →
  walks (n + m) (else_try p q) l layered.
Proof.
  intros Hp Hq. eapply ends_bind; [exact Hp|]. intros [r|] l' Hl'; [by apply s_ret|by apply Hq].
Qed.

Lemma account_by_id id a : accountByID rq !! id = Some a → a ∈ rq_accounts rq ∧ sa_ID a = id.
Proof.
  unfold accountByID. revert a. induction (rq_accounts rq) as [|x l IH] using rev_ind; intros a; simpl.
  { by rewrite lookup_empty. }
  rewrite foldl_app. simpl. rewrite lookup_insert_Some. intros [[<- <-]|[_ Ha]].
  - split; [|done]. apply elem_of_app. right. left.
  - destruct (IH a Ha). split; [|done]. apply elem_of_app. by left.
Qed.

Lemma sticky_suitable a :
  accountByID rq !! rq_sticky rq = Some a → isExcluded rq (rq_sticky rq) = false → gate ck rq true a = true →
  suitable a.
Proof.
  intros [Ha Hid]%account_by_id He Hg. split; [done|]. rewrite Hid. split; [|by right].
  by apply bool_decide_eq_false in He.
Qed.
Lemma routed_suitable a : a ∈ routingCandidates ck rq → suitable a.
Proof.
  unfold routingCandidates. rewrite list_elem_of_omap. intros (id & _ & Ha).
  destruct (isExcluded rq id) eqn:He; [done|]. destruct (accountByID rq !! id) as [x|] eqn:E; [|done].
  simpl in Ha. destruct (gate ck rq false x) eqn:Hg; [|done]. injection Ha as <-.
  destruct (account_by_id _ _ E) as [Hx Hid]. split; [done|]. rewrite Hid. split; [|by left].
  by apply bool_decide_eq_false in He.
Qed.
Lemma candidates_suitable a : a ∈ candidates ck rq → suitable a.
Proof.
  unfold candidates. rewrite list_elem_of_In, filter_In, <-list_elem_of_In.
  intros [Ha [He Hg]%andb_prop]. split; [done|]. split; [|by left].
  apply negb_true_iff, bool_decide_eq_false in He. done.
Qed.

Lemma routed_sticky_walks l : held l = Some None → walks 4 (routed_sticky cfg ck rq) l layered.
Proof.
  intros Hl. unfold routed_sticky. destruct (_ && negb _) eqn:E; [|by apply s_ret].
  apply andb_prop in E as [_ E%negb_true_iff].
  destruct (accountByID rq !! rq_sticky rq) as [a|] eqn:Ea.
  2: { eapply s_note; [done..|]. intros l' Hl'. by apply s_ret. }
  destruct (gate ck rq true a) eqn:Hg; [|by apply s_ret]. pose proof (sticky_suitable a Ea E Hg) as Ha.
  apply s_acquire; [done|..]; intros l1 Hl1; [|by apply wait_sticky_walks].
  eapply s_register; [done|]. intros [] l2 Hl2.
  - by apply slot_result.
  - eapply s_note; [done|cbn; by rewrite decide_True|]. intros l3 Hl3. by apply s_ret.
Qed.

Lemma layer15_walks l : held l = Some None → walks 7 (layer15 cfg ck rq) l layered.
Proof.
  intros Hl. unfold layer15. destruct (_ && negb _) eqn:E; [|by apply s_ret].
  apply andb_prop in E as [_ E%negb_true_iff].
  destruct (accountByID rq !! rq_sticky rq) as [a|] eqn:Ea; [|by apply s_ret]. cbv zeta.
  assert (∀ l', held l' = Some None → walks 6
    (if negb (shouldClearStickySession ck a) && gate ck rq true a then
       got <-p tryAcquireAccountSlot a;
       if got then
         registered <-p checkAndRegisterSession rq a;
         if registered then _ <-p note SessionRefreshed; newSelectionResult a true None
         else _ <-p note (Returned (sa_ID a)); wait_sticky cfg rq a
       else wait_sticky cfg rq a
     else Ret None) l' layered) as Hrest.
  { clear l Hl. intros l Hl. destruct (_ && gate _ _ _ _) eqn:Hg; [|by apply s_ret].
    apply andb_prop in Hg as [_ Hg]. pose proof (sticky_suitable a Ea E Hg) as Ha.
    apply s_acquire; [done|..]; intros l1 Hl1; [|by apply (ends_le _ 3); [apply wait_sticky_walks|lia]].
    eapply s_register; [done|]. intros [] l2 Hl2.
    - apply (ends_le _ 2); [|lia]. eapply s_note; [done..|]. intros l3 Hl3. by apply slot_result.
    - eapply s_note; [done|cbn; by rewrite decide_True|]. intros l3 Hl3. by apply wait_sticky_walks. }
  destruct (shouldClearStickySession ck a); [|apply (ends_le _ 6); [by apply Hrest|lia]].
  eapply s_note; [done..|]. intros l' Hl'. by apply Hrest.
Qed.

(** *** Reordering keeps the accounts *)

Lemma shuffle_perm {A} rank (id : A → Z) l : shuffle rank id l ≡ₚ l.
Proof. apply merge_sort_Permutation. Qed.
Lemma sort_by_perm {A} (less : A → A → bool) l : sort_by less l ≡ₚ l.
Proof. apply merge_sort_Permutation. Qed.
Lemma span_app {A} (f : A → bool) l g rest : span f l = (g, rest) → l = g ++ rest.
Proof.
  revert g rest. induction l as [|a l IH]; simpl; intros g rest; [by intros [= <- <-]|].
  destruct (f a); [|by intros [= <- <-]]. destruct (span f l) as [g' r'] eqn:E. intros [= <- <-].
  simpl. f_equal. by apply IH.
Qed.
Lemma within_groups_perm {A} (same : A → A → bool) mix n l :
  (∀ g, mix g ≡ₚ g) → within_groups same mix n l ≡ₚ l.
Proof.
  intros Hm. revert l. induction n as [|n IH]; intros [|a l]; [done..|]. cbn [within_groups].
  destruct (span (same a) l) as [g rest] eqn:E. rewrite Hm, IH. by rewrite (span_app _ _ _ _ E).
Qed.
Lemma by_use_perm po rank l : sortAccountsByPriorityAndLastUsed po rank l ≡ₚ l.
Proof.
  unfold sortAccountsByPriorityAndLastUsed, shuffleWithinPriorityAndLastUsed.
  rewrite within_groups_perm; [apply sort_by_perm|]. intros g. destruct po; [|apply shuffle_perm].
  rewrite !shuffle_perm. clear. induction g as [|a g IH]; [done|]. simpl. destruct (is_oauth a); simpl.
  - by rewrite IH.
  - by rewrite <-Permutation_middle, IH.
Qed.
Lemma fallback_perm po mode rank l : sortCandidatesForFallback po mode rank l ≡ₚ l.
Proof.
  unfold sortCandidatesForFallback, shuffleWithinPriority. destruct (String.eqb mode "random"); [|apply by_use_perm].
  rewrite within_groups_perm; [apply sort_by_perm|]. intros g. apply shuffle_perm.
Qed.
Lemma by_load_perm rank l : shuffleWithinSortGroups rank (sort_by less_by_load l) ≡ₚ l.
Proof.
  unfold shuffleWithinSortGroups. rewrite within_groups_perm; [apply sort_by_perm|]. intros g. apply shuffle_perm.
Qed.

(** *** The layers *)

Lemma below_full_sub loads accts (l : list accountWithLoad) b :
  l ≡ₚ below_full (load_of loads <$> accts) → b ∈ l → account b ∈ accts.
Proof.
  intros -> Hb. unfold below_full in Hb. apply list_elem_of_In, filter_In in Hb as [Hb _].
  apply list_elem_of_In, list_elem_of_fmap in Hb as (a & -> & Ha). done.
Qed.
Lemma omap_length_le {A B} (f : A → option B) l : (length (omap f l) ≤ length l)%nat.
Proof. induction l as [|a l IH]; [done|]. csimpl. destruct (f a); simpl; lia. Qed.
Lemma below_full_length loads accts : (length (below_full (load_of loads <$> accts)) ≤ length accts)%nat.
Proof.
  unfold below_full. etrans; [apply List.filter_length_le|]. by rewrite length_fmap.
Qed.

Lemma layer1_walks l :
  held l = Some None → walks (6 + 6 * length (rq_routing rq)) (layer1 cfg ck rq) l layered.
Proof.
  intros Hl. unfold layer1. destruct (rq_routing rq) as [|i ids] eqn:Ei; [by apply s_ret|].
  assert (length (routingCandidates ck rq) ≤ length (i :: ids))%nat as Hlen.
  { unfold routingCandidates. rewrite Ei. apply omap_length_le. }
  pose proof routed_suitable as Hs. set (cs := routingCandidates ck rq) in *.
  destruct cs as [|c cs'] eqn:Ec; [by apply s_ret|]. rewrite <-Ec in *.
  apply (ends_le _ (4 + (2 + (4 * length cs + 2 * length cs)))); [|lia].
  apply else_try_walks; [by apply routed_sticky_walks|]. clear l Hl. intros l Hl.
  apply s_consult. intros loads. apply s_consult. intros rank. cbv zeta.
  set (available := below_full _).
  assert (∀ a, a ∈ account <$> shuffleWithinSortGroups rank (sort_by less_by_load available) → suitable a) as Hord.
  { intros a (b & -> & Hb)%list_elem_of_fmap. apply Hs. rewrite by_load_perm in Hb. by eapply below_full_sub. }
  assert (length (account <$> shuffleWithinSortGroups rank (sort_by less_by_load available)) ≤ length cs)%nat as Hl'.
  { rewrite length_fmap, by_load_perm. apply below_full_length. }
  eapply ends_le; [apply else_try_walks|].
  - by apply first_slot_walks.
  - intros l1 Hl1. by apply first_wait_walks.
  - lia.
Qed.

Lemma balance_walks n available l :
  (∀ b, b ∈ available → suitable (account b)) → held l = Some None →
  walks (6 * n) (balance cfg rq n available) l layered.
Proof.
  revert available l. induction n as [|n IH]; intros available l Hs Hl; [by apply s_ret|].
  replace (6 * S n)%nat with (S (S (4 + 6 * n))) by lia. cbn [balance].
  apply s_consult. intros now. apply s_consult. intros draw.
  destruct (pick _ _ _ _ _) as [sel|] eqn:Ep; [|by apply s_ret]. cbv zeta.
  assert (suitable (account sel)) as Hsel.
  { apply Hs. apply (pick_is_best (PreferSoonestReset cfg) (preferOAuth rq) now available sel). by exists draw. }
  set (left := List.filter _ available).
  assert (∀ l', held l' = Some None → walks (6 * n) (balance cfg rq n left) l' layered) as Hrest.
  { intros l' Hl'. apply IH; [|done]. intros b Hb. apply Hs. by apply elem_of_filter_bool in Hb as [? _]. }
  apply s_acquire; [done|..]; intros l1 Hl1; cbn [negb].
  2: { apply (ends_le _ (6 * n)); [by apply Hrest|lia]. }
  eapply s_register; [done|]. intros [] l2 Hl2.
  - apply (ends_le _ 2); [|lia]. eapply s_bind; [done|]. intros l3 Hl3. by apply slot_result.
  - eapply s_note; [done|cbn; by rewrite decide_True|]. intros l3 Hl3.
    apply (ends_le _ (6 * n)); [by apply Hrest|lia].
Qed.

Lemma candidates_length : (length (candidates ck rq) ≤ length (rq_accounts rq))%nat.
Proof. apply List.filter_length_le. Qed.

Lemma layer2_walks l :
  held l = Some None → walks (2 + 6 * length (rq_accounts rq)) (layer2 cfg ck rq) l layered.
Proof.
  intros Hl. pose proof candidates_length as Hc. unfold layer2. apply s_consult. intros [loads|].
  - cbv zeta. set (available := below_full _). pose proof (below_full_length loads (candidates ck rq)).
    apply (ends_le _ (6 * length available)); [|subst available; lia].
    apply balance_walks; [|done]. intros b Hb. apply candidates_suitable. by eapply below_full_sub.
  - apply s_consult. intros rank. eapply ends_le; [apply first_slot_walks|].
    + intros a. rewrite by_use_perm. apply candidates_suitable.
    + done.
    + rewrite by_use_perm. lia.
Qed.
Lemma layer3_walks l :
  held l = Some None → walks (1 + 2 * length (rq_accounts rq)) (layer3 cfg ck rq) l layered.
Proof.
  intros Hl. pose proof candidates_length as Hc. unfold layer3. apply s_consult. intros rank.
  eapply ends_le; [apply first_wait_walks|].
  - intros a. rewrite fallback_perm. apply candidates_suitable.
  - done.
  - done.
  - rewrite fallback_perm. lia.
Qed.

Definition most_actions : nat := 16 + 6 * length (rq_routing rq) + 8 * length (rq_accounts rq).

Lemma selection_walks :
  walks most_actions (SelectAccountWithLoadAwareness cfg ck rq) [] (λ r l, ∃ h, held l = Some h ∧ answered r h).
Proof.
  unfold SelectAccountWithLoadAwareness. case_bool_decide; [by apply s_ret; exists None|].
  unfold most_actions.
  apply (ends_le _ (((6 + 6 * length (rq_routing rq)) +
                     (7 + ((2 + 6 * length (rq_accounts rq)) + (1 + 2 * length (rq_accounts rq))))) + 0)); [|lia].
  eapply ends_bind.
  - apply else_try_walks; [by apply layer1_walks|]. intros l1 Hl1.
    apply else_try_walks; [by apply layer15_walks|]. intros l2 Hl2.
    case_bool_decide; [by apply s_ret|].
    apply else_try_walks; [by apply layer2_walks|]. intros l3 Hl3. by apply layer3_walks.
  - intros [r|] l Hl; apply s_ret; [done|]. by exists None.
Qed.

(** *** Nobody is left out

    Layer 2 gives up only after every account below full load was asked for a slot. *)
Definition asked_all (available : list accountWithLoad) l0 (r : option (res SelErr Selected)) (l : list SEvent) : Prop :=
  l0 ⊆ l ∧ (r = None → ∀ b, b ∈ available → ∃ g, Asked (sa_ID (account b)) g ∈ l).

Lemma balance_asks n available l :
  (length available ≤ n)%nat → walks (6 * n) (balance cfg rq n available) l (asked_all available l).
Proof.
  revert available l. induction n as [|n IH]; intros available l Hn.
  { destruct available; [|simpl in Hn; lia]. apply s_ret. split; [done|]. by intros _ b ?%not_elem_of_nil. }
  replace (6 * S n)%nat with (S (S (S (3 + 6 * n)))) by lia. cbn [balance].
  apply s_consult. intros now. apply s_consult. intros draw.
  destruct (pick _ _ _ _ _) as [sel|] eqn:Ep.
  2: { apply pick_nil in Ep as ->. apply s_ret. split; [done|]. by intros _ b ?%not_elem_of_nil. }
  cbv zeta. set (left := List.filter _ available).
  assert (sel ∈ available) as Hsel.
  { apply (pick_is_best (PreferSoonestReset cfg) (preferOAuth rq) now available sel). by exists draw. }
  assert (length left ≤ n)%nat as Hleft.
  { assert (length left < length available)%nat; [|lia].
    destruct (list_elem_of_split _ _ Hsel) as (l1 & l2 & E). unfold left. rewrite E, List.filter_app. simpl.
    rewrite Z.eqb_refl. simpl. rewrite !length_app. simpl.
    pose proof (List.filter_length_le (λ b, negb (sa_ID (account b) =? sa_ID (account sel))) l1).
    pose proof (List.filter_length_le (λ b, negb (sa_ID (account b) =? sa_ID (account sel))) l2). lia. }
  assert (∀ g l' m, (6 * n ≤ m)%nat → l ++ [Asked (sa_ID (account sel)) g] ⊆ l' →
    walks m (balance cfg rq n left) l' (asked_all available l)) as Hrest.
  { intros g l' m Hm Hsub. eapply ends_weaken; [by apply (IH left l')|done|].
    intros r l2 [Hl2 Hall]. split; [set_solver|]. intros Hr b Hb.
    destruct (Z.eqb_spec (sa_ID (account b)) (sa_ID (account sel))) as [->|Hne]; [exists g; set_solver|].
    apply (Hall Hr). unfold left. rewrite elem_of_filter_bool. split; [done|]. by apply negb_true_iff, Z.eqb_neq. }
  apply s_act. intros o. cbn [fst snd]. set (l1 := l ++ _) in *.
  assert (∀ l2, l1 ⊆ l2 → walks 1 (newSelectionResult (account sel) true None) l2 (asked_all available l)) as Hdone.
  { intros l2 Hl2. apply s_consult. intros hy. apply s_ret. split; [|done]. etrans; [|exact Hl2]. unfold l1. set_solver. }
  destruct (so_slot o); cbn [negb]; [|eapply Hrest; [lia|unfold l1; reflexivity]].
  assert (∀ b l2, l1 ⊆ l2 → walks (2 + 6 * n)
    (if (b : bool) then _ <-p bind_session rq (account sel); newSelectionResult (account sel) true None
     else _ <-p note (Returned (sa_ID (account sel))); balance cfg rq n left) l2 (asked_all available l)) as Hgo.
  { intros [] l2 Hl2.
    - apply (ends_le _ 2); [|lia]. unfold bind_session. destruct (negb _).
      + intros o' _. apply Hdone. cbn [fst snd]. etrans; [exact Hl2|set_solver].
      + apply (ends_le _ 1); [by apply Hdone|lia].
    - intros o' _. apply (Hrest true); [lia|]. cbn [fst snd]. etrans; [exact Hl2|set_solver]. }
  unfold checkAndRegisterSession. pose proof (Hgo true l1 ltac:(reflexivity)) as Hok.
  destruct (negb _); [apply (ends_le _ (2 + 6 * n)); [exact Hok|lia]|].
  destruct (_ || _); [apply (ends_le _ (2 + 6 * n)); [exact Hok|lia]|].
  intros o' _. cbn [fst snd]. apply Hgo. destruct (so_session o') as [[]|]; set_solver.
Qed.
End Sound.

(** C20: a selection ends, within a number of actions that is linear in the
    accounts of the group and those the model is routed to. If it finds an
    account, that account is in the group, is not one the caller excluded, and
    passes every check (the checks for a sticky session only if it is the
    account of the session), and what is answered is that account as it is when
    it is read again by its id; it comes either with a slot of it, which is the
    only one that is held, or with a plan to wait for it, and no slot is held.
    If no account is available none is held either, whatever was tried. *)
Theorem selection_sound `{GoText} `{GoParse} cfg ck rq (os : list SOracle) :
  (most_actions rq ≤ length os)%nat →
  ∃ l r h, run_alone (SelectAccountWithLoadAwareness cfg ck rq) os [] = (l, Some r) ∧
           held l = Some h ∧ answered ck rq r h.
Proof.
  intros Hos. destruct (ends_run _ _ _ os [] _ (selection_walks cfg ck rq)) as (l & r & Hr & h & Hh & Ha);
    [|done|by exists l, r, h].
  apply Forall_forall. done.
Qed.

(** Layer 2 gives up only after it asked every account below full load. *)
Theorem layer2_leaves_nobody_out `{GoText} `{GoParse} cfg ck rq loads (os : list SOracle) l :
  run_alone (balance cfg rq (length (below_full (load_of loads <$> candidates ck rq)))
               (below_full (load_of loads <$> candidates ck rq))) os [] = (l, Some None) →
  ∀ a, a ∈ candidates ck rq → default 0 (loads !! sa_ID a) < 100 → ∃ g, Asked (sa_ID a) g ∈ l.
Proof.
  intros Hr a Ha Hload. set (available := below_full _) in *.
  destruct (ends_result any _ _ _ _ _ _ _ (balance_asks cfg rq _ available [] (le_n _))
              ltac:(by apply Forall_forall) Hr) as [_ Hall].
  apply (Hall eq_refl (load_of loads a)). unfold available, below_full. rewrite elem_of_filter_bool.
  split; [by apply list_elem_of_fmap_2|]. by apply Z.ltb_lt.
Qed.

(** ** Concrete selections *)

Module SelectionDemo.
#[local] Instance demo_text : GoText := ascii_text.
#[local] Instance demo_parse : GoParse := {| ParseFloat := λ s, f_of_int <$> Atoi s |}.

(** An OAuth account with two sessions and twenty requests a minute at most. *)
Definition oauth_account (id priority : Z) (last : option time) : SAccount :=
  {| sa_ID := id; sa_Platform := PlatformAnthropic; sa_Type := AccountTypeOAuth; sa_Status := StatusActive;
     sa_Schedulable := true; sa_Priority := priority; sa_Concurrency := 3; sa_LoadFactor := None;
     sa_LastUsedAt := last; sa_ExpiresAt := None; sa_AutoPauseOnExpired := false; sa_OverloadUntil := None;
     sa_RateLimitResetAt := None; sa_TempUnschedulableUntil := None; sa_SessionWindowEnd := None;
     sa_Extra := Some {["max_sessions" := CInt 2; "base_rpm" := CString "20"]} |}.
Definition group : list SAccount :=
  [oauth_account 1 5 None; oauth_account 2 1 (Some (9 * Second)); oauth_account 3 1 (Some (4 * Second));
   oauth_account 4 1 None].
Definition settings : SchedulingConfig :=
  {| StickySessionMaxWaiting := 3; StickySessionWaitTimeout := 45 * Second; FallbackWaitTimeout := 30 * Second;
     FallbackMaxWaiting := 100; FallbackSelectionMode := "last_used"; PreferSoonestReset := false |}.
(** Account 4 has used its requests, and takes only its sessions. *)
Definition checks : Checks :=
  {| ck_now := 100 * Second; ck_quota_exceeded := λ _, false; ck_model := λ _, true; ck_model_open := λ _, true;
     ck_model_limited := λ _, false; ck_cost := λ _, None; ck_rpm := λ id, if id =? 4 then 21 else 0 |}.
Definition request (sticky : Z) : SelectionRequest :=
  {| rq_accounts := group; rq_useMixed := true; rq_platform := PlatformAnthropic; rq_model := "m";
     rq_routing := []; rq_session := "s"; rq_sticky := sticky; rq_excluded := {[7]} |}.
Definition world (slot hydrated : bool) (session : option bool) : SOracle :=
  {| so_slot := slot; so_session := session; so_waiting := 0; so_loads := λ _, Some {[2 := 40; 3 := 40]};
     so_rank := id; so_draw := 0; so_now := 100 * Second; so_hydrated := λ a, if hydrated then Some (a ↾ eq_refl) else None |}.
Definition selects (sticky : Z) (os : list SOracle) : list SEvent * option (res SelErr Z) :=
  let (l, r) := run_alone (SelectAccountWithLoadAwareness settings checks (request sticky)) os [] in
  (l, (λ r, match r with Ok sd => Ok (sa_ID (sd_Account sd)) | Err e => Err e end) <$> r).

(** Of the accounts of the best priority that are as loaded, the one not used for longest. *)
Example longest_unused :
  selects 0 (replicate 20 (world true true (Some true))) =
  ([Asked 3 true; Registered 3; SessionBound 3], Some (Ok 3)).
Proof. vm_compute. reflexivity. Qed.
(** A session keeps an account that is closed to others. *)
Example session_keeps_its_account :
  selects 4 (replicate 20 (world true true (Some true))) =
  ([Asked 4 true; Registered 4; SessionRefreshed], Some (Ok 4)).
Proof. vm_compute. reflexivity. Qed.
(** Where no account has room for the session, every slot is returned. *)
Example no_room_for_the_session :
  selects 4 (replicate 30 (world true true (Some false))) =
  ([Asked 4 true; Returned 4; Asked 3 true; Returned 3; Asked 2 true; Returned 2; Asked 1 true; Returned 1],
   Some (Err ErrNoAvailableAccounts)).
Proof. vm_compute. reflexivity. Qed.
(** When the account cannot be read again for its credentials, its slot stays taken. *)
Example slot_is_leaked :
  let (l, r) := selects 0 (replicate 20 (world true false (Some true))) in
  r = Some (Err ErrHydration) ∧ held l = Some (Some 3).
Proof. vm_compute. done. Qed.

Lemma selection_sound_witness :
  ∃ l r h, run_alone (SelectAccountWithLoadAwareness settings checks (request 4))
             (replicate 48 (world true true (Some false))) [] = (l, Some r) ∧
           held l = Some h ∧ answered checks (request 4) r h.
Proof. apply (selection_sound settings checks (request 4)). vm_compute. lia. Defined.
End SelectionDemo.
